(* ===== verification/_CoqProject ===== *)
-Q . S2P
Prelude.v
GoStr.v
GoText.v
ExtErrors.v
UpdatePipe.v
Log.v
Future.v
Address.v
Checks.v
Config.v
Registry.v
RegistryFacts.v
ConfigLexer.v
ConfigParser.v
ConfigFacts.v
ConfigPrint.v
DnsCheck.v
DnsGuide.v
DnsZone.v
Limiters.v
Limits.v
TimeWheel.v
Backoff.v
ConfigMap.v
ConfigEndpoint.v
Module.v
SmtpConn.v
Pool.v
Downstream.v
Dns.v
MXAuth.v
Dsn.v
Disk.v
Buffers.v
Blob.v
Tls.v
QueueStore.v
Delivery.v
Queue.v
QueueFacts.v
QueueScan.v
Bounce.v
Tables.v
TableFile.v
SqlTable.v
DkimSign.v
PassTable.v
AuthBackends.v
Authz.v
Sasl.v
Shadow.v
Dnsbl.v
Modify.v
Dmarc.v
CheckRunner.v
StatelessChecks.v
MailAuth.v
CommandCheck.v
Blockchain.v
ImapFilter.v
ImapSql.v
UpdatePush.v
Rspamd.v
Milter.v
Pipeline.v
Quiet.v
PipelineFacts.v
PipelineCfg.v
Remote.v
RemoteFacts.v
Setup.v
CheckSetup.v
SmtpSetup.v
Imap.v
Session.v
SessionFacts.v
