(* ===== verification/Prelude.v ===== *)
(** * SirrMesh: a verification library of the mail server

    SirrMesh is a composable mail server written in Go.  A message enters through
    an endpoint, passes a message pipeline of checks, modifiers and routing rules,
    and is handed to delivery targets, of which the queue is the one that keeps it
    on disk and retries, and the remote target the one that speaks to other
    servers.  The library models that path, the configuration that builds it and
    the modules around it, from the source, as executable definitions, and proves
    what each part promises to the next.

    ** Conventions

    - A Go string is a [string] of bytes; a map is a [gmap], ranged over in the
      order of [map_to_list] or in any order (an argument [order]); a slice is a
      list.  Machine integers are [Z] with their wrap-around written out.
    - An error is [error], an optional [gerror] (ExtErrors): a tree of the error
      types the source builds and inspects.  A pair of a value and an error whose
      value is meaningless next to an error is a [Result].
    - A function that changes state or calls others that do is a [Prog W A], a
      state-passing program in a world [W] that returns or panics.  A function
      with several outcomes at one point (a select, a blocked call) is an [Outs].
      Goroutines that share state are a step relation over the shared state.
    - What the source gets from packages it imports is an argument or a class:
      Unicode tables, IDNA, NFC and PRECIS ([UnicodeTables], [TextLib]), header
      fields ([Textproto]), multipart writers, net/url, time and floats, the
      public suffix list and the DMARC record parser ([DmarcLib]), DNS
      ([DnsLib], [Resolver]), go-smtp's client ([SmtpLib]), MTA-STS policies
      ([PolicyWorld]), hashes and ciphers ([CryptoLib], [EthCrypto]), database/sql
      ([SqlLib]), LDAP ([LdapLib]), HTTP, JSON, processes and the file system of
      the tables ([FileWorld]).  Properties that need a law of these name it as a
      hypothesis and have a witness.
    - Meta-data of a message that several parts point to is passed along, and a
      write to it is an operation of its owner (ep_share of Session, the tags of
      Pipeline).  go-smtp calls a session's commands one at a time.

    ** Files and the code they model

    The base:
    - Prelude: results, panics, non-determinism, programs and their rules.
    - GoStr, GoText: strings, runes, strconv and the functions of package strings.
    - ExtErrors: framework/exterrors.  Log: framework/log.  Future:
      framework/future.  Address: framework/address and framework/dns.
    - Module: the interfaces of framework/module and framework/buffer.

    The configuration:
    - ConfigLexer, ConfigParser, with ConfigFacts and ConfigPrint:
      framework/config/lexer and framework/cfgparser.  Config: their nodes.
    - ConfigMap, ConfigEndpoint: framework/config/map.go and endpoint.go.
    - Registry, with RegistryFacts: modules, instances, hooks, start and shutdown
      (framework/module, framework/hooks, cmd/sirrmeshd/cmd/mail.go).
    - Checks: framework/config/module/check_action.go and the CheckResult of
      framework/module/check.go.  Tls: framework/config/tls, internal/tls/file.go
      and internal/proxy_protocol.  Setup: global settings, directories, and Init
      of the queue, the remote target and MTA-STS.  CheckSetup: Init of the checks,
      of target.smtp, modify.dkim and msgpipeline, and the early checks.
    - DnsCheck, DnsGuide, DnsZone: the dns commands of cmd/sirrmeshd/cmd/dns.go.

    Receiving:
    - Session, with SessionFacts, and SmtpSetup: internal/endpoint/smtp.
    - Buffers: framework/buffer and the buffer modes.  Imap: the IMAP and Dovecot
      SASL endpoints.
    - Limiters, Limits: internal/limits.
    - Sasl, PassTable, Shadow, AuthBackends, Blockchain: internal/auth (and
      internal/blockchain).  Authz: internal/authz and authorize_sender.

    The pipeline (internal/msgpipeline):
    - CheckRunner, Pipeline, with Quiet and PipelineFacts, and PipelineCfg.
    - checks (internal/check): StatelessChecks, MailAuth (SPF, DKIM), Dnsbl,
      CommandCheck, Rspamd, Milter.  Dmarc: internal/dmarc.
    - modifiers (internal/modify): Modify, DkimSign, Blockchain.
    - Tables, TableFile, SqlTable: internal/table.

    Delivering:
    - TimeWheel, Backoff, Disk, QueueStore, Delivery, Queue, with QueueFacts and
      QueueScan: internal/target/queue.  Dsn, Bounce: internal/dsn and the bounces
      of the queue.
    - SmtpConn, Pool: internal/smtpconn.  Dns: framework/dns.  MXAuth, Remote,
      with RemoteFacts: internal/target/remote.  Downstream: internal/target/smtp.
    - ImapSql, UpdatePush, ImapFilter, Blob: internal/storage and
      internal/imap_filter.  UpdatePipe: internal/updatepipe.

    ** How the parts meet

    [Delivery] and [DeliveryTarget] (Module) are the interface between whoever
    sends and whoever takes a message: Delivery proves that the queue follows its
    protocol towards any target, Pipeline and Queue are targets themselves, and
    Session proves its side against any pipeline.  [Table] (Tables) is what
    Sasl, Authz, Modify and ImapSql ask; SqlTable and TableFile are tables.  The
    pipeline takes checks and modifiers as the records of CheckRunner and Modify;
    Remote takes its pool and its policies as operations, which Pool and MXAuth
    implement; [BlobStore] (Blob) is the class that the directory store
    implements and go-imap-sql's wrapper uses.

    ** What is proved

    - The queue: a message it accepts is on disk before it says so, survives any
      crash with its body, is scheduled by the next start, leaves the queue after at
      most max_tries attempts for each time a recipient is listed, and each recipient
      is delivered, retried or reported exactly as the answers of the target say ([queue_accepts], [queue_drains],
      [storeNewMessage_durable], [updateMetadataOnDisk_crash_safe],
      [readDiskQueue_schedules], [settle_partition], [deliver_outcome],
      [deliver_protocol], [emitDSN_bounces], [bounce_described]).  The disk is a
      file system with faults in which a crash loses what was not synced (Disk);
      the states a crash may leave are those of the history of the program.
    - The time wheel dispatches every slot once, never early, and once it is due
      after a bounded number of steps ([TimeWheel_safe], [TimeWheel_live]), over
      all interleavings of its step relation.
    - The pipeline: whatever checks, modifiers and schedules do, each target sees
      a well-formed delivery ([pipeline_transaction]); the verdict of a group of
      checks does not depend on how their goroutines interleave
      ([merge_verdict]); a parsed configuration routes every recipient
      ([New_routes]).
    - A session counts its tokens right in any order of commands, and an orderly one
      follows the transaction automaton and gives back its tokens
      ([session_transactions], [deferred_error_sticks]); an endpoint that starts
      serves its addresses as configured ([smtp_started]); what comes of a message is
      buffered whole ([buffered_whole]).
    - Remote delivery: a REQUIRETLS message goes out on a new, vetted connection
      ([requiretls_enforced]), an accepted connection passed every policy
      ([attemptMX_policies]), DANE believes authenticated records only
      ([dane_authenticated]); the pool loses, duplicates and misdelivers nothing
      in any interleaving ([pool_safe]).
    - Configuration: reading ends on every input ([Read_terminates]), a printed
      tree is read back ([Read_print]), processing a block has one outcome in any
      map order ([ProcessWith_spec], [tls_block_spec]); modules start once and
      are closed once, last first ([modules_lifecycle]).
    - Authentication: [sasl_success], [create_then_auth], [shadow_login],
      [evm_login], [ldap_login], [imap_login]; who may send as whom:
      [authorize_sender_spec].
    - Limits: tokens are taken for all scopes or none, and given back exactly
      ([TakeMsg_balanced], [ReleaseMsg_undoes_TakeMsg],
      [MultiLimit_concurrent_safe], [Rate_bound]).
    - Checks and modifiers: [checkLists_verdict], [dkim_verdict],
      [fail_open_accepts], [dkim_signature], [transaction_sent_once], and the
      verdict of DMARC in any order of the results.
    - Storage: [one_copy_each], [oldest_rcpt_decides], [blob_durable]; updates
      between processes arrive in the order of their connection ([pipe_delivers]) and
      are lost only by a panic ([updates_pushed]); a generated SQL table is a map, with
      SQLite and PostgreSQL ([sql_table_is_map]), a
      file table is read back ([file_read_back]).
    - [log_read_back], [future_agrees], and the DNS commands ([exports_agree],
      [dns_check_verdict]).
    - Lemmas named after a defect ([TakeMsg_nil_ip_panics],
      [BucketSet_full_panics], [storeNewMessage_sync_failure_keeps_message],
      [Apply_pct], [unreasoned_reject_hides_rejection],
      [BodyNonAtomic_drops_quarantine], [overflown_size_panics], ...) state what
      the code does where it differs from its comments or its intent.

    ** Bounds and fuel

    Most definitions recurse on their data.  Where they do not, the fuel is a
    function of the input, and a lemma shows that it is enough or that more gives
    the same: a parser's is three times its tokens and one ([parse_fuel],
    [Read_terminates]), the tokens of the lexer, durations and names the length
    of the text, nested pipelines the depth of the configuration
    ([pipeline_New_fuel]), nested Init calls the instances that are not yet started
    and how deep inline modules nest below each ([modules_lifecycle]), the recipients of a filter their number.  Imports nest
    at most 256 deep, as in the source; connecting takes at most three rounds
    ([connect_loop_rounds]).  [go_pow] (Backoff) iterates over the 53 bits of a
    float64 mantissa, and printing of integers over the digits of an int64.

    ** Abstractions

    Files of the queue hold typed values, not the bytes of JSON; operations on a
    directory take effect in order.  A nil map of tries is an empty one.  One
    dispatch of the queue is followed at a time; the disk is shared by none of
    the files of two messages.  The text of trace fields and message IDs is made
    by parameters.  A reader is the script of its chunks and its error, and does
    not return nothing for ever.  Modules that a directive names are parameters of
    the component that asks for them; what naming them does is in Registry.
    Metrics and tracing are left out, and log lines except in Log.

    ** Not modelled

    The command line and its account commands, signals and systemd, metrics, the
    ACME and self-signed loaders and the ACME DNS providers (glue around
    certmagic, crypto/x509 and libdns), S3 blobs, libpam, the PostgreSQL broker's
    connection, the wire protocols of go-smtp, go-imap, go-milter, go-dovecot-sasl
    and go-proxyprotocol, and the helpers of the tests. *)
From stdpp Require Export base numbers option list list_numbers strings gmap sets fin_maps.
From stdpp Require Export relations.
From Stdlib Require Export Lia ZArith.

(** ** Scopes, results and panics *)

Declare Scope go_scope.
Delimit Scope go_scope with go.

(** A Go function that returns [(T, error)] where the value is meaningless when
    the error is not nil. *)
Inductive Result (E A : Type) : Type :=
| Ok (a : A)
| Err (e : E).
Global Arguments Ok {_ _} _.
Global Arguments Err {_ _} _.

Global Instance result_ret {E} : MRet (Result E) := fun A a => Ok a.
Global Instance result_bind {E} : MBind (Result E) := fun A B f r =>
  match r with Ok a => f a | Err e => Err e end.

(** A Go computation that may panic instead of returning. *)
Inductive Outcome (A : Type) : Type :=
| Done (a : A)
| Panicked (why : string).
Global Arguments Done {_} _.
Global Arguments Panicked {_} _.

Global Instance outcome_ret : MRet Outcome := fun A a => Done a.
Global Instance outcome_bind : MBind Outcome := fun A B f o =>
  match o with Done a => f a | Panicked w => Panicked w end.

Global Instance outcome_fmap : FMap Outcome := fun A B f o =>
  match o with Done a => Done (f a) | Panicked w => Panicked w end.

Global Instance result_eq_dec {E A} `{EqDecision E, EqDecision A} : EqDecision (Result E A).
Proof. solve_decision. Defined.
Global Instance outcome_eq_dec {A} `{EqDecision A} : EqDecision (Outcome A).
Proof. solve_decision. Defined.

Definition is_ok {E A} (r : Result E A) : bool :=
  match r with Ok _ => true | Err _ => false end.

Lemma bind_Ok {E A B} (f : A -> Result E B) (r : Result E A) b :
  (r ≫= f) = Ok b <-> exists a, r = Ok a /\ f a = Ok b.
Proof. destruct r; simpl; naive_solver. Qed.

Lemma bind_Err {E A B} (f : A -> Result E B) (r : Result E A) e :
  (r ≫= f) = Err e <-> r = Err e \/ exists a, r = Ok a /\ f a = Err e.
Proof. destruct r; simpl; naive_solver. Qed.

Lemma bind_Done {A B} (f : A -> Outcome B) (o : Outcome A) b :
  (o ≫= f) = Done b <-> exists a, o = Done a /\ f a = Done b.
Proof. destruct o; simpl; naive_solver. Qed.

(** ** Tactics of the development *)

(** Case analysis on the innermost match of the goal or of a hypothesis, with
    the equation kept. *)
Ltac case_on_goal :=
  match goal with
  | |- context [match ?x with _ => _ end] =>
      lazymatch x with
      | context [match _ with _ => _ end] => fail
      | _ => destruct x eqn:?
      end
  end.
Ltac case_on_hyp H :=
  match type of H with
  | context [match ?x with _ => _ end] =>
      lazymatch x with
      | context [match _ with _ => _ end] => fail
      | _ => destruct x eqn:?
      end
  end.

(** Invert a chain of binds that succeeded. *)
Ltac inv_bind H :=
  match type of H with
  | (_ ≫= _) = Ok _ => apply bind_Ok in H as (? & ? & H)
  | (_ ≫= _) = Done _ => apply bind_Done in H as (? & ? & H)
  end.

(** Explore every branch of a translated function that ends in [H]. *)
Ltac branches H := repeat first [inv_bind H | case_on_hyp H; simplify_eq/=]; simplify_eq/=.
Ltac split_goal := repeat (case_on_goal; simplify_eq/=; try done).

Create HintDb go.

(** ** Non-determinism

    [Outs A] lists the outcomes a call may have at one point of an execution:
    several when a Go [select] has several ready cases, none when the call
    blocks. *)
Definition Outs (A : Type) : Type := list (Outcome A).

Definition outs_bind {A B} (m : Outs A) (f : A -> Outs B) : Outs B :=
  mbind (M := list) (fun o => match o with Done a => f a | Panicked w => [Panicked w] end) m.

Notation "x <-! m ; k" := (outs_bind m (fun x => k))
  (at level 20, m at level 100, k at level 200, right associativity) : go_scope.
Notation "' x <-! m ; k" := (outs_bind m (fun x => k))
  (at level 20, x pattern, m at level 100, k at level 200, right associativity) : go_scope.

Lemma elem_of_outs_bind {A B} (m : Outs A) (f : A -> Outs B) o :
  o ∈ outs_bind m f <->
  (exists a, Done a ∈ m /\ o ∈ f a) \/ (exists w, Panicked w ∈ m /\ o = Panicked w).
Proof.
  unfold outs_bind. rewrite list_elem_of_bind. split.
  - intros ([a|w] & Hin & Hm); [left; eauto|].
    apply list_elem_of_singleton in Hin. right. eauto.
  - intros [(a & Hm & Hin)|(w & Hm & ->)]; [by exists (Done a)|].
    exists (Panicked w). split; [left|done].
Qed.

(** [holds m P]: the call does not panic and each of its outcomes satisfies [P]. *)
Definition holds {A} (m : Outs A) (P : A -> Prop) : Prop :=
  forall o, o ∈ m -> exists a, o = Done a /\ P a.

Lemma holds_bind {A B} (m : Outs A) (f : A -> Outs B) (P : A -> Prop) (Q : B -> Prop) :
  holds m P -> (forall a, P a -> holds (f a) Q) -> holds (outs_bind m f) Q.
Proof.
  intros HP HQ o [(a & Hm & Hin)|(w & Hm & ->)]%elem_of_outs_bind.
  - destruct (HP _ Hm) as (a' & E & Ha). simplify_eq. by apply (HQ a').
  - by destruct (HP _ Hm) as (a' & E & Ha).
Qed.

Lemma holds_ret {A} (a : A) (P : A -> Prop) : P a -> holds [Done a] P.
Proof. intros Ha o ->%list_elem_of_singleton. eauto. Qed.

Lemma holds_nil {A} (P : A -> Prop) : holds [] P.
Proof. intros o []%elem_of_nil. Qed.

Lemma holds_weaken {A} (m : Outs A) (P Q : A -> Prop) :
  holds m P -> (forall a, P a -> Q a) -> holds m Q.
Proof. intros HP HQ o Ho. destruct (HP o Ho) as (a & -> & Ha). eauto. Qed.

Lemma holds_app {A} (m k : Outs A) (P : A -> Prop) : holds m P -> holds k P -> holds (m ++ k) P.
Proof. intros Hm Hk o [?|?]%elem_of_app; auto. Qed.

#[export] Hint Resolve holds_ret holds_nil holds_app : go.

(** ** Stateful programs

    [Prog W A] is a Go function run in a world [W]: it changes the world and then
    returns or panics. *)
Definition Prog (W A : Type) : Type := W -> W * Outcome A.

Global Instance prog_ret {W} : MRet (Prog W) := fun A a w => (w, Done a).
Global Instance prog_bind {W} : MBind (Prog W) := fun A B f m w =>
  match m w with
  | (w', Done a) => f a w'
  | (w', Panicked why) => (w', Panicked why)
  end.
Global Instance prog_fmap {W} : FMap (Prog W) := fun A B f m w =>
  match m w with
  | (w', Done a) => (w', Done (f a))
  | (w', Panicked why) => (w', Panicked why)
  end.

Definition panic {W A} (why : string) : Prog W A := fun w => (w, Panicked why).
Definition gets {W A} (f : W -> A) : Prog W A := fun w => (w, Done (f w)).
Definition modify {W} (f : W -> W) : Prog W unit := fun w => (f w, Done tt).

(** A loop over a list. *)
Fixpoint for_each {W A} (f : A -> Prog W unit) (l : list A) : Prog W unit :=
  match l with
  | [] => mret tt
  | a :: l => f a ;; for_each f l
  end.

(** A program of one component run inside the world of another. *)
Definition lift {W V A} (get : W -> V) (put : V -> W -> W) (m : Prog V A) : Prog W A := fun w =>
  let '(v, o) := m (get w) in (put v w, o).

(** [spec P m Q]: from a world satisfying [P], when [m] returns, value and world
    satisfy [Q]. *)
Definition spec {W A} (P : W -> Prop) (m : Prog W A) (Q : A -> W -> Prop) : Prop :=
  forall w w' a, P w -> m w = (w', Done a) -> Q a w'.

Lemma prog_bind_Done {W A B} (m : Prog W A) (f : A -> Prog W B) w w' b :
  (m ≫= f) w = (w', Done b) <-> exists w1 a, m w = (w1, Done a) /\ f a w1 = (w', Done b).
Proof.
  unfold mbind, prog_bind. destruct (m w) as [w1 [a|why]]; split; try naive_solver.
Qed.

Lemma prog_bind_run {W A B} (m : Prog W A) (f : A -> Prog W B) w w' o :
  (m ≫= f) w = (w', o) ->
  (exists w1 a, m w = (w1, Done a) /\ f a w1 = (w', o)) \/
  (exists why, m w = (w', Panicked why) /\ o = Panicked why).
Proof. unfold mbind, prog_bind. destruct (m w) as [w1 [a|why]]; naive_solver. Qed.

Lemma prog_bind_eq {W A B} (m : Prog W A) (f : A -> Prog W B) w w1 a :
  m w = (w1, Done a) -> (m ≫= f) w = f a w1.
Proof. intros E. unfold mbind, prog_bind. by rewrite E. Qed.

Lemma spec_ret {W A} (P : W -> Prop) (a : A) (Q : A -> W -> Prop) :
  (forall w, P w -> Q a w) -> spec P (mret a) Q.
Proof. intros HQ w w' b HP E. cbv [mret prog_ret] in E. simplify_eq. auto. Qed.

Lemma spec_bind {W A B} (P : W -> Prop) (m : Prog W A) (R : A -> W -> Prop) (f : A -> Prog W B) Q :
  spec P m R -> (forall a, spec (R a) (f a) Q) -> spec P (m ≫= f) Q.
Proof.
  intros Hm Hf w w' b HP (w1 & a & E1 & E2)%prog_bind_Done.
  eapply Hf; [|exact E2]. by eapply Hm.
Qed.

Lemma spec_weaken {W A} (P P' : W -> Prop) (m : Prog W A) (Q Q' : A -> W -> Prop) :
  spec P' m Q' -> (forall w, P w -> P' w) -> (forall a w, Q' a w -> Q a w) -> spec P m Q.
Proof. intros Hm HP HQ w w' a Hw E. eapply HQ, Hm; eauto. Qed.

Lemma spec_for_each {W A} (I : list A -> W -> Prop) (f : A -> Prog W unit) (l done : list A) :
  (forall a done', spec (I done') (f a) (fun _ => I (done' ++ [a]))) ->
  spec (I done) (for_each f l) (fun _ => I (done ++ l)).
Proof.
  intros Hf. revert done. induction l as [|a l IH]; intros done; simpl.
  - apply spec_ret. by rewrite app_nil_r.
  - rewrite cons_middle, app_assoc.
    eapply spec_bind; [apply Hf|]. intros u. apply IH.
Qed.

(** Invert a program that returned. *)
Ltac inv_prog H :=
  match type of H with
  | (_ ≫= _) _ = (_, Done _) =>
      let w := fresh "w" in let a := fresh "a" in let E := fresh "E" in
      apply prog_bind_Done in H as (w & a & E & H); simpl in E, H
  end.
