(* ===== verification/GoStr.v ===== *)
(** * GoStr: Go strings, runes and the string functions the source uses

    A Go string is a sequence of bytes: here a [string] (each [ascii] is one
    byte).  [runes] is what [for _, ch := range s] iterates over: the UTF-8
    decoding of the bytes, with U+FFFD for every byte that does not start a
    valid sequence (package [unicode/utf8]).  The functions of [strings],
    [strconv] and [unicode] follow the Go standard library; the tables of
    package [unicode] above U+007F are the class [UnicodeTables]. *)
From S2P Require Import Prelude.
From Stdlib Require Import Ascii ZifyBool.

Local Open Scope Z_scope.

(** ** Bytes *)

Definition byte_of (a : ascii) : Z := Z.of_N (N_of_ascii a).
Definition of_byte (z : Z) : ascii := ascii_of_N (Z.to_N z).

Fixpoint to_bytes (s : string) : list Z :=
  match s with
  | EmptyString => []
  | String a s => byte_of a :: to_bytes s
  end.
Fixpoint of_bytes (l : list Z) : string :=
  match l with
  | [] => EmptyString
  | b :: l => String (of_byte b) (of_bytes l)
  end.

(** ** UTF-8 *)

Definition RuneError : Z := 65533.

Definition utf8_cont (b : Z) : bool := (128 <=? b) && (b <=? 191).
Definition utf8_ok2 (b0 b1 : Z) : bool :=
  (194 <=? b0) && (b0 <=? 223) && utf8_cont b1.
Definition utf8_ok3 (b0 b1 b2 : Z) : bool :=
  (224 <=? b0) && (b0 <=? 239)
  && ((if b0 =? 224 then 160 else 128) <=? b1)
  && (b1 <=? (if b0 =? 237 then 159 else 191)) && utf8_cont b2.
Definition utf8_ok4 (b0 b1 b2 b3 : Z) : bool :=
  (240 <=? b0) && (b0 <=? 244)
  && ((if b0 =? 240 then 144 else 128) <=? b1)
  && (b1 <=? (if b0 =? 244 then 143 else 191)) && utf8_cont b2 && utf8_cont b3.

(** utf8.DecodeRune repeated over the whole string. *)
Fixpoint decode_runes (l : list Z) : list Z :=
  match l with
  | [] => []
  | b0 :: l1 =>
    if b0 <? 128 then b0 :: decode_runes l1 else
    match l1 with
    | b1 :: l2 =>
      if utf8_ok2 b0 b1 then ((b0 mod 32) * 64 + b1 mod 64) :: decode_runes l2 else
      match l2 with
      | b2 :: l3 =>
        if utf8_ok3 b0 b1 b2
        then ((b0 mod 16) * 4096 + (b1 mod 64) * 64 + b2 mod 64) :: decode_runes l3 else
        match l3 with
        | b3 :: l4 =>
          if utf8_ok4 b0 b1 b2 b3
          then ((b0 mod 8) * 262144 + (b1 mod 64) * 4096 + (b2 mod 64) * 64 + b3 mod 64)
               :: decode_runes l4
          else RuneError :: decode_runes l1
        | [] => RuneError :: decode_runes l1
        end
      | [] => RuneError :: decode_runes l1
      end
    | [] => RuneError :: decode_runes l1
    end
  end.

Definition valid_rune (r : Z) : bool :=
  ((0 <=? r) && (r <? 55296)) || ((57344 <=? r) && (r <=? 1114111)).

(** utf8.AppendRune: an invalid rune is written as U+FFFD. *)
Definition encode_rune (r : Z) : list Z :=
  if negb (valid_rune r) then [239; 191; 189]
  else if r <? 128 then [r]
  else if r <? 2048 then [192 + r / 64; 128 + r mod 64]
  else if r <? 65536 then [224 + r / 4096; 128 + (r / 64) mod 64; 128 + r mod 64]
  else [240 + r / 262144; 128 + (r / 4096) mod 64; 128 + (r / 64) mod 64; 128 + r mod 64].

Definition encode_runes (rs : list Z) : list Z := concat (map encode_rune rs).

Definition runes (s : string) : list Z := decode_runes (to_bytes s).
Definition string_of_runes (rs : list Z) : string := of_bytes (encode_runes rs).

(** utf8.ValidString, as "decoding loses nothing". *)
Definition valid_utf8 (s : string) : bool := bool_decide (string_of_runes (runes s) = s).

(** ** Unicode tables above U+007F *)

Class UnicodeTables := {
  uni_lower : Z -> Z;         (* unicode.ToLower *)
  uni_fold : Z -> Z -> bool;  (* same unicode.SimpleFold orbit *)
  uni_space : Z -> bool;      (* unicode.IsSpace *)
  uni_letter : Z -> bool;     (* unicode.IsLetter *)
  uni_digit : Z -> bool       (* unicode.IsDigit *)
}.

Definition ascii_lower (r : Z) : Z := if (65 <=? r) && (r <=? 90) then r + 32 else r.

Section Unicode.
Context `{UnicodeTables}.

Definition rune_lower (r : Z) : Z := if r <? 128 then ascii_lower r else uni_lower r.

(** strings.ToLower = strings.Map(unicode.ToLower). *)
Definition ToLower (s : string) : string := string_of_runes (map rune_lower (runes s)).

(** The comparison strings.EqualFold makes for one pair of runes.  U+017F and
    U+212A are the only runes above ASCII in the orbit of an ASCII letter. *)
Definition rune_fold (a b : Z) : bool :=
  let lo := Z.min a b in
  let hi := Z.max a b in
  if lo =? hi then true
  else if hi <? 128 then (65 <=? lo) && (lo <=? 90) && (hi =? lo + 32)
  else if lo <? 128 then
    ((hi =? 383) && ((lo =? 83) || (lo =? 115)))
    || ((hi =? 8490) && ((lo =? 75) || (lo =? 107)))
  else uni_fold lo hi.

Fixpoint runes_fold (a b : list Z) : bool :=
  match a, b with
  | [], [] => true
  | x :: a, y :: b => rune_fold x y && runes_fold a b
  | _, _ => false
  end.

Definition EqualFold (s t : string) : bool := runes_fold (runes s) (runes t).

Definition IsSpace (r : Z) : bool :=
  if r <? 128 then ((9 <=? r) && (r <=? 13)) || (r =? 32) else uni_space r.
Definition IsDigit (r : Z) : bool :=
  if r <? 128 then (48 <=? r) && (r <=? 57) else uni_digit r.
Definition IsLetter (r : Z) : bool :=
  if r <? 128 then ((65 <=? r) && (r <=? 90)) || ((97 <=? r) && (r <=? 122)) else uni_letter r.
End Unicode.

(** ASCII-only tables: used by the witnesses. *)
Definition ascii_tables : UnicodeTables := {|
  uni_lower := fun r => r; uni_fold := Z.eqb;
  uni_space := fun _ => false; uni_letter := fun _ => false; uni_digit := fun _ => false |}.

(** ** Functions on bytes *)

Fixpoint str_take (n : nat) (s : string) : string :=
  match n, s with
  | S n, String a s => String a (str_take n s)
  | _, _ => EmptyString
  end.
Fixpoint str_drop (n : nat) (s : string) : string :=
  match n, s with
  | S n, String _ s => str_drop n s
  | _, s => s
  end.

(** strings.LastIndexByte; [None] stands for -1. *)
Fixpoint LastIndexByte (s : string) (c : ascii) : option nat :=
  match s with
  | EmptyString => None
  | String a s =>
    match LastIndexByte s c with
    | Some i => Some (S i)
    | None => if decide (a = c) then Some O else None
    end
  end.

Fixpoint HasPrefix (s p : string) : bool :=
  match p, s with
  | EmptyString, _ => true
  | String b p, String a s => bool_decide (a = b) && HasPrefix s p
  | String _ _, EmptyString => false
  end.
Definition HasSuffix (s p : string) : bool :=
  (String.length p <=? String.length s)%nat
  && bool_decide (str_drop (String.length s - String.length p) s = p).
Definition TrimSuffix (s p : string) : string :=
  if HasSuffix s p then str_take (String.length s - String.length p) s else s.
Fixpoint Contains (s sub : string) : bool :=
  HasPrefix s sub ||
  match s with EmptyString => false | String _ s => Contains s sub end.
Definition ContainsByte (s : string) (c : ascii) : bool :=
  match LastIndexByte s c with Some _ => true | None => false end.

(** strings.Split with a one-byte separator. *)
Fixpoint SplitByte (s : string) (c : ascii) : list string :=
  match s with
  | EmptyString => [EmptyString]
  | String a s =>
    if decide (a = c) then EmptyString :: SplitByte s c
    else match SplitByte s c with
         | p :: ps => String a p :: ps
         | [] => [String a EmptyString]
         end
  end.

Fixpoint JoinByte (l : list string) (c : ascii) : string :=
  match l with
  | [] => EmptyString
  | [p] => p
  | p :: ps => p +:+ String c (JoinByte ps c)
  end.

(** ** strconv.Atoi (64-bit int) *)

Inductive NumErr := ErrSyntax | ErrRange.
Global Instance NumErr_eq_dec : EqDecision NumErr.
Proof. solve_decision. Defined.

Definition maxUint64 : Z := 18446744073709551615.

(** strconv.ParseUint in base 10: stops at the first bad or overflowing digit. *)
Fixpoint parse_uint (l : list Z) (n : Z) : Result NumErr Z :=
  match l with
  | [] => Ok n
  | b :: l =>
    if negb ((48 <=? b) && (b <=? 57)) then Err ErrSyntax
    else if maxUint64 / 10 + 1 <=? n then Err ErrRange
    else let n1 := n * 10 + (b - 48) in
         if maxUint64 <? n1 then Err ErrRange else parse_uint l n1
  end.

Definition Atoi (s : string) : Result NumErr Z :=
  match to_bytes s with
  | [] => Err ErrSyntax
  | b :: l =>
    let neg := b =? 45 in
    let digits := if (b =? 43) || (b =? 45) then l else b :: l in
    match digits with
    | [] => Err ErrSyntax
    | _ =>
      un ← parse_uint digits 0;
      if negb neg && (9223372036854775808 <=? un) then Err ErrRange
      else if neg && (9223372036854775808 <? un) then Err ErrRange
      else Ok (if neg then - un else un)
    end
  end.

(** ** Lemmas *)

Lemma byte_of_range a : 0 <= byte_of a < 256.
Proof. unfold byte_of. pose proof (N_ascii_bounded a). lia. Qed.

Lemma of_byte_of a : of_byte (byte_of a) = a.
Proof. unfold of_byte, byte_of. rewrite N2Z.id. apply ascii_N_embedding. Qed.

Lemma byte_of_of z : 0 <= z < 256 -> byte_of (of_byte z) = z.
Proof. intros. unfold of_byte, byte_of. rewrite N_ascii_embedding; lia. Qed.

Lemma of_to_bytes s : of_bytes (to_bytes s) = s.
Proof. induction s as [|a s IH]; simpl; [done|]. by rewrite of_byte_of, IH. Qed.

Lemma to_of_bytes l : Forall (fun b => 0 <= b < 256) l -> to_bytes (of_bytes l) = l.
Proof. induction 1; simpl; [done|]. by rewrite byte_of_of, IHForall. Qed.

Lemma to_bytes_range s : Forall (fun b => 0 <= b < 256) (to_bytes s).
Proof. induction s; simpl; constructor; auto using byte_of_range. Qed.

Lemma to_bytes_app s t : to_bytes (s +:+ t) = to_bytes s ++ to_bytes t.
Proof.
  induction s as [|a s IH]; [done|].
  change (byte_of a :: to_bytes (s +:+ t) = byte_of a :: (to_bytes s ++ to_bytes t)).
  by rewrite IH.
Qed.

Lemma of_bytes_app l k : of_bytes (l ++ k) = of_bytes l +:+ of_bytes k.
Proof. induction l as [|b l IH]; [done|]. simpl. rewrite IH. done. Qed.

Lemma to_bytes_inj s t : to_bytes s = to_bytes t -> s = t.
Proof. intros E. by rewrite <- (of_to_bytes s), <- (of_to_bytes t), E. Qed.

(** *** UTF-8 round trip *)

Ltac zdivmod := Z.to_euclidean_division_equations; lia.

Lemma encode_rune_bytes r : Forall (fun b => 0 <= b < 256) (encode_rune r).
Proof.
  unfold encode_rune, valid_rune.
  repeat case_match; repeat (constructor; try zdivmod).
Qed.

Lemma encode_runes_bytes rs : Forall (fun b => 0 <= b < 256) (encode_runes rs).
Proof. unfold encode_runes. induction rs; simpl; auto using Forall_app_2, encode_rune_bytes. Qed.

Lemma encode_runes_app a b : encode_runes (a ++ b) = encode_runes a ++ encode_runes b.
Proof. unfold encode_runes. by rewrite map_app, concat_app. Qed.

(** The decoder's branch for each length of encoding. *)
Lemma decode_1 b0 l : b0 < 128 -> decode_runes (b0 :: l) = b0 :: decode_runes l.
Proof. intros. simpl. replace (b0 <? 128) with true by lia. done. Qed.

Lemma decode_2 b0 b1 l :
  utf8_ok2 b0 b1 = true ->
  decode_runes (b0 :: b1 :: l) = ((b0 mod 32) * 64 + b1 mod 64) :: decode_runes l.
Proof.
  intros H. simpl. rewrite H.
  replace (b0 <? 128) with false by (unfold utf8_ok2 in H; lia). done.
Qed.

Lemma decode_3 b0 b1 b2 l :
  utf8_ok3 b0 b1 b2 = true ->
  decode_runes (b0 :: b1 :: b2 :: l)
  = ((b0 mod 16) * 4096 + (b1 mod 64) * 64 + b2 mod 64) :: decode_runes l.
Proof.
  intros H. simpl. rewrite H.
  replace (utf8_ok2 b0 b1) with false by (unfold utf8_ok3, utf8_ok2 in *; lia).
  replace (b0 <? 128) with false by (unfold utf8_ok3 in H; lia). done.
Qed.

Lemma decode_4 b0 b1 b2 b3 l :
  utf8_ok4 b0 b1 b2 b3 = true ->
  decode_runes (b0 :: b1 :: b2 :: b3 :: l)
  = ((b0 mod 8) * 262144 + (b1 mod 64) * 4096 + (b2 mod 64) * 64 + b3 mod 64) :: decode_runes l.
Proof.
  intros H. simpl. rewrite H.
  replace (utf8_ok3 b0 b1 b2) with false by (unfold utf8_ok4, utf8_ok3 in *; lia).
  replace (utf8_ok2 b0 b1) with false by (unfold utf8_ok4, utf8_ok2 in *; lia).
  replace (b0 <? 128) with false by (unfold utf8_ok4 in H; lia). done.
Qed.

Lemma decode_encode_rune r l :
  valid_rune r = true -> decode_runes (encode_rune r ++ l) = r :: decode_runes l.
Proof.
  intros V. unfold encode_rune. rewrite V. simpl negb. cbv iota.
  unfold valid_rune in V.
  destruct (r <? 128) eqn:?; [apply decode_1; lia|].
  destruct (r <? 2048) eqn:?.
  { cbn [app]. rewrite decode_2; [f_equal; zdivmod|]. unfold utf8_ok2, utf8_cont. zdivmod. }
  destruct (r <? 65536) eqn:?.
  { cbn [app]. rewrite decode_3; [f_equal; zdivmod|].
    unfold utf8_ok3, utf8_cont. case_match; case_match; zdivmod. }
  cbn [app]. rewrite decode_4; [f_equal; zdivmod|].
  unfold utf8_ok4, utf8_cont. case_match; case_match; zdivmod.
Qed.

Lemma decode_encode_runes rs :
  Forall (fun r => valid_rune r = true) rs -> decode_runes (encode_runes rs) = rs.
Proof.
  induction 1 as [|r rs V _ IH]; [done|].
  change (encode_runes (r :: rs)) with (encode_rune r ++ encode_runes rs).
  by rewrite decode_encode_rune, IH.
Qed.

Lemma runes_of_runes rs :
  Forall (fun r => valid_rune r = true) rs -> runes (string_of_runes rs) = rs.
Proof.
  intros V. unfold runes, string_of_runes.
  rewrite to_of_bytes by apply encode_runes_bytes. by apply decode_encode_runes.
Qed.

Lemma string_of_runes_app a b :
  string_of_runes (a ++ b) = string_of_runes a +:+ string_of_runes b.
Proof. unfold string_of_runes. by rewrite encode_runes_app, of_bytes_app. Qed.

(** Every rune a range loop yields is a valid rune. *)
Lemma decode_runes_valid l :
  Forall (fun b => 0 <= b < 256) l -> Forall (fun r => valid_rune r = true) (decode_runes l).
Proof.
  remember (length l) as n eqn:E. revert l E.
  induction n as [n IH] using lt_wf_ind; intros l -> F.
  destruct l as [|b0 l1]; [constructor|].
  inversion F as [|? ? R0 F1]; subst; clear F.
  assert (IH1 := IH (length l1) ltac:(simpl; lia) l1 eq_refl F1).
  simpl. destruct (b0 <? 128) eqn:?; [constructor; [unfold valid_rune; lia|done]|].
  destruct l1 as [|b1 l2]; [by constructor|].
  inversion F1 as [|? ? R1 F2]; subst; clear F1.
  assert (IH2 := IH (length l2) ltac:(simpl; lia) l2 eq_refl F2).
  destruct (utf8_ok2 b0 b1) eqn:E2.
  { constructor; [|done]. unfold utf8_ok2, utf8_cont, valid_rune in *. zdivmod. }
  destruct l2 as [|b2 l3]; [by constructor|].
  inversion F2 as [|? ? R2 F3]; subst; clear F2.
  assert (IH3 := IH (length l3) ltac:(simpl; lia) l3 eq_refl F3).
  destruct (utf8_ok3 b0 b1 b2) eqn:E3.
  { constructor; [|done]. unfold utf8_ok3, utf8_cont, valid_rune in *.
    clear IH IH1 IH2 IH3 E2. destruct (b0 =? 224) eqn:?, (b0 =? 237) eqn:?; zdivmod. }
  destruct l3 as [|b3 l4]; [by constructor|].
  inversion F3 as [|? ? R3 F4]; subst; clear F3.
  assert (IH4 := IH (length l4) ltac:(simpl; lia) l4 eq_refl F4).
  destruct (utf8_ok4 b0 b1 b2 b3) eqn:E4; constructor; try done.
  unfold utf8_ok4, utf8_cont, valid_rune in *. clear IH IH1 IH2 IH3 IH4 E2 E3.
  destruct (b0 =? 240) eqn:?, (b0 =? 244) eqn:?; zdivmod.
Qed.

Lemma runes_valid s : Forall (fun r => valid_rune r = true) (runes s).
Proof. apply decode_runes_valid, to_bytes_range. Qed.

(** *** Slices and searches *)

Lemma str_take_drop n s : str_take n s +:+ str_drop n s = s.
Proof.
  revert n. induction s as [|a s IH]; intros [|n]; [done..|].
  change (String a (str_take n s +:+ str_drop n s) = String a s). by rewrite IH.
Qed.

Lemma str_app_cons a s t : String a s +:+ t = String a (s +:+ t).
Proof. done. Qed.
Lemma str_app_nil_l t : EmptyString +:+ t = t.
Proof. done. Qed.
Lemma str_app_nil_r s : s +:+ EmptyString = s.
Proof. induction s as [|a s IH]; [done|]. by rewrite str_app_cons, IH. Qed.
Lemma str_app_assoc s t u : (s +:+ t) +:+ u = s +:+ (t +:+ u).
Proof. induction s as [|a s IH]; [done|]. by rewrite !str_app_cons, IH. Qed.
Lemma str_length_app s t : String.length (s +:+ t) = (String.length s + String.length t)%nat.
Proof. induction s as [|a s IH]; [done|]. rewrite str_app_cons. simpl. by rewrite IH. Qed.
Lemma str_app_inv_head s t u : s +:+ t = s +:+ u -> t = u.
Proof.
  induction s as [|a s IH]; [done|]. rewrite !str_app_cons. intros E. simplify_eq. auto.
Qed.

Create Rewrite HintDb gostr.
#[export] Hint Rewrite str_app_cons str_app_nil_l str_app_nil_r str_app_assoc
  str_length_app : gostr.

Lemma str_take_app s t : str_take (String.length s) (s +:+ t) = s.
Proof. induction s as [|a s IH]; [by destruct t|]. rewrite str_app_cons. simpl. by rewrite IH. Qed.
Lemma str_drop_app s t : str_drop (String.length s) (s +:+ t) = t.
Proof. induction s as [|a s IH]; [by destruct t|]. rewrite str_app_cons. done. Qed.
Lemma str_drop_app_S s a t : str_drop (S (String.length s)) (s +:+ String a t) = t.
Proof. induction s as [|b s IH]; [by destruct t|]. rewrite str_app_cons. done. Qed.

(** The byte [c] occurs in [s]. *)
Fixpoint has_byte (c : ascii) (s : string) : bool :=
  match s with
  | EmptyString => false
  | String a s => bool_decide (a = c) || has_byte c s
  end.

Lemma has_byte_app c s t : has_byte c (s +:+ t) = has_byte c s || has_byte c t.
Proof.
  induction s as [|a s IH]; [done|].
  rewrite str_app_cons. simpl. by rewrite IH, orb_assoc.
Qed.

Lemma LastIndexByte_None s c : LastIndexByte s c = None <-> has_byte c s = false.
Proof.
  induction s as [|a s IH]; simpl; [done|].
  destruct (LastIndexByte s c) eqn:E.
  - destruct IH as [_ IH]. split; [done|]. intros H. apply orb_false_elim in H. naive_solver.
  - destruct IH as [IH _]. rewrite IH by done. rewrite orb_false_r.
    case_decide; case_bool_decide; simplify_eq; split; done.
Qed.

(** [LastIndexByte] cuts the string at the last occurrence of the byte. *)
Lemma LastIndexByte_Some s c i :
  LastIndexByte s c = Some i <->
  s = str_take i s +:+ String c (str_drop (S i) s)
  /\ String.length (str_take i s) = i /\ has_byte c (str_drop (S i) s) = false.
Proof.
  revert i. induction s as [|a s IH]; intros i; simpl.
  { split; [done|]. intros (E & _). destruct i; done. }
  destruct (LastIndexByte s c) as [j|] eqn:E.
  - split.
    + intros ?. simplify_eq. destruct (proj1 (IH j) eq_refl) as (E1 & E2 & E3). simpl.
      rewrite str_app_cons. split_and!; [by f_equal|by f_equal|done].
    + intros (E1 & E2 & E3). destruct i as [|i].
      * assert (H : has_byte c s = false) by (destruct s; done).
        apply LastIndexByte_None in H. congruence.
      * simpl in *. rewrite str_app_cons in E1. simplify_eq.
        f_equal. symmetry. assert (Some j = Some i) as [=->]; [|done].
        apply IH. split_and!; auto.
  - assert (Hn : has_byte c s = false) by (by apply LastIndexByte_None).
    destruct (decide (a = c)) as [->|Hne].
    + split.
      * intros ?. simplify_eq. simpl. split_and!; [by destruct s|done|by destruct s].
      * intros (E1 & E2 & E3). destruct i as [|i]; [done|]. exfalso.
        simpl in *. rewrite str_app_cons in E1. simplify_eq.
        rewrite E1, has_byte_app in Hn. simpl in Hn.
        rewrite bool_decide_true in Hn by done. destruct (has_byte c _) in Hn; done.
    + split; [done|]. intros (E1 & E2 & E3). exfalso. destruct i as [|i].
      * simpl in E1. rewrite str_app_nil_l in E1. congruence.
      * simpl in *. rewrite str_app_cons in E1. simplify_eq.
        rewrite E1, has_byte_app in Hn. simpl in Hn.
        rewrite bool_decide_true in Hn by done. destruct (has_byte c _) in Hn; done.
Qed.

Lemma LastIndexByte_app s t c :
  has_byte c t = false -> LastIndexByte (s +:+ String c t) c = Some (String.length s).
Proof.
  intros H. apply LastIndexByte_Some. rewrite str_take_app, str_drop_app_S. done.
Qed.

Lemma HasPrefix_app p s : HasPrefix (p +:+ s) p = true.
Proof.
  induction p as [|a p IH]; [by destruct s|].
  rewrite str_app_cons. simpl. by rewrite bool_decide_true, IH.
Qed.

Lemma HasPrefix_spec s p : HasPrefix s p = true <-> exists t, s = p +:+ t.
Proof.
  split; [|intros [t ->]; apply HasPrefix_app].
  revert s. induction p as [|b p IH]; intros s H; [by exists s|].
  destruct s as [|a s]; [done|]. simpl in H.
  apply andb_prop in H as [Ha H]. apply bool_decide_eq_true in Ha as ->.
  destruct (IH s H) as [t ->]. by exists t.
Qed.

Lemma HasSuffix_spec s p : HasSuffix s p = true <-> exists t, s = t +:+ p.
Proof.
  unfold HasSuffix. split.
  - intros H. apply andb_prop in H as [L E]. apply bool_decide_eq_true in E.
    exists (str_take (String.length s - String.length p) s). rewrite <- E at 2.
    by rewrite str_take_drop.
  - intros [t ->]. rewrite str_length_app.
    replace (String.length t + String.length p - String.length p)%nat
      with (String.length t) by lia.
    rewrite str_drop_app, bool_decide_true by done.
    apply andb_true_intro. split; [lia|done].
Qed.

Lemma TrimSuffix_app t p : TrimSuffix (t +:+ p) p = t.
Proof.
  unfold TrimSuffix.
  assert (HasSuffix (t +:+ p) p = true) as -> by (apply HasSuffix_spec; eauto).
  rewrite str_length_app.
  replace (String.length t + String.length p - String.length p)%nat
    with (String.length t) by lia.
  apply str_take_app.
Qed.

Lemma Contains_spec s sub : Contains s sub = true <-> exists a b, s = a +:+ sub +:+ b.
Proof.
  split.
  - induction s as [|c s IH]; simpl; intros H; apply orb_prop in H as [H|H]; try done.
    + destruct sub; [|done]. by exists EmptyString, EmptyString.
    + change (HasPrefix (String c s) sub = true) in H.
      apply HasPrefix_spec in H as [t H]. exists EmptyString, t. by rewrite str_app_nil_l.
    + destruct (IH H) as (a & b & ->). by exists (String c a), b.
  - intros (a & b & ->). induction a as [|c a IH].
    + rewrite str_app_nil_l. pose proof (HasPrefix_app sub b) as Hp.
      destruct (sub +:+ b); cbn [Contains]; by rewrite Hp.
    + rewrite str_app_cons. simpl. rewrite IH. apply orb_true_r.
Qed.

Lemma SplitByte_nonempty s c : SplitByte s c <> [].
Proof. destruct s; simpl; repeat case_match; done. Qed.

(** Joining the parts of a split gives the string back. *)
Lemma Join_Split s c : JoinByte (SplitByte s c) c = s.
Proof.
  induction s as [|a s IH]; [done|]. simpl.
  destruct (decide (a = c)) as [->|].
  - destruct (SplitByte s c) eqn:E; [by apply SplitByte_nonempty in E|].
    simpl. rewrite str_app_nil_l. f_equal. exact IH.
  - destruct (SplitByte s c) as [|p [|q ps]] eqn:E; simpl in *; [by subst|by subst|].
    by rewrite str_app_cons, IH.
Qed.

Lemma SplitByte_no_sep s c : Forall (fun p => has_byte c p = false) (SplitByte s c).
Proof.
  induction s as [|a s IH]; simpl; [by repeat constructor|].
  destruct (decide (a = c)); [by constructor|].
  destruct (SplitByte s c) as [|p ps]; inversion IH; subst; repeat constructor; simpl;
    rewrite ?bool_decide_false by done; done.
Qed.

(** *** ASCII bytes survive decoding; case folding *)

Lemma decode_runes_ascii_elem b l : b < 128 -> b ∈ l -> b ∈ decode_runes l.
Proof.
  intros Hb. remember (length l) as n eqn:E. revert l E.
  induction n as [n IH] using lt_wf_ind; intros l -> Hin.
  assert (tl : forall k, (length k < length l)%nat -> b ∈ k -> b ∈ decode_runes k) by eauto.
  clear IH. destruct l as [|b0 l1]; [by apply elem_of_nil in Hin|].
  simpl in *. apply elem_of_cons in Hin as [<-|Hin].
  { replace (b <? 128) with true by lia. left. }
  destruct (b0 <? 128) eqn:?; [right; apply tl; [lia|done]|].
  assert (fb : b ∈ RuneError :: decode_runes l1) by (right; apply tl; [lia|done]).
  destruct l1 as [|b1 l2]; [done|]. destruct (utf8_ok2 b0 b1) eqn:E2.
  { apply elem_of_cons in Hin as [<-|Hin]; [unfold utf8_ok2, utf8_cont in E2; lia|].
    right. apply tl; simpl; [lia|done]. }
  destruct l2 as [|b2 l3]; [done|]. destruct (utf8_ok3 b0 b1 b2) eqn:E3.
  { unfold utf8_ok3, utf8_cont in E3.
    apply elem_of_cons in Hin as [<-|Hin]; [destruct (b0 =? 224); lia|].
    apply elem_of_cons in Hin as [<-|Hin]; [lia|].
    right. apply tl; simpl; [lia|done]. }
  destruct l3 as [|b3 l4]; [done|]. destruct (utf8_ok4 b0 b1 b2 b3) eqn:E4; [|done].
  unfold utf8_ok4, utf8_cont in E4.
  apply elem_of_cons in Hin as [<-|Hin]; [destruct (b0 =? 240); lia|].
  apply elem_of_cons in Hin as [<-|Hin]; [lia|].
  apply elem_of_cons in Hin as [<-|Hin]; [lia|].
  right. apply tl; simpl; [lia|done].
Qed.

Lemma has_byte_elem c s : has_byte c s = true <-> byte_of c ∈ to_bytes s.
Proof.
  induction s as [|a s IH]; simpl; [split; [done|intros []%elem_of_nil]|].
  rewrite orb_true_iff, bool_decide_eq_true, IH, elem_of_cons.
  split; intros [E|?]; auto; left; [by subst|].
  by rewrite <- (of_byte_of a), <- (of_byte_of c), E.
Qed.

Lemma has_byte_runes c s : byte_of c < 128 -> has_byte c s = true -> byte_of c ∈ runes s.
Proof. intros Hc H. apply decode_runes_ascii_elem; [done|]. by apply has_byte_elem. Qed.

Lemma runes_fold_elem `{UnicodeTables} a b x :
  runes_fold a b = true -> x ∈ a -> exists y, y ∈ b /\ rune_fold x y = true.
Proof.
  revert b. induction a as [|r a IH]; intros [|s b] E Hin; try done; [by apply elem_of_nil in Hin|].
  simpl in E. apply andb_prop in E as [E1 E2]. apply elem_of_cons in Hin as [->|Hin].
  - exists s. split; [left|done].
  - destruct (IH _ E2 Hin) as (y & ? & ?). exists y. split; [by right|done].
Qed.

Lemma rune_fold_refl `{UnicodeTables} r : rune_fold r r = true.
Proof. unfold rune_fold. rewrite Z.min_id, Z.max_id, Z.eqb_refl. done. Qed.

Lemma rune_fold_comm `{UnicodeTables} a b : rune_fold a b = rune_fold b a.
Proof. unfold rune_fold. by rewrite (Z.min_comm a b), (Z.max_comm a b). Qed.

Lemma runes_fold_refl `{UnicodeTables} a : runes_fold a a = true.
Proof. induction a; simpl; [done|]. by rewrite rune_fold_refl. Qed.

Lemma runes_fold_comm `{UnicodeTables} a b : runes_fold a b = runes_fold b a.
Proof.
  revert b. induction a as [|x a IH]; intros [|y b]; try done.
  simpl. by rewrite rune_fold_comm, IH.
Qed.

Lemma EqualFold_refl `{UnicodeTables} s : EqualFold s s = true.
Proof. apply runes_fold_refl. Qed.
Lemma EqualFold_comm `{UnicodeTables} s t : EqualFold s t = EqualFold t s.
Proof. apply runes_fold_comm. Qed.
#[export] Hint Resolve EqualFold_refl : go.

(** *** ASCII strings *)

Definition ascii_str (s : string) : Prop := Forall (fun b => b < 128) (to_bytes s).

Fixpoint str_map (f : Z -> Z) (s : string) : string :=
  match s with
  | EmptyString => EmptyString
  | String a s => String (of_byte (f (byte_of a))) (str_map f s)
  end.

Definition ascii_ToLower (s : string) : string := str_map ascii_lower s.

Lemma runes_ascii s : ascii_str s -> runes s = to_bytes s.
Proof.
  unfold ascii_str, runes. induction 1 as [|b l Hb _ IH]; [done|].
  rewrite decode_1 by done. by rewrite IH.
Qed.

Lemma encode_ascii l : Forall (fun b => 0 <= b < 128) l -> encode_runes l = l.
Proof.
  induction 1 as [|b l Hb _ IH]; [done|]. unfold encode_runes in *. simpl. rewrite IH.
  unfold encode_rune, valid_rune.
  replace (negb _) with false by lia. by replace (b <? 128) with true by lia.
Qed.

Lemma ascii_lower_range r : 0 <= r < 128 -> 0 <= ascii_lower r < 128.
Proof. unfold ascii_lower. case_match; lia. Qed.

Lemma ascii_lower_idemp r : ascii_lower (ascii_lower r) = ascii_lower r.
Proof. unfold ascii_lower. repeat case_match; lia. Qed.

Lemma to_bytes_str_map f s :
  (forall r, 0 <= r < 128 -> 0 <= f r < 128) -> ascii_str s ->
  to_bytes (str_map f s) = map f (to_bytes s).
Proof.
  intros Hf. unfold ascii_str. induction s as [|a s IH]; simpl; intros HA; [done|].
  inversion HA as [|? ? Ha HA']; subst. rewrite IH by done. f_equal.
  apply byte_of_of. pose proof (byte_of_range a). specialize (Hf (byte_of a)). lia.
Qed.

Lemma ascii_str_bounds s : ascii_str s -> Forall (fun b => 0 <= b < 128) (to_bytes s).
Proof.
  intros HA. pose proof (to_bytes_range s) as HR. unfold ascii_str in HA.
  rewrite Forall_forall in *. intros x Hx. specialize (HA x Hx). specialize (HR x Hx). lia.
Qed.

Lemma ToLower_ascii `{UnicodeTables} s : ascii_str s -> ToLower s = ascii_ToLower s.
Proof.
  intros HA. unfold ToLower. rewrite runes_ascii by done. apply to_bytes_inj.
  pose proof (ascii_str_bounds s HA) as HB.
  assert (E : map rune_lower (to_bytes s) = map ascii_lower (to_bytes s)).
  { apply map_ext_in. intros b Hb%list_elem_of_In. rewrite Forall_forall in HB.
    specialize (HB b Hb). unfold rune_lower. by replace (b <? 128) with true by lia. }
  unfold ascii_ToLower. rewrite to_bytes_str_map by auto using ascii_lower_range.
  unfold string_of_runes. rewrite E, encode_ascii.
  - apply to_of_bytes. apply Forall_map. eapply Forall_impl; [exact HB|].
    intros b Hb. simpl. pose proof (ascii_lower_range b Hb). lia.
  - apply Forall_map. eapply Forall_impl; [exact HB|]. intros b Hb. by apply ascii_lower_range.
Qed.

Lemma ascii_ToLower_app s t : ascii_ToLower (s +:+ t) = ascii_ToLower s +:+ ascii_ToLower t.
Proof. induction s as [|a s IH]; [done|]. rewrite str_app_cons. unfold ascii_ToLower in *. simpl. by rewrite IH. Qed.

Lemma ascii_ToLower_ascii s : ascii_str s -> ascii_str (ascii_ToLower s).
Proof.
  intros HA. unfold ascii_str, ascii_ToLower.
  rewrite to_bytes_str_map by auto using ascii_lower_range.
  apply Forall_map. eapply Forall_impl; [apply (ascii_str_bounds s HA)|].
  intros b Hb. simpl. by apply ascii_lower_range.
Qed.

Lemma ascii_ToLower_idemp s :
  ascii_str s -> ascii_ToLower (ascii_ToLower s) = ascii_ToLower s.
Proof.
  intros HA. apply to_bytes_inj. unfold ascii_ToLower.
  rewrite to_bytes_str_map by (auto using ascii_lower_range; apply (ascii_ToLower_ascii s HA)).
  rewrite to_bytes_str_map by auto using ascii_lower_range.
  rewrite map_map. apply map_ext. apply ascii_lower_idemp.
Qed.

Lemma ascii_str_app s t : ascii_str (s +:+ t) <-> ascii_str s /\ ascii_str t.
Proof. unfold ascii_str. rewrite to_bytes_app. apply Forall_app. Qed.

Lemma ascii_ToLower_length s : String.length (ascii_ToLower s) = String.length s.
Proof. induction s as [|a s IH]; [done|]. unfold ascii_ToLower in *. simpl. by rewrite IH. Qed.

Lemma ascii_ToLower_has_byte c s :
  ~ (97 <= byte_of c <= 122) -> ascii_str s ->
  has_byte c s = false -> has_byte c (ascii_ToLower s) = false.
Proof.
  intros Hc HA Hs. destruct (has_byte c (ascii_ToLower s)) eqn:E; [exfalso|done].
  apply has_byte_elem in E. unfold ascii_ToLower in E.
  rewrite to_bytes_str_map in E by auto using ascii_lower_range.
  apply list_elem_of_In, in_map_iff in E as (b & Eb & Hb).
  assert (b = byte_of c) as -> by (unfold ascii_lower in Eb; case_match; lia).
  assert (has_byte c s = true) by (apply has_byte_elem; by apply list_elem_of_In). congruence.
Qed.
