(* ===== verification/GoText.v ===== *)
(** * GoText: more of Go's standard library

    strings (IndexByte, SplitN, ReplaceAll), strconv (FormatUint, ParseUint) and
    encoding/base64 (StdEncoding), as the authentication, table and report code uses
    them. *)
From S2P Require Import Prelude GoStr.
From Stdlib Require Import Ascii ZifyBool.

Local Open Scope Z_scope.

(** ** strings *)

Fixpoint IndexByte (s : string) (c : ascii) : option nat :=
  match s with
  | EmptyString => None
  | String a s => if decide (a = c) then Some O else match IndexByte s c with Some i => Some (S i) | None => None end
  end.

(** SplitN with a one-byte separator and n > 0 *)
Fixpoint SplitN (s : string) (c : ascii) (n : nat) : list string :=
  match n with
  | O => []
  | S O => [s]
  | S n => match IndexByte s c with None => [s] | Some i => str_take i s :: SplitN (str_drop (S i) s) c n end
  end.

(** ReplaceAll of one byte by another *)
Definition ReplaceByte (s : string) (a b : ascii) : string :=
  of_bytes (map (fun x => if x =? byte_of a then byte_of b else x) (to_bytes s)).

(** A strings.Replacer whose old strings are not empty, and strings.Replace with
    one old string: at each place the first pair that matches. *)
Fixpoint replace_pairs (pairs : list (string * string)) (s : string) (skip : nat) : string :=
  match s with
  | EmptyString => EmptyString
  | String a s' =>
    match skip with
    | S skip => replace_pairs pairs s' skip
    | O =>
      match list_find (fun p => HasPrefix s p.1 = true) pairs with
      | Some (_, (old, new)) => new +:+ replace_pairs pairs s' (pred (String.length old))
      | None => String a (replace_pairs pairs s' O)
      end
    end
  end.
Definition Replace_all (s old new : string) : string := replace_pairs [(old, new)] s O.

Lemma IndexByte_app s t c : has_byte c s = false -> IndexByte (s +:+ String c t) c = Some (String.length s).
Proof.
  induction s as [|a s IH]; simpl; [by rewrite decide_True|]. intros Hs. case_decide; [done|]. by rewrite IH.
Qed.
Lemma IndexByte_None s c : has_byte c s = false -> IndexByte s c = None.
Proof. induction s as [|a s IH]; simpl; [done|]. intros Hs. case_decide; [done|]. by rewrite IH. Qed.

(** Parts without the separator, joined and split again *)
Lemma SplitN_cons s t c n : has_byte c s = false -> SplitN (s +:+ String c t) c (S (S n)) = s :: SplitN t c (S n).
Proof.
  intros Hs. cbn [SplitN]. rewrite IndexByte_app by done. by rewrite str_take_app, str_drop_app_S.
Qed.
Lemma SplitN_Join l s c : Forall (fun p => has_byte c p = false) l -> SplitN (JoinByte (l ++ [s]) c) c (S (length l)) = l ++ [s].
Proof.
  induction l as [|p l IH]; intros Hl; [done|]. apply Forall_cons in Hl as [Hp Hl].
  assert (JoinByte ((p :: l) ++ [s]) c = p +:+ String c (JoinByte (l ++ [s]) c)) as -> by (simpl; by destruct (l ++ [s]) eqn:E; [destruct l|]).
  cbn [length]. rewrite SplitN_cons by done. by rewrite IH.
Qed.

Lemma SplitByte_no s c : has_byte c s = false -> SplitByte s c = [s].
Proof. induction s as [|a s IH]; simpl; [done|]. intros Hs. case_decide; [done|]. by rewrite IH. Qed.
Lemma SplitByte_app s t c : has_byte c s = false -> SplitByte (s +:+ String c t) c = s :: SplitByte t c.
Proof.
  induction s as [|a s IH]; simpl; [by rewrite decide_True|]. intros Hs. case_decide; [done|]. by rewrite IH.
Qed.
Lemma SplitByte_pair s t c : has_byte c s = false /\ has_byte c t = false -> SplitByte (s +:+ String c t) c = [s; t].
Proof. intros [Hs Ht]. by rewrite SplitByte_app, SplitByte_no. Qed.
Lemma SplitByte_Join l c : l <> [] -> Forall (fun p => has_byte c p = false) l -> SplitByte (JoinByte l c) c = l.
Proof.
  intros Hne Hl. induction Hl as [|p l Hp Hl IH]; [done|]. destruct l as [|q l]; [by apply SplitByte_no|].
  change (JoinByte (p :: q :: l) c) with (p +:+ String c (JoinByte (q :: l) c)). rewrite SplitByte_app by done. by rewrite IH.
Qed.

(** ** strconv *)

Fixpoint digits (fuel : nat) (n : Z) (acc : list Z) : list Z :=
  match fuel with
  | O => acc
  | S fuel => if n <? 10 then (48 + n) :: acc else digits fuel (n / 10) ((48 + n mod 10) :: acc)
  end.
(** FormatUint in base 10; 20 digits are enough for 64 bits. *)
Definition FormatUint (n : Z) : string := of_bytes (digits 20 n []).

Fixpoint parse_digits (maxVal : Z) (l : list Z) (n : Z) : Result NumErr Z :=
  match l with
  | [] => Ok n
  | b :: l =>
    if negb ((48 <=? b) && (b <=? 57)) then Err ErrSyntax
    else if maxVal <? n * 10 + (b - 48) then Err ErrRange
    else parse_digits maxVal l (n * 10 + (b - 48))
  end.
(** ParseUint in base 10 *)
Definition ParseUint (s : string) (bitSize : Z) : Result NumErr Z :=
  match to_bytes s with
  | [] => Err ErrSyntax
  | l => parse_digits (2 ^ bitSize - 1) l 0
  end.

Definition digit (b : Z) : Prop := 48 <= b <= 57.
Definition value (n : Z) (l : list Z) : Z := foldl (fun a b => a * 10 + (b - 48)) n l.
Lemma value_ge n l : 0 <= n -> Forall digit l -> n <= value n l.
Proof.
  unfold value. revert n. induction l as [|b l IH]; intros n Hn Hl; simpl; [lia|]. apply Forall_cons in Hl as [Hb Hl].
  unfold digit in Hb. specialize (IH (n * 10 + (b - 48)) ltac:(lia) Hl). lia.
Qed.
Lemma parse_digits_value maxVal l n :
  0 <= n -> Forall digit l -> value n l <= maxVal -> parse_digits maxVal l n = Ok (value n l).
Proof.
  revert n. induction l as [|b l IH]; intros n Hn Hl Hv; [done|]. apply Forall_cons in Hl as [Hb Hl].
  unfold digit in Hb. cbn [parse_digits]. replace (negb _) with false by lia.
  pose proof (value_ge (n * 10 + (b - 48)) l ltac:(lia) Hl). change (value (n * 10 + (b - 48)) l <= maxVal) in Hv.
  replace (maxVal <? _) with false by lia. by apply IH; [lia|..].
Qed.
Lemma digits_spec fuel n acc :
  0 <= n < 10 ^ Z.of_nat fuel -> Forall digit acc ->
  Forall digit (digits fuel n acc) /\ value 0 (digits fuel n acc) = value n acc.
Proof.
  revert n acc. induction fuel as [|fuel IH]; intros n acc Hn Hacc.
  - simpl in *. assert (n = 0) as -> by lia. done.
  - cbn [digits]. destruct (n <? 10) eqn:E.
    + split; [constructor; [unfold digit; lia|done]|]. unfold value. simpl. f_equal. lia.
    + assert (10 ^ Z.of_nat (S fuel) = 10 * 10 ^ Z.of_nat fuel) as Hp by (rewrite Nat2Z.inj_succ, Z.pow_succ_r; lia).
      destruct (IH (n / 10) ((48 + n mod 10) :: acc)) as [Hd Hv].
      * split; [apply Z.div_pos; lia|]. apply Z.div_lt_upper_bound; lia.
      * constructor; [|done]. pose proof (Z.mod_pos_bound n 10). unfold digit. lia.
      * split; [done|]. rewrite Hv. unfold value. simpl. f_equal. pose proof (Z.div_mod n 10). lia.
Qed.
Lemma digits_nonempty fuel n acc : (0 < fuel)%nat -> digits fuel n acc <> [].
Proof.
  revert n acc. induction fuel as [|fuel IH]; intros n acc Hf; [lia|]. cbn [digits]. destruct (n <? 10); [done|].
  destruct fuel; [done|]. apply IH. lia.
Qed.

Lemma FormatUint_bytes n : 0 <= n <= maxUint64 -> to_bytes (FormatUint n) = digits 20 n [] /\ Forall digit (digits 20 n []).
Proof.
  unfold maxUint64. intros Hn. destruct (digits_spec 20 n []) as [Hd _]; [simpl; lia|constructor|]. split; [|done].
  apply to_of_bytes. eapply Forall_impl; [done|]. unfold digit. simpl. lia.
Qed.
Lemma ParseUint_Format n bitSize : 0 <= bitSize <= 64 -> 0 <= n < 2 ^ bitSize -> ParseUint (FormatUint n) bitSize = Ok n.
Proof.
  intros Hb Hn. assert (2 ^ bitSize <= 2 ^ 64) as H64 by (apply Z.pow_le_mono_r; lia).
  change (2 ^ 64) with (maxUint64 + 1) in H64. destruct (FormatUint_bytes n) as [E Hd]; [lia|].
  unfold ParseUint. rewrite E. pose proof (digits_nonempty 20 n [] ltac:(lia)) as Hne.
  destruct (digits_spec 20 n []) as [_ Hv]; [unfold maxUint64 in H64; simpl; lia|constructor|].
  destruct (digits 20 n []) as [|b l] eqn:El; [done|]. rewrite parse_digits_value; [by rewrite Hv|lia|done|]. rewrite Hv. simpl. lia.
Qed.
Lemma FormatUint_no_byte n c : 0 <= n <= maxUint64 -> byte_of c < 48 \/ 57 < byte_of c -> has_byte c (FormatUint n) = false.
Proof.
  intros Hn Hc. destruct (has_byte c (FormatUint n)) eqn:E; [|done]. apply has_byte_elem in E.
  destruct (FormatUint_bytes n Hn) as [Eb Hd]. rewrite Eb in E. rewrite Forall_forall in Hd. specialize (Hd _ E).
  unfold digit in Hd. simpl in Hd. lia.
Qed.

(** ** encoding/base64 (StdEncoding) *)

Definition b64_alphabet : list Z := to_bytes "ABCDEFGHIJKLMNOPQRSTUVWXYZabcdefghijklmnopqrstuvwxyz0123456789+/".
Definition b64_char (v : Z) : Z := default 0 (b64_alphabet !! Z.to_nat v).
Definition b64_val (c : Z) : option Z :=
  if (65 <=? c) && (c <=? 90) then Some (c - 65)
  else if (97 <=? c) && (c <=? 122) then Some (c - 71)
  else if (48 <=? c) && (c <=? 57) then Some (c + 4)
  else if c =? 43 then Some 62 else if c =? 47 then Some 63 else None.
Definition pad : Z := 61.

Fixpoint b64_encode (l : list Z) : list Z :=
  match l with
  | [] => []
  | [a] => [b64_char (a / 4); b64_char (a mod 4 * 16); pad; pad]
  | [a; b] => [b64_char (a / 4); b64_char (a mod 4 * 16 + b / 16); b64_char (b mod 16 * 4); pad]
  | a :: b :: c :: l =>
    b64_char (a / 4) :: b64_char (a mod 4 * 16 + b / 16) :: b64_char (b mod 16 * 4 + c / 64) :: b64_char (c mod 64) :: b64_encode l
  end.
(** The groups of four; padding only ends the last one.  [None] is a CorruptInputError. *)
Fixpoint b64_groups (l : list Z) : option (list Z) :=
  match l with
  | [] => Some []
  | c0 :: c1 :: c2 :: c3 :: l =>
    v0 ← b64_val c0; v1 ← b64_val c1;
    if (c2 =? pad) && (c3 =? pad) then
      match l with [] => Some [v0 * 4 + v1 / 16] | _ => None end
    else
      v2 ← b64_val c2;
      if c3 =? pad then
        match l with [] => Some [v0 * 4 + v1 / 16; v1 mod 16 * 16 + v2 / 4] | _ => None end
      else
        v3 ← b64_val c3;
        rest ← b64_groups l;
        Some (v0 * 4 + v1 / 16 :: v1 mod 16 * 16 + v2 / 4 :: v2 mod 4 * 64 + v3 :: rest)
  | _ => None
  end.
Definition EncodeToString (s : string) : string := of_bytes (b64_encode (to_bytes s)).
(** Line breaks are ignored. *)
Definition DecodeString (s : string) : option string :=
  of_bytes <$> b64_groups (List.filter (fun b => negb ((b =? 10) || (b =? 13))) (to_bytes s)).

Definition b64_byte (c : Z) : Prop := c = pad \/ is_Some (b64_val c).
Lemma b64_char_val v : 0 <= v < 64 -> b64_val (b64_char v) = Some v /\ b64_char v <> pad.
Proof.
  intros Hv. assert (Forall (fun i => b64_val (b64_char i) = Some i /\ b64_char i <> pad) (map Z.of_nat (seq 0 64))) as Hall.
  { apply (bool_decide_unpack _). vm_compute. exact I. }
  rewrite Forall_forall in Hall. apply Hall. apply list_elem_of_fmap. exists (Z.to_nat v). split; [lia|].
  apply elem_of_seq. lia.
Qed.
Lemma b64_byte_range c : b64_byte c -> 43 <= c <= 122 /\ c <> 58.
Proof.
  unfold b64_byte, b64_val, pad. intros [->|[v Hv]]; [lia|]. repeat case_match; simplify_eq; lia.
Qed.

(** Induction by groups of three *)
Lemma group_ind (P : list Z -> Prop) :
  P [] -> (forall a, P [a]) -> (forall a b, P [a; b]) -> (forall a b c l, P l -> P (a :: b :: c :: l)) -> forall l, P l.
Proof.
  intros H0 H1 H2 H3 l. enough (forall n l, (length l <= n)%nat -> P l) as H by (by apply (H (length l))).
  clear l. induction n as [|n IH]; intros [|a [|b [|c l]]] Hl; simpl in Hl; auto; try lia. apply H3, IH. lia.
Qed.

Ltac b64_values :=
  repeat match goal with
    |- context [b64_val (b64_char ?v)] =>
      let H := fresh in let Hp := fresh in
      destruct (b64_char_val v) as [H Hp]; [Z.to_euclidean_division_equations; lia|]; rewrite H; clear H; simpl
    end.
Lemma b64_not_pad v : 0 <= v < 64 -> (b64_char v =? pad) = false.
Proof. intros Hv. destruct (b64_char_val v Hv). lia. Qed.

Lemma b64_round l : Forall (fun b => 0 <= b < 256) l -> b64_groups (b64_encode l) = Some l.
Proof.
  induction l as [|a|a b|a b c l IH] using group_ind; intros Hl; [done|..];
    repeat (apply Forall_cons in Hl as [? Hl]); cbn [b64_encode b64_groups];
    rewrite ?b64_not_pad by (Z.to_euclidean_division_equations; lia); b64_values.
  - do 2 f_equal. zdivmod.
  - do 2 f_equal; [zdivmod|]. f_equal. zdivmod.
  - rewrite IH by done. simpl. do 2 f_equal; [zdivmod|]. f_equal; [zdivmod|]. f_equal. zdivmod.
Qed.

Lemma b64_encode_bytes l : Forall (fun b => 0 <= b < 256) l -> Forall b64_byte (b64_encode l).
Proof.
  assert (forall v, 0 <= v < 64 -> b64_byte (b64_char v)) as Hc.
  { intros v Hv. right. destruct (b64_char_val v Hv) as [-> _]. eauto. }
  induction l as [|a|a b|a b c l IH] using group_ind; intros Hl; [constructor|..];
    repeat (apply Forall_cons in Hl as [? Hl]); cbn [b64_encode].
  all: repeat (apply Forall_cons; split); try (apply Hc; zdivmod); try (by left); try by constructor.
  by apply IH.
Qed.

Lemma Encode_bytes s : to_bytes (EncodeToString s) = b64_encode (to_bytes s).
Proof.
  apply to_of_bytes. eapply Forall_impl; [apply b64_encode_bytes, to_bytes_range|].
  intros b Hb%b64_byte_range. simpl. lia.
Qed.
Lemma Decode_Encode s : DecodeString (EncodeToString s) = Some s.
Proof.
  unfold DecodeString. rewrite Encode_bytes.
  assert (forall l, Forall b64_byte l -> List.filter (fun b => negb ((b =? 10) || (b =? 13))) l = l) as Hf.
  { induction 1 as [|b l Hb%b64_byte_range _ IH]; simpl; [done|]. replace (negb _) with true by lia. by rewrite IH. }
  rewrite Hf by (apply b64_encode_bytes, to_bytes_range). rewrite b64_round by apply to_bytes_range.
  simpl. by rewrite of_to_bytes.
Qed.
Lemma Encode_no_colon s c : byte_of c = 58 -> has_byte c (EncodeToString s) = false.
Proof.
  intros Hc. destruct (has_byte c (EncodeToString s)) eqn:E; [|done]. apply has_byte_elem in E. rewrite Encode_bytes in E.
  pose proof (b64_encode_bytes (to_bytes s) (to_bytes_range s)) as Hall. rewrite Forall_forall in Hall.
  destruct (b64_byte_range _ (Hall _ E)). lia.
Qed.

Example base64_examples :
  map EncodeToString [""; "f"; "fo"; "foo"; "foobar"] = [""; "Zg=="; "Zm8="; "Zm9v"; "Zm9vYmFy"] /\
  map DecodeString ["Zm9vYmE="; "Zg="; "Zg==Zg=="; "Z*=="] = [Some "fooba"; None; None; None].
Proof. by vm_compute. Qed.

(** ** strconv.FormatInt, and %d of an int *)

Definition FormatInt (n : Z) : string := if n <? 0 then "-" +:+ FormatUint (- n) else FormatUint n.
Definition is_int64 (n : Z) : Prop := - 2 ^ 63 <= n < 2 ^ 63.
Lemma FormatInt_no_byte n c : is_int64 n -> byte_of c < 45 -> has_byte c (FormatInt n) = false.
Proof.
  unfold is_int64. intros Hn Hc. unfold FormatInt. destruct (Z.ltb_spec n 0).
  - rewrite has_byte_app, FormatUint_no_byte by (unfold maxUint64; lia). rewrite orb_false_r. simpl. rewrite orb_false_r.
    destruct (Ascii.eqb_spec "-"%char c) as [<-|]; [vm_compute in Hc; done|]. apply bool_decide_false. congruence.
  - rewrite FormatUint_no_byte; [done|unfold maxUint64; lia|lia].
Qed.

(** ** Lines *)

Definition LF : ascii := ascii_of_nat 10.
Definition CR : ascii := ascii_of_nat 13.
Definition one_line (s : string) : Prop := has_byte LF s = false /\ has_byte CR s = false.
Lemma one_line_app s t : one_line (s +:+ t) <-> one_line s /\ one_line t.
Proof. unfold one_line. rewrite !has_byte_app, !orb_false_iff. tauto. Qed.
Lemma FormatInt_one_line n : is_int64 n -> one_line (FormatInt n).
Proof. intros Hn. split; apply FormatInt_no_byte; try done; vm_compute; done. Qed.

(** ReplaceAll, and removing a byte *)
Definition DeleteByte (s : string) (c : ascii) : string := of_bytes (filter (fun x => x <> byte_of c) (to_bytes s)).
Lemma to_bytes_Replace s a b : to_bytes (ReplaceByte s a b) = map (fun x => if x =? byte_of a then byte_of b else x) (to_bytes s).
Proof.
  apply to_of_bytes. rewrite Forall_map. eapply Forall_impl; [apply to_bytes_range|]. intros x Hx. simpl.
  destruct (x =? byte_of a); [apply byte_of_range|done].
Qed.
Lemma no_byte_elem c s : has_byte c s = false <-> byte_of c ∉ to_bytes s.
Proof. rewrite <- not_true_iff_false, has_byte_elem. done. Qed.
Lemma ReplaceByte_gone s a b : a <> b -> has_byte a (ReplaceByte s a b) = false.
Proof.
  intros Hab. rewrite no_byte_elem, to_bytes_Replace, list_elem_of_fmap. intros (x & Hx & _).
  destruct (Z.eqb_spec x (byte_of a)); [|done]. apply Hab. rewrite <- (of_byte_of a), <- (of_byte_of b). by rewrite Hx.
Qed.
Lemma ReplaceByte_other s a b c : b <> c -> has_byte c s = false -> has_byte c (ReplaceByte s a b) = false.
Proof.
  intros Hbc. rewrite !no_byte_elem, to_bytes_Replace, list_elem_of_fmap. intros Hs (x & Hx & Hin).
  destruct (Z.eqb_spec x (byte_of a)); [|by subst].
  apply Hbc. rewrite <- (of_byte_of b), <- (of_byte_of c). by rewrite Hx.
Qed.
Lemma to_bytes_Delete s c : to_bytes (DeleteByte s c) = filter (fun x => x <> byte_of c) (to_bytes s).
Proof.
  apply to_of_bytes. apply Forall_forall. intros x [_ Hx]%list_elem_of_filter. by apply (proj1 (Forall_forall _ _) (to_bytes_range s)).
Qed.
Lemma DeleteByte_gone s c : has_byte c (DeleteByte s c) = false.
Proof. rewrite no_byte_elem, to_bytes_Delete, list_elem_of_filter. tauto. Qed.
Lemma DeleteByte_no s a c : has_byte c s = false -> has_byte c (DeleteByte s a) = false.
Proof. rewrite !no_byte_elem, to_bytes_Delete, list_elem_of_filter. tauto. Qed.

(** ** strings.TrimSpace *)

Section Trim.
Context `{UnicodeTables}.
Fixpoint lead_spaces (rs : list Z) : list Z :=
  match rs with r :: rs => if IsSpace r then r :: lead_spaces rs else [] | [] => [] end.
Definition space_bytes (rs : list Z) : nat := length (encode_runes (lead_spaces rs)).
Definition trim_left (l : list Z) : list Z := drop (space_bytes (decode_runes l)) l.
Definition trim_right (l : list Z) : list Z := take (length l - space_bytes (rev (decode_runes l))) l.
Definition TrimSpace (s : string) : string := of_bytes (trim_right (trim_left (to_bytes s))).

(** A string whose first and last runes are no spaces is left alone. *)
Definition trimmed (s : string) : Prop :=
  (forall r rs, runes s = r :: rs -> IsSpace r = false) /\ (forall r rs, rev (runes s) = r :: rs -> IsSpace r = false).
Lemma lead_spaces_none rs : (forall r l, rs = r :: l -> IsSpace r = false) -> lead_spaces rs = [].
Proof. destruct rs as [|r rs]; [done|]. intros Hr. simpl. by rewrite (Hr r rs). Qed.
Lemma TrimSpace_trimmed s : trimmed s -> TrimSpace s = s.
Proof.
  intros [Hl Hr]. unfold TrimSpace, trim_left, trim_right, space_bytes. fold (runes s).
  rewrite (lead_spaces_none (runes s)) by done. cbn [encode_runes map concat length drop]. fold (runes s).
  rewrite lead_spaces_none by done. cbn [encode_runes map concat length]. rewrite Nat.sub_0_r, firstn_all. apply of_to_bytes.
Qed.
End Trim.

(** ** bufio.Scanner over lines *)

Definition dropCR (s : string) : string := TrimSuffix s (String CR "").
(** MaxScanTokenSize: a longer line does not fit in the buffer. *)
Definition maxLine : Z := 65535.
Definition ErrTooLong : string := "bufio.Scanner: token too long".
(** The lines, and whether one was too long. *)
Fixpoint scan_lines (parts : list string) : list string * bool :=
  match parts with
  | [] => ([], false)
  | [last] => if decide (last = "") then ([], false)
              else if maxLine <? Z.of_nat (String.length last) then ([], true) else ([dropCR last], false)
  | line :: parts =>
    if maxLine <? Z.of_nat (String.length line) then ([], true)
    else let '(lines, long) := scan_lines parts in (dropCR line :: lines, long)
  end.
Definition ScanLines (content : string) : list string * bool := scan_lines (SplitByte content LF).

(** Lines, each with its line feed, are scanned as they are. *)
Fixpoint unlines (lines : list string) : string := match lines with [] => "" | l :: lines => l +:+ String LF (unlines lines) end.
Definition good_line (l : string) : Prop := has_byte LF l = false /\ dropCR l = l /\ Z.of_nat (String.length l) <= maxLine.
Lemma one_line_good l : one_line l -> Z.of_nat (String.length l) <= maxLine -> good_line l.
Proof.
  intros [Hlf Hcr] Hlen. split; [done|]. split; [|done]. unfold dropCR, TrimSuffix. destruct (HasSuffix l (String CR "")) eqn:E; [|done].
  apply HasSuffix_spec in E as [t ->]. rewrite has_byte_app in Hcr. cbn in Hcr. by rewrite orb_true_r in Hcr.
Qed.
Lemma ScanLines_unlines lines : Forall good_line lines -> ScanLines (unlines lines) = (lines, false).
Proof.
  unfold ScanLines. induction 1 as [|l lines (Hlf & Hcr & Hlen) _ IH]; [done|]. cbn [unlines]. rewrite SplitByte_app by done.
  destruct (SplitByte (unlines lines) LF) as [|p ps] eqn:Hs; [by destruct (SplitByte_nonempty (unlines lines) LF)|].
  change (scan_lines (l :: p :: ps)) with
    (if maxLine <? Z.of_nat (String.length l) then ([], true) else let '(ls, long) := scan_lines (p :: ps) in (dropCR l :: ls, long)).
  rewrite IH, Hcr. destruct (Z.ltb_spec maxLine (Z.of_nat (String.length l))); [lia|done].
Qed.
Lemma has_byte_Join l c d : Forall (fun s => has_byte d s = false) l -> c <> d -> has_byte d (JoinByte l c) = false.
Proof.
  intros Hl Hcd. induction Hl as [|s l Hs Hl IH]; [done|]. destruct l as [|t l]; [done|].
  change (JoinByte (s :: t :: l) c) with (s +:+ String c (JoinByte (t :: l) c)).
  rewrite has_byte_app, Hs. cbn [has_byte]. rewrite bool_decide_false by done. done.
Qed.

(** ** Atoi of a formatted int *)

Lemma parse_uint_value l n : 0 <= n -> Forall digit l -> value n l <= maxUint64 -> parse_uint l n = Ok (value n l).
Proof.
  revert n. induction l as [|b l IH]; intros n Hn Hl Hv; [done|]. apply Forall_cons in Hl as [Hb Hl]. unfold digit in Hb.
  cbn [parse_uint]. replace (negb _) with false by lia.
  pose proof (value_ge (n * 10 + (b - 48)) l ltac:(lia) Hl). change (value (n * 10 + (b - 48)) l <= maxUint64) in Hv.
  change (maxUint64 / 10 + 1) with 1844674407370955162. unfold maxUint64 in *. replace (_ <=? n) with false by lia. replace (_ <? n * 10 + (b - 48)) with false by lia. apply IH; [lia|done..].
Qed.
Lemma digits_parse n : 0 <= n <= maxUint64 -> parse_uint (digits 20 n []) 0 = Ok n.
Proof.
  intros Hn. unfold maxUint64 in Hn. destruct (digits_spec 20 n []) as [Hd Hv]; [simpl; lia|constructor|].
  assert (value n [] = n) as E by done. rewrite E in Hv. rewrite parse_uint_value; [by rewrite Hv|lia|done|]. rewrite Hv. unfold maxUint64. lia.
Qed.
Lemma Atoi_FormatInt n : is_int64 n -> Atoi (FormatInt n) = Ok n.
Proof.
  unfold is_int64, Atoi, FormatInt. change (2 ^ 63) with 9223372036854775808. intros Hn. destruct (Z.ltb_spec n 0).
  - destruct (FormatUint_bytes (- n)) as [E Hd]; [unfold maxUint64; lia|]. change ("-" +:+ FormatUint (- n)) with (String "-"%char (FormatUint (- n))).
    change (to_bytes (String "-"%char (FormatUint (- n)))) with (45 :: to_bytes (FormatUint (- n))). rewrite E.
    cbn [Z.eqb Pos.eqb orb]. pose proof (digits_nonempty 20 (- n) [] ltac:(lia)). destruct (digits 20 (- n) []) as [|b l] eqn:El; [done|].
    rewrite <- El, digits_parse by (unfold maxUint64; lia). cbn. replace (_ <? - n) with false by lia. by rewrite Z.opp_involutive.
  - destruct (FormatUint_bytes n) as [E Hd]; [unfold maxUint64; lia|]. rewrite E.
    pose proof (digits_nonempty 20 n [] ltac:(lia)). destruct (digits 20 n []) as [|b l] eqn:El; [done|].
    apply Forall_cons in Hd as [Hb _]. unfold digit in Hb. replace (b =? 43) with false by lia. replace (b =? 45) with false by lia.
    cbn [orb negb andb]. rewrite <- El, digits_parse by (unfold maxUint64; lia). cbn. replace (_ <=? n) with false by lia. done.
Qed.
