(* ===== verification/ExtErrors.v ===== *)
(** * ExtErrors: Go errors and package framework/exterrors

    An [error] interface value is [option gerror] ([None] is nil).  [gerror]
    lists the concrete error types the modelled code creates or inspects; an
    error of a third-party package is [EForeign] (or [EGoSMTP] for go-smtp's
    own SMTPError), which carries the answers of the methods the code may call
    on it. *)
From S2P Require Import Prelude GoStr.
From stdpp Require Import pretty.

Local Open Scope Z_scope.

(** The array types exterrors.EnhancedCode and smtp.EnhancedCode share one shape. *)
Record EnhancedCode := Ench { ec0 : Z; ec1 : Z; ec2 : Z }.
Global Instance EnhancedCode_eq_dec : EqDecision EnhancedCode.
Proof. solve_decision. Defined.

(** Dynamic values stored in a [map[string]interface{}] of fields.  The two
    enhanced-code types are distinct for a type assertion. *)
Inductive fval :=
| FNil
| FInt (n : Z)
| FStr (s : string)
| FEnch (c : EnhancedCode)     (* exterrors.EnhancedCode *)
| FGoEnch (c : EnhancedCode)   (* smtp.EnhancedCode (go-smtp) *)
| FOpaque (s : string).
Global Instance fval_eq_dec : EqDecision fval.
Proof. solve_decision. Defined.

Abbreviation fields := (gmap string fval).

Inductive gerror :=
| ENew (msg : string)                                   (* errors.New *)
| EErrorf (msg : string) (inner : option gerror)        (* fmt.Errorf; inner = the %w operand *)
| ESMTP (code : Z) (ench : EnhancedCode) (msg check tgt modifier reason : string)
        (inner : option gerror) (misc : fields)         (* *exterrors.SMTPError *)
| ETemp (inner : option gerror) (temp : bool)           (* exterrors.temporaryErr *)
| EFields (inner : option gerror) (fs : fields)         (* exterrors.fieldsWrap *)
| EGoSMTP (code : Z) (ench : EnhancedCode) (msg : string) (temp : option bool)
                                                        (* *smtp.SMTPError of go-smtp *)
| EDNS (msg : string) (notfound timeout temporary : bool) (* *net.DNSError *)
| ENum (func num : string) (e : NumErr)                 (* *strconv.NumError *)
| EDeadline                                             (* context.DeadlineExceeded *)
| ECanceled                                             (* context.Canceled *)
| ETLS (inner : option gerror)                          (* smtpconn.TLSError *)
| EOp (op addr msg : string) (temp : bool) (inner : option gerror)
                                                        (* *net.OpError *)
| ERCode (name : string) (code : Z)                       (* dns.RCodeError *)
| EForeign (msg : string) (temp : option bool) (fs : option fields) (inner : option gerror).

Abbreviation error := (option gerror).

(** exterrors.SMTPError literals with only the common fields set. *)
Definition smtp_error (code : Z) (ench : EnhancedCode) (msg : string) (inner : error) : gerror :=
  ESMTP code ench msg "" "" "" "" inner ∅.

(** ** Methods *)

(** Unwrap() error, where the type has it. *)
Definition unwrap (e : gerror) : error :=
  match e with
  | EErrorf _ i | ESMTP _ _ _ _ _ _ _ i _ | ETemp i _ | EFields i _ | ETLS i
  | EOp _ _ _ _ i | EForeign _ _ _ i => i
  | _ => None
  end.

(** SMTPError.Temporary *)
Definition SMTPError_Temporary (code : Z) : bool := Z.quot code 100 =? 4.

(** The answer of the Temporary() method, where the type has one. *)
Definition temporary_method (e : gerror) : option bool :=
  match e with
  | ESMTP code _ _ _ _ _ _ _ _ => Some (SMTPError_Temporary code)
  | ETemp _ t => Some t
  | EGoSMTP _ _ _ t => t
  | EDNS _ _ timeout temporary => Some (timeout || temporary)
  | EDeadline => Some true
  | EOp _ _ _ t _ => Some t
  | ERCode _ code => Some (code =? 2)
  | EForeign _ t _ _ => t
  | _ => None
  end.

Definition num_error_text (f n : string) (e : NumErr) : string :=
  "strconv." +:+ f +:+ ": parsing " +:+ n +:+ ": "
  +:+ match e with ErrSyntax => "invalid syntax" | ErrRange => "value out of range" end.

(** RCodeError.Error (framework/dns/dnssec.go) *)
Definition rcode_text (name : string) (code : Z) : string :=
  if code =? 1 then "dns: rcode FORMERR when looking up " +:+ name
  else if code =? 2 then "dns: rcode SERVFAIL when looking up " +:+ name
  else if code =? 3 then "dns: rcode NXDOMAIN when looking up " +:+ name
  else if code =? 4 then "dns: rcode NOTIMP when looking up " +:+ name
  else if code =? 5 then "dns: rcode REFUSED when looking up " +:+ name
  else "dns: non-success rcode: " +:+ pretty code +:+ " when looking up " +:+ name.

(** Error() string *)
Fixpoint Error (e : gerror) : string :=
  match e with
  | ENew m | EErrorf m _ | EGoSMTP _ _ m _ | EDNS m _ _ _ | EOp _ _ m _ _ | EForeign m _ _ _ => m
  | ERCode name code => rcode_text name code
  | ETLS (Some i) => "smtpconn: " +:+ Error i
  | ETLS None => "smtpconn: "
  | ESMTP _ _ msg _ _ _ reason inner _ =>
    if decide (reason = "") then
      match inner with Some i => Error i | None => msg end
    else reason
  | ETemp (Some i) _ | EFields (Some i) _ => Error i
  | ETemp None _ | EFields None _ => ""
  | ENum f n e => num_error_text f n e
  | EDeadline => "context deadline exceeded"
  | ECanceled => "context canceled"
  end.

(** fmt.Errorf(text + ": %w", err) *)
Definition wrapf (text : string) (err : gerror) : gerror := EErrorf (text +:+ ": " +:+ Error err) (Some err).

(** SMTPError.Fields *)
Definition SMTPError_Fields (code : Z) (ench : EnhancedCode) (msg check tgt reason : string)
    (inner : error) (misc : fields) : fields :=
  let ctx := <["smtp_msg" := FStr msg]> (<["smtp_enchcode" := FEnch ench]>
             (<["smtp_code" := FInt code]> misc)) in
  let ctx := if decide (check = "") then ctx else <["check" := FStr check]> ctx in
  let ctx := if decide (tgt = "") then ctx else <["target" := FStr tgt]> ctx in
  if decide (reason = "") then
    match inner with Some i => <["reason" := FStr (Error i)]> ctx | None => ctx end
  else <["reason" := FStr reason]> ctx.

(** The map the Fields() method of an error returns, where the type has one. *)
Definition own_fields (e : gerror) : option fields :=
  match e with
  | ESMTP code ench msg check tgt _ reason inner misc =>
    Some (SMTPError_Fields code ench msg check tgt reason inner misc)
  | EFields _ fs => Some fs
  | EForeign _ _ fs _ => fs
  | _ => None
  end.

(** ** errors.As on the Temporary() interface *)

Fixpoint as_temporary (e : gerror) : option bool :=
  match temporary_method e with
  | Some b => Some b
  | None =>
    match e with
    | EErrorf _ (Some i) | ESMTP _ _ _ _ _ _ _ (Some i) _ | ETemp (Some i) _
    | EFields (Some i) _ | ETLS (Some i) | EOp _ _ _ _ (Some i) | EForeign _ _ _ (Some i) => as_temporary i
    | _ => None
    end
  end.

Definition IsTemporaryOrUnspec (err : error) : bool :=
  match err ≫= as_temporary with Some t => t | None => true end.

Definition IsTemporary (err : error) : bool :=
  match err ≫= as_temporary with Some t => t | None => false end.

Definition WithTemporary (err : error) (temporary : bool) : gerror := ETemp err temporary.

Definition WithFields (err : error) (fs : fields) : gerror := EFields err fs.

(** One iteration of the loop of exterrors.Fields: a key that already has a
    non-nil value keeps it. *)
Definition merge_fields (acc own : fields) : fields :=
  merge (fun a o => match a with
                    | Some FNil | None => match o with Some v => Some v | None => a end
                    | Some v => Some v
                    end) acc own.

(** The loop of exterrors.Fields, from the error [e] with the map so far. *)
Fixpoint Fields_loop (e : gerror) (acc : fields) : fields :=
  let acc := match own_fields e with Some fs => merge_fields acc fs | None => acc end in
  match e with
  | EErrorf _ (Some i) | ESMTP _ _ _ _ _ _ _ (Some i) _ | ETemp (Some i) _
  | EFields (Some i) _ | ETLS (Some i) | EOp _ _ _ _ (Some i) | EForeign _ _ _ (Some i) => Fields_loop i acc
  | _ => acc
  end.

Definition Fields (err : error) : fields :=
  match err with Some e => Fields_loop e ∅ | None => ∅ end.

Definition SMTPCode (err : error) (temporaryCode permanentCode : Z) : Z :=
  if IsTemporary err then temporaryCode else permanentCode.

(** As written: the second assignment is not in an else branch. *)
Definition SMTPEnchCode (err : error) (code : EnhancedCode) : EnhancedCode :=
  let code := if IsTemporary err then Ench 4 (ec1 code) (ec2 code) else code in
  Ench 5 (ec1 code) (ec2 code).

(** exterrors.UnwrapDNSErr: the second component is always a fresh empty map. *)
Definition UnwrapDNSErr (err : error) : string * fields :=
  match err with
  | Some (EDNS msg _ _ _) => (msg, ∅)
  | _ => ("", ∅)
  end.

(** ** The chain of an error *)

Fixpoint chain (e : gerror) : list gerror :=
  e :: match e with
       | EErrorf _ (Some i) | ESMTP _ _ _ _ _ _ _ (Some i) _ | ETemp (Some i) _
       | EFields (Some i) _ | ETLS (Some i) | EOp _ _ _ _ (Some i) | EForeign _ _ _ (Some i) => chain i
       | _ => []
       end.

(** Induction along [unwrap], the recursion principle of the loops above. *)
Lemma gerror_chain_ind (P : gerror -> Prop) :
  (forall e, unwrap e = None -> P e) ->
  (forall e i, unwrap e = Some i -> P i -> P e) ->
  forall e, P e.
Proof.
  intros HN HS. fix IH 1.
  intros [m|m [i|]|c en m ck t mo r [i|] mi|[i|] t|[i|] f|c en m t|m a b c|f n e| | |[i|]|o a m t [i|]|n c|m t f [i|]];
    try (by apply HN); by (eapply HS; [reflexivity|apply IH]).
Qed.

Lemma chain_unwrap e :
  chain e = e :: match unwrap e with Some i => chain i | None => [] end.
Proof. destruct e; simpl; repeat case_match; done. Qed.

Lemma as_temporary_unwrap e :
  as_temporary e = match temporary_method e with
                   | Some b => Some b
                   | None => unwrap e ≫= as_temporary
                   end.
Proof. destruct e; simpl; repeat case_match; done. Qed.

Lemma Fields_loop_unwrap e acc :
  Fields_loop e acc =
  let acc := match own_fields e with Some fs => merge_fields acc fs | None => acc end in
  match unwrap e with Some i => Fields_loop i acc | None => acc end.
Proof. destruct e; simpl; repeat case_match; done. Qed.

(** The first [Some] of a list. *)
Fixpoint first_some {A} (l : list (option A)) : option A :=
  match l with
  | [] => None
  | Some a :: _ => Some a
  | None :: l => first_some l
  end.

Lemma as_temporary_chain e :
  as_temporary e = first_some (map temporary_method (chain e)).
Proof.
  induction e as [e H|e i H IH] using gerror_chain_ind;
    rewrite as_temporary_unwrap, chain_unwrap, H; simpl.
  - by destruct (temporary_method e).
  - rewrite IH. by destruct (temporary_method e).
Qed.

(** The non-nil value an error itself gives to a field. *)
Definition own_value (k : string) (e : gerror) : option fval :=
  v ← own_fields e ≫= lookup k;
  if decide (v = FNil) then None else Some v.

Definition nonnil (v : option fval) : option fval :=
  v ← v; if decide (v = FNil) then None else Some v.

Lemma merge_fields_nonnil acc own k :
  nonnil (merge_fields acc own !! k)
  = match nonnil (acc !! k) with Some v => Some v | None => nonnil (own !! k) end.
Proof.
  unfold merge_fields. rewrite lookup_merge. unfold diag_None, nonnil.
  destruct (acc !! k) as [[]|] eqn:A, (own !! k) as [[]|] eqn:O; simpl; try done;
    repeat case_decide; simplify_eq; done.
Qed.

Lemma Fields_loop_nonnil e acc k :
  nonnil (Fields_loop e acc !! k)
  = match nonnil (acc !! k) with
    | Some v => Some v
    | None => first_some (map (own_value k) (chain e))
    end.
Proof.
  revert acc. induction e as [e H|e i H IH] using gerror_chain_ind; intros acc;
    rewrite Fields_loop_unwrap, chain_unwrap, H; simpl.
  - unfold own_value. destruct (own_fields e) as [fs|]; simpl; [rewrite merge_fields_nonnil|];
      destruct (nonnil (acc !! k)); try done; by destruct (nonnil (fs !! k)) eqn:E;
      unfold nonnil in E; rewrite E.
  - rewrite IH. unfold own_value at 2.
    destruct (own_fields e) as [fs|]; simpl; [rewrite merge_fields_nonnil|];
      destruct (nonnil (acc !! k)); try done; by destruct (nonnil (fs !! k)) eqn:E;
      unfold nonnil in E; rewrite E.
Qed.
