(* ===== verification/UpdatePipe.v ===== *)
(** * UpdatePipe: internal/updatepipe

    How processes that share a mailbox store tell each other about changes: the text of
    an update, the stream of a Unix socket and the channels of a broker.  Updates and
    encoding/json are parameters. *)
From S2P Require Import Prelude GoStr GoText ExtErrors.
From Stdlib Require Import Ascii ZifyBool.

Local Open Scope Z_scope.

Definition semicolon : ascii := ";"%char.
Definition DLE : ascii := ascii_of_nat 16.
Definition unescapeName (s : string) : string := ReplaceByte s DLE semicolon.
Definition escapeName (s : string) : string := ReplaceByte s semicolon DLE.

(** The dynamic types of Key: a json.Number is the text of a number. *)
Inductive key := KString (s : string) | KUint64 (n : Z) | KNumber (text : string) | KOther.

Section Pipe.
(** mess.Update with its Key, Marshal and a Decoder with UseNumber *)
Context {Update : Type} (upd_Key : Update -> key) (set_Key : key -> Update -> Update).
Context (json_Marshal : Update -> Result gerror string) (json_Decode : string -> Result gerror Update).

Definition parseUpdate (s : string) : Result gerror (string * Update) :=
  match SplitN s semicolon 2 with
  | [id; blob] =>
    match json_Decode (unescapeName blob) with
    | Err err => Err (wrapf "parseUpdate" err)
    | Ok upd =>
      Ok (id, match upd_Key upd with
              | KNumber val => set_Key (KUint64 (match ParseUint val 64 with Ok n => n | Err ErrRange => maxUint64 | Err ErrSyntax => 0 end)) upd
              | _ => upd
              end)
    end
  | _ => Err (ENew "updatepipe: mismatched parts count")
  end.
Definition formatUpdate (myID : string) (upd : Update) : Result gerror string :=
  match json_Marshal upd with
  | Err err => Err (wrapf "formatUpdate" err)
  | Ok updBlob => Ok (JoinByte [myID; escapeName updBlob] semicolon +:+ String LF "")
  end.

(** ** The Unix socket *)

(** A pass of the loop of readUpdates: the line is skipped, gives an update, or, when it
    cannot be parsed, a nil pointer that is followed. *)
Inductive line_result := Skip | Deliver (upd : Update) | NilDeref.
Definition read_line (myID line : string) : line_result :=
  let '(id, upd) := match parseUpdate line with Ok (id, upd) => (id, Some upd) | Err _ => ("", None) end in
  if decide (id = myID) then Skip
  else match upd with None => NilDeref | Some upd => Deliver upd end.
Definition nil_panic : string := "invalid memory address or nil pointer dereference".

(** readUpdates alone: the updates sent to the channel, until the goroutine ends or panics *)
Fixpoint read_lines (myID : string) (lines : list string) : list Update * option string :=
  match lines with
  | [] => ([], None)
  | line :: lines =>
    match read_line myID line with
    | Skip => read_lines myID lines
    | NilDeref => ([], Some nil_panic)
    | Deliver upd => let '(upds, why) := read_lines myID lines in (upd :: upds, why)
    end
  end.
Definition readUpdates (myID content : string) : list Update * option string := read_lines myID (ScanLines content).1.

(** The goroutine of Listen accepts connections and starts a readUpdates for each; their
    steps interleave in any order.  A connection is the text that comes in on it, with
    the lines its goroutine has not read; [li_heard] are the updates sent to the channel,
    each with its connection.  A panic of one goroutine ends the process. *)
Record listening := mkListening {
  li_open : bool;
  li_conns : list (string * list string);
  li_heard : list (nat * Update);
  li_panic : option string
}.
Definition listening_init : listening := mkListening true [] [] None.
Definition accept (content : string) (l : listening) : listening :=
  mkListening (li_open l) (li_conns l ++ [(content, (ScanLines content).1)]) (li_heard l) (li_panic l).
Definition read_next (myID : string) (i : nat) (l : listening) : option listening :=
  match li_conns l !! i with
  | Some (content, line :: lines) =>
    let conns := <[i := (content, lines)]> (li_conns l) in
    Some (match read_line myID line with
          | Skip => mkListening (li_open l) conns (li_heard l) None
          | Deliver upd => mkListening (li_open l) conns (li_heard l ++ [(i, upd)]) None
          | NilDeref => mkListening (li_open l) conns (li_heard l) (Some nil_panic)
          end)
  | _ => None
  end.
Inductive listen_step (myID : string) : listening -> listening -> Prop :=
  | Accept content l : li_open l = true -> li_panic l = None -> listen_step myID l (accept content l)
  | ReadNext i l l' : li_panic l = None -> read_next myID i l = Some l' -> listen_step myID l l'
    (* Accept returns an error: the listener was closed *)
  | AcceptFails conns h : listen_step myID (mkListening true conns h None) (mkListening false conns h None).
(** The updates heard on a connection *)
Definition heard (i : nat) (l : listening) : list Update := map snd (base.filter (fun x => x.1 = i) (li_heard l)).

Context {W : Type}.
Record Socket := mkSocket { sk_Dial : Prog W error; sk_WriteString : string -> Prog W error; sk_Listen : Prog W error; sk_Close : Prog W unit; sk_Unlisten : Prog W unit }.
Context (sock : Socket).
(** UnixSockPipe: whether it is connected, and whether it listens *)
Record UnixSockPipe := mkPipe { usp_myID : string; usp_sender : bool; usp_listener : bool }.
Definition usp_Listen (usp : UnixSockPipe) : Prog W (UnixSockPipe * error) :=
  err ← sk_Listen sock;
  mret (match err with Some err => (usp, Some err) | None => (mkPipe (usp_myID usp) (usp_sender usp) true, None) end).
Definition usp_InitPush (usp : UnixSockPipe) : Prog W (UnixSockPipe * error) :=
  err ← sk_Dial sock;
  mret (match err with Some err => (usp, Some err) | None => (mkPipe (usp_myID usp) true (usp_listener usp), None) end).
Definition usp_Push (usp : UnixSockPipe) (upd : Update) : Prog W (UnixSockPipe * error) :=
  '(usp, err) ← (if usp_sender usp then mret (usp, None) else usp_InitPush usp);
  match err with
  | Some err => mret (usp, Some err)
  | None =>
    match formatUpdate (usp_myID usp) upd with
    | Err err => mret (usp, Some err)
    | Ok updStr => err ← sk_WriteString sock updStr; mret (usp, err)
    end
  end.
Definition usp_Close (usp : UnixSockPipe) : Prog W error :=
  (if usp_sender usp then sk_Close sock else mret tt) ;; (if usp_listener usp then sk_Unlisten sock else mret tt) ;; mret None.

(** ** The broker *)

Definition channel (k : key) : Result gerror string :=
  match k with
  | KString s => Ok s
  | KUint64 n => Ok ("__uint64_" +:+ FormatUint n)
  | _ => Err (EErrorf "updatepipe: key type must be either string or uint64" None)
  end.
(** Listen: the updates of the payloads, those that cannot be parsed left out *)
Fixpoint listen (myID : string) (payloads : list string) : list Update :=
  match payloads with
  | [] => []
  | payload :: payloads =>
    match parseUpdate payload with
    | Err _ => listen myID payloads
    | Ok (id, upd) => if decide (id = myID) then listen myID payloads else upd :: listen myID payloads
    end
  end.
Record PubSub := mkPubSub { ps_Subscribe : string -> Prog W error; ps_Unsubscribe : string -> Prog W error; ps_Publish : string -> string -> Prog W error }.
Context (ps : PubSub).
Definition Subscribe (k : key) : Prog W unit := match channel k with Err _ => mret tt | Ok psKey => ps_Subscribe ps psKey ;; mret tt end.
Definition Unsubscribe (k : key) : Prog W unit := match channel k with Err _ => mret tt | Ok psKey => ps_Unsubscribe ps psKey ;; mret tt end.
Definition Push (myID : string) (upd : Update) : Prog W error :=
  match channel (upd_Key upd) with
  | Err err => mret (Some err)
  | Ok psKey => match formatUpdate myID upd with Err err => mret (Some err) | Ok updBlob => ps_Publish ps psKey updBlob end
  end.

(** ** What arrives *)

(** An update that encoding/json carries: its text has no control characters, and it is
    read back with its key, a number as its text. *)
Definition as_decoded (upd : Update) : Update := match upd_Key upd with KUint64 n => set_Key (KNumber (FormatUint n)) upd | _ => upd end.
Definition carried (upd : Update) : Prop :=
  match upd_Key upd with KString _ => True | KUint64 n => 0 <= n <= maxUint64 | _ => False end /\
  exists text, json_Marshal upd = Ok text /\ one_line text /\ has_byte DLE text = false /\ json_Decode text = Ok (as_decoded upd).
Definition good_id (id : string) : Prop := id <> "" /\ has_byte semicolon id = false /\ one_line id.
Hypothesis set_Key_Key : forall k u, upd_Key (set_Key k u) = k.
Hypothesis set_Key_set_Key : forall k k' u, set_Key k (set_Key k' u) = set_Key k u.
Hypothesis set_Key_same : forall u, set_Key (upd_Key u) u = u.

Lemma unescape_escape s : has_byte DLE s = false -> unescapeName (escapeName s) = s.
Proof.
  intros Hs. unfold unescapeName, escapeName. apply to_bytes_inj. rewrite !to_bytes_Replace, map_map.
  apply no_byte_elem in Hs. rewrite <- (map_id (to_bytes s)) at 2. apply map_ext_in. intros x Hx.
  assert (x <> byte_of DLE) as Hne by (intros ->; by apply Hs, list_elem_of_In).
  destruct (Z.eqb_spec x (byte_of semicolon)) as [->|Hsc]; [by rewrite Z.eqb_refl|]. by destruct (Z.eqb_spec x (byte_of DLE)).
Qed.
Lemma escape_one_line s : one_line s -> one_line (escapeName s).
Proof. intros [H1 H2]. split; by apply ReplaceByte_other. Qed.
(** The line of an update, and what it is parsed to *)
Definition update_line (id text : string) : string := JoinByte [id; escapeName text] semicolon.
Lemma parse_format id upd : good_id id -> carried upd ->
  exists line, formatUpdate id upd = Ok (line +:+ String LF "") /\ one_line line /\ parseUpdate line = Ok (id, upd).
Proof.
  intros (Hne & Hsc & Hid) (Hk & text & Em & Ht & Hd & Ed). exists (update_line id text). unfold formatUpdate. rewrite Em. split; [done|].
  assert (update_line id text = id +:+ String semicolon (escapeName text)) as El by done. split.
  - rewrite El. destruct Hid, (escape_one_line text Ht). split; rewrite has_byte_app; cbn [has_byte]; rewrite bool_decide_false by done; by apply orb_false_iff.
  - unfold parseUpdate. rewrite El, SplitN_cons by done. cbn [SplitN]. rewrite unescape_escape, Ed by done. unfold as_decoded.
    destruct (upd_Key upd) as [s|n|text'|] eqn:Ek; [by rewrite Ek| |done..].
    rewrite set_Key_Key, ParseUint_Format by (unfold maxUint64 in Hk; lia). rewrite set_Key_set_Key. rewrite <- Ek, set_Key_same. done.
Qed.

Lemma read_lines_good myID (sent : list (string * Update)) lines : good_id myID -> Forall (fun p => good_id p.1 /\ carried p.2) sent ->
  Forall2 (fun p line => formatUpdate p.1 p.2 = Ok (line +:+ String LF "") /\ Z.of_nat (String.length line) <= maxLine) sent lines ->
  readUpdates myID (unlines lines) = (map snd (base.filter (fun p => p.1 <> myID) sent), None).
Proof.
  intros Hmy Hsent Hlines. assert (Forall good_line lines /\ Forall2 (fun p line => parseUpdate line = Ok p) sent lines) as [Hg Hp].
  { induction Hlines as [|[id upd] line sent lines [Hf Hlen] _ IH]; [done|]. apply Forall_cons in Hsent as [[Hid Hc] Hsent].
    destruct (IH Hsent) as [Hg Hp]. destruct (parse_format id upd Hid Hc) as (line' & Ef & Ho & Epu). cbn [fst snd] in Hf. rewrite Ef in Hf.
    assert (line' = line) as -> by (apply to_bytes_inj; injection Hf as Hf; apply (f_equal to_bytes) in Hf; rewrite !to_bytes_app in Hf; by apply app_inj_tail in Hf as [? _]).
    split; constructor; try done. by apply one_line_good. }
  unfold readUpdates. rewrite ScanLines_unlines by done. cbn [fst]. clear Hlines Hg Hsent.
  induction Hp as [|[id upd] line sent lines Hpl _ IH]; [done|]. cbn [read_lines]. unfold read_line. rewrite Hpl, filter_cons. cbn [fst].
  destruct (decide (id = myID)) as [->|Hne]; [by rewrite decide_False by naive_solver|]. rewrite decide_True by done. by rewrite IH.
Qed.

(** What was heard on a connection and what its goroutine would still send are what
    readUpdates alone would have sent. *)
Definition listen_inv (myID : string) (l : listening) : Prop :=
  (forall i u, (i, u) ∈ li_heard l -> (i < length (li_conns l))%nat) /\
  (forall i c, li_conns l !! i = Some c -> li_panic l = None ->
     readUpdates myID c.1 = (heard i l ++ (read_lines myID c.2).1, (read_lines myID c.2).2)) /\
  (is_Some (li_panic l) -> exists i c, li_conns l !! i = Some c /\ (readUpdates myID c.1).2 = Some nil_panic).

#[local] Arguments heard : simpl never.
Lemma heard_app i l j u op cs p : heard i (mkListening op cs (li_heard l ++ [(j, u)]) p) = heard i l ++ (if decide (j = i) then [u] else []).
Proof. unfold heard. cbn [li_heard]. rewrite filter_app, map_app, filter_cons, filter_nil. cbn [fst]. by destruct (decide (j = i)). Qed.

Lemma listen_inv_accept myID content l : listen_inv myID l -> li_panic l = None -> listen_inv myID (accept content l).
Proof.
  intros (Hlt & Hc & Hp) Hn. split_and!.
  - intros i u Hu%Hlt. cbn. rewrite length_app. lia.
  - intros i c Hi _. apply lookup_app_Some in Hi as [Hi|[Hi Hi']]; [by apply Hc|].
    apply list_lookup_singleton_Some in Hi' as [Hi' <-]. cbn [fst snd].
    assert (heard i (accept content l) = []) as ->; [|by destruct (readUpdates _ _) eqn:E; unfold readUpdates in E; rewrite E].
    unfold heard. enough (base.filter (fun x => x.1 = i) (li_heard l) = []) as E by (cbn; by rewrite E).
    apply elem_of_nil_inv. intros [j u] [Hj Hu]%list_elem_of_filter. apply Hlt in Hu. cbn in Hj. lia.
  - cbn. rewrite Hn. by intros [? ?].
Qed.

Lemma listen_inv_read myID i l l' : listen_inv myID l -> li_panic l = None -> read_next myID i l = Some l' -> listen_inv myID l'.
Proof.
  intros (Hlt & Hc & Hp) Hn E. unfold read_next in E.
  destruct (li_conns l !! i) as [[content [|line lines]]|] eqn:Ei; [done| |done]. injection E as <-.
  pose proof (lookup_lt_Some _ _ _ Ei) as Hi. pose proof (Hc _ _ Ei Hn) as Ec. cbn [fst snd read_lines] in Ec.
  assert (forall j c, <[i := (content, lines)]> (li_conns l) !! j = Some c ->
    j = i /\ c = (content, lines) \/ i <> j /\ li_conns l !! j = Some c) as Hins.
  { intros j c. destruct (decide (i = j)) as [<-|Hne]; [rewrite list_lookup_insert_eq by done; naive_solver|].
    rewrite list_lookup_insert_ne by done. auto. }
  destruct (read_line myID line) as [|u|].
  - split_and!; cbn; [intros j u; rewrite length_insert; apply Hlt| |by intros [? ?]].
    intros j c [[-> ->]|[_ Hj]]%Hins _; [exact Ec|by apply Hc].
  - split_and!; cbn; [| |by intros [? ?]].
    + intros j v [Hj|Hj]%elem_of_app; rewrite length_insert; [by eapply Hlt|].
      apply list_elem_of_singleton in Hj. by simplify_eq.
    + intros j c Hj _. rewrite heard_app. apply Hins in Hj as [[-> ->]|[Hne Hj]].
      * rewrite decide_True, <- app_assoc by done. cbn [fst snd]. destruct (read_lines myID lines). exact Ec.
      * rewrite decide_False, app_nil_r by done. by apply Hc.
  - split_and!; cbn; [intros j u; rewrite length_insert; apply Hlt|done|]. intros _.
    exists i, (content, lines). split; [by apply list_lookup_insert_eq|]. cbn. by rewrite Ec.
Qed.

Lemma listen_inv_reach myID l : rtc (listen_step myID) listening_init l -> listen_inv myID l.
Proof.
  assert (listen_inv myID listening_init) as H0 by (split_and!; cbn; [set_solver|done|by intros [? ?]]).
  intros Hr. induction Hr as [|l l1 l2 Hs _ IH]; [done|]. apply IH. destruct Hs as [content l _ Hn|i l l' Hn E|conns h].
  - by apply listen_inv_accept.
  - by eapply listen_inv_read.
  - exact H0.
Qed.

(** C30: what a process hears from the socket.  Let any processes, itself among them, write
    updates to it, each as formatUpdate gives it and short enough for a line of the
    scanner; each has its own connection, and the goroutines that read the connections
    interleave in any order.  Then none of them panics, and on each connection the
    process hears the updates of the others, with their keys, in the order they were
    written on it, and none of its own: a prefix of them at any time, all of them once
    the goroutine has read its lines, which it can do whenever the channel takes its
    updates.  Between connections there is no order. *)
Theorem pipe_delivers myID (sent : list (list (string * Update))) l :
  good_id myID -> rtc (listen_step myID) listening_init l ->
  Forall2 (fun sent c => Forall (fun p => good_id p.1 /\ carried p.2) sent /\ exists lines, c.1 = unlines lines /\
    Forall2 (fun p line => formatUpdate p.1 p.2 = Ok (line +:+ String LF "") /\ Z.of_nat (String.length line) <= maxLine) sent lines)
    sent (li_conns l) ->
  li_panic l = None /\
  (forall i u, (i, u) ∈ li_heard l -> (i < length sent)%nat) /\
  forall i p c, sent !! i = Some p -> li_conns l !! i = Some c ->
    heard i l `prefix_of` map snd (base.filter (fun p => p.1 <> myID) p) /\
    (c.2 = [] -> heard i l = map snd (base.filter (fun p => p.1 <> myID) p)) /\
    (c.2 <> [] -> exists l', listen_step myID l l' /\ li_conns l' !! i = Some (c.1, tail c.2)).
Proof.
  intros Hmy Hr Hs. destruct (listen_inv_reach _ _ Hr) as (Hlt & Hc & Hp).
  assert (forall i p c, sent !! i = Some p -> li_conns l !! i = Some c ->
    readUpdates myID c.1 = (map snd (base.filter (fun p => p.1 <> myID) p), None)) as Hread.
  { intros i p c Hi Hi'. destruct (Forall2_lookup_lr _ _ _ _ _ _ Hs Hi Hi') as (Hg & lines & -> & Hl). by apply read_lines_good. }
  assert (li_panic l = None) as Hn.
  { apply eq_None_not_Some. intros (i & c & Hi & E)%Hp. destruct (Forall2_lookup_r _ _ _ _ _ Hs Hi) as (p & Hi' & _).
    by rewrite (Hread i p c) in E. }
  split; [done|]. split; [intros i u Hu%Hlt; by rewrite (Forall2_length _ _ _ Hs)|].
  intros i p c Hi Hi'. pose proof (Hc _ _ Hi' Hn) as E. rewrite (Hread _ _ _ Hi Hi') in E. injection E as E _. split_and!.
  - rewrite E. by apply prefix_app_r.
  - intros Hnil. by rewrite E, Hnil, app_nil_r.
  - intros Hne. destruct c as [content [|line lines]]; [done|]. eexists. split; [eapply (ReadNext myID i); [done|]; unfold read_next; by rewrite Hi'|].
    destruct (read_line myID line); cbn; by rewrite list_lookup_insert_eq by (by eapply lookup_lt_Some).
Qed.
End Pipe.

(** ** Two processes *)

Definition sample_Marshal (u : key) : Result gerror string :=
  match u with KUint64 n => Ok (FormatUint n) | KString s => Ok s | _ => Err (ENew "unsupported") end.
Definition sample_Decode (s : string) : Result gerror key := Ok (KNumber s).
(** The reader hears from two others and from itself, each on a connection. *)
Definition sample_sent : list (list (string * key)) :=
  [[("1-0xa", KUint64 7); ("1-0xa", KUint64 maxUint64)]; [("2-0xb", KUint64 8)]; [("3-0xc", KUint64 9)]].
Definition sample_contents : list string :=
  [unlines ["1-0xa;7"; "1-0xa;18446744073709551615"]; unlines ["2-0xb;8"]; unlines ["3-0xc;9"]].
Definition sample_reads (order : list nat) : option (listening (Update := key)) :=
  foldl (fun l i => l ≫= read_next id (fun k _ => k) sample_Decode "2-0xb" i)
    (Some (foldl (fun l content => accept content l) listening_init sample_contents)) order.
(** Connections interleave: an update written later on another may be heard earlier. *)
Example reads_interleave :
  (map snd ∘ li_heard <$> sample_reads [0; 0; 1; 2]%nat = Some [KUint64 7; KUint64 maxUint64; KUint64 9]) /\
  (map snd ∘ li_heard <$> sample_reads [2; 0; 1; 0]%nat = Some [KUint64 9; KUint64 7; KUint64 maxUint64]).
Proof. split; vm_compute; reflexivity. Qed.
Lemma pipe_delivers_witness :
  from_option (fun l => li_panic l = None /\ heard 0 l = [KUint64 7; KUint64 maxUint64] /\ heard 1 l = []) False
    (sample_reads [2; 0; 1; 0]%nat).
Proof.
  assert (exists l, sample_reads [2; 0; 1; 0]%nat = Some l /\
    rtc (listen_step id (fun k _ => k) sample_Decode "2-0xb") listening_init l) as (l & El & Hr).
  { eexists. split; [reflexivity|].
    eapply rtc_l; [by apply (Accept _ _ _ _ (nth 0 sample_contents EmptyString))|].
    eapply rtc_l; [by apply (Accept _ _ _ _ (nth 1 sample_contents EmptyString))|].
    eapply rtc_l; [by apply (Accept _ _ _ _ (nth 2 sample_contents EmptyString))|].
    eapply rtc_l; [eapply (ReadNext _ _ _ _ 2); reflexivity|]. eapply rtc_l; [eapply (ReadNext _ _ _ _ 0); reflexivity|].
    eapply rtc_l; [eapply (ReadNext _ _ _ _ 1); reflexivity|]. eapply rtc_l; [eapply (ReadNext _ _ _ _ 0); reflexivity|]. reflexivity. }
  rewrite El. simpl.
  destruct (pipe_delivers id (fun k _ => k) sample_Marshal sample_Decode ltac:(reflexivity) ltac:(reflexivity) ltac:(reflexivity)
    "2-0xb" sample_sent l) as (Hp & _ & Hh).
  - vm_compute. repeat split; discriminate.
  - exact Hr.
  - vm_compute in El. injection El as <-.
    constructor; [|constructor; [|constructor; [|constructor]]]; (split; [repeat constructor; simpl; try discriminate; try reflexivity; eexists; (split; [reflexivity|]); vm_compute; repeat split|]).
    + exists ["1-0xa;7"; "1-0xa;18446744073709551615"]. split; [reflexivity|]. repeat constructor; try reflexivity; vm_compute; discriminate.
    + exists ["2-0xb;8"]. split; [reflexivity|]. repeat constructor; try reflexivity; vm_compute; discriminate.
    + exists ["3-0xc;9"]. split; [reflexivity|]. repeat constructor; try reflexivity; vm_compute; discriminate.
  - split; [exact Hp|]. vm_compute in El. injection El as <-.
    split; [apply (Hh 0%nat _ _ eq_refl eq_refl); reflexivity|apply (Hh 1%nat _ _ eq_refl eq_refl); reflexivity].
Defined.
(** A line that is not an update makes the reading goroutine panic on the nil update. *)
Example malformed_line_panics :
  readUpdates id (fun k _ => k) sample_Decode "2-0xb" (unlines ["1-0xa;7"; "hello"; "1-0xa;8"]) = ([KUint64 7], Some "invalid memory address or nil pointer dereference").
Proof. vm_compute. reflexivity. Qed.
