(* ===== verification/Log.v ===== *)
(** * Log: framework/log and framework/logparser

    What a logger writes for a message with fields, and how the parser reads a line of
    the log.  encoding/json, the clock and the format of times are parameters. *)
From S2P Require Import Prelude GoStr GoText ExtErrors.
From stdpp Require Import gmap sorting.
From Stdlib Require Import Ascii ZifyBool.

Local Open Scope Z_scope.

Definition TAB : ascii := ascii_of_nat 9.
Definition str1 (a : ascii) : string := String a "".

(** encoding/json, for the names, the values (those with a method to print them printed)
    and, the other way, objects *)
Record Json := mkJson {
  js_Key : string -> Result gerror string;
  js_Value : fval -> Result gerror string;
  js_Unmarshal : string -> Result gerror fields
}.

Section Log.
Context (json : Json).

(** ** Messages *)

Fixpoint marshal_pairs (m : fields) (order : list string) : Result gerror (list string) :=
  match order with
  | [] => Ok []
  | key :: order =>
    jsonKey ← js_Key json key;
    jsonValue ← js_Value json (default FNil (m !! key));
    rest ← marshal_pairs m order; Ok ((jsonKey +:+ ":" +:+ jsonValue) :: rest)
  end.
Definition key_le (a b : string) : Prop := String.leb a b = true.
#[global] Instance key_le_dec a b : Decision (key_le a b).
Proof. unfold key_le. apply _. Defined.
Definition marshalOrderedJSON (m : fields) : Result gerror string :=
  pairs ← marshal_pairs m (merge_sort key_le (map fst (map_to_list m)));
  Ok ("{" +:+ JoinByte pairs ","%char +:+ "}").

Record Logger := mkLogger { lg_Name : string; lg_Debug : bool; lg_Fields : fields }.
(** An argument after the message: a string, or a value of another type *)
Inductive arg := ArgStr (s : string) | ArgVal (v : fval).
Definition arg_val (a : arg) : fval := match a with ArgStr s => FStr s | ArgVal v => v end.
(** The loop; a key that is no string leaves the zero string under a name of its own, and
    the key before it in use. *)
Fixpoint fieldsToMap_from (i : Z) (lastKey : string) (args : list arg) (out : fields) : fields :=
  match args with
  | [] => out
  | a :: args =>
    if Z.even i then
      match a with
      | ArgStr key => fieldsToMap_from (i + 1) key args out
      | ArgVal _ => fieldsToMap_from (i + 1) lastKey args (<["field" +:+ FormatInt i := FStr ""]> out)
      end
    else fieldsToMap_from (i + 1) lastKey args (<[lastKey := arg_val a]> out)
  end.
Definition fieldsToMap (args : list arg) (out : fields) : fields := fieldsToMap_from 0 "" args out.

(** formatMsg; [broken] is the text of the fallback. *)
Definition formatMsg (broken : gerror -> string -> fields -> string) (l : Logger) (msg : string) (fs : option fields) : string :=
  if (size (lg_Fields l) + size (default ∅ fs) =? 0)%nat then msg +:+ str1 TAB
  else
    let all := lg_Fields l ∪ default ∅ fs in
    match marshalOrderedJSON all with
    | Err err => broken err msg all
    | Ok text => msg +:+ str1 TAB +:+ text
    end.
Definition error_fields (err : gerror) (args : list arg) : fields :=
  let errFields := Fields (Some err) in
  fieldsToMap args
    (match errFields !! "reason" with Some FNil | None => <["reason" := FStr (Error err)]> errFields | Some _ => errFields end).

Context {W : Type}.
(** The output a message goes to: that of the logger or of the default logger, [None]
    when logging is disabled *)
Context (out_Write : option (bool -> string -> Prog W unit)).
Definition log (l : Logger) (debug : bool) (s : string) : Prog W unit :=
  let s := if decide (lg_Name l = "") then s else lg_Name l +:+ ": " +:+ s in
  match out_Write with Some write => write debug s | None => mret tt end.
Context (broken : gerror -> string -> fields -> string).
Definition Msg (l : Logger) (msg : string) (args : list arg) : Prog W unit := log l false (formatMsg broken l msg (Some (fieldsToMap args ∅))).
Definition DebugMsg (l : Logger) (kind : string) (args : list arg) : Prog W unit :=
  if lg_Debug l then log l true (formatMsg broken l kind (Some (fieldsToMap args ∅))) else mret tt.
Definition log_Error (l : Logger) (msg : string) (err : error) (args : list arg) : Prog W unit :=
  match err with None => mret tt | Some err => log l false (formatMsg broken l msg (Some (error_fields err args))) end.
(** Printf and Debugf, of the text they format *)
Definition Printf (l : Logger) (text : string) : Prog W unit := log l false (formatMsg broken l text None).
Definition Debugf (l : Logger) (text : string) : Prog W unit := if lg_Debug l then log l true (formatMsg broken l text None) else mret tt.
(** Write: what a package writes to the logger, without a context *)
Fixpoint trim_LF (l : list Z) : list Z := match l with [] => [] | b :: l => match trim_LF l with [] => if b =? 10 then [] else [b] | l => b :: l end end.
Definition log_Write (l : Logger) (s : string) : Prog W unit := log l false (of_bytes (trim_LF (to_bytes s))).

(** ** Outputs *)

(** wcOutput, of the stamp as it is formatted *)
Definition line_of (timestamps : bool) (stamp : string) (debug : bool) (msg : string) : string :=
  (if timestamps then stamp +:+ " " else "") +:+ (if debug then "[debug] " else "") +:+ msg.
Definition wcOutput_Write (timestamps : bool) (stamp : string) (io_WriteString : string -> Prog W error) (debug : bool) (msg : string) : Prog W unit :=
  io_WriteString (line_of timestamps stamp debug msg +:+ str1 LF) ;; mret tt.
Definition multiOut_Write (outs : list (bool -> string -> Prog W unit)) (debug : bool) (msg : string) : Prog W unit :=
  for_each (fun write => write debug msg) outs.
Fixpoint multiOut_Close (outs : list (Prog W error)) : Prog W error :=
  match outs with [] => mret None | close :: outs => err ← close; match err with Some err => mret (Some err) | None => multiOut_Close outs end end.

(** ** The parser *)

Context `{UnicodeTables} {Time : Type} (time_Parse : string -> Result gerror Time).
Record LogMsg := mkLogMsg { lm_Stamp : Time; lm_Debug : bool; lm_Module : string; lm_Message : string; lm_Context : fields }.
Definition MalformedMsg (desc : string) (err : error) : gerror :=
  ENew (match err with Some err => "parse: " +:+ desc +:+ ": " +:+ Error err | None => "parse: " +:+ desc end).
(** SplitN of a text at the first colon and space *)
Fixpoint cut_module (s : string) : option (string * string) :=
  match s with
  | EmptyString => None
  | String a s' =>
    if HasPrefix s ": " then Some ("", match s' with String _ rest => rest | EmptyString => "" end)
    else match cut_module s' with Some (m, rest) => Some (String a m, rest) | None => None end
  end.
Definition module_name (s : string) : bool := forallb (fun ch => IsDigit ch || IsLetter ch || (ch =? 47)) (runes s).
Definition debug_tag : string := "[debug] ".
Definition Parse (line : string) : Result gerror LogMsg :=
  match SplitByte line TAB with
  | [text; context] =>
    m_Context ← (if decide (context = "") then Ok ∅
                 else match js_Unmarshal json context with Ok m => Ok m | Err err => Err (MalformedMsg "context unmarshal" (Some err)) end);
    match SplitN text " "%char 2 with
    | [stamp; msgText] =>
      match time_Parse stamp with
      | Err err => Err (MalformedMsg "timestamp parse" (Some err))
      | Ok m_Stamp =>
        let m_Debug := HasPrefix msgText debug_tag in
        let msgText := if m_Debug then str_drop (String.length debug_tag) msgText else msgText in
        match cut_module msgText with
        | None => Ok (mkLogMsg m_Stamp m_Debug "" msgText m_Context)
        | Some (moduleText, rest) =>
          if module_name moduleText then Ok (mkLogMsg m_Stamp m_Debug moduleText rest m_Context)
          else Ok (mkLogMsg m_Stamp m_Debug "" msgText m_Context)
        end
      end
    | _ => Err (MalformedMsg "missing a timestamp" None)
    end
  | _ => Err (MalformedMsg "missing a tab separator" None)
  end.

Definition plain_name (s : string) : Prop :=
  s <> "" /\ module_name s = true /\ has_byte ":"%char s = false /\ has_byte "["%char s = false /\ has_byte TAB s = false.
Lemma cut_module_app name rest : has_byte ":"%char name = false -> cut_module (name +:+ ": " +:+ rest) = Some (name, rest).
Proof.
  induction name as [|a name IH]; intros Hn; [by destruct rest|]. cbn [has_byte] in Hn. apply orb_false_iff in Hn as [Ha Hn].
  rewrite str_app_cons. cbn [cut_module]. assert (HasPrefix (String a (name +:+ ": " +:+ rest)) ": " = false) as ->.
  { cbn [HasPrefix]. apply bool_decide_eq_false in Ha. rewrite bool_decide_false by congruence. done. }
  by rewrite IH.
Qed.
Lemma no_debug_tag name rest : name <> "" -> has_byte "["%char name = false -> HasPrefix (name +:+ rest) debug_tag = false.
Proof.
  destruct name as [|a name]; [done|]. intros _ Hn. cbn [has_byte] in Hn. apply orb_false_iff in Hn as [Ha _]. apply bool_decide_eq_false in Ha.
  rewrite str_app_cons. cbn [HasPrefix debug_tag]. rewrite bool_decide_false by congruence. done.
Qed.
End Log.

(** A log that is a list of what was written to it, each line with a time stamp *)
Definition append_log (s : string) : Prog (list string) error := fun w => (w ++ [s], Done None).
Definition emit json (broken : gerror -> string -> fields -> string) stamp (l : Logger) (debug : bool) (msg : string) (args : list arg) : Prog (list string) unit :=
  let out := Some (wcOutput_Write true stamp append_log) in
  if debug then DebugMsg json out broken l msg args else Msg json out broken l msg args.
(** The context of a message: its fields and those of the logger, which replace them *)
Definition context_of (l : Logger) (args : list arg) : fields := lg_Fields l ∪ fieldsToMap args ∅.
(** What JSON makes of the fields: a text in one piece that is read back as [ctx] *)
Definition carried_as (json : Json) (m ctx : fields) : Prop :=
  m = ∅ /\ ctx = ∅ \/ m <> ∅ /\ exists text, marshalOrderedJSON json m = Ok text /\ text <> "" /\ has_byte TAB text = false /\ js_Unmarshal json text = Ok ctx.

(** A line of the log is read back.  A message that a named logger writes with
    timestamps, debug or not, with whatever fields and whatever text without a tab, is one
    line, from which the parser gets the time, the debug flag, the name of the logger, the
    message, colons included, and the fields as JSON carries them. *)
Theorem log_read_back `{UnicodeTables} {Time} json broken (time_Parse : string -> Result gerror Time) stamp t l debug msg args ctx w :
  plain_name (lg_Name l) -> (debug = true -> lg_Debug l = true) -> has_byte TAB msg = false ->
  has_byte TAB stamp = false /\ has_byte " "%char stamp = false -> time_Parse stamp = Ok t -> carried_as json (context_of l args) ctx ->
  exists line, emit json broken stamp l debug msg args w = (w ++ [line +:+ str1 LF], Done tt) /\
    Parse json time_Parse line = Ok (mkLogMsg t debug (lg_Name l) msg ctx).
Proof.
  intros (Hne & Hmod & Hcol & Hbr & Htab) Hdbg Hmsg [Hst Hsp] Ht Hctx.
  set (body := formatMsg json broken l msg (Some (fieldsToMap args ∅))).
  assert (exists context, body = msg +:+ String TAB context /\ has_byte TAB context = false /\
    (if decide (context = "") then Ok ∅ else match js_Unmarshal json context with Ok m => Ok m | Err err => Err (MalformedMsg "context unmarshal" (Some err)) end) = Ok ctx)
    as (context & Eb & Hctab & Ec).
  { unfold body, formatMsg. change (default ∅ (Some (fieldsToMap args ∅))) with (fieldsToMap args ∅). unfold context_of in Hctx.
    assert ((size (lg_Fields l) + size (fieldsToMap args ∅) =? 0)%nat = bool_decide (lg_Fields l ∪ fieldsToMap args ∅ = ∅)) as ->.
    { apply eq_true_iff_eq. rewrite Nat.eqb_eq, bool_decide_eq_true, Nat.eq_add_0, !map_size_empty_iff. split; [by intros [-> ->]|].
      intros He. pose proof (map_positive_l _ _ He) as He1. rewrite He1, map_empty_union in He. done. }
    destruct Hctx as [[-> ->]|(Hn & text & -> & Htn & Httab & Hun)].
    - exists "". by split.
    - rewrite bool_decide_false by done. exists text. split; [done|]. split; [done|]. rewrite decide_False by done. by rewrite Hun. }
  exists (line_of true stamp debug (lg_Name l +:+ ": " +:+ body)). split.
  - unfold emit, Msg, DebugMsg, log. fold body. rewrite decide_False by done. destruct debug; [rewrite Hdbg by done|]; reflexivity.
  - set (text := stamp +:+ " " +:+ (if debug then debug_tag else "") +:+ lg_Name l +:+ ": " +:+ msg).
    assert (line_of true stamp debug (lg_Name l +:+ ": " +:+ body) = text +:+ String TAB context) as ->.
    { unfold line_of, text. rewrite Eb. fold debug_tag. by rewrite !str_app_assoc. }
    assert (has_byte TAB text = false) as Htext.
    { unfold text. rewrite !has_byte_app, Hst, Htab, Hmsg. destruct debug; vm_compute; reflexivity. }
    unfold Parse. rewrite SplitByte_pair by done. rewrite Ec. unfold mbind at 1, result_bind at 1.
    unfold text. change (" " +:+ (if debug then debug_tag else "") +:+ lg_Name l +:+ ": " +:+ msg) with (String " "%char ((if debug then debug_tag else "") +:+ lg_Name l +:+ ": " +:+ msg)).
    rewrite SplitN_cons by done. cbn [SplitN]. rewrite Ht.
    assert (HasPrefix ((if debug then debug_tag else "") +:+ lg_Name l +:+ ": " +:+ msg) debug_tag = debug) as ->.
    { destruct debug; [apply HasPrefix_app|]. by apply (no_debug_tag (lg_Name l) (": " +:+ msg)). }
    assert ((if debug then str_drop (String.length debug_tag) ((if debug then debug_tag else "") +:+ lg_Name l +:+ ": " +:+ msg)
             else (if debug then debug_tag else "") +:+ lg_Name l +:+ ": " +:+ msg) = lg_Name l +:+ ": " +:+ msg) as -> by (destruct debug; [apply str_drop_app|done]).
    rewrite cut_module_app by done. by rewrite Hmod.
Qed.

(** ** A logger *)

#[local] Existing Instance ascii_tables.

Definition sample_json : Json :=
  mkJson (fun k => Ok k) (fun v => match v with FStr s => Ok s | _ => Ok "0" end)
    (fun s => if decide (s = "{msg_id:1a,rcpt:x}") then Ok {[ "msg_id" := FStr "1a"; "rcpt" := FStr "x" ]} else Err (ENew "invalid character")).
Definition sample_logger : Logger := mkLogger "queue" true {[ "msg_id" := FStr "1a" ]}.
Definition sample_args : list arg := [ArgStr "rcpt"; ArgStr "x"].
Definition stamp0 : string := "2006-01-02T15:04:05.000Z".
Definition sample_time (s : string) : Result gerror Z := if decide (s = stamp0) then Ok 1136214245000 else Err (ENew "cannot parse").
Lemma log_read_back_witness :
  exists line, emit sample_json (fun _ _ _ => "") stamp0 sample_logger true "delivery attempt: failed" sample_args [] = ([] ++ [line +:+ str1 LF], Done tt) /\
    Parse sample_json sample_time line = Ok (mkLogMsg 1136214245000 true "queue" "delivery attempt: failed" {[ "msg_id" := FStr "1a"; "rcpt" := FStr "x" ]}).
Proof.
  apply log_read_back.
  - repeat split; try reflexivity. discriminate.
  - reflexivity.
  - reflexivity.
  - split; reflexivity.
  - reflexivity.
  - right. split; [vm_compute; discriminate|]. exists "{msg_id:1a,rcpt:x}". repeat split; try discriminate; vm_compute; reflexivity.
Defined.
(** A name with a dot or an underscore is not seen as that of a logger; what is written
    through Write has no tab and is malformed; a key that is no string loses its value and
    the next value goes to the key before. *)
Example dotted_name : (Parse sample_json sample_time (line_of true stamp0 false ("check.dnsbl: hello" +:+ str1 TAB))) = Ok (mkLogMsg 1136214245000 false "" "check.dnsbl: hello" ∅).
Proof. vm_compute. reflexivity. Qed.
Example written_is_malformed :
  (log_Write (Some (wcOutput_Write true stamp0 append_log)) sample_logger "hello" []).1 = [stamp0 +:+ " queue: hello" +:+ str1 LF] /\
  Parse sample_json sample_time (stamp0 +:+ " queue: hello") = Err (MalformedMsg "missing a tab separator" None).
Proof. vm_compute. split; reflexivity. Qed.
Example lost_key : fieldsToMap [ArgStr "a"; ArgStr "1"; ArgVal (FInt 5); ArgStr "2"] ∅ = {[ "a" := FStr "2"; "field2" := FStr "" ]}.
Proof. vm_compute. reflexivity. Qed.
