(* ===== verification/Future.v ===== *)
(** * Future: framework/future

    A value that is set once and that any number of goroutines wait for.  The parts of
    Set and GetContext that hold the lock, and the select between them, are the steps
    of a transition system; the context of a Get may end at any time. *)
From S2P Require Import Prelude ExtErrors.
From stdpp Require Import gmap.

Section Future.
Context {V : Type}.

(** Where a GetContext is. *)
Inductive getting :=
| Entered                    (* before the first lock *)
| Selecting                  (* in the select *)
| Notified                   (* before the second lock *)
| Got (val : option V) (err : error).

Record Future := mkFuture {
  f_set : bool;
  f_val : option V;
  f_err : error;
  f_notify : bool;           (* the channel is closed *)
  f_gets : gmap nat getting
}.
Definition New : Future := mkFuture false None None false ∅.

Definition with_get (g : nat) (st : getting) (f : Future) : Future :=
  mkFuture (f_set f) (f_val f) (f_err f) (f_notify f) (<[g := st]> (f_gets f)).

Definition Set_ (val : option V) (err : error) (f : Future) : Outcome Future :=
  if f_set f then Done f
  else if f_notify f then Panicked "close of closed channel"
  else Done (mkFuture true val err true (f_gets f)).

(** The steps of GetContext *)
Definition get_check (g : nat) (f : Future) : Future :=
  with_get g (if f_set f then Got (f_val f) (f_err f) else Selecting) f.
Definition get_notified (g : nat) (f : Future) : option Future :=
  if f_notify f then Some (with_get g Notified f) else None.
Definition get_done (g : nat) (why : error) (f : Future) : Future := with_get g (Got None why) f.
Definition get_finish (g : nat) (f : Future) : Outcome Future :=
  if f_set f then Done (with_get g (Got (f_val f) (f_err f)) f)
  else Panicked "future: Notification received, but value is not set".

Inductive fev :=
| FSet (val : option V) (err : error)
| FGet (g : nat)                         (* GetContext is called *)
| FStep (g : nat)                        (* it goes on *)
| FDone (g : nat) (why : gerror).        (* its context is done: ctx.Err() *)

Definition future_step (f : Future) (e : fev) : option (Outcome Future) :=
  match e with
  | FSet val err => Some (Set_ val err f)
  | FGet g => match f_gets f !! g with None => Some (Done (with_get g Entered f)) | Some _ => None end
  | FStep g =>
    match f_gets f !! g with
    | Some Entered => Some (Done (get_check g f))
    | Some Selecting => option_map Done (get_notified g f)
    | Some Notified => Some (get_finish g f)
    | _ => None
    end
  | FDone g why => match f_gets f !! g with Some Selecting => Some (Done (get_done g (Some why) f)) | _ => None end
  end.
Fixpoint future_run (f : Future) (evs : list fev) : option (Outcome Future) :=
  match evs with
  | [] => Some (Done f)
  | e :: evs => match future_step f e with Some (Done f) => future_run f evs | r => r end
  end.

(** The first call of Set *)
Fixpoint first_set (evs : list fev) : option (option V * error) :=
  match evs with
  | [] => None
  | FSet val err :: _ => Some (val, err)
  | _ :: evs => first_set evs
  end.
Definition was_set (f : Future) : option (option V * error) := if f_set f then Some (f_val f, f_err f) else None.

(** An answer of Get is the value that was set, or the error of a context. *)
Definition answered (f : Future) (dones : list gerror) (val : option V) (err : error) : Prop :=
  was_set f = Some (val, err) \/ val = None /\ exists why, err = Some why /\ why ∈ dones.
Definition future_inv (f : Future) (dones : list gerror) : Prop :=
  f_notify f = f_set f /\
  forall g st, f_gets f !! g = Some st ->
    match st with Notified => f_set f = true | Got val err => answered f dones val err | _ => True end.
Definition done_of (e : fev) : list gerror := match e with FDone _ why => [why] | _ => [] end.

Lemma answered_mono f f' dones dones' val err :
  (forall v, was_set f = Some v -> was_set f' = Some v) -> answered f dones val err -> answered f' (dones ++ dones') val err.
Proof. intros Hf [Hs|(? & why & ? & ?)]; [left; auto|right; split; [done|]]. exists why. rewrite elem_of_app. auto. Qed.

Lemma future_inv_step f dones e o :
  future_inv f dones -> future_step f e = Some o ->
  exists f', o = Done f' /\ future_inv f' (dones ++ done_of e) /\ (forall v, was_set f = Some v -> was_set f' = Some v) /\
    (was_set f = None -> was_set f' = first_set [e]).
Proof.
  intros [Hn Hg] E.
  assert (forall g st, match st with Notified => f_set f = true | Got val err => answered f (dones ++ done_of e) val err | _ => True end ->
    future_inv (with_get g st f) (dones ++ done_of e)) as Hwith.
  { intros g st Hst. split; [done|]. intros g' st' Hl. simpl in Hl. apply lookup_insert_Some in Hl as [[_ <-]|[_ Hl]]; [done|].
    specialize (Hg _ _ Hl). destruct st'; try done. by apply (answered_mono f). }
  assert (forall g st, was_set (with_get g st f) = was_set f) as Hsame by done.
  destruct e as [val err|g|g|g why]; cbn [future_step first_set] in *.
  - simplify_eq. unfold Set_, was_set. rewrite Hn. destruct (f_set f) eqn:Hs.
    + exists f. rewrite Hs, app_nil_r. split_and!; try done. split; [congruence|]. by rewrite Hs.
    + eexists. split; [done|]. simpl. split_and!; try done. rewrite app_nil_r. split; [done|].
      intros g st Hl. simpl in Hl. specialize (Hg _ _ Hl). destruct st as [| | |v e]; try done.
      destruct Hg as [Hg|Hg]; [|by right]. unfold was_set in Hg. by rewrite Hs in Hg.
  - destruct (f_gets f !! g); simplify_eq. eexists. split; [done|]. by auto using (Hwith g Entered I).
  - destruct (f_gets f !! g) as [[| | |]|] eqn:Hl; simplify_eq/=.
    + unfold get_check. eexists. split; [done|]. split_and!; try done. apply Hwith.
      destruct (f_set f) eqn:Hs; [|done]. left. unfold was_set. by rewrite Hs.
    + unfold get_notified in E. destruct (f_notify f) eqn:Hc; simplify_eq/=. eexists. split; [done|].
      split_and!; try done. by apply Hwith.
    + specialize (Hg _ _ Hl). simpl in Hg. unfold get_finish. rewrite Hg. eexists. split; [done|].
      split_and!; try done. apply Hwith. left. unfold was_set. by rewrite Hg.
  - destruct (f_gets f !! g) as [[| | |]|] eqn:Hl; simplify_eq/=. eexists. split; [done|].
    split_and!; try done. apply Hwith. right. split; [done|]. exists why. rewrite elem_of_app, list_elem_of_singleton. auto.
Qed.

Lemma future_run_inv f dones evs o :
  future_inv f dones -> future_run f evs = Some o ->
  exists f', o = Done f' /\ future_inv f' (dones ++ concat (map done_of evs)) /\
    was_set f' = (match was_set f with Some v => Some v | None => first_set evs end).
Proof.
  revert f dones. induction evs as [|e evs IH]; intros f dones Hinv E.
  - simplify_eq/=. exists f. rewrite app_nil_r. by destruct (was_set f).
  - cbn [future_run] in E. destruct (future_step f e) as [o'|] eqn:Hs; [|done].
    destruct (future_inv_step _ _ _ _ Hinv Hs) as (f1 & -> & Hinv1 & Hkeep & Hfirst).
    destruct (IH _ _ Hinv1 E) as (f' & -> & Hinv' & Hset). exists f'. split; [done|].
    rewrite <- app_assoc in Hinv'. split; [done|]. rewrite Hset. destruct (was_set f) as [v|]; [by rewrite (Hkeep v)|].
    rewrite Hfirst by done. by destruct e.
Qed.

(** A Future gives every goroutine the same value.  In any interleaving of calls of
    Set and GetContext no call panics, and whatever a GetContext has returned is the
    value and error of the first Set, or no value and the error of its context. *)
Theorem future_agrees evs o :
  future_run New evs = Some o ->
  exists f, o = Done f /\ forall g val err, f_gets f !! g = Some (Got val err) ->
    first_set evs = Some (val, err) \/ val = None /\ exists why, err = Some why /\ why ∈ concat (map done_of evs).
Proof.
  intros E. destruct (future_run_inv New [] evs o) as (f & -> & [_ Hg] & Hset); [by split|done|].
  exists f. split; [done|]. intros g val err Hl. specialize (Hg _ _ Hl). unfold answered in Hg. by rewrite Hset in Hg.
Qed.

(** Once a value is set, a GetContext that goes on returns: no step of it can block,
    and three are enough. *)
Definition steps_left (st : getting) : nat := match st with Entered => 3 | Selecting => 2 | Notified => 1 | Got _ _ => 0 end.
Lemma get_progress f dones g st :
  future_inv f dones -> f_set f = true -> f_gets f !! g = Some st -> (0 < steps_left st)%nat ->
  exists f' st', future_step f (FStep g) = Some (Done f') /\ f_set f' = true /\ f_gets f' !! g = Some st' /\
    (steps_left st' < steps_left st)%nat.
Proof.
  intros [Hn Hg] Hs Hl Hpos. simpl. rewrite Hl. destruct st as [| | |v e]; simpl in *.
  - exists (get_check g f), (Got (f_val f) (f_err f)). unfold get_check. rewrite Hs. simpl.
    rewrite lookup_insert_eq. split_and!; auto; lia.
  - exists (with_get g Notified f), Notified. unfold get_notified. rewrite Hn, Hs. simpl. rewrite lookup_insert_eq.
    split_and!; auto; lia.
  - exists (with_get g (Got (f_val f) (f_err f)) f), (Got (f_val f) (f_err f)). unfold get_finish. rewrite Hs. simpl.
    rewrite lookup_insert_eq. split_and!; auto; lia.
  - lia.
Qed.
End Future.
Arguments New : clear implicits.

Lemma future_agrees_witness :
  exists f, Done (mkFuture true (Some 5) None true {[ 0 := Got (Some 5) None; 1 := Got None (Some ECanceled) ]}) = Done f /\
    forall g val err, f_gets f !! g = Some (Got val err) ->
      Some (Some 5, None) = Some (val, err) \/ val = None /\ exists why, err = Some why /\ why ∈ [ECanceled].
Proof.
  apply (future_agrees [FGet 1; FStep 1; FGet 0; FStep 0; FDone 1 ECanceled; FSet (Some 5) None; FStep 0; FSet (Some 6) None; FStep 0]).
  vm_compute. reflexivity.
Defined.
