(* ===== verification/Address.v ===== *)
(** * Address: framework/address and framework/dns (norm.go, idna.go)

    Splitting, quoting, normalisation, comparison and validation of e-mail
    addresses.  The third-party text libraries (golang.org/x/text and
    golang.org/x/net/idna) are the class [TextLib]. *)
From S2P Require Import Prelude GoStr ExtErrors.
From Stdlib Require Import Ascii ZifyBool.

Local Open Scope Z_scope.

Definition at_sign : ascii := "@"%char.
Definition at_str : string := "@".

(** norm.NFC.String, idna.ToUnicode, idna.ToASCII and the CompareKey methods of
    the two PRECIS profiles. *)
Class TextLib := {
  NFC : string -> string;
  idna_ToUnicode : string -> string * error;
  idna_ToASCII : string -> string * error;
  UsernameCaseMapped : string -> string * error;
  UsernameCasePreserved : string -> string * error
}.

(** ** split.go *)

Section Split.
Context `{UnicodeTables}.

Definition errMissingAt := ENew "address: missing at-sign".
Definition errEmptyLocal := ENew "address: empty local-part".
Definition errEmptyDomain := ENew "address: empty domain".

Definition Split (addr : string) : Result gerror (string * string) :=
  if EqualFold addr "postmaster" then Ok (addr, "") else
  match LastIndexByte addr at_sign with
  | None => Err errMissingAt
  | Some indx =>
    let mailbox := str_take indx addr in
    let domain := str_drop (indx + 1) addr in
    if decide (mailbox = "") then Err errEmptyLocal
    else if decide (domain = "") then Err errEmptyDomain
    else Ok (mailbox, domain)
  end.
End Split.

(** The local variables of UnquoteMbox; [mb_out] holds the runes written to the
    strings.Builder. *)
Record unquote_st := UnquoteSt {
  mb_quoted : bool;
  mb_escaped : bool;
  mb_terminated : bool;
  mb_out : list Z
}.

Definition rune_quote : Z := 34.
Definition rune_backslash : Z := 92.
Definition rune_at : Z := 64.

Definition errClosingQuote := ENew "address: closing quote should be right before at-sign".
Definition errEscapeUnquoted := ENew "address: escapes are allowed only in quoted strings".
Definition errExtraAt := ENew "address: extra at-sign in non-quoted local-part".
Definition errEmptyLocalPart := ENew "address: empty local part".

(** One iteration of the range loop of UnquoteMbox. *)
Definition unquote_step (st : unquote_st) (ch : Z) : Result gerror unquote_st :=
  let '(UnquoteSt quoted escaped terminated out) := st in
  let write := Ok (UnquoteSt quoted false terminated (out ++ [ch])) in
  if terminated then Err errClosingQuote
  else if ch =? rune_quote then
    if negb escaped
    then Ok (UnquoteSt (negb quoted) escaped (negb (negb quoted)) out)
    else write
  else if ch =? rune_backslash then
    if negb escaped then
      if negb quoted then Err errEscapeUnquoted
      else Ok (UnquoteSt quoted true terminated out)
    else write
  else if ch =? rune_at then
    if negb quoted then Err errExtraAt else write
  else write.

Fixpoint unquote_loop (rs : list Z) (st : unquote_st) : Result gerror unquote_st :=
  match rs with
  | [] => Ok st
  | ch :: rs => st ← unquote_step st ch; unquote_loop rs st
  end.

Definition UnquoteMbox (mbox : string) : Result gerror string :=
  st ← unquote_loop (runes mbox) (UnquoteSt false false false []);
  match mb_out st with
  | [] => Err errEmptyLocalPart
  | out => Ok (string_of_runes out)
  end.

Definition mboxSpecial : list Z :=
  map (fun c => byte_of c)
    ["("; ")"; "<"; ">"; "["; "]"; ":"; ";"; "@"; "\"; ","; "034"; " "]%char.

Definition is_special (ch : Z) : bool := bool_decide (ch ∈ mboxSpecial).

(** What the loop of QuoteMbox writes for one rune. *)
Definition quote_rune (ch : Z) : list Z :=
  if is_special ch then
    (if (ch =? rune_backslash) || (ch =? rune_quote) then [rune_backslash] else []) ++ [ch]
  else [ch].

Definition dquote : string := string_of_runes [rune_quote].

Definition QuoteMbox (mbox : string) : string :=
  let rs := runes mbox in
  if existsb is_special rs
  then dquote +:+ string_of_runes (flat_map quote_rune rs) +:+ dquote
  else mbox.

(** ** validation.go *)

Definition validGraphic : list Z :=
  map (fun c => byte_of c)
    ["!"; "#"; "$"; "%"; "&"; "'"; "*"; "+"; "-"; "/"; "="; "?"; "^"; "_"; "`";
     "{"; "|"; "}"; "~"; "."]%char.

Definition valid_quoted_rune (ch : Z) : bool := negb ((ch <? 32) || (ch =? 127)).
Definition valid_atom_rune (ch : Z) : bool :=
  bool_decide (ch ∈ validGraphic)
  || ((48 <=? ch) && (ch <=? 57)) || ((65 <=? ch) && (ch <=? 90))
  || ((97 <=? ch) && (ch <=? 122)) || (127 <? ch).

Definition ValidMailboxName (mbox : string) : bool :=
  if HasPrefix mbox dquote then
    match UnquoteMbox mbox with
    | Err _ => false
    | Ok raw => forallb valid_quoted_rune (runes raw)
    end
  else forallb valid_atom_rune (runes mbox).

Section Address.
Context `{UnicodeTables} `{TextLib}.

Definition ValidDomain (domain : string) : bool :=
  if (255 <? String.length domain)%nat || (String.length domain =? 0)%nat then false
  else if HasPrefix domain "." then false
  else if Contains domain ".." then false
  else match idna_ToASCII domain with
       | (_, Some _) => false
       | (domainASCII, None) =>
         forallb (fun label => (String.length label <=? 64)%nat)
           (SplitByte domainASCII "."%char)
       end.

Definition Valid (addr : string) : bool :=
  if (320 <? String.length addr)%nat then false
  else match Split addr with
       | Err _ => false
       | Ok (mbox, domain) =>
         if decide (domain = "") then true
         else ValidMailboxName mbox && ValidDomain domain
       end.

(** *** dns/norm.go and dns/idna.go *)

Definition dns_ForLookup (domain : string) : string * error :=
  match idna_ToUnicode domain with
  | (_, Some err) => (ToLower domain, Some err)
  | (uDomain, None) => (TrimSuffix (ToLower (NFC uDomain)) ".", None)
  end.

Definition dns_Equal (domain1 domain2 : string) : bool :=
  if decide (domain1 = domain2) then true
  else bool_decide ((dns_ForLookup domain1).1 = (dns_ForLookup domain2).1).

Definition dns_SelectIDNA (ulabel : bool) (domain : string) : string * error :=
  if ulabel then
    let '(uDomain, err) := idna_ToUnicode domain in (NFC uDomain, err)
  else idna_ToASCII domain.

(** *** address/norm.go *)

Definition ForLookup (addr : string) : string * error :=
  if decide (addr = "") then ("", None) else
  match Split addr with
  | Err err => (ToLower addr, Some err)
  | Ok (mbox, domain) =>
    match (if decide (domain = "") then ("", None) else dns_ForLookup domain) with
    | (_, Some err) => (ToLower addr, Some err)
    | (domain, None) =>
      let mbox := ToLower (NFC mbox) in
      if decide (domain = "") then (mbox, None)
      else (mbox +:+ at_str +:+ domain, None)
    end
  end.

Definition CleanDomain (addr : string) : string * error :=
  if decide (addr = "") then ("", None) else
  match Split addr with
  | Err err => (addr, Some err)
  | Ok (mbox, domain) =>
    match idna_ToUnicode domain with
    | (_, Some err) => (addr, Some err)
    | (uDomain, None) =>
      let uDomain := ToLower (NFC uDomain) in
      if decide (domain = "") then (mbox, None)
      else (mbox +:+ at_str +:+ uDomain, None)
    end
  end.

Definition Equal (addr1 addr2 : string) : bool :=
  if decide (addr1 = addr2) then true
  else bool_decide ((ForLookup addr1).1 = (ForLookup addr2).1).

(** utf8.RuneSelf is 128: the loop rejects runes strictly above it. *)
Definition IsASCII (s : string) : bool := negb (existsb (fun ch => 128 <? ch) (runes s)).

Definition FQDNDomain (addr : string) : string :=
  if HasSuffix addr "." then addr else addr +:+ ".".

Definition precis_error (err : gerror) : gerror :=
  EErrorf ("address: precis: " +:+ Error err) (Some err).

Definition precisEmail (addr : string) (CompareKey : string -> string * error)
  : string * error :=
  match Split addr with
  | Err err => ("", Some (precis_error err))
  | Ok (mbox, domain) =>
    match CompareKey mbox with
    | (_, Some err) => ("", Some (precis_error err))
    | (mbox, None) =>
      match dns_ForLookup domain with
      | (_, Some err) => ("", Some (precis_error err))
      | (domain, None) => (mbox +:+ at_str +:+ domain, None)
      end
    end
  end.

Definition PRECISFold (addr : string) : string * error := precisEmail addr UsernameCaseMapped.
Definition PRECIS (addr : string) : string * error := precisEmail addr UsernameCasePreserved.

(** *** address/rfc6531.go *)

Definition ErrUnicodeMailbox : gerror :=
  ENew "address: cannot convert the Unicode local-part to the ACE form".

Definition ToASCII (addr : string) : string * error :=
  match Split addr with
  | Err err => (addr, Some err)
  | Ok (mbox, domain) =>
    if existsb (fun ch => 128 <? ch) (runes mbox) then (addr, Some ErrUnicodeMailbox)
    else if decide (domain = "") then (mbox, None)
    else match idna_ToASCII domain with
         | (_, Some err) => (addr, Some err)
         | (aDomain, None) => (mbox +:+ at_str +:+ aDomain, None)
         end
  end.

Definition ToUnicode (addr : string) : string * error :=
  match Split addr with
  | Err err => (NFC addr, Some err)
  | Ok (mbox, domain) =>
    if decide (domain = "") then (mbox, None)
    else match idna_ToUnicode domain with
         | (_, Some err) => (NFC addr, Some err)
         | (uDomain, None) => (mbox +:+ at_str +:+ NFC uDomain, None)
         end
  end.

Definition SelectIDNA (ulabel : bool) (addr : string) : string * error :=
  if ulabel then ToUnicode addr else ToASCII addr.
End Address.

(** ** Lemmas *)

Section SplitFacts.
Context `{UnicodeTables}.

(** A string with an at-sign is never the special postmaster path. *)
Lemma at_not_postmaster addr :
  has_byte at_sign addr = true -> EqualFold addr "postmaster" = false.
Proof.
  intros Hat. destruct (EqualFold addr "postmaster") eqn:E; [exfalso|done].
  apply (has_byte_runes at_sign) in Hat; [|done].
  destruct (runes_fold_elem _ _ _ E Hat) as (y & Hy & Hf).
  change (runes "postmaster") with [112; 111; 115; 116; 109; 97; 115; 116; 101; 114] in Hy.
  change (byte_of at_sign) with 64 in Hf.
  repeat (apply elem_of_cons in Hy as [->|Hy]; [done|]). by apply elem_of_nil in Hy.
Qed.

Lemma has_byte_at_app m d : has_byte at_sign (m +:+ at_str +:+ d) = true.
Proof. rewrite has_byte_app. simpl. apply orb_true_r. Qed.

(** What Split accepts besides postmaster: exactly the strings
    local-part @ domain, cut at the last at-sign. *)
Lemma Split_address addr m d :
  EqualFold addr "postmaster" = false ->
  Split addr = Ok (m, d) <->
  m <> "" /\ d <> "" /\ has_byte at_sign d = false /\ addr = m +:+ at_str +:+ d.
Proof.
  intros Hp. unfold Split. rewrite Hp. split.
  - destruct (LastIndexByte addr at_sign) as [i|] eqn:E; [|done].
    apply LastIndexByte_Some in E as (E1 & E2 & E3). rewrite Nat.add_1_r.
    case_decide; [done|]. case_decide; [done|]. intros [= <- <-]. auto.
  - intros (Hm & Hd & Hno & ->).
    change (at_str +:+ d) with (String at_sign d).
    rewrite LastIndexByte_app by done. rewrite str_take_app, Nat.add_1_r, str_drop_app_S.
    by rewrite !decide_False.
Qed.

Lemma Split_join m d :
  m <> "" -> d <> "" -> has_byte at_sign d = false ->
  Split (m +:+ at_str +:+ d) = Ok (m, d).
Proof.
  intros. apply Split_address; [|done]. apply at_not_postmaster, has_byte_at_app.
Qed.

Lemma Split_postmaster addr :
  EqualFold addr "postmaster" = true -> Split addr = Ok (addr, "").
Proof. intros E. unfold Split. by rewrite E. Qed.

Lemma Split_cases addr m d :
  Split addr = Ok (m, d) <->
  (EqualFold addr "postmaster" = true /\ m = addr /\ d = "")
  \/ (m <> "" /\ d <> "" /\ has_byte at_sign d = false /\ addr = m +:+ at_str +:+ d).
Proof.
  destruct (EqualFold addr "postmaster") eqn:E.
  - rewrite (Split_postmaster _ E). split; [intros [= <- <-]; auto|].
    intros [(_ & -> & ->)|(_ & _ & _ & ->)]; [done|].
    rewrite at_not_postmaster in E by apply has_byte_at_app. done.
  - rewrite Split_address by done. naive_solver.
Qed.
End SplitFacts.
#[export] Hint Resolve Split_join : go.

(** *** Quoting *)

Lemma runes_nil s : runes s = [] -> s = "".
Proof.
  destruct s as [|a s]; [done|]. unfold runes. simpl. repeat case_match; done.
Qed.

Lemma is_special_spec ch :
  is_special ch = false -> ch <> rune_quote /\ ch <> rune_backslash /\ ch <> rune_at.
Proof.
  intros Hs%bool_decide_eq_false.
  split_and!; intros ->; apply Hs; unfold mboxSpecial; simpl; set_solver.
Qed.

Lemma unquote_loop_app a b st :
  unquote_loop (a ++ b) st = (st' ← unquote_loop a st; unquote_loop b st').
Proof.
  revert st. induction a as [|r a IH]; intros st; [done|]. simpl.
  destruct (unquote_step st r); simpl; [apply IH|done].
Qed.

Lemma unquote_open rs :
  unquote_loop (rune_quote :: rs) (UnquoteSt false false false [])
  = unquote_loop rs (UnquoteSt true false false []).
Proof. done. Qed.

(** Inside quotes, the encoding of a rune is read back as that rune. *)
Lemma unquote_quoted_rune r out :
  unquote_loop (quote_rune r) (UnquoteSt true false false out)
  = Ok (UnquoteSt true false false (out ++ [r])).
Proof.
  unfold quote_rune. destruct (is_special r) eqn:S.
  - destruct (decide (r = rune_backslash)) as [->|Hb]; [done|].
    destruct (decide (r = rune_quote)) as [->|Hq]; [done|].
    replace ((r =? rune_backslash) || (r =? rune_quote)) with false by lia.
    simpl. replace (r =? rune_quote) with false by lia.
    replace (r =? rune_backslash) with false by lia. by case_match.
  - apply is_special_spec in S as (? & ? & ?). simpl.
    replace (r =? rune_quote) with false by lia.
    replace (r =? rune_backslash) with false by lia.
    by replace (r =? rune_at) with false by lia.
Qed.

Lemma unquote_quoted rs out :
  unquote_loop (flat_map quote_rune rs) (UnquoteSt true false false out)
  = Ok (UnquoteSt true false false (out ++ rs)).
Proof.
  revert out. induction rs as [|r rs IH]; intros out; [by rewrite app_nil_r|].
  simpl flat_map. rewrite unquote_loop_app, unquote_quoted_rune. simpl. rewrite IH.
  by rewrite <- app_assoc.
Qed.

Lemma unquote_plain rs out :
  existsb is_special rs = false ->
  unquote_loop rs (UnquoteSt false false false out)
  = Ok (UnquoteSt false false false (out ++ rs)).
Proof.
  revert out. induction rs as [|r rs IH]; intros out; simpl; [by rewrite app_nil_r|].
  intros [S E]%orb_false_elim. apply is_special_spec in S as (? & ? & ?).
  replace (r =? rune_quote) with false by lia.
  replace (r =? rune_backslash) with false by lia.
  replace (r =? rune_at) with false by lia.
  simpl. rewrite IH by done. by rewrite <- app_assoc.
Qed.

Lemma valid_flat_map_quote rs :
  Forall (fun r => valid_rune r = true) rs ->
  Forall (fun r => valid_rune r = true) (flat_map quote_rune rs).
Proof.
  induction 1 as [|r rs V _ IH]; simpl; [constructor|].
  apply Forall_app_2; [|done]. unfold quote_rune. repeat case_match; by repeat constructor.
Qed.

Lemma runes_QuoteMbox s :
  existsb is_special (runes s) = true ->
  runes (QuoteMbox s) = rune_quote :: flat_map quote_rune (runes s) ++ [rune_quote].
Proof.
  intros E. unfold QuoteMbox. rewrite E. unfold dquote.
  rewrite <- !string_of_runes_app. rewrite runes_of_runes; [done|].
  repeat apply Forall_app_2; auto using valid_flat_map_quote, runes_valid.
Qed.

Lemma UnquoteMbox_QuoteMbox s :
  s <> "" -> UnquoteMbox (QuoteMbox s) = Ok (string_of_runes (runes s)).
Proof.
  intros Hne. assert (Hr : runes s <> []) by (intros E; by apply Hne, runes_nil).
  unfold UnquoteMbox. destruct (existsb is_special (runes s)) eqn:E.
  - rewrite (runes_QuoteMbox _ E), unquote_open, unquote_loop_app, unquote_quoted. simpl.
    by destruct (runes s).
  - unfold QuoteMbox. rewrite E, unquote_plain by done. simpl. by destruct (runes s).
Qed.

(** Quoting and unquoting a local part are inverse to each other: for every
    non-empty mailbox, UnquoteMbox (QuoteMbox mbox) succeeds with the same text
    (bytes that are not UTF-8 having been replaced by U+FFFD, as a Go range
    loop does). *)
Theorem Unquote_Quote s :
  s <> "" -> UnquoteMbox (QuoteMbox s) = Ok (string_of_runes (runes s)).
Proof. apply UnquoteMbox_QuoteMbox. Qed.

Lemma Unquote_Quote_witness :
  "a b" <> "" /\ UnquoteMbox (QuoteMbox "a b") = Ok "a b".
Proof. split; [done|]. apply (Unquote_Quote "a b"). done. Defined.

(** A closing quote is never followed by anything: an accepted quoted local part
    ends where its quotes end (UnquoteMbox rejects trailing text). *)
Lemma unquote_terminated r rs q e out :
  unquote_loop (r :: rs) (UnquoteSt q e true out) = Err errClosingQuote.
Proof. done. Qed.

(** The at-signs of an accepted local part are all inside quotes: an unquoted
    text with an at-sign is refused. *)
Lemma unquote_at_refused pre post :
  existsb is_special pre = false ->
  unquote_loop (pre ++ rune_at :: post) (UnquoteSt false false false []) = Err errExtraAt.
Proof. intros E. rewrite unquote_loop_app, unquote_plain by done. done. Qed.

(** A missing closing quote is accepted, although the comment above UnquoteMbox
    describes quoted strings. *)
Example unquote_unterminated : UnquoteMbox (dquote +:+ "abc") = Ok "abc".
Proof. reflexivity. Qed.

(** *** Canonical forms *)

Section Canonical.
Context `{UnicodeTables} `{TextLib}.

Lemma Equal_spec a b : Equal a b = true <-> (ForLookup a).1 = (ForLookup b).1.
Proof.
  unfold Equal. case_decide; [by subst|]. apply bool_decide_eq_true.
Qed.

Lemma dns_Equal_spec a b : dns_Equal a b = true <-> (dns_ForLookup a).1 = (dns_ForLookup b).1.
Proof.
  unfold dns_Equal. case_decide; [by subst|]. apply bool_decide_eq_true.
Qed.

(** Addresses up to address.Equal. *)
Definition addr_eq (a b : string) : Prop := Equal a b = true.

Global Instance addr_eq_equivalence : Equivalence addr_eq.
Proof.
  unfold addr_eq. split; repeat intro; rewrite ?Equal_spec in *; congruence.
Qed.

Global Instance ForLookup_proper : Proper (addr_eq ==> eq) (fun a => (ForLookup a).1).
Proof. intros a b E. by apply Equal_spec. Qed.

(** Address.Equal is an equivalence relation on all strings (malformed
    ones included) and it is exactly equality of the ForLookup keys, so a map
    keyed by ForLookup never tells equal addresses apart. *)
Theorem Equal_equivalence :
  Equivalence addr_eq
  /\ forall a b, Equal a b = true <-> (ForLookup a).1 = (ForLookup b).1.
Proof. split; [apply _|apply Equal_spec]. Qed.

Lemma ValidDomain_spec d :
  ValidDomain d = true <->
  (0 < String.length d <= 255)%nat /\ HasPrefix d "." = false /\ Contains d ".." = false
  /\ exists a, idna_ToASCII d = (a, None)
     /\ Forall (fun label => String.length label <= 64)%nat (SplitByte a "."%char).
Proof.
  unfold ValidDomain. split.
  - destruct (_ || _) eqn:L; [done|]. destruct (HasPrefix d "."); [done|].
    destruct (Contains d ".."); [done|].
    destruct (idna_ToASCII d) as [a [e|]] eqn:I; [done|]. intros F.
    split; [lia|]. split_and!; [done..|]. exists a. split; [done|].
    apply Forall_forall. intros x Hx%list_elem_of_In.
    rewrite forallb_forall in F. specialize (F x Hx). lia.
  - intros (L & -> & -> & a & I & F). replace (_ || _) with false by lia. rewrite I.
    apply forallb_forall. intros x Hx%list_elem_of_In. rewrite Forall_forall in F.
    specialize (F x Hx). lia.
Qed.

(** What address.Valid accepts: at most 320 bytes, and either the special
    postmaster path or local-part @ domain, cut at the last at-sign, with a
    valid local part and a domain of 1 to 255 bytes that does not start with a
    dot, has no empty inner label, and whose A-label form has labels of at most
    64 bytes. *)
Theorem Valid_spec addr :
  Valid addr = true <->
  (String.length addr <= 320)%nat /\
  (EqualFold addr "postmaster" = true \/
   exists m d, m <> "" /\ has_byte at_sign d = false /\ addr = m +:+ at_str +:+ d
     /\ ValidMailboxName m = true
     /\ (0 < String.length d <= 255)%nat /\ HasPrefix d "." = false
     /\ Contains d ".." = false
     /\ exists a, idna_ToASCII d = (a, None)
        /\ Forall (fun label => String.length label <= 64)%nat (SplitByte a "."%char)).
Proof.
  unfold Valid. split.
  - destruct (320 <? _)%nat eqn:L; [done|].
    destruct (Split addr) as [[m d]|] eqn:S; [|done].
    intros HV. split; [lia|]. apply Split_cases in S as [(E & _ & _)|(Hm & Hd & Hn & ->)]; [by left|].
    right. exists m, d. rewrite decide_False in HV by done.
    apply andb_prop in HV as [HV1 HV2]. apply ValidDomain_spec in HV2. auto.
  - intros (L & C). replace (320 <? _)%nat with false by lia.
    destruct C as [E|(m & d & Hm & Hn & -> & HV & HD)]; [by rewrite Split_postmaster|].
    assert (d <> "") as Hd by (intros ->; simpl in HD; lia).
    rewrite Split_join, decide_False, HV by done. by apply ValidDomain_spec.
Qed.
End Canonical.

(** The ASCII domain [s] has no label with the ACE prefix, whatever its case. *)
Definition no_ace (s : string) : Prop := Contains (ascii_ToLower s) "xn--" = false.

(** Documented behaviour of the text libraries on ASCII input: NFC leaves ASCII
    text alone, and idna.ToUnicode leaves an ASCII domain alone unless a label
    starts with the ACE prefix. *)
Class TextLaws `{TextLib} : Prop := {
  NFC_ascii : forall s, ascii_str s -> NFC s = s;
  ToUnicode_ascii : forall s, ascii_str s -> no_ace s -> idna_ToUnicode s = (s, None)
}.

(** Text libraries that leave everything alone: used by the witnesses. *)
Definition identity_text : TextLib := {|
  NFC := fun s => s; idna_ToUnicode := fun s => (s, None); idna_ToASCII := fun s => (s, None);
  UsernameCaseMapped := fun s => (s, None); UsernameCasePreserved := fun s => (s, None) |}.
Lemma identity_text_laws : @TextLaws identity_text.
Proof. split; done. Qed.

Lemma TrimSuffix_cases s p :
  (HasSuffix s p = false /\ TrimSuffix s p = s) \/ s = TrimSuffix s p +:+ p.
Proof.
  destruct (HasSuffix s p) eqn:E.
  - right. apply HasSuffix_spec in E as [t ->]. by rewrite TrimSuffix_app.
  - left. unfold TrimSuffix. by rewrite E.
Qed.

Lemma no_ace_prefix s t : ascii_str s -> s = ascii_ToLower s -> no_ace (s +:+ t) -> no_ace s.
Proof.
  unfold no_ace. intros HA E HN. destruct (Contains (ascii_ToLower s) _) eqn:C; [|done].
  rewrite ascii_ToLower_app in HN. apply Contains_spec in C as (a & b & C).
  rewrite C in HN. assert (Contains ((a +:+ "xn--" +:+ b) +:+ ascii_ToLower t) "xn--" = true) as X
    by (apply Contains_spec; exists a, (b +:+ ascii_ToLower t); by autorewrite with gostr).
  congruence.
Qed.

Section AsciiLookup.
Context `{UnicodeTables} `{TextLib} `{!TextLaws}.

(** The canonical domain of an ASCII domain. *)
Definition ascii_domain (d : string) : string := TrimSuffix (ascii_ToLower d) ".".

Lemma dns_ForLookup_ascii d :
  ascii_str d -> no_ace d -> dns_ForLookup d = (ascii_domain d, None).
Proof.
  intros HA HN. unfold dns_ForLookup. rewrite ToUnicode_ascii, NFC_ascii by done.
  by rewrite ToLower_ascii.
Qed.

Lemma ascii_domain_facts d :
  ascii_str d -> no_ace d -> has_byte at_sign d = false ->
  ascii_str (ascii_domain d) /\ no_ace (ascii_domain d)
  /\ has_byte at_sign (ascii_domain d) = false
  /\ ascii_ToLower (ascii_domain d) = ascii_domain d.
Proof.
  intros HA HN Hat. unfold ascii_domain.
  pose proof (ascii_ToLower_ascii d HA) as HA'. pose proof (ascii_ToLower_idemp d HA) as HI.
  assert (HN' : no_ace (ascii_ToLower d)) by (unfold no_ace; by rewrite HI).
  assert (Hat' : has_byte at_sign (ascii_ToLower d) = false)
    by (apply ascii_ToLower_has_byte; [by vm_compute; intros [? ?]|done..]).
  destruct (TrimSuffix_cases (ascii_ToLower d) ".") as [[_ ->]|E]; [done|].
  rewrite E in HA', HI, HN', Hat'. apply ascii_str_app in HA' as [HA' _].
  rewrite ascii_ToLower_app in HI.
  assert (HI' : ascii_ToLower (TrimSuffix (ascii_ToLower d) ".")
                = TrimSuffix (ascii_ToLower d) ".").
  { apply (f_equal (str_take (String.length (TrimSuffix (ascii_ToLower d) ".")))) in HI.
    rewrite str_take_app, <- (ascii_ToLower_length (TrimSuffix _ _)), str_take_app in HI.
    done. }
  rewrite has_byte_app in Hat'. apply orb_false_elim in Hat' as [Hat' _].
  split_and!; [done| |done|done]. by eapply no_ace_prefix.
Qed.

Lemma ForLookup_ascii m d :
  m <> "" -> d <> "" -> has_byte at_sign d = false ->
  ascii_str m -> ascii_str d -> no_ace d -> ascii_domain d <> "" ->
  ForLookup (m +:+ at_str +:+ d) = (ascii_ToLower m +:+ at_str +:+ ascii_domain d, None).
Proof.
  intros Hm Hd Hat HAm HAd HN Ht. unfold ForLookup.
  rewrite decide_False by (destruct m; done). rewrite Split_join, decide_False by done.
  rewrite dns_ForLookup_ascii, decide_False, NFC_ascii, ToLower_ascii by done. done.
Qed.

(** For ASCII addresses ForLookup is the case-folded address without the
    dot that ends the domain, and it is idempotent: a key is its own key. *)
Theorem ForLookup_ascii_canonical m d
  (Hm : m <> "") (Hd : d <> "") (Hat : has_byte at_sign d = false)
  (Am : ascii_str m) (Ad : ascii_str d) (Nd : no_ace d)
  (Ht : ascii_domain d <> "") (Hdot : HasSuffix (ascii_domain d) "." = false) :
  let key := ascii_ToLower m +:+ at_str +:+ ascii_domain d in
  ForLookup (m +:+ at_str +:+ d) = (key, None) /\ ForLookup key = (key, None).
Proof.
  intros key. split; [by apply ForLookup_ascii|].
  destruct (ascii_domain_facts d) as (A1 & A2 & A3 & A4); [done..|].
  assert (E : ascii_domain (ascii_domain d) = ascii_domain d)
    by (unfold ascii_domain at 1; rewrite A4; unfold TrimSuffix; by rewrite Hdot).
  unfold key. rewrite ForLookup_ascii; rewrite ?E; auto using ascii_ToLower_ascii.
  - by rewrite ascii_ToLower_idemp.
  - intros En. apply Hm. apply (f_equal String.length) in En.
    rewrite ascii_ToLower_length in En. by destruct m.
Qed.
End AsciiLookup.

Lemma ForLookup_ascii_canonical_witness :
  @ForLookup ascii_tables identity_text "Foo@EXAMPLE.org." = ("foo@example.org", None).
Proof.
  pose proof (@ForLookup_ascii_canonical ascii_tables identity_text identity_text_laws
                "Foo" "EXAMPLE.org.") as W.
  apply W; try done; try (by repeat constructor).
Defined.
