(* ===== verification/Checks.v ===== *)
(** * Checks: check results and check actions

    Models framework/module/check.go (CheckResult) and
    framework/config/module/check_action.go (FailAction, its parser and
    FailAction.Apply), with the reject-directive parser they share.  Headers are
    values of the third-party package go-message/textproto: the class
    [Textproto] lists the operations the source calls. *)
From S2P Require Import Prelude GoStr ExtErrors.
From Stdlib Require Import Ascii ZifyBool.

Local Open Scope Z_scope.

Class Textproto := {
  header : Type;
  hdr_empty : header;                              (* textproto.Header{} *)
  hdr_Len : header -> Z;                           (* Len() *)
  hdr_Raws : header -> list (string * error);      (* Fields() and Raw() of each field *)
  hdr_ByKey : header -> string -> list string;     (* FieldsByKey(k) and Value() of each *)
  hdr_Add : header -> string -> string -> header;  (* Add(k, v) *)
  hdr_Set : header -> string -> string -> header;  (* Set(k, v) *)
  hdr_AddRaw : header -> string -> header          (* AddRaw(formatted) *)
}.
(** Get(k) of textproto *)
Definition hdr_Get `{Textproto} (h : header) (k : string) : string := default "" (head (hdr_ByKey h k)).

(** The dynamic types of authres.Result (go-msgauth) the source looks into. *)
Inductive authres :=
| ARDKIM (value reason domain identifier : string)
| ARSPF (value reason from helo : string)
| ARDMARC (value reason from : string)
| AROther (s : string).
Global Instance authres_eq_dec : EqDecision authres.
Proof. solve_decision. Defined.

Section CheckResult.
Context `{Textproto}.

Record CheckResult := mkCheckResult {
  cr_Reason : error;
  cr_Reject : bool;
  cr_Quarantine : bool;
  cr_AuthResult : list authres;
  cr_Header : header
}.

(** module.CheckResult{} *)
Definition CheckResult_zero : CheckResult := mkCheckResult None false false [] hdr_empty.
End CheckResult.

(** The *exterrors.SMTPError a reject directive describes. *)
Record reject_err := RejectErr {
  re_code : Z;
  re_ench : EnhancedCode;
  re_msg : string
}.
Global Instance reject_err_eq_dec : EqDecision reject_err.
Proof. solve_decision. Defined.

Definition reject_error (r : reject_err) : gerror :=
  ESMTP (re_code r) (re_ench r) (re_msg r) "" "" "" "reject directive used" None ∅.

(** *** Parsing *)

Definition errEnchParts : gerror := ENew "wrong amount of enhanced code parts".

Definition atoi_err (s : string) (e : NumErr) : gerror := ENum "Atoi" s e.
Definition atoi (s : string) : Result gerror Z :=
  match Atoi s with Ok n => Ok n | Err e => Err (atoi_err s e) end.

(** parseEnhancedCode (the same text in check_action.go and msgpipeline/config.go). *)
Definition parseEnhancedCode (s : string) : Result gerror EnhancedCode :=
  match SplitByte s "."%char with
  | [p0; p1; p2] =>
    n0 ← atoi p0; n1 ← atoi p1; n2 ← atoi p2; Ok (Ench n0 n1 n2)
  | _ => Err errEnchParts
  end.

Definition default_reject_msg : string := "Message rejected due to a local policy".

Definition errEmptyMsg : gerror := EErrorf "message can't be empty" None.
Definition errEnchFirst : gerror :=
  EErrorf "enhanced code should use either 4 or 5 as a first number" None.
Definition errCodeInt (e : gerror) : gerror :=
  EErrorf ("invalid error code integer: " +:+ Error e) None.
Definition errCodeFirst : gerror :=
  EErrorf "error code should start with either 4 or 5" None.
Definition errArgCount : gerror := EErrorf "invalid count of arguments" None.

(** [case 3] of the switch: the message. *)
Definition reject_msg (m : string) : Result gerror string :=
  if decide (m = "") then Err errEmptyMsg else Ok m.

(** [case 2]: the enhanced code. *)
Definition reject_ench (s : string) : Result gerror EnhancedCode :=
  ench ← parseEnhancedCode s;
  if negb (ec0 ench =? 4) && negb (ec0 ench =? 5) then Err errEnchFirst else Ok ench.

(** [case 1]: the basic code. *)
Definition reject_code (s : string) : Result gerror Z :=
  match atoi s with
  | Err e => Err (errCodeInt e)
  | Ok code =>
    if negb (Z.quot code 100 =? 4) && negb (Z.quot code 100 =? 5)
    then Err errCodeFirst else Ok code
  end.

(** The first number of an enhanced code that was not set. *)
Definition set_first (ench : EnhancedCode) (code : Z) : EnhancedCode :=
  if ec0 ench =? 0 then Ench (Z.quot code 100) (ec1 ench) (ec2 ench) else ench.

(** modconfig.ParseRejectDirective: the cases fall through from the last
    argument to the first. *)
Definition ParseRejectDirective (args : list string) : Result gerror reject_err :=
  match args with
  | [a0; a1; a2] =>
    msg ← reject_msg a2; ench ← reject_ench a1; code ← reject_code a0;
    Ok (RejectErr code (set_first ench code) msg)
  | [a0; a1] =>
    ench ← reject_ench a1; code ← reject_code a0;
    Ok (RejectErr code (set_first ench code) default_reject_msg)
  | [a0] =>
    code ← reject_code a0;
    Ok (RejectErr code (set_first (Ench 0 7 0) code) default_reject_msg)
  | [] => Ok (RejectErr 554 (Ench 5 7 0) default_reject_msg)
  | _ => Err errArgCount
  end.

(** *** FailAction *)

Record FailAction := mkFailAction {
  fa_Quarantine : bool;
  fa_Reject : bool;
  fa_ReasonOverride : option reject_err
}.
Global Instance FailAction_eq_dec : EqDecision FailAction.
Proof. solve_decision. Defined.

Definition errNoArgs : gerror := ENew "expected at least 1 argument".
Definition errInvalidAction : gerror := ENew "invalid action".

Definition ParseActionDirective (args : list string) : Result gerror FailAction :=
  match args with
  | [] => Err errNoArgs
  | a :: rest =>
    override ←
      (if bool_decide (a = "reject") || bool_decide (a = "quarantine") then
         match rest with
         | [] => Ok None
         | _ => r ← ParseRejectDirective rest; Ok (Some r)
         end
       else if decide (a = "ignore") then Ok None
       else Err errInvalidAction);
    Ok (mkFailAction (bool_decide (a = "quarantine")) (bool_decide (a = "reject")) override)
  end.

Section Apply.
Context `{Textproto}.

(** FailAction.Apply *)
Definition FailAction_Apply (cfa : FailAction) (r : CheckResult) : CheckResult :=
  match cr_Reason r with
  | None => r
  | Some _ =>
    let reason :=
      match fa_ReasonOverride cfa with
      | Some o => Some (smtp_error (re_code o) (re_ench o) (re_msg o) (cr_Reason r))
      | None => cr_Reason r
      end in
    mkCheckResult reason (fa_Reject cfa || cr_Reject r) (fa_Quarantine cfa || cr_Quarantine r)
      (cr_AuthResult r) (cr_Header r)
  end.
End Apply.

(** ** Lemmas *)

Definition code_ok (code : Z) : Prop := 400 <= code <= 599.
Definition ench_ok (e : EnhancedCode) : Prop := ec0 e = 4 \/ ec0 e = 5.

Lemma reject_code_ok s code : reject_code s = Ok code -> code_ok code.
Proof.
  unfold reject_code, code_ok. intros E. branches E.
  assert (Z.quot code 100 = 4 \/ Z.quot code 100 = 5) by lia. Z.quot_rem_to_equations. lia.
Qed.

Lemma reject_ench_ok s e : reject_ench s = Ok e -> ench_ok e.
Proof. unfold reject_ench, ench_ok. intros E. branches E. lia. Qed.

Lemma reject_msg_ok s m : reject_msg s = Ok m -> m <> "".
Proof. unfold reject_msg. intros E. branches E. done. Qed.

Lemma set_first_ok e code : ench_ok e -> set_first e code = e.
Proof. unfold ench_ok, set_first. intros. case_match; [lia|done]. Qed.

Lemma ParseRejectDirective_cases args r :
  ParseRejectDirective args = Ok r ->
  code_ok (re_code r) /\ ench_ok (re_ench r) /\ re_msg r <> ""
  /\ ((length args <= 1)%nat -> ec0 (re_ench r) = Z.quot (re_code r) 100 /\ ec1 (re_ench r) = 7).
Proof.
  intros E. destruct args as [|a0 [|a1 [|a2 [|]]]]; simpl in E; branches E;
    repeat match goal with
           | H : reject_code _ = Ok _ |- _ => apply reject_code_ok in H
           | H : reject_ench _ = Ok _ |- _ => apply reject_ench_ok in H
           | H : reject_msg _ = Ok _ |- _ => apply reject_msg_ok in H
           end; try rewrite set_first_ok by done; split_and!; try done; try (simpl; lia).
  - by right.
  - unfold code_ok, ench_ok, set_first in *. simpl. Z.quot_rem_to_equations. lia.
Qed.

(** Every error a check action's reject directive can produce is a
    well-formed SMTP rejection: the code is 4xx or 5xx, the enhanced code starts
    with 4 or 5, the message is not empty, and when no enhanced code is given its
    first number is the first digit of the code. *)
Theorem ParseRejectDirective_wellformed args r (Hr : ParseRejectDirective args = Ok r) :
  400 <= re_code r <= 599 /\ (ec0 (re_ench r) = 4 \/ ec0 (re_ench r) = 5) /\ re_msg r <> ""
  /\ ((length args <= 1)%nat -> ec0 (re_ench r) = Z.quot (re_code r) 100).
Proof.
  destruct (ParseRejectDirective_cases _ _ Hr) as (C & E & M & F).
  refine (conj C (conj E (conj M _))). intros L. exact (proj1 (F L)).
Qed.

Lemma ParseRejectDirective_wellformed_witness :
  ParseRejectDirective ["450"; "4.7.1"] = Ok (RejectErr 450 (Ench 4 7 1) default_reject_msg)
  /\ 400 <= 450 <= 599.
Proof.
  split; [reflexivity|].
  exact (proj1 (ParseRejectDirective_wellformed ["450"; "4.7.1"] _ eq_refl)).
Defined.

(** A reject directive with an explicit enhanced code does not have to agree
    with the code. *)
Example reject_mismatch :
  ParseRejectDirective ["450"; "5.1.1"] = Ok (RejectErr 450 (Ench 5 1 1) default_reject_msg).
Proof. reflexivity. Qed.

Section ApplyFacts.
Context `{Textproto}.

(** FailAction.Apply acts only on a result that has a reason; then the
    reject and quarantine flags are the or of the action's and the check's, the
    authentication results and header fields are kept, and an override becomes
    the outermost error while the original reason stays in its chain. *)
Theorem Apply_spec a r :
  let r' := FailAction_Apply a r in
  (cr_Reason r = None -> r' = r) /\
  (forall e, cr_Reason r = Some e ->
    cr_Reject r' = fa_Reject a || cr_Reject r
    /\ cr_Quarantine r' = fa_Quarantine a || cr_Quarantine r
    /\ cr_AuthResult r' = cr_AuthResult r /\ cr_Header r' = cr_Header r
    /\ exists e', cr_Reason r' = Some e' /\ e ∈ chain e'
       /\ match fa_ReasonOverride a with
          | None => e' = e
          | Some o => Fields (Some e') !! "smtp_code" = Some (FInt (re_code o))
                      /\ IsTemporary (Some e') = SMTPError_Temporary (re_code o)
          end).
Proof.
  unfold FailAction_Apply. split; [by intros ->|]. intros e ->. simpl.
  split_and!; try done. destruct (fa_ReasonOverride a) as [o|]; simpl.
  - eexists. split_and!; [done| |..].
    + simpl. right. destruct e; simpl; left.
    + pose proof (Fields_loop_nonnil (smtp_error (re_code o) (re_ench o) (re_msg o) (Some e)) ∅
                   "smtp_code") as Hf.
      rewrite lookup_empty, chain_unwrap in Hf. simpl in Hf.
      unfold own_value in Hf. simpl in Hf. unfold SMTPError_Fields in Hf. simpl in Hf.
      simplify_map_eq. destruct (Fields_loop e _ !! "smtp_code") as [[]|] eqn:Ef;
        simplify_map_eq; done.
    + done.
  - eexists. split_and!; [done| |done]. destruct e; simpl; left.
Qed.
End ApplyFacts.

(** Headers as lists of raw fields: used by the witnesses. *)
Definition list_textproto : Textproto := {|
  header := list string; hdr_empty := []; hdr_Len := fun h => Z.of_nat (length h);
  hdr_Raws := fun h => map (fun f => (f, None)) h;
  hdr_ByKey := fun _ _ => [];
  hdr_Add := fun h k v => (k +:+ ": " +:+ v) :: h;
  hdr_Set := fun h k v => (k +:+ ": " +:+ v) :: h;
  hdr_AddRaw := fun h f => f :: h |}.
(** Headers as lists of keys and values. *)
Definition pair_textproto : Textproto := {|
  header := list (string * string); hdr_empty := []; hdr_Len := fun h => Z.of_nat (length h);
  hdr_Raws := map (fun f => (f.1 +:+ ": " +:+ f.2, None));
  hdr_ByKey := fun h k => map snd (filter (fun f => f.1 = k) h);
  hdr_Add := fun h k v => (k, v) :: h;
  hdr_Set := fun h k v => (k, v) :: filter (fun f => f.1 <> k) h;
  hdr_AddRaw := fun h f => ("", f) :: h |}.
