(* ===== verification/Config.v ===== *)
(** * Config: configuration nodes (framework/cfgparser)

    The tree the configuration parser produces and the error constructor the
    modules use for it. *)
From S2P Require Import Prelude GoStr ExtErrors.
From stdpp Require Import pretty.

Local Open Scope Z_scope.

(** parser.Node.  [None] children is the nil slice: a directive without block. *)
Inductive Node := mkNode {
  node_Name : string;
  node_Args : list string;
  node_Children : option (list Node);
  node_Snippet : bool;
  node_Macro : bool;
  node_File : string;
  node_Line : Z
}.

(** The children as a range loop sees them. *)
Definition children (n : Node) : list Node := default [] (node_Children n).

(** NodeErr, with the message already formatted. *)
Definition NodeErr (node : Node) (msg : string) : gerror :=
  if decide (node_File node = "") then EErrorf msg None
  else EErrorf (node_File node +:+ ":" +:+ pretty (node_Line node) +:+ ": " +:+ msg) None.

(** A plain directive, for the examples. *)
Definition directive (name : string) (args : list string) : Node :=
  mkNode name args None false false "" 0.
Definition block (name : string) (args : list string) (ch : list Node) : Node :=
  mkNode name args (Some ch) false false "" 0.
