(* ===== verification/Registry.v ===== *)
(** * Registry: the modules of framework/module and how they come to life

    The registries of factories and of instances, inline modules
    (framework/config/module), the blocks of a configuration (RegisterModules and
    initModules of cmd/sirrmeshd) and the hooks that close what was started.  The Init of
    a module is a program that may ask for other modules; a module is a cell of a heap. *)
From S2P Require Import Prelude GoStr ExtErrors Config.
From stdpp Require Import gmap pretty.
From Stdlib Require Import Ascii.

Local Open Scope Z_scope.

Section Registry.
(** The globals of the configuration, and the interface types modules are asked for *)
Context {G I : Type} (iface_name : I -> string) (iface_is_interface : I -> bool).

(** ** Modules *)

(** What Init does, as far as other modules see it: it returns, or calls ModuleFromNode
    and goes on with the module it got. *)
Inductive code :=
| Return (err : error)
| FromNode (ns : string) (args : list string) (inlineCfg : Node) (globals : G) (iface : I) (k : Result gerror nat -> code).
Record Module := mkModule {
  mod_Name : string;
  mod_InstanceName : string;
  mod_Implements : I -> bool;
  mod_Init : G -> Node -> code;
  mod_Closer : option error
}.
Definition FuncNewModule : Type := string -> string -> list string -> list string -> Result gerror Module.
Definition FuncNewEndpoint : Type := string -> list string -> Result gerror Module.

(** What happens to the modules, for the statements *)
Inductive event := Began (id : nat) | Ended (id : nat) (err : error) | Closed (id : nat).
Definition Event : Type := Z.
Definition EventShutdown : Event := 0.
Definition EventReload : Event := 1.
Definition EventLogRotate : Event := 2.
Inductive hook := CloseModule (id : nat) | OtherHook (n : nat).

Record World := mkWorld {
  w_modules : gmap string FuncNewModule;
  w_endpoints : gmap string FuncNewEndpoint;
  w_objects : list Module;
  w_instances : gmap string (nat * (G * Node));
  w_aliases : gmap string string;
  w_Initialized : gset string;
  w_hooks : gmap Event (list hook);
  w_trace : list event
}.
Notation M := (Prog World).
Definition set_objects os w := mkWorld (w_modules w) (w_endpoints w) os (w_instances w) (w_aliases w) (w_Initialized w) (w_hooks w) (w_trace w).
Definition set_instances ins w := mkWorld (w_modules w) (w_endpoints w) (w_objects w) ins (w_aliases w) (w_Initialized w) (w_hooks w) (w_trace w).
Definition set_aliases al w := mkWorld (w_modules w) (w_endpoints w) (w_objects w) (w_instances w) al (w_Initialized w) (w_hooks w) (w_trace w).
Definition set_Initialized i w := mkWorld (w_modules w) (w_endpoints w) (w_objects w) (w_instances w) (w_aliases w) i (w_hooks w) (w_trace w).
Definition set_hooks hs w := mkWorld (w_modules w) (w_endpoints w) (w_objects w) (w_instances w) (w_aliases w) (w_Initialized w) hs (w_trace w).
Definition logged (e : event) w := mkWorld (w_modules w) (w_endpoints w) (w_objects w) (w_instances w) (w_aliases w) (w_Initialized w) (w_hooks w) (w_trace w ++ [e]).

Definition New (m : Module) : M nat := fun w => (set_objects (w_objects w ++ [m]) w, Done (length (w_objects w))).
Definition object (id : nat) : M Module := fun w =>
  match w_objects w !! id with Some m => (w, Done m) | None => (w, Panicked "invalid memory address or nil pointer dereference") end.
Definition log (e : event) : M unit := modify (logged e).

(** ** Hooks *)

Definition AddHook (eventName : Event) (f : hook) : M unit :=
  modify (fun w => set_hooks (<[eventName := default [] (w_hooks w !! eventName) ++ [f]]> (w_hooks w)) w).
Definition hooksToRun (eventName : Event) : M (list hook) := gets (fun w => default [] (w_hooks w !! eventName)).
Definition run_hook (h : hook) : M unit := match h with CloseModule id => log (Closed id) | OtherHook _ => mret tt end.
Definition RunHooks (eventName : Event) : M unit := hooks ← hooksToRun eventName; for_each run_hook (reverse hooks).

(** ** The registry of factories *)

Definition Register (name : string) (factory : FuncNewModule) : M unit := fun w =>
  match w_modules w !! name with
  | Some _ => (w, Panicked ("Register: module with specified name is already registered: " +:+ name))
  | None => (mkWorld (<[name := factory]> (w_modules w)) (w_endpoints w) (w_objects w) (w_instances w) (w_aliases w) (w_Initialized w) (w_hooks w) (w_trace w), Done tt)
  end.
Definition RegisterDeprecated (name newName : string) (factory : FuncNewModule) : M unit := Register name factory.
Definition RegisterEndpoint (name : string) (factory : FuncNewEndpoint) : M unit := fun w =>
  match w_endpoints w !! name with
  | Some _ => (w, Panicked ("Register: module with specified name is already registered: " +:+ name))
  | None => (mkWorld (w_modules w) (<[name := factory]> (w_endpoints w)) (w_objects w) (w_instances w) (w_aliases w) (w_Initialized w) (w_hooks w) (w_trace w), Done tt)
  end.
Definition Get (name : string) : M (option FuncNewModule) := gets (fun w => w_modules w !! name).
Definition GetEndpoint (name : string) : M (option FuncNewEndpoint) := gets (fun w => w_endpoints w !! name).

(** ** The registry of instances *)

Definition RegisterInstance (inst : nat) (globals : G) (blk : Node) : M unit :=
  m ← object inst; modify (fun w => set_instances (<[mod_InstanceName m := (inst, (globals, blk))]> (w_instances w)) w).
Definition RegisterAlias (aliasName instName : string) : M unit := modify (fun w => set_aliases (<[aliasName := instName]> (w_aliases w)) w).
Definition resolve (w : World) (name : string) : string :=
  let aliasedName := default "" (w_aliases w !! name) in if decide (aliasedName = "") then name else aliasedName.
Definition HasInstance (name : string) : M bool := gets (fun w => bool_decide (is_Some (w_instances w !! resolve w name))).

Definition close_hook (id : nat) : M unit :=
  m ← object id; match mod_Closer m with Some _ => AddHook EventShutdown (CloseModule id) | None => mret tt end.
(** [init] is the Init method of the modules. *)
Definition GetInstance (init : nat -> G -> Node -> M error) (name : string) : M (Result gerror nat) := fun w =>
  let name := resolve w name in
  match w_instances w !! name with
  | None => (w, Done (Err (EErrorf ("unknown config block: " +:+ name) None)))
  | Some (id, (globals, blk)) =>
    if decide (name ∈ w_Initialized w) then (w, Done (Ok id))
    else
      (modify (fun w => set_Initialized ({[ name ]} ∪ w_Initialized w) w) ;;
       err ← init id globals blk;
       match err with
       | Some err => mret (Err err)
       | None => close_hook id ;; mret (Ok id)
       end) w
  end.

(** ** References in a configuration *)

Definition dot : ascii := "."%char.
(** The object a factory makes *)
Definition construct (r : Result gerror Module) : M (Result gerror nat) :=
  match r with Err err => mret (Err err) | Ok m => id ← New m; mret (Ok id) end.
Definition createInlineModule (preferredNamespace modName : string) (args : list string) : M (Result gerror nat) :=
  let extend := negb (ContainsByte modName dot) && negb (bool_decide (preferredNamespace = "")) in
  let extended := if extend then preferredNamespace +:+ "." +:+ modName else modName in
  preferred ← (if extend then Get extended else mret None);
  newMod ← match preferred with Some f => mret (Some f) | None => Get modName end;
  match newMod with
  | None => mret (Err (EErrorf ("unknown module: " +:+ modName +:+ " (namespace: " +:+ preferredNamespace +:+ ")") None))
  | Some newMod => construct (newMod extended "" [] args)
  end.
Definition initInlineModule (init : nat -> G -> Node -> M error) (modObj : nat) (globals : G) (blk : Node) : M error :=
  err ← init modObj globals blk;
  match err with
  | Some err => mret (Some err)
  | None => close_hook modObj ;; mret None
  end.
Definition tail_of (s : string) : string := match s with String _ s => s | EmptyString => "" end.
Definition ModuleFromNode (init : nat -> G -> Node -> M error) (preferredNamespace : string) (args : list string) (inlineCfg : Node)
    (globals : G) (moduleIface : I) : M (Result gerror nat) :=
  match args with
  | [] => mret (Err (NodeErr inlineCfg "at least one argument is required"))
  | name :: rest =>
    let referenceExisting := HasPrefix name "&" in
    r ← (if referenceExisting then
           if decide (rest <> [] \/ node_Children inlineCfg <> None) then
             mret (Err (NodeErr inlineCfg "exactly one argument is required to use existing config block"))
           else GetInstance init (tail_of name)
         else createInlineModule preferredNamespace name rest);
    match r with
    | Err err => mret (Err err)
    | Ok modObj =>
      m ← object modObj;
      if negb (mod_Implements m moduleIface) then
        let who := "module " +:+ mod_Name m +:+ " (" +:+ mod_InstanceName m +:+ ")" in
        mret (Err (NodeErr inlineCfg
          (if iface_is_interface moduleIface then who +:+ " doesn't implement " +:+ iface_name moduleIface +:+ " interface"
           else who +:+ " is not " +:+ iface_name moduleIface)))
      else if referenceExisting then mret (Ok modObj)
      else
        err ← initInlineModule init modObj globals inlineCfg;
        mret (match err with Some err => Err err | None => Ok modObj end)
    end
  end.
Definition GroupFromNode (init : nat -> G -> Node -> M error) (defaultModule : string) (args : list string) : Node -> G -> I -> M (Result gerror nat) :=
  ModuleFromNode init "" (match args with [] => [defaultModule] | _ => args end).

(** The references of framework/config/module/interfaces.go, each with the interface it
    asks for *)
Definition MessageCheck (init : nat -> G -> Node -> M error) (check : I) (globals : G) (args : list string) (blk : Node) : M (Result gerror nat) :=
  ModuleFromNode init "check" args blk globals check.
Definition DeliveryTarget (init : nat -> G -> Node -> M error) (target : I) (globals : G) (args : list string) (blk : Node) : M (Result gerror nat) :=
  ModuleFromNode init "target" args blk globals target.
Definition DeliveryDirective (init : nat -> G -> Node -> M error) (target : I) (m_Globals : G) (node : Node) : M (Result gerror nat) :=
  DeliveryTarget init target m_Globals (node_Args node) node.
Definition MsgModifier (init : nat -> G -> Node -> M error) (modifier : I) (globals : G) (args : list string) (blk : Node) : M (Result gerror nat) :=
  ModuleFromNode init "modify" args blk globals modifier.
Definition IMAPFilter (init : nat -> G -> Node -> M error) (filter : I) (globals : G) (args : list string) (blk : Node) : M (Result gerror nat) :=
  ModuleFromNode init "imap.filter" args blk globals filter.
Definition StorageDirective (init : nat -> G -> Node -> M error) (backend : I) (m_Globals : G) (node : Node) : M (Result gerror nat) :=
  ModuleFromNode init "storage" (node_Args node) node m_Globals backend.
Definition TableDirective (init : nat -> G -> Node -> M error) (tbl : I) (m_Globals : G) (node : Node) : M (Result gerror nat) :=
  ModuleFromNode init "table" (node_Args node) node m_Globals tbl.

(** Init of a module: its code, with the modules it asks for.  The fuel bounds how deep
    Inits nest; [enough_fuel] gives it. *)
Fixpoint exec (init : nat -> G -> Node -> M error) (c : code) : M error :=
  match c with
  | Return err => mret err
  | FromNode ns args cfg globals iface k => r ← ModuleFromNode init ns args cfg globals iface; exec init (k r)
  end.
Fixpoint Init (fuel : nat) (id : nat) (globals : G) (blk : Node) : M error :=
  match fuel with
  | O => panic "stack overflow"
  | S fuel =>
    m ← object id;
    log (Began id) ;;
    err ← exec (Init fuel) (mod_Init m globals blk);
    log (Ended id err) ;; mret err
  end.

(** ** The blocks of a configuration *)

Record ModInfo := mkModInfo { mi_Instance : nat; mi_Cfg : Node }.
Definition block_names (blk : Node) : string * list string :=
  match node_Args blk with [] => (node_Name blk, []) | instName :: modAliases => (instName, modAliases) end.
Fixpoint register_aliases (blk : Node) (instName : string) (modAliases : list string) : M error :=
  match modAliases with
  | [] => mret None
  | alias :: modAliases =>
    has ← HasInstance alias;
    if (has : bool) then mret (Some (NodeErr blk ("config block named " +:+ alias +:+ " already exists")))
    else RegisterAlias alias instName ;; register_aliases blk instName modAliases
  end.
(** One block: the endpoint or the module it defines *)
Definition register_block (globals : G) (blk : Node) : M (Result gerror (ModInfo + ModInfo)) :=
  let '(instName, modAliases) := block_names blk in
  let modName := node_Name blk in
  endpFactory ← GetEndpoint modName;
  match endpFactory with
  | Some endpFactory =>
    match endpFactory modName (node_Args blk) with
    | Err err => mret (Err err)
    | Ok inst => id ← New inst; mret (Ok (inl (mkModInfo id blk)))
    end
  | None =>
    factory ← Get modName;
    match factory with
    | None => mret (Err (NodeErr blk ("unknown module or global directive: " +:+ modName)))
    | Some factory =>
      has ← HasInstance instName;
      if (has : bool) then mret (Err (NodeErr blk ("config block named " +:+ instName +:+ " already exists")))
      else match factory modName instName modAliases [] with
      | Err err => mret (Err err)
      | Ok inst =>
        id ← New inst;
        RegisterInstance id globals blk ;;
        err ← register_aliases blk instName modAliases;
        mret (match err with Some err => Err err | None => Ok (inr (mkModInfo id blk)) end)
      end
    end
  end.
Fixpoint register_blocks (globals : G) (nodes : list Node) (endpoints mods : list ModInfo) : M (Result gerror (list ModInfo * list ModInfo)) :=
  match nodes with
  | [] => mret (Ok (endpoints, mods))
  | blk :: nodes =>
    r ← register_block globals blk;
    match r with
    | Err err => mret (Err err)
    | Ok (inl endp) => register_blocks globals nodes (endpoints ++ [endp]) mods
    | Ok (inr inst) => register_blocks globals nodes endpoints (mods ++ [inst])
    end
  end.
Definition RegisterModules (globals : G) (nodes : list Node) : M (Result gerror (list ModInfo * list ModInfo)) :=
  r ← register_blocks globals nodes [] [];
  mret (match r with
        | Ok ([], _) => Err (EErrorf "at least one endpoint should be configured" None)
        | r => r
        end).

Fixpoint init_endpoints (init : nat -> G -> Node -> M error) (globals : G) (endpoints : list ModInfo) : M error :=
  match endpoints with
  | [] => mret None
  | endp :: endpoints =>
    err ← init (mi_Instance endp) globals (mi_Cfg endp);
    match err with
    | Some err => mret (Some err)
    | None => close_hook (mi_Instance endp) ;; init_endpoints init globals endpoints
    end
  end.
Fixpoint unused_block (mods : list ModInfo) : M error :=
  match mods with
  | [] => mret None
  | inst :: mods =>
    m ← object (mi_Instance inst);
    used ← gets (fun w => bool_decide (mod_InstanceName m ∈ w_Initialized w));
    if (used : bool) then unused_block mods
    else mret (Some (EErrorf ("Unused configuration block at " +:+ node_File (mi_Cfg inst) +:+ ":" +:+ pretty (node_Line (mi_Cfg inst)) +:+ " - " +:+
                              mod_InstanceName m +:+ " (" +:+ mod_Name m +:+ ")") None))
  end.
Definition initModules (init : nat -> G -> Node -> M error) (globals : G) (endpoints mods : list ModInfo) : M error :=
  err ← init_endpoints init globals endpoints;
  match err with
  | Some err => mret (Some err)
  | None => unused_block mods
  end.
(** moduleMain, once the globals are read: the hooks run when the server has stopped. *)
Definition moduleMain (fuel : nat) (globals : G) (nodes : list Node) : M error :=
  AddHook EventLogRotate (OtherHook 0) ;;
  r ← RegisterModules globals nodes;
  match r with
  | Err err => mret (Some err)
  | Ok (endpoints, mods) =>
    err ← initModules (Init fuel) globals endpoints mods;
    match err with
    | Some err => mret (Some err)
    | None => RunHooks EventShutdown ;; mret None
    end
  end.
End Registry.
