(* ===== verification/RegistryFacts.v ===== *)
(** * RegistryFacts: how modules come to life and how they end

    Every reference ends, circular ones included, no module is started twice, and what
    was started is closed, last first. *)
From S2P Require Import Prelude GoStr ExtErrors Config Registry.
From stdpp Require Import gmap.

Local Open Scope Z_scope.

(** ** Measures *)

Section Facts.
Context {G I : Type} (iface_name : I -> string) (iface_is_interface : I -> bool).
Notation World := (World (G := G) (I := I)).
Notation code := (code (G := G) (I := I)).
Notation Module := (Module (G := G) (I := I)).
Notation Init := (Init iface_name iface_is_interface).
Notation exec := (exec iface_name iface_is_interface).
Notation ModuleFromNode := (ModuleFromNode iface_name iface_is_interface).

(** The factory createInlineModule finds for a name, with the key it is registered under
    and the name it is given *)
Definition inline_factory (mods : gmap string (FuncNewModule (G := G) (I := I))) (ns modName : string) : option (string * string * FuncNewModule (G := G) (I := I)) :=
  let extend := negb (ContainsByte modName dot) && negb (bool_decide (ns = "")) in
  let extended := if extend then ns +:+ "." +:+ modName else modName in
  match (if extend then mods !! extended else None) with
  | Some f => Some (extended, extended, f)
  | None => (fun f => (modName, extended, f)) <$> mods !! modName
  end.

(** Inline modules nest at most [d] deep below an Init, whatever answers it gets: each
    module a factory can make for an inline request of it nests less deep.  References
    to instances do not count. *)
Fixpoint nests (mods : gmap string (FuncNewModule (G := G) (I := I))) (d : nat) : code -> Prop :=
  fix go (c : code) : Prop :=
    match c with
    | Return _ => True
    | FromNode ns args cfg g _ k =>
      match args with
      | [] => True
      | name :: rest =>
        HasPrefix name "&" = true \/
        forall key ext f m, inline_factory mods ns name = Some (key, ext, f) -> f ext "" [] rest = Ok m ->
          match d with O => False | S d => nests mods d (mod_Init m g cfg) end
      end /\ forall r, go (k r)
    end.
Lemma nests_FromNode mods d ns args cfg g iface k : nests mods d (FromNode ns args cfg g iface k) =
  (match args with
   | [] => True
   | name :: rest =>
     HasPrefix name "&" = true \/
     forall key ext f m, inline_factory mods ns name = Some (key, ext, f) -> f ext "" [] rest = Ok m ->
       match d with O => False | S d => nests mods d (mod_Init m g cfg) end
   end /\ forall r, nests mods d (k r)).
Proof. by destruct d. Qed.

(** A way to see that inline modules nest finitely: some rank of the factory, the inline
    arguments and the block goes down with every inline request. *)
Section Rank.
Context (mods : gmap string (FuncNewModule (G := G) (I := I))) (rank : string -> list string -> Node -> nat).
Fixpoint asks_below (h : nat) (c : code) : Prop :=
  match c with
  | Return _ => True
  | FromNode ns args cfg _ _ k =>
    match args with
    | [] => True
    | name :: rest =>
      HasPrefix name "&" = true \/ forall key ext f, inline_factory mods ns name = Some (key, ext, f) -> (rank key rest cfg < h)%nat
    end /\ forall r, asks_below h (k r)
  end.
Definition goes_down : Prop := forall name f a inst al args m g b,
  mods !! name = Some f -> f a inst al args = Ok m -> asks_below (rank name args b) (mod_Init m g b).
Lemma inline_factory_key ns modName key ext f : inline_factory mods ns modName = Some (key, ext, f) -> mods !! key = Some f.
Proof.
  unfold inline_factory. set (extend := _ && _). set (extended := if extend then _ else _).
  destruct (if extend then _ else _) as [f'|] eqn:E; [intros [= <- <- <-]; by destruct extend|].
  destruct (mods !! modName) eqn:E'; [by intros [= <- <- <-]|done].
Qed.
Lemma asks_below_mono h h' c : (h <= h')%nat -> asks_below h c -> asks_below h' c.
Proof.
  intros Hh. induction c as [err|ns args cfg g iface k IH]; [done|]. cbn [asks_below]. intros [Ha Hk]. split; [|auto].
  destruct args as [|name rest]; [done|]. destruct Ha as [Ha|Ha]; [by left|right]. intros key ext f Hf. specialize (Ha _ _ _ Hf). lia.
Qed.
Lemma rank_nests h c : goes_down -> asks_below h c -> nests mods h c.
Proof.
  intros Hg. revert c. induction h as [|h IHh]; intros c; (induction c as [err|ns args cfg g iface k IHk]; [done|]);
    rewrite nests_FromNode; cbn [asks_below]; intros [Hh Hk]; (split; [|by intros r; apply IHk]);
    (destruct args as [|name rest]; [done|]); (destruct Hh as [Hh|Hh]; [by left|right]); intros key ext f m Hf Hm; specialize (Hh _ _ _ Hf).
  - lia.
  - apply IHh, (asks_below_mono (rank key rest cfg)); [lia|]. eapply Hg; [by eapply inline_factory_key|exact Hm].
Qed.
End Rank.

(** What an instance that has not been started can add: its Init, and the inline modules
    nested below it, at most [D] deep *)
Context (D : nat).
Definition entry_weight (started : gset string) (e : string * (nat * (G * Node))) : nat :=
  if decide (e.1 ∈ started) then O else S D.
Definition pending (w : World) : nat := sum_list_with (entry_weight (w_Initialized w)) (map_to_list (w_instances w)).

Definition began (w : World) : list nat := omap (fun e => match e with Began id => Some id | _ => None end) (w_trace w).
Definition started_ok (w : World) : list nat := omap (fun e => match e with Ended id None => Some id | _ => None end) (w_trace w).
Definition closed (w : World) : list nat := omap (fun e => match e with Closed id => Some id | _ => None end) (w_trace w).
Definition has_closer (os : list Module) (id : nat) : bool := match os !! id with Some m => bool_decide (is_Some (mod_Closer m)) | None => false end.
(** The modules to close, in the order their Inits succeeded *)
Definition to_close (w : World) : list nat := base.filter (fun id => has_closer (w_objects w) id) (started_ok w).
Definition shutdown_hooks (w : World) : list hook := default [] (w_hooks w !! EventShutdown).

Lemma entry_weight_mono s s' e : s ⊆ s' -> (entry_weight s' e <= entry_weight s e)%nat.
Proof. intros Hs. unfold entry_weight. repeat case_decide; try lia. exfalso. set_solver. Qed.
Lemma weight_mono s s' l : s ⊆ s' -> (sum_list_with (entry_weight s') l <= sum_list_with (entry_weight s) l)%nat.
Proof. intros Hs. induction l as [|e l IH]; simpl; [lia|]. pose proof (entry_weight_mono s s' e Hs). lia. Qed.
Lemma weight_fresh s name l : name ∉ l.*1 -> sum_list_with (entry_weight ({[name]} ∪ s)) l = sum_list_with (entry_weight s) l.
Proof.
  induction l as [|e l IH]; simpl; intros Hl; [done|]. rewrite IH by set_solver. f_equal. unfold entry_weight.
  repeat case_decide; try done; set_solver.
Qed.
Lemma pending_start w name id g b :
  w_instances w !! name = Some (id, (g, b)) -> name ∉ w_Initialized w ->
  pending w = (S D + pending (set_Initialized ({[name]} ∪ w_Initialized w) w))%nat.
Proof.
  intros E Hn. unfold pending. cbn [w_instances w_Initialized set_Initialized]. rewrite <- !(map_to_list_delete _ _ _ E). cbn [sum_list_with].
  rewrite weight_fresh.
  - unfold entry_weight at 1 3. cbn [fst snd]. rewrite decide_False by done. rewrite decide_True by set_solver. lia.
  - rewrite list_elem_of_fmap. intros ([n x] & -> & Hin%elem_of_map_to_list). simpl in Hin. by rewrite lookup_delete_eq in Hin.
Qed.

(** ** The invariant *)

Record Inv (w : World) : Prop := mkInv {
  inv_ids : forall name id gb, w_instances w !! name = Some (id, gb) -> (id < length (w_objects w))%nat;
  inv_inj : forall n1 n2 id gb1 gb2, w_instances w !! n1 = Some (id, gb1) -> w_instances w !! n2 = Some (id, gb2) -> n1 = n2;
  inv_once : NoDup (began w);
  inv_began : forall id, id ∈ began w -> (id < length (w_objects w))%nat /\ forall name gb, w_instances w !! name = Some (id, gb) -> name ∈ w_Initialized w;
  inv_init : forall name id gb, name ∈ w_Initialized w -> w_instances w !! name = Some (id, gb) -> id ∈ began w;
  inv_ended : forall id, id ∈ started_ok w -> id ∈ began w;
  inv_ended_once : NoDup (started_ok w);
  inv_hooks : shutdown_hooks w = map CloseModule (to_close w);
  inv_nests : forall name id g b, w_instances w !! name = Some (id, (g, b)) -> exists m, w_objects w !! id = Some m /\ nests (w_modules w) D (mod_Init m g b);
  inv_open : closed w = []
}.
(** What any step leaves as it was; the modules it starts are instances, new ones, or
    those of [roots] *)
Record Ext (roots : list nat) (w w' : World) : Prop := mkExt {
  ext_modules : w_modules w' = w_modules w;
  ext_instances : w_instances w' = w_instances w;
  ext_aliases : w_aliases w' = w_aliases w;
  ext_Initialized : w_Initialized w ⊆ w_Initialized w';
  ext_objects : exists more, w_objects w' = w_objects w ++ more;
  ext_began : forall id, id ∈ began w -> id ∈ began w';
  ext_new : forall id, id ∈ began w' -> id ∈ began w \/ id ∈ roots \/ (length (w_objects w) <= id)%nat \/ exists name gb, w_instances w !! name = Some (id, gb);
  ext_ended : forall id, id ∈ started_ok w' -> id ∈ started_ok w \/ id ∉ began w
}.
Lemma Ext_refl w : Ext [] w w.
Proof. split; try done; [by exists []; rewrite app_nil_r|by left..]. Qed.
Lemma Ext_trans roots w1 w2 w3 : Ext roots w1 w2 -> Ext [] w2 w3 -> Ext roots w1 w3.
Proof.
  intros [Ma Ia Aa Sa (oa & Oa) Ba Na Ea] [Mb Ib Ab Sb (ob & Ob) Bb Nb Eb]. split.
  - congruence.
  - congruence.
  - congruence.
  - set_solver.
  - exists (oa ++ ob). by rewrite Ob, Oa, app_assoc.
  - auto.
  - intros id [H|[H|[H|H]]]%Nb; [auto|set_solver| |].
    + do 2 right; left. rewrite Oa, length_app in H. lia.
    + rewrite Ia in H. auto.
  - intros id [H|H]%Eb; [auto|]. right. auto.
Qed.
Lemma Ext_no_roots roots w w' :
  Ext roots w w' -> (forall id, id ∈ roots -> (length (w_objects w) <= id)%nat \/ exists name gb, w_instances w !! name = Some (id, gb)) -> Ext [] w w'.
Proof. intros [] Hr. split; try done. intros id Hid. destruct (ext_new0 id Hid) as [?|[?|?]]; auto. Qed.
Lemma Ext_pending roots w w' : Ext roots w w' -> (pending w' <= pending w)%nat.
Proof. intros [_ I0 _ S0 _ _ _ _]. unfold pending. rewrite I0. by apply weight_mono. Qed.
Lemma Ext_length roots w w' : Ext roots w w' -> (length (w_objects w) <= length (w_objects w'))%nat.
Proof. intros [_ _ _ _ (more & ->) _ _ _]. rewrite length_app. lia. Qed.
Lemma Ext_lookup roots w w' id m : Ext roots w w' -> w_objects w !! id = Some m -> w_objects w' !! id = Some m.
Proof. intros [_ _ _ _ (more & ->) _ _ _] E. by apply lookup_app_l_Some. Qed.

Lemma began_logged e w : began (logged e w) = began w ++ match e with Began id => [id] | _ => [] end.
Proof. unfold began, logged. cbn [w_trace]. rewrite omap_app. by destruct e. Qed.
Lemma started_logged e w : started_ok (logged e w) = started_ok w ++ match e with Ended id None => [id] | _ => [] end.
Proof. unfold started_ok, logged. cbn [w_trace]. rewrite omap_app. by destruct e as [|? []|]. Qed.

Lemma closed_logged e w : closed (logged e w) = closed w ++ match e with Closed id => [id] | _ => [] end.
Proof. unfold closed, logged. cbn [w_trace]. rewrite omap_app. by destruct e. Qed.

(** ** The steps *)

(** An Init method that ends well when it is given [n] *)
Definition nests_at (w : World) (id : nat) (g : G) (b : Node) (d : nat) : Prop :=
  exists m, w_objects w !! id = Some m /\ nests (w_modules w) d (mod_Init m g b).
Definition init_ok (init : nat -> G -> Node -> Prog World error) (n : nat) : Prop :=
  forall w id g b d, nests_at w id g b d -> Inv (logged (Began id) w) -> id ∉ started_ok w -> (d + pending w < n)%nat ->
  exists w' err, init id g b w = (logged (Ended id err) w', Done err) /\ Inv w' /\ Ext [] (logged (Began id) w) w'.

Lemma Inv_failed w id e : Inv w -> Inv (logged (Ended id (Some e)) w).
Proof. intros []. split; try done; unfold to_close; rewrite ?began_logged, ?started_logged, ?closed_logged, ?app_nil_r; done. Qed.
(** Began and Ended around a run *)
Lemma Ext_around w id err w' : id ∉ began w -> Ext [] (logged (Began id) w) w' -> Ext [id] w (logged (Ended id err) w').
Proof.
  intros Hid [M I0 A S O B N E]. split; try done.
  - intros x Hx. rewrite began_logged, app_nil_r. apply B. rewrite began_logged. set_solver.
  - intros x. rewrite began_logged, app_nil_r. intros [Hx|[Hx|Hx]]%N; [rewrite began_logged in Hx; set_solver|set_solver|by do 2 right].
  - intros x. rewrite started_logged, elem_of_app. intros [[Hx|Hx]%E|Hx].
    + rewrite started_logged, app_nil_r in Hx. by left.
    + right. rewrite began_logged in Hx. set_solver.
    + right. destruct err; set_solver.
Qed.
Lemma Ext_hooks roots w w' hs : Ext roots w w' -> Ext roots w (set_hooks hs w').
Proof. intros []. by split. Qed.

Lemma lookup_object (os : list Module) id : (id < length os)%nat -> exists m, os !! id = Some m.
Proof. intros [m Hm]%lookup_lt_is_Some_2. by exists m. Qed.
Lemma to_close_ended w id m :
  w_objects w !! id = Some m ->
  to_close (logged (Ended id None) w) = to_close w ++ match mod_Closer m with Some _ => [id] | None => [] end.
Proof.
  intros Em. unfold to_close. rewrite started_logged, filter_app. f_equal. cbn [w_objects logged].
  rewrite filter_cons, filter_nil. unfold has_closer. rewrite Em. by destruct (mod_Closer m).
Qed.
(** The end of a successful Init, with its hook *)
Lemma close_hook_ended w id :
  Inv w -> id ∈ began w -> id ∉ started_ok w ->
  exists hs, close_hook id (logged (Ended id None) w) = (set_hooks hs (logged (Ended id None) w), Done tt) /\ Inv (set_hooks hs (logged (Ended id None) w)).
Proof.
  intros Hw Hb Hs. pose proof (proj1 (inv_began _ Hw _ Hb)) as Hlt. destruct (lookup_object _ _ Hlt) as [m Em].
  pose proof (to_close_ended w id m Em) as Hc. unfold close_hook, object, AddHook, modify, mbind, prog_bind. cbn [w_objects logged]. rewrite Em.
  assert (forall hs, default [] (hs !! EventShutdown) = map CloseModule (to_close (logged (Ended id None) w)) ->
            Inv (set_hooks hs (logged (Ended id None) w))) as HI.
  { assert (began (logged (Ended id None) w) = began w) as Eb by (by rewrite began_logged, app_nil_r).
    intros hs Hhs. destruct Hw. split; try done.
    - change (NoDup (began (logged (Ended id None) w))). by rewrite Eb.
    - intros x Hx. change (x ∈ began (logged (Ended id None) w)) in Hx. rewrite Eb in Hx. auto.
    - intros n x gb H1 H2. change (x ∈ began (logged (Ended id None) w)). rewrite Eb. eauto.
    - intros x Hx. change (x ∈ started_ok (logged (Ended id None) w)) in Hx. change (x ∈ began (logged (Ended id None) w)).
      rewrite Eb. rewrite started_logged in Hx. set_solver.
    - change (NoDup (started_ok (logged (Ended id None) w))). rewrite started_logged. apply NoDup_app. repeat split; [done| |apply NoDup_singleton].
      intros x Hx ->%list_elem_of_singleton. done.
    - change (closed (logged (Ended id None) w) = []). by rewrite closed_logged, app_nil_r. }
  pose proof (inv_hooks _ Hw) as Hh. unfold shutdown_hooks in Hh.
  destruct (mod_Closer m) as [e|].
  - eexists; split; [reflexivity|]. apply HI. rewrite lookup_insert_eq. simpl. rewrite Hc, map_app. cbn [map]. by rewrite Hh.
  - exists (w_hooks w); split; [reflexivity|]. rewrite app_nil_r in Hc. apply HI. by rewrite Hc.
Qed.

Lemma began_self id w : id ∈ began (logged (Began id) w).
Proof. rewrite began_logged. set_solver. Qed.
Lemma not_began id w : Inv (logged (Began id) w) -> id ∉ began w.
Proof.
  intros Hw Hb. pose proof (inv_once _ Hw) as Hn. rewrite began_logged in Hn. apply NoDup_app in Hn as (_ & Hn & _).
  apply (Hn id Hb). set_solver.
Qed.
(** Init and the hook after it, as references and endpoints do *)
Lemma initInlineModule_runs init n w id g b d :
  init_ok init n -> nests_at w id g b d -> Inv (logged (Began id) w) -> id ∉ started_ok w -> (d + pending w < n)%nat ->
  exists w' err, initInlineModule init id g b w = (w', Done err) /\ Inv w' /\ Ext [id] w w'.
Proof.
  intros Hi Hd Hw Hs Hn. destruct (Hi w id g b d Hd Hw Hs Hn) as (w1 & err & E & H1 & HE). unfold initInlineModule.
  assert (id ∉ started_ok w1) as Hs1.
  { intros [Hx|Hx]%(ext_ended _ _ _ HE); [rewrite started_logged, app_nil_r in Hx; done|]. by apply Hx, began_self. }
  pose proof (Ext_around w id err w1 (not_began _ _ Hw) HE) as HE1.
  rewrite (prog_bind_eq _ _ _ _ _ E). destruct err as [err|].
  - exists (logged (Ended id (Some err)) w1), (Some err). split; [done|]. split; [by apply Inv_failed|done].
  - destruct (close_hook_ended w1 id H1) as (hs & E2 & H2); [apply (ext_began _ _ _ HE), began_self|done|].
    exists (set_hooks hs (logged (Ended id None) w1)), None. rewrite (prog_bind_eq _ _ _ _ _ E2). split; [done|]. split; [done|]. by apply Ext_hooks.
Qed.

(** ** References *)

Lemma Inv_began_instance w name id gb :
  Inv w -> w_instances w !! name = Some (id, gb) -> name ∉ w_Initialized w ->
  id ∉ began w /\ Inv (logged (Began id) (set_Initialized ({[name]} ∪ w_Initialized w) w)).
Proof.
  intros Hw E Hn. assert (id ∉ began w) as Hb by (intros Hb; by apply Hn, (proj2 (inv_began _ Hw id Hb) name gb)).
  split; [done|]. set (w1 := set_Initialized _ w). assert (began (logged (Began id) w1) = began w ++ [id]) as Eb by (by rewrite began_logged).
  assert (started_ok (logged (Began id) w1) = started_ok w) as Es by (rewrite started_logged; apply app_nil_r).
  destruct Hw. split; rewrite ?Eb, ?Es; try done.
  - apply NoDup_app. repeat split; [done| |apply NoDup_singleton]. intros x Hx ->%list_elem_of_singleton. done.
  - intros x [Hx| ->%list_elem_of_singleton]%elem_of_app.
    + destruct (inv_began0 x Hx) as [H1 H2]. split; [done|]. intros n gb' Hn'. cbn. set_solver.
    + split; [by eapply inv_ids0|]. intros n gb' Hn'. cbn. rewrite (inv_inj0 _ _ _ _ _ Hn' E). set_solver.
  - intros n x gb'. cbn. intros [->%elem_of_singleton|Hx]%elem_of_union Hn'; [rewrite E in Hn'; set_solver|]. rewrite elem_of_app. eauto.
  - intros x Hx. rewrite elem_of_app. auto.
  - unfold to_close. rewrite Es. exact inv_hooks0.
  - by rewrite closed_logged, app_nil_r.
Qed.
Definition good_ref (r : Result gerror nat) (w : World) : Prop := forall id, r = Ok id -> (id < length (w_objects w))%nat.
Lemma GetInstance_runs init n w name :
  init_ok init n -> Inv w -> (pending w <= n)%nat ->
  exists w' r, GetInstance init name w = (w', Done r) /\ Inv w' /\ Ext [] w w' /\ good_ref r w'.
Proof.
  intros Hi Hw Hn. unfold GetInstance. set (nm := resolve w name). clearbody nm. destruct (w_instances w !! nm) as [[id [g b]]|] eqn:E.
  - case_decide as Hin; [exists w, (Ok id); split_and!; [done..|apply Ext_refl|intros ? [= <-]; by eapply inv_ids]|].
    destruct (Inv_began_instance w nm id (g, b) Hw E Hin) as [Hb H1]. pose proof (pending_start w nm id g b E Hin) as Hp.
    set (w1 := set_Initialized _ w) in *.
    assert (forall f : error -> Prog World (Result gerror nat), (modify (fun w : World => set_Initialized ({[nm]} ∪ w_Initialized w) w) ;; err ← init id g b; f err) w = (init id g b ≫= f) w1) as Estep by done.
    rewrite Estep. clear Estep.
    destruct (initInlineModule_runs init n w1 id g b D Hi (inv_nests _ Hw _ _ _ _ E) H1) as (w2 & err & E2 & H2 & HE); [intros Hs; by apply Hb, (inv_ended _ Hw)|lia|].
    unfold initInlineModule in E2. apply prog_bind_Done in E2 as (w3 & err' & E3 & E4). rewrite (prog_bind_eq _ _ _ _ _ E3).
    assert (Ext [] w w2) as HE'.
    { apply (Ext_no_roots [id]).
      - destruct HE as [M I0 A S O B N En]. split; try done. cbn in S. set_solver.
      - intros x ->%list_elem_of_singleton. right. eauto. }
    destruct err' as [e|].
    + cbv [mret prog_ret] in E4. simplify_eq. exists w2, (Err e). split_and!; done.
    + apply prog_bind_Done in E4 as (w4 & [] & E4 & E5). cbv [mret prog_ret] in E5. simplify_eq.
      exists w2, (Ok id). rewrite (prog_bind_eq _ _ _ _ _ E4). split_and!; [done..|]. intros ? [= <-].
      pose proof (Ext_length _ _ _ HE'). pose proof (inv_ids _ Hw _ _ _ E). lia.
  - exists w, (Err (EErrorf ("unknown config block: " +:+ nm) None)). split_and!; [done..|apply Ext_refl|done].
Qed.

Lemma Inv_begin w id :
  Inv w -> (id < length (w_objects w))%nat -> id ∉ began w -> (forall name gb, w_instances w !! name <> Some (id, gb)) -> Inv (logged (Began id) w).
Proof.
  intros Hw Hlt Hb Hi. assert (began (logged (Began id) w) = began w ++ [id]) as Eb by (by rewrite began_logged).
  assert (started_ok (logged (Began id) w) = started_ok w) as Es by (rewrite started_logged; apply app_nil_r).
  destruct Hw. split; rewrite ?Eb, ?Es; try done.
  - apply NoDup_app. repeat split; [done| |apply NoDup_singleton]. intros x Hx ->%list_elem_of_singleton. done.
  - intros x [Hx| ->%list_elem_of_singleton]%elem_of_app; [auto|]. split; [done|]. intros n gb Hn. by apply Hi in Hn.
  - intros n x gb H1 H2. rewrite elem_of_app. left. eauto.
  - intros x Hx. rewrite elem_of_app. auto.
  - unfold to_close. rewrite Es. exact inv_hooks0.
  - by rewrite closed_logged, app_nil_r.
Qed.
Lemma filter_same {A} (P Q : A -> Prop) `{forall x, Decision (P x), forall x, Decision (Q x)} (l : list A) :
  (forall x, x ∈ l -> P x <-> Q x) -> base.filter P l = base.filter Q l.
Proof.
  induction l as [|x l IH]; intros Hl; [done|]. rewrite !filter_cons, IH by set_solver. specialize (Hl x ltac:(set_solver)).
  repeat case_decide; naive_solver.
Qed.
Lemma Inv_object w m : Inv w -> Inv (set_objects (w_objects w ++ [m]) w).
Proof.
  intros []. split; try done; cbn [w_objects w_instances w_Initialized set_objects].
  - intros n id gb E. rewrite length_app. specialize (inv_ids0 n id gb E). lia.
  - intros id Hid. destruct (inv_began0 id Hid). rewrite length_app. split; [lia|done].
  - change (shutdown_hooks w = map CloseModule (to_close (set_objects (w_objects w ++ [m]) w))). rewrite inv_hooks0. f_equal.
    unfold to_close. apply filter_same. intros id Hid%inv_ended0. destruct (inv_began0 id Hid) as [Hlt _]. unfold has_closer. cbn [w_objects set_objects].
    by rewrite lookup_app_l.
  - intros n id g b E. destruct (inv_nests0 n id g b E) as (m' & Em & Hm). exists m'. split; [by apply lookup_app_l_Some|done].
Qed.
Lemma Ext_New w m : Ext [] w (set_objects (w_objects w ++ [m]) w).
Proof. split; try done; [by exists [m]|by left..]. Qed.

(** A new object, and what a reference then does with it *)
Definition created (w w' : World) (r : Result gerror nat) : Prop :=
  Inv w' /\ Ext [] w w' /\ pending w' = pending w /\
  forall id, r = Ok id -> id = length (w_objects w) /\ (id < length (w_objects w'))%nat /\ began w' = began w /\ started_ok w' = started_ok w.
(** It is one a factory has made. *)
Definition made (r : Result gerror Module) (w' : World) (r' : Result gerror nat) : Prop :=
  forall id, r' = Ok id -> exists m, r = Ok m /\ w_objects w' !! id = Some m.
Lemma created_none w e : Inv w -> created w w (Err e).
Proof. intros. split_and!; [done|apply Ext_refl|done|done]. Qed.
Lemma construct_runs w r :
  Inv w -> exists w' r', construct r w = (w', Done r') /\ created w w' r' /\ made r w' r'.
Proof.
  intros Hw. destruct r as [m|e]; [|by exists w, (Err e); split; [done|]; split; [by apply created_none|]].
  eexists _, _. split; [reflexivity|]. split.
  - split; [by apply Inv_object|]. split; [apply Ext_New|]. split; [done|].
    intros ? [= <-]. cbn. rewrite length_app. simpl. split_and!; [done|lia|done..].
  - intros ? [= <-]. exists m. split; [done|]. cbn. by apply list_lookup_middle.
Qed.
(** The module an inline reference makes *)
Definition inline_made (w w' : World) (ns modName : string) (args : list string) (r : Result gerror nat) : Prop :=
  forall id, r = Ok id -> exists key ext f m, inline_factory (w_modules w) ns modName = Some (key, ext, f) /\ f ext "" [] args = Ok m /\ w_objects w' !! id = Some m.
Lemma createInlineModule_runs w ns modName args :
  Inv w -> exists w' r, createInlineModule ns modName args w = (w', Done r) /\ created w w' r /\ inline_made w w' ns modName args r.
Proof.
  intros Hw. unfold createInlineModule, inline_made, inline_factory. set (extend := _ && _). set (extended := if extend then _ else _). clearbody extended.
  assert (forall f : FuncNewModule, exists w' r, construct (f extended "" [] args) w = (w', Done r) /\ created w w' r /\ made (f extended "" [] args) w' r) as Hnew.
  { intros f. by apply construct_runs. }
  unfold Get, gets. destruct extend.
  - erewrite prog_bind_eq by reflexivity. destruct (w_modules w !! extended) as [f|] eqn:E1.
    + erewrite prog_bind_eq by reflexivity. destruct (Hnew f) as (w' & r & E & Hc & Hm). exists w', r. split; [exact E|]. split; [done|].
      intros id Hid. destruct (Hm id Hid) as (m & ? & ?). eauto 10.
    + erewrite prog_bind_eq by reflexivity. destruct (w_modules w !! modName) as [f|] eqn:E2; [|eexists w, _; split; [reflexivity|]; split; [by apply created_none|done]].
      destruct (Hnew f) as (w' & r & E & Hc & Hm). exists w', r. split; [exact E|]. split; [done|].
      intros id Hid. destruct (Hm id Hid) as (m & ? & ?). eauto 10.
  - erewrite prog_bind_eq by reflexivity. erewrite prog_bind_eq by reflexivity.
    destruct (w_modules w !! modName) as [f|] eqn:E2; [|eexists w, _; split; [reflexivity|]; split; [by apply created_none|done]].
    destruct (Hnew f) as (w' & r & E & Hc & Hm). exists w', r. split; [exact E|]. split; [done|].
    intros id Hid. destruct (Hm id Hid) as (m & ? & ?). eauto 10.
Qed.

Lemma ModuleFromNode_runs init n w ns args cfg g iface d :
  init_ok init n -> Inv w ->
  match args with
  | [] => True
  | name :: rest =>
    HasPrefix name "&" = true \/
    forall key ext f m, inline_factory (w_modules w) ns name = Some (key, ext, f) -> f ext "" [] rest = Ok m ->
      match d with O => False | S d => nests (w_modules w) d (mod_Init m g cfg) end
  end -> (d + pending w <= n)%nat ->
  exists w' r, ModuleFromNode init ns args cfg g iface w = (w', Done r) /\ Inv w' /\ Ext [] w w'.
Proof.
  intros Hi Hw Hd Hn. assert (forall e, exists w' r, (mret (Err e) : Prog World (Result gerror nat)) w = (w', Done r) /\ Inv w' /\ Ext [] w w') as Hstop.
  { intros e. eexists w, _. split; [done|]. split; [done|apply Ext_refl]. }
  unfold Registry.ModuleFromNode. destruct args as [|name rest]; [apply Hstop|]. destruct (HasPrefix name "&").
  - case_decide; [erewrite prog_bind_eq by reflexivity; apply Hstop|].
    destruct (GetInstance_runs init n w (tail_of name) Hi Hw ltac:(lia)) as (w1 & r & E & H1 & HE & Hr).
    rewrite (prog_bind_eq _ _ _ _ _ E). destruct r as [id|e]; [|by eexists w1, _].
    destruct (lookup_object (w_objects w1) id (Hr id eq_refl)) as [m Em]. unfold object at 1.
    erewrite prog_bind_eq by (by rewrite Em). destruct (negb _); by eexists w1, _.
  - destruct Hd as [Hd|Hd]; [done|]. destruct (createInlineModule_runs w ns name rest Hw) as (w1 & r & E & (H1 & HE & Hp & Hr) & Hmade).
    rewrite (prog_bind_eq _ _ _ _ _ E). destruct r as [id|e]; [|by eexists w1, _].
    destruct (Hr id eq_refl) as (Hid & Hlt & Hb & Hs). destruct (Hmade id eq_refl) as (key & ext & f & m & Hf & Hm & Em).
    specialize (Hd _ _ _ _ Hf Hm). destruct d as [|d]; [done|].
    erewrite prog_bind_eq by (unfold object; by rewrite Em). destruct (negb _); [by eexists w1, _|].
    assert (id ∉ began w) as Hnb by (intros Hx%(inv_began _ Hw); lia).
    assert (forall nm gb, w_instances w !! nm <> Some (id, gb)) as Hni by (intros nm gb Hx%(inv_ids _ Hw); lia).
    destruct (initInlineModule_runs init n w1 id g cfg d Hi) as (w2 & err & E2 & H2 & HE2).
    + exists m. split; [done|]. by rewrite (ext_modules _ _ _ HE).
    + apply Inv_begin; [done..|by rewrite Hb|]. intros nm gb. rewrite (ext_instances _ _ _ HE). apply Hni.
    + rewrite Hs. by intros Hx%(inv_ended _ Hw).
    + lia.
    + rewrite (prog_bind_eq _ _ _ _ _ E2). eexists w2, _. split; [reflexivity|]. split; [done|].
      destruct HE as [M I0 A S (more & O) B N En], HE2 as [M2 I2 A2 S2 (more2 & O2) B2 N2 En2]. split; try congruence.
      * set_solver.
      * exists (more ++ more2). by rewrite O2, O, app_assoc.
      * auto.
      * intros x [Hx|[->%list_elem_of_singleton|[Hx|Hx]]]%N2; [auto|do 2 right; left; lia| |rewrite I0 in Hx; auto].
        do 2 right; left. rewrite O, length_app in Hx. lia.
      * intros x [Hx|Hx]%En2; [auto|]. right. auto.
Qed.
Lemma exec_runs init n h c w :
  init_ok init n -> nests (w_modules w) h c -> Inv w -> (h + pending w <= n)%nat ->
  exists w' err, exec init c w = (w', Done err) /\ Inv w' /\ Ext [] w w'.
Proof.
  intros Hi. revert w. induction c as [err|ns args cfg g iface k IH]; intros w Hc Hw Hn; cbn [Registry.exec].
  - exists w, err. split; [done|]. split; [done|apply Ext_refl].
  - rewrite nests_FromNode in Hc. destruct Hc as [Hh Hk].
    destruct (ModuleFromNode_runs init n w ns args cfg g iface h Hi Hw Hh Hn) as (w1 & r & E & H1 & HE).
    rewrite (prog_bind_eq _ _ _ _ _ E). pose proof (Ext_pending _ _ _ HE).
    destruct (IH r w1 ltac:(rewrite (ext_modules _ _ _ HE); apply Hk) H1 ltac:(lia)) as (w2 & err & E2 & H2 & HE2). exists w2, err. split; [done|]. split; [done|]. by eapply Ext_trans.
Qed.
(** Fuel for the blocks around and the instances that are left is enough. *)
Lemma Init_ok fuel : init_ok (Init fuel) fuel.
Proof.
  induction fuel as [|fuel IH]; intros w id g b d (m & Em & Hm) Hw Hs Hn; [lia|]. cbn [Registry.Init]. erewrite prog_bind_eq by (unfold object; by rewrite Em).
  erewrite prog_bind_eq by reflexivity.
  destruct (exec_runs (Init fuel) fuel d (mod_Init m g b) (logged (Began id) w) IH) as (w1 & err & E & H1 & HE).
  - exact Hm.
  - done.
  - change (pending (logged (Began id) w)) with (pending w). lia.
  - rewrite (prog_bind_eq _ _ _ _ _ E). eexists w1, err. split; [reflexivity|]. done.
Qed.

(** ** The blocks of a configuration *)

(** Inline modules nest at most [D] deep below the module or the endpoint of a block. *)
Definition block_nests (w : World) (globals : G) (blk : Node) : Prop :=
  (forall f m, w_endpoints w !! node_Name blk = Some f -> f (node_Name blk) (node_Args blk) = Ok m ->
     nests (w_modules w) D (mod_Init m globals blk)) /\
  (forall f m, w_modules w !! node_Name blk = Some f -> f (node_Name blk) (block_names blk).1 (block_names blk).2 [] = Ok m ->
     nests (w_modules w) D (mod_Init m globals blk)).
Definition enough_fuel (nodes : list Node) : nat := S (length nodes * S D).
(** The registry before the configuration is read, and while its blocks are registered *)
Record Registered (w : World) (globals : G) (endpoints mods : list ModInfo) (budget : nat) : Prop := mkRegistered {
  rg_trace : w_trace w = [];
  rg_Initialized : w_Initialized w = ∅;
  rg_hooks : w_hooks w !! EventShutdown = None;
  rg_ids : forall name id gb, w_instances w !! name = Some (id, gb) -> (id < length (w_objects w))%nat;
  rg_inj : forall n1 n2 id gb1 gb2, w_instances w !! n1 = Some (id, gb1) -> w_instances w !! n2 = Some (id, gb2) -> n1 = n2;
  rg_nests : forall name id g b, w_instances w !! name = Some (id, (g, b)) -> nests_at w id g b D;
  rg_mods : forall mi, mi ∈ mods -> exists m, w_objects w !! mi_Instance mi = Some m;
  rg_insts : forall name id gb, w_instances w !! name = Some (id, gb) -> exists mi m, mi ∈ mods /\ mi_Instance mi = id /\ w_objects w !! id = Some m /\ mod_InstanceName m = name;
  rg_roots : NoDup (map mi_Instance endpoints);
  rg_root : forall e, e ∈ endpoints -> nests_at w (mi_Instance e) globals (mi_Cfg e) D /\ forall name gb, w_instances w !! name <> Some (mi_Instance e, gb);
  rg_weight : (pending w + length endpoints * S D <= budget * S D)%nat
}.
Lemma Registered_Inv w globals endpoints mods budget : Registered w globals endpoints mods budget -> Inv w.
Proof.
  intros []. split; unfold began, started_ok, closed, shutdown_hooks, to_close, started_ok; rewrite ?rg_trace0, ?rg_hooks0, ?rg_Initialized0; try done.
  - constructor.
  - intros id Hid. set_solver.
  - constructor.
Qed.
(** An instance registered under a name that was taken replaces the one before. *)
Lemma pending_insert w name id g b :
  w_Initialized w = ∅ -> (pending (set_instances (<[name := (id, (g, b))]> (w_instances w)) w) <= S D + pending w)%nat.
Proof.
  intros Hi. unfold pending. cbn [w_instances w_Initialized set_instances].
  assert (forall x, entry_weight (w_Initialized w) (name, x) = S D) as Hx by (intros x; unfold entry_weight; rewrite decide_False; [done|]; rewrite Hi; set_solver).
  destruct (w_instances w !! name) as [y|] eqn:E.
  - rewrite <- (map_to_list_delete _ _ _ E). rewrite <- insert_delete_eq. rewrite (map_to_list_insert _ _ _ (lookup_delete_eq _ _)).
    cbn [sum_list_with]. rewrite !Hx. lia.
  - rewrite (map_to_list_insert _ _ _ E). cbn [sum_list_with]. by rewrite Hx.
Qed.
Lemma nests_at_New w id g b d m : nests_at w id g b d -> nests_at (set_objects (w_objects w ++ [m]) w) id g b d.
Proof. intros (m' & E & Hm). exists m'. split; [by apply lookup_app_l_Some|exact Hm]. Qed.
Lemma nests_at_lt w id g b d : nests_at w id g b d -> (id < length (w_objects w))%nat.
Proof. intros (m & E & _). by eapply lookup_lt_Some. Qed.
Lemma Registered_New w globals endpoints mods budget m :
  Registered w globals endpoints mods budget -> Registered (set_objects (w_objects w ++ [m]) w) globals endpoints mods budget.
Proof.
  intros []. split; try done; cbn [w_objects w_instances set_objects].
  - intros n id gb E. rewrite length_app. specialize (rg_ids0 n id gb E). lia.
  - intros n id g b E. by apply nests_at_New, (rg_nests0 n).
  - intros mi Hmi. destruct (rg_mods0 mi Hmi) as (m' & E). exists m'. by apply lookup_app_l_Some.
  - intros n id gb E. destruct (rg_insts0 n id gb E) as (mi & m' & ? & ? & ? & ?). exists mi, m'. split_and!; try done. by apply lookup_app_l_Some.
  - intros e He. destruct (rg_root0 e He). split; [by apply nests_at_New|done].
Qed.
Lemma Registered_endpoint w globals endpoints mods budget m blk :
  Registered w globals endpoints mods budget -> nests (w_modules w) D (mod_Init m globals blk) ->
  Registered (set_objects (w_objects w ++ [m]) w) globals (endpoints ++ [mkModInfo (length (w_objects w)) blk]) mods (budget + 1).
Proof.
  intros Hw Hm. pose proof (Registered_New _ _ _ _ _ m Hw) as H1. destruct Hw, H1. split; try done.
  - rewrite map_app. apply NoDup_app. repeat split; [done| |apply NoDup_singleton].
    intros x (e & -> & He)%list_elem_of_fmap Hx%list_elem_of_singleton. destruct (rg_root0 e He) as [Hlt%nests_at_lt _]. simpl in Hx. lia.
  - intros e [He| ->%list_elem_of_singleton]%elem_of_app; [auto|]. cbn. split; [exists m; split; [by apply list_lookup_middle|exact Hm]|].
    intros n gb Hn%rg_ids0. lia.
  - change (pending (set_objects (w_objects w ++ [m]) w)) with (pending w). rewrite length_app. cbn [length]. lia.
Qed.
Lemma Registered_instance w globals endpoints mods budget m blk :
  Registered w globals endpoints mods budget -> nests (w_modules w) D (mod_Init m globals blk) ->
  Registered (set_instances (<[mod_InstanceName m := (length (w_objects w), (globals, blk))]> (w_instances w)) (set_objects (w_objects w ++ [m]) w))
    globals endpoints (mods ++ [mkModInfo (length (w_objects w)) blk]) (budget + 1).
Proof.
  intros Hw Hm. pose proof (Registered_New _ _ _ _ _ m Hw) as H1. set (id := length (w_objects w)) in *.
  assert (forall n x gb, w_instances w !! n = Some (x, gb) -> (x < id)%nat) as Hold by apply (rg_ids _ _ _ _ _ Hw).
  assert (w_objects (set_objects (w_objects w ++ [m]) w) !! id = Some m) as Em by (apply list_lookup_middle; done).
  destruct H1. split; try done; cbn [w_instances w_objects set_instances w_aliases set_objects] in *.
  - intros n x gb [[<- [= <- <-]]|[_ E]]%lookup_insert_Some; [rewrite length_app; simpl; unfold id; lia|by eapply rg_ids0].
  - intros n1 n2 x gb1 gb2 [[<- [= <- <-]]|[Hd E1]]%lookup_insert_Some [[<- E]|[Hd2 E2]]%lookup_insert_Some; [done| | |by eapply rg_inj0].
    + apply Hold in E2. lia.
    + injection E as <- <-. apply Hold in E1. lia.
  - intros n x g b [[<- [= <- <- <-]]|[_ E]]%lookup_insert_Some; [by exists m|by apply (rg_nests0 n)].
  - intros mi [Hmi| ->%list_elem_of_singleton]%elem_of_app; [by apply rg_mods0|by exists m].
  - intros n x gb [[<- [= <- <-]]|[_ E]]%lookup_insert_Some.
    + exists (mkModInfo id blk), m. split_and!; try done. set_solver.
    + destruct (rg_insts0 n x gb E) as (mi & m' & ? & ? & ? & ?). exists mi, m'. split_and!; try done. set_solver.
  - intros e He. destruct (rg_root0 e He) as [Hlt Hr]. split; [done|]. destruct (rg_root _ _ _ _ _ Hw e He) as [Hl _]. apply nests_at_lt in Hl.
    intros n gb [[<- [= Hx <-]]|[_ E]]%lookup_insert_Some; [unfold id in Hx; lia|by apply (Hr n gb)].
  - pose proof (pending_insert (set_objects (w_objects w ++ [m]) w) (mod_InstanceName m) id globals blk rg_Initialized0) as Hp. cbn [w_instances set_objects] in Hp. lia.
Qed.

Lemma Registered_alias w globals endpoints mods budget a n :
  Registered w globals endpoints mods budget -> Registered (set_aliases (<[a := n]> (w_aliases w)) w) globals endpoints mods budget.
Proof. intros []. by split. Qed.
Lemma register_aliases_runs globals endpoints mods budget blk inst als w :
  Registered w globals endpoints mods budget ->
  exists w' err, register_aliases blk inst als w = (w', Done err) /\ Registered w' globals endpoints mods budget /\ w_modules w' = w_modules w /\ w_endpoints w' = w_endpoints w.
Proof.
  revert w. induction als as [|a als IH]; intros w Hw; cbn [register_aliases]; [by eexists w, _|].
  erewrite prog_bind_eq by reflexivity. case_bool_decide; [by eexists w, _|]. erewrite prog_bind_eq by reflexivity.
  by apply (IH (set_aliases (<[a := inst]> (w_aliases w)) w)), Registered_alias.
Qed.
(** A block more: an endpoint, an instance, or an error *)
Lemma register_block_runs w globals endpoints mods budget blk :
  Registered w globals endpoints mods budget -> block_nests w globals blk -> exists w' r, register_block globals blk w = (w', Done r) /\
    match r with
    | Err _ => Inv w'
    | Ok (inl e) => Registered w' globals (endpoints ++ [e]) mods (budget + 1)
    | Ok (inr mi) => Registered w' globals endpoints (mods ++ [mi]) (budget + 1)
    end /\ w_modules w' = w_modules w /\ w_endpoints w' = w_endpoints w.
Proof.
  intros Hw [Hne Hnm]. pose proof (Registered_Inv _ _ _ _ _ Hw) as Hinv. unfold register_block. destruct (block_names blk) as [inst als]. erewrite prog_bind_eq by reflexivity.
  destruct (w_endpoints w !! node_Name blk) as [f|] eqn:Ef.
  - destruct (f (node_Name blk) (node_Args blk)) as [m|e] eqn:Em; [|by eexists w, _].
    erewrite prog_bind_eq by reflexivity. eexists _, _. split; [reflexivity|]. split; [|done]. apply Registered_endpoint; [done|]. by apply (Hne f).
  - erewrite prog_bind_eq by reflexivity. destruct (w_modules w !! node_Name blk) as [f|] eqn:Efm; [|by eexists w, _].
    erewrite prog_bind_eq by reflexivity. case_bool_decide as Hhas; [by eexists w, _|]. cbn [fst snd] in Hnm.
    destruct (f (node_Name blk) inst als []) as [m|e] eqn:Em; [|by eexists w, _].
    pose proof (Registered_instance _ _ _ _ _ m blk Hw (Hnm _ _ eq_refl Em)) as H1.
    erewrite prog_bind_eq by reflexivity. set (id := length (w_objects w)) in *.
    assert (RegisterInstance id globals blk (set_objects (w_objects w ++ [m]) w)
            = (set_instances (<[mod_InstanceName m := (id, (globals, blk))]> (w_instances w)) (set_objects (w_objects w ++ [m]) w), Done tt)) as E1.
    { unfold RegisterInstance. rewrite (prog_bind_eq _ _ _ (set_objects (w_objects w ++ [m]) w) m); [reflexivity|]. unfold object. cbn [w_objects set_objects]. by rewrite list_lookup_middle. }
    rewrite (prog_bind_eq _ _ _ _ _ E1).
    edestruct (register_aliases_runs globals endpoints (mods ++ [mkModInfo id blk]) (budget + 1) blk inst als) as (w2 & err & E2 & H2 & M2 & P2); [exact H1|].
    rewrite (prog_bind_eq _ _ _ _ _ E2). destruct err as [e|]; eexists w2, _; (split; [reflexivity|]); split; try done. by eapply Registered_Inv.
Qed.
Lemma register_blocks_runs globals nodes w endpoints mods budget :
  Registered w globals endpoints mods budget -> Forall (block_nests w globals) nodes -> exists w' r, register_blocks globals nodes endpoints mods w = (w', Done r) /\
    match r with Err _ => Inv w' | Ok (es, ms) => Registered w' globals es ms (budget + length nodes) end.
Proof.
  revert w endpoints mods budget. induction nodes as [|blk nodes IH]; intros w endpoints mods budget Hw Hn; cbn [register_blocks].
  - eexists w, _. split; [done|]. cbn [length]. by rewrite Nat.add_0_r.
  - apply Forall_cons in Hn as [Hb Hn].
    destruct (register_block_runs w globals endpoints mods budget blk Hw Hb) as (w1 & r & E & H1 & M1 & E1). rewrite (prog_bind_eq _ _ _ _ _ E).
    assert (Forall (block_nests w1 globals) nodes) as Hn1 by (unfold block_nests; by rewrite M1, E1).
    cbn [length]. replace (budget + S (length nodes))%nat with (budget + 1 + length nodes)%nat by lia.
    destruct r as [[e|mi]|err]; [..|by eexists w1, _]; by apply IH.
Qed.

(** ** The start and the end *)

Lemma init_endpoints_runs init n globals endpoints w :
  init_ok init n -> Inv w -> NoDup (map mi_Instance endpoints) ->
  (forall e, e ∈ endpoints -> (mi_Instance e < length (w_objects w))%nat /\ mi_Instance e ∉ began w /\ (forall name gb, w_instances w !! name <> Some (mi_Instance e, gb)) /\
     nests_at w (mi_Instance e) globals (mi_Cfg e) D /\ (D + pending w < n)%nat) ->
  exists w' err, init_endpoints init globals endpoints w = (w', Done err) /\ Inv w' /\ w_instances w' = w_instances w /\
    (forall id m, w_objects w !! id = Some m -> w_objects w' !! id = Some m).
Proof.
  intros Hi. revert w. induction endpoints as [|e endpoints IH]; intros w Hw Hnd He; cbn [init_endpoints]; [by exists w, None|].
  destruct (He e ltac:(set_solver)) as (Hlt & Hb & Hni & Hd & Hh).
  destruct (initInlineModule_runs init n w (mi_Instance e) globals (mi_Cfg e) D Hi Hd) as (w1 & err & E & H1 & HE).
  { by apply Inv_begin. } { by intros Hs%(inv_ended _ Hw). } { done. }
  unfold initInlineModule in E. apply prog_bind_Done in E as (w2 & err2 & E2 & E3). rewrite (prog_bind_eq _ _ _ _ _ E2).
  assert (forall id m, w_objects w !! id = Some m -> w_objects w1 !! id = Some m) as Hobj by (intros; by eapply Ext_lookup).
  pose proof (ext_instances _ _ _ HE) as Hins. destruct err2 as [err2|].
  - cbv [mret prog_ret] in E3. simplify_eq. by exists w1, (Some err2).
  - apply prog_bind_Done in E3 as (w3 & [] & E3 & E4). cbv [mret prog_ret] in E4. simplify_eq. rewrite (prog_bind_eq _ _ _ _ _ E3).
    cbn [map] in Hnd. apply NoDup_cons in Hnd as [Hne Hnd].
    destruct (IH w1 H1 Hnd) as (w4 & err & E4 & H4 & I4 & O4).
    + intros e' He'. destruct (He e' ltac:(set_solver)) as (Hlt' & Hb' & Hni' & (m & Em & Hm) & Hh'). pose proof (Ext_length _ _ _ HE). pose proof (Ext_pending _ _ _ HE).
      split; [lia|]. split; [|split; [by rewrite Hins|split; [exists m; split; [auto|by rewrite (ext_modules _ _ _ HE)]|lia]]]. intros [Hx|[Hx|[Hx|(nm & gb & Hx)]]]%(ext_new _ _ _ HE); [done| |lia|by apply (Hni' nm gb)].
      apply list_elem_of_singleton in Hx. apply Hne. rewrite <- Hx. by apply (list_elem_of_fmap_2 mi_Instance).
    + exists w4, err. split_and!; [done..|congruence|auto].
Qed.
Lemma unused_block_runs mods w :
  (forall mi, mi ∈ mods -> exists m, w_objects w !! mi_Instance mi = Some m) ->
  exists err, unused_block mods w = (w, Done err) /\
    (err = None -> forall mi (m : Module), mi ∈ mods -> w_objects w !! mi_Instance mi = Some m -> mod_InstanceName m ∈ w_Initialized w).
Proof.
  induction mods as [|mi mods IH]; intros Hm; cbn [unused_block]; [exists None; split; [done|set_solver]|].
  destruct (Hm mi ltac:(set_solver)) as [m Em]. erewrite prog_bind_eq by (unfold object; by rewrite Em). erewrite prog_bind_eq by reflexivity.
  destruct IH as (err & E & Herr); [intros; apply Hm; set_solver|]. case_bool_decide; [|by eexists (Some _)].
  exists err. split; [done|]. intros He mi' m' [->|?]%elem_of_cons E'; [naive_solver|by eapply Herr].
Qed.
Lemma omap_closed {B} (f : event -> option B) ids : (forall id, f (Closed id) = None) -> omap f (map Closed ids) = [].
Proof. intros Hf. induction ids as [|id ids IH]; [done|]. cbn. by rewrite Hf. Qed.
Lemma RunHooks_closes ids (w : World) :
  w_hooks w !! EventShutdown = Some (map CloseModule ids) \/ (w_hooks w !! EventShutdown = None /\ ids = []) ->
  exists w', RunHooks EventShutdown w = (w', Done tt) /\ w_trace w' = w_trace w ++ map Closed (reverse ids) /\
    w_instances w' = w_instances w /\ w_objects w' = w_objects w.
Proof.
  intros Hh. unfold RunHooks, hooksToRun, gets. erewrite prog_bind_eq by reflexivity.
  assert (default [] (w_hooks w !! EventShutdown) = map CloseModule ids) as -> by (destruct Hh as [->|[-> ->]]; done).
  assert (reverse (map CloseModule ids) = map CloseModule (reverse ids)) as -> by (symmetry; apply (fmap_reverse CloseModule)).
  clear Hh. revert w. induction (reverse ids) as [|id l IH]; intros w; cbn [map for_each].
  - exists w. rewrite app_nil_r. done.
  - erewrite prog_bind_eq by reflexivity. destruct (IH (logged (Closed id) w)) as (w' & E & E1 & E2 & E3). exists w'. split; [done|].
    rewrite E1, E2, E3. cbn [w_trace logged]. rewrite <- app_assoc. done.
Qed.

(** The registries once the factories are registered, with nothing of a configuration *)
Definition fresh (w : World) : Prop :=
  w_objects w = [] /\ w_instances w = ∅ /\ w_aliases w = ∅ /\ w_Initialized w = ∅ /\ w_trace w = [] /\ w_hooks w !! EventShutdown = None.
Lemma fresh_Registered w globals : fresh w -> Registered w globals [] [] 0.
Proof.
  intros (Eo & Ei & Ea & En & Et & Eh). split; try done; rewrite ?Eo, ?Ei, ?Ea; try done.
  - intros mi Hmi. set_solver.
  - constructor.
  - intros e Hx. set_solver.
  - cbn. unfold pending. rewrite Ei, map_to_list_empty. done.
Qed.
Lemma RegisterModules_runs w globals nodes :
  Registered w globals [] [] 0 -> Forall (block_nests w globals) nodes -> exists w' r, RegisterModules globals nodes w = (w', Done r) /\
    match r with Err _ => Inv w' | Ok (es, ms) => Registered w' globals es ms (length nodes) end.
Proof.
  intros Hw Hn. unfold RegisterModules. destruct (register_blocks_runs globals nodes w [] [] 0 Hw Hn) as (w1 & r & E & H1).
  rewrite (prog_bind_eq _ _ _ _ _ E). destruct r as [[[|e es] ms]|err]; eexists w1, _; split; try done. by eapply Registered_Inv.
Qed.

End Facts.

(** ** Modules of the shapes the program has *)

Notation scode := (code (G := unit) (I := unit)).
Definition asks (ns : string) (args : list string) (cfg : Node) (g : unit) : scode :=
  FromNode ns args cfg g tt (fun r => Return (match r with Ok _ => None | Err e => Some e end)).
(** auth.pass_table and modify.replace_rcpt: the inline arguments with the block of the
    module itself, or else what a directive of the block says *)
Definition by_inline_args (ns : string) (inlineArgs : list string) (g : unit) (b : Node) : scode :=
  match inlineArgs, node_Children b with
  | _ :: _, _ => asks ns inlineArgs b g
  | [], Some (c :: _) => asks ns (node_Args c) c g
  | [], _ => Return None
  end.
(** storage.imapsql without msg_store: a default, whatever the block *)
Definition by_default (g : unit) (b : Node) : scode := asks "storage.blob" ["fs"; "messages"] (Config.block "" [] []) g.
(** An endpoint: its directives in turn *)
Fixpoint ask_all (g : unit) (ch : list Node) : scode :=
  match ch with
  | [] => Return None
  | c :: ch => FromNode "" (node_Args c) c g tt (fun r => match r with Ok _ => ask_all g ch | Err e => Return (Some e) end)
  end.
Definition by_directives (g : unit) (b : Node) : scode := ask_all g (default [] (node_Children b)).

Definition factory (init : list string -> unit -> Node -> scode) : FuncNewModule (G := unit) (I := unit) :=
  fun name inst _ args => Ok (mkModule name inst (fun _ => true) (init args) (Some None)).
Definition sample_modules : gmap string (FuncNewModule (G := unit) (I := unit)) :=
  {[ "auth.pass_table" := factory (by_inline_args "table"); "table.static" := factory (fun _ _ _ => Return None);
     "storage.imapsql" := factory (fun _ => by_default); "storage.blob.fs" := factory (fun _ _ _ => Return None);
     "target.queue" := factory (fun _ => by_directives) ]}.
Definition sample_registry : World :=
  mkWorld sample_modules {[ "smtp" := fun name _ => Ok (mkModule name name (fun _ => true) by_directives (Some None)) ]} [] ∅ ∅ ∅ ∅ [].
Definition sample_config : list Node :=
  [Config.block "target.queue" ["local"] [Config.directive "target" ["&remote"]];
   Config.block "target.queue" ["remote"] [Config.directive "bounce" ["&local"]];
   Config.block "storage.imapsql" ["store"] [];
   Config.block "smtp" ["tcp://0.0.0.0:25"]
     [Config.directive "deliver_to" ["&local"]; Config.directive "storage" ["&store"];
      Config.block "auth" ["auth.pass_table"; "auth.pass_table"] [Config.directive "table" ["table.static"]]]].

(** The arguments inside a block, and those a module is given: what an inline request uses
    up.  The modules that ask for nothing have rank zero. *)
Fixpoint arg_count (n : Node) : nat :=
  S (length (node_Args n) + match node_Children n with Some ch => foldr (fun c k => (arg_count c + k)%nat) O ch | None => O end).
Definition below_count (b : Node) : nat := match node_Children b with Some ch => foldr (fun c k => (arg_count c + k)%nat) O ch | None => O end.
Lemma arg_count_eq n : arg_count n = S (length (node_Args n) + below_count n).
Proof. by destruct n. Qed.
Definition leaf (name : string) : bool := bool_decide (name = "table.static" \/ name = "storage.blob.fs").
Definition sample_rank (name : string) (args : list string) (b : Node) : nat := if leaf name then O else S (length args + below_count b).
Lemma sample_rank_le name args b : (sample_rank name args b <= S (length args + below_count b))%nat.
Proof. unfold sample_rank. destruct (leaf name); lia. Qed.

Notation below := (asks_below sample_modules sample_rank).
(** A request uses up an argument, or is for what a directive of the block says. *)
Lemma asks_args_below ns args cfg g h : (length args + below_count cfg < h)%nat -> below h (asks ns args cfg g).
Proof.
  intros Hh. cbn. split; [|by intros [?|?]]. destruct args as [|name rest]; [done|]. right. intros key ext f _.
  pose proof (sample_rank_le key rest cfg). cbn in Hh. lia.
Qed.
Lemma ask_all_below g ch h : (foldr (fun c k => (arg_count c + k)%nat) O ch < S h)%nat -> below h (ask_all g ch).
Proof.
  induction ch as [|c ch IH]; intros Hh; [done|]. cbn [foldr] in Hh. rewrite arg_count_eq in Hh. cbn. split.
  - destruct (node_Args c) as [|name rest]; [done|]. right. intros key ext f _. pose proof (sample_rank_le key rest c). cbn in Hh. lia.
  - intros [?|?]; [apply IH; lia|done].
Qed.
Lemma by_directives_below g b h : (below_count b < S h)%nat -> below h (by_directives g b).
Proof. unfold by_directives, below_count. intros Hh. apply ask_all_below. destruct (node_Children b); cbn in *; lia. Qed.

Lemma first_child b c ch : node_Children b = Some (c :: ch) -> (length (node_Args c) + below_count c < below_count b)%nat.
Proof. intros E. unfold below_count at 2. rewrite E. cbn [foldr]. rewrite arg_count_eq. lia. Qed.
Lemma sample_goes_down : goes_down sample_modules sample_rank.
Proof.
  intros name f a inst al args m g b Hf Hm. unfold sample_modules in Hf.
  repeat match goal with
         | H : (<[_ := _]> _) !! _ = Some _ |- _ => apply lookup_insert_Some in H as [[<- <-]|[_ H]]
         | H : {[_ := _]} !! _ = Some _ |- _ => apply lookup_singleton_Some in H as [<- <-]
         end; injection Hm as <-; cbn [mod_Init].
  - unfold by_inline_args, sample_rank. cbn [leaf]. destruct args as [|x args].
    + destruct (node_Children b) as [[|c ch]|] eqn:E; [done| |done]. apply asks_args_below.
      change (leaf "auth.pass_table") with false. pose proof (first_child b c ch E). cbn. lia.
    + apply asks_args_below. change (leaf "auth.pass_table") with false. cbn. lia.
  - done.
  - change (sample_rank "storage.imapsql" args b) with (S (length args + below_count b)). cbn. split; [|by intros [?|?]]. right.
    intros key ext f Hf. vm_compute in Hf. injection Hf as <- _ _. change (sample_rank "storage.blob.fs" _ _) with O. lia.
  - done.
  - change (sample_rank "target.queue" args b) with (S (length args + below_count b)). apply by_directives_below. lia.
Qed.

Definition sample_main : Prog (World (G := unit) (I := unit)) error :=
  moduleMain (fun _ => "module.DeliveryTarget") (fun _ => true) (enough_fuel 10 sample_config) tt sample_config.
Lemma sample_nests : Forall (block_nests 10 sample_registry tt) sample_config.
Proof.
  assert (forall h c, (h <= 10)%nat -> below h c -> nests sample_modules 10 c) as Hr.
  { intros h c Hh Hc. apply (rank_nests _ sample_rank); [exact sample_goes_down|]. by eapply asks_below_mono. }
  assert (forall b, (below_count b <=? 9)%nat = true -> nests sample_modules 10 (by_directives tt b)) as Hd.
  { intros b Hb%Nat.leb_le. apply (Hr 9%nat); [lia|]. apply by_directives_below. lia. }
  repeat (apply Forall_cons; split); try apply Forall_nil; split; intros f m Hf Hm; vm_compute in Hf; simplify_eq; try (injection Hm as <-).
  - exact (Hd (nth 0 sample_config (Config.block "" [] [])) eq_refl).
  - exact (Hd (nth 1 sample_config (Config.block "" [] [])) eq_refl).
  - apply (Hr 1%nat (by_default tt (Config.block "storage.imapsql" ["store"] []))); [lia|].
    by apply (sample_goes_down "storage.imapsql" (factory (fun _ => by_default)) "" "" [] [] (mkModule "" "" (fun _ => true) by_default (Some None)) tt (Config.block "storage.imapsql" ["store"] [])).
  - exact (Hd (nth 3 sample_config (Config.block "" [] [])) eq_refl).
Qed.
(** The endpoint (3) starts local (0), which starts remote (1), which finds local already
    started; then the store (2) with its blob store (4), and the tables of its
    authentication (5, 6, 7).  They are closed from the last to finish down. *)
Example lifecycle :
  let w := (sample_main sample_registry).1 in
  (sample_main sample_registry).2 = Done None /\
  w_trace w = [Began 3; Began 0; Began 1; Ended 1 None; Ended 0 None; Began 2; Began 4; Ended 4 None; Ended 2 None;
               Began 5; Began 6; Began 7; Ended 7 None; Ended 6 None; Ended 5 None; Ended 3 None;
               Closed 3; Closed 5; Closed 6; Closed 7; Closed 2; Closed 4; Closed 0; Closed 1].
Proof. vm_compute. split; reflexivity. Qed.

(** A module that does not keep the name of its block, as table.static, is registered under
    the name of its kind: a second one takes the place of the first, and a reference to
    either by its name fails. *)
Definition misnamed : FuncNewModule (G := unit) (I := unit) := fun name _ _ _ => Ok (mkModule name name (fun _ => true) (fun _ _ => Return None) None).
Example misnamed_instances :
  let w := (RegisterModules tt [Config.block "table.static" ["a"] []; Config.block "table.static" ["b"] []; Config.block "smtp" [] []]
    (mkWorld {[ "table.static" := misnamed ]} {[ "smtp" := fun name _ => Ok (mkModule name name (fun _ => true) by_directives None) ]} [] ∅ ∅ ∅ ∅ [])).1 in
  (fst <$> w_instances w !! "table.static") = Some 1%nat /\ w_instances w !! "a" = None /\ w_instances w !! "b" = None.
Proof. vm_compute. done. Qed.
