(* ===== verification/ConfigLexer.v ===== *)
(** * ConfigLexer: framework/config/lexer

    The lexer of configuration files (lexer.go, parse.go) and the dispenser of its
    tokens (dispenser.go).  The input is the list of runes a bufio.Reader decodes;
    a reader that fails is one whose error is not io.EOF. *)
From S2P Require Import Prelude GoStr ExtErrors.
From stdpp Require Import pretty.
From Stdlib Require Import Ascii.

Local Open Scope Z_scope.

Record Token := mkToken { tk_File : string; tk_Line : Z; tk_Text : string }.
Global Instance Token_eq_dec : EqDecision Token.
Proof. solve_decision. Defined.

Definition ch_quote : Z := 34.
Definition ch_backslash : Z := 92.
Definition ch_hash : Z := 35.
Definition ch_lf : Z := 10.
Definition ch_cr : Z := 13.

Section Lexer.
Context `{UnicodeTables}.

(** next: the token, the rest of the input and the line reached; [None] at the end
    of the input.  [tline] is the line of the token begun, [val] its runes. *)
Fixpoint next (input : list Z) (line tline : Z) (val : list Z) (comment quoted escaped : bool)
  : option (Token * list Z * Z) :=
  match input with
  | [] => match val with
          | [] => None
          | _ => Some (mkToken "" tline (string_of_runes val), [], line)
          end
  | ch :: input =>
    if quoted then
      if negb escaped && (ch =? ch_backslash) then next input line tline val comment true true
      else if negb escaped && (ch =? ch_quote) then Some (mkToken "" tline (string_of_runes val), input, line)
      else
        let line := if ch =? ch_lf then line + 1 else line in
        let val := if escaped && negb (ch =? ch_quote) then val ++ [ch_backslash] else val in
        next input line tline (val ++ [ch]) comment true false
    else if IsSpace ch then
      if ch =? ch_cr then next input line tline val comment quoted escaped
      else
        let line := if ch =? ch_lf then line + 1 else line in
        let comment := if ch =? ch_lf then false else comment in
        match val with
        | [] => next input line tline val comment quoted escaped
        | _ => Some (mkToken "" tline (string_of_runes val), input, line)
        end
    else
      let comment := if ch =? ch_hash then true else comment in
      if comment then next input line tline val comment quoted escaped
      else
        match val with
        | [] =>
          if ch =? ch_quote then next input line line val comment true escaped
          else next input line line [ch] comment quoted escaped
        | _ => next input line tline (val ++ [ch]) comment quoted escaped
        end
  end.

Definition next_token (input : list Z) (line : Z) := next input line 0 [] false false false.

(** The loop of allTokens. *)
Fixpoint tokens_loop (fuel : nat) (input : list Z) (line : Z) : list Token :=
  match fuel with
  | O => []
  | S fuel =>
    match next_token input line with
    | Some (tok, input, line) => tok :: tokens_loop fuel input line
    | None => []
    end
  end.

(** load: a leading byte order mark is discarded. *)
Definition load (input : list Z) : list Z :=
  match input with
  | ch :: rest => if ch =? 65279 then rest else input
  | [] => []
  end.

(** allTokens of a reader that ends with [err] instead of io.EOF, if any; load
    fails at once on an empty input. *)
Definition allTokens (input : string) (err : error) : Result gerror (list Token) :=
  match err, runes input with
  | Some e, _ => Err e
  | None, [] => Err (ENew "EOF")
  | None, rs => let rs := load rs in Ok (tokens_loop (S (length rs)) rs 1)
  end.

(** ** Every call of next consumes input, so the fuel of allTokens is enough *)

Lemma next_shorter input line tline val c q e tok rest line' :
  next input line tline val c q e = Some (tok, rest, line') ->
  (length rest < length input)%nat \/ (input = [] /\ rest = [] /\ val <> []).
Proof.
  revert line tline val c q e. induction input as [|ch input IH]; intros line tline val c q e E; simpl in *.
  - destruct val; simplify_eq. by right.
  - left. repeat case_match; simplify_eq/=; try lia;
      (match goal with Hn : next _ _ _ _ _ _ _ = _ |- _ => apply IH in Hn as [?|(-> & -> & _)] end; simpl; lia).
Qed.

Lemma next_token_shorter input line tok rest line' :
  next_token input line = Some (tok, rest, line') -> (length rest < length input)%nat.
Proof. intros [?|(_ & _ & ?)]%next_shorter; done. Qed.

Lemma tokens_loop_fuel n m input line :
  (length input < n)%nat -> (length input < m)%nat -> tokens_loop n input line = tokens_loop m input line.
Proof.
  revert m input line. induction n as [|n IH]; intros m input line Hn Hm; [lia|]. destruct m as [|m]; [lia|].
  simpl. destruct (next_token input line) as [[[tok rest] line']|] eqn:E; [|done].
  apply next_token_shorter in E. f_equal. apply IH; lia.
Qed.
End Lexer.

(** ** Dispenser *)

Record Dispenser := mkDispenser { dp_filename : string; dp_tokens : list Token; dp_cursor : Z; dp_nesting : Z }.

Definition set_cursor (c : Z) (d : Dispenser) : Dispenser :=
  mkDispenser (dp_filename d) (dp_tokens d) c (dp_nesting d).
Definition advance (d : Dispenser) : Dispenser := set_cursor (dp_cursor d + 1) d.

(** NewDispenser ignores the error of the reader. *)
Definition NewDispenserTokens (filename : string) (tokens : list Token) : Dispenser :=
  mkDispenser filename tokens (-1) 0.
Definition NewDispenser `{UnicodeTables} (filename : string) (input : string) (err : error) : Dispenser :=
  mkDispenser filename (match allTokens input err with Ok tokens => tokens | Err _ => [] end) (-1) 0.

Definition ntokens (d : Dispenser) : Z := Z.of_nat (length (dp_tokens d)).
(** The token at an index that is known to be within bounds. *)
Definition token_at (d : Dispenser) (i : Z) : Token :=
  default (mkToken "" 0 "") (dp_tokens d !! Z.to_nat i).
Definition loaded (d : Dispenser) : bool := (0 <=? dp_cursor d) && (dp_cursor d <? ntokens d).

(** strings.Count of a line feed *)
Fixpoint count_lf (s : string) : Z :=
  match s with
  | EmptyString => 0
  | String a s => (if byte_of a =? ch_lf then 1 else 0) + count_lf s
  end.
Definition numLineBreaks (d : Dispenser) (tknIdx : Z) : Z :=
  if (tknIdx <? 0) || (ntokens d <=? tknIdx) then 0 else count_lf (tk_Text (token_at d tknIdx)).

Definition Next (d : Dispenser) : bool * Dispenser :=
  if dp_cursor d <? ntokens d - 1 then (true, advance d) else (false, d).

(** Whether the token after the cursor continues the line of the one at it. *)
Definition same_line (d : Dispenser) : bool :=
  bool_decide (tk_File (token_at d (dp_cursor d)) = tk_File (token_at d (dp_cursor d + 1))) &&
  (tk_Line (token_at d (dp_cursor d)) + numLineBreaks d (dp_cursor d) =? tk_Line (token_at d (dp_cursor d + 1))).
Definition new_line (d : Dispenser) : bool :=
  negb (bool_decide (tk_File (token_at d (dp_cursor d)) = tk_File (token_at d (dp_cursor d + 1)))) ||
  (tk_Line (token_at d (dp_cursor d)) + numLineBreaks d (dp_cursor d) <? tk_Line (token_at d (dp_cursor d + 1))).

Definition NextArg (d : Dispenser) : bool * Dispenser :=
  if dp_cursor d <? 0 then (true, advance d)
  else if ntokens d <=? dp_cursor d then (false, d)
  else if (dp_cursor d <? ntokens d - 1) && same_line d then (true, advance d)
  else (false, d).

Definition NextLine (d : Dispenser) : bool * Dispenser :=
  if dp_cursor d <? 0 then (true, advance d)
  else if ntokens d <=? dp_cursor d then (false, d)
  else if (dp_cursor d <? ntokens d - 1) && new_line d then (true, advance d)
  else (false, d).

Definition Val (d : Dispenser) : string := if loaded d then tk_Text (token_at d (dp_cursor d)) else "".
Definition Line (d : Dispenser) : Z := if loaded d then tk_Line (token_at d (dp_cursor d)) else 0.
Definition File (d : Dispenser) : string :=
  if loaded d then
    let f := tk_File (token_at d (dp_cursor d)) in if decide (f = "") then dp_filename d else f
  else dp_filename d.

(** NextBlock: into a block, or to its next token; nested blocks are not supported. *)
Definition set_nesting (n : Z) (d : Dispenser) : Dispenser :=
  mkDispenser (dp_filename d) (dp_tokens d) (dp_cursor d) n.
Definition NextBlock (d : Dispenser) : bool * Dispenser :=
  if 0 <? dp_nesting d then
    let d := (Next d).2 in
    if decide (Val d = "}") then (false, set_nesting (dp_nesting d - 1) d) else (true, d)
  else
    let '(ok, d) := NextArg d in
    if negb ok then (false, d)
    else if negb (bool_decide (Val d = "{")) then (false, set_cursor (dp_cursor d - 1) d)
    else
      let d := (Next d).2 in
      if decide (Val d = "}") then (false, d) else (true, set_nesting (dp_nesting d + 1) d).

(** RemainingArgs, for as many tokens as there are. *)
Fixpoint remaining_args (fuel : nat) (d : Dispenser) (args : list string) : list string * Dispenser :=
  match fuel with
  | O => (args, d)
  | S fuel =>
    let '(ok, d1) := NextArg d in
    if negb ok then (args, d1)
    else if decide (Val d1 = "{") then (args, set_cursor (dp_cursor d1 - 1) d1)
    else remaining_args fuel d1 (args ++ [Val d1])
  end.
Definition RemainingArgs (d : Dispenser) : list string * Dispenser :=
  remaining_args (S (length (dp_tokens d))) d [].

(** Args: the targets set, and whether there were enough arguments. *)
Fixpoint dp_Args (n : nat) (d : Dispenser) : list string * bool * Dispenser :=
  match n with
  | O => ([], true, d)
  | S n =>
    let '(ok, d) := NextArg d in
    if negb ok then ([], false, d)
    else let '(args, enough, d') := dp_Args n d in (Val d :: args, enough, d')
  end.

Definition dp_Err (d : Dispenser) (msg : string) : gerror :=
  ENew (File d +:+ ":" +:+ pretty (Line d) +:+ " - Error during parsing: " +:+ msg).
Definition SyntaxErr (d : Dispenser) (expected : string) : gerror :=
  ENew (File d +:+ ":" +:+ pretty (Line d) +:+ " - Syntax error: Unexpected token '" +:+ Val d +:+
        "', expecting '" +:+ expected +:+ "'").
Definition ArgErr (d : Dispenser) : gerror :=
  if decide (Val d = "{") then dp_Err d "Unexpected token '{', expecting argument"
  else dp_Err d ("Wrong argument count or unexpected line ending after '" +:+ Val d +:+ "'").
Definition EOFErr (d : Dispenser) : gerror := dp_Err d "Unexpected EOF".

(** ** Examples, from the tests of the package *)

Definition texts `{UnicodeTables} (s : string) : list (Z * string) :=
  match allTokens s None with Ok l => map (fun t => (tk_Line t, tk_Text t)) l | Err _ => [] end.
#[local] Existing Instance ascii_tables.
Definition lf_str : string := String (of_byte 10) EmptyString.
Definition quote_str : string := String (of_byte 34) EmptyString.

Example lex_block :
  texts ("host:123 {" +:+ lf_str +:+ "#comment" +:+ lf_str +:+ "directive # c" +:+ lf_str +:+ "}")
  = [(1, "host:123"); (1, "{"); (3, "directive"); (4, "}")].
Proof. vm_compute. reflexivity. Qed.
Example lex_quoted :
  texts ("A " +:+ quote_str +:+ "q \" +:+ quote_str +:+ "v\" +:+ quote_str +:+ " i\n" +:+ quote_str +:+ " B")
  = [(1, "A"); (1, "q " +:+ quote_str +:+ "v" +:+ quote_str +:+ " i\n"); (1, "B")].
Proof. vm_compute. reflexivity. Qed.

(** A comment that begins inside a word ends at the next blank, not at the end of
    the line. *)
Example comment_in_word : texts "a#b c" = [(1, "a"); (1, "c")].
Proof. vm_compute. reflexivity. Qed.
