(* ===== verification/ConfigParser.v ===== *)
(** * ConfigParser: framework/cfgparser

    The parser of configuration files: nodes and blocks (parse.go), macros,
    snippets and imports (imports.go), environment variables (env.go).  The parser
    is a state monad over parseContext; a run ends with a value, an error, a Go
    panic, or, because the loops of the source run on fuel here, out of fuel.

    The nodes that Read returns next to an error are left out: no caller looks at
    them. *)
From S2P Require Import Prelude GoStr GoText ExtErrors Config ConfigLexer.
From stdpp Require Import gmap pretty.
From Stdlib Require Import Ascii ZifyBool.

Local Open Scope Z_scope.

(** ** The part of path/filepath that imports use, on Unix *)

Definition slash : ascii := of_byte 47.
Definition IsAbs (path : string) : bool := HasPrefix path "/".

Definition clean_step (rooted : bool) (out : list string) (comp : string) : list string :=
  if decide (comp = "" \/ comp = ".") then out
  else if decide (comp = "..") then
    match out with
    | top :: out' => if decide (top = "..") then comp :: out else out'
    | [] => if rooted then [] else [comp]
    end
  else comp :: out.
Definition Clean (path : string) : string :=
  let rooted := IsAbs path in
  let out := JoinByte (reverse (fold_left (clean_step rooted) (SplitByte path slash) [])) slash in
  if rooted then "/" +:+ out else if decide (out = "") then "." else out.
Definition Dir (path : string) : string :=
  Clean (match LastIndexByte path slash with Some i => str_take (S i) path | None => "" end).
(** Join of two elements *)
Definition Join (a b : string) : string :=
  if decide (a = "") then if decide (b = "") then "" else Clean b
  else Clean (a +:+ "/" +:+ b).

(** ** The strings and regexp functions *)

(** Where [p] then [^$]+ then [close] matches at the start of [s]: the text of the
    group, which is greedy. *)
Fixpoint until_dollar (s : string) : string :=
  match s with
  | EmptyString => EmptyString
  | String a s => if byte_of a =? 36 then EmptyString else String a (until_dollar s)
  end.
Definition group_at (p : string) (close : ascii) (s : string) : option string :=
  if HasPrefix s p then
    let run := until_dollar (str_drop (String.length p) s) in
    match LastIndexByte run close with
    | Some (S i) => Some (str_take (S i) run)
    | _ => None
    end
  else None.

(** FindAllStringSubmatch: the groups of the successive matches.  [skip] counts
    the bytes of the last match still to go over. *)
Fixpoint find_groups (p : string) (close : ascii) (s : string) (skip : nat) : list string :=
  match s with
  | EmptyString => []
  | String _ s' =>
    match skip with
    | S skip => find_groups p close s' skip
    | O =>
      match group_at p close s with
      | Some g => g :: find_groups p close s' (String.length p + String.length g)
      | None => find_groups p close s' O
      end
    end
  end.
(** ReplaceAllString of the matches by the empty string *)
Fixpoint remove_matches (p : string) (close : ascii) (s : string) (skip : nat) : string :=
  match s with
  | EmptyString => EmptyString
  | String a s' =>
    match skip with
    | S skip => remove_matches p close s' skip
    | O =>
      match group_at p close s with
      | Some g => remove_matches p close s' (String.length p + String.length g)
      | None => String a (remove_matches p close s' O)
      end
    end
  end.

(** ** State *)

Record parseContext := mkCtx {
  pc_disp : Dispenser;
  pc_nesting : Z;
  pc_snippets : gmap string (list Node);
  pc_macros : gmap string (list string);
  pc_fileLocation : string
}.

Definition set_disp (d : Dispenser) (c : parseContext) : parseContext :=
  mkCtx d (pc_nesting c) (pc_snippets c) (pc_macros c) (pc_fileLocation c).
Definition add_nesting (n : Z) (c : parseContext) : parseContext :=
  mkCtx (pc_disp c) (pc_nesting c + n) (pc_snippets c) (pc_macros c) (pc_fileLocation c).
Definition set_snippets (s : gmap string (list Node)) (c : parseContext) : parseContext :=
  mkCtx (pc_disp c) (pc_nesting c) s (pc_macros c) (pc_fileLocation c).
Definition set_macros (m : gmap string (list string)) (c : parseContext) : parseContext :=
  mkCtx (pc_disp c) (pc_nesting c) (pc_snippets c) m (pc_fileLocation c).

Inductive Parsed (A : Type) : Type :=
| POk (a : A)
| PErr (e : gerror)
| PPanic (why : string)
| PFuel.
Global Arguments POk {_} _.
Global Arguments PErr {_} _.
Global Arguments PPanic {_} _.
Global Arguments PFuel {_}.

Definition Parser (A : Type) : Type := parseContext -> Parsed (A * parseContext).

Global Instance parser_ret : MRet Parser := fun A a c => POk (a, c).
Global Instance parser_bind : MBind Parser := fun A B f p c =>
  match p c with
  | POk (a, c) => f a c
  | PErr e => PErr e
  | PPanic w => PPanic w
  | PFuel => PFuel
  end.

Definition p_gets {A} (f : parseContext -> A) : Parser A := fun c => POk (f c, c).
Definition p_modify (f : parseContext -> parseContext) : Parser unit := fun c => POk (tt, f c).
Definition p_fail {A} (f : Dispenser -> gerror) : Parser A := fun c => PErr (f (pc_disp c)).
Definition p_panic {A} (why : string) : Parser A := fun _ => PPanic why.
Definition p_fuel {A} : Parser A := fun _ => PFuel.
(** ctx.Err *)
Definition ctx_Err {A} (msg : string) : Parser A := p_fail (fun d => dp_Err d msg).
(** A dispenser's operation on the cursor *)
Definition p_move (f : Dispenser -> bool * Dispenser) : Parser bool := fun c =>
  POk ((f (pc_disp c)).1, set_disp (f (pc_disp c)).2 c).
Definition p_Val : Parser string := p_gets (fun c => Val (pc_disp c)).

Fixpoint p_map {A B} (f : A -> Parser B) (l : list A) : Parser (list B) :=
  match l with
  | [] => mret []
  | a :: l => b ← f a; l ← p_map f l; mret (b :: l)
  end.

(** ** Names *)

Section Parser.
Context `{UnicodeTables}.

(** validateNodeName: the error text, if any. *)
Definition allowedPunct (ch : Z) : bool := (ch =? 46) || (ch =? 45) || (ch =? 95).
Definition name_rune (ch : Z) : bool := IsLetter ch || IsDigit ch || allowedPunct ch.
Definition validateNodeName (s : string) : error :=
  match runes s with
  | [] => Some (ENew "empty directive name")
  | (ch :: _) as rs =>
    if IsDigit ch then Some (ENew "directive name cannot start with a digit")
    else
      match list_find (fun ch => name_rune ch = false) rs with
      | Some (_, ch) => Some (ENew ("character not allowed in directive name: " +:+ string_of_runes [ch]))
      | None => None
      end
  end.

(** s[from : len(s)-1] *)
Definition inside (from : nat) (s : string) : string :=
  str_take (String.length s - 1 - from) (str_drop from s).

Definition isSnippet (name : string) : option string :=
  if HasPrefix name "(" && HasSuffix name ")" then Some (inside 1 name) else None.

(** parseAsMacro: [None] for a node that declares no macro. *)
Definition parseAsMacro (name : string) (args : list string) : Parser (option (string * list string)) :=
  if negb (HasPrefix name "$(") then mret None
  else if negb (HasSuffix name ")") then ctx_Err "macro name must end with )"
  else match args with
       | eq :: ((_ :: _) as rest) =>
         if decide (eq = "=") then
           mret (if decide (inside 2 name = "") then None else Some (inside 2 name, rest))
         else ctx_Err "missing = in macro declaration"
       | _ => ctx_Err "at least 2 arguments are required"
       end.

(** ** Macros *)

(** The loop of expandSingleValueMacro over the names it found. *)
Fixpoint single_values (names : list string) (arg : string) : Parser string :=
  match names with
  | [] => mret arg
  | name :: names =>
    value ← (fun c =>
      match pc_macros c !! name with
      | Some (_ :: _ :: _) =>
        ctx_Err "can't expand macro with multiple arguments inside a string" c
      | Some [value] => POk (value, c)
      | Some [] => p_panic "index out of range [0] with length 0" c
      | None => POk ("", c)
      end);
    single_values names (Replace_all arg ("$(" +:+ name +:+ ")") value)
  end.
Definition expandSingleValueMacro (arg : string) : Parser string :=
  single_values (find_groups "$(" (of_byte 41) arg O) arg.

(** One argument's contribution to newArgs *)
Definition expand_arg (arg : string) : Parser (list string) :=
  if negb (HasPrefix arg "$(") || negb (HasSuffix arg ")") then
    if Contains arg "$(" && Contains arg ")" then arg ← expandSingleValueMacro arg; mret [arg]
    else mret [arg]
  else p_gets (fun c => default [] (pc_macros c !! inside 2 arg)).

Fixpoint expandMacros (node : Node) : Parser Node :=
  let 'mkNode name args ch snippet macro file line := node in
  if HasPrefix name "$(" && HasSuffix name ")" then ctx_Err "can't use macro argument as directive name"
  else
    args ← p_map expand_arg args;
    ch ← match ch with
         | None => mret None
         | Some l => l ← p_map expandMacros l; mret (Some l)
         end;
    mret (mkNode name (concat args) ch snippet macro file line).

(** ** Nodes *)

(** The end of one round of readNode's outer loop: a last argument that is a
    backslash is dropped and the node goes on on the next line. *)
Definition after_args (args_loop : list string -> option (list Node) -> bool -> Parser (list string * option (list Node)))
    (args : list string) (ch : option (list Node)) : Parser (list string * option (list Node)) :=
  match last args with
  | Some "\"%string => args_loop (removelast args) ch true
  | _ => mret (args, ch)
  end.

Definition readNode (args_loop : list string -> option (list Node) -> bool -> Parser (list string * option (list Node)))
    : Parser Node :=
  file ← p_gets (fun c => File (pc_disp c));
  line ← p_gets (fun c => Line (pc_disp c));
  v ← p_Val;
  if decide (v = "{") then p_fail (fun d => SyntaxErr d "block header")
  else
    let '(name, snippet) := match isSnippet v with Some name => (name, true) | None => (v, false) end in
    '(args, ch) ← args_loop [] None false;
    macro ← parseAsMacro name args;
    match macro with
    | Some (name, args) => mret (mkNode name args ch snippet true file line)
    | None =>
      match (if snippet then None else validateNodeName name) with
      | Some e => p_fail (fun _ => e)
      | None => mret (mkNode name args ch snippet false file line)
      end
    end.

(** The start of readNodes *)
Definition readNodes (nodes_loop : bool -> list Node -> Parser (list Node)) : Parser (list Node) :=
  n ← p_gets pc_nesting;
  if 255 <? n then ctx_Err "nesting limit reached"
  else p_modify (add_nesting 1) ;; nodes_loop false [].

(** Whether a round of readNodes' loop has a token to look at. *)
Definition next_node (requireNewLine : bool) : Parser bool :=
  if requireNewLine then
    ok ← p_move NextLine;
    if (ok : bool) then mret true
    else
      ok ← p_move Next;
      if (ok : bool) then ctx_Err "newline is required after closing brace" else mret false
  else p_move Next.

(** A closing brace: nesting is decremented, and must not fall below the root. *)
Definition close_block : Parser unit :=
  p_modify (add_nesting (-1)) ;;
  n ← p_gets pc_nesting;
  if n <? 0 then ctx_Err "unexpected }" else mret tt.

(** The closing brace as last argument of the last node of a block *)
Definition trailing_brace (node : Node) : Parser (Node * bool) :=
  match last (node_Args node) with
  | Some "}"%string =>
    close_block ;;
    mret (mkNode (node_Name node) (removelast (node_Args node)) (node_Children node) (node_Snippet node)
            (node_Macro node) (node_File node) (node_Line node), true)
  | _ => mret (node, false)
  end.

(** Macro and snippet declarations: only at top level. *)
Definition declare (node : Node) : Parser unit :=
  n ← p_gets pc_nesting;
  if node_Macro node then
    if decide (n = 0) then
      node ← expandMacros node;
      p_modify (fun c => set_macros (<[node_Name node := node_Args node]> (pc_macros c)) c)
    else ctx_Err "macro declarations are only allowed at top-level"
  else
    if decide (n = 0) then
      match node_Args node with
      | [] => p_modify (fun c => set_snippets (<[node_Name node := children node]> (pc_snippets c)) c)
      | _ => ctx_Err "snippet declarations can't have arguments"
      end
    else ctx_Err "snippet declarations are only allowed at top-level".

(** The loops of readNode (over the arguments) and readNodes (over the nodes). *)
Fixpoint args_loop (fuel : nat) (args : list string) (ch : option (list Node)) (continueOnLF : bool)
  : Parser (list string * option (list Node)) :=
  match fuel with
  | O => p_fuel
  | S fuel =>
    ok ← p_move NextArg;
    ok ← (if (ok : bool) then mret true else if continueOnLF then p_move NextLine else mret false);
    if (ok : bool) then
      v ← p_Val;
      if decide (v = "{") then
        ch ← readNodes (nodes_loop fuel);
        after_args (args_loop fuel) args (Some ch)
      else args_loop fuel (args ++ [v]) ch false
    else after_args (args_loop fuel) args ch
  end
with nodes_loop (fuel : nat) (requireNewLine : bool) (res : list Node) : Parser (list Node) :=
  match fuel with
  | O => p_fuel
  | S fuel =>
    more ← next_node requireNewLine;
    if negb more then mret res
    else
      v ← p_Val;
      if decide (v = "}") then close_block ;; mret res
      else
        node ← readNode (args_loop fuel);
        node_stop ← trailing_brace node;
      let node := node_stop.1 in
        if node_Macro node || node_Snippet node then
          declare node ;; nodes_loop fuel true res
        else
          node ← expandMacros node;
          if (node_stop.2 : bool) then mret (res ++ [node]) else nodes_loop fuel true (res ++ [node])
  end.

(** Fuel that is enough for the tokens of a dispenser (readNodes_total). *)
Definition parse_fuel (d : Dispenser) : nat := 3 * S (length (dp_tokens d)) + 1.

(** ** Imports *)

(** os.Open of a file and what reading it gives *)
Inductive Opened :=
| OpenOk (content : string) (err : error)
| OpenNotExist
| OpenErr (e : gerror).

Definition with_children (l : list Node) (node : Node) : Node :=
  mkNode (node_Name node) (node_Args node) (Some l) (node_Snippet node) (node_Macro node) (node_File node) (node_Line node).

Section Imports.
Context (os_Open : string -> Opened).

Definition resolveImport (read : string -> string -> error -> Parsed (list Node * parseContext))
    (node : Node) (name : string) : Parser (list Node) := fun c =>
  match pc_snippets c !! name with
  | Some subtree => POk (subtree, c)
  | None =>
    let file := if IsAbs name then name else Join (Dir (pc_fileLocation c)) name in
    let parse content err :=
      match read file content err with
      | POk (nodes, sub) =>
        POk (nodes, set_macros (pc_macros sub ∪ pc_macros c) (set_snippets (pc_snippets sub ∪ pc_snippets c) c))
      | PErr e => PErr e
      | PPanic w => PPanic w
      | PFuel => PFuel
      end in
    match os_Open file with
    | OpenOk content err => parse content err
    | OpenErr e => PErr e
    | OpenNotExist =>
      match os_Open (file +:+ ".conf") with
      | OpenOk content err => parse content err
      | OpenErr e => PErr e
      | OpenNotExist => PErr (NodeErr node ("unknown import: " +:+ name))
      end
    end
  end.

(** expandImports beyond the limit on the depth: every import is an error. *)
Fixpoint expand_deep (node : Node) : Parser Node :=
  let 'mkNode name args ch snippet macro file line := node in
  match ch with
  | None => mret node
  | Some l =>
    l ← p_map (fun child =>
      child ← expand_deep child;
      if decide (node_Name child = "import") then p_fail (fun _ => NodeErr child "hit import expansion limit")
      else mret child) l;
    mret (mkNode name args (Some l) snippet macro file line)
  end.

(** readTree, with the expansion of imports at the depth of the call *)
Definition readTree (expand : Node -> Parser Node) (location content : string) (err : error)
    : Parsed (list Node * parseContext) :=
  let d := NewDispenser location content err in
  (nodes ← readNodes (nodes_loop (parse_fuel d));
   n ← p_gets pc_nesting;
   if 0 <? n then ctx_Err "unexpected EOF when looking for }"
   else
     root ← expand (mkNode "" [] (Some nodes) false false location 1);
     mret (children root)) (mkCtx d (-1) ∅ ∅ location).

(** expandImports at expansion depth 256 - [k]. *)
Fixpoint expandImports (k : nat) (node : Node) : Parser Node :=
  match k with
  | O => expand_deep node
  | S k =>
    match node_Children node with
    | None => mret node
    | Some l =>
      subtrees ← p_map (fun child =>
        child ← expandImports k child;
        if decide (node_Name child = "import") then
          match node_Args child with
          | [name] => l ← resolveImport (readTree (expandImports k)) child name; mret (true, l)
          | _ => ctx_Err "import directive requires exactly 1 argument"
          end
        else mret (false, [child])) l;
      let node := with_children (concat (map snd subtrees)) node in
      if existsb fst subtrees then expandImports k node else mret node
    end
  end.

(** ** Environment variables *)

(** strings.SplitN (entry, "=", 2) *)
Fixpoint cut_eq (s : string) : option (string * string) :=
  match s with
  | EmptyString => None
  | String a s =>
    if byte_of a =? 61 then Some ("", s)
    else match cut_eq s with Some (key, value) => Some (String a key, value) | None => None end
  end.
Fixpoint buildEnvReplacer (environ : list string) : Outcome (list (string * string)) :=
  match environ with
  | [] => Done []
  | entry :: environ =>
    match cut_eq entry with
    | None => Panicked "index out of range [1] with length 1"
    | Some (key, value) =>
      pairs ← buildEnvReplacer environ;
      mret (("{env:" +:+ key +:+ "}", value) :: pairs)
    end
  end.

Definition removeUnexpandedEnvvars (s : string) : string := remove_matches "{env:" (of_byte 125) s O.
Definition expand_str (pairs : list (string * string)) (s : string) : string :=
  removeUnexpandedEnvvars (replace_pairs pairs s O).
Fixpoint expandEnvironment (pairs : list (string * string)) (node : Node) : Node :=
  let 'mkNode name args ch snippet macro file line := node in
  mkNode (expand_str pairs name) (map (expand_str pairs) args) (option_map (map (expandEnvironment pairs)) ch)
    snippet macro file line.

(** Read *)
Definition Read (environ : list string) (content : string) (err : error) (location : string) : Parsed (list Node) :=
  let expand (r : Parsed (list Node)) :=
    match buildEnvReplacer environ with
    | Panicked w => PPanic w
    | Done pairs => match r with POk nodes => POk (map (expandEnvironment pairs) nodes) | r => r end
    end in
  match readTree (expandImports 256) location content err with
  | POk (nodes, _) => expand (POk nodes)
  | PErr e => expand (PErr e)
  | PPanic w => PPanic w
  | PFuel => PFuel
  end.
End Imports.
End Parser.

(** ** Examples, from the tests of the package *)

#[local] Existing Instance ascii_tables.
Definition no_files : string -> Opened := fun _ => OpenNotExist.
Definition lines (l : list string) : string := JoinByte l (of_byte 10).
Definition parsed (l : list string) : option (list (Node)) :=
  match Read no_files ["TESTING_VARIABLE=ABCDEF"] (lines l) None "test" with POk l => Some l | _ => None end.

Example parse_blocks :
  parsed ["a a1 a2 {"; "  a_child1 c1arg1 c1arg2"; "  a_child2 c2arg1 c2arg2 }"; "b"]
  = Some [mkNode "a" ["a1"; "a2"]
            (Some [mkNode "a_child1" ["c1arg1"; "c1arg2"] None false false "test" 2;
                   mkNode "a_child2" ["c2arg1"; "c2arg2"] None false false "test" 3]) false false "test" 1;
          mkNode "b" [] None false false "test" 4].
Proof. vm_compute. reflexivity. Qed.
Example parse_continuation :
  parsed ["a a1 a2 \"; "   a3 a4"] = Some [mkNode "a" ["a1"; "a2"; "a3"; "a4"] None false false "test" 1].
Proof. vm_compute. reflexivity. Qed.
Example parse_snippet_macro :
  parsed ["$(foo) = bar baz"; "(s) { a $(foo) }"; "foo {"; "  boo {env:TESTING_VARIABLE}"; "  import s"; "}"]
  = Some [mkNode "foo" [] (Some [mkNode "boo" ["ABCDEF"] None false false "test" 4;
            mkNode "a" ["bar"; "baz"] None false false "test" 2]) false false "test" 3].
Proof. vm_compute. reflexivity. Qed.
Example parse_import_limit : parsed ["(foo) { import foo }"; "import foo"] = None.
Proof. vm_compute. reflexivity. Qed.
Example parse_errors :
  map parsed [["{ a b }"]; ["a {"; "} }"]; ["a {"; "} b b1"]; ["1w x"]; ["a {"]; ["import foo"]; ["(f) a { }"]]
  = [None; None; None; None; None; None; None].
Proof. vm_compute. reflexivity. Qed.

(** ** What modelling showed *)

(** A macro whose value is another macro that is not defined has no argument; its
    use inside a string is an index out of range. *)
Example empty_macro_panics :
  Read no_files [] (lines ["$(a) = $(undefined)"; "hostname mx.$(a)"]) None "test"
  = PPanic "index out of range [0] with length 0".
Proof. vm_compute. reflexivity. Qed.
(** A macro declared on the last line of a block, with the brace on its line, is
    accepted inside the block, which does not end: the directives after it become
    its children. *)
Example macro_swallows_rest :
  parsed ["smtp {"; "  $(x) = y }"; "queue"]
  = Some [mkNode "smtp" [] (Some [mkNode "queue" [] None false false "test" 3]) false false "test" 1].
Proof. vm_compute. reflexivity. Qed.
(** Quoting a brace does not make it an argument. *)
Example quoted_brace_is_a_block :
  parsed ["a " +:+ quote_str +:+ "{" +:+ quote_str; "b }"]
  = Some [mkNode "a" [] (Some [mkNode "b" [] None false false "test" 2]) false false "test" 1].
Proof. vm_compute. reflexivity. Qed.
(** The text between an undefined variable and a later brace is removed with it. *)
Example env_greedy : removeUnexpandedEnvvars "{env:X} and {more} left" = " left".
Proof. vm_compute. reflexivity. Qed.
