(* ===== verification/ConfigFacts.v ===== *)
(** * ConfigFacts: the configuration parser always ends

    The loops of readNode and readNodes never run out of the fuel Read gives them,
    whatever the input, more fuel changes nothing, and imports end. *)
From S2P Require Import Prelude GoStr GoText ExtErrors Config ConfigLexer ConfigParser.
From stdpp Require Import gmap pretty.
From Stdlib Require Import Ascii ZifyBool.

Local Open Scope Z_scope.

(** ** Rules: a parser that does not run out of fuel *)

Definition ends {A} (p : Parser A) (c : parseContext) (Q : A -> parseContext -> Prop) : Prop :=
  match p c with POk (a, c') => Q a c' | PFuel => False | _ => True end.

Lemma ends_ret {A} (a : A) c (Q : A -> parseContext -> Prop) : Q a c -> ends (mret a) c Q.
Proof. done. Qed.
Lemma ends_bind {A B} (p : Parser A) (f : A -> Parser B) c R (Q : B -> parseContext -> Prop) :
  ends p c R -> (forall a c', R a c' -> ends (f a) c' Q) -> ends (p ≫= f) c Q.
Proof. unfold ends, mbind, parser_bind. intros Hp Hf. destruct (p c) as [[a c']| | |]; try done. by apply Hf. Qed.
Lemma ends_weaken {A} (p : Parser A) c (R Q : A -> parseContext -> Prop) :
  ends p c R -> (forall a c', R a c' -> Q a c') -> ends p c Q.
Proof. unfold ends. intros Hp HQ. destruct (p c) as [[a c']| | |]; try done. by apply HQ. Qed.
Lemma ends_gets {A} (f : parseContext -> A) c (Q : A -> parseContext -> Prop) : Q (f c) c -> ends (p_gets f) c Q.
Proof. done. Qed.
Lemma ends_modify f c (Q : unit -> parseContext -> Prop) : Q tt (f c) -> ends (p_modify f) c Q.
Proof. done. Qed.
Lemma ends_fail {A} f c (Q : A -> parseContext -> Prop) : ends (p_fail f) c Q.
Proof. done. Qed.
Lemma ends_panic {A} w c (Q : A -> parseContext -> Prop) : ends (p_panic w) c Q.
Proof. done. Qed.
Lemma ends_map {A B} (f : A -> Parser B) (I : parseContext -> Prop) l c :
  I c -> (forall a c, a ∈ l -> I c -> ends (f a) c (fun _ => I)) -> ends (p_map f l) c (fun _ => I).
Proof.
  revert c. induction l as [|a l IH]; intros c Hc Hf; simpl; [by apply ends_ret|].
  eapply ends_bind; [apply Hf; [set_solver|done]|]. intros b c' Hc'.
  eapply ends_bind; [apply IH; [done|set_solver]|]. intros bs c'' Hc''. by apply ends_ret.
Qed.

(** The tokens left: what the loops consume. *)
Definition left_over (c : parseContext) : nat := Z.to_nat (ntokens (pc_disp c) - dp_cursor (pc_disp c)).
Notation within n := (fun _ c' => (left_over c' <= n)%nat).

Lemma left_over_disp d c c' : pc_disp c' = d -> pc_disp c = d -> left_over c' = left_over c.
Proof. unfold left_over. by intros -> ->. Qed.

Ltac ends_step :=
  match goal with
  | |- ends (mret _) _ _ => apply ends_ret
  | |- ends (_ ≫= _) _ _ => eapply ends_bind
  | |- ends (p_gets _) _ _ => apply ends_gets
  | |- ends p_Val _ _ => apply ends_gets
  | |- ends (p_modify _) _ _ => apply ends_modify
  | |- ends (p_fail _) _ _ => apply ends_fail
  | |- ends (ctx_Err _) _ _ => apply ends_fail
  | |- ends (p_panic _) _ _ => apply ends_panic
  end.

(** Steps that leave the dispenser alone *)
Notation same_disp d := (fun _ c' => pc_disp c' = d).

Section Ends.
Context `{UnicodeTables}.

Lemma single_values_ends names arg d c :
  pc_disp c = d -> ends (single_values names arg) c (same_disp d).
Proof.
  revert arg c. induction names as [|name names IH]; intros arg c Hc; simpl; [by apply ends_ret|].
  eapply (ends_bind _ _ _ (same_disp d)); [|intros; by apply IH].
  unfold ends. destruct (pc_macros c !! name) as [[|v [|]]|]; simpl; done.
Qed.

Lemma expand_arg_ends arg d c : pc_disp c = d -> ends (expand_arg arg) c (same_disp d).
Proof.
  intros Hc. unfold expand_arg, expandSingleValueMacro.
  repeat case_match; repeat ends_step; [by apply single_values_ends| |done..].
  intros a c' Hc'. by apply ends_ret.
Qed.

(** Induction on nodes through their children *)
Lemma Node_nested_ind (P : Node -> Prop) :
  (forall name args ch snippet macro file line,
     Forall P (default [] ch) -> P (mkNode name args ch snippet macro file line)) ->
  forall n, P n.
Proof.
  intros HP. fix IH 1. intros [name args ch snippet macro file line]. apply HP.
  destruct ch as [l|]; simpl; [|constructor]. induction l as [|n l IHl]; constructor; [apply IH|apply IHl].
Qed.

Lemma expandMacros_ends node d c : pc_disp c = d -> ends (expandMacros node) c (same_disp d).
Proof.
  revert c. induction node as [name args ch snippet macro file line IH] using Node_nested_ind.
  intros c Hc. simpl. case_match; [apply ends_fail|].
  eapply ends_bind; [eapply (ends_map _ (fun c => pc_disp c = d)); [done|intros; by apply expand_arg_ends]|].
  intros args' c1 Hc1. cbv beta in Hc1.
  eapply (ends_bind _ _ _ (same_disp d)); [|intros; by apply ends_ret].
  destruct ch as [l|]; simpl in *; [|by apply ends_ret].
  eapply ends_bind; [eapply (ends_map _ (fun c => pc_disp c = d)); [done|]|].
  - intros n c2 Hn Hc2. rewrite Forall_forall in IH. by apply IH.
  - intros l' c2 Hc2. by apply ends_ret.
Qed.

Lemma parseAsMacro_ends name args d c : pc_disp c = d -> ends (parseAsMacro name args) c (same_disp d).
Proof. intros Hc. unfold parseAsMacro. repeat case_match; first [by apply ends_ret|apply ends_fail]. Qed.

Lemma close_block_ends d c : pc_disp c = d -> ends close_block c (same_disp d).
Proof.
  intros Hc. unfold close_block.
  eapply (ends_bind _ _ _ (same_disp d)); [apply ends_modify; by destruct c|]. intros ? c1 Hc1.
  eapply (ends_bind _ _ _ (same_disp d)); [by apply ends_gets|]. intros n c2 Hc2.
  case_match; [apply ends_fail|by apply ends_ret].
Qed.

(** A move of the cursor: a step forward takes a token. *)
Definition moved (n : nat) (ok : bool) (c : parseContext) : Prop :=
  if ok then (left_over c < n)%nat else (left_over c <= n)%nat.

Lemma p_move_ends f n c :
  (forall d, (f d).1 = true -> ntokens (f d).2 = ntokens d /\ dp_cursor (f d).2 = dp_cursor d + 1 /\ dp_cursor d < ntokens d) ->
  (forall d, (f d).1 = false -> (f d).2 = d) ->
  (left_over c <= n)%nat -> ends (p_move f) c (moved n).
Proof.
  intros Ht Hf Hn. unfold ends, p_move, moved, left_over in *. simpl.
  destruct (f (pc_disp c)).1 eqn:E; [apply Ht in E as (-> & -> & ?); lia|by rewrite Hf].
Qed.

Lemma Next_ends n c : (left_over c <= n)%nat -> ends (p_move Next) c (moved n).
Proof. apply p_move_ends; intros d; unfold Next; case_match; simpl; intros; simplify_eq; try done. repeat split; simpl; lia. Qed.
Lemma NextArg_ends n c : (left_over c <= n)%nat -> ends (p_move NextArg) c (moved n).
Proof.
  apply p_move_ends; intros d; unfold NextArg; repeat case_match; simpl; intros; simplify_eq; try done;
    repeat split; simpl; unfold ntokens in *; lia.
Qed.
Lemma NextLine_ends n c : (left_over c <= n)%nat -> ends (p_move NextLine) c (moved n).
Proof.
  apply p_move_ends; intros d; unfold NextLine; repeat case_match; simpl; intros; simplify_eq; try done;
    repeat split; simpl; unfold ntokens in *; lia.
Qed.

Lemma moved_le n ok c : moved n ok c -> (left_over c <= n)%nat.
Proof. destruct ok; simpl; lia. Qed.

Lemma next_node_ends b n c : (left_over c <= n)%nat -> ends (next_node b) c (moved n).
Proof.
  intros Hn. destruct b; simpl; [|by apply Next_ends].
  eapply ends_bind; [by apply NextLine_ends|]. intros ok c1 H1. destruct ok; [by apply ends_ret|].
  eapply ends_bind; [apply Next_ends; exact H1|]. intros ok c2 H2. destruct ok; [apply ends_fail|by apply ends_ret].
Qed.

(** Everything that leaves the dispenser alone leaves the tokens. *)
Lemma ends_within {A} (p : Parser A) c n :
  (left_over c <= n)%nat -> ends p c (same_disp (pc_disp c)) -> ends p c (within n).
Proof. intros Hn Hp. eapply ends_weaken; [exact Hp|]. intros a c' Hc'. unfold left_over in *. rewrite Hc'. lia. Qed.

Lemma readNode_ends loop n c :
  (left_over c <= n)%nat -> (forall c, (left_over c <= n)%nat -> ends (loop [] None false) c (within n)) ->
  ends (readNode loop) c (within n).
Proof.
  intros Hn Hl. unfold readNode.
  eapply (ends_bind _ _ _ (within n)); [by apply ends_gets|]. intros file c1 H1.
  eapply (ends_bind _ _ _ (within n)); [by apply ends_gets|]. intros line c2 H2.
  eapply (ends_bind _ _ _ (within n)); [by apply ends_gets|]. intros v c3 H3.
  case_match; [apply ends_fail|]. destruct (match isSnippet v with Some _ => _ | None => _ end) as [name snippet].
  eapply ends_bind; [by apply Hl|]. intros [args ch] c4 H4.
  eapply ends_bind; [apply ends_within; [exact H4|by apply parseAsMacro_ends]|]. intros macro c5 H5.
  repeat case_match; first [by apply ends_ret|apply ends_fail].
Qed.

Lemma readNodes_ends loop n c :
  (left_over c <= n)%nat -> (forall c, (left_over c <= n)%nat -> ends (loop false []) c (within n)) ->
  ends (readNodes loop) c (within n).
Proof.
  intros Hn Hl. unfold readNodes.
  eapply (ends_bind _ _ _ (within n)); [by apply ends_gets|]. intros z c1 H1. case_match; [apply ends_fail|].
  eapply (ends_bind _ _ _ (within n)); [by apply ends_modify|]. intros ? c2 H2. by apply Hl.
Qed.

Lemma after_args_ends loop args ch n c :
  (left_over c <= n)%nat ->
  (forall c, (left_over c <= n)%nat -> args <> [] -> ends (loop (removelast args) ch true) c (within n)) ->
  ends (after_args loop args ch) c (within n).
Proof.
  intros Hn Hl. unfold after_args. destruct (last args) as [a|] eqn:E; [|by apply ends_ret].
  assert (args <> []) by (by intros ->). repeat case_match; try (by apply ends_ret). by apply Hl.
Qed.

Lemma trailing_brace_ends node n c :
  (left_over c <= n)%nat -> ends (trailing_brace node) c (within n).
Proof.
  intros Hn. apply ends_within; [done|]. unfold trailing_brace.
  repeat case_match; try (by apply ends_ret).
  eapply ends_bind; [by apply close_block_ends|]. intros ? c' Hc'. by apply ends_ret.
Qed.

Lemma declare_ends node n c : (left_over c <= n)%nat -> ends (declare node) c (within n).
Proof.
  intros Hn. unfold declare.
  eapply (ends_bind _ _ _ (within n)); [by apply ends_gets|]. intros z c1 H1.
  repeat case_match; try apply ends_fail; [|by apply ends_modify].
  eapply ends_bind; [apply ends_within; [exact H1|by apply expandMacros_ends]|]. intros node' c2 ?. by apply ends_modify.
Qed.

Lemma length_removelast {A} (l : list A) : length (removelast l) = pred (length l).
Proof. induction l as [|a [|b l] IH]; simpl in *; lia. Qed.

Lemma loops_end fuel :
  (forall c args ch b, (3 * left_over c + length args + 1 <= fuel)%nat ->
     ends (args_loop fuel args ch b) c (within (left_over c))) /\
  (forall c b res, (3 * left_over c + 1 <= fuel)%nat ->
     ends (nodes_loop fuel b res) c (within (left_over c))).
Proof.
  induction fuel as [|fuel [IHa IHn]]; [split; intros; lia|].
  assert (Hafter : forall n args ch c, (left_over c <= n)%nat -> (3 * n + length args <= fuel)%nat ->
            ends (after_args (args_loop fuel) args ch) c (within n)).
  { intros n args ch c Hn Hf. apply after_args_ends; [done|]. intros c' Hc' Hne.
    eapply ends_weaken; [apply IHa; rewrite length_removelast; destruct args; simpl in *; [done|lia]|]. simpl. lia. }
  split.
  - intros c args ch b Hf. simpl.
    eapply ends_bind; [by apply NextArg_ends|]. intros ok c1 H1.
    eapply (ends_bind _ _ _ (moved (left_over c))).
    { destruct ok; [by apply ends_ret|]. destruct b; [by apply NextLine_ends|by apply ends_ret]. }
    clear ok c1 H1. intros ok c1 H1. destruct ok; simpl in H1; [|apply Hafter; [done|lia]].
    eapply (ends_bind _ _ _ (fun _ c' => c' = c1)); [by apply ends_gets|]. intros v c2 ->. case_match.
    + eapply ends_bind.
      { apply (readNodes_ends _ (left_over c1)); [done|]. intros c' Hc'. eapply ends_weaken; [apply IHn; lia|]. simpl. lia. }
      intros ch' c3 H3. simpl in H3. apply Hafter; lia.
    + eapply ends_weaken; [apply IHa; rewrite length_app; simpl; lia|]. simpl. lia.
  - intros c b res Hf. simpl.
    eapply ends_bind; [by apply next_node_ends|]. intros ok c1 H1. destruct ok; simpl in *; [|by apply ends_ret].
    eapply (ends_bind _ _ _ (fun _ c' => c' = c1)); [by apply ends_gets|]. intros v c2 ->. case_match.
    { eapply ends_bind; [apply (ends_within _ _ (left_over c)); [lia|by apply close_block_ends]|]. intros ? c2 H2.
      by apply ends_ret. }
    eapply ends_bind.
    { apply (readNode_ends _ (left_over c1)); [done|]. intros c' Hc'. eapply ends_weaken; [apply IHa; simpl; lia|]. simpl. lia. }
    intros node c2 H2. simpl in H2.
    eapply ends_bind; [apply (trailing_brace_ends _ (left_over c1)); done|]. intros [node' stop] c3 H3. simpl in H3 |- *.
    case_match.
    + eapply ends_bind; [apply (declare_ends _ (left_over c1)); done|]. intros ? c4 Hm. simpl in Hm.
      eapply ends_weaken; [apply IHn; lia|]. simpl. lia.
    + eapply ends_bind; [apply (ends_within _ _ (left_over c1)); [done|by apply expandMacros_ends]|].
      intros node'' c4 Hm. simpl in Hm. destruct stop; [apply ends_ret; lia|].
      eapply ends_weaken; [apply IHn; lia|]. simpl. lia.
Qed.
End Ends.

(** ** More fuel changes nothing *)

Definition refines {A} (p q : Parser A) : Prop := forall c, p c = PFuel \/ p c = q c.

Lemma refines_refl {A} (p : Parser A) : refines p p.
Proof. by right. Qed.
Lemma refines_trans {A} (p q r : Parser A) : refines p q -> refines q r -> refines p r.
Proof. intros Hp Hq c. destruct (Hp c) as [?| ->]; [by left|apply Hq]. Qed.
Lemma refines_bind {A B} (p q : Parser A) (f g : A -> Parser B) :
  refines p q -> (forall a, refines (f a) (g a)) -> refines (p ≫= f) (q ≫= g).
Proof.
  intros Hp Hf c. unfold mbind, parser_bind. destruct (Hp c) as [-> | ->]; [by left|].
  destruct (q c) as [[a c']| | |]; [apply Hf|by right..].
Qed.

Ltac refines_tac :=
  repeat first
    [ assumption | apply refines_refl
    | match goal with
      | |- refines (_ ≫= _) (_ ≫= _) => apply refines_bind; [|intros ?]
      | |- refines (match ?x with _ => _ end) _ => destruct x
      | |- forall _, _ => intros ?
      | H : forall _, _ |- refines _ _ => apply H
      end ].

Section Refines.
Context `{UnicodeTables}.

Lemma after_args_refines (p q : list string -> option (list Node) -> bool -> Parser (list string * option (list Node))) :
  (forall args ch b, refines (p args ch b) (q args ch b)) -> forall args ch, refines (after_args p args ch) (after_args q args ch).
Proof. intros Hp args ch. unfold after_args. refines_tac. Qed.
Lemma readNode_refines (p q : list string -> option (list Node) -> bool -> Parser (list string * option (list Node))) :
  (forall args ch b, refines (p args ch b) (q args ch b)) -> refines (readNode p) (readNode q).
Proof. intros Hp. unfold readNode. refines_tac. Qed.
Lemma readNodes_refines (p q : bool -> list Node -> Parser (list Node)) :
  (forall b l, refines (p b l) (q b l)) -> refines (readNodes p) (readNodes q).
Proof. intros Hp. unfold readNodes. refines_tac. Qed.

Lemma loops_refine fuel :
  (forall args ch b, refines (args_loop fuel args ch b) (args_loop (S fuel) args ch b)) /\
  (forall b l, refines (nodes_loop fuel b l) (nodes_loop (S fuel) b l)).
Proof.
  induction fuel as [|fuel [IHa IHn]].
  - split; intros; intros c; by left.
  - pose proof (after_args_refines _ _ IHa) as Ha. pose proof (readNode_refines _ _ IHa) as Hn.
    pose proof (readNodes_refines _ _ IHn) as Hns.
    split; intros; cbn [args_loop nodes_loop]; refines_tac.
Qed.

Lemma nodes_loop_refines n m : (n <= m)%nat -> forall b l, refines (nodes_loop n b l) (nodes_loop m b l).
Proof.
  induction 1 as [|m _ IH]; intros b l; [apply refines_refl|].
  eapply refines_trans; [apply IH|]. apply loops_refine.
Qed.
End Refines.

(** ** Read ends on every input *)

Section Total.
Context `{UnicodeTables} (os_Open : string -> Opened).
Notation anything := (fun _ _ => True).

Lemma readNodes_total d nst snips macros loc :
  dp_cursor d = -1 -> ends (readNodes (nodes_loop (parse_fuel d))) (mkCtx d nst snips macros loc) anything.
Proof.
  intros Hd. eapply ends_weaken; [|by intros; exact I].
  apply (readNodes_ends _ (S (length (dp_tokens d)))).
  - unfold left_over, ntokens. simpl. lia.
  - intros c Hc. eapply ends_weaken; [apply loops_end; unfold parse_fuel; lia|]. simpl. lia.
Qed.

Lemma ends_any_map {A B} (f : A -> Parser B) l c :
  (forall a c, ends (f a) c anything) -> ends (p_map f l) c anything.
Proof. intros Hf. apply (ends_map _ (fun _ => True)); auto. Qed.

Lemma expand_deep_ends node c : ends (expand_deep node) c anything.
Proof.
  revert c. induction node as [name args ch snippet macro file line IH] using Node_nested_ind.
  intros c. simpl. destruct ch as [l|]; [|by apply ends_ret]. simpl in IH.
  eapply (ends_bind _ _ _ anything); [|intros; by apply ends_ret].
  apply (ends_map _ (fun _ => True)); [done|]. intros n c1 Hn _.
  rewrite Forall_forall in IH. eapply ends_bind; [by apply IH|].
  intros n' c2 _. case_match; [apply ends_fail|by apply ends_ret].
Qed.

Lemma readTree_ends expand location content err :
  (forall n c, ends (expand n) c anything) -> readTree expand location content err <> PFuel.
Proof.
  intros He. unfold readTree. set (d := NewDispenser location content err).
  match goal with |- ?p ?c <> _ => assert (Hp : ends p c anything) end.
  { eapply ends_bind; [by apply readNodes_total|]. intros nodes c1 _.
    eapply (ends_bind _ _ _ anything); [by apply ends_gets|]. intros n c2 _. case_match; [apply ends_fail|].
    eapply ends_bind; [apply He|]. intros root c3 _. by apply ends_ret. }
  intros E. unfold ends in Hp. by rewrite E in Hp.
Qed.

Lemma resolveImport_ends read node name c :
  (forall l f e, read l f e <> PFuel) -> ends (resolveImport os_Open read node name) c anything.
Proof.
  intros Hr. unfold ends, resolveImport.
  repeat case_match; try done; simplify_eq; naive_solver.
Qed.

Lemma expandImports_ends k node c : ends (expandImports os_Open k node) c anything.
Proof.
  revert node c. induction k as [|k IH]; intros node c; simpl; [apply expand_deep_ends|].
  destruct (node_Children node) as [l|]; [|by apply ends_ret].
  eapply (ends_bind _ _ _ anything).
  - apply ends_any_map. intros child c1. eapply (ends_bind _ _ _ anything); [apply IH|]. intros child' c2 _.
    case_match; [|by apply ends_ret]. repeat case_match; try apply ends_fail.
    eapply (ends_bind _ _ _ anything); [|intros; by apply ends_ret].
    apply resolveImport_ends. intros. by apply readTree_ends.
  - intros subtrees c1 _. case_match; [apply IH|by apply ends_ret].
Qed.

(** C20: reading a configuration ends, on every input, on every set of files that
    import one another and in every environment: it gives nodes, an error or a Go
    panic, and never runs out of the fuel that stands for the loops of readNode
    and readNodes; and giving these loops more fuel does not change their result. *)
Theorem Read_terminates environ content err location :
  Read os_Open environ content err location <> PFuel /\
  forall fuel nst snips macros (d := NewDispenser location content err), (parse_fuel d <= fuel)%nat ->
    readNodes (nodes_loop fuel) (mkCtx d nst snips macros location)
    = readNodes (nodes_loop (parse_fuel d)) (mkCtx d nst snips macros location).
Proof.
  split.
  - unfold Read. destruct (readTree _ _ _ _) as [[nodes c]| | |] eqn:E; [by destruct (buildEnvReplacer environ)..|done|].
    exfalso. revert E. apply readTree_ends. intros. apply expandImports_ends.
  - intros fuel nst snips macros d Hf.
    destruct (readNodes_refines _ _ (nodes_loop_refines _ _ Hf) (mkCtx d nst snips macros location)) as [E|E]; [|done].
    pose proof (readNodes_total d nst snips macros location eq_refl) as Ht. unfold ends in Ht. by rewrite E in Ht.
Qed.
End Total.

#[local] Existing Instance ascii_tables.
(** A file that imports itself, and a block that is not closed *)
Definition self_import : string -> Opened := fun _ => OpenOk "import again" None.
Lemma Read_terminates_witness :
  Read self_import [] "import again" None "/etc/conf" <> PFuel /\
  (parse_fuel (NewDispenser "f" "a {" None) <= 100)%nat /\
  readNodes (nodes_loop 100) (mkCtx (NewDispenser "f" "a {" None) (-1) ∅ ∅ "f")
  = readNodes (nodes_loop (parse_fuel (NewDispenser "f" "a {" None))) (mkCtx (NewDispenser "f" "a {" None) (-1) ∅ ∅ "f").
Proof.
  assert (Hf : (parse_fuel (NewDispenser "f" "a {" None) <= 100)%nat) by (vm_compute; lia).
  split; [apply Read_terminates|]. split; [exact Hf|].
  apply (proj2 (Read_terminates self_import [] "a {" None "f")). exact Hf.
Defined.
