(* ===== verification/ConfigPrint.v ===== *)
(** * ConfigPrint: configuration trees are read back as they are printed

    A printer of configuration trees, one directive a line and every string
    quoted, and the round trip through lexer, dispenser and parser. *)
From S2P Require Import Prelude GoStr GoText ExtErrors Config ConfigLexer ConfigParser ConfigFacts.
From stdpp Require Import gmap.
From Stdlib Require Import Ascii ZifyBool.

Local Open Scope Z_scope.

Lemma forallb_Forall {A} (f : A -> bool) l : forallb f l = true <-> Forall (fun x => f x = true) l.
Proof. induction l as [|x l IH]; simpl; [done|]. by rewrite andb_true_iff, Forall_cons, IH. Qed.

Section Print.
Context `{UnicodeTables}.

(** ** The printer *)

Definition escape (r : Z) : list Z := if r =? ch_quote then [ch_backslash; ch_quote] else [r].
Definition quoted (s : string) : list Z := ch_quote :: concat (map escape (runes s)) ++ [ch_quote].
#[local] Arguments quoted : simpl never.
Definition print_args (args : list string) : list Z := concat (map (fun a => 32 :: quoted a) args).
Fixpoint print_node (n : Node) : list Z :=
  let 'mkNode name args ch _ _ _ _ := n in
  quoted name ++ print_args args ++
  match ch with
  | None => []
  | Some ns => 32 :: 123 :: ch_lf :: concat (map print_node ns) ++ [125]
  end ++ [ch_lf].
Definition print_nodes (ns : list Node) : string := string_of_runes (concat (map print_node ns)).

(** The strings and nodes that have a text: no backslash (it cannot be quoted at
    the end of a string), no brace, no macro and no environment variable; no import. *)
Definition plain_rune (r : Z) : bool := negb (existsb (Z.eqb r) [36; 92; 123; 125]).
Definition plain (s : string) : bool := valid_utf8 s && forallb plain_rune (runes s).
Definition plain_name (s : string) : bool :=
  match validateNodeName s with None => true | Some _ => false end
  && valid_utf8 s && negb (bool_decide (s = "import")).
Fixpoint printable (levels : nat) (n : Node) {struct n} : bool :=
  let 'mkNode name args ch snippet macro _ _ := n in
  plain_name name && forallb plain args && negb snippet && negb macro &&
  match ch with
  | None => true
  | Some ns => match levels with O => false | S levels => forallb (printable levels) ns end
  end.

(** ** Where the lines are *)

Definition lfs (strs : list string) : Z := foldr (fun s n => count_lf s + n) 0 strs.
Definition total (l : list Z) : Z := foldr Z.add 0 l.
(** The lines a printed node takes *)
Fixpoint lines_of (n : Node) : Z :=
  let 'mkNode name args ch _ _ _ _ := n in
  lfs (name :: args) + 1 + match ch with None => 0 | Some ns => total (map lines_of ns) + 1 end.
Fixpoint on_lines {B} (f : Z -> Node -> B) (l : Z) (ns : list Node) : list B :=
  match ns with
  | [] => []
  | n :: ns => f l n :: on_lines f (l + lines_of n) ns
  end.
(** A node as it is read from its text at line [l] of [file] *)
Fixpoint locate (file : string) (l : Z) (n : Node) : Node :=
  let 'mkNode name args ch _ _ _ _ := n in
  mkNode name args (option_map (on_lines (locate file) (l + lfs (name :: args) + 1)) ch) false false file l.

Notation tok l s := (mkToken "" l s).
Fixpoint str_toks (l : Z) (strs : list string) : list Token :=
  match strs with
  | [] => []
  | s :: strs => tok l s :: str_toks (l + count_lf s) strs
  end.
Fixpoint node_toks (l : Z) (n : Node) : list Token :=
  let 'mkNode name args ch _ _ _ _ := n in
  let h := l + lfs (name :: args) in
  str_toks l (name :: args) ++
  match ch with
  | None => []
  | Some ns => tok h "{" :: concat (on_lines node_toks (h + 1) ns) ++ [tok (h + 1 + total (map lines_of ns)) "}"]
  end.

(** ** Lexing *)

Definition lex (rs : list Z) (line : Z) : list Token := tokens_loop (S (length rs)) rs line.

Lemma lex_eq rs line :
  lex rs line = match next_token rs line with Some (t, rs, line) => t :: lex rs line | None => [] end.
Proof.
  unfold lex at 1. cbn [tokens_loop]. destruct (next_token rs line) as [[[t rs'] line']|] eqn:E; [|done].
  f_equal. apply next_token_shorter in E. apply tokens_loop_fuel; lia.
Qed.

Lemma lex_space rs line : lex (32 :: rs) line = lex rs line.
Proof. rewrite (lex_eq (32 :: rs)), (lex_eq rs). done. Qed.
Lemma lex_lf rs line : lex (ch_lf :: rs) line = lex rs (line + 1).
Proof. rewrite (lex_eq (ch_lf :: rs)), (lex_eq rs). done. Qed.
Lemma lex_open rs line : lex (123 :: ch_lf :: rs) line = tok line "{" :: lex rs (line + 1).
Proof. rewrite (lex_eq (123 :: _)). done. Qed.
Lemma lex_close rs line : lex (125 :: ch_lf :: rs) line = tok line "}" :: lex rs (line + 1).
Proof. rewrite (lex_eq (125 :: _)). done. Qed.

Definition lf_runes (rs : list Z) : Z := foldr (fun r n => (if r =? ch_lf then 1 else 0) + n) 0 rs.

Lemma next_quoted rs rest line tline val :
  Forall (fun r => r <> ch_backslash) rs ->
  next (concat (map escape rs) ++ ch_quote :: rest) line tline val false true false
  = Some (tok tline (string_of_runes (val ++ rs)), rest, line + lf_runes rs).
Proof.
  intros Hrs. revert line val. induction Hrs as [|r rs Hr Hrs IH]; intros line val.
  - simpl. rewrite app_nil_r, Z.add_0_r. done.
  - simpl. unfold escape at 1. destruct (r =? ch_quote) eqn:E; simpl.
    + rewrite IH, <-app_assoc. apply Z.eqb_eq in E as ->. done.
    + replace (r =? ch_backslash) with false by lia. rewrite E. simpl. rewrite IH, <-app_assoc. simpl.
      do 2 f_equal. case_match; lia.
Qed.

Lemma count_lf_app s t : count_lf (s +:+ t) = count_lf s + count_lf t.
Proof. induction s as [|a s IH]; simpl; [done|]. rewrite IH. lia. Qed.
Lemma count_lf_bytes l : Forall (fun b => 0 <= b < 256) l -> count_lf (of_bytes l) = lf_runes l.
Proof. induction 1 as [|b l Hb _ IH]; simpl; [done|]. by rewrite IH, byte_of_of. Qed.
Lemma lf_runes_app a b : lf_runes (a ++ b) = lf_runes a + lf_runes b.
Proof. induction a as [|r a IH]; simpl; [done|]. rewrite IH. lia. Qed.
Lemma lf_runes_encode r : valid_rune r = true -> lf_runes (encode_rune r) = lf_runes [r].
Proof.
  intros Hr. unfold encode_rune. rewrite Hr. unfold valid_rune, ch_lf in *. simpl. unfold ch_lf.
  repeat case_match; simpl; unfold ch_lf; repeat case_match; Z.to_euclidean_division_equations; lia.
Qed.
Lemma count_lf_runes s : valid_utf8 s = true -> count_lf s = lf_runes (runes s).
Proof.
  unfold valid_utf8. intros Hs%bool_decide_eq_true. rewrite <-Hs at 1. unfold string_of_runes.
  rewrite count_lf_bytes by apply encode_runes_bytes. clear Hs. pose proof (runes_valid s) as Hv.
  induction Hv as [|r rs Hr Hv IH]; [done|]. unfold encode_runes in *. simpl.
  rewrite lf_runes_app, lf_runes_encode by done. rewrite IH. simpl. lia.
Qed.

Lemma lex_quoted_str s rs line :
  valid_utf8 s = true -> Forall (fun r => r <> ch_backslash) (runes s) ->
  lex (quoted s ++ rs) line = tok line s :: lex rs (line + count_lf s).
Proof.
  intros Hs Hr. unfold quoted. simpl. rewrite <-app_assoc, lex_eq. unfold next_token. simpl.
  rewrite next_quoted by done. simpl. rewrite count_lf_runes by done.
  unfold valid_utf8 in Hs. apply bool_decide_eq_true in Hs. by rewrite Hs.
Qed.

(** What printable gives for the parts of a node *)
Lemma plain_spec s : plain s = true -> valid_utf8 s = true /\ Forall (fun r => plain_rune r = true) (runes s).
Proof. unfold plain. intros [? Hr]%andb_true_iff. split; [done|]. by apply forallb_Forall. Qed.

Lemma plain_rune_ne r : plain_rune r = true -> r <> 36 /\ r <> 92 /\ r <> 123 /\ r <> 125.
Proof. unfold plain_rune. simpl. lia. Qed.

Lemma validateNodeName_None s :
  validateNodeName s = None -> runes s <> [] /\ Forall (fun r => name_rune r = true) (runes s).
Proof.
  unfold validateNodeName. intros Hv. split; [by intros E; rewrite E in Hv|].
  destruct (runes s) as [|ch rs]; [done|]. destruct (IsDigit ch); [done|].
  destruct (list_find _ _) as [[i x]|] eqn:E; [done|]. apply list_find_None in E.
  eapply Forall_impl; [exact E|]. intros r Hr. simpl in Hr. destruct (name_rune r); [done|]. congruence.
Qed.
Lemma name_rune_plain r : name_rune r = true -> plain_rune r = true /\ r <> 40.
Proof.
  intros Hr. assert (Hn : forall x, x ∈ [36; 92; 123; 125; 40] -> r <> x).
  { intros x Hx ->. revert Hr. rewrite !elem_of_cons, elem_of_nil in Hx.
    destruct Hx as [->|[->|[->|[->|[->|[]]]]]]; done. }
  assert (r <> 36 /\ r <> 92 /\ r <> 123 /\ r <> 125 /\ r <> 40) by (repeat split; apply Hn; set_solver).
  unfold plain_rune. simpl. lia.
Qed.

Lemma plain_name_spec s :
  plain_name s = true -> plain s = true /\ validateNodeName s = None /\ s <> "import"%string /\ 40 ∉ runes s.
Proof.
  unfold plain_name. intros [[Hv Hu]%andb_true_iff Hi]%andb_true_iff.
  destruct (validateNodeName s) eqn:E; [done|].
  pose proof (validateNodeName_None _ E) as [_ Hr]. rewrite Forall_forall in Hr.
  apply negb_true_iff, bool_decide_eq_false in Hi.
  repeat split; [|done..|].
  - unfold plain. rewrite Hu. simpl. apply forallb_Forall, Forall_forall. intros r Hin. by apply name_rune_plain, Hr.
  - intros Hin. by apply Hr, name_rune_plain in Hin as [_ ?].
Qed.

Lemma printable_spec levels name args ch snippet macro file line :
  printable levels (mkNode name args ch snippet macro file line) = true ->
  plain_name name = true /\ Forall (fun a => plain a = true) args /\
  match ch with
  | None => True
  | Some ns => exists k, levels = S k /\ Forall (fun n => printable k n = true) ns
  end.
Proof.
  simpl. intros [[[[Hn Ha]%andb_true_iff _]%andb_true_iff _]%andb_true_iff Hc]%andb_true_iff.
  repeat split; [done|by apply forallb_Forall|]. destruct ch as [ns|]; [|done]. destruct levels as [|k]; [done|].
  exists k. split; [done|]. by apply forallb_Forall.
Qed.

Lemma lex_plain s rs line : plain s = true -> lex (quoted s ++ rs) line = tok line s :: lex rs (line + count_lf s).
Proof.
  intros [Hu Hr]%plain_spec. apply lex_quoted_str; [done|]. eapply Forall_impl; [exact Hr|].
  intros r ?%plain_rune_ne. unfold ch_backslash. tauto.
Qed.

Lemma lex_args args rs line :
  Forall (fun a => plain a = true) args ->
  lex (print_args args ++ rs) line = str_toks line args ++ lex rs (line + lfs args).
Proof.
  intros Ha. revert line. induction Ha as [|a args Ha Hargs IH]; intros line.
  - unfold print_args. simpl. f_equal. lia.
  - assert (E : print_args (a :: args) ++ rs = 32 :: quoted a ++ (print_args args ++ rs)).
    { unfold print_args. cbn [map concat]. by rewrite <-app_assoc. }
    rewrite E, lex_space, lex_plain, IH by done. simpl. do 3 f_equal. lia.
Qed.

Lemma lex_node n levels rs line :
  printable levels n = true -> lex (print_node n ++ rs) line = node_toks line n ++ lex rs (line + lines_of n).
Proof.
  revert levels rs line. induction n as [name args ch snippet macro file l0 IH] using Node_nested_ind.
  intros levels rs line Hp. apply printable_spec in Hp as (Hn & Ha & Hc). apply plain_name_spec in Hn as (Hn & _).
  cbn [print_node node_toks lines_of]. rewrite <- !app_assoc, lex_plain by done. rewrite lex_args by done.
  cbn [str_toks app]. f_equal. f_equal.
  cbn [lfs foldr]. fold (lfs args). rewrite (Z.add_assoc line).
  destruct ch as [ns|]; simpl.
  - rewrite lex_space, lex_open. f_equal. destruct Hc as (k & -> & Hc). simpl in IH.
    set (h := line + count_lf name + lfs args).
    rewrite <- !app_assoc. simpl.
    assert (Hns : forall l, lex (concat (map print_node ns) ++ 125 :: ch_lf :: rs) l
              = concat (on_lines node_toks l ns) ++ lex (125 :: ch_lf :: rs) (l + total (map lines_of ns))).
    { clear h. induction IH as [|n ns IHn _ IHns]; intros l; simpl; [by rewrite Z.add_0_r|].
      inversion Hc; simplify_eq. rewrite <- !app_assoc, (IHn k) by done. f_equal. rewrite IHns by done.
      f_equal. f_equal. lia. }
    rewrite Hns, lex_close. f_equal. f_equal. f_equal. lia.
  - rewrite lex_lf. f_equal. lia.
Qed.

Lemma lex_nodes ns levels :
  Forall (fun n => printable levels n = true) ns ->
  forall line, lex (concat (map print_node ns)) line = concat (on_lines node_toks line ns).
Proof.
  induction 1 as [|n ns Hn _ IH]; intros line; [done|]. simpl. erewrite lex_node by done. by rewrite IH.
Qed.

Lemma print_node_runes n : Forall (fun r => valid_rune r = true) (print_node n).
Proof.
  assert (Hq : forall s, Forall (fun r => valid_rune r = true) (quoted s)).
  { intros s. unfold quoted. constructor; [done|]. apply Forall_app. split; [|by constructor].
    induction (runes_valid s) as [|r rs Hr _ IH]; simpl; [constructor|]. apply Forall_app. split; [|done].
    unfold escape. by case_match; repeat constructor. }
  assert (Ha : forall args, Forall (fun r => valid_rune r = true) (print_args args)).
  { intros args. unfold print_args. induction args as [|a args IH]; cbn [map concat app]; [constructor|].
    constructor; [done|]. by apply Forall_app. }
  induction n as [name args ch snippet macro file l0 IH] using Node_nested_ind. cbn [print_node].
  repeat (apply Forall_app; split); [done|done| |by constructor].
  destruct ch as [ns|]; [|constructor]. simpl in IH. repeat constructor. apply Forall_app. split; [|by constructor].
  induction IH; simpl; [constructor|]. by apply Forall_app.
Qed.

Lemma tokens_print file ns levels :
  Forall (fun n => printable levels n = true) ns ->
  NewDispenser file (print_nodes ns) None = mkDispenser file (concat (on_lines node_toks 1 ns)) (-1) 0.
Proof.
  intros Hns. unfold NewDispenser, allTokens, print_nodes. rewrite runes_of_runes.
  2: { induction Hns; simpl; [constructor|]. apply Forall_app. split; [apply print_node_runes|done]. }
  f_equal. rewrite <-(lex_nodes _ _ Hns). unfold lex.
  destruct ns as [|[name args ch ?? ??] ns]; done.
Qed.
End Print.

(** ** The dispenser over a known list of tokens *)

Notation tok l s := (mkToken "" l s).

Section Dispense.
Context `{UnicodeTables} (loc : string) (T : list Token).

(** The dispenser and the context once [k] tokens are taken. *)
Definition disp_at (k : nat) : Dispenser := mkDispenser loc T (Z.of_nat k - 1) 0.
Definition at_tok (k : nat) (nst : Z) : parseContext := mkCtx (disp_at k) nst ∅ ∅ loc.

Definition seg (k : nat) (toks : list Token) : Prop := forall i t, toks !! i = Some t -> T !! (k + i)%nat = Some t.
(** The next token, if any, begins at line [l] or after. *)
Definition from_line (k : nat) (l : Z) : Prop := forall t, T !! k = Some t -> tk_File t = "" /\ l <= tk_Line t.

Lemma seg_cons k t toks : seg k (t :: toks) -> T !! k = Some t /\ seg (S k) toks.
Proof.
  intros Hs. split.
  - specialize (Hs O t eq_refl). by rewrite Nat.add_0_r in Hs.
  - intros i t' Hi. specialize (Hs (S i) t' Hi). by rewrite <-Nat.add_succ_comm in Hs.
Qed.
Lemma seg_app k a b : seg k (a ++ b) -> seg k a /\ seg (k + length a) b.
Proof.
  intros Hs. split; intros i t Hi.
  - apply Hs. by apply lookup_app_l_Some.
  - rewrite <-Nat.add_assoc. apply Hs. rewrite lookup_app_r by lia. by replace (length a + i - length a)%nat with i by lia.
Qed.

Lemma token_at_S k t : T !! k = Some t -> token_at (disp_at (S k)) (Z.of_nat (S k) - 1) = t.
Proof. intros Hk. unfold token_at. simpl dp_tokens. replace (Z.to_nat (Z.of_nat (S k) - 1)) with k by lia. by rewrite Hk. Qed.
Lemma token_at_next k t : T !! S k = Some t -> token_at (disp_at (S k)) (Z.of_nat (S k) - 1 + 1) = t.
Proof. intros Hk. unfold token_at. simpl dp_tokens. replace (Z.to_nat (Z.of_nat (S k) - 1 + 1)) with (S k) by lia. by rewrite Hk. Qed.

Lemma loaded_S k t : T !! k = Some t -> loaded (disp_at (S k)) = true.
Proof. intros Hk%lookup_lt_Some. unfold loaded, ntokens. simpl. lia. Qed.
Lemma Val_at k l s nst : T !! k = Some (tok l s) -> p_Val (at_tok (S k) nst) = POk (s, at_tok (S k) nst).
Proof. intros Hk. unfold p_Val, p_gets, Val. simpl. erewrite loaded_S, token_at_S by done. done. Qed.
Lemma Line_at k l s : T !! k = Some (tok l s) -> Line (disp_at (S k)) = l.
Proof. intros Hk. unfold Line. simpl dp_cursor. erewrite loaded_S, token_at_S by done. done. Qed.
Lemma File_at k l s : T !! k = Some (tok l s) -> File (disp_at (S k)) = loc.
Proof. intros Hk. unfold File. simpl dp_cursor. erewrite loaded_S, token_at_S by done. done. Qed.

Lemma numLineBreaks_at k t : T !! k = Some t -> numLineBreaks (disp_at (S k)) (Z.of_nat (S k) - 1) = count_lf (tk_Text t).
Proof.
  intros Hk. unfold numLineBreaks. erewrite token_at_S by done. apply lookup_lt_Some in Hk.
  unfold ntokens. simpl dp_tokens. case_match; [lia|done].
Qed.

(** What each move does, read off the tokens *)
Lemma Next_at k t : T !! k = Some t -> Next (disp_at k) = (true, disp_at (S k)).
Proof.
  intros Hk%lookup_lt_Some. unfold Next, ntokens. simpl. case_match; [|lia].
  unfold advance, set_cursor, disp_at. simpl. do 2 f_equal. lia.
Qed.
Lemma Next_end k : T !! k = None -> Next (disp_at k) = (false, disp_at k).
Proof. intros Hk%lookup_ge_None. unfold Next, ntokens. simpl. case_match; [lia|done]. Qed.

Lemma advance_at k : advance (disp_at (S k)) = disp_at (S (S k)).
Proof. unfold advance, set_cursor, disp_at. simpl. f_equal. lia. Qed.

Lemma NextArg_at k l s l' s' :
  T !! k = Some (tok l s) -> T !! S k = Some (tok l' s') -> l + count_lf s = l' ->
  NextArg (disp_at (S k)) = (true, disp_at (S (S k))).
Proof.
  intros Hk Hk' Hl. unfold NextArg, same_line. simpl dp_cursor.
  erewrite token_at_S, token_at_next, numLineBreaks_at by done. simpl tk_File. simpl tk_Line. simpl tk_Text.
  pose proof (lookup_lt_Some _ _ _ Hk'). unfold ntokens. simpl dp_tokens.
  repeat case_match; try lia; [by rewrite advance_at|].
  rewrite bool_decide_eq_true_2 in * by done. lia.
Qed.
Lemma NextArg_no k l s :
  T !! k = Some (tok l s) -> from_line (S k) (l + count_lf s + 1) -> NextArg (disp_at (S k)) = (false, disp_at (S k)).
Proof.
  intros Hk Hn. unfold NextArg, same_line. simpl dp_cursor.
  pose proof (lookup_lt_Some _ _ _ Hk). unfold ntokens. simpl dp_tokens.
  repeat case_match; try lia; try done. exfalso.
  destruct (T !! S k) as [t|] eqn:E; [|apply lookup_ge_None in E; lia].
  apply Hn in E as Ht. erewrite token_at_S, token_at_next, numLineBreaks_at in * by done. simpl in *. lia.
Qed.
Lemma NextLine_at k l s l' s' :
  T !! k = Some (tok l s) -> T !! S k = Some (tok l' s') -> l + count_lf s < l' ->
  NextLine (disp_at (S k)) = (true, disp_at (S (S k))).
Proof.
  intros Hk Hk' Hl. unfold NextLine, new_line. simpl dp_cursor.
  erewrite token_at_S, token_at_next, numLineBreaks_at by done. simpl tk_File. simpl tk_Line. simpl tk_Text.
  pose proof (lookup_lt_Some _ _ _ Hk'). unfold ntokens. simpl dp_tokens.
  repeat case_match; try lia; by rewrite advance_at.
Qed.
Lemma NextLine_end k t : T !! k = Some t -> T !! S k = None -> NextLine (disp_at (S k)) = (false, disp_at (S k)).
Proof.
  intros Hk Hk'%lookup_ge_None. unfold NextLine. simpl dp_cursor. unfold ntokens. simpl dp_tokens.
  repeat case_match; try lia; done.
Qed.

(** ** Runs that are the same from some fuel on *)

Definition runs {A} (p : nat -> Parser A) (c : parseContext) (r : A * parseContext) : Prop :=
  exists F, forall f, (F <= f)%nat -> p f c = POk r.

Lemma runs_const {A} (p : Parser A) c r : p c = POk r -> runs (fun _ => p) c r.
Proof. intros E. by exists O. Qed.
Lemma runs_bind {A B} (p : nat -> Parser A) (k : nat -> A -> Parser B) c a c1 r :
  runs p c (a, c1) -> runs (fun f => k f a) c1 r -> runs (fun f => p f ≫= k f) c r.
Proof.
  intros [F1 H1] [F2 H2]. exists (F1 `max` F2)%nat. intros f Hf. unfold mbind, parser_bind.
  rewrite H1 by lia. apply H2. lia.
Qed.
Lemma runs_bind_eq {A B} (p : Parser A) (k : nat -> A -> Parser B) c a c1 r :
  p c = POk (a, c1) -> runs (fun f => k f a) c1 r -> runs (fun f => p ≫= k f) c r.
Proof. intros E. apply runs_bind. by apply runs_const. Qed.
Lemma runs_S {A} (p : nat -> Parser A) c r : runs (fun f => p (S f)) c r -> runs p c r.
Proof. intros [F HF]. exists (S F). intros [|f] Hf; [lia|]. apply HF. lia. Qed.
Lemma p_move_at f k k' b nst : f (disp_at k) = (b, disp_at k') -> p_move f (at_tok k nst) = POk (b, at_tok k' nst).
Proof. intros E. unfold p_move. simpl. by rewrite E. Qed.
End Dispense.

(** ** Parsing *)

Lemma str_toks_length `{UnicodeTables} l strs : length (str_toks l strs) = length strs.
Proof. revert l. induction strs as [|s strs IH]; intros l; simpl; [done|]. by rewrite IH. Qed.

Lemma plain_free `{UnicodeTables} s a : plain s = true -> byte_of a ∈ [36; 92; 123; 125] -> has_byte a s = false.
Proof.
  intros [_ Hr]%plain_spec Ha. destruct (has_byte a s) eqn:E; [|done]. exfalso.
  apply has_byte_runes in E.
  - rewrite Forall_forall in Hr. apply Hr, plain_rune_ne in E as (?&?&?&?).
    rewrite !elem_of_cons, elem_of_nil in Ha. naive_solver.
  - rewrite !elem_of_cons, elem_of_nil in Ha. naive_solver lia.
Qed.
Lemma no_prefix s p a : has_byte a s = false -> has_byte a p = true -> HasPrefix s p = false.
Proof.
  intros Hs Hp. destruct (HasPrefix s p) eqn:E; [|done]. apply HasPrefix_spec in E as [t ->].
  rewrite has_byte_app, Hp in Hs. done.
Qed.
Lemma no_contains s p a : has_byte a s = false -> has_byte a p = true -> Contains s p = false.
Proof.
  intros Hs Hp. destruct (Contains s p) eqn:E; [|done]. apply Contains_spec in E as (x & y & ->).
  rewrite !has_byte_app, Hp in Hs. by destruct (has_byte a x).
Qed.

Section ParsePrinted.
Context `{UnicodeTables} (loc : string) (T : list Token).
Notation at_tok := (at_tok loc T).
Notation seg := (seg T).
Notation from_line := (from_line T).

Lemma plain_not s x a : plain s = true -> has_byte a x = true -> byte_of a ∈ [36; 92; 123; 125] -> s <> x.
Proof. intros Hs Hx Ha ->. by rewrite (plain_free _ a) in Hx. Qed.
Lemma plain_not_open s : plain s = true -> s <> "{"%string.
Proof. intros Hs. apply (plain_not _ _ (of_byte 123) Hs); [done|]. set_solver. Qed.
Lemma plain_not_close s : plain s = true -> s <> "}"%string.
Proof. intros Hs. apply (plain_not _ _ (of_byte 125) Hs); [done|]. set_solver. Qed.
Lemma plain_not_backslash s : plain s = true -> s <> "\"%string.
Proof. intros Hs. apply (plain_not _ _ (of_byte 92) Hs); [done|]. set_solver. Qed.
Lemma plain_last args a : Forall (fun a => plain a = true) args -> last args = Some a -> plain a = true.
Proof. intros Ha Hl. rewrite Forall_forall in Ha. apply Ha. by apply last_Some_elem_of. Qed.

(** The arguments: one token each, up to the end of the header. *)
Lemma args_run k l s args ch acc nst r :
  T !! k = Some (tok l s) -> seg (S k) (str_toks (l + count_lf s) args) ->
  Forall (fun a => plain a = true) args ->
  runs (fun f => args_loop f (acc ++ args) ch false) (at_tok (S k + length args) nst) r ->
  runs (fun f => args_loop f acc ch false) (at_tok (S k) nst) r.
Proof.
  intros Hk Hs Ha. revert k l s acc Hk Hs. induction Ha as [|a args Ha Hargs IH]; intros k l s acc Hk Hs Hr.
  - rewrite app_nil_r in Hr. simpl in Hr. by rewrite Nat.add_0_r in Hr.
  - simpl in Hs. apply seg_cons in Hs as [Hk' Hs]. apply runs_S. simpl.
    eapply runs_bind_eq; [apply p_move_at; by eapply NextArg_at|]. simpl.
    eapply runs_bind_eq; [done|]. simpl.
    eapply runs_bind_eq; [by eapply Val_at|]. case_decide as Hd; [by apply plain_not_open in Hd|].
    eapply IH; [done..|]. rewrite <-app_assoc. simpl in Hr |- *. by rewrite Nat.add_succ_r in Hr.
Qed.

Lemma after_args_plain loop args ch c :
  Forall (fun a => plain a = true) args -> after_args loop args ch c = POk ((args, ch), c).
Proof.
  intros Ha. unfold after_args. destruct (last args) as [a|] eqn:E; [|done].
  apply plain_last in E; [|done]. apply plain_not_backslash in E. by repeat case_match; simplify_eq.
Qed.

(** A header without block *)
Lemma args_end_plain k l s args nst :
  T !! k = Some (tok l s) -> from_line (S k) (l + count_lf s + 1) -> Forall (fun a => plain a = true) args ->
  runs (fun f => args_loop f args None false) (at_tok (S k) nst) ((args, None), at_tok (S k) nst).
Proof.
  intros Hk Hn Ha. apply runs_S. simpl.
  eapply runs_bind_eq; [apply p_move_at; by eapply NextArg_no|]. simpl.
  eapply runs_bind_eq; [done|]. simpl. exists O. intros f _. by apply after_args_plain.
Qed.
(** A header and its block *)
Lemma args_end_block k l s args nst ns k' :
  T !! k = Some (tok l s) -> T !! S k = Some (tok (l + count_lf s) "{") ->
  Forall (fun a => plain a = true) args -> nst <= 255 ->
  runs (fun f => nodes_loop f false []) (at_tok (S (S k)) (nst + 1)) (ns, at_tok k' nst) ->
  runs (fun f => args_loop f args None false) (at_tok (S k) nst) ((args, Some ns), at_tok k' nst).
Proof.
  intros Hk Hk' Ha Hn Hr. apply runs_S. simpl.
  eapply runs_bind_eq; [apply p_move_at; by eapply NextArg_at|]. simpl.
  eapply runs_bind_eq; [done|]. simpl.
  eapply runs_bind_eq; [by eapply Val_at|]. case_decide; [|done].
  eapply runs_bind; [|exists O; intros f _; by apply after_args_plain].
  unfold readNodes. eapply runs_bind_eq; [done|]. simpl. case_match; [lia|].
  eapply runs_bind_eq; [done|]. exact Hr.
Qed.

(** A name and what follows it *)
Lemma readNode_run k l name args ch nst k' :
  T !! k = Some (tok l name) -> plain_name name = true ->
  runs (fun f => args_loop f [] None false) (at_tok (S k) nst) ((args, ch), at_tok k' nst) ->
  runs (fun f => readNode (args_loop f)) (at_tok (S k) nst)
    (mkNode name args ch false false loc l, at_tok k' nst).
Proof.
  intros Hk (Hp & Hv & _ & H40)%plain_name_spec Hr. unfold readNode.
  eapply runs_bind_eq; [done|]. eapply runs_bind_eq; [done|]. eapply runs_bind_eq; [by eapply Val_at|].
  case_decide as Hd; [by apply plain_not_open in Hd|].
  assert (Hsn : isSnippet name = None).
  { unfold isSnippet. rewrite (no_prefix _ _ (of_byte 40)); [done| |done].
    destruct (has_byte (of_byte 40) name) eqn:E; [|done]. by apply has_byte_runes in E. }
  rewrite Hsn. eapply runs_bind; [exact Hr|].
  assert (Hm : parseAsMacro name args (at_tok k' nst) = POk (None, at_tok k' nst)).
  { unfold parseAsMacro. rewrite (no_prefix _ _ (of_byte 36)); [done| |done]. apply plain_free; set_solver. }
  eapply runs_bind_eq; [exact Hm|]. rewrite Hv. apply runs_const. simpl.
  erewrite File_at, Line_at by done. done.
Qed.

Lemma expand_arg_plain a c : plain a = true -> expand_arg a c = POk ([a], c).
Proof.
  intros Ha. assert (Hd : has_byte (of_byte 36) a = false) by (apply plain_free; set_solver).
  unfold expand_arg. rewrite (no_prefix _ _ (of_byte 36)), (no_contains _ _ (of_byte 36)) by done. done.
Qed.
Lemma p_map_id {A B} (f : A -> Parser B) (g : A -> B) l c :
  Forall (fun a => f a c = POk (g a, c)) l -> p_map f l c = POk (map g l, c).
Proof.
  induction 1 as [|a l Ha _ IH]; [done|]. simpl. unfold mbind, parser_bind. rewrite Ha, IH. done.
Qed.
Lemma concat_singletons {A} (l : list A) : concat (map (fun a => [a]) l) = l.
Proof. induction l; simpl; congruence. Qed.

Lemma on_lines_Forall (P : Node -> Prop) (f : Z -> Node -> Node) ns l :
  Forall (fun n => forall l, P (f l n)) ns -> Forall P (on_lines f l ns).
Proof. intros Hn. revert l. induction Hn as [|n ns Hn _ IH]; intros l; simpl; constructor; auto. Qed.

(** A tree without macros is not changed by their expansion. *)
Lemma expandMacros_locate n levels l c :
  printable levels n = true -> expandMacros (locate loc l n) c = POk (locate loc l n, c).
Proof.
  revert levels l. induction n as [name args ch snippet macro file l0 IH] using Node_nested_ind.
  intros levels l Hp. apply printable_spec in Hp as (Hn & Ha & Hc). apply plain_name_spec in Hn as (Hn & _).
  simpl. rewrite (no_prefix _ _ (of_byte 36)) by (done || (apply plain_free; set_solver)). simpl.
  unfold mbind at 1, parser_bind at 1.
  rewrite (p_map_id _ (fun a => [a])) by (eapply Forall_impl; [exact Ha|]; intros; by apply expand_arg_plain).
  rewrite concat_singletons. destruct ch as [ns|]; [|done]. simpl in IH |- *. destruct Hc as (j & -> & Hc).
  unfold mbind, parser_bind. rewrite (p_map_id _ id); [by rewrite list_fmap_id|].
  apply on_lines_Forall. rewrite Forall_forall in IH, Hc |- *. intros n Hin l1. by eapply IH; [|apply Hc].
Qed.

(** The tokens of a node: its name first, and an end on its last line. *)
Lemma str_toks_last l s strs :
  exists lt t, last (str_toks l (s :: strs)) = Some (tok lt t) /\ lt + count_lf t = l + lfs (s :: strs).
Proof.
  revert l s. induction strs as [|s' strs IH]; intros l s; [exists l, s; split; [done|simpl; lia]|].
  destruct (IH (l + count_lf s) s') as (lt & t & Hl & He). exists lt, t. split; [exact Hl|]. simpl in *. lia.
Qed.
Lemma node_toks_last l n :
  exists lt s, last (node_toks l n) = Some (tok lt s) /\ lt + count_lf s + 1 = l + lines_of n.
Proof.
  destruct n as [name args ch snippet macro file l0]. cbn [node_toks lines_of]. destruct ch as [ns|].
  - eexists _, "}"%string. split; [by rewrite app_comm_cons, app_assoc, last_snoc|]. simpl. lia.
  - rewrite app_nil_r. destruct (str_toks_last l name args) as (lt & t & Hl & He). exists lt, t. split; [done|lia].
Qed.
Lemma node_toks_head l n : exists toks, node_toks l n = tok l (node_Name n) :: toks.
Proof. destruct n as [name args ch ?? ??]. by eexists. Qed.

Lemma seg_last k toks t : seg k toks -> last toks = Some t -> exists j, (k + length toks = S j)%nat /\ T !! j = Some t.
Proof.
  intros Hs Hl. rewrite last_lookup in Hl. pose proof (lookup_lt_Some _ _ _ Hl).
  exists (k + pred (length toks))%nat. split; [lia|]. by apply Hs.
Qed.
Lemma seg_node_last k l n :
  seg k (node_toks l n) ->
  exists j lt s, (k + length (node_toks l n) = S j)%nat /\ T !! j = Some (tok lt s) /\ lt + count_lf s + 1 = l + lines_of n.
Proof.
  intros Hs. destruct (node_toks_last l n) as (lt & s & Hl & He).
  destruct (seg_last _ _ _ Hs Hl) as (j & ? & ?). by exists j, lt, s.
Qed.

Lemma from_line_nodes k l ns :
  seg k (concat (on_lines node_toks l ns)) ->
  from_line (k + length (concat (on_lines node_toks l ns))) (l + total (map lines_of ns)) -> from_line k l.
Proof.
  destruct ns as [|n ns]; simpl; [by rewrite Nat.add_0_r, Z.add_0_r|].
  intros [Hs _]%seg_app _ t Ht. destruct (node_toks_head l n) as [toks E]. rewrite E in Hs.
  apply seg_cons in Hs as [Hk _]. simplify_eq. simpl. split; [done|lia].
Qed.

Definition reads (n : Node) : Prop := forall levels l k nst,
  printable levels n = true -> seg k (node_toks l n) ->
  from_line (k + length (node_toks l n)) (l + lines_of n) -> 0 <= nst -> nst + Z.of_nat levels <= 256 ->
  runs (fun f => readNode (args_loop f)) (at_tok (S k) nst)
    (locate loc l n, at_tok (k + length (node_toks l n)) nst).

(** Whether the loop of readNodes may go on at token [k]: always at the start of a
    block, later only on a new line. *)
Definition fresh_line (rq : bool) (k : nat) (l : Z) : Prop :=
  if rq then exists j lt s, k = S j /\ T !! j = Some (tok lt s) /\ lt + count_lf s < l else True.

Lemma next_node_run rq k l s nst :
  fresh_line rq k l -> T !! k = Some (tok l s) ->
  next_node rq (at_tok k nst) = POk (true, at_tok (S k) nst).
Proof.
  intros Hf Hk. destruct rq; simpl in Hf |- *.
  - destruct Hf as (j & lt & s' & -> & Hj & Hl). unfold mbind, parser_bind.
    erewrite p_move_at by by eapply NextLine_at. done.
  - apply p_move_at. by eapply Next_at.
Qed.

Lemma locate_plain l n levels c :
  printable levels n = true ->
  trailing_brace (locate loc l n) c = POk ((locate loc l n, false), c)
  /\ node_Macro (locate loc l n) || node_Snippet (locate loc l n) = false.
Proof.
  destruct n as [name args ch snippet macro file l0]. intros Hp. apply printable_spec in Hp as (_ & Ha & _).
  split; [|done]. unfold trailing_brace. simpl. destruct (last args) as [a|] eqn:E; [|done].
  apply plain_last in E; [|done]. apply plain_not_close in E. by repeat case_match; simplify_eq.
Qed.

Lemma nodes_run levels ns :
  Forall reads ns -> Forall (fun n => printable levels n = true) ns ->
  forall l k nst rq res r, seg k (concat (on_lines node_toks l ns)) ->
  from_line (k + length (concat (on_lines node_toks l ns))) (l + total (map lines_of ns)) ->
  fresh_line rq k l -> 0 <= nst -> nst + Z.of_nat levels <= 256 ->
  (forall rq, fresh_line rq (k + length (concat (on_lines node_toks l ns))) (l + total (map lines_of ns)) ->
    runs (fun f => nodes_loop f rq (res ++ on_lines (locate loc) l ns))
      (at_tok (k + length (concat (on_lines node_toks l ns))) nst) r) ->
  runs (fun f => nodes_loop f rq res) (at_tok k nst) r.
Proof.
  intros Hrs Hps. revert Hps. induction Hrs as [|n ns Hn _ IH]; intros Hps l k nst rq res r Hs Hend Hf H0 Hlev Hr.
  { simpl in *. rewrite Nat.add_0_r, Z.add_0_r, app_nil_r in Hr. by apply Hr. }
  inversion Hps as [|?? Hpn Hpns]; simplify_eq. simpl in *.
  rewrite length_app, Nat.add_assoc, Z.add_assoc in *. apply seg_app in Hs as [Hs Hss].
  destruct (node_toks_head l n) as [toks Eh]. pose proof Hs as Hs'. rewrite Eh in Hs'. apply seg_cons in Hs' as [Hk _].
  apply runs_S. simpl. eapply runs_bind_eq; [by eapply next_node_run|]. simpl.
  eapply runs_bind_eq; [by eapply Val_at|]. case_decide as Hd.
  { destruct n. apply printable_spec in Hpn as (Hpn & _). apply plain_name_spec in Hpn as (Hpn & _).
    by apply plain_not_close in Hd. }
  eapply runs_bind; [eapply Hn; [exact Hpn|exact Hs|by eapply from_line_nodes|done..]|].
  destruct (locate_plain l n levels (at_tok (k + length (node_toks l n)) nst) Hpn) as [Htb Hms].
  eapply runs_bind_eq; [exact Htb|]. simpl. rewrite Hms.
  eapply runs_bind_eq; [by eapply expandMacros_locate|]. simpl.
  eapply (IH Hpns _ (k + length (node_toks l n))%nat nst true); [done|done| |done|done|].
  - destruct (seg_node_last _ _ _ Hs) as (j & lt & s & -> & Hj & He). exists j, lt, s. repeat split; [done|lia].
  - intros rq' Hf'. rewrite <-app_assoc. by apply Hr.
Qed.

Lemma add_nesting_at m k n : add_nesting m (at_tok k n) = at_tok k (n + m).
Proof. done. Qed.

Lemma read_node n : reads n.
Proof.
  induction n as [name args ch snippet macro file l0 IH] using Node_nested_ind.
  intros levels l k nst Hp Hs Hend H0 Hlev. apply printable_spec in Hp as (Hn & Ha & Hc).
  cbn [node_toks] in *. pose proof Hs as Hs'. apply seg_app in Hs' as [Hh Hb]. cbn [str_toks] in Hh.
  apply seg_cons in Hh as [Hk Hargs].
  assert (Hlast : exists lt t, T !! (k + length args)%nat = Some (tok lt t) /\ lt + count_lf t = l + lfs (name :: args)).
  { apply seg_app in Hs as [Hs _]. destruct (str_toks_last l name args) as (lt & t & Hl & He).
    destruct (seg_last _ _ _ Hs Hl) as (j & Hj & HT). exists lt, t. split; [|done].
    rewrite str_toks_length in Hj. simpl in Hj. by replace (k + length args)%nat with j by lia. }
  destruct Hlast as (lt & t & HT & Hlt).
  cbn [locate lines_of] in *. remember (lfs (name :: args)) as w eqn:Ew. clear Ew. rewrite length_app, str_toks_length in *. simpl length in *.
  eapply readNode_run; [done..|]. eapply (args_run k l name args None []); [done..|]. simpl app.
  destruct ch as [ns|]; simpl in IH |- *.
  - destruct Hc as (j & -> & Hc). apply seg_cons in Hb as [Hopen Hb]. apply seg_app in Hb as [Hns Hclose].
    rewrite length_app in *. simpl length in *. apply seg_cons in Hclose as [Hclose _].
    eapply args_end_block; [done| |done|lia|].
    { rewrite Hlt, <-Hopen. f_equal. lia. }
    replace (S (S (k + length args))) with (S (k + S (length args))) by lia.
    eapply (nodes_run j ns IH Hc); [exact Hns| |done|lia|lia|].
    + intros x Hx. rewrite Hclose in Hx. simplify_eq. simpl. split; [done|lia].
    + intros rq Hf. apply runs_S. simpl.
      eapply runs_bind_eq; [eapply next_node_run; [exact Hf|exact Hclose]|]. simpl.
      eapply runs_bind_eq; [by eapply Val_at|]. case_decide; [|done]. apply runs_const.
      unfold close_block, mbind, parser_bind. simpl. replace (nst + 1 + -1 <? 0) with false by lia.
      unfold mret, parser_ret. rewrite add_nesting_at. do 2 f_equal. f_equal; lia.
  - rewrite Nat.add_0_r. replace (k + S (length args))%nat with (S (k + length args)) by lia.
    eapply args_end_plain; [done| |done]. rewrite Hlt. intros x Hx.
    destruct (Hend x) as [? ?]; [rewrite <-Hx; apply (f_equal (fun i => T !! i)); simpl; lia|]. split; [done|lia].
Qed.
End ParsePrinted.

(** ** Imports and variables leave a printable tree alone *)

Section ReadPrinted.
Context `{UnicodeTables} (os_Open : string -> Opened) (loc : string).

Definition import_free (n : Node) : Prop :=
  node_Name n <> "import"%string /\ forall k c, expandImports os_Open k n c = POk (n, c).

Lemma with_children_same l n : node_Children n = Some l -> with_children l n = n.
Proof. destruct n. unfold with_children. simpl. by intros ->. Qed.

Lemma expandImports_same k n c :
  Forall import_free (children n) -> expandImports os_Open k n c = POk (n, c).
Proof.
  intros Hf. destruct k as [|k].
  - destruct n as [name args [ns|] snippet macro file l0]; [|done]. simpl in *. unfold mbind at 1, parser_bind at 1.
    rewrite (p_map_id _ id); [by rewrite list_fmap_id|]. eapply Forall_impl; [exact Hf|].
    intros n [Hn He]. unfold mbind, parser_bind. specialize (He O c). simpl in He. rewrite He. by rewrite decide_False.
  - cbn [expandImports]. unfold children in Hf. destruct (node_Children n) as [ns|] eqn:E; [|done]. simpl in Hf.
    unfold mbind at 1, parser_bind at 1. rewrite (p_map_id _ (fun n => (false, [n]))).
    + assert (Hx : existsb fst (map (fun n : Node => (false, [n])) ns) = false)
        by (clear; induction ns; simpl; done).
      rewrite Hx, map_map. simpl. by rewrite concat_singletons, with_children_same.
    + eapply Forall_impl; [exact Hf|]. intros n1 [Hn He]. unfold mbind, parser_bind. rewrite He. by rewrite decide_False.
Qed.

Lemma locate_import_free levels n l : printable levels n = true -> import_free (locate loc l n).
Proof.
  revert levels l. induction n as [name args ch snippet macro file l0 IH] using Node_nested_ind.
  intros levels l Hp. apply printable_spec in Hp as (Hn & _ & Hc). apply plain_name_spec in Hn as (_ & _ & Hi & _).
  split; [exact Hi|]. intros k c. apply expandImports_same. destruct ch as [ns|]; [|constructor].
  destruct Hc as (j & -> & Hc). simpl in *. unfold children. simpl. apply on_lines_Forall.
  rewrite Forall_forall in IH, Hc |- *. intros n Hin l1. by eapply IH; [|apply Hc].
Qed.

Definition braced (p : string * string) : Prop := has_byte (of_byte 123) p.1 = true.

Lemma buildEnvReplacer_spec environ :
  Forall (fun entry => cut_eq entry <> None) environ ->
  exists pairs, buildEnvReplacer environ = Done pairs /\ Forall braced pairs.
Proof.
  induction 1 as [|entry environ He _ (pairs & Hp & Hb)]; [by exists []|]. simpl.
  destruct (cut_eq entry) as [[key value]|]; [|done]. rewrite Hp.
  eexists. split; [reflexivity|]. constructor; [|done]. by unfold braced.
Qed.

Lemma replace_pairs_same pairs s :
  Forall braced pairs -> has_byte (of_byte 123) s = false -> replace_pairs pairs s 0 = s.
Proof.
  intros Hb. induction s as [|a s IH]; intros Hs; [done|]. cbn [replace_pairs].
  assert (E : list_find (fun p => HasPrefix (String a s) p.1 = true) pairs = None).
  { apply list_find_None. eapply Forall_impl; [exact Hb|]. intros p Hp. cbv beta.
    rewrite (no_prefix _ _ (of_byte 123)) by done. done. }
  rewrite E, IH; [done|]. simpl in Hs. by apply orb_false_iff in Hs as [_ ?].
Qed.
Lemma remove_matches_same p close s a :
  has_byte a p = true -> has_byte a s = false -> remove_matches p close s 0 = s.
Proof.
  intros Hp. induction s as [|b s IH]; intros Hs; [done|]. cbn [remove_matches].
  unfold group_at. rewrite (no_prefix _ _ a) by done. rewrite IH; [done|].
  simpl in Hs. by apply orb_false_iff in Hs as [_ ?].
Qed.
Lemma expand_str_plain pairs s : Forall braced pairs -> plain s = true -> expand_str pairs s = s.
Proof.
  intros Hb Hs. assert (Hf : has_byte (of_byte 123) s = false) by (apply plain_free; set_solver).
  unfold expand_str, removeUnexpandedEnvvars. rewrite replace_pairs_same by done.
  by apply (remove_matches_same _ _ _ (of_byte 123)).
Qed.

Lemma expandEnvironment_locate pairs n levels l :
  Forall braced pairs -> printable levels n = true -> expandEnvironment pairs (locate loc l n) = locate loc l n.
Proof.
  intros Hb. revert levels l. induction n as [name args ch snippet macro file l0 IH] using Node_nested_ind.
  intros levels l Hp. apply printable_spec in Hp as (Hn & Ha & Hc). apply plain_name_spec in Hn as (Hn & _).
  cbn [locate expandEnvironment]. f_equal; [by apply expand_str_plain| |].
  - induction Ha as [|a args Ha _ IHa]; [done|]. simpl. f_equal; [by apply expand_str_plain|done].
  - destruct ch as [ns|]; [|done]. destruct Hc as (j & -> & Hc). simpl in *. f_equal.
    generalize (l + (count_lf name + lfs args) + 1).
    induction IH as [|n ns Hn1 _ IHns]; intros l1; [done|]. inversion Hc; simplify_eq. simpl.
    f_equal; [by eapply Hn1|by apply IHns].
Qed.

Lemma next_node_end T rq l nst :
  fresh_line T rq (length T) l -> next_node rq (at_tok loc T (length T) nst) = POk (false, at_tok loc T (length T) nst).
Proof.
  intros Hf. assert (He : T !! length T = None) by (apply lookup_ge_None; lia).
  destruct rq; cbn [fresh_line next_node] in *; [|by apply p_move_at, Next_end].
  destruct Hf as (j & lt & s & Ej & Hj & _). rewrite Ej in *. unfold mbind, parser_bind.
  rewrite (p_move_at _ _ NextLine (S j) (S j) false) by by eapply NextLine_end.
  by rewrite (p_move_at _ _ Next (S j) (S j) false) by by apply Next_end.
Qed.

(** The loop over the top level, to the end of the tokens *)
Lemma read_top levels ns (T := concat (on_lines node_toks 1 ns)) :
  Forall (fun n => printable levels n = true) ns -> Z.of_nat levels <= 256 ->
  runs (fun f => readNodes (nodes_loop f)) (at_tok loc T 0 (-1))
    (on_lines (locate loc) 1 ns, at_tok loc T (length T) 0).
Proof.
  intros Hp Hl. unfold readNodes. eapply runs_bind_eq; [done|]. simpl. eapply runs_bind_eq; [done|].
  rewrite add_nesting_at. eapply (nodes_run loc T levels ns); [|done|..].
  - apply Forall_forall. intros n _. apply read_node.
  - fold T. by intros i t Hi.
  - fold T. simpl. intros t Ht. apply lookup_lt_Some in Ht. lia.
  - done.
  - lia.
  - lia.
  - fold T. simpl. intros rq Hf. apply runs_S. simpl.
    eapply runs_bind_eq; [by eapply next_node_end|]. by apply runs_const.
Qed.

(** C19: a configuration tree that is printed, one directive a line with every
    string quoted and every block in braces, is read back as it was, whatever the
    files around and whatever the environment: same names, arguments and blocks in
    the same order (an empty block is told from none), and the file and the line
    of each directive are those of its name in the text.  The strings may hold
    blanks, quotes, comment signs and line breaks, but not a backslash, a brace or
    a dollar sign, and blocks may be nested 256 deep. *)
Theorem Read_print nodes environ :
  Forall (fun n => printable 256 n = true) nodes ->
  Forall (fun entry => cut_eq entry <> None) environ ->
  Read os_Open environ (print_nodes nodes) None loc = POk (on_lines (locate loc) 1 nodes).
Proof.
  intros Hp He. destruct (buildEnvReplacer_spec environ He) as (pairs & Hpairs & Hb).
  unfold Read, readTree. rewrite Hpairs. erewrite tokens_print by done.
  set (T := concat (on_lines node_toks 1 nodes)).
  change (mkCtx (mkDispenser loc T (-1) 0) (-1) ∅ ∅ loc) with (at_tok loc T 0 (-1)).
  set (d := mkDispenser loc T (-1) 0).
  assert (Hr : readNodes (nodes_loop (parse_fuel d)) (at_tok loc T 0 (-1))
             = POk (on_lines (locate loc) 1 nodes, at_tok loc T (length T) 0)).
  { destruct (read_top 256 nodes Hp) as [F HF]; [lia|]. fold T in HF.
    pose proof (readNodes_total d (-1) ∅ ∅ loc eq_refl) as Ht.
    destruct (readNodes_refines _ _ (nodes_loop_refines (parse_fuel d) (F `max` parse_fuel d) ltac:(lia)) (at_tok loc T 0 (-1)))
      as [E|E]; [by unfold ends in Ht; change (mkCtx d (-1) ∅ ∅ loc) with (at_tok loc T 0 (-1)) in Ht; rewrite E in Ht|].
    rewrite E. apply HF. lia. }
  unfold mbind, parser_bind. rewrite Hr. unfold p_gets. change (0 <? pc_nesting (at_tok loc T (length T) 0)) with false. cbv beta iota.
  rewrite expandImports_same.
  2: { unfold children. simpl. apply on_lines_Forall. eapply Forall_impl; [exact Hp|]. intros n Hn l. by apply (locate_import_free 256). }
  unfold children, mret, parser_ret. simpl. f_equal. clear -Hp Hb os_Open. generalize 1. induction Hp as [|n ns Hn Hns IH]; intros l; [done|].
  simpl. f_equal; [by apply (expandEnvironment_locate _ _ 256)|by apply IH].
Qed.
End ReadPrinted.

#[local] Existing Instance ascii_tables.
Definition sample_tree : list Node :=
  [ Config.block "smtp" ["tcp://0.0.0.0:25"]
      [ directive "hostname" ["mx.example.org"];
        directive "banner" ["two words # no comment"; ""];
        Config.block "limits" [] [] ];
    directive "state_dir" ["/var/lib"] ].

Example sample_text :
  print_nodes [Config.block "a" ["b c"] [directive "d" []]] =
  lines [quote_str +:+ "a" +:+ quote_str +:+ " " +:+ quote_str +:+ "b c" +:+ quote_str +:+ " {";
         quote_str +:+ "d" +:+ quote_str; "}"; ""].
Proof. vm_compute. reflexivity. Qed.

Lemma Read_print_witness :
  Forall (fun n => printable 256 n = true) sample_tree /\
  Read no_files ["HOME=/root"] (print_nodes sample_tree) None "test" = POk (on_lines (locate "test") 1 sample_tree).
Proof.
  assert (Hs : Forall (fun n => printable 256 n = true) sample_tree) by (repeat constructor; vm_compute; reflexivity).
  split; [exact Hs|]. apply Read_print; [exact Hs|]. by repeat constructor.
Defined.
