(* ===== verification/DnsCheck.v ===== *)
(** * DnsCheck: the DNS check of the command line (cmd/sirrmeshd/cmd/dns.go)

    [sirrmeshd dns check]: the records it asks for, the table it prints and its verdict.
    The lookups of package net are the class [NetLookups]. *)
From S2P Require Import Prelude GoStr GoText ExtErrors.
From stdpp Require Import pretty.
From Stdlib Require Import Ascii ZifyBool.

Local Open Scope Z_scope.

(** ** net.IP *)

Notation IP := (list Z).
Definition v4InV6Prefix : list Z := replicate 10 0 ++ [255; 255].
Definition To4 (ip : IP) : option IP :=
  if decide (length ip = 4%nat) then Some ip
  else if decide (length ip = 16%nat /\ take 12 ip = v4InV6Prefix) then Some (drop 12 ip)
  else None.
Definition To16 (ip : IP) : option IP :=
  if decide (length ip = 4%nat) then Some (v4InV6Prefix ++ ip)
  else if decide (length ip = 16%nat) then Some ip
  else None.
Definition is4 (ip : IP) : bool := bool_decide (is_Some (To4 ip)).
Definition is6 (ip : IP) : bool := negb (is4 ip) && bool_decide (is_Some (To16 ip)).

(** LookupIP, LookupMX (with the priorities), LookupTXT and LookupAddr of package net,
    and IP.String; the answers of one run. *)
Class NetLookups := {
  LookupIP : string -> list IP * error;
  LookupMX : string -> list (string * Z) * error;
  LookupTXT : string -> list string * error;
  LookupAddr : string -> list string * error;
  IP_String : IP -> string
}.

(** ** fmt: a width counts runes *)

Fixpoint spaces (n : nat) : string := match n with O => "" | S n => String " " (spaces n) end.
Definition pad_right (width : nat) (s : string) : string := s +:+ spaces (width - length (runes s)).

Section Check.
Context `{NetLookups}.

Record DNSRecord := mkDNSRecord {
  RecordType : string;
  Name : string;
  Content : list string;
  Priority : Z;
  Status : string;
  rec_Error : string
}.
Definition found (RecordType Name : string) (Content : list string) : DNSRecord := mkDNSRecord RecordType Name Content 0 "OK" "".
Definition missing (RecordType Name text : string) : DNSRecord := mkDNSRecord RecordType Name [] 0 "NOT_FOUND" text.
Definition failed (RecordType Name : string) (err : gerror) : DNSRecord := mkDNSRecord RecordType Name [] 0 "ERROR" (Error err).

(** ** The lookups, in the order of the code *)

Definition v4s (ips : list IP) : list string := map IP_String (filter (fun ip => is4 ip = true) ips).
Definition v6s (ips : list IP) : list string := map IP_String (filter (fun ip => is6 ip = true) ips).
(** The addresses: the records, and aIPs *)
Definition check_A (domain : string) : list DNSRecord * list string :=
  let '(ips, err) := LookupIP domain in
  match err with
  | Some err => ([failed "A" domain err], [])
  | None =>
    let aIPs := v4s ips in
    match aIPs with
    | [] => ([missing "A" domain "未找到IPv4地址"], [])
    | _ => ([found "A" domain aIPs], aIPs)
    end
  end.
Definition check_AAAA (domain : string) : list DNSRecord :=
  match v6s (LookupIP domain).1 with [] => [] | aaaaIPs => [found "AAAA" domain aaaaIPs] end.
(** The MX records, and mxHosts *)
Definition mx_record (domain mxHost : string) (pref : Z) : DNSRecord := mkDNSRecord "MX" domain [mxHost] pref "OK" "".
Definition check_MX (domain : string) : list DNSRecord * list string :=
  match LookupMX domain with
  | (_, Some err) => ([failed "MX" domain err], [])
  | ([], None) => ([missing "MX" domain "未找到MX记录"], [])
  | (mxRecords, None) =>
    (map (fun mx => mx_record domain (TrimSuffix mx.1 ".") mx.2) mxRecords, map (fun mx => TrimSuffix mx.1 ".") mxRecords)
  end.
Definition check_mx_addresses (mxHost : string) : list DNSRecord :=
  match LookupIP mxHost with
  | (_, Some err) => [failed "A (MX主机)" mxHost err]
  | (mxIPs, None) =>
    let mxA := v4s mxIPs in let mxAAAA := v6s mxIPs in
    (match mxA with [] => [] | _ => [found "A (MX主机)" mxHost mxA] end) ++
    (match mxAAAA with [] => [] | _ => [found "AAAA (MX主机)" mxHost mxAAAA] end) ++
    (match mxA, mxAAAA with [], [] => [missing "A/AAAA (MX主机)" mxHost "MX主机无IP地址"] | _, _ => [] end)
  end.
(** The first text that satisfies a test, as a record *)
Definition first_txt (test : string -> bool) (shown : string -> string) (RecordType Name : string) (txts : list string) : list DNSRecord :=
  match filter (fun txt => test txt = true) txts with [] => [] | txt :: _ => [found RecordType Name [shown txt]] end.
Definition is_spf (txt : string) : bool := HasPrefix txt "v=spf1".
Definition check_mx_spf (mxHost : string) : list DNSRecord := first_txt is_spf (fun txt => txt) "TXT (MX SPF)" mxHost (LookupTXT mxHost).1.
Definition check_mx_hosts (mxHosts : list string) : list DNSRecord :=
  mxHosts ≫= (fun mxHost => check_mx_addresses mxHost ++ check_mx_spf mxHost).
(** All SPF records of the domain are kept; the error of the lookup is dropped. *)
Definition check_SPF (domain : string) : list DNSRecord :=
  match filter (fun txt => is_spf txt = true) (LookupTXT domain).1 with
  | [] => [missing "TXT (SPF)" domain "未找到SPF记录"]
  | txts => map (fun txt => found "TXT (SPF)" domain [txt]) txts
  end.
(** A name that holds at least one text of a kind, when the lookup succeeds *)
Definition check_txt (test : string -> bool) (shown : string -> string) (RecordType Name : string) : list DNSRecord :=
  match LookupTXT Name with (txts, None) => first_txt test shown RecordType Name txts | (_, Some _) => [] end.
Definition or_missing (RecordType Name text : string) (records : list DNSRecord) : list DNSRecord :=
  match records with [] => [missing RecordType Name text] | _ => records end.
Definition is_dkim (txt : string) : bool := Contains txt "DKIM1" || Contains txt "k=rsa".
Definition displayTxt (txt : string) : string := if (100 <? String.length txt)%nat then str_take 97 txt +:+ "..." else txt.
Definition check_DKIM (domain : string) : list DNSRecord :=
  let dkimDomain := "default._domainkey." +:+ domain in
  or_missing "TXT (DKIM)" dkimDomain "未找到DKIM记录" (check_txt is_dkim displayTxt "TXT (DKIM)" dkimDomain).
Definition is_dmarc (txt : string) : bool := Contains txt "DMARC1".
Definition check_DMARC (domain : string) : list DNSRecord :=
  let dmarcDomain := "_dmarc." +:+ domain in
  or_missing "TXT (DMARC)" dmarcDomain "未找到DMARC记录" (check_txt is_dmarc (fun txt => txt) "TXT (DMARC)" dmarcDomain).
Definition check_MTASTS (domain : string) : list DNSRecord :=
  check_txt (fun txt => Contains txt "STSv1") (fun txt => txt) "TXT (MTA-STS)" ("_mta-sts." +:+ domain).
Definition check_TLSRPT (domain : string) : list DNSRecord :=
  check_txt (fun txt => Contains txt "TLSRPTv1") (fun txt => txt) "TXT (TLSRPT)" ("_smtp._tls." +:+ domain).
(** The first address that has names *)
Fixpoint find_ptr (aIPs : list string) : option DNSRecord :=
  match aIPs with
  | [] => None
  | ip :: aIPs => match LookupAddr ip with ((_ :: _) as names, None) => Some (found "PTR" ip names) | _ => find_ptr aIPs end
  end.
Definition check_PTR (aIPs : list string) : list DNSRecord :=
  match aIPs with
  | [] => []
  | first :: _ => match find_ptr aIPs with Some r => [r] | None => [missing "PTR" first "未配置反向DNS"] end
  end.
Definition dns_records (domain : string) : list DNSRecord :=
  let '(a, aIPs) := check_A domain in
  let '(mx, mxHosts) := check_MX domain in
  a ++ check_AAAA domain ++ mx ++ check_mx_hosts mxHosts ++ check_SPF domain ++ check_DKIM domain ++ check_DMARC domain ++
  check_MTASTS domain ++ check_TLSRPT domain ++ check_PTR aIPs.

(** ** The table and the verdict *)

Definition statusText (record : DNSRecord) : string * string :=
  if decide (Status record = "NOT_FOUND") then ("❌", "缺失")
  else if decide (Status record = "ERROR") then ("❌", "错误")
  else ("✅", "正常").
Definition displayName (name : string) : string := if (33 <? String.length name)%nat then str_take 30 name +:+ "..." else name.
(** The lines of one record *)
Definition record_head (record : DNSRecord) (rest : string) : string :=
  let '(statusSymbol, text) := statusText record in
  pad_right 12 (RecordType record) +:+ " " +:+ statusSymbol +:+ " " +:+ pad_right 6 text +:+ " " +:+ pad_right 35 (displayName (Name record)) +:+ " " +:+ rest.
Definition record_lines (record : DNSRecord) : list string :=
  match Content record with
  | first :: more =>
    record_head record (if decide (RecordType record = "MX") then if 0 <? Priority record then "优先级:" +:+ FormatUint (Priority record) +:+ " " +:+ first else first else first)
    :: map (fun content => spaces 12 +:+ " " +:+ spaces 8 +:+ " " +:+ spaces 35 +:+ " " +:+ content) more
  | [] => [record_head record (if decide (rec_Error record = "") then "无数据" else rec_Error record)]
  end.
(** allPass and warningCount *)
Fixpoint count_records (records : list DNSRecord) (allPass : bool) (warningCount : nat) : bool * nat :=
  match records with
  | [] => (allPass, warningCount)
  | record :: records =>
    if decide (Status record = "NOT_FOUND") then
      if decide (RecordType record = "PTR") then count_records records allPass (S warningCount) else count_records records false warningCount
    else if decide (Status record = "ERROR") then count_records records false warningCount
    else count_records records allPass warningCount
  end.
Inductive verdict :=
| AllCorrect                                    (* every record is right *)
| NoPTR                                         (* all but reverse DNS *)
| Incomplete (missing : list (string * string)). (* with the records listed as missing *)
Definition missing_list (records : list DNSRecord) : list (string * string) :=
  map (fun r => (RecordType r, Name r)) (filter (fun r => Status r = "NOT_FOUND" /\ RecordType r <> "PTR") records).
Definition conclude (records : list DNSRecord) : verdict :=
  let '(allPass, warningCount) := count_records records true 0 in
  if allPass && Nat.eqb warningCount 0 then AllCorrect
  else if allPass && Nat.ltb 0 warningCount then NoPTR
  else Incomplete (missing_list records).
(** runDNSCheck: the lines of the table and the conclusion *)
Definition runDNSCheck (domain : string) : list string * verdict :=
  let records := dns_records domain in
  (records ≫= record_lines, conclude records).
End Check.

(** ** When the check passes *)

Section Verdict.
Context `{NetLookups}.

Definition record_ok (r : DNSRecord) : bool :=
  if decide (Status r = "NOT_FOUND") then bool_decide (RecordType r = "PTR") else negb (bool_decide (Status r = "ERROR")).
Definition no_ptr (r : DNSRecord) : bool := bool_decide (Status r = "NOT_FOUND") && bool_decide (RecordType r = "PTR").
Definition ptr_count (records : list DNSRecord) : nat := length (List.filter no_ptr records).

Lemma count_records_spec records all n : count_records records all n = (all && forallb record_ok records, (n + ptr_count records)%nat).
Proof.
  revert all n. induction records as [|r records IH]; intros all n; [by rewrite andb_true_r, Nat.add_0_r|].
  cbn [count_records forallb]. unfold ptr_count. cbn [List.filter]. fold (ptr_count records). unfold record_ok at 1, no_ptr at 1.
  destruct (decide (Status r = "NOT_FOUND")) as [Hn|Hn].
  - rewrite (bool_decide_eq_true_2 _ Hn). destruct (decide (RecordType r = "PTR")) as [Hp|Hp].
    + rewrite (bool_decide_eq_true_2 _ Hp), IH. unfold ptr_count. cbn. f_equal. lia.
    + rewrite (bool_decide_eq_false_2 _ Hp), IH. cbn. by rewrite andb_false_r.
  - rewrite (bool_decide_eq_false_2 _ Hn). destruct (decide (Status r = "ERROR")) as [He|He].
    + rewrite (bool_decide_eq_true_2 _ He), IH. cbn. by rewrite andb_false_r.
    + by rewrite (bool_decide_eq_false_2 _ He), IH.
Qed.
Lemma forallb_app_bool {A} (f : A -> bool) l k : forallb f (l ++ k) = forallb f l && forallb f k.
Proof. induction l as [|a l IH]; [done|]. cbn. by rewrite IH, andb_assoc. Qed.
Lemma forallb_map_bool {A B} (f : B -> bool) (g : A -> B) l : forallb f (map g l) = forallb (fun x => f (g x)) l.
Proof. induction l as [|a l IH]; [done|]. cbn. by rewrite IH. Qed.
Lemma ptr_count_app l k : ptr_count (l ++ k) = (ptr_count l + ptr_count k)%nat.
Proof. unfold ptr_count. by rewrite List.filter_app, length_app. Qed.

#[local] Arguments v4s : simpl never.
#[local] Arguments v6s : simpl never.

(** A part of the records, with whether it passes and its PTR warnings *)
Definition part (l : list DNSRecord) (ok : bool) (warnings : nat) : Prop := forallb record_ok l = ok /\ ptr_count l = warnings.
Lemma part_app l k a b n m : part l a n -> part k b m -> part (l ++ k) (a && b) (n + m).
Proof. intros [<- <-] [<- <-]. split; [apply forallb_app_bool|apply ptr_count_app]. Qed.
Lemma part_found t n c : part [found t n c] true 0. Proof. done. Qed.
Lemma part_nil : part [] true 0. Proof. done. Qed.

(** What is asked of a domain *)
Definition given {A} (l : list A) : bool := match l with [] => false | _ => true end.
Definition no_error (err : error) : bool := match err with None => true | Some _ => false end.
Definition has_txt (test : string -> bool) (name : string) : bool := no_error (LookupTXT name).2 && existsb test (LookupTXT name).1.
Definition has_v4 (domain : string) : bool := no_error (LookupIP domain).2 && given (v4s (LookupIP domain).1).
Definition mx_reachable (mxHost : string) : bool :=
  no_error (LookupIP mxHost).2 && (given (v4s (LookupIP mxHost).1) || given (v6s (LookupIP mxHost).1)).
Definition has_mx (domain : string) : bool :=
  no_error (LookupMX domain).2 && given (LookupMX domain).1 && forallb (fun mx => mx_reachable (TrimSuffix mx.1 ".")) (LookupMX domain).1.
Definition has_ptr (domain : string) : bool :=
  existsb (fun ip => no_error (LookupAddr ip).2 && given (LookupAddr ip).1) (v4s (LookupIP domain).1).
Definition required (domain : string) : bool :=
  has_v4 domain && has_mx domain && existsb is_spf (LookupTXT domain).1 && has_txt is_dkim ("default._domainkey." +:+ domain) && has_txt is_dmarc ("_dmarc." +:+ domain).

Lemma check_A_part domain : part (check_A domain).1 (has_v4 domain) 0 /\ (has_v4 domain = true -> (check_A domain).2 = v4s (LookupIP domain).1).
Proof. unfold check_A, has_v4. destruct (LookupIP domain) as [ips [e|]]; [done|]. cbn. destruct (v4s ips); (split; [by split|done]). Qed.
Lemma check_AAAA_part domain : part (check_AAAA domain) true 0.
Proof. unfold check_AAAA. by destruct (v6s _). Qed.
Lemma mx_addresses_part mxHost : part (check_mx_addresses mxHost) (mx_reachable mxHost) 0.
Proof. unfold check_mx_addresses, mx_reachable. destruct (LookupIP mxHost) as [ips [e|]]; [done|]. cbn. by destruct (v4s ips), (v6s ips). Qed.
Lemma first_txt_spec test shown t n txts :
  first_txt test shown t n txts = [] /\ existsb test txts = false \/ (exists c, first_txt test shown t n txts = [found t n c]) /\ existsb test txts = true.
Proof.
  unfold first_txt. induction txts as [|txt txts IH]; [by left|]. rewrite filter_cons. cbn [existsb].
  destruct (test txt); cbn; [right; eauto|]. exact IH.
Qed.
Lemma first_txt_part test shown t n txts : part (first_txt test shown t n txts) true 0.
Proof. by destruct (first_txt_spec test shown t n txts) as [[-> _]|[[c ->] _]]. Qed.
Lemma check_txt_part test shown t n : part (check_txt test shown t n) true 0.
Proof. unfold check_txt. destruct (LookupTXT n) as [txts [e|]]; [done|apply first_txt_part]. Qed.
Lemma or_missing_part test shown t n x : t <> "PTR" -> part (or_missing t n x (check_txt test shown t n)) (has_txt test n) 0.
Proof.
  intros Ht. assert (Hm : part [missing t n x] false 0) by (split; unfold ptr_count; cbn; unfold record_ok, no_ptr; cbn [Status RecordType missing]; by rewrite (bool_decide_eq_false_2 (t = "PTR")) by done).
  unfold check_txt, has_txt. destruct (LookupTXT n) as [txts [e|]]; cbn; [exact Hm|].
  by destruct (first_txt_spec test shown t n txts) as [[-> ->]|[[c ->] ->]].
Qed.
Lemma mx_hosts_part hosts : part (check_mx_hosts hosts) (forallb mx_reachable hosts) 0.
Proof.
  induction hosts as [|h hosts IH]; [done|]. cbn [forallb]. change (check_mx_hosts (h :: hosts)) with ((check_mx_addresses h ++ check_mx_spf h) ++ check_mx_hosts hosts).
  rewrite <-(andb_true_r (mx_reachable h)). apply (part_app _ _ _ _ 0 0); [apply (part_app _ _ _ _ 0 0)|exact IH]; [apply mx_addresses_part|apply first_txt_part].
Qed.
Lemma mx_records_part domain (l : list (string * Z)) : part (map (fun mx => mx_record domain (TrimSuffix mx.1 ".") mx.2) l) true 0.
Proof. by induction l as [|mx l [H1 H2]]. Qed.
Lemma check_MX_part domain : part ((check_MX domain).1 ++ check_mx_hosts (check_MX domain).2) (has_mx domain) 0.
Proof.
  unfold check_MX, has_mx. destruct (LookupMX domain) as [[|mx l] [e|]]; try done. cbn [fst snd no_error given andb].
  apply (part_app _ _ true _ 0 0); [apply (mx_records_part domain (mx :: l))|].
  pose proof (mx_hosts_part (map (fun mx => TrimSuffix mx.1 ".") (mx :: l))) as Hh. rewrite forallb_map_bool in Hh. exact Hh.
Qed.
Lemma check_SPF_part domain : part (check_SPF domain) (existsb is_spf (LookupTXT domain).1) 0.
Proof.
  unfold check_SPF. induction (LookupTXT domain).1 as [|txt txts IH]; [done|]. rewrite filter_cons. cbn [existsb].
  destruct (is_spf txt); cbn [orb]; [|exact IH]. rewrite decide_True by done. generalize (filter (fun txt => is_spf txt = true) txts).
  intros k. change (part (map (fun txt => found "TXT (SPF)" domain [txt]) (txt :: k)) true 0). generalize (txt :: k). clear. intros k. by induction k as [|x k [H1 H2]].
Qed.
Lemma find_ptr_spec aIPs : match find_ptr aIPs with Some r => part [r] true 0 | None => True end /\
  existsb (fun ip => no_error (LookupAddr ip).2 && given (LookupAddr ip).1) aIPs = bool_decide (is_Some (find_ptr aIPs)).
Proof. induction aIPs as [|ip aIPs IH]; [done|]. cbn. destruct (LookupAddr ip) as [[|n ns] [e|]]; cbn; try exact IH. done. Qed.
Lemma check_PTR_part aIPs : aIPs <> [] ->
  part (check_PTR aIPs) true (if existsb (fun ip => no_error (LookupAddr ip).2 && given (LookupAddr ip).1) aIPs then 0 else 1).
Proof.
  intros Ha. destruct (find_ptr_spec aIPs) as [Hr He]. rewrite He. unfold check_PTR. destruct aIPs; [done|]. destruct (find_ptr _); [by apply Hr|done].
Qed.

(** The conclusion of the check is exactly what it claims.  All is correct when the
    domain has an IPv4 address, mail exchangers that all have an address, an SPF record,
    a DKIM key, a DMARC policy and a name for one of its addresses; only the name is
    reported when only it lacks; and anything else is reported as incomplete. *)
Theorem dns_check_verdict domain :
  (runDNSCheck domain).2 = if required domain then if has_ptr domain then AllCorrect else NoPTR else Incomplete (missing_list (dns_records domain)).
Proof.
  assert (exists ok n, part (dns_records domain) ok n /\ ok = required domain /\ (ok = true -> n = if has_ptr domain then 0%nat else 1%nat)) as (ok & n & [Ho Hn] & Hok & Hw).
  { destruct (check_A_part domain) as [HA Ha]. pose proof (check_MX_part domain) as HM. unfold dns_records.
    destruct (check_A domain) as [a aIPs], (check_MX domain) as [mx hosts]. cbn [fst snd] in *.
    set (ptr := check_PTR aIPs). exists (has_v4 domain && (has_mx domain && (existsb is_spf (LookupTXT domain).1 && (has_txt is_dkim ("default._domainkey." +:+ domain) &&
       (has_txt is_dmarc ("_dmarc." +:+ domain) && forallb record_ok ptr))))), (ptr_count ptr).
    split; [|].
    - apply (part_app _ _ _ _ 0); [exact HA|]. apply (part_app _ _ true _ 0); [apply check_AAAA_part|]. rewrite (app_assoc mx). apply (part_app _ _ _ _ 0); [exact HM|].
      apply (part_app _ _ _ _ 0); [apply check_SPF_part|]. apply (part_app _ _ _ _ 0); [by apply or_missing_part|]. apply (part_app _ _ _ _ 0); [by apply or_missing_part|].
      apply (part_app _ _ true _ 0); [apply check_txt_part|]. by apply (part_app _ _ true _ 0); [apply check_txt_part|].
    - unfold required, has_ptr. destruct (has_v4 domain) eqn:Ev; [|done]. specialize (Ha eq_refl).
      assert (Hne : aIPs <> []). { rewrite Ha. unfold has_v4 in Ev. intros E. rewrite E in Ev. by rewrite andb_false_r in Ev. }
      destruct (check_PTR_part aIPs Hne) as [H1 H2]. fold ptr in H1, H2. rewrite H1, H2, Ha. split; [by rewrite !andb_assoc, andb_true_r|done]. }
  unfold runDNSCheck, conclude. cbn. rewrite count_records_spec, Ho, Hn, Hok, <-Hok. cbn. destruct ok; [|done]. rewrite (Hw eq_refl). by destruct (has_ptr domain).
Qed.
End Verdict.

(** ** Examples *)

Definition sample_lookups : NetLookups := {|
  LookupIP := fun name => if bool_decide (name = "example.org" \/ name = "mx1.example.org") then ([[192; 0; 2; 1]], None) else ([], Some (ENew "no such host"));
  LookupMX := fun name => if bool_decide (name = "example.org") then ([("mx1.example.org.", 10)], None) else ([], Some (ENew "no such host"));
  LookupTXT := fun name =>
    if bool_decide (name = "example.org") then (["v=spf1 mx ~all"], None)
    else if bool_decide (name = "default._domainkey.example.org") then (["v=DKIM1; k=rsa; p=AA"], None)
    else if bool_decide (name = "_dmarc.example.org") then (["v=DMARC1; p=quarantine"], None)
    else ([], Some (ENew "no such host"));
  LookupAddr := fun _ => ([], None);
  IP_String := fun _ => "192.0.2.1" |}.
#[local] Existing Instance sample_lookups.
Example sample_verdict : (runDNSCheck "example.org").2 = NoPTR.
Proof. vm_compute. done. Qed.
(** A failed lookup counts against the domain but is not listed: where no MX record
    exists LookupMX gives an error, and the list of what is missing leaves it out. *)
Example failed_lookups_not_listed : (runDNSCheck "mx1.example.org").2
  = Incomplete [("TXT (SPF)", "mx1.example.org"); ("TXT (DKIM)", "default._domainkey.mx1.example.org"); ("TXT (DMARC)", "_dmarc.mx1.example.org")].
Proof. vm_compute. done. Qed.
