(* ===== verification/DnsGuide.v ===== *)
(** * DnsGuide: the DNS guide and export of the command line (cmd/sirrmeshd/cmd/dns.go)

    What the commands know of a server (loadDNSConfig), the DKIM key they make, the
    questions of the export with the tests of the answers, and the records they print in
    four formats.  Files, keys, the network and the terminal are parameters; a text that
    is printed is the list of its lines. *)
From S2P Require Import Prelude GoStr GoText ExtErrors Config ConfigParser DnsCheck.
From stdpp Require Import gmap pretty.
From Stdlib Require Import Ascii ZifyBool.

Local Open Scope Z_scope.

Record DNSConfig := mkDNSConfig {
  Hostname : string;
  PrimaryDomain : string;
  ServerIP : string;
  ServerIPv6 : string;
  DKIMPublicKey : string;
  PostmasterEmail : string;
  DMARCPolicy : string
}.

(** ** Addresses *)

Definition octet (ip : IP) (i : nat) : Z := default 0 (ip !! i).
(** [parsed] is net.ParseIP: nil, or the 16 bytes of the address; IsLoopback of what is
    not an IPv4 address is the test for ::1. *)
Definition IPv6loopback : list Z := replicate 15 0 ++ [1].
Definition isPrivateIP (parsed : option IP) : bool :=
  match parsed with
  | None => true
  | Some ip =>
    if is4 ip then
      (octet ip 12 =? 10) || ((octet ip 12 =? 172) && (16 <=? octet ip 13) && (octet ip 13 <=? 31)) ||
      ((octet ip 12 =? 192) && (octet ip 13 =? 168)) || (octet ip 12 =? 127)
    else
      ((252 <=? octet ip 0) && (octet ip 0 <=? 253)) || ((octet ip 0 =? 254) && (Z.land (octet ip 1) 192 =? 128)) ||
      bool_decide (ip = IPv6loopback)
  end.

(** ** Tests of the answers *)

Definition ascii_digit (r : Z) : bool := (48 <=? r) && (r <=? 57).
Definition octet_text (part : string) : bool :=
  negb (bool_decide (part = "")) && (String.length part <=? 3)%nat && forallb ascii_digit (runes part) &&
  (fold_left (fun num char => num * 10 + (char - 48)) (runes part) 0 <=? 255).
Definition dot : ascii := "."%char.
Definition isValidIPv4 (ip : string) : bool :=
  let parts := SplitByte ip dot in (length parts =? 4)%nat && forallb octet_text parts.
Definition isValidIPv6 (ip : string) : bool :=
  if negb (Contains ip ":") || (String.length ip <? 3)%nat then false
  else (2 <=? length (SplitByte ip ":"%char))%nat.
Definition isValidHostname (hostname : string) : bool :=
  if bool_decide (hostname = "") || bool_decide (hostname = ".") then false
  else
    let hostname := TrimSuffix hostname "." in
    if negb (Contains hostname ".") then false else negb (HasPrefix hostname ".").
Definition isValidEmail (email : string) : bool :=
  if negb (Contains email "@") || (String.length email <? 5)%nat then false
  else
    match SplitByte email "@"%char with
    | [local; domain] => Contains domain "." && negb (bool_decide (local = ""))
    | _ => false
    end.

(** ** The DKIM key *)

Section Dkim.
Context `{UnicodeTables} {W Key : Type}.
Record KeyOps := mkKeyOps {
  ko_MkdirAll : string -> Prog W error;
  ko_Exists : string -> Prog W bool;                      (* Stat gives no error *)
  ko_ReadFile : string -> Prog W (Result gerror string);
  ko_GenerateKey : Prog W (Result gerror Key);            (* rsa, 2048 bits *)
  ko_MarshalPKCS8 : Key -> Result gerror string;
  ko_MarshalPKIX : Key -> Result gerror string;           (* of its public key *)
  ko_OpenTrunc : string -> Prog W error;                  (* O_CREATE and O_TRUNC *)
  ko_pem_Encode : string -> string -> Prog W error;       (* a PRIVATE KEY block *)
  ko_WriteFile : string -> string -> Prog W error
}.
Context (ops : KeyOps) (ConfigDirectory : string).

Definition dkim_error (what : string) (err : gerror) : Result gerror string :=
  Err (EErrorf ("failed to " +:+ what +:+ ": " +:+ Error err) None).
Definition keyFile_path (domain selector : string) : string := ConfigParser.Join (ConfigParser.Join ConfigDirectory "dkim_keys") (domain +:+ "_" +:+ selector +:+ ".key").
Definition dnsFile_path (domain selector : string) : string := ConfigParser.Join (ConfigParser.Join ConfigDirectory "dkim_keys") (domain +:+ "_" +:+ selector +:+ ".dns").
Definition generate_dkim (keyPath dnsPath : string) : Prog W (Result gerror string) :=
  r ← ko_GenerateKey ops;
  match r with
  | Err err => mret (dkim_error "generate RSA key" err)
  | Ok privateKey =>
    match ko_MarshalPKCS8 ops privateKey with
    | Err err => mret (dkim_error "marshal private key" err)
    | Ok keyBlob =>
      err ← ko_OpenTrunc ops keyPath;
      match err with
      | Some err => mret (dkim_error "create key file" err)
      | None =>
        err ← ko_pem_Encode ops keyPath keyBlob;
        match err with
        | Some err => mret (dkim_error "write private key" err)
        | None =>
          match ko_MarshalPKIX ops privateKey with
          | Err err => mret (dkim_error "marshal public key" err)
          | Ok publicKeyBlob =>
            let dkimRecord := "v=DKIM1; k=rsa; p=" +:+ EncodeToString publicKeyBlob in
            err ← ko_WriteFile ops dnsPath dkimRecord;
            mret (match err with Some err => dkim_error "write DNS record" err | None => Ok dkimRecord end)
          end
        end
      end
    end
  end.
Definition ensureDKIMKeys (domain selector : string) : Prog W (Result gerror string) :=
  err ← ko_MkdirAll ops (ConfigParser.Join ConfigDirectory "dkim_keys");
  match err with
  | Some err => mret (dkim_error "create dkim_keys directory" err)
  | None =>
    let keyPath := keyFile_path domain selector in
    let dnsPath := dnsFile_path domain selector in
    exists_ ← ko_Exists ops keyPath;
    if (exists_ : bool) then
      dnsData ← ko_ReadFile ops dnsPath;
      match dnsData with
      | Ok dnsData => mret (Ok (TrimSpace dnsData))
      | Err _ => generate_dkim keyPath dnsPath
      end
    else generate_dkim keyPath dnsPath
  end.
End Dkim.
Arguments KeyOps : clear implicits.

(** ** The configuration *)

(** strings.SplitN with a separator of several bytes, in two parts *)
Fixpoint cut (s sep : string) : option (string * string) :=
  if HasPrefix s sep then Some ("", str_drop (String.length sep) s)
  else match s with
       | EmptyString => None
       | String a s => match cut s sep with Some (l, r) => Some (String a l, r) | None => None end
       end.
Definition trim_prefix (s p : string) : string := if HasPrefix s p then str_drop (String.length p) s else s.

Section Config.
Context `{UnicodeTables}.

(** The lines $(name) = value *)
Definition read_variable (variables : gmap string string) (text : string) : gmap string string :=
  let line := TrimSpace text in
  if HasPrefix line "$(" && Contains line ") =" then
    match cut line ") =" with
    | Some (name, value) => <[trim_prefix name "$(" := TrimSpace value]> variables
    | None => variables
    end
  else variables.
Definition read_variables (content : string) : gmap string string := fold_left read_variable (ScanLines content).1 ∅.
(** The loop over the map, in the order [order] *)
Definition resolveVariable (order : list (string * string)) (value : string) : string :=
  fold_left (fun value v => Replace_all value ("$(" +:+ v.1 +:+ ")") v.2) order value.
Definition variable (order : list (string * string)) (variables : gmap string string) (name : string) : string :=
  match variables !! name with Some val => resolveVariable order val | None => "" end.
(** The first directive of a name with an argument, unless a value is known *)
Definition directive_value (name : string) (cfg : list Node) (known : string) : string :=
  fold_left (fun value node =>
    match node_Args node with
    | arg :: _ => if decide (node_Name node = name /\ value = "") then arg else value
    | [] => value
    end) cfg known.
(** The domain of a host name: all but its first label *)
Definition domain_of (hostname : string) : string :=
  match SplitByte hostname dot with
  | _ :: ((_ :: _) as rest) => JoinByte rest dot
  | _ => hostname
  end.
(** The e-mail address of the ACME loader of a tls block *)
Fixpoint first_email (children : list Node) (email : string) : string :=
  match children with
  | [] => email
  | acmeChild :: children =>
    match node_Args acmeChild with
    | arg :: _ => if decide (node_Name acmeChild = "email") then arg else first_email children email
    | [] => first_email children email
    end
  end.
Fixpoint loader_email (l : list Node) (email : string) : Outcome string :=
  match l with
  | [] => Done email
  | child :: l =>
    if decide (node_Name child = "loader") then
      match node_Args child with
      | [] => Panicked "index out of range [0] with length 0"
      | arg :: _ => loader_email l (if decide (arg = "acme") then first_email (children child) email else email)
      end
    else loader_email l email
  end.
Fixpoint tls_email (cfg : list Node) (email : string) : Outcome string :=
  match cfg with
  | [] => Done email
  | node :: cfg =>
    email ← (if decide (node_Name node = "tls") then loader_email (children node) email else Done email);
    tls_email cfg email
  end.

Context {W : Type}.
(** The files, the result of the parser (a macro, an environment and imports are its
    own), and the services asked for the addresses *)
Record GuideOps := mkGuideOps {
  go_Exists : string -> Prog W bool;
  go_Open : string -> Prog W (Result gerror string);
  go_Read : string -> string -> Parsed (list Node);             (* parser.Read, of a content and its path *)
  go_Get : string -> Prog W (Result gerror (Z * Result gerror string)); (* http: the status and the body *)
  go_Dial : string -> string -> Prog W (Result gerror (IP * string));   (* the local address of a UDP socket, and its text *)
  go_ParseIP : string -> option IP;
  go_ensureDKIMKeys : string -> string -> Prog W (Result gerror string)
}.
Context (ops : GuideOps) (ConfigDirectory : string).

(** The first service that answers 200 with an address that passes the test *)
Fixpoint ask_services (accept : string -> bool) (services : list string) : Prog W (option string) :=
  match services with
  | [] => mret None
  | service :: services =>
    resp ← go_Get ops service;
    match resp with
    | Ok (200, Ok body) => let ip := TrimSpace body in if accept ip then mret (Some ip) else ask_services accept services
    | _ => ask_services accept services
    end
  end.
Definition public_v4 (ip : string) : bool := match go_ParseIP ops ip with None => false | Some p => negb (isPrivateIP (Some p)) end.
Definition getServerIP : Prog W string :=
  found ← ask_services public_v4 ["https://api.ipify.org"; "https://icanhazip.com"; "https://ipinfo.io/ip"; "https://checkip.amazonaws.com"];
  match found with
  | Some ip => mret ip
  | None => conn ← go_Dial ops "udp" "8.8.8.8:80"; mret (match conn with Err _ => "YOUR_SERVER_IP" | Ok (_, text) => text end)
  end.
Definition getServerIPv6 : Prog W string :=
  found ← ask_services (fun ip => match go_ParseIP ops ip with None => false | Some p => is6 p end) ["https://api6.ipify.org"; "https://v6.ident.me"];
  match found with
  | Some ip => mret ip
  | None =>
    conn ← go_Dial ops "udp6" "[2001:4860:4860::8888]:80";
    mret (match conn with Err _ => "" | Ok (ip, text) => if is6 ip then text else "" end)
  end.

Definition default_to (s d : string) : string := if decide (s = "") then d else s.
(** What the file says: the host name and the domain *)
Definition names_of (order : list (string * string)) (content : string) (cfg : list Node) : string * string :=
  let variables := read_variables content in
  let hostname := directive_value "hostname" cfg (variable order variables "hostname") in
  let primaryDomain := directive_value "primary_domain" cfg (variable order variables "primary_domain") in
  let primaryDomain := if decide (primaryDomain = "" /\ hostname <> "") then domain_of hostname else primaryDomain in
  (default_to hostname "mail.example.org", default_to primaryDomain "example.org").
Definition config_of (order : list (string * string)) (content : string) (cfg : list Node) : Prog W DNSConfig :=
  let '(hostname, primaryDomain) := names_of order content cfg in
  serverIP ← getServerIP;
  serverIPv6 ← getServerIPv6;
  match tls_email cfg "" with
  | Panicked why => panic why
  | Done email =>
    let postmasterEmail := default_to email ("postmaster@" +:+ primaryDomain) in
    key ← go_ensureDKIMKeys ops primaryDomain "default";
    mret (mkDNSConfig hostname primaryDomain serverIP serverIPv6 (match key with Ok key => key | Err _ => "YOUR_DKIM_PUBLIC_KEY" end) postmasterEmail "")
  end.
(** [order]: the order of the loop over the variables of a file *)
Definition loadDNSConfig (order : gmap string string -> list (string * string)) : Prog W (Result gerror DNSConfig) :=
  here ← go_Exists ops "sirrmeshd.conf";
  let configPath := if (here : bool) then "sirrmeshd.conf" else ConfigParser.Join ConfigDirectory "sirrmeshd.conf" in
  f ← go_Open ops configPath;
  match f with
  | Err err => mret (Err (EErrorf ("failed to open config: " +:+ Error err) None))
  | Ok content =>
    match go_Read ops content configPath with
    | PErr err => mret (Err (EErrorf ("failed to parse config: " +:+ Error err) None))
    | PPanic why => panic why
    | PFuel => panic "out of fuel"
    | POk cfg =>
      f2 ← go_Open ops configPath;
      match f2 with
      | Err err => mret (Err (EErrorf ("failed to reopen config: " +:+ Error err) None))
      | Ok content => c ← config_of (order (read_variables content)) content cfg; mret (Ok c)
      end
    end
  end.

(** The host name the guide and the export go on with *)
Definition set_Hostname (hostname : string) (cfg : DNSConfig) : DNSConfig :=
  mkDNSConfig hostname (PrimaryDomain cfg) (ServerIP cfg) (ServerIPv6 cfg) (DKIMPublicKey cfg) (PostmasterEmail cfg) (DMARCPolicy cfg).
Definition subdomain_form (cfg : DNSConfig) : DNSConfig :=
  if decide (Hostname cfg = PrimaryDomain cfg) then set_Hostname ("mx1." +:+ PrimaryDomain cfg) cfg
  else if negb (Contains (Hostname cfg) ".") then set_Hostname ("mx1." +:+ PrimaryDomain cfg) cfg
  else cfg.

(** ** The questions *)

(** One line of the terminal, and the rest *)
Definition readInput (stdin : string) : string * string :=
  match IndexByte stdin LF with
  | Some i => (TrimSpace (str_take i stdin), str_drop (S i) stdin)
  | None => (TrimSpace stdin, "")
  end.
Definition answer (valid : string -> bool) (input current : string) : string :=
  if decide (input = "") then current else if valid input then input else current.
Definition policy_of (choice : string) : string :=
  if decide (choice = "1") then "none" else if decide (choice = "3") then "reject" else "quarantine".
Definition promptForConfiguration (cfg : DNSConfig) (stdin : string) : Prog W (DNSConfig * string) :=
  let '(input, stdin) := readInput stdin in
  let serverIP := answer isValidIPv4 input (ServerIP cfg) in
  let '(input, stdin) := readInput stdin in
  let serverIPv6 := answer isValidIPv6 input (ServerIPv6 cfg) in
  let '(input, stdin) := readInput stdin in
  let hostname := answer isValidHostname input (Hostname cfg) in
  key ← (if decide (hostname <> Hostname cfg) then
           r ← go_ensureDKIMKeys ops (PrimaryDomain cfg) "default";
           mret (match r with Ok dkimKey => dkimKey | Err _ => DKIMPublicKey cfg end, stdin)
         else let '(input, stdin) := readInput stdin in mret (default_to input (DKIMPublicKey cfg), stdin));
  let '(dkimKey, stdin) := (key : string * string) in
  let '(choice, stdin) := readInput stdin in
  let '(input, stdin) := readInput stdin in
  let email := answer isValidEmail input ("postmaster@" +:+ PrimaryDomain cfg) in
  mret (mkDNSConfig hostname (PrimaryDomain cfg) serverIP serverIPv6 dkimKey email (policy_of choice), stdin).
End Config.
Arguments GuideOps : clear implicits.

(** ** The records, in the formats of the commands *)

Definition dq : string := String (of_byte 34) "".
Definition quoted (s : string) : string := dq +:+ s +:+ dq.
Definition tab : string := String (of_byte 9) "".
Fixpoint repeated (n : nat) (s : string) : string := match n with O => "" | S n => s +:+ repeated n s end.
Definition rule : string := repeated 80 "=".

Section ExportFormats.
Context (cfg : DNSConfig).
Definition spf_mx : string := quoted "v=spf1 mx ~all".
Definition spf_a : string := quoted "v=spf1 a ~all".
Definition dmarcPolicy : string := default_to (DMARCPolicy cfg) "quarantine".
Definition dmarcValue : string := quoted ("v=DMARC1; p=" +:+ dmarcPolicy +:+ "; ruf=mailto:" +:+ PostmasterEmail cfg).
Definition mtastsValue : string := quoted "v=STSv1; id=1".
Definition tlsrptValue : string := quoted ("v=TLSRPTv1; rua=mailto:" +:+ PostmasterEmail cfg).
Definition if_v6 (l : list string) : list string := if decide (ServerIPv6 cfg = "") then [] else l.

(** The lines of the standard zone format; [now] is the time as it is formatted. *)
Definition std (name rest : string) : string := pad_right 40 name +:+ " IN  " +:+ rest.
Definition exportStandardZoneFormat (now : string) : list string :=
  [""; "; " +:+ rule;
   "; Mail Server DNS Records for " +:+ PrimaryDomain cfg;
   "; Mail Server: " +:+ Hostname cfg +:+ " (" +:+ ServerIP cfg +:+ ")";
   "; Generated: " +:+ now;
   ";";
   "; IMPORTANT: This file only contains mail-related records.";
   "; Do NOT add " +:+ PrimaryDomain cfg +:+ " A/AAAA record if your domain already has a website.";
   "; " +:+ rule;
   "";
   "; A Records (Mail Server)";
   std (Hostname cfg +:+ ".") ("A      " +:+ ServerIP cfg)] ++
  if_v6 [std (Hostname cfg +:+ ".") ("AAAA   " +:+ ServerIPv6 cfg)] ++
  ["";
   "; MX Records";
   std (PrimaryDomain cfg +:+ ".") ("MX     10 " +:+ Hostname cfg +:+ ".");
   "";
   "; TXT Records (SPF)";
   std (PrimaryDomain cfg +:+ ".") ("TXT    " +:+ spf_mx);
   std (Hostname cfg +:+ ".") ("TXT    " +:+ spf_a);
   "";
   "; TXT Records (DKIM)";
   std ("default._domainkey." +:+ PrimaryDomain cfg +:+ ".") ("TXT    " +:+ quoted (DKIMPublicKey cfg));
   "";
   "; TXT Records (DMARC)";
   std ("_dmarc." +:+ PrimaryDomain cfg +:+ ".") ("TXT    " +:+ dmarcValue);
   "";
   "; TXT Records (MTA-STS & TLSRPT)";
   std ("_mta-sts." +:+ PrimaryDomain cfg +:+ ".") ("TXT    " +:+ mtastsValue);
   std ("_smtp._tls." +:+ PrimaryDomain cfg +:+ ".") ("TXT    " +:+ tlsrptValue);
   ""; "; " +:+ rule].

(** The BIND format *)
Definition bind (name rest : string) : string := name +:+ ".    IN    " +:+ rest.
Definition exportBINDFormat : list string :=
  [""; "; BIND Zone File Format";
   "; Copy and paste these records to your zone file";
   "";
   "; Basic A/AAAA records";
   bind (PrimaryDomain cfg) ("A    " +:+ ServerIP cfg)] ++
  if_v6 [bind (PrimaryDomain cfg) ("AAAA    " +:+ ServerIPv6 cfg)] ++
  [bind (Hostname cfg) ("A    " +:+ ServerIP cfg)] ++
  if_v6 [bind (Hostname cfg) ("AAAA    " +:+ ServerIPv6 cfg)] ++
  ["";
   "; MX record";
   bind (PrimaryDomain cfg) ("MX    10    " +:+ Hostname cfg +:+ ".");
   "";
   "; SPF records";
   bind (PrimaryDomain cfg) ("TXT    " +:+ spf_mx);
   bind (Hostname cfg) ("TXT    " +:+ spf_a);
   "";
   "; DKIM record";
   bind ("default._domainkey." +:+ PrimaryDomain cfg) ("TXT    " +:+ quoted (DKIMPublicKey cfg));
   "";
   "; DMARC record";
   bind ("_dmarc." +:+ PrimaryDomain cfg) ("TXT    " +:+ dmarcValue);
   "";
   "; MTA-STS and TLSRPT records";
   bind ("_mta-sts." +:+ PrimaryDomain cfg) ("TXT    " +:+ mtastsValue);
   bind ("_smtp._tls." +:+ PrimaryDomain cfg) ("TXT    " +:+ tlsrptValue)].

(** The format CloudFlare imports *)
Definition cloudflare (name type value : string) : string := name +:+ "." +:+ tab +:+ "1" +:+ tab +:+ "IN" +:+ tab +:+ type +:+ tab +:+ value.
Definition exportCloudFlareFormat (now : string) : list string :=
  [";;";
   ";; Domain:     " +:+ PrimaryDomain cfg;
   ";; Exported:   " +:+ now;
   ";;";
   ";; This file is intended for use for import into Cloudflare's DNS service.  If you are";
   ";; having trouble importing this file, please reach out to support.";
   ";;";
   "";
   ";; A Records";
   cloudflare (Hostname cfg) "A" (ServerIP cfg)] ++
  if_v6 [cloudflare (Hostname cfg) "AAAA" (ServerIPv6 cfg)] ++
  ["";
   ";; MX Records";
   cloudflare (PrimaryDomain cfg) "MX" ("10 " +:+ Hostname cfg +:+ ".");
   "";
   ";; TXT Records";
   cloudflare ("default._domainkey." +:+ PrimaryDomain cfg) "TXT" (quoted (DKIMPublicKey cfg));
   cloudflare (PrimaryDomain cfg) "TXT" spf_mx;
   cloudflare (Hostname cfg) "TXT" spf_a;
   cloudflare ("_dmarc." +:+ PrimaryDomain cfg) "TXT" dmarcValue;
   cloudflare ("_mta-sts." +:+ PrimaryDomain cfg) "TXT" mtastsValue;
   cloudflare ("_smtp._tls." +:+ PrimaryDomain cfg) "TXT" tlsrptValue;
   "";
   ";; IMPORTANT: After import, edit the A record for the mail server";
   ";; and DISABLE the Cloudflare proxy (change orange cloud to grey)."].

(** The plain text *)
Definition exportGenericFormat : list string :=
  [""; "通用文本格式:"; rule; "基础记录:";
   "A记录 (主域名):"; "  主机: " +:+ PrimaryDomain cfg; "  IP: " +:+ ServerIP cfg] ++
  if_v6 [""; "AAAA记录 (主域名):"; "  主机: " +:+ PrimaryDomain cfg; "  IPv6: " +:+ ServerIPv6 cfg] ++
  [""; "A记录 (邮件服务器):"; "  主机: " +:+ Hostname cfg; "  IP: " +:+ ServerIP cfg] ++
  if_v6 [""; "AAAA记录 (邮件服务器):"; "  主机: " +:+ Hostname cfg; "  IPv6: " +:+ ServerIPv6 cfg] ++
  [""; repeated 80 "-"; "MX记录:"; "  域名: " +:+ PrimaryDomain cfg; "  邮件服务器: " +:+ Hostname cfg; "  优先级: 10";
   ""; repeated 80 "-"; "安全相关记录:";
   "SPF记录 (主域名TXT):"; "  主机: " +:+ PrimaryDomain cfg; "  值: v=spf1 mx ~all";
   ""; "SPF记录 (MX主机TXT):"; "  主机: " +:+ Hostname cfg; "  值: v=spf1 a ~all";
   ""; "DKIM记录 (TXT):"; "  主机: default._domainkey." +:+ PrimaryDomain cfg; "  值: " +:+ DKIMPublicKey cfg;
   ""; "DMARC记录 (TXT):"; "  主机: _dmarc." +:+ PrimaryDomain cfg; "  值: v=DMARC1; p=" +:+ dmarcPolicy +:+ "; ruf=mailto:" +:+ PostmasterEmail cfg;
   ""; repeated 80 "-"; "TLS安全记录 (推荐):";
   "MTA-STS记录 (TXT):"; "  主机: _mta-sts." +:+ PrimaryDomain cfg; "  值: v=STSv1; id=1";
   ""; "TLSRPT记录 (TXT):"; "  主机: _smtp._tls." +:+ PrimaryDomain cfg; "  值: v=TLSRPTv1; rua=mailto:" +:+ PostmasterEmail cfg;
   rule].
(** The choice of the export *)
Definition export_choice (choice now : string) : list string :=
  if decide (choice = "1") then exportStandardZoneFormat now
  else if decide (choice = "2") then exportBINDFormat
  else if decide (choice = "3") then exportCloudFlareFormat now
  else exportGenericFormat.

(** The zone of the guide *)
Definition printDNSRecord (name recordType value comment : string) : list string :=
  (if decide (comment = "") then [] else ["; " +:+ comment]) ++
  [pad_right 40 (name +:+ ".") +:+ " IN  " +:+ pad_right 6 recordType +:+ " " +:+ value].
Definition guide_zone : list string :=
  ["; === 基础IP记录 ==="] ++
  printDNSRecord (PrimaryDomain cfg) "A" (ServerIP cfg) "主域名IPv4地址" ++
  (if decide (ServerIPv6 cfg = "") then [] else printDNSRecord (PrimaryDomain cfg) "AAAA" (ServerIPv6 cfg) "主域名IPv6地址") ++ [""] ++
  printDNSRecord (Hostname cfg) "A" (ServerIP cfg) "邮件服务器IPv4地址（重要）" ++
  (if decide (ServerIPv6 cfg = "") then [] else printDNSRecord (Hostname cfg) "AAAA" (ServerIPv6 cfg) "邮件服务器IPv6地址") ++ [""] ++
  ["; === MX记录 - 指定邮件服务器 ==="] ++ printDNSRecord (PrimaryDomain cfg) "MX" ("10 " +:+ Hostname cfg +:+ ".") "" ++ [""] ++
  ["; === SPF记录 - 防止邮件伪造 ==="] ++ printDNSRecord (PrimaryDomain cfg) "TXT" spf_mx "主域名SPF" ++
  printDNSRecord (Hostname cfg) "TXT" spf_a "邮件服务器SPF（推荐）" ++ [""] ++
  ["; === DKIM记录 - 邮件签名验证 ==="] ++ printDNSRecord ("default._domainkey." +:+ PrimaryDomain cfg) "TXT" (quoted (DKIMPublicKey cfg)) "" ++ [""] ++
  ["; === DMARC记录 - SPF和DKIM策略 ==="] ++ printDNSRecord ("_dmarc." +:+ PrimaryDomain cfg) "TXT" dmarcValue "" ++ [""] ++
  ["; === MTA-STS和TLSRPT记录 - 强制TLS传输（推荐） ==="] ++ printDNSRecord ("_mta-sts." +:+ PrimaryDomain cfg) "TXT" mtastsValue "MTA-STS策略声明" ++
  printDNSRecord ("_smtp._tls." +:+ PrimaryDomain cfg) "TXT" tlsrptValue "TLS报告接收地址".
End ExportFormats.

Section Commands.
Context `{UnicodeTables} {W : Type} (ops : GuideOps W) (ConfigDirectory : string).
(** runDNSExport: what it prints after the questions *)
Definition runDNSExport (order : gmap string string -> list (string * string)) (stdin now : string) : Prog W (Result gerror (list string)) :=
  r ← loadDNSConfig ops ConfigDirectory order;
  match r with
  | Err err => mret (Err (EErrorf ("failed to load configuration: " +:+ Error err) None))
  | Ok cfg =>
    '(cfg, stdin) ← promptForConfiguration ops (subdomain_form cfg) stdin;
    mret (Ok (export_choice cfg (readInput stdin).1 now))
  end.
(** runDNSGuide: the zone it shows *)
Definition guide_default : DNSConfig := mkDNSConfig "mx1.example.org" "example.org" "YOUR_SERVER_IP" "" "YOUR_DKIM_PUBLIC_KEY" "postmaster@example.org" "".
Definition runDNSGuide (order : gmap string string -> list (string * string)) : Prog W (list string) :=
  r ← loadDNSConfig ops ConfigDirectory order;
  mret (guide_zone (subdomain_form (match r with Ok cfg => cfg | Err _ => guide_default end))).
End Commands.
