(* ===== verification/DnsZone.v ===== *)
(** * DnsZone: the exported zones say the same

    A reader of zone files, and the records it finds in what the commands of DnsGuide
    print; and what their tests of addresses accept. *)
From S2P Require Import Prelude GoStr GoText ExtErrors Config DnsCheck DnsGuide.
From stdpp Require Import gmap.
From Stdlib Require Import Ascii ZifyBool.

Local Open Scope Z_scope.

(** ** Reading a zone *)

Definition blank (b : Z) : bool := (b =? 32) || (b =? 9).
Fixpoint skip_blank (l : list Z) : list Z := match l with b :: l' => if blank b then skip_blank l' else l | [] => [] end.
Fixpoint field (l : list Z) : list Z * list Z :=
  match l with
  | [] => ([], [])
  | b :: l' => if blank b then ([], l) else let '(f, r) := field l' in (b :: f, r)
  end.
Definition next (l : list Z) : string * list Z := let '(f, r) := field (skip_blank l) in (of_bytes f, r).
Notation zrec := (string * string * string)%type.
(** name [ttl] IN type value: the value of an MX record is a number and a name. *)
Definition read_value (type : string) (l : list Z) : string :=
  if decide (type = "MX") then let '(pref, l) := next l in pref +:+ " " +:+ (next l).1 else of_bytes (skip_blank l).
Definition read_record (s : string) : option zrec :=
  let '(name, l) := next (to_bytes s) in
  let '(f, l) := next l in
  let '(cls, l) := if decide (f = "IN") then (f, l) else next l in
  if decide (cls = "IN") then let '(type, l) := next l in Some (name, type, read_value type l) else None.
Definition comment (s : string) : bool := bool_decide (s = "") || HasPrefix s ";".
Definition read_zone (text : string) : option (list zrec) := mapM read_record (List.filter (fun s => negb (comment s)) (SplitByte text LF)).

(** ** Fields *)

Definition word (s : string) : Prop := s <> "" /\ Forall (fun b => blank b = false) (to_bytes s).
Definition blanks (s : string) : Prop := Forall (fun b => blank b = true) (to_bytes s).
Lemma skip_blanks s l : blanks s -> skip_blank (to_bytes s ++ l) = skip_blank l.
Proof. unfold blanks. induction (to_bytes s) as [|b k IH]; [done|]. intros [Hb Hk]%Forall_cons. cbn. rewrite Hb. by apply IH. Qed.
Lemma field_word k l : Forall (fun b => blank b = false) k -> (forall b l', l = b :: l' -> blank b = true) -> field (k ++ l) = (k, l).
Proof.
  intros Hk Hl. induction Hk as [|b k Hb _ IH]; [|cbn; by rewrite Hb, IH]. destruct l as [|b l']; [done|]. cbn. by rewrite (Hl b l').
Qed.
Lemma word_cons s : word s -> exists b k, to_bytes s = b :: k /\ blank b = false.
Proof. intros [Hn Hs]. destruct s as [|a s]; [done|]. cbn in *. apply Forall_cons in Hs as [Ha _]. eauto. Qed.
Lemma skip_word s l : word s -> skip_blank (to_bytes s ++ l) = to_bytes s ++ l.
Proof. intros (b & k & -> & Hb)%word_cons. cbn. by rewrite Hb. Qed.
(** A word after blanks, before blanks or the end *)
Lemma next_word b s l : blanks b -> word s -> (forall x l', l = x :: l' -> blank x = true) -> next (to_bytes b ++ to_bytes s ++ l) = (s, l).
Proof. intros Hb Hs Hl. unfold next. rewrite skip_blanks, skip_word by done. rewrite field_word by (apply Hs || done). by rewrite of_to_bytes. Qed.
Lemma blanks_start b l x l' : blanks b -> b <> "" -> to_bytes b ++ l = x :: l' -> blank x = true.
Proof. intros Hb Hn E. destruct b as [|a b]; [done|]. cbn in *. apply Forall_cons in Hb as [Ha _]. by simplify_eq. Qed.
Lemma blanks_nil : blanks "". Proof. constructor. Qed.
Definition gap (s : string) : Prop := s <> "" /\ blanks s.
Ltac next_field := rewrite next_word; [|first [exact blanks_nil|assumption|by repeat constructor]|first [assumption|by split; [|repeat constructor]]|intros ? ?; first [done|by apply blanks_start]].

(** A record line is read back, with a value or a number and a name, and with or
    without a time to live. *)
Lemma read_class name b0 b1 type b2 value : word name -> gap b0 -> gap b1 -> gap b2 -> word type ->
  read_record (name +:+ b0 +:+ "IN" +:+ b1 +:+ type +:+ b2 +:+ value) = Some (name, type, read_value type (to_bytes b2 ++ to_bytes value)).
Proof.
  intros Hn [N0 H0] [N1 H1] [N2 H2] Ht. unfold read_record. rewrite !to_bytes_app.
  change (to_bytes name ++ ?l) with (to_bytes "" ++ to_bytes name ++ l). do 2 next_field. rewrite !decide_True by done. by next_field.
Qed.
Lemma read_class_ttl name b0 b b1 type b2 value : word name -> gap b0 -> gap b -> gap b1 -> gap b2 -> word type ->
  read_record (name +:+ b0 +:+ "1" +:+ b +:+ "IN" +:+ b1 +:+ type +:+ b2 +:+ value) = Some (name, type, read_value type (to_bytes b2 ++ to_bytes value)).
Proof.
  intros Hn [N0 H0] [N H] [N1 H1] [N2 H2] Ht. unfold read_record. rewrite !to_bytes_app.
  change (to_bytes name ++ ?l) with (to_bytes "" ++ to_bytes name ++ l). do 2 next_field. rewrite decide_False by done. next_field.
  rewrite decide_True by done. by next_field.
Qed.
Definition solid (s : string) : Prop := exists b k, to_bytes s = b :: k /\ blank b = false.
Lemma read_plain type b2 value : type <> "MX" -> blanks b2 -> solid value -> read_value type (to_bytes b2 ++ to_bytes value) = value.
Proof.
  intros Ht H2 (b & k & Hv & Hb). unfold read_value. rewrite decide_False, skip_blanks by done.
  assert (skip_blank (to_bytes value) = to_bytes value) as -> by (rewrite Hv; cbn; by rewrite Hb). apply of_to_bytes.
Qed.
Lemma read_mx b2 pref b3 host : blanks b2 -> word pref -> gap b3 -> word host ->
  read_value "MX" (to_bytes b2 ++ to_bytes (pref +:+ b3 +:+ host)) = pref +:+ " " +:+ host.
Proof.
  intros H2 Hp [N3 H3] Hh. unfold read_value. rewrite decide_True by done. rewrite !to_bytes_app. next_field.
  rewrite <-(app_nil_r (to_bytes host)). by next_field.
Qed.

(** ** Lines of a zone *)

Definition reads (lines : list string) (records : list zrec) : Prop := mapM read_record (List.filter (fun s => negb (comment s)) lines) = Some records.
Lemma reads_nil : reads [] []. Proof. done. Qed.
Lemma reads_app l k a b : reads l a -> reads k b -> reads (l ++ k) (a ++ b).
Proof.
  unfold reads. rewrite List.filter_app, !mapM_Some. intros Ha Hb. by apply Forall2_app.
Qed.
Lemma reads_comment s l a : comment s = true -> reads l a -> reads (s :: l) a.
Proof. unfold reads. intros Hs. cbn. by rewrite Hs. Qed.
Lemma reads_record s r l a : comment s = false -> read_record s = Some r -> reads l a -> reads (s :: l) (r :: a).
Proof. unfold reads. intros Hs Hr Hl. cbn. rewrite Hs. cbn. rewrite Hr. cbn in *. by rewrite Hl. Qed.
Lemma Split_unlines lines : Forall (fun l => has_byte LF l = false) lines -> SplitByte (unlines lines) LF = lines ++ [""].
Proof. induction 1 as [|l lines Hl _ IH]; [done|]. cbn [unlines]. by rewrite SplitByte_app, IH by done. Qed.
Lemma read_zone_lines lines records : Forall (fun l => has_byte LF l = false) lines -> reads lines records -> read_zone (unlines lines) = Some records.
Proof. intros Hl Hr. unfold read_zone. rewrite Split_unlines by done. rewrite <-(app_nil_r records). by apply reads_app. Qed.

(** A name as it begins a line *)
Definition owner (s : string) : Prop := Forall (fun b => blank b = false) (to_bytes s) /\ HasPrefix s ";" = false.
Lemma owner_word s : owner s -> word (s +:+ ".").
Proof. intros [Hs _]. split; [by destruct s|]. rewrite to_bytes_app. apply Forall_app. split; [done|by repeat constructor]. Qed.
Lemma owner_line s t : owner s -> comment (s +:+ "." +:+ t) = false.
Proof. intros [_ Hs]. unfold comment. destruct s as [|a s]; [done|]. rewrite str_app_cons. rewrite bool_decide_false by done.
  assert (Hp : forall x, HasPrefix x "" = true) by (by intros []). cbn in *. by rewrite Hp in *. Qed.
Lemma spaces_blanks n : blanks (spaces n).
Proof. unfold blanks. induction n as [|n IH]; [constructor|]. cbn. by constructor. Qed.
Lemma blanks_app s t : blanks s -> blanks t -> blanks (s +:+ t).
Proof. unfold blanks. intros Hs Ht. rewrite to_bytes_app. by apply Forall_app. Qed.

Section Lines.
Context (s type b2 value v : string) (l : list string) (a : list zrec).
Context (Hs : owner s) (H2 : gap b2) (Ht : word type) (Hv : read_value type (to_bytes b2 ++ to_bytes value) = v) (Hl : reads l a).
Lemma reads_class line b0 b1 : gap b0 -> gap b1 -> line = (s +:+ ".") +:+ b0 +:+ "IN" +:+ b1 +:+ type +:+ b2 +:+ value -> reads (line :: l) ((s +:+ ".", type, v) :: a).
Proof using All.
  intros H0 H1 ->. apply reads_record; [rewrite str_app_assoc; by apply owner_line| |done]. rewrite read_class by (done || by apply owner_word). by rewrite Hv.
Qed.
Lemma reads_std : reads (std (s +:+ ".") (type +:+ b2 +:+ value) :: l) ((s +:+ ".", type, v) :: a).
Proof using All.
  apply (reads_class _ (spaces (40 - length (runes (s +:+ "."))) +:+ " ") "  ").
  - split; [by destruct (spaces _)|]. apply blanks_app; [apply spaces_blanks|by constructor].
  - by split; [|repeat constructor].
  - unfold std, pad_right. by rewrite !str_app_assoc.
Qed.
Lemma reads_bind : reads (DnsGuide.bind s (type +:+ b2 +:+ value) :: l) ((s +:+ ".", type, v) :: a).
Proof using All.
  apply (reads_class _ "    " "    "); [by split; [|repeat constructor]..|]. unfold DnsGuide.bind. by rewrite !str_app_assoc.
Qed.
Lemma reads_cloudflare : b2 = tab -> reads (cloudflare s type value :: l) ((s +:+ ".", type, v) :: a).
Proof using All.
  intros ->. assert (Ht' : gap tab) by (by split; [|repeat constructor]).
  apply reads_record; [unfold cloudflare; by apply owner_line| |done].
  replace (cloudflare s type value) with ((s +:+ ".") +:+ tab +:+ "1" +:+ tab +:+ "IN" +:+ tab +:+ type +:+ tab +:+ value) by (unfold cloudflare; by rewrite !str_app_assoc).
  rewrite read_class_ttl by (done || by apply owner_word). by rewrite Hv.
Qed.
End Lines.
Lemma reads_guide s type b2 value v remark l a : owner s -> pad_right 6 type +:+ " " = type +:+ b2 -> gap b2 -> word type ->
  read_value type (to_bytes b2 ++ to_bytes value) = v -> reads l a -> reads (printDNSRecord s type value remark ++ l) ((s +:+ ".", type, v) :: a).
Proof.
  intros Hs Hp H2 Ht Hv Hl. unfold printDNSRecord.
  assert (Hr : reads ([pad_right 40 (s +:+ ".") +:+ " IN  " +:+ pad_right 6 type +:+ " " +:+ value] ++ l) ((s +:+ ".", type, v) :: a)).
  { replace (pad_right 40 (s +:+ ".") +:+ " IN  " +:+ pad_right 6 type +:+ " " +:+ value) with (std (s +:+ ".") (type +:+ b2 +:+ value)).
    - by apply reads_std.
    - unfold std. rewrite <-(str_app_assoc type b2), <-Hp. by rewrite !str_app_assoc. }
  rewrite <-app_assoc. case_decide; [exact Hr|]. by apply reads_comment.
Qed.

(** ** The exports *)

Section Exports.
Context (cfg : DNSConfig).

(** Texts without line feeds; names and addresses without blanks *)
Definition no_LF (s : string) : Prop := has_byte LF s = false.
Record printable : Prop := {
  pr_host : owner (Hostname cfg); pr_host_LF : no_LF (Hostname cfg);
  pr_domain : owner (PrimaryDomain cfg); pr_domain_LF : no_LF (PrimaryDomain cfg);
  pr_ip : solid (ServerIP cfg); pr_ip_LF : no_LF (ServerIP cfg);
  pr_ipv6 : ServerIPv6 cfg = "" \/ solid (ServerIPv6 cfg); pr_ipv6_LF : no_LF (ServerIPv6 cfg);
  pr_key : no_LF (DKIMPublicKey cfg); pr_mail : no_LF (PostmasterEmail cfg); pr_policy : no_LF (DMARCPolicy cfg)
}.

(** The records of a name's addresses and those of the mail server *)
Definition address_records (name : string) : list zrec :=
  (name +:+ ".", "A", ServerIP cfg) :: (if decide (ServerIPv6 cfg = "") then [] else [(name +:+ ".", "AAAA", ServerIPv6 cfg)]).
Definition mx_records : list zrec := [(PrimaryDomain cfg +:+ ".", "MX", "10 " +:+ Hostname cfg +:+ ".")].
Definition txt (name value : string) : zrec := (name +:+ ".", "TXT", value).
Definition spf_records : list zrec := [txt (PrimaryDomain cfg) spf_mx; txt (Hostname cfg) spf_a].
Definition dkim_record : zrec := txt ("default._domainkey." +:+ PrimaryDomain cfg) (quoted (DKIMPublicKey cfg)).
Definition policy_records : list zrec :=
  [txt ("_dmarc." +:+ PrimaryDomain cfg) (dmarcValue cfg); txt ("_mta-sts." +:+ PrimaryDomain cfg) mtastsValue; txt ("_smtp._tls." +:+ PrimaryDomain cfg) (tlsrptValue cfg)].
Definition mail_records : list zrec := address_records (Hostname cfg) ++ mx_records ++ spf_records ++ dkim_record :: policy_records.

Context (Hp : printable).
Lemma sub_owner (s : string) : Forall (fun b => blank b = false) (to_bytes s) -> s <> "" -> HasPrefix s ";" = false -> owner (s +:+ PrimaryDomain cfg).
Proof using Hp.
  intros Hs Hn Hh. split; [rewrite to_bytes_app; apply Forall_app; split; [done|apply Hp]|].
  destruct s as [|a s]; [done|]. assert (Hx : forall x, HasPrefix x "" = true) by (by intros []). rewrite str_app_cons. cbn in Hh |- *. rewrite Hx in Hh |- *. exact Hh.
Qed.
Lemma host_word : word (Hostname cfg +:+ ".").
Proof using Hp. apply owner_word, Hp. Qed.
Lemma solid_quoted s : solid (quoted s).
Proof. by exists 34, (to_bytes (s +:+ dq)). Qed.

Ltac one_gap := by split; [|repeat constructor].
Ltac sub := apply sub_owner; [by repeat constructor|done|done].
Ltac value := first [apply read_plain; [done|by repeat constructor|first [apply solid_quoted|apply Hp|assumption]]
                    |apply (read_mx _ "10" " "); [by repeat constructor|one_gap|one_gap|apply host_word]
                    |apply (read_mx _ "10" "    "); [by repeat constructor|one_gap|one_gap|apply host_word]].
Ltac own := first [apply Hp|sub].
Ltac skip := apply reads_comment; [first [done|by vm_compute]|].

Lemma standard_reads now : reads (exportStandardZoneFormat cfg now) mail_records.
Proof using Hp.
  unfold exportStandardZoneFormat, mail_records, address_records, if_v6.
  cbn [app]. do 11 skip.
  apply (reads_std (Hostname cfg) "A" "      "); [own|one_gap|one_gap|value|].
  apply reads_app; [destruct (decide (ServerIPv6 cfg = "")) as [|Hv6]; [done|]; destruct (pr_ipv6 Hp) as [|H6]; [done|];
    apply (reads_std (Hostname cfg) "AAAA" "   "); [own|one_gap|one_gap|value|done]|].
  do 2 skip. apply (reads_std (PrimaryDomain cfg) "MX" "     "); [own|one_gap|one_gap|value|].
  do 2 skip. apply (reads_std (PrimaryDomain cfg) "TXT" "    "); [own|one_gap|one_gap|value|].
  apply (reads_std (Hostname cfg) "TXT" "    "); [own|one_gap|one_gap|value|].
  do 2 skip. apply (reads_std ("default._domainkey." +:+ PrimaryDomain cfg) "TXT" "    "); [own|one_gap|one_gap|value|].
  do 2 skip. apply (reads_std ("_dmarc." +:+ PrimaryDomain cfg) "TXT" "    "); [own|one_gap|one_gap|value|].
  do 2 skip. apply (reads_std ("_mta-sts." +:+ PrimaryDomain cfg) "TXT" "    "); [own|one_gap|one_gap|value|].
  apply (reads_std ("_smtp._tls." +:+ PrimaryDomain cfg) "TXT" "    "); [own|one_gap|one_gap|value|].
  do 2 skip. done.
Qed.
Ltac with_v6 name tac := destruct (decide (ServerIPv6 cfg = "")) as [|Hv6]; [done|]; destruct (pr_ipv6 Hp) as [|H6]; [done|]; tac name.
Ltac bind_v6 name := apply (reads_bind name "AAAA" "    "); [own|one_gap|one_gap|value|done].
Lemma bind_reads : reads (exportBINDFormat cfg) (address_records (PrimaryDomain cfg) ++ mail_records).
Proof using Hp.
  unfold exportBINDFormat, mail_records, address_records, if_v6. cbn [app]. do 5 skip.
  apply (reads_bind (PrimaryDomain cfg) "A" "    "); [own|one_gap|one_gap|value|].
  apply reads_app; [with_v6 (PrimaryDomain cfg) ltac:(fun n => bind_v6 n)|].
  apply (reads_bind (Hostname cfg) "A" "    "); [own|one_gap|one_gap|value|].
  apply reads_app; [with_v6 (Hostname cfg) ltac:(fun n => bind_v6 n)|].
  do 2 skip. apply (reads_bind (PrimaryDomain cfg) "MX" "    "); [own|one_gap|one_gap|value|].
  do 2 skip. apply (reads_bind (PrimaryDomain cfg) "TXT" "    "); [own|one_gap|one_gap|value|].
  apply (reads_bind (Hostname cfg) "TXT" "    "); [own|one_gap|one_gap|value|].
  do 2 skip. apply (reads_bind ("default._domainkey." +:+ PrimaryDomain cfg) "TXT" "    "); [own|one_gap|one_gap|value|].
  do 2 skip. apply (reads_bind ("_dmarc." +:+ PrimaryDomain cfg) "TXT" "    "); [own|one_gap|one_gap|value|].
  do 2 skip. apply (reads_bind ("_mta-sts." +:+ PrimaryDomain cfg) "TXT" "    "); [own|one_gap|one_gap|value|].
  apply (reads_bind ("_smtp._tls." +:+ PrimaryDomain cfg) "TXT" "    "); [own|one_gap|one_gap|value|done].
Qed.
Ltac guide name type gap_ := apply (reads_guide name type gap_); [own|done|one_gap|one_gap|value|].
Ltac guide_v6 name := rewrite <-(app_nil_r (printDNSRecord name _ _ _)); apply (reads_guide name "AAAA" "   "); [own|done|one_gap|one_gap|value|done].
Lemma guide_reads : reads (guide_zone cfg) (address_records (PrimaryDomain cfg) ++ mail_records).
Proof using Hp.
  unfold guide_zone, mail_records, address_records. cbn [app]. skip. guide (PrimaryDomain cfg) "A" "      ".
  apply reads_app; [with_v6 (PrimaryDomain cfg) ltac:(fun n => guide_v6 n)|]. skip. guide (Hostname cfg) "A" "      ".
  apply reads_app; [with_v6 (Hostname cfg) ltac:(fun n => guide_v6 n)|]. do 2 skip. guide (PrimaryDomain cfg) "MX" "     ".
  do 2 skip. guide (PrimaryDomain cfg) "TXT" "    ". guide (Hostname cfg) "TXT" "    ".
  do 2 skip. guide ("default._domainkey." +:+ PrimaryDomain cfg) "TXT" "    ". do 2 skip. guide ("_dmarc." +:+ PrimaryDomain cfg) "TXT" "    ".
  do 2 skip. guide ("_mta-sts." +:+ PrimaryDomain cfg) "TXT" "    ".
  rewrite <-(app_nil_r (printDNSRecord ("_smtp._tls." +:+ PrimaryDomain cfg) _ _ _)). guide ("_smtp._tls." +:+ PrimaryDomain cfg) "TXT" "    ". done.
Qed.
Ltac cf name type := apply (reads_cloudflare name type tab); [own|one_gap|one_gap|value| |done].
Ltac cf_v6 name := apply (reads_cloudflare name "AAAA" tab); [own|one_gap|one_gap|value|done|done].
Lemma cloudflare_reads now :
  reads (exportCloudFlareFormat cfg now) (address_records (Hostname cfg) ++ mx_records ++ dkim_record :: spf_records ++ policy_records).
Proof using Hp.
  unfold exportCloudFlareFormat, address_records, if_v6. cbn [app]. do 9 skip. cf (Hostname cfg) "A".
  apply reads_app; [with_v6 (Hostname cfg) ltac:(fun n => cf_v6 n)|]. do 2 skip. cf (PrimaryDomain cfg) "MX".
  do 2 skip. cf ("default._domainkey." +:+ PrimaryDomain cfg) "TXT". cf (PrimaryDomain cfg) "TXT". cf (Hostname cfg) "TXT".
  cf ("_dmarc." +:+ PrimaryDomain cfg) "TXT". cf ("_mta-sts." +:+ PrimaryDomain cfg) "TXT". cf ("_smtp._tls." +:+ PrimaryDomain cfg) "TXT".
  do 3 skip. done.
Qed.

(** No line feed comes from a printable configuration. *)
Lemma no_LF_app s t : no_LF s -> no_LF t -> no_LF (s +:+ t).
Proof. unfold no_LF. intros Hs Ht. by rewrite has_byte_app, Hs, Ht. Qed.
Lemma no_LF_spaces n : no_LF (spaces n).
Proof. unfold no_LF. by induction n. Qed.
Lemma no_LF_policy : no_LF (dmarcPolicy cfg).
Proof using Hp. unfold dmarcPolicy, default_to. case_decide; [done|apply Hp]. Qed.
Ltac lf := unfold std, DnsGuide.bind, cloudflare, pad_right, spf_mx, spf_a, dmarcValue, mtastsValue, tlsrptValue, quoted;
  repeat first [apply no_LF_spaces|apply no_LF_policy|apply (pr_host_LF Hp)|apply (pr_domain_LF Hp)|apply (pr_ip_LF Hp)|apply (pr_ipv6_LF Hp)
               |apply (pr_key Hp)|apply (pr_mail Hp)|assumption|apply no_LF_app|by vm_compute].
Ltac lines := repeat first [apply Forall_app; split|constructor; [lf|]|apply Forall_nil_2|progress unfold if_v6, printDNSRecord; case_decide].
Lemma standard_lines now : no_LF now -> Forall no_LF (exportStandardZoneFormat cfg now).
Proof using Hp. intros Hn. unfold exportStandardZoneFormat. lines. Qed.
Lemma bind_lines : Forall no_LF (exportBINDFormat cfg).
Proof using Hp. unfold exportBINDFormat. lines. Qed.
Lemma cloudflare_lines now : no_LF now -> Forall no_LF (exportCloudFlareFormat cfg now).
Proof using Hp. intros Hn. unfold exportCloudFlareFormat. lines. Qed.
Lemma print_lines name type value remark : no_LF name -> no_LF type -> no_LF value -> no_LF remark -> Forall no_LF (printDNSRecord name type value remark).
Proof using Hp. intros H1 H2 H3 H4. unfold printDNSRecord. case_decide; lines. Qed.
Lemma guide_lines : Forall no_LF (guide_zone cfg).
Proof using Hp.
  unfold guide_zone. repeat first [apply Forall_app; split|apply print_lines|constructor; [lf|]|apply Forall_nil_2|case_decide|lf].
Qed.

(** C38: the standard zone, the BIND zone, the CloudFlare file and the guide describe the
    same mail server: read as zone files, they give the same addresses, mail exchanger,
    SPF, DKIM, DMARC, MTA-STS and TLSRPT records; the BIND zone and the guide add the
    addresses of the domain itself, and the CloudFlare file has another order. *)
Theorem exports_agree now : no_LF now ->
  read_zone (unlines (exportStandardZoneFormat cfg now)) = Some mail_records /\
  read_zone (unlines (exportBINDFormat cfg)) = Some (address_records (PrimaryDomain cfg) ++ mail_records) /\
  read_zone (unlines (guide_zone cfg)) = Some (address_records (PrimaryDomain cfg) ++ mail_records) /\
  exists records, read_zone (unlines (exportCloudFlareFormat cfg now)) = Some records /\ records ≡ₚ mail_records.
Proof using Hp.
  intros Hn. split_and!; [apply read_zone_lines; [by apply standard_lines|apply standard_reads]|apply read_zone_lines; [apply bind_lines|apply bind_reads]
    |apply read_zone_lines; [apply guide_lines|apply guide_reads]|].
  eexists. split; [apply read_zone_lines; [by apply cloudflare_lines|apply cloudflare_reads]|].
  unfold mail_records. do 2 apply Permutation_app_head. by rewrite Permutation_middle.
Qed.
End Exports.

(** ** Private addresses *)

Lemma byte_land_192 b : 0 <= b < 256 -> (Z.land b 192 =? 128) = (b / 64 =? 2).
Proof.
  intros Hb. assert (H : forallb (fun b => Bool.eqb (Z.land b 192 =? 128) (b / 64 =? 2)) (seqZ 0 256) = true) by (by vm_compute).
  rewrite forallb_forall in H. apply eqb_prop, H. apply list_elem_of_In, elem_of_seqZ. lia.
Qed.
Definition in_block (address bits size block_ : Z) : Prop := address / 2 ^ (size - bits) = block_.
(** The address of the first bytes of [ip] as a number *)
Definition number (l : list Z) : Z := fold_left (fun n b => n * 256 + b) l 0.

(** isPrivateIP holds of the blocks its comments name, 10.0.0.0/8, 172.16.0.0/12,
    192.168.0.0/16 and 127.0.0.0/8, fc00::/7, fe80::/10 and ::1, and of what is not an
    address. *)
Theorem isPrivateIP_blocks ip a b c d : 0 <= a < 256 -> 0 <= b < 256 -> 0 <= c < 256 -> 0 <= d < 256 ->
  isPrivateIP None = true /\
  (ip = v4InV6Prefix ++ [a; b; c; d] -> isPrivateIP (Some ip) = true <->
     (let n := number [a; b; c; d] in in_block n 8 32 10 \/ in_block n 12 32 2753 \/ in_block n 16 32 49320 \/ in_block n 8 32 127)) /\
  (forall rest, ip = a :: b :: rest -> is4 ip = false -> isPrivateIP (Some ip) = true <->
     (in_block (number [a; b]) 7 16 126 \/ in_block (number [a; b]) 10 16 1018 \/ ip = IPv6loopback)).
Proof.
  intros Ha Hb Hc Hd. split_and!; [done| |].
  - intros ->. unfold in_block, number. cbn [fold_left]. change (is4 (v4InV6Prefix ++ [a; b; c; d])) with true.
    unfold isPrivateIP. change (is4 (v4InV6Prefix ++ [a; b; c; d])) with true. cbn iota.
    change (octet (v4InV6Prefix ++ [a; b; c; d]) 12) with a. change (octet (v4InV6Prefix ++ [a; b; c; d]) 13) with b.
    change (2 ^ (32 - 8)) with 16777216. change (2 ^ (32 - 12)) with 1048576. change (2 ^ (32 - 16)) with 65536. cbv zeta.
    set (n := (((0 * 256 + a) * 256 + b) * 256 + c) * 256 + d). assert (n / 16777216 = a /\ n / 65536 = a * 256 + b /\ n / 1048576 = a * 16 + b / 16) as (-> & -> & ->)
      by (unfold n; Z.to_euclidean_division_equations; lia).
    Z.to_euclidean_division_equations. lia.
  - intros rest -> Hv. unfold isPrivateIP. rewrite Hv. change (octet (a :: b :: rest) 0) with a. change (octet (a :: b :: rest) 1) with b.
    rewrite byte_land_192 by done. unfold in_block, number. cbn [fold_left]. change (2 ^ (16 - 7)) with 512. change (2 ^ (16 - 10)) with 64.
    rewrite !orb_true_iff, bool_decide_eq_true. split.
    + intros [[H|H]|H]; [left; Z.to_euclidean_division_equations; lia|right; left; Z.to_euclidean_division_equations; lia|by right; right].
    + intros [H|[H|H]]; [left; left; Z.to_euclidean_division_equations; lia|left; right; Z.to_euclidean_division_equations; lia|by right].
Qed.

(** ** Witnesses and examples *)

#[local] Existing Instance ascii_tables.
Definition sample_cfg : DNSConfig :=
  mkDNSConfig "mx1.example.org" "example.org" "192.0.2.1" "2001:db8::1" "v=DKIM1; k=rsa; p=AA" "postmaster@example.org" "".
Lemma sample_printable : printable sample_cfg.
Proof.
  constructor; try (by vm_compute); try (split; [by repeat constructor|by vm_compute]);
    [eexists _, _; split; [reflexivity|done]|right; eexists _, _; split; [reflexivity|done]].
Qed.
Lemma exports_agree_witness : exists records,
  read_zone (unlines (exportCloudFlareFormat sample_cfg "2026-01-01 00:00:00")) = Some records /\ records ≡ₚ mail_records sample_cfg.
Proof. apply (exports_agree sample_cfg sample_printable "2026-01-01 00:00:00"). by vm_compute. Defined.

Example two_labels_give_the_top_level_domain : domain_of "example.org" = "org".
Proof. done. Qed.
(** Answers that pass the tests and spoil the zone *)
Example final_dot_doubled : isValidHostname "mx1.example.org." = true /\
  std ("mx1.example.org." +:+ ".") "A      192.0.2.1" = "mx1.example.org..                        IN  A      192.0.2.1".
Proof. split; vm_compute; done. Qed.
Example odd_answers_accepted : isValidHostname "mx1 ;.example.org" = true /\ isValidIPv4 "010.0.0.01" = true /\ isValidIPv6 "no: v6" = true /\ isValidEmail "@@a.b" = false.
Proof. split_and!; vm_compute; done. Qed.
Example loader_without_argument_panics :
  tls_email [Config.block "tls" [] [directive "loader" []]] "" = Panicked "index out of range [0] with length 0".
Proof. done. Qed.
(** The public key of 2048 bits, 294 bytes in PKIX form, gives a TXT record of 410 bytes;
    a character string of a zone file has 255 at most. *)
Example dkim_string_too_long :
  String.length ("v=DKIM1; k=rsa; p=" +:+ EncodeToString (of_bytes (replicate 294 0))) = 410%nat.
Proof. vm_compute. done. Qed.

(** Files in a map: a key without its .dns file is replaced by a new one. *)
Definition map_ops : KeyOps (gmap string string) unit := mkKeyOps
  (fun _ => mret None) (fun path w => (w, Done (bool_decide (is_Some (w !! path)))))
  (fun path w => (w, Done (match w !! path with Some s => Ok s | None => Err (ENew "no such file") end)))
  (mret (Ok tt)) (fun _ => Ok "new key") (fun _ => Ok "new public key")
  (fun path w => (<[path := ""]> w, Done None)) (fun path blob w => (<[path := blob]> w, Done None)) (fun path s w => (<[path := s]> w, Done None)).
Example existing_key_replaced :
  (ensureDKIMKeys map_ops "/data" "example.org" "default" {[ "/data/dkim_keys/example.org_default.key" := "the key in use" ]}).1
    !! "/data/dkim_keys/example.org_default.key" = Some "new key".
Proof. vm_compute. done. Qed.
