(* ===== verification/Limiters.v ===== *)
(** * Limiters: internal/limits/limiters

    Channel-based limiters.  A limiter operation is one atomic step on the
    channels it uses; [Outs] lists its possible outcomes (none = it blocks).
    The interface limiters.L is the class [Limiter]; [LimiterLaws] states what
    an implementation promises to its users: with [n] tokens outstanding a
    successful take makes them [S n], a failed one leaves them, and a release of
    an outstanding token does not panic. *)
From S2P Require Import Prelude GoStr ExtErrors.
From Stdlib Require Import ZifyBool.

Local Open Scope Z_scope.
Local Open Scope go_scope.

Inductive take_res := Taken | Failed (e : gerror).

(** limiters.L.  The argument of [lim_TakeContext] is the state of the context:
    [None] while it is not done, [Some e] when Done() is closed and Err() is e. *)
Class Limiter (S : Type) := {
  lim_Take : S -> Outs (bool * S);
  lim_TakeContext : error -> S -> Outs (take_res * S);
  lim_Release : S -> Outcome S;
  lim_Close : S -> Outcome S
}.

(** ** concurrency.go *)

(** The channel of a Semaphore: its capacity and how many elements it holds. *)
Record Semaphore := mkSemaphore { sem_cap : Z; sem_len : Z }.

Definition makechan_panic : string := "makechan: size out of range".
Definition mismatched_panic : string := "limiters: mismatched Release call".

Definition NewSemaphore (max : Z) : Outcome Semaphore :=
  if max <? 0 then Panicked makechan_panic else Done (mkSemaphore max 0).

Definition sem_send (s : Semaphore) : Semaphore := mkSemaphore (sem_cap s) (sem_len s + 1).

Definition Semaphore_Take (s : Semaphore) : Outs (bool * Semaphore) :=
  if sem_cap s <=? 0 then [Done (true, s)]
  else if sem_len s <? sem_cap s then [Done (true, sem_send s)] else [].

Definition Semaphore_TakeContext (ctx : error) (s : Semaphore) : Outs (take_res * Semaphore) :=
  if sem_cap s <=? 0 then [Done (Taken, s)] else
  (if sem_len s <? sem_cap s then [Done (Taken, sem_send s)] else [])
  ++ match ctx with Some e => [Done (Failed e, s)] | None => [] end.

Definition Semaphore_Release (s : Semaphore) : Outcome Semaphore :=
  if sem_cap s <=? 0 then Done s
  else if 0 <? sem_len s then Done (mkSemaphore (sem_cap s) (sem_len s - 1))
  else Panicked mismatched_panic.

Definition Semaphore_Close (s : Semaphore) : Outcome Semaphore := Done s.

#[export] Instance Semaphore_Limiter : Limiter Semaphore := {|
  lim_Take := Semaphore_Take; lim_TakeContext := Semaphore_TakeContext;
  lim_Release := Semaphore_Release; lim_Close := Semaphore_Close |}.

(** ** rate.go *)

(** The two channels of a Rate and the state of its fill goroutine: how many
    iterations of the fill loop are left ([None]: waiting on the timer). *)
Record Rate := mkRate {
  rt_cap : Z;             (* cap(r.bucket), the burst size *)
  rt_len : Z;             (* len(r.bucket) *)
  rt_stopped : bool;      (* r.stop is closed *)
  rt_bclosed : bool;      (* r.bucket is closed *)
  rt_fill : option nat;
  rt_interval : Z
}.

Definition ErrClosed : gerror := ENew "limiters: Rate bucket is closed".

(** The loop that fills the bucket leaves it full; no goroutine for burst 0. *)
Definition NewRate (burstSize interval : Z) : Outcome Rate :=
  if burstSize <? 0 then Panicked makechan_panic
  else Done (mkRate burstSize burstSize false false None interval).

(** Steps of the fill goroutine: the timer fires, ... *)
Definition Rate_fill_tick (r : Rate) : option Rate :=
  if rt_cap r =? 0 then None else
  if rt_bclosed r then None else
  match rt_fill r with
  | None => Some (mkRate (rt_cap r) (rt_len r) (rt_stopped r) false
                    (Some (Z.to_nat (rt_cap r))) (rt_interval r))
  | Some _ => None
  end.
(** ... one iteration of the inner loop: send if the bucket has room, otherwise
    break; ... *)
Definition Rate_fill_send (r : Rate) : option Rate :=
  match rt_fill r with
  | Some (S i) =>
    if rt_len r <? rt_cap r
    then Some (mkRate (rt_cap r) (rt_len r + 1) (rt_stopped r) (rt_bclosed r) (Some i) (rt_interval r))
    else Some (mkRate (rt_cap r) (rt_len r) (rt_stopped r) (rt_bclosed r) None (rt_interval r))
  | Some O => Some (mkRate (rt_cap r) (rt_len r) (rt_stopped r) (rt_bclosed r) None (rt_interval r))
  | None => None
  end.
(** ... and r.stop is closed: the bucket is closed and the goroutine returns. *)
Definition Rate_fill_stop (r : Rate) : option Rate :=
  if rt_cap r =? 0 then None else
  if rt_bclosed r then None else
  match rt_fill r with
  | None => if rt_stopped r
            then Some (mkRate (rt_cap r) (rt_len r) true true None (rt_interval r)) else None
  | Some _ => None
  end.

Definition rate_recv (r : Rate) : Rate :=
  mkRate (rt_cap r) (rt_len r - 1) (rt_stopped r) (rt_bclosed r) (rt_fill r) (rt_interval r).

(** A receive from the bucket: a token, or ok = false once it is closed and empty. *)
Definition Rate_Take (r : Rate) : Outs (bool * Rate) :=
  if rt_cap r =? 0 then [Done (true, r)]
  else if 0 <? rt_len r then [Done (true, rate_recv r)]
  else if rt_bclosed r then [Done (false, r)] else [].

Definition Rate_TakeContext (ctx : error) (r : Rate) : Outs (take_res * Rate) :=
  if rt_cap r =? 0 then [Done (Taken, r)] else
  (if 0 <? rt_len r then [Done (Taken, rate_recv r)]
   else if rt_bclosed r then [Done (Failed ErrClosed, r)] else [])
  ++ match ctx with Some e => [Done (Failed e, r)] | None => [] end.

Definition Rate_Release (r : Rate) : Outcome Rate := Done r.

Definition close_closed_panic : string := "close of closed channel".

Definition Rate_Close (r : Rate) : Outcome Rate :=
  if rt_stopped r then Panicked close_closed_panic
  else Done (mkRate (rt_cap r) (rt_len r) true (rt_bclosed r) (rt_fill r) (rt_interval r)).

#[export] Instance Rate_Limiter : Limiter Rate := {|
  lim_Take := Rate_Take; lim_TakeContext := Rate_TakeContext;
  lim_Release := Rate_Release; lim_Close := Rate_Close |}.

(** The dynamic types a limiters.L holds inside a MultiLimit. *)
Inductive L := LSem (s : Semaphore) | LRate (r : Rate).

Definition outs_map {A B} (f : A -> B) (m : Outs A) : Outs B := a <-! m; [Done (f a)].

#[export] Instance L_Limiter : Limiter L := {|
  lim_Take l := match l with
                | LSem s => outs_map (fun p => (p.1, LSem p.2)) (lim_Take s)
                | LRate r => outs_map (fun p => (p.1, LRate p.2)) (lim_Take r)
                end;
  lim_TakeContext ctx l := match l with
                | LSem s => outs_map (fun p => (p.1, LSem p.2)) (lim_TakeContext ctx s)
                | LRate r => outs_map (fun p => (p.1, LRate p.2)) (lim_TakeContext ctx r)
                end;
  lim_Release l := match l with
                | LSem s => LSem <$> lim_Release s | LRate r => LRate <$> lim_Release r end;
  lim_Close l := match l with
                | LSem s => LSem <$> lim_Close s | LRate r => LRate <$> lim_Close r end |}.

(** ** multilimit.go *)

(** The methods of a MultiLimit one call at a time: a program gives the next call on
    ml.Wrapped[i] and goes on with its result.  Goroutines interleave between calls. *)
Inductive mlprog (A : Type) :=
| PRet (a : A)
| PTake (i : nat) (k : bool -> mlprog A)
| PTakeContext (i : nat) (k : take_res -> mlprog A)
| PRelease (i : nat) (k : mlprog A).
Arguments PRet {A} _.
Arguments PTake {A} _ _.
Arguments PTakeContext {A} _ _.
Arguments PRelease {A} _ _.

(** A program whose result is mapped *)
Fixpoint mlp_map {A B} (f : A -> B) (p : mlprog A) : mlprog B :=
  match p with
  | PRet a => PRet (f a)
  | PTake i k => PTake i (fun r => mlp_map f (k r))
  | PTakeContext i k => PTakeContext i (fun r => mlp_map f (k r))
  | PRelease i k => PRelease i (mlp_map f k)
  end.

Section MultiLimit.
Context {S : Type} `{Limiter S}.

(** [for _, l := range ml.Wrapped { l.Release() }] *)
Fixpoint MultiLimit_Release (ml : list S) : Outcome (list S) :=
  match ml with
  | [] => Done []
  | l :: ml => l ← lim_Release l; ml ← MultiLimit_Release ml; Done (l :: ml)
  end.

Fixpoint MultiLimit_Close (ml : list S) : Outcome (list S) :=
  match ml with
  | [] => Done []
  | l :: ml => l ← lim_Close l; ml ← MultiLimit_Close ml; Done (l :: ml)
  end.

(** The loop of TakeContext: [got] is ml.Wrapped[:i], [rest] is ml.Wrapped[i:]. *)
Fixpoint ml_TakeContext (ctx : error) (got rest : list S) : Outs (take_res * list S) :=
  match rest with
  | [] => [Done (Taken, got)]
  | l :: rest =>
    ' (r, l) <-! lim_TakeContext ctx l;
    match r with
    | Taken => ml_TakeContext ctx (got ++ [l]) rest
    | Failed e => got <-! [MultiLimit_Release got]; [Done (Failed e, got ++ l :: rest)]
    end
  end.

Fixpoint ml_Take (got rest : list S) : Outs (bool * list S) :=
  match rest with
  | [] => [Done (true, got)]
  | l :: rest =>
    ' (r, l) <-! lim_Take l;
    if (r : bool) then ml_Take (got ++ [l]) rest
    else got <-! [MultiLimit_Release got]; [Done (false, got ++ l :: rest)]
  end.

Definition MultiLimit_TakeContext (ctx : error) (ml : list S) := ml_TakeContext ctx [] ml.
Definition MultiLimit_Take (ml : list S) := ml_Take [] ml.

(** [for _, l := range ml.Wrapped[:n] { l.Release() }] *)
Definition release_first {A} (n : nat) (k : mlprog A) : mlprog A := foldr PRelease k (seq 0 n).
Definition mlp_Release (n : nat) : mlprog unit := release_first n (PRet tt).
(** The loops from index [i], with [m] limiters to go *)
Fixpoint mlp_take_from (i m : nat) : mlprog bool :=
  match m with
  | O => PRet true
  | Datatypes.S m => PTake i (fun r => if r then mlp_take_from (Datatypes.S i) m else release_first i (PRet false))
  end.
Fixpoint mlp_takectx_from (i m : nat) : mlprog take_res :=
  match m with
  | O => PRet Taken
  | Datatypes.S m => PTakeContext i (fun r =>
      match r with Taken => mlp_takectx_from (Datatypes.S i) m | Failed e => release_first i (PRet (Failed e)) end)
  end.
Definition mlp_Take (n : nat) : mlprog bool := mlp_take_from 0 n.
Definition mlp_TakeContext (n : nat) : mlprog take_res := mlp_takectx_from 0 n.

(** A program run by a goroutine alone *)
Fixpoint run_alone {A} (ctx : error) (p : mlprog A) (ml : list S) : Outs (A * list S) :=
  match p with
  | PRet a => [Done (a, ml)]
  | PTake i k =>
    match ml !! i with
    | Some l => ' (r, l) <-! lim_Take l; run_alone ctx (k r) (<[i := l]> ml)
    | None => [Panicked "index out of range"]
    end
  | PTakeContext i k =>
    match ml !! i with
    | Some l => ' (r, l) <-! lim_TakeContext ctx l; run_alone ctx (k r) (<[i := l]> ml)
    | None => [Panicked "index out of range"]
    end
  | PRelease i k =>
    match ml !! i with
    | Some l => l <-! [lim_Release l]; run_alone ctx k (<[i := l]> ml)
    | None => [Panicked "index out of range"]
    end
  end.

#[export] Instance MultiLimit_Limiter : Limiter (list S) := {|
  lim_Take := MultiLimit_Take; lim_TakeContext := MultiLimit_TakeContext;
  lim_Release := MultiLimit_Release; lim_Close := MultiLimit_Close |}.
End MultiLimit.

(** ** bucket.go *)

(** time.Duration arithmetic saturates in Time.Sub. *)
Definition minInt64 : Z := -9223372036854775808.
Definition maxInt64 : Z := 9223372036854775807.
Definition time_Sub (t u : Z) : Z := Z.max minInt64 (Z.min maxInt64 (t - u)).

(** A BucketSet; [bs_New] is the constructor field, [None] for nil; each bucket
    has its limiter and the time of its last use. *)
Record BucketSet (S : Type) := mkBucketSet {
  bs_New : option (Outcome S);
  bs_ReapInterval : Z;
  bs_MaxBuckets : nat;
  bs_m : gmap string (S * Z)
}.
Global Arguments mkBucketSet {_} _ _ _ _.
Global Arguments bs_New {_} _.
Global Arguments bs_ReapInterval {_} _.
Global Arguments bs_MaxBuckets {_} _.
Global Arguments bs_m {_} _.

Definition nil_panic : string := "invalid memory address or nil pointer dereference".

Section BucketSet.
Context {S : Type} `{Limiter S}.

Definition NewBucketSet (new_ : Outcome S) (reapInterval : Z) (maxBuckets : nat) : BucketSet S :=
  mkBucketSet (Some new_) reapInterval maxBuckets ∅.

Definition set_m (bs : BucketSet S) (m : gmap string (S * Z)) : BucketSet S :=
  mkBucketSet (bs_New bs) (bs_ReapInterval bs) (bs_MaxBuckets bs) m.

(** Close every bucket of the list in order (a map range). *)
Fixpoint close_all (l : list (string * (S * Z))) : Outcome unit :=
  match l with
  | [] => Done tt
  | (_, (r, _)) :: l => _ ← lim_Close r; close_all l
  end.

Definition BucketSet_Close (bs : BucketSet S) : Outcome unit := close_all (map_to_list (bs_m bs)).

(** The test the reaping loop makes. *)
Definition stale (bs : BucketSet S) (now : Z) (b : S * Z) : bool :=
  bs_ReapInterval bs <? time_Sub b.2 now.

(** The reaping loop: stale buckets are closed and deleted. *)
Definition reap (bs : BucketSet S) (now : Z) : Outcome (BucketSet S) :=
  _ ← close_all (map_to_list (filter (fun kv => stale bs now kv.2 = true) (bs_m bs)));
  Done (set_m bs (filter (fun kv => stale bs now kv.2 = false) (bs_m bs))).

(** take: [now] and [now'] are the readings of the clock for the reaping and for
    lastUse.  The result is the key of the bucket returned, [None] for nil. *)
Definition BucketSet_take (now now' : Z) (key : string) (bs : BucketSet S)
  : Outcome (option string * BucketSet S) :=
  bs ← (if (bs_MaxBuckets bs <? size (bs_m bs))%nat then reap bs now else Done bs);
  if (bs_MaxBuckets bs <? size (bs_m bs))%nat then Done (None, bs) else
  match bs_m bs !! key with
  | Some (r, _) => Done (Some key, set_m bs (<[key := (r, now')]> (bs_m bs)))
  | None =>
    match bs_New bs with
    | None => Panicked nil_panic
    | Some new_ =>
      r ← new_; Done (Some key, set_m bs (<[key := (r, now')]> (bs_m bs)))
    end
  end.

(** A method call on the bucket take returned. *)
Definition on_bucket {A} (f : S -> Outs (A * S)) (ob : option string) (bs : BucketSet S)
  : Outs (A * BucketSet S) :=
  match ob ≫= (fun k => pair k <$> bs_m bs !! k) with
  | None => [Panicked nil_panic]
  | Some (k, (r, t)) => ' (a, r) <-! f r; [Done (a, set_m bs (<[k := (r, t)]> (bs_m bs)))]
  end.

Definition BucketSet_TakeContext (ctx : error) (now now' : Z) (key : string) (bs : BucketSet S)
  : Outs (take_res * BucketSet S) :=
  match bs_New bs with
  | None => [Done (Taken, bs)]
  | Some _ =>
    ' (ob, bs) <-! [BucketSet_take now now' key bs]; on_bucket (lim_TakeContext ctx) ob bs
  end.

Definition BucketSet_Take (now now' : Z) (key : string) (bs : BucketSet S)
  : Outs (bool * BucketSet S) :=
  match bs_New bs with
  | None => [Done (true, bs)]
  | Some _ =>
    ' (ob, bs) <-! [BucketSet_take now now' key bs]; on_bucket lim_Take ob bs
  end.

Definition BucketSet_Release (key : string) (bs : BucketSet S) : Outcome (BucketSet S) :=
  match bs_New bs with
  | None => Done bs
  | Some _ =>
    match bs_m bs !! key with
    | None => Done bs
    | Some (r, t) => r ← lim_Release r; Done (set_m bs (<[key := (r, t)]> (bs_m bs)))
    end
  end.
End BucketSet.

(** ** What a limiter promises *)

Class LimiterLaws (S : Type) `{Limiter S} := {
  (** [s] has [n] outstanding tokens *)
  outstanding : nat -> S -> Prop;
  take_law : forall n s ctx, outstanding n s ->
    holds (lim_TakeContext ctx s) (fun p =>
      match p.1 with Taken => outstanding (Datatypes.S n) p.2 | Failed _ => outstanding n p.2 end);
  Take_law : forall n s, outstanding n s ->
    holds (lim_Take s) (fun p => outstanding (if p.1 then Datatypes.S n else n) p.2);
  release_law : forall n s, outstanding (Datatypes.S n) s ->
    exists s', lim_Release s = Done s' /\ outstanding n s'
}.

Definition sem_outstanding (n : nat) (s : Semaphore) : Prop :=
  sem_cap s <= 0 \/ (sem_len s = Z.of_nat n /\ Z.of_nat n <= sem_cap s).

#[export] Program Instance Semaphore_laws : LimiterLaws Semaphore := {|
  outstanding := sem_outstanding |}.
Next Obligation.
  intros n s ctx Hs. simpl. unfold Semaphore_TakeContext, sem_outstanding in *.
  destruct (sem_cap s <=? 0) eqn:?; [apply holds_ret; simpl; lia|].
  apply holds_app; [|destruct ctx; [apply holds_ret; simpl; lia|apply holds_nil]].
  destruct (sem_len s <? sem_cap s) eqn:?; [apply holds_ret; simpl; lia|apply holds_nil].
Qed.
Next Obligation.
  intros n s Hs. simpl. unfold Semaphore_Take, sem_outstanding in *.
  destruct (sem_cap s <=? 0) eqn:?; [apply holds_ret; simpl; lia|].
  destruct (sem_len s <? sem_cap s) eqn:?; [apply holds_ret; simpl; lia|apply holds_nil].
Qed.
Next Obligation.
  intros n s Hs. simpl. unfold Semaphore_Release, sem_outstanding in *.
  destruct (sem_cap s <=? 0) eqn:?; [eexists; split; [done|]; lia|].
  destruct (0 <? sem_len s) eqn:?; [eexists; split; [done|]; simpl; lia|lia].
Qed.

(** Rate never counts releases: any number of tokens may be outstanding. *)
#[export] Program Instance Rate_laws : LimiterLaws Rate := {| outstanding _ _ := True |}.
Next Obligation.
  intros n r ctx _. simpl. unfold Rate_TakeContext.
  repeat case_match; repeat apply holds_app; auto with go;
    by first [apply holds_ret|apply holds_nil].
Qed.
Next Obligation.
  intros n r _. simpl. unfold Rate_Take. repeat case_match; by first [apply holds_ret|apply holds_nil].
Qed.
Next Obligation. intros n r _. by exists r. Qed.

Lemma holds_outs_map {A B} (f : A -> B) (m : Outs A) (P : B -> Prop) :
  holds m (fun a => P (f a)) -> holds (outs_map f m) P.
Proof. intros Hm. eapply holds_bind; [exact Hm|]. intros a Ha. by apply holds_ret. Qed.

Definition L_outstanding (n : nat) (l : L) : Prop :=
  match l with LSem s => outstanding n s | LRate r => outstanding n r end.

#[export] Program Instance L_laws : LimiterLaws L := {| outstanding := L_outstanding |}.
Next Obligation.
  intros n [s|r] ctx Hl; apply holds_outs_map.
  - eapply holds_weaken; [exact (take_law n s ctx Hl)|]. intros [[] ?]; done.
  - eapply holds_weaken; [exact (take_law n r ctx Hl)|]. intros [[] ?]; done.
Qed.
Next Obligation.
  intros n [s|r] Hl; apply holds_outs_map.
  - eapply holds_weaken; [exact (Take_law n s Hl)|]. intros [[] ?]; done.
  - eapply holds_weaken; [exact (Take_law n r Hl)|]. intros [[] ?]; done.
Qed.
Next Obligation.
  intros n [s|r] Hl; simpl in *.
  - destruct (release_law (LimiterLaws := Semaphore_laws) n s Hl) as (s' & E & Hs).
    simpl in E. rewrite E. by exists (LSem s').
  - by exists (LRate r).
Qed.

(** *** A multi-limit of lawful limiters is a lawful limiter *)

Section MultiLimitLaws.
Context {S : Type} `{LimiterLaws S}.

Definition ml_outstanding (n : nat) (ml : list S) : Prop := Forall (outstanding n) ml.

Lemma MultiLimit_Release_ok n ml :
  ml_outstanding (Datatypes.S n) ml ->
  exists ml', MultiLimit_Release ml = Done ml' /\ ml_outstanding n ml'.
Proof.
  induction 1 as [|l ml Hl _ IH]; [by exists []; repeat constructor|].
  destruct (release_law n l Hl) as (l' & E & Hl'). destruct IH as (ml' & E' & Hml').
  exists (l' :: ml'). simpl. rewrite E. simpl. rewrite E'. split; [done|by constructor].
Qed.

Lemma ml_TakeContext_ok ctx n got rest :
  ml_outstanding (Datatypes.S n) got -> ml_outstanding n rest ->
  holds (ml_TakeContext ctx got rest) (fun p =>
    match p.1 with
    | Taken => ml_outstanding (Datatypes.S n) p.2
    | Failed _ => ml_outstanding n p.2
    end).
Proof.
  intros Hg Hr. revert got Hg. induction Hr as [|l rest Hl Hr IH]; intros got Hg; simpl.
  { by apply holds_ret. }
  eapply holds_bind; [exact (take_law n l ctx Hl)|].
  intros [[|e] l'] Hl'; simpl in Hl'.
  - apply IH. apply Forall_app_2; [done|by repeat constructor].
  - destruct (MultiLimit_Release_ok n got Hg) as (got' & -> & Hg').
    apply holds_ret. simpl. apply Forall_app_2; [done|by constructor].
Qed.

Lemma ml_Take_ok n got rest :
  ml_outstanding (Datatypes.S n) got -> ml_outstanding n rest ->
  holds (ml_Take got rest) (fun p =>
    ml_outstanding (if p.1 then Datatypes.S n else n) p.2).
Proof.
  intros Hg Hr. revert got Hg. induction Hr as [|l rest Hl Hr IH]; intros got Hg; simpl.
  { by apply holds_ret. }
  eapply holds_bind; [exact (Take_law n l Hl)|].
  intros [[|] l'] Hl'; simpl in Hl'.
  - apply IH. apply Forall_app_2; [done|by repeat constructor].
  - destruct (MultiLimit_Release_ok n got Hg) as (got' & -> & Hg').
    apply holds_ret. simpl. apply Forall_app_2; [done|by constructor].
Qed.

#[export] Program Instance MultiLimit_laws : LimiterLaws (list S) := {|
  outstanding := ml_outstanding |}.
Next Obligation. intros n s ctx Hs. apply ml_TakeContext_ok; [constructor|done]. Qed.
Next Obligation. intros n s Hs. apply ml_Take_ok; [constructor|done]. Qed.
Next Obligation. intros n s Hs. by apply MultiLimit_Release_ok. Qed.
End MultiLimitLaws.

(** ** Concurrent users of one MultiLimit

    Goroutines that share the wrapped limiters: each runs Take or TakeContext, and
    later Release, one call on a wrapped limiter at a time, in any interleaving. *)

(** A goroutine is between calls, with a token of the MultiLimit or not, or inside one
    of its methods.  [th_tokens] are the wrapped limiters it took and did not release. *)
Inductive phase := Resting (held : bool) | Running (p : mlprog bool).
Record thread := mkThread { th_phase : phase; th_tokens : gset nat }.

Definition is_taken (r : take_res) : bool := match r with Taken => true | Failed _ => false end.

Section MultiSys.
Context {S : Type} `{LimiterLaws S}.
(** What the goroutines of a limiter itself and Close do to it *)
Context (env : S -> S -> Prop) (env_ok : forall n l l', env l l' -> outstanding n l -> outstanding n l').

Record sys := mkSys { sys_lims : list S; sys_threads : list thread }.

Definition set_thread (st : sys) (t : nat) (th : thread) : sys :=
  mkSys (sys_lims st) (<[t := th]> (sys_threads st)).
Definition set_lim (st : sys) (i : nat) (l : S) : sys :=
  mkSys (<[i := l]> (sys_lims st)) (sys_threads st).
Definition took (r : bool) (i : nat) (X : gset nat) : gset nat := if r then {[i]} ∪ X else X.

Inductive sys_step : sys -> sys -> Prop :=
  (* a goroutine calls a method *)
| step_Take st t X : sys_threads st !! t = Some (mkThread (Resting false) X) ->
    sys_step st (set_thread st t (mkThread (Running (mlp_Take (length (sys_lims st)))) X))
| step_TakeContext st t X : sys_threads st !! t = Some (mkThread (Resting false) X) ->
    sys_step st (set_thread st t (mkThread (Running (mlp_map is_taken (mlp_TakeContext (length (sys_lims st))))) X))
| step_Release st t X : sys_threads st !! t = Some (mkThread (Resting true) X) ->
    sys_step st (set_thread st t (mkThread (Running (mlp_map (fun _ => false) (mlp_Release (length (sys_lims st))))) X))
  (* the method calls a wrapped limiter, or returns *)
| call_Take st t i k X l l' r : sys_threads st !! t = Some (mkThread (Running (PTake i k)) X) ->
    sys_lims st !! i = Some l -> Done (r, l') ∈ lim_Take l ->
    sys_step st (set_lim (set_thread st t (mkThread (Running (k r)) (took r i X))) i l')
| call_TakeContext st t i k X l l' r ctx : sys_threads st !! t = Some (mkThread (Running (PTakeContext i k)) X) ->
    sys_lims st !! i = Some l -> Done (r, l') ∈ lim_TakeContext ctx l ->
    sys_step st (set_lim (set_thread st t (mkThread (Running (k r)) (took (is_taken r) i X))) i l')
| call_Release st t i k X l l' : sys_threads st !! t = Some (mkThread (Running (PRelease i k)) X) ->
    sys_lims st !! i = Some l -> lim_Release l = Done l' ->
    sys_step st (set_lim (set_thread st t (mkThread (Running k) (X ∖ {[i]}))) i l')
| method_returns st t b X : sys_threads st !! t = Some (mkThread (Running (PRet b)) X) ->
    sys_step st (set_thread st t (mkThread (Resting b) X))
| step_env st i l l' : sys_lims st !! i = Some l -> env l l' -> sys_step st (set_lim st i l').

(** The next call of some goroutine panics: it is out of range, or the limiter panics. *)
Definition call_panics (p : mlprog bool) (lims : list S) : Prop :=
  match p with
  | PRet _ => False
  | PTake i _ => forall l, lims !! i = Some l -> exists w, Panicked w ∈ lim_Take l
  | PTakeContext i _ => forall l, lims !! i = Some l -> exists ctx w, Panicked w ∈ lim_TakeContext ctx l
  | PRelease i _ => forall l, lims !! i = Some l -> exists w, lim_Release l = Panicked w
  end.
Definition sys_panics (st : sys) : Prop :=
  exists t p X, sys_threads st !! t = Some (mkThread (Running p) X) /\ call_panics p (sys_lims st).

(** A program that, begun with the tokens [X] of [n] limiters, takes only what it does
    not hold, releases only what it holds, and ends with all or none. *)
Definition all_or_none (n : nat) (b : bool) : gset nat := if b then set_seq 0 n else ∅.
Fixpoint good_prog (n : nat) (X : gset nat) (p : mlprog bool) : Prop :=
  match p with
  | PRet b => X = all_or_none n b
  | PTake i k => (i < n)%nat /\ i ∉ X /\ forall r, good_prog n (took r i X) (k r)
  | PTakeContext i k => (i < n)%nat /\ i ∉ X /\ forall r, good_prog n (took (is_taken r) i X) (k r)
  | PRelease i k => (i < n)%nat /\ i ∈ X /\ good_prog n (X ∖ {[i]}) k
  end.
Definition good_thread (n : nat) (th : thread) : Prop :=
  match th_phase th with
  | Resting b => th_tokens th = all_or_none n b
  | Running p => good_prog n (th_tokens th) p
  end.

Lemma release_good n a m : (a + m <= n)%nat -> good_prog n (set_seq a m) (foldr PRelease (PRet false) (seq a m)).
Proof.
  revert a. induction m as [|m IH]; intros a Hm; [done|]. simpl. split; [lia|]. split; [set_solver|].
  replace (({[a]} ∪ set_seq (Datatypes.S a) m) ∖ {[a]}) with (set_seq (C := gset nat) (Datatypes.S a) m); [apply IH; lia|].
  apply set_eq. intros x. rewrite elem_of_difference, elem_of_union, elem_of_singleton, elem_of_set_seq. lia.
Qed.
Lemma map_release {A} (f : A -> bool) a l : mlp_map f (foldr PRelease (PRet a) l) = foldr PRelease (PRet (f a)) l.
Proof. induction l as [|i l IH]; simpl; [done|]. by rewrite IH. Qed.
Lemma took_next i : took true i (set_seq 0 i) = set_seq 0 (Datatypes.S i).
Proof. unfold took. by rewrite set_seq_S_end_union_L. Qed.
Lemma not_in_first i : i ∉ set_seq (C := gset nat) 0 i.
Proof. rewrite elem_of_set_seq. lia. Qed.
Lemma take_good n i m : (i + m = n)%nat -> good_prog n (set_seq 0 i) (mlp_take_from i m).
Proof.
  revert i. induction m as [|m IH]; intros i Hn; simpl; [unfold all_or_none; f_equal; lia|].
  split; [lia|]. split; [apply not_in_first|]. intros [|].
  - rewrite took_next. apply IH. lia.
  - apply release_good. lia.
Qed.
Lemma takectx_good n i m : (i + m = n)%nat -> good_prog n (set_seq 0 i) (mlp_map is_taken (mlp_takectx_from i m)).
Proof.
  revert i. induction m as [|m IH]; intros i Hn; simpl; [unfold all_or_none; f_equal; lia|].
  split; [lia|]. split; [apply not_in_first|]. intros [|e].
  - rewrite took_next. apply IH. lia.
  - unfold release_first. rewrite map_release. apply release_good. lia.
Qed.

Definition has_token (th : thread) (x : nat) : nat := if decide (x ∈ th_tokens th) then 1 else 0.
(** How many goroutines took limiter [x] *)
Definition tokens (ths : list thread) (x : nat) : nat := sum_list_with (fun th => has_token th x) ths.

Lemma tokens_insert ths t th th' x :
  ths !! t = Some th ->
  (tokens (<[t := th']> ths) x + has_token th x = tokens ths x + has_token th' x)%nat.
Proof.
  revert t. induction ths as [|p ths IH]; intros [|t] E; simplify_eq/=; [lia|].
  specialize (IH t E). unfold tokens in *. lia.
Qed.
Lemma tokens_ge ths t th x : ths !! t = Some th -> (has_token th x <= tokens ths x)%nat.
Proof.
  revert t. induction ths as [|p ths IH]; intros [|t] E; simplify_eq/=; [lia|].
  specialize (IH t E). unfold tokens in *. lia.
Qed.

Definition sys_inv (st : sys) : Prop :=
  Forall (good_thread (length (sys_lims st))) (sys_threads st) /\
  forall x l, sys_lims st !! x = Some l -> outstanding (tokens (sys_threads st) x) l.

Lemma sys_inv_lookup st t th : sys_inv st -> sys_threads st !! t = Some th -> good_thread (length (sys_lims st)) th.
Proof. intros [Hg _] Ht. by eapply Forall_lookup_1 in Hg. Qed.

(** A step that moves one goroutine and changes none of its tokens *)
Lemma sys_inv_thread st t th th' :
  sys_inv st -> sys_threads st !! t = Some th -> th_tokens th' = th_tokens th ->
  good_thread (length (sys_lims st)) th' -> sys_inv (set_thread st t th').
Proof.
  intros [Hg HI] Ht Hx Hth. split; [by apply Forall_insert|]. intros x l E. simpl in *.
  pose proof (tokens_insert _ _ _ th' x Ht) as T. unfold has_token in T. rewrite Hx in T.
  replace (tokens _ x) with (tokens (sys_threads st) x) by lia. by apply HI.
Qed.

(** A call on limiter [i] that leaves the goroutine with tokens [X'] *)
Lemma sys_inv_call st t th i ph' X' l' :
  sys_inv st -> sys_threads st !! t = Some th ->
  (forall x, x <> i -> x ∈ X' <-> x ∈ th_tokens th) ->
  good_thread (length (sys_lims st)) (mkThread ph' X') ->
  outstanding (tokens (<[t := mkThread ph' X']> (sys_threads st)) i) l' ->
  sys_inv (set_lim (set_thread st t (mkThread ph' X')) i l').
Proof.
  intros [Hg HI] Ht Hx Hth Hl. split; [simpl; rewrite length_insert; by apply Forall_insert|].
  intros x l E. simpl in *. destruct (decide (x = i)) as [->|Hne].
  - apply list_lookup_insert_Some in E as [(_ & <- & _)|[? _]]; done.
  - rewrite list_lookup_insert_ne in E by done.
    pose proof (tokens_insert _ _ _ (mkThread ph' X') x Ht) as T. unfold has_token in T. simpl in T.
    rewrite (decide_ext _ _ _ _ (Hx x Hne)) in T.
    replace (tokens _ x) with (tokens (sys_threads st) x) by lia. by apply HI.
Qed.

Lemma tokens_same st t th ph' i : sys_threads st !! t = Some th ->
  tokens (<[t := mkThread ph' (th_tokens th)]> (sys_threads st)) i = tokens (sys_threads st) i.
Proof. intros Ht. pose proof (tokens_insert _ _ _ (mkThread ph' (th_tokens th)) i Ht) as T. unfold has_token in T. simpl in T. lia. Qed.
Lemma tokens_took st t th ph' i : sys_threads st !! t = Some th -> i ∉ th_tokens th ->
  tokens (<[t := mkThread ph' ({[i]} ∪ th_tokens th)]> (sys_threads st)) i = Datatypes.S (tokens (sys_threads st) i).
Proof.
  intros Ht Hi. pose proof (tokens_insert _ _ _ (mkThread ph' ({[i]} ∪ th_tokens th)) i Ht) as T. unfold has_token in T. simpl in T.
  assert (i ∈ {[i]} ∪ th_tokens th) as Hi' by set_solver. rewrite (decide_True _ _ Hi'), (decide_False _ _ Hi) in T. lia.
Qed.
Lemma tokens_gave st t th ph' i : sys_threads st !! t = Some th -> i ∈ th_tokens th ->
  tokens (sys_threads st) i = Datatypes.S (tokens (<[t := mkThread ph' (th_tokens th ∖ {[i]})]> (sys_threads st)) i).
Proof.
  intros Ht Hi. pose proof (tokens_insert _ _ _ (mkThread ph' (th_tokens th ∖ {[i]})) i Ht) as T. unfold has_token in T. simpl in T.
  assert (i ∉ th_tokens th ∖ {[i]}) as Hi' by set_solver. rewrite (decide_False _ _ Hi'), (decide_True _ _ Hi) in T. lia.
Qed.

Lemma sys_inv_take st t th i k (r : bool) l l' :
  sys_inv st -> sys_threads st !! t = Some th -> i ∉ th_tokens th -> sys_lims st !! i = Some l ->
  outstanding (if r then Datatypes.S (tokens (sys_threads st) i) else tokens (sys_threads st) i) l' ->
  good_prog (length (sys_lims st)) (took r i (th_tokens th)) k ->
  sys_inv (set_lim (set_thread st t (mkThread (Running k) (took r i (th_tokens th)))) i l').
Proof.
  intros HI Ht Hi Hl Ho Hk. eapply sys_inv_call; [done..| |done|].
  - intros x Hx. unfold took. destruct r; set_solver.
  - unfold took. destruct r; [by rewrite tokens_took|by rewrite tokens_same].
Qed.

Lemma sys_step_inv st st' : sys_inv st -> sys_step st st' -> sys_inv st'.
Proof.
  intros HI Hs. destruct Hs as [st t X Ht|st t X Ht|st t X Ht|st t i k X l l' r Ht Hl Hk|st t i k X l l' r ctx Ht Hl Hk
    |st t i k X l l' Ht Hl Hk|st t b X Ht|st i l l' Hl He]; try (pose proof (sys_inv_lookup _ _ _ HI Ht) as Hg; cbn in Hg).
  - eapply sys_inv_thread; [done..|]. cbn. subst X. by apply (take_good _ 0).
  - eapply sys_inv_thread; [done..|]. cbn. subst X. by apply (takectx_good _ 0).
  - eapply sys_inv_thread; [done..|]. cbn. subst X. unfold mlp_Release, release_first. rewrite map_release. by apply release_good.
  - destruct Hg as (_ & Hi & Hg). apply (sys_inv_take st t _ i (k r) r l l' HI Ht Hi Hl); [|apply Hg].
    destruct (Take_law _ _ (proj2 HI _ _ Hl) _ Hk) as (p & E & Hp). simplify_eq. by destruct r.
  - destruct Hg as (_ & Hi & Hg). apply (sys_inv_take st t _ i (k r) (is_taken r) l l' HI Ht Hi Hl); [|apply Hg].
    destruct (take_law _ _ ctx (proj2 HI _ _ Hl) _ Hk) as (p & E & Hp). simplify_eq. by destruct r.
  - destruct Hg as (_ & Hi & Hg). eapply sys_inv_call; [done..|set_solver|done|].
    pose proof (proj2 HI _ _ Hl) as Ho. rewrite (tokens_gave _ _ _ (Running k) i Ht Hi) in Ho.
    destruct (release_law _ _ Ho) as (l1 & E & ?). rewrite Hk in E. by simplify_eq.
  - eapply sys_inv_thread; [done..|]. exact Hg.
  - destruct HI as [Hg HI]. split; [simpl; by rewrite length_insert|]. intros x l0 E. simpl in *.
    apply list_lookup_insert_Some in E as [(-> & <- & _)|[_ E]]; [|by apply HI]. eapply env_ok; [exact He|]. by apply HI.
Qed.

Lemma sys_reachable_inv st st' : sys_inv st -> rtc sys_step st st' -> sys_inv st'.
Proof. intros HI Hr. induction Hr; eauto using sys_step_inv. Qed.

Lemma sys_inv_no_panic st : sys_inv st -> ~ sys_panics st.
Proof.
  intros HI (t & p & X & Ht & Hp). pose proof (sys_inv_lookup _ _ _ HI Ht) as Hg. destruct HI as [_ HI].
  assert (forall i, (i < length (sys_lims st))%nat -> exists l, sys_lims st !! i = Some l) as Hlt by (intros i Hi; by apply lookup_lt_is_Some_2).
  destruct p as [b|i k|i k|i k]; cbn in Hg, Hp; [done|..]; destruct Hg as (Hi & HX & _); destruct (Hlt i Hi) as [l Hl];
    specialize (Hp l Hl); specialize (HI _ _ Hl).
  - destruct Hp as [w Hw]. by destruct (Take_law _ _ HI _ Hw) as (? & ? & _).
  - destruct Hp as (ctx & w & Hw). by destruct (take_law _ _ ctx HI _ Hw) as (? & ? & _).
  - destruct Hp as [w Hw]. rewrite (tokens_gave _ _ _ (Running k) i Ht HX) in HI.
    destruct (release_law _ _ HI) as (? & ? & _). congruence.
Qed.

Definition sys_init (lims : list S) (k : nat) : sys := mkSys lims (replicate k (mkThread (Resting false) ∅)).

Lemma sys_init_inv lims k : Forall (outstanding 0) lims -> sys_inv (sys_init lims k).
Proof.
  intros Hl. split; [by apply Forall_replicate|]. intros x l E. simpl in *. rewrite Forall_lookup in Hl.
  assert (tokens (replicate k (mkThread (Resting false) ∅)) x = 0)%nat as -> by (unfold tokens; induction k; simpl; auto).
  by eapply Hl.
Qed.

(** ** A goroutine alone *)

Lemma outs_bind_ext {A B} (m : Outs A) (f g : A -> Outs B) : (forall a, f a = g a) -> outs_bind m f = outs_bind m g.
Proof. intros Hfg. unfold outs_bind. induction m as [|[a|w] m IH]; cbn; [done| |]; cbn in IH; by rewrite ?Hfg, IH. Qed.
Lemma outs_bind_Done {A B} (a : A) (f : A -> Outs B) : outs_bind [Done a] f = f a.
Proof. unfold outs_bind. cbn. apply app_nil_r. Qed.

Lemma run_release {A} ctx (p : mlprog A) done todo tl :
  run_alone ctx (foldr PRelease p (seq (length done) (length todo))) (done ++ todo ++ tl)
  = got <-! [MultiLimit_Release todo]; run_alone ctx p (done ++ got ++ tl).
Proof.
  revert done. induction todo as [|l todo IH]; intros done; [exact (eq_sym (outs_bind_Done [] (fun got => run_alone ctx p (done ++ got ++ tl))))|]. cbn [length seq foldr run_alone app MultiLimit_Release].
  rewrite list_lookup_middle by reflexivity. destruct (lim_Release l) as [l'|w]; [|reflexivity].
  rewrite outs_bind_Done, insert_app_r_alt, Nat.sub_diag by lia. cbn [insert list_insert].
  specialize (IH (done ++ [l'])). rewrite length_app, Nat.add_1_r, <- app_assoc in IH. cbn [app] in IH. rewrite IH. clear IH.
  cbn [mbind outcome_bind]. destruct (MultiLimit_Release todo) as [got|w]; [|reflexivity]. cbn.
  by rewrite !app_nil_r, <- app_assoc.
Qed.

Lemma run_takectx ctx got rest :
  run_alone ctx (mlp_takectx_from (length got) (length rest)) (got ++ rest) = ml_TakeContext ctx got rest.
Proof.
  revert got. induction rest as [|l rest IH]; intros got; simpl; [by rewrite app_nil_r|].
  rewrite list_lookup_middle by done. apply outs_bind_ext. intros [r l'].
  rewrite insert_app_r_alt, Nat.sub_diag by lia. cbn [insert list_insert]. destruct r as [|e].
  - specialize (IH (got ++ [l'])). by rewrite length_app, Nat.add_1_r, <- app_assoc in IH.
  - apply (run_release ctx (PRet (Failed e)) [] got (l' :: rest)).
Qed.
Lemma run_take ctx got rest :
  run_alone ctx (mlp_take_from (length got) (length rest)) (got ++ rest) = ml_Take got rest.
Proof.
  revert got. induction rest as [|l rest IH]; intros got; simpl; [by rewrite app_nil_r|].
  rewrite list_lookup_middle by done. apply outs_bind_ext. intros [r l'].
  rewrite insert_app_r_alt, Nat.sub_diag by lia. cbn [insert list_insert]. destruct r.
  - specialize (IH (got ++ [l'])). by rewrite length_app, Nat.add_1_r, <- app_assoc in IH.
  - apply (run_release ctx (PRet false) [] got (l' :: rest)).
Qed.

(** The methods, run by one goroutine with no other between its calls, are the
    operations of the limiter. *)
Definition alone_agrees (ml : list S) : Prop :=
  (forall ctx, run_alone ctx (mlp_TakeContext (length ml)) ml = MultiLimit_TakeContext ctx ml) /\
  (forall ctx, run_alone ctx (mlp_Take (length ml)) ml = MultiLimit_Take ml) /\
  (forall ctx, run_alone ctx (mlp_Release (length ml)) ml = [pair tt <$> MultiLimit_Release ml]).
Lemma alone_agrees_all ml : alone_agrees ml.
Proof.
  split_and!; intros ctx; [apply (run_takectx ctx [])|apply (run_take ctx [])|].
  pose proof (run_release ctx (PRet tt) [] ml []) as E. cbn [app length] in E. rewrite app_nil_r in E.
  unfold mlp_Release, release_first. rewrite E. destruct (MultiLimit_Release ml) as [got|w]; [|reflexivity].
  rewrite outs_bind_Done. cbn. by rewrite app_nil_r.
Qed.
End MultiSys.
Arguments sys : clear implicits.

(** A limiter as its constructor returns it. *)
Definition fresh (l : L) : Prop :=
  (exists max s, NewSemaphore max = Done s /\ l = LSem s)
  \/ (exists burst interval r, NewRate burst interval = Done r /\ l = LRate r).

Lemma fresh_outstanding l : fresh l -> outstanding 0 l.
Proof.
  intros [(max & s & E & ->)|(b & i & r & E & ->)]; [|done].
  unfold NewSemaphore in E. case_match; simplify_eq. right. simpl. lia.
Qed.

(** The fill goroutine of a Rate, and Close *)
Definition L_env (l l' : L) : Prop :=
  lim_Close l = Done l' \/
  exists r r', l = LRate r /\ l' = LRate r' /\
    (Rate_fill_tick r = Some r' \/ Rate_fill_send r = Some r' \/ Rate_fill_stop r = Some r').
Lemma L_env_ok n l l' : L_env l l' -> outstanding n l -> outstanding n l'.
Proof.
  intros [Hc|(r & r' & -> & -> & _)] Ho; [|done]. destruct l as [s|r]; simpl in Hc; [by simplify_eq|].
  unfold Rate_Close in Hc. destruct (rt_stopped r); [done|]. simpl in Hc. by simplify_eq.
Qed.

(** The number of goroutines between a successful Take and their Release. *)
Definition has_all (th : thread) : bool := match th_phase th with Resting b => b | Running _ => false end.
Definition holding (ths : list thread) : nat := length (filter (fun th => has_all th = true) ths).

Lemma holding_tokens n ths x : (x < n)%nat -> Forall (good_thread n) ths -> (holding ths <= tokens ths x)%nat.
Proof.
  intros Hx Hg. unfold holding, tokens. induction Hg as [|th ths Hth _ IH]; [simpl; lia|].
  rewrite filter_cons. simpl. destruct th as [[[|]|p] X]; simpl; try lia.
  unfold good_thread in Hth. simpl in Hth. subst X. unfold has_token at 1. simpl.
  rewrite decide_True by (apply elem_of_set_seq; lia). lia.
Qed.

(** C27: goroutines that share the limiters of a MultiLimit, each running its Take,
    TakeContext and Release, interleaved at every call on a wrapped limiter, with the
    fill goroutines and Close at work: no call panics, in particular no Release is
    mismatched.  A goroutine whose method has returned has taken every wrapped limiter,
    if it succeeded, or holds none.  A semaphore's channel holds exactly the tokens of
    the goroutines that took it, and at most its capacity of goroutines are past a
    successful call.  Run without interleaving, the methods are those of
    [MultiLimit_TakeContext], [MultiLimit_Take] and [MultiLimit_Release]. *)
Theorem MultiLimit_concurrent_safe (lims : list L) (k : nat) (st : sys L)
  (Hf : Forall fresh lims) (Hr : rtc (sys_step L_env) (sys_init lims k) st) :
  ~ sys_panics st /\
  (forall t b X, sys_threads st !! t = Some (mkThread (Resting b) X) ->
     X = all_or_none (length (sys_lims st)) b) /\
  (forall x s, sys_lims st !! x = Some (LSem s) -> 0 < sem_cap s ->
    sem_len s = Z.of_nat (tokens (sys_threads st) x)
    /\ Z.of_nat (holding (sys_threads st)) <= sem_cap s) /\
  alone_agrees (sys_lims st).
Proof.
  assert (HI : sys_inv st).
  { eapply (sys_reachable_inv _ L_env_ok); [|exact Hr]. apply sys_init_inv.
    eapply Forall_impl; [exact Hf|]. apply fresh_outstanding. }
  split; [by apply (sys_inv_no_panic _ L_env_ok)|].
  split; [intros t b X Ht; exact (sys_inv_lookup _ _ _ HI Ht)|]. split; [|apply alone_agrees_all].
  intros x s Hx Hc. destruct HI as [Hg HI]. pose proof (HI _ _ Hx) as Ho. simpl in Ho.
  pose proof (holding_tokens _ (sys_threads st) x (lookup_lt_Some _ _ _ Hx) Hg). unfold sem_outstanding in Ho. lia.
Qed.

Lemma MultiLimit_concurrent_safe_witness :
  exists st : sys L, rtc (sys_step L_env) (sys_init [LSem (mkSemaphore 1 0)] 2) st
    /\ holding (sys_threads st) = 1%nat /\ ~ sys_panics st.
Proof.
  exists (mkSys [LSem (mkSemaphore 1 1)] [mkThread (Resting true) {[0%nat]}; mkThread (Resting false) ∅]).
  assert (R : rtc (sys_step L_env) (sys_init [LSem (mkSemaphore 1 0)] 2)
    (mkSys [LSem (mkSemaphore 1 1)] [mkThread (Resting true) {[0%nat]}; mkThread (Resting false) ∅])).
  { eapply rtc_l; [by apply (step_TakeContext _ _ 0)|].
    eapply rtc_l; [eapply (call_TakeContext _ _ 0 _ _ _ _ _ _ None); [reflexivity..|vm_compute; left]|].
    eapply rtc_l; [by apply (method_returns _ _ 0)|]. vm_compute. done. }
  split; [exact R|]. split; [reflexivity|].
  refine (proj1 (MultiLimit_concurrent_safe [LSem (mkSemaphore 1 0)] 2 _ _ R)).
  constructor; [|constructor]. left. exists 1, (mkSemaphore 1 0). done.
Defined.

(** MultiLimit.TakeContext is all or nothing for any lawful limiters: it never
    panics; when it succeeds every wrapped limiter has one more outstanding
    token, and when it fails every one is back to the tokens it had. *)
Theorem MultiLimit_all_or_nothing {S} `{LimiterLaws S} (n : nat) (ml : list S) (ctx : error)
  (Hml : Forall (outstanding n) ml) :
  holds (MultiLimit_TakeContext ctx ml) (fun p =>
    match p.1 with
    | Taken => Forall (outstanding (Datatypes.S n)) p.2
    | Failed _ => Forall (outstanding n) p.2
    end).
Proof. by apply (ml_TakeContext_ok ctx n [] ml); [constructor|]. Qed.

Lemma MultiLimit_all_or_nothing_witness :
  holds (MultiLimit_TakeContext (Some EDeadline) [LSem (mkSemaphore 3 1); LSem (mkSemaphore 1 1)])
    (fun p => match p.1 with
              | Taken => Forall (outstanding 2) p.2
              | Failed _ => Forall (outstanding 1) p.2
              end).
Proof.
  apply (MultiLimit_all_or_nothing 1).
  constructor; [right; simpl; lia|]. constructor; [right; simpl; lia|constructor].
Defined.

(** *** The token bucket bounds the rate *)

Inductive rate_ev := EvTake | EvTick | EvSend | EvStop | EvClose.
Global Instance rate_ev_eq_dec : EqDecision rate_ev.
Proof. solve_decision. Defined.

(** Steps of a Rate shared by its users and its fill goroutine. *)
Inductive rate_step : rate_ev -> Rate -> Rate -> Prop :=
| rs_take r r' : Done (true, r') ∈ Rate_Take r -> rate_step EvTake r r'
| rs_take_context ctx r r' : Done (Taken, r') ∈ Rate_TakeContext ctx r -> rate_step EvTake r r'
| rs_tick r r' : Rate_fill_tick r = Some r' -> rate_step EvTick r r'
| rs_send r r' : Rate_fill_send r = Some r' -> rate_step EvSend r r'
| rs_stop r r' : Rate_fill_stop r = Some r' -> rate_step EvStop r r'
| rs_close r r' : Rate_Close r = Done r' -> rate_step EvClose r r'.

Inductive rate_trace : list rate_ev -> Rate -> Rate -> Prop :=
| rt_nil r : rate_trace [] r r
| rt_cons ev evs r r' r'' :
    rate_step ev r r' -> rate_trace evs r' r'' -> rate_trace (ev :: evs) r r''.

Definition count_ev (ev : rate_ev) (evs : list rate_ev) : Z :=
  Z.of_nat (length (filter (fun e => e = ev) evs)).

(** Tokens in the bucket plus those the fill loop may still add. *)
Definition rate_potential (r : Rate) : Z :=
  rt_len r + match rt_fill r with Some i => Z.of_nat i | None => 0 end.

Definition rate_wf (r : Rate) : Prop := 0 < rt_cap r /\ 0 <= rt_len r <= rt_cap r.

Lemma rate_step_potential ev r r' :
  rate_wf r -> rate_step ev r r' ->
  rate_wf r' /\ rt_cap r' = rt_cap r
  /\ rate_potential r' + (if decide (ev = EvTake) then 1 else 0)
     <= rate_potential r + (if decide (ev = EvTick) then rt_cap r else 0).
Proof.
  unfold rate_wf, rate_potential.
  intros Hw Hs; destruct Hs as [r r' H|ctx r r' H|r r' H|r r' H|r r' H|r r' H];
    unfold Rate_Take, Rate_TakeContext, Rate_fill_tick, Rate_fill_send, Rate_fill_stop, Rate_Close in H;
    repeat case_match; simplify_eq/=;
    repeat match goal with
           | H : _ ∈ [] |- _ => by apply elem_of_nil in H
           | H : _ ∈ [_] |- _ => apply list_elem_of_singleton in H; simplify_eq/=
           | H : _ ∈ _ :: _ |- _ => apply elem_of_cons in H as [H|H]; simplify_eq/=
           end; try done; lia.
Qed.

Lemma count_ev_cons ev e evs :
  count_ev ev (e :: evs) = (if decide (e = ev) then 1 else 0) + count_ev ev evs.
Proof. unfold count_ev. rewrite filter_cons. case_decide; simpl; lia. Qed.

Lemma rate_trace_potential evs r r' :
  rate_wf r -> rate_trace evs r r' ->
  rate_wf r' /\ rt_cap r' = rt_cap r
  /\ rate_potential r' + count_ev EvTake evs
     <= rate_potential r + rt_cap r * count_ev EvTick evs.
Proof.
  intros Hw Ht. induction Ht as [r|ev evs r r' r'' Hs Ht IH].
  { unfold count_ev. simpl. split_and!; [apply Hw..|done|lia]. }
  destruct (rate_step_potential _ _ _ Hw Hs) as (Hw' & Hc & Hp).
  destruct (IH Hw') as (Hw'' & Hc' & Hp'). rewrite !count_ev_cons, Hc in *.
  split_and!; [apply Hw''..|by rewrite Hc'|].
  destruct (decide (ev = EvTake)), (decide (ev = EvTick)); subst; nia.
Qed.

(** C28: the rate limit holds under every interleaving of users with the fill
    goroutine: in an execution of a new Rate in which the timer fired t times, at
    most burst * (t + 1) calls of Take and TakeContext got a token. *)
Theorem Rate_bound burst interval r evs r'
  (Hb : 0 < burst) (Hn : NewRate burst interval = Done r) (Ht : rate_trace evs r r') :
  count_ev EvTake evs <= burst * (count_ev EvTick evs + 1).
Proof.
  unfold NewRate in Hn. case_match; simplify_eq.
  assert (Hw : rate_wf (mkRate burst burst false false None interval))
    by (unfold rate_wf; simpl; lia).
  destruct (rate_trace_potential _ _ _ Hw Ht) as ([? ?] & _ & Hp).
  assert (0 <= rate_potential r') by (unfold rate_potential; case_match; lia).
  unfold rate_potential at 2 in Hp. simpl in Hp. lia.
Qed.

Lemma Rate_bound_witness :
  count_ev EvTake [EvTake; EvTick; EvSend; EvTake] <= 1 * (count_ev EvTick [EvTake; EvTick; EvSend; EvTake] + 1).
Proof.
  refine (Rate_bound 1 5 (mkRate 1 1 false false None 5) _ (mkRate 1 0 false false (Some 0%nat) 5) _ _ _);
    [lia|reflexivity|].
  eapply rt_cons; [apply rs_take; vm_compute; left|].
  eapply rt_cons; [by apply rs_tick|]. eapply rt_cons; [by apply rs_send|].
  eapply rt_cons; [apply rs_take; vm_compute; left|]. apply rt_nil.
Defined.

(** *** Bucket sets *)

Definition bump (key : string) (f : string -> nat) : string -> nat :=
  fun k => if decide (k = key) then Datatypes.S (f k) else f k.

Section BucketSetFacts.
Context {S : Type} `{LimiterLaws S}.

(** [bs] has [f k] outstanding tokens in the bucket of each key [k]. *)
Definition bs_outstanding (f : string -> nat) (bs : BucketSet S) : Prop :=
  (exists s0, bs_New bs = Some (Done s0) /\ outstanding 0 s0)
  /\ forall k, match bs_m bs !! k with
               | Some (s, _) => outstanding (f k) s
               | None => f k = 0%nat
               end.

(** The clock does not run backwards and the interval is not negative. *)
Definition bs_clock (now : Z) (bs : BucketSet S) : Prop :=
  0 <= bs_ReapInterval bs /\ forall k s t, bs_m bs !! k = Some (s, t) -> t <= now.

Lemma never_stale now (bs : BucketSet S) b :
  0 <= bs_ReapInterval bs -> b.2 <= now -> stale bs now b = false.
Proof. unfold stale, time_Sub, minInt64, maxInt64. lia. Qed.

(** The reaping loop compares lastUse - now, which is never positive: nothing is
    ever reaped. *)
Lemma reap_nothing now (bs : BucketSet S) : bs_clock now bs -> reap bs now = Done bs.
Proof.
  intros [Hi Ht]. unfold reap.
  assert (Hs : forall k b, bs_m bs !! k = Some b -> stale bs now b = false).
  { intros k [s t] E. apply never_stale; [done|]. by eapply Ht. }
  replace (filter (fun kv => stale bs now kv.2 = true) (bs_m bs)) with (∅ : gmap string (S * Z)).
  2: { symmetry. apply map_eq. intros k. rewrite lookup_empty.
       apply map_lookup_filter_None. right. intros b Hb. simpl. rewrite (Hs k b Hb). done. }
  rewrite map_to_list_empty. simpl. f_equal.
  replace (filter (fun kv => stale bs now kv.2 = false) (bs_m bs)) with (bs_m bs); [by destruct bs|].
  symmetry. apply map_filter_id. intros k b Hb. simpl. by apply (Hs k).
Qed.

Lemma BucketSet_take_room now now' key (bs : BucketSet S) :
  (size (bs_m bs) <= bs_MaxBuckets bs)%nat ->
  BucketSet_take now now' key bs =
  match bs_m bs !! key with
  | Some (r, _) => Done (Some key, set_m bs (<[key := (r, now')]> (bs_m bs)))
  | None =>
    match bs_New bs with
    | None => Panicked nil_panic
    | Some new_ => r ← new_; Done (Some key, set_m bs (<[key := (r, now')]> (bs_m bs)))
    end
  end.
Proof.
  intros Hs. unfold BucketSet_take.
  replace (bs_MaxBuckets bs <? size (bs_m bs))%nat with false by lia. simpl.
  by replace (bs_MaxBuckets bs <? size (bs_m bs))%nat with false by lia.
Qed.

(** With room in the set, TakeContext on a key takes one token of that key's
    bucket (made on first use) or leaves all buckets as they were. *)
Lemma BucketSet_TakeContext_ok ctx now now' key (bs : BucketSet S) f :
  bs_outstanding f bs -> (size (bs_m bs) <= bs_MaxBuckets bs)%nat ->
  holds (BucketSet_TakeContext ctx now now' key bs) (fun p =>
    bs_outstanding (match p.1 with Taken => bump key f | Failed _ => f end) p.2).
Proof.
  intros [(s0 & HN & Hs0) Hm] Hsz. unfold BucketSet_TakeContext. rewrite HN.
  assert (exists s t, outstanding (f key) s /\ BucketSet_take now now' key bs
            = Done (Some key, set_m bs (<[key := (s, t)]> (bs_m bs)))) as (s & t & Hs & ->).
  { rewrite BucketSet_take_room by done. pose proof (Hm key) as Hk. rewrite HN. simpl.
    destruct (bs_m bs !! key) as [[s t]|]; [by exists s, now'|].
    rewrite Hk. by exists s0, now'. }
  eapply holds_bind; [by apply (holds_ret _ (fun p => p = (Some key, set_m bs (<[key := (s, t)]> (bs_m bs)))))|].
  intros ? ->. unfold on_bucket. simpl. rewrite lookup_insert_eq. simpl.
  eapply holds_bind; [exact (take_law _ _ ctx Hs)|].
  intros [r s'] Hs'. simpl in Hs'. apply holds_ret. simpl. rewrite insert_insert_eq.
  split; [by exists s0|]. intros k. simpl. rewrite lookup_insert.
  destruct r; unfold bump; repeat case_decide; subst; simplify_eq; try done; apply Hm.
Qed.

Lemma BucketSet_Release_ok key (bs : BucketSet S) f n :
  bs_outstanding f bs -> f key = Datatypes.S n ->
  exists bs', BucketSet_Release key bs = Done bs'
    /\ bs_outstanding (fun k => if decide (k = key) then n else f k) bs'.
Proof.
  intros [(s0 & HN & Hs0) Hm] Hf. unfold BucketSet_Release. rewrite HN.
  pose proof (Hm key) as Hk. destruct (bs_m bs !! key) as [[s t]|] eqn:E; [|congruence].
  rewrite Hf in Hk. destruct (release_law n s Hk) as (s' & -> & Hs'). simpl.
  eexists. split; [done|]. split; [by exists s0|]. intros k. simpl. rewrite lookup_insert.
  repeat case_decide; subst; simplify_eq; [done|]. apply Hm.
Qed.

(** A bucket set that holds more than MaxBuckets buckets can never serve
    anyone again: the reaping loop frees nothing however old the buckets are, so
    take returns a nil limiter and the Take or TakeContext of every key, known
    or new, panics with a nil dereference (the doc comment promises false). *)
Theorem BucketSet_full_panics ctx now now' key (bs : BucketSet S)
  (Hc : bs_clock now bs) (HN : bs_New bs <> None)
  (Hfull : (bs_MaxBuckets bs < size (bs_m bs))%nat) :
  BucketSet_TakeContext ctx now now' key bs = [Panicked nil_panic]
  /\ BucketSet_Take now now' key bs = [Panicked nil_panic].
Proof.
  unfold BucketSet_TakeContext, BucketSet_Take, BucketSet_take.
  replace (bs_MaxBuckets bs <? size (bs_m bs))%nat with true by lia.
  rewrite reap_nothing by done. simpl.
  replace (bs_MaxBuckets bs <? size (bs_m bs))%nat with true by lia.
  by destruct (bs_New bs).
Qed.
End BucketSetFacts.

Lemma BucketSet_full_panics_witness :
  BucketSet_TakeContext None 9000000000000 9000000000000 "a"
    (mkBucketSet (Some (NewSemaphore 1)) 60000000000 0 {["a" := (mkSemaphore 1 0, 5)]})
  = [Panicked nil_panic].
Proof.
  refine (proj1 (BucketSet_full_panics None 9000000000000 9000000000000 "a" _ _ _ _)).
  - split; [done|]. simpl. intros k s t [_ [= _ <-]]%lookup_singleton_Some. done.
  - done.
  - vm_compute. lia.
Defined.
