(* ===== verification/Limits.v ===== *)
(** * Limits: internal/limits (the limits module)

    The configuration of the limits and the operations the SMTP endpoint and the
    remote target call: TakeMsg / ReleaseMsg and TakeDest / ReleaseDest. *)
From S2P Require Import Prelude GoStr ExtErrors Checks Config Limiters.
From Stdlib Require Import ZifyBool.

Local Open Scope Z_scope.
Local Open Scope go_scope.

(** limits.Group: each bucket set holds a MultiLimit per key. *)
Record Group := mkGroup {
  g_global : list L;
  g_ip : option (BucketSet (list L));
  g_source : option (BucketSet (list L));
  g_dest : option (BucketSet (list L))
}.

(** The closures rateCtor and concurrencyCtor return. *)
Inductive limit_ctor := CtorRate (burst period : Z) | CtorSemaphore (max : Z).

Definition run_ctor (c : limit_ctor) : Outcome L :=
  match c with
  | CtorRate burst period => LRate <$> NewRate burst period
  | CtorSemaphore max => LSem <$> NewSemaphore max
  end.

(** The closure Init passes to NewBucketSet: one limiter per constructor. *)
Fixpoint run_ctors (cs : list limit_ctor) : Outcome (list L) :=
  match cs with
  | [] => Done []
  | c :: cs => l ← run_ctor c; ls ← run_ctors cs; Done (l :: ls)
  end.

Definition second : Z := 1000000000.
Definition minute : Z := 60 * second.

Section Init.
(** time.ParseDuration: the durations it accepts do not matter below. *)
Context (ParseDuration : string -> Result gerror Z).

Definition node_atoi (node : Node) (s : string) : Result gerror Z :=
  match atoi s with Ok n => Ok n | Err e => Err (NodeErr node (Error e)) end.

Definition rateCtor (node : Node) (args : list string) : Result gerror limit_ctor :=
  match args with
  | [a0; a1] =>
    period ← match ParseDuration a1 with
             | Ok p => Ok p | Err e => Err (NodeErr node (Error e)) end;
    burst ← node_atoi node a0; Ok (CtorRate burst period)
  | [a0] => burst ← node_atoi node a0; Ok (CtorRate burst (1 * second))
  | [] => Err (NodeErr node "at least burst size is needed")
  | _ => Err (NodeErr node "too many arguments")
  end.

Definition concurrencyCtor (node : Node) (args : list string) : Result gerror limit_ctor :=
  match args with
  | [a0] => max ← node_atoi node a0; Ok (CtorSemaphore max)
  | _ => Err (NodeErr node "max concurrency value is needed")
  end.

(** The variables of Init that the loop over the children fills. *)
Record init_st := InitSt {
  in_global : list L;
  in_ip : list limit_ctor;
  in_source : list limit_ctor;
  in_dest : list limit_ctor
}.

Definition child_ctor (child : Node) : Result gerror limit_ctor :=
  match node_Args child with
  | [] => Err (NodeErr child "at least two arguments are required")
  | kind :: args =>
    if decide (kind = "rate") then rateCtor child args
    else if decide (kind = "concurrency") then concurrencyCtor child args
    else Err (NodeErr child ("unknown limit kind: " +:+ kind))
  end.

(** One iteration of the loop: only the limiters of scope all are constructed
    here (and may panic). *)
Definition init_child (st : init_st) (child : Node) : Outcome (Result gerror init_st) :=
  match child_ctor child with
  | Err e => Done (Err e)
  | Ok ctor =>
    let '(InitSt gl ip src dst) := st in
    let scope := node_Name child in
    if decide (scope = "all") then l ← run_ctor ctor; Done (Ok (InitSt (gl ++ [l]) ip src dst))
    else if decide (scope = "ip") then Done (Ok (InitSt gl (ip ++ [ctor]) src dst))
    else if decide (scope = "source") then Done (Ok (InitSt gl ip (src ++ [ctor]) dst))
    else if decide (scope = "destination") then Done (Ok (InitSt gl ip src (dst ++ [ctor])))
    else Done (Err (NodeErr child ("unknown limit scope: " +:+ scope)))
  end.

Fixpoint init_children (st : init_st) (cs : list Node) : Outcome (Result gerror init_st) :=
  match cs with
  | [] => Done (Ok st)
  | c :: cs =>
    r ← init_child st c;
    match r with Err e => Done (Err e) | Ok st => init_children st cs end
  end.

Definition max_buckets : nat := 20010.

Definition bucket_set (guard cs : list limit_ctor) : option (BucketSet (list L)) :=
  if (length guard =? 0)%nat then None
  else Some (NewBucketSet (run_ctors cs) (1 * minute) max_buckets).

(** Group.Init.  The destination set is built from the source constructors. *)
Definition Group_Init (block : Node) : Outcome (Result gerror Group) :=
  r ← init_children (InitSt [] [] [] []) (children block);
  match r with
  | Err e => Done (Err e)
  | Ok (InitSt gl ip src dst) =>
    Done (Ok (mkGroup gl (bucket_set ip ip) (bucket_set src src) (bucket_set dst src)))
  end.
End Init.

(** ** Taking and releasing *)

(** Methods of a *BucketSet that may be nil: the receiver is dereferenced. *)
Definition release_ptr (bs : option (BucketSet (list L))) (key : string)
  : Outcome (option (BucketSet (list L))) :=
  match bs with
  | None => Panicked nil_panic
  | Some bs => bs ← BucketSet_Release key bs; Done (Some bs)
  end.

Definition set_global (g : Group) (gl : list L) : Group := mkGroup gl (g_ip g) (g_source g) (g_dest g).
Definition set_ip (g : Group) ip : Group := mkGroup (g_global g) ip (g_source g) (g_dest g).
Definition set_source (g : Group) s : Group := mkGroup (g_global g) (g_ip g) s (g_dest g).
Definition set_dest (g : Group) d : Group := mkGroup (g_global g) (g_ip g) (g_source g) d.

Section Ops.
(** The clock readings of the bucket sets and the state of the context
    (with its five-second timeout) at each of the three takes. *)
Context (now_ip now_source : Z) (ctx_global ctx_ip ctx_source : error).

Definition take_global (g : Group) : Outs (take_res * Group) :=
  ' (r, gl) <-! lim_TakeContext ctx_global (g_global g); [Done (r, set_global g gl)].

Definition take_ip (addr : string) (g : Group) : Outs (take_res * Group) :=
  match g_ip g with
  | None => [Done (Taken, g)]
  | Some bs => ' (r, bs) <-! BucketSet_TakeContext ctx_ip now_ip now_ip addr bs;
               [Done (r, set_ip g (Some bs))]
  end.

Definition take_source (domain : string) (g : Group) : Outs (take_res * Group) :=
  match g_source g with
  | None => [Done (Taken, g)]
  | Some bs => ' (r, bs) <-! BucketSet_TakeContext ctx_source now_source now_source domain bs;
               [Done (r, set_source g (Some bs))]
  end.

Definition release_global (g : Group) : Outcome Group :=
  gl ← lim_Release (g_global g); Done (set_global g gl).

(** g.ip.Release(addr.String()), whether g.ip is nil or not. *)
Definition release_ip (addr : string) (g : Group) : Outcome Group :=
  ip ← release_ptr (g_ip g) addr; Done (set_ip g ip).

(** Group.TakeMsg; [addr] is addr.String(). *)
Definition TakeMsg (addr sourceDomain : string) (g : Group) : Outs (take_res * Group) :=
  ' (r, g) <-! take_global g;
  match r with
  | Failed e => [Done (Failed e, g)]
  | Taken =>
    ' (r, g) <-! take_ip addr g;
    match r with
    | Failed e => g <-! [release_global g]; [Done (Failed e, g)]
    | Taken =>
      ' (r, g) <-! take_source sourceDomain g;
      match r with
      | Failed e =>
        g <-! [release_global g]; g <-! [release_ip addr g]; [Done (Failed e, g)]
      | Taken => [Done (Taken, g)]
      end
    end
  end.
End Ops.

Definition TakeDest (now : Z) (ctx : error) (domain : string) (g : Group) : Outs (take_res * Group) :=
  match g_dest g with
  | None => [Done (Taken, g)]
  | Some bs => ' (r, bs) <-! BucketSet_TakeContext ctx now now domain bs;
               [Done (r, set_dest g (Some bs))]
  end.

Definition ReleaseMsg (addr sourceDomain : string) (g : Group) : Outcome Group :=
  g ← release_global g;
  g ← match g_ip g with None => Done g | Some _ => release_ip addr g end;
  match g_source g with
  | None => Done g
  | Some bs => bs ← BucketSet_Release sourceDomain bs; Done (set_source g (Some bs))
  end.

Definition ReleaseDest (domain : string) (g : Group) : Outcome Group :=
  match g_dest g with
  | None => Done g
  | Some bs => bs ← BucketSet_Release domain bs; Done (set_dest g (Some bs))
  end.

(** ** Lemmas *)

Lemma bs_outstanding_ext (f f' : string -> nat) (bs : BucketSet (list L)) :
  (forall k, f k = f' k) -> bs_outstanding f bs -> bs_outstanding f' bs.
Proof.
  intros E [Hn Hm]. split; [done|]. intros k. specialize (Hm k). rewrite <- E. done.
Qed.

(** The tokens outstanding in a group: [n] global ones and, per key, those of the
    source addresses and of the sender domains. *)
Definition set_outstanding (f : string -> nat) (bs : option (BucketSet (list L))) : Prop :=
  match bs with None => True | Some bs => bs_outstanding f bs end.
Definition set_room (bs : option (BucketSet (list L))) : Prop :=
  match bs with None => True | Some bs => (size (bs_m bs) <= bs_MaxBuckets bs)%nat end.

Definition group_outstanding (n : nat) (fi fs : string -> nat) (g : Group) : Prop :=
  outstanding n (g_global g) /\ set_outstanding fi (g_ip g) /\ set_outstanding fs (g_source g).

(** Group invariant of a take in progress: counters, and the bucket sets that
    have not been touched yet keep their room. *)
Definition is_nil {A} (o : option A) : bool := match o with None => true | Some _ => false end.

Lemma take_global_ok ctx n fi fs g :
  group_outstanding n fi fs g ->
  holds (take_global ctx g) (fun p =>
    g_ip p.2 = g_ip g /\ g_source p.2 = g_source g /\
    match p.1 with
    | Taken => group_outstanding (S n) fi fs p.2
    | Failed _ => group_outstanding n fi fs p.2
    end).
Proof.
  intros (Hg & Hi & Hs). unfold take_global.
  eapply holds_bind; [exact (take_law _ _ ctx Hg)|].
  intros [[|e] gl] Hgl; apply holds_ret; done.
Qed.

Lemma take_ip_ok now ctx addr n fi fs g :
  group_outstanding n fi fs g -> set_room (g_ip g) ->
  holds (take_ip now ctx addr g) (fun p =>
    is_nil (g_ip p.2) = is_nil (g_ip g) /\ g_source p.2 = g_source g /\
    match p.1 with
    | Taken => group_outstanding n (bump addr fi) fs p.2
    | Failed _ => group_outstanding n fi fs p.2
    end).
Proof.
  intros (Hg & Hi & Hs) Hr. unfold take_ip. destruct (g_ip g) as [bs|] eqn:E.
  - eapply holds_bind; [by apply (BucketSet_TakeContext_ok ctx now now addr bs fi)|].
    intros [[|e] bs'] Hb; apply holds_ret; done.
  - apply holds_ret. unfold group_outstanding. simpl. by rewrite E.
Qed.

Lemma take_source_ok now ctx dom n fi fs g :
  group_outstanding n fi fs g -> set_room (g_source g) ->
  holds (take_source now ctx dom g) (fun p =>
    g_ip p.2 = g_ip g /\
    match p.1 with
    | Taken => group_outstanding n fi (bump dom fs) p.2
    | Failed _ => group_outstanding n fi fs p.2 /\ g_source g <> None
    end).
Proof.
  intros (Hg & Hi & Hs) Hr. unfold take_source. destruct (g_source g) as [bs|] eqn:E.
  - eapply holds_bind; [by apply (BucketSet_TakeContext_ok ctx now now dom bs fs)|].
    intros [[|e] bs'] Hb; apply holds_ret; done.
  - apply holds_ret. unfold group_outstanding. simpl. by rewrite E.
Qed.

Lemma release_global_ok n fi fs g :
  group_outstanding (S n) fi fs g ->
  exists g', release_global g = Done g' /\ group_outstanding n fi fs g'
    /\ g_ip g' = g_ip g /\ g_source g' = g_source g.
Proof.
  intros (Hg & Hi & Hs). unfold release_global.
  destruct (release_law _ _ Hg) as (gl & -> & Hgl). simpl. by eexists.
Qed.

Lemma bump_undo key f (fs : string -> nat) k :
  (if decide (k = key) then f key else bump key f k) = f k.
Proof. unfold bump. repeat case_decide; subst; done. Qed.

Lemma release_ip_ok addr n fi fs g :
  group_outstanding n (bump addr fi) fs g -> g_ip g <> None ->
  exists g', release_ip addr g = Done g' /\ group_outstanding n fi fs g'
    /\ g_source g' = g_source g.
Proof.
  intros (Hg & Hi & Hs) Hn. unfold release_ip. destruct (g_ip g) as [bs|] eqn:E; [|done].
  destruct (BucketSet_Release_ok addr bs (bump addr fi) (fi addr) Hi) as (bs' & Er & Hb);
    [unfold bump; by rewrite decide_True|].
  simpl. rewrite Er. simpl. eexists. split; [done|]. split_and!; try done.
  split_and!; try done. simpl. eapply bs_outstanding_ext; [|exact Hb].
  intros k. by apply bump_undo.
Qed.

(** C26: TakeMsg is all or nothing and never panics, in a group that limits source
    addresses whenever it limits sender domains: on success the global limit,
    the address's bucket and the domain's bucket have each one more outstanding
    token, and on failure at any of the three every count is what it was. *)
Theorem TakeMsg_balanced now_ip now_source cg ci cs addr dom n fi fs g
  (Hg : group_outstanding n fi fs g) (Hcfg : g_ip g <> None \/ g_source g = None)
  (Hri : set_room (g_ip g)) (Hrs : set_room (g_source g)) :
  holds (TakeMsg now_ip now_source cg ci cs addr dom g) (fun p =>
    match p.1 with
    | Taken => group_outstanding (S n) (bump addr fi) (bump dom fs) p.2
    | Failed _ => group_outstanding n fi fs p.2
    end).
Proof.
  unfold TakeMsg. eapply holds_bind; [by apply take_global_ok|].
  intros [[|e] g1] (E1 & E2 & H1); simpl in *; [|by apply holds_ret].
  eapply holds_bind; [apply (take_ip_ok now_ip ci addr _ _ _ _ H1); by rewrite E1|].
  intros [[|e] g2] (E3 & E4 & H2); simpl in *.
  2: { destruct (release_global_ok _ _ _ _ H2) as (g3 & -> & H3 & _). by apply holds_ret. }
  eapply holds_bind; [apply (take_source_ok now_source cs dom _ _ _ _ H2); by rewrite E4, E2|].
  intros [[|e] g3] (E5 & H3); simpl in *; [by apply holds_ret|].
  destruct H3 as [H3 Hne].
  destruct (release_global_ok _ _ _ _ H3) as (g4 & -> & H4 & E6 & E7).
  assert (Hip : g_ip g4 <> None).
  { rewrite E6, E5. rewrite E4, E2 in Hne. rewrite E1 in E3.
    destruct Hcfg as [Hc|Hc]; [|done]. destruct (g_ip g), (g_ip g2); done. }
  destruct (release_ip_ok _ _ _ _ _ H4 Hip) as (g5 & Er & H5 & _).
  simpl. rewrite Er. by apply holds_ret.
Qed.

Lemma TakeMsg_balanced_witness :
  holds (TakeMsg 0 0 None None (Some EDeadline) "127.0.0.1" "example.org"
           (mkGroup [LSem (mkSemaphore 5 2)]
              (Some (NewBucketSet (run_ctors [CtorSemaphore 1]) 60 5)) None None))
    (fun p => match p.1 with
              | Taken => group_outstanding 3 (bump "127.0.0.1" (fun _ => 0%nat))
                           (bump "example.org" (fun _ => 0%nat)) p.2
              | Failed _ => group_outstanding 2 (fun _ => 0%nat) (fun _ => 0%nat) p.2
              end).
Proof.
  apply TakeMsg_balanced.
  - split_and!; [constructor; [right; simpl; lia|constructor]| |done].
    split; [|done]. exists [LSem (mkSemaphore 1 0)]. split; [done|].
    constructor; [right; simpl; lia|constructor].
  - by left.
  - vm_compute. lia.
  - done.
Defined.

(** ReleaseMsg undoes a TakeMsg: with the tokens of a successful TakeMsg
    outstanding it does not panic and returns every count to what it was. *)
Theorem ReleaseMsg_undoes_TakeMsg addr dom n fi fs g
  (Hg : group_outstanding (S n) (bump addr fi) (bump dom fs) g) :
  exists g', ReleaseMsg addr dom g = Done g' /\ group_outstanding n fi fs g'.
Proof.
  unfold ReleaseMsg. destruct (release_global_ok _ _ _ _ Hg) as (g1 & -> & H1 & E1 & E2). simpl.
  assert (exists g2, match g_ip g1 with None => Done g1 | Some _ => release_ip addr g1 end = Done g2
           /\ group_outstanding n fi (bump dom fs) g2 /\ g_source g2 = g_source g1)
    as (g2 & -> & H2 & E3).
  { destruct (g_ip g1) as [bs|] eqn:E.
    - apply release_ip_ok; [done|by rewrite E].
    - exists g1. split_and!; try done. destruct H1 as (? & _ & ?).
      unfold group_outstanding. by rewrite E. }
  simpl. destruct H2 as (Hgl & Hi & Hs). destruct (g_source g2) as [bs|] eqn:E.
  - destruct (BucketSet_Release_ok dom bs (bump dom fs) (fs dom) Hs) as (bs' & -> & Hb);
      [unfold bump; by rewrite decide_True|].
    eexists. split; [done|]. split_and!; [done|done|]. simpl.
    eapply bs_outstanding_ext; [|exact Hb]. intros k. by apply bump_undo.
  - eexists. split; [done|]. unfold group_outstanding. by rewrite E.
Qed.

Lemma ReleaseMsg_undoes_TakeMsg_witness :
  exists g', ReleaseMsg "127.0.0.1" "example.org"
    (mkGroup [LSem (mkSemaphore 5 3)] None None None) = Done g'
    /\ group_outstanding 2 (fun _ => 0%nat) (fun _ => 0%nat) g'.
Proof.
  apply ReleaseMsg_undoes_TakeMsg. split_and!; [|done..].
  constructor; [right; simpl; lia|constructor].
Defined.

(** In a group with a limit per sender domain and none per source address,
    a TakeMsg that times out on the domain's limit panics with a nil dereference
    instead of returning the error: the clean-up releases the address set that
    is not there. *)
Theorem TakeMsg_nil_ip_panics now_ip now_source cg ci cs addr dom g g1 g2 g3 e
  (Hip : g_ip g = None)
  (H1 : Done (Taken, g1) ∈ take_global cg g)
  (H2 : Done (Failed e, g2) ∈ take_source now_source cs dom g1)
  (H3 : release_global g2 = Done g3) :
  Panicked nil_panic ∈ TakeMsg now_ip now_source cg ci cs addr dom g.
Proof.
  assert (E1 : g_ip g1 = None).
  { unfold take_global in H1. apply elem_of_outs_bind in H1 as [([r gl] & _ & H1)|(w & _ & H1)];
      [|done]. apply list_elem_of_singleton in H1. by simplify_eq. }
  assert (E2 : g_ip g2 = None).
  { unfold take_source in H2. destruct (g_source g1); [|apply list_elem_of_singleton in H2; by simplify_eq].
    apply elem_of_outs_bind in H2 as [([r bs] & _ & H2)|(w & _ & H2)]; [|done].
    apply list_elem_of_singleton in H2. by simplify_eq. }
  assert (E3 : g_ip g3 = None).
  { unfold release_global in H3. apply bind_Done in H3 as (gl & _ & H3). by simplify_eq. }
  unfold TakeMsg. apply elem_of_outs_bind. left. exists (Taken, g1). split; [done|].
  apply elem_of_outs_bind. left. exists (Taken, g1).
  split; [unfold take_ip; rewrite E1; left|].
  apply elem_of_outs_bind. left. exists (Failed e, g2). split; [done|].
  apply elem_of_outs_bind. left. exists g3. split; [rewrite H3; left|].
  apply elem_of_outs_bind. right. exists nil_panic. split; [|done].
  unfold release_ip. rewrite E3. left.
Qed.

Lemma TakeMsg_nil_ip_panics_witness :
  Panicked nil_panic ∈ TakeMsg 0 0 None None (Some EDeadline) "127.0.0.1" "example.org"
    (mkGroup [] None
       (Some (mkBucketSet (Some (run_ctors [CtorSemaphore 1])) 60 5
                {["example.org" := ([LSem (mkSemaphore 1 1)], 0)]})) None).
Proof.
  eapply TakeMsg_nil_ip_panics; [done|vm_compute; left|vm_compute; left|vm_compute; reflexivity].
Defined.

(** *** Configuration *)

Section InitFacts.
Context (ParseDuration : string -> Result gerror Z).

(** The constructors of the directives of one scope, in the order of the file. *)
Definition scope_ctors (scope : string) (cs : list Node) : list limit_ctor :=
  omap (fun c => if decide (node_Name c = scope)
                 then match child_ctor ParseDuration c with Ok k => Some k | Err _ => None end
                 else None) cs.

Lemma run_ctors_app a b :
  run_ctors (a ++ b) = (x ← run_ctors a; y ← run_ctors b; Done (x ++ y)).
Proof.
  induction a as [|c a IH]; simpl; [by destruct (run_ctors b)|].
  destruct (run_ctor c); simpl; [|done]. rewrite IH.
  destruct (run_ctors a); simpl; [|done]. by destruct (run_ctors b).
Qed.

Lemma scope_ctors_cons sc c cs k :
  child_ctor ParseDuration c = Ok k ->
  scope_ctors sc (c :: cs)
  = if decide (node_Name c = sc) then k :: scope_ctors sc cs else scope_ctors sc cs.
Proof. intros K. unfold scope_ctors. simpl. rewrite K. by case_decide. Qed.

Lemma init_children_spec cs gc gl ip src dst st :
  run_ctors gc = Done gl ->
  init_children ParseDuration (InitSt gl ip src dst) cs = Done (Ok st) ->
  run_ctors (gc ++ scope_ctors "all" cs) = Done (in_global st)
  /\ in_ip st = ip ++ scope_ctors "ip" cs
  /\ in_source st = src ++ scope_ctors "source" cs
  /\ in_dest st = dst ++ scope_ctors "destination" cs.
Proof.
  revert gc gl ip src dst. induction cs as [|c cs IH]; intros gc gl ip src dst Hgl E; simpl in E.
  { simplify_eq. simpl. by rewrite !app_nil_r. }
  unfold init_child in E. destruct (child_ctor ParseDuration c) as [k|e] eqn:K; [|done].
  rewrite !(scope_ctors_cons _ _ _ _ K).
  destruct (decide (node_Name c = "all")) as [Hs|].
  { rewrite Hs. simpl. simpl in E. apply bind_Done in E as (r & Er & E).
    apply bind_Done in Er as (l & El & Er). simplify_eq.
    apply (IH (gc ++ [k])) in E; [by rewrite <- app_assoc in E|].
    rewrite run_ctors_app, Hgl. simpl. by rewrite El. }
  destruct (decide (node_Name c = "ip")) as [Hs|].
  { rewrite Hs. simpl. apply (IH gc) in E; [by rewrite <- app_assoc in E|done]. }
  destruct (decide (node_Name c = "source")) as [Hs|].
  { rewrite Hs. simpl. apply (IH gc) in E; [by rewrite <- app_assoc in E|done]. }
  destruct (decide (node_Name c = "destination")) as [Hs|]; [|done].
  apply (IH gc) in E; [by rewrite <- app_assoc in E|done].
Qed.

Lemma Group_Init_scopes block g :
  Group_Init ParseDuration block = Done (Ok g) ->
  let cs := children block in
  run_ctors (scope_ctors "all" cs) = Done (g_global g)
  /\ g_ip g = bucket_set (scope_ctors "ip" cs) (scope_ctors "ip" cs)
  /\ g_source g = bucket_set (scope_ctors "source" cs) (scope_ctors "source" cs)
  /\ g_dest g = bucket_set (scope_ctors "destination" cs) (scope_ctors "source" cs).
Proof.
  unfold Group_Init. intros Hi. apply bind_Done in Hi as ([[gl ip src dst]|e] & E & Hi); [|done].
  apply (init_children_spec _ []) in E; [|done]. simpl in E.
  destruct E as (E1 & -> & -> & ->). by simplify_eq.
Qed.

(** A limits block whose limiters would refuse a second message to a destination
    still makes TakeDest succeed, whatever the destination set holds, when no
    source directive is there. *)
Lemma TakeDest_empty_limiters now ctx domain g :
  g_dest g = None \/ (exists guard, g_dest g = bucket_set guard []) ->
  exists g', TakeDest now ctx domain g = [Done (Taken, g')].
Proof.
  intros Hd. unfold TakeDest. destruct (g_dest g) as [bs|] eqn:E; [|by eexists].
  destruct Hd as [?|[guard Hd]]; [done|]. unfold bucket_set in Hd. case_match; simplify_eq.
  unfold BucketSet_TakeContext. rewrite BucketSet_take_room by (simpl; rewrite map_size_empty; lia).
  simpl. rewrite lookup_empty. simpl. unfold on_bucket. simpl. rewrite lookup_insert_eq.
  by eexists.
Qed.

(** What a limits block configures: one shared limiter per directive of scope
    all, and per-key sets of limiters for the scopes ip and source, in the order
    of the file; but the destination set, switched on by the destination
    directives, gets the limiters of the source directives, so without source
    directives TakeDest takes for every destination at once, always. *)
Theorem Group_Init_spec block g (Hi : Group_Init ParseDuration block = Done (Ok g)) :
  let cs := children block in
  run_ctors (scope_ctors "all" cs) = Done (g_global g)
  /\ g_ip g = bucket_set (scope_ctors "ip" cs) (scope_ctors "ip" cs)
  /\ g_source g = bucket_set (scope_ctors "source" cs) (scope_ctors "source" cs)
  /\ g_dest g = bucket_set (scope_ctors "destination" cs) (scope_ctors "source" cs)
  /\ (scope_ctors "source" cs = [] ->
      forall now ctx domain, exists g', TakeDest now ctx domain g = [Done (Taken, g')]).
Proof.
  intros cs. destruct (Group_Init_scopes _ _ Hi) as (E1 & E2 & E3 & E4).
  refine (conj E1 (conj E2 (conj E3 (conj E4 _)))).
  intros Hs now ctx domain. apply TakeDest_empty_limiters. right.
  exists (scope_ctors "destination" cs). unfold cs in *. by rewrite E4, Hs.
Qed.
End InitFacts.

Lemma Group_Init_spec_witness :
  exists g, Group_Init (fun _ => Ok 0)
              (block "limits" [] [directive "destination" ["concurrency"; "1"]]) = Done (Ok g)
    /\ g_dest g = bucket_set [CtorSemaphore 1] [].
Proof.
  exists (mkGroup [] None None (bucket_set [CtorSemaphore 1] [])). split; [reflexivity|].
  exact (proj1 (proj2 (proj2 (proj2 (Group_Init_spec (fun _ => Ok 0)
           (block "limits" [] [directive "destination" ["concurrency"; "1"]])
           (mkGroup [] None None (bucket_set [CtorSemaphore 1] [])) eq_refl))))).
Defined.
