(* ===== verification/TimeWheel.v ===== *)
(** * TimeWheel: internal/target/queue/timewheel.go

    The timer of the delivery queue.  Callers of Add and Close, the clock and the
    goroutine tick are the steps of one transition system; a step is what happens
    under one lock, or one communication on one of the wheel's channels. *)
From S2P Require Import Prelude GoStr Limiters.
From Stdlib Require Import ZifyBool.

Local Open Scope Z_scope.

Section TimeWheel.
(** The values stored in the wheel. *)
Context {V : Type}.

Record TimeSlot := mkTimeSlot { ts_Time : Z; ts_Value : V }.

(** An element of the linked list: the pointer identity and the slot. *)
Definition element : Type := nat * TimeSlot.

(** The loop of tick that looks for the element closest to now. *)
Definition closer (now : Z) (best : option element) (e : element) : option element :=
  match best with
  | None => Some e
  | Some b => if time_Sub (ts_Time e.2) now <? time_Sub (ts_Time b.2) now then Some e else best
  end.
Definition closest (now : Z) (slots : list element) : option element :=
  foldl (closer now) None slots.

(** Where the goroutine tick is. *)
Inductive tick_phase :=
| Scan                                  (* top of the loop *)
| WaitUpdate                            (* queue empty: select on update and stop *)
| WaitTimer (el : element) (now : Z)    (* selectloop, timer set when the clock read now *)
| Dispatching (el : element)            (* timer fired: element removed, dispatch runs *)
| TickDone.                             (* stopped *)

(** The wheel: [tw_pending] are the targets whose Add has pushed its slot and is
    blocked sending on updateNotify; [tw_next] names the next list element;
    [tw_dispatched] records the slots handed to dispatch, with the time. *)
Record wheel := mkWheel {
  tw_stopped : bool;
  tw_slots : list element;
  tw_next : nat;
  tw_pending : list Z;
  tw_phase : tick_phase;
  tw_clock : Z;
  tw_dispatched : list (element * Z)
}.

(** NewTimeWheel, with the clock at [clock]. *)
Definition NewTimeWheel (clock : Z) : wheel := mkWheel false [] 0 [] Scan clock [].

Definition set_phase (w : wheel) (p : tick_phase) : wheel :=
  mkWheel (tw_stopped w) (tw_slots w) (tw_next w) (tw_pending w) p (tw_clock w) (tw_dispatched w).
Definition set_pending (w : wheel) (l : list Z) (p : tick_phase) : wheel :=
  mkWheel (tw_stopped w) (tw_slots w) (tw_next w) l p (tw_clock w) (tw_dispatched w).

(** Add: a no-op once the wheel is stopped.  The test of [stopped] and the push under the
    lock are one step here; a caller that Close overtakes between the two pushes a slot
    that nothing dispatches any more. *)
Definition Add (target : Z) (value : V) (w : wheel) : wheel :=
  if tw_stopped w then w
  else mkWheel (tw_stopped w) (tw_slots w ++ [(tw_next w, mkTimeSlot target value)])
         (S (tw_next w)) (tw_pending w ++ [target]) (tw_phase w) (tw_clock w) (tw_dispatched w).

(** One pass of tick's loop, up to its select. *)
Definition tick_scan (w : wheel) : wheel :=
  set_phase w (match closest (tw_clock w) (tw_slots w) with
               | None => WaitUpdate
               | Some el => WaitTimer el (tw_clock w)
               end).

(** The timer fires: the element is removed under the lock. *)
Definition tick_fire (el : element) (w : wheel) : wheel :=
  mkWheel (tw_stopped w) (filter (fun e : element => e.1 <> el.1) (tw_slots w)) (tw_next w) (tw_pending w)
    (Dispatching el) (tw_clock w) (tw_dispatched w).

(** The call of dispatch. *)
Definition tick_dispatch (el : element) (w : wheel) : wheel :=
  mkWheel (tw_stopped w) (tw_slots w) (tw_next w) (tw_pending w) Scan (tw_clock w)
    (tw_dispatched w ++ [(el, tw_clock w)]).

(** A receive from updateNotify while the timer runs: ignored when the new
    target is not earlier than the one waited for. *)
Definition tick_update (el : element) (now target : Z) : tick_phase :=
  if time_Sub (ts_Time el.2) now <=? time_Sub target now then WaitTimer el now else Scan.

Inductive wheel_step : wheel -> wheel -> Prop :=
| ws_add w target value : wheel_step w (Add target value w)
| ws_clock w t :
    tw_clock w <= t ->
    wheel_step w (mkWheel (tw_stopped w) (tw_slots w) (tw_next w) (tw_pending w) (tw_phase w) t
                    (tw_dispatched w))
| ws_scan w : tw_phase w = Scan -> wheel_step w (tick_scan w)
| ws_wake w pre target post :
    tw_phase w = WaitUpdate -> tw_pending w = pre ++ target :: post ->
    wheel_step w (set_pending w (pre ++ post) Scan)
| ws_update w el now pre target post :
    tw_phase w = WaitTimer el now -> tw_pending w = pre ++ target :: post ->
    wheel_step w (set_pending w (pre ++ post) (tick_update el now target))
| ws_fire w el now :
    tw_phase w = WaitTimer el now -> now + time_Sub (ts_Time el.2) now <= tw_clock w ->
    wheel_step w (tick_fire el w)
| ws_dispatch w el :
    tw_phase w = Dispatching el -> wheel_step w (tick_dispatch el w)
| ws_close w :   (* Close sets the flag before it talks to tick *)
    wheel_step w (mkWheel true (tw_slots w) (tw_next w) (tw_pending w) (tw_phase w) (tw_clock w)
                    (tw_dispatched w))
| ws_stop w :    (* tick receives from stopNotify *)
    tw_stopped w = true ->
    match tw_phase w with WaitUpdate | WaitTimer _ _ => True | _ => False end ->
    wheel_step w (set_phase w TickDone).

(** The end of Close, once tick has answered: updateNotify is closed, and sending on a
    closed channel panics, also for the callers of Add that were already blocked. *)
Definition close_update (w : wheel) : Outcome wheel :=
  match tw_pending w with
  | [] => Done w
  | _ => Panicked "send on closed channel"
  end.

(** ** The search for the closest element *)

Definition dist (now : Z) (e : element) : Z := time_Sub (ts_Time e.2) now.

Lemma foldl_closer now slots best :
  foldl (closer now) (Some best) slots
  = match foldl (closer now) None slots with
    | None => Some best
    | Some c => if dist now c <? dist now best then Some c else Some best
    end.
Proof.
  revert best. induction slots as [|e slots IH]; intros best; [done|]. simpl.
  rewrite (IH e). fold (dist now e). fold (dist now best).
  destruct (dist now e <? dist now best) eqn:E1; rewrite IH;
    destruct (foldl (closer now) None slots) as [c|]; rewrite ?E1; try done.
  - destruct (dist now c <? dist now e) eqn:E2, (dist now c <? dist now best) eqn:E3;
      rewrite ?E1, ?E3; (done || lia).
  - destruct (dist now c <? dist now e) eqn:E2, (dist now c <? dist now best) eqn:E3;
      rewrite ?E1, ?E3; (done || lia).
Qed.

(** The scan finds the first of the elements at the smallest distance. *)
Lemma closest_spec now slots :
  match closest now slots with
  | None => slots = []
  | Some c => exists pre post, slots = pre ++ c :: post
      /\ Forall (fun e => dist now c < dist now e) pre
      /\ Forall (fun e => dist now c <= dist now e) post
  end.
Proof.
  unfold closest. induction slots as [|e slots IH]; [done|]. simpl. rewrite foldl_closer.
  destruct (foldl (closer now) None slots) as [c|].
  - destruct IH as (pre & post & -> & Hpre & Hpost).
    destruct (dist now c <? dist now e) eqn:E.
    + exists (e :: pre), post. split_and!; [done|constructor; [lia|done]|done].
    + exists [], (pre ++ c :: post). split_and!; [done|constructor|].
      apply Forall_app_2; [|constructor; [lia|]]; (eapply Forall_impl; [eassumption|simpl; lia]).
  - subst. exists [], []. split_and!; [done|constructor..].
Qed.

(** ** The invariant *)

Definition in_flight (p : tick_phase) : list element :=
  match p with Dispatching el => [el] | _ => [] end.

(** Every element the wheel has been given, dispatched, in dispatch or waiting. *)
Definition all_elements (w : wheel) : list element :=
  map fst (tw_dispatched w) ++ in_flight (tw_phase w) ++ tw_slots w.

(** A slot is due: its time has come (or was more than 292 years after [c0]). *)
Definition due (c0 t : Z) (el : element) : Prop :=
  ts_Time el.2 <= t \/ c0 + maxInt64 < ts_Time el.2.

Definition phase_inv (c0 : Z) (w : wheel) : Prop :=
  match tw_phase w with
  | WaitUpdate => forall e, e ∈ tw_slots w -> ts_Time e.2 ∈ tw_pending w
  | WaitTimer el now =>
    el ∈ tw_slots w /\ c0 <= now <= tw_clock w
    /\ forall e, e ∈ tw_slots w -> dist now el <= dist now e \/ ts_Time e.2 ∈ tw_pending w
  | Dispatching el => due c0 (tw_clock w) el
  | Scan | TickDone => True
  end.

Definition wheel_inv (c0 : Z) (w : wheel) : Prop :=
  c0 <= tw_clock w
  /\ map fst (all_elements w) ≡ₚ seq 0 (tw_next w)
  /\ Forall (fun d => due c0 d.2 d.1) (tw_dispatched w)
  /\ phase_inv c0 w.

Lemma NewTimeWheel_inv c0 : wheel_inv c0 (NewTimeWheel c0).
Proof. by split_and!. Qed.

Lemma all_elements_NoDup c0 w : wheel_inv c0 w -> NoDup (map fst (all_elements w)).
Proof. intros (_ & P & _). rewrite P. apply NoDup_seq. Qed.

(** Removing an element of a list without duplicates by its identity. *)
Lemma filter_remove (slots : list element) el :
  NoDup (map fst slots) -> el ∈ slots ->
  slots ≡ₚ el :: filter (fun e : element => e.1 <> el.1) slots.
Proof.
  induction slots as [|e slots IH]; intros Hn Hin; [by apply elem_of_nil in Hin|].
  simpl in Hn. apply NoDup_cons in Hn as [Hni Hn]. rewrite filter_cons.
  apply elem_of_cons in Hin as [<-|Hin].
  - rewrite decide_False by auto. constructor.
    assert (filter (fun e : element => e.1 <> el.1) slots = slots) as ->; [|done].
    clear IH Hn. induction slots as [|x slots IH]; [done|]. simpl in Hni.
    apply not_elem_of_cons in Hni as [? ?]. rewrite filter_cons, decide_True by auto.
    f_equal. auto.
  - rewrite decide_True.
    + rewrite (IH Hn Hin) at 1. constructor.
    + intros E. apply Hni. rewrite E. by apply (list_elem_of_fmap_2 fst).
Qed.

Lemma wheel_step_add c0 w target value : wheel_inv c0 w -> wheel_inv c0 (Add target value w).
Proof.
  intros (HC & HP & HD & HI). unfold Add. destruct (tw_stopped w); [done|].
  split_and!; [done| |done|].
  - unfold all_elements in *. cbn [tw_dispatched tw_phase tw_slots tw_next].
    rewrite seq_S, <- HP. rewrite !map_app. simpl. by rewrite !(assoc (++)).
  - unfold phase_inv in *. simpl. destruct (tw_phase w) as [| |el now|el|]; try done.
    + intros e [He|He%list_elem_of_singleton]%elem_of_app; apply elem_of_app;
        [left; auto|right; subst; left].
    + destruct HI as (Hin & Hc & Hd). split_and!; [apply elem_of_app; by left|lia..|].
      intros e [He|He%list_elem_of_singleton]%elem_of_app.
      * destruct (Hd e He); [by left|right; apply elem_of_app; by left].
      * right. apply elem_of_app. right. subst. left.
Qed.

Lemma wheel_step_scan c0 w : wheel_inv c0 w -> tw_phase w = Scan -> wheel_inv c0 (tick_scan w).
Proof.
  intros (HC & HP & HD & HI) Hph. unfold tick_scan.
  pose proof (closest_spec (tw_clock w) (tw_slots w)) as Hs.
  destruct (closest (tw_clock w) (tw_slots w)) as [c|].
  - destruct Hs as (pre & post & Hs & Hpre & Hpost).
    split_and!; [done| |done|].
    + unfold all_elements in *. simpl. by rewrite Hph in HP.
    + unfold phase_inv. simpl. rewrite Hs. split_and!; [set_solver|lia..|].
      intros e [He|[->|He]%elem_of_cons]%elem_of_app; left.
      * rewrite Forall_forall in Hpre. specialize (Hpre e He). lia.
      * lia.
      * rewrite Forall_forall in Hpost. specialize (Hpost e He). lia.
  - split_and!; [done| |done|].
    + unfold all_elements in *. simpl. by rewrite Hph in HP.
    + unfold phase_inv. simpl. rewrite Hs. by intros e ?%elem_of_nil.
Qed.

Lemma wheel_step_update c0 w el now pre target post :
  wheel_inv c0 w -> tw_phase w = WaitTimer el now -> tw_pending w = pre ++ target :: post ->
  wheel_inv c0 (set_pending w (pre ++ post) (tick_update el now target)).
Proof.
  intros (HC & HP & HD & HI) Hph Hp. unfold tick_update, all_elements, phase_inv in *.
  rewrite Hph in *. destruct HI as (Hin & Hc & Hd).
  split_and!; [done| |done|].
  - unfold all_elements. simpl. by case_match.
  - unfold phase_inv. simpl. destruct (_ <=? _) eqn:E; [|done].
    split_and!; [done|lia..|]. intros e He. destruct (Hd e He) as [?|Hin']; [by left|].
    rewrite Hp in Hin'. apply elem_of_app in Hin' as [?|[Heq|?]%elem_of_cons].
    + right. apply elem_of_app. by left.
    + left. unfold dist. rewrite Heq. lia.
    + right. apply elem_of_app. by right.
Qed.

Lemma fire_due c0 now clock el :
  c0 <= now -> now + time_Sub (ts_Time el.2) now <= clock -> due c0 clock el.
Proof. unfold due, time_Sub, minInt64, maxInt64. lia. Qed.

Lemma wheel_step_fire c0 w el now :
  wheel_inv c0 w -> tw_phase w = WaitTimer el now ->
  now + time_Sub (ts_Time el.2) now <= tw_clock w -> wheel_inv c0 (tick_fire el w).
Proof.
  intros HW Hph Ht. pose proof (all_elements_NoDup _ _ HW) as Hn.
  destruct HW as (HC & HP & HD & HI). unfold phase_inv in HI. rewrite Hph in HI.
  destruct HI as (Hin & Hc & Hd). unfold all_elements in *. rewrite Hph in *. simpl in *.
  rewrite map_app in Hn. apply NoDup_app in Hn as (_ & _ & Hn).
  split_and!; [done| |done|].
  - unfold all_elements. simpl. rewrite <- HP, !map_app. apply Permutation_app_head.
    change (map fst (el :: filter (fun e : element => e.1 <> el.1) (tw_slots w))
            ≡ₚ map fst (tw_slots w)).
    apply Permutation_map. symmetry. by apply filter_remove.
  - unfold phase_inv. simpl. eapply fire_due; [|exact Ht]. lia.
Qed.

Lemma wheel_step_inv c0 w w' : wheel_inv c0 w -> wheel_step w w' -> wheel_inv c0 w'.
Proof.
  intros HW Hs. destruct Hs as
    [w target value|w t Ht|w Hph|w pre target post Hph Hp|w el now pre target post Hph Hp
    |w el now Hph Ht|w el Hph|w|w Hst Hph].
  - by apply wheel_step_add.
  - destruct HW as (HC & HP & HD & HI). split_and!; [simpl; lia|done|done|].
    unfold phase_inv, due in *. simpl. destruct (tw_phase w); intuition lia.
  - by apply wheel_step_scan.
  - destruct HW as (HC & HP & HD & HI). split_and!; [done| |done|done].
    unfold all_elements in *. by rewrite Hph in HP.
  - by apply wheel_step_update.
  - by eapply wheel_step_fire.
  - destruct HW as (HC & HP & HD & HI). unfold phase_inv, all_elements in *. rewrite Hph in *.
    split_and!; [done| | |done].
    + unfold all_elements. cbn [tw_dispatched tw_phase tw_slots tw_next in_flight tick_dispatch].
      by rewrite (map_app fst (tw_dispatched w)), <- app_assoc.
    + simpl. apply Forall_app_2; [done|]. by constructor; [|constructor].
  - done.
  - destruct HW as (HC & HP & HD & HI). split_and!; [done| |done|done].
    unfold all_elements in *. by destruct (tw_phase w).
Qed.

Lemma rtc_wheel_inv c0 w w' : wheel_inv c0 w -> rtc wheel_step w w' -> wheel_inv c0 w'.
Proof. intros Ha Hr. induction Hr; eauto using wheel_step_inv. Qed.

(** C9: the wheel loses nothing, repeats nothing and never fires early: in every
    reachable state each slot ever added is in exactly one place (already
    dispatched, being dispatched, or in the list), every dispatched slot was due
    when its dispatch ran, and no wake-up is lost: if the goroutine waits while a
    slot should be dispatched before the one it waits for, the Add of that slot
    still has its notification to deliver. *)
Theorem TimeWheel_safe c0 w (Hr : rtc wheel_step (NewTimeWheel c0) w) :
  map fst (all_elements w) ≡ₚ seq 0 (tw_next w)
  /\ Forall (fun d => ts_Time d.1.2 <= d.2 \/ c0 + maxInt64 < ts_Time d.1.2) (tw_dispatched w)
  /\ match tw_phase w with
     | WaitUpdate => tw_pending w = [] -> tw_slots w = []
     | WaitTimer el now => el ∈ tw_slots w /\ forall e, e ∈ tw_slots w ->
         time_Sub (ts_Time e.2) now < time_Sub (ts_Time el.2) now -> ts_Time e.2 ∈ tw_pending w
     | _ => True
     end.
Proof.
  assert (HI : wheel_inv c0 w) by (eapply rtc_wheel_inv; [apply NewTimeWheel_inv|done]).
  destruct HI as (HC & HP & HD & HI). split_and!; [done|done|].
  unfold phase_inv in HI. destruct (tw_phase w) as [| |el now|el|]; try done.
  - intros Hp. destruct (tw_slots w) as [|e l]; [done|]. specialize (HI e ltac:(left)).
    rewrite Hp in HI. by apply elem_of_nil in HI.
  - destruct HI as (Hin & _ & Hd). split; [done|]. intros e He Hlt.
    destruct (Hd e He) as [Hge|]; [|done]. unfold dist in Hge. lia.
Qed.
(** ** Progress of the goroutine *)

(** The steps of tick itself: no Add, no Close, and the clock as it stands *)
Inductive tick_step : wheel -> wheel -> Prop :=
| tk_scan w : tw_phase w = Scan -> tick_step w (tick_scan w)
| tk_wake w pre target post :
    tw_phase w = WaitUpdate -> tw_pending w = pre ++ target :: post -> tick_step w (set_pending w (pre ++ post) Scan)
| tk_update w el now pre target post :
    tw_phase w = WaitTimer el now -> tw_pending w = pre ++ target :: post ->
    tick_step w (set_pending w (pre ++ post) (tick_update el now target))
| tk_fire w el now :
    tw_phase w = WaitTimer el now -> now + time_Sub (ts_Time el.2) now <= tw_clock w -> tick_step w (tick_fire el w)
| tk_dispatch w el : tw_phase w = Dispatching el -> tick_step w (tick_dispatch el w).

Lemma tick_wheel_step w w' : tick_step w w' -> wheel_step w w'.
Proof. destruct 1; eauto using wheel_step. Qed.

(** An upper bound on the steps left *)
Definition work (w : wheel) : nat :=
  4 * length (tw_slots w) + 3 * length (tw_pending w)
  + match tw_phase w with Scan => 1 | Dispatching _ => 2 | _ => 0 end.

Lemma tick_step_work c0 w w' : wheel_inv c0 w -> tick_step w w' -> (work w' < work w)%nat.
Proof.
  intros HW Hs. unfold work. destruct Hs as [w Hph|w pre t post Hph Hp|w el now pre t post Hph Hp|w el now Hph Ht|w el Hph].
  - rewrite Hph. unfold tick_scan. simpl. destruct (closest _ _); simpl; lia.
  - rewrite Hph, Hp. simpl. rewrite !length_app. simpl. lia.
  - rewrite Hph, Hp. simpl. rewrite !length_app. unfold tick_update. destruct (_ <=? _); simpl; lia.
  - pose proof (all_elements_NoDup _ _ HW) as Hn. destruct HW as (_ & _ & _ & HI).
    unfold phase_inv, all_elements in *. rewrite Hph in *. destruct HI as (Hin & _).
    rewrite !map_app in Hn. apply NoDup_app in Hn as (_ & _ & Hn).
    simpl. rewrite (Permutation_length (filter_remove _ _ Hn Hin)). simpl. lia.
  - rewrite Hph. simpl. lia.
Qed.

(** With every slot due, tick can only rest when there is nothing left. *)
Lemma tick_step_enabled c0 w :
  wheel_inv c0 w -> tw_phase w <> TickDone -> (forall e, e ∈ tw_slots w -> ts_Time e.2 <= tw_clock w) ->
  (exists w', tick_step w w') \/ tw_phase w = WaitUpdate /\ tw_slots w = [] /\ tw_pending w = [].
Proof.
  intros (HC & HP & HD & HI) Hnd Hdue. unfold phase_inv in HI.
  destruct (tw_phase w) as [| |el now|el|] eqn:Hph; [by eauto using tick_step| | |by eauto using tick_step|done].
  - destruct (tw_pending w) as [|t l] eqn:Hp; [right|left; eexists; by apply (tk_wake w [] t l)].
    destruct (tw_slots w) as [|e l]; [done|]. by specialize (HI e ltac:(left)) as ?%elem_of_nil.
  - left. destruct HI as (Hin & Hc & _). specialize (Hdue _ Hin). eexists. eapply tk_fire; [done|].
    unfold time_Sub, minInt64, maxInt64. lia.
Qed.

Lemma tick_step_frame w w' :
  tick_step w w' -> tw_clock w' = tw_clock w /\ (tw_phase w <> TickDone -> tw_phase w' <> TickDone) /\ tw_next w' = tw_next w /\
  (forall e, e ∈ tw_slots w' -> e ∈ tw_slots w).
Proof.
  destruct 1; unfold tick_scan, tick_update; simpl; split_and!; try done; try (by repeat case_match).
  intros e [_ ?]%list_elem_of_filter. done.
Qed.

(** C8: every slot is dispatched once its time has come.  In a reachable state whose
    slots are all due, with tick still running, and left alone by Add and Close: the
    goroutine cannot take more than [work] steps, whatever it receives first; and
    until every slot ever added has been dispatched it can take another one.  So it
    comes to rest after a bounded number of its own steps, with everything
    dispatched. *)
Theorem TimeWheel_live c0 w n w' :
  rtc wheel_step (NewTimeWheel c0) w -> tw_phase w <> TickDone ->
  (forall e, e ∈ tw_slots w -> ts_Time e.2 <= tw_clock w) -> nsteps tick_step n w w' ->
  (n <= work w)%nat /\
  ((exists w2, tick_step w' w2) \/
   tw_slots w' = [] /\ tw_pending w' = [] /\ map (fun d => d.1.1) (tw_dispatched w') ≡ₚ seq 0 (tw_next w)).
Proof.
  intros Hr Hnd Hdue Hn. assert (wheel_inv c0 w) as HW by (eapply rtc_wheel_inv; [apply NewTimeWheel_inv|done]).
  clear Hr. induction Hn as [w|n w w1 w' Hs Hn IH].
  - split; [lia|]. destruct (tick_step_enabled _ _ HW Hnd Hdue) as [?|(Hph & Hsl & Hp)]; [by left|right].
    split_and!; [done..|]. destruct HW as (_ & HP & _). unfold all_elements in HP. rewrite Hph, Hsl in HP.
    simpl in HP. by rewrite app_nil_r, map_map in HP.
  - pose proof (tick_step_work _ _ _ HW Hs). destruct (tick_step_frame _ _ Hs) as (Hc & Hd & Hx & Hsub).
    destruct IH as [? Hor]; [by auto| |by eapply wheel_step_inv, tick_wheel_step|].
    + intros e He. rewrite Hc. auto.
    + split; [lia|]. by rewrite Hx in Hor.
Qed.
End TimeWheel.
Global Arguments wheel : clear implicits.

Lemma TimeWheel_safe_witness :
  exists w : wheel nat, rtc wheel_step (NewTimeWheel 100) w
    /\ map (fun d => ts_Value d.1.2) (tw_dispatched w) = [7%nat]
    /\ map fst (all_elements w) ≡ₚ seq 0 (tw_next w).
Proof.
  set (w1 := Add 50 7%nat (NewTimeWheel 100)).
  set (w2 := tick_scan w1).
  set (w3 := tick_fire (0%nat, mkTimeSlot 50 7%nat) w2).
  set (w4 := tick_dispatch (0%nat, mkTimeSlot 50 7%nat) w3).
  assert (R : rtc wheel_step (NewTimeWheel 100) w4).
  { eapply rtc_l; [apply (ws_add _ 50 7%nat)|]. eapply rtc_l; [by apply ws_scan|].
    eapply rtc_l; [eapply (ws_fire _ (0%nat, mkTimeSlot 50 7%nat) 100); [done|vm_compute; done]|].
    eapply rtc_l; [by eapply ws_dispatch|]. apply rtc_refl. }
  exists w4. split; [exact R|]. split; [reflexivity|].
  exact (proj1 (TimeWheel_safe 100 w4 R)).
Defined.

Definition live_sample : wheel nat := Add 50 7%nat (NewTimeWheel 100).
Lemma TimeWheel_live_witness :
  (0 <= work live_sample)%nat /\
  ((exists w2, tick_step live_sample w2) \/
   tw_slots live_sample = [] /\ tw_pending live_sample = [] /\
   map (fun d => d.1.1) (tw_dispatched live_sample) ≡ₚ seq 0 (tw_next live_sample)).
Proof.
  apply (TimeWheel_live 100 live_sample 0 live_sample).
  - eapply rtc_once. apply (ws_add _ 50 7%nat).
  - discriminate.
  - intros e He. apply list_elem_of_singleton in He as ->. vm_compute. discriminate.
  - constructor.
Defined.

(** An Add that has pushed its slot when Close stops tick panics. *)
Lemma Close_panics_pending :
  exists w : wheel nat, rtc wheel_step (NewTimeWheel 100) w /\ tw_phase w = TickDone /\ close_update w = Panicked "send on closed channel".
Proof.
  eexists. split; [|split].
  - eapply rtc_l; [apply (ws_scan (NewTimeWheel 100)); reflexivity|]. eapply rtc_l; [apply (ws_add _ 500 7%nat)|].
    eapply rtc_l; [apply ws_close|]. eapply rtc_l; [by apply ws_stop|]. apply rtc_refl.
  - reflexivity.
  - reflexivity.
Qed.
