(* ===== verification/Backoff.v ===== *)
(** * Backoff: the retry delay of the queue

    internal/target/queue/queue.go computes the delay before the next attempt as
    [initialRetryTime * time.Duration(math.Pow(retryTimeScale, float64(n-1)))]
    (in tryDelivery and in readDiskQueue).  Floats are IEEE binary64 values of
    Corelib's [SpecFloat]; [go_pow] is Go's math.Pow for an integer exponent. *)
From S2P Require Import Prelude GoStr Limiters.
From Stdlib Require Import ZifyBool.
From Corelib Require Import SpecFloat.

Local Open Scope Z_scope.

(** ** float64 *)

Definition f64_mul := SFmul 53 1024.
Definition f64_add := SFadd 53 1024.
Definition f64_div := SFdiv 53 1024.
Definition f64_ldexp := SFldexp 53 1024.
Definition f64_frexp := SFfrexp 53 1024.

(** The float64 nearest to an integer. *)
Definition f64_of_Z (n : Z) : spec_float := binary_normalize 53 1024 n 0 false.
Definition f64_one : spec_float := f64_of_Z 1.
Definition f64_half : spec_float := f64_div f64_one (f64_of_Z 2).

(** Conversion to int64 truncates; [None] where the Go specification leaves the
    result to the implementation. *)
Definition f64_to_int64 (f : spec_float) : option Z :=
  match f with
  | S754_zero _ => Some 0
  | S754_finite s m e =>
    let v := if 0 <=? e then Z.pos m * 2 ^ e else Z.pos m / 2 ^ (- e) in
    let v := if s then - v else v in
    if (minInt64 <=? v) && (v <=? maxInt64) then Some v else None
  | _ => None
  end.

(** The loop of math.Pow: the answer so far is [a1 * 2^ae] and the current power
    of the base [x1 * 2^xe]; [i] are the bits of the exponent left. *)
Fixpoint pow_loop (fuel : nat) (i : Z) (x1 : spec_float) (xe : Z) (a1 : spec_float) (ae : Z)
  : spec_float * Z :=
  match fuel with
  | O => (a1, ae)
  | S fuel =>
    if i =? 0 then (a1, ae)
    else if (xe <? -4096) || (4096 <? xe) then (a1, ae + xe)
    else
      let '(a1, ae) := if Z.odd i then (f64_mul a1 x1, ae + xe) else (a1, ae) in
      let x1 := f64_mul x1 x1 in
      let xe := Z.shiftl xe 1 in
      let '(x1, xe) := if SFltb x1 f64_half then (f64_add x1 x1, xe - 1) else (x1, xe) in
      pow_loop fuel (Z.shiftr i 1) x1 xe a1 ae
  end.

(** math.Pow(x, float64(y)) for a positive finite x and an integer |y| < 2^53:
    at most 53 iterations, one for each bit of the exponent. *)
Definition go_pow (x : spec_float) (y : Z) : spec_float :=
  if (y =? 0) || SFeqb x f64_one then f64_one
  else if y =? 1 then x
  else
    let '(x1, xe) := f64_frexp x in
    let '(a1, ae) := pow_loop 53 (Z.abs y) x1 xe f64_one 0 in
    let '(a1, ae) := if y <? 0 then (f64_div f64_one a1, - ae) else (a1, ae) in
    f64_ldexp a1 ae.

(** ** The delay *)

Definition wrap64 (z : Z) : Z := (z + 9223372036854775808) mod 18446744073709551616 - 9223372036854775808.

Section Delay.
(** What the platform makes of a float that does not fit in an int64. *)
Context (int64_undefined : Z).

Definition scaleFactor (retryTimeScale : spec_float) (smallestTriesCount : Z) : Z :=
  default int64_undefined (f64_to_int64 (go_pow retryTimeScale (smallestTriesCount - 1))).

Definition retry_delay (initialRetryTime : Z) (retryTimeScale : spec_float) (smallestTriesCount : Z)
  : Z :=
  wrap64 (initialRetryTime * scaleFactor retryTimeScale smallestTriesCount).
End Delay.

(** The values NewQueue sets; no directive changes them. *)
Definition default_initialRetryTime : Z := 15 * 60 * 1000000000.
Definition default_retryTimeScale : spec_float := f64_div (f64_of_Z 5) (f64_of_Z 4).

(** The fraction is cut off before the multiplication: the delays in minutes of
    the first twelve retries. *)
Example first_delays :
  map (fun n => retry_delay 0 default_initialRetryTime default_retryTimeScale n / 60000000000)
    [1; 2; 3; 4; 5; 6; 7; 8; 9; 10; 11; 12]
  = [15; 15; 15; 15; 30; 45; 45; 60; 75; 105; 135; 165].
Proof. vm_compute. reflexivity. Qed.

(** ** Exactness *)

Definition scale_exact (n : Z) : bool :=
  bool_decide (f64_to_int64 (go_pow default_retryTimeScale (n - 1)) = Some (5 ^ (n - 1) / 4 ^ (n - 1))).

Lemma scale_exact_range n : 1 <= n <= 74 -> scale_exact n = true.
Proof.
  intros Hn. assert (H : forallb scale_exact (map Z.of_nat (seq 1 74)) = true)
    by (vm_compute; reflexivity).
  rewrite forallb_forall in H. apply H. apply in_map_iff.
  exists (Z.to_nat n). split; [lia|]. apply in_seq. lia.
Qed.

Lemma scaleFactor_exact u n :
  1 <= n <= 74 -> scaleFactor u default_retryTimeScale n = 5 ^ (n - 1) / 4 ^ (n - 1).
Proof.
  intros Hn. pose proof (scale_exact_range n Hn) as E. apply bool_decide_eq_true in E.
  unfold scaleFactor. by rewrite E.
Qed.

Lemma floor_pow_mono n : 1 <= n -> 5 ^ (n - 1) / 4 ^ (n - 1) <= 5 ^ n / 4 ^ n.
Proof.
  intros Hn. replace n with (Z.succ (n - 1)) at 3 4 by lia. rewrite !Z.pow_succ_r by lia.
  assert (0 < 4 ^ (n - 1)) by (apply Z.pow_pos_nonneg; lia).
  assert (0 < 5 ^ (n - 1)) by (apply Z.pow_pos_nonneg; lia).
  rewrite <- (Z.div_mul_cancel_l (5 ^ (n - 1)) (4 ^ (n - 1)) 4) by lia.
  apply Z.div_le_mono; lia.
Qed.

Lemma floor_pow_bounds n :
  1 <= n <= 73 -> 1 <= 5 ^ (n - 1) / 4 ^ (n - 1) <= 10000000.
Proof.
  intros Hn. assert (H : forallb (fun n => (1 <=? 5 ^ (n - 1) / 4 ^ (n - 1))
      && (5 ^ (n - 1) / 4 ^ (n - 1) <=? 10000000)) (map Z.of_nat (seq 1 73)) = true)
    by (vm_compute; reflexivity).
  rewrite forallb_forall in H. specialize (H n). cbv beta in H.
  assert (In n (map Z.of_nat (seq 1 73))) as Hin
    by (apply in_map_iff; exists (Z.to_nat n); split; [lia|apply in_seq; lia]).
  specialize (H Hin). lia.
Qed.

Lemma wrap64_small z : minInt64 <= z <= maxInt64 -> wrap64 z = z.
Proof. unfold wrap64, minInt64, maxInt64. intros. rewrite Z.mod_small; lia. Qed.

(** With the queue's built-in parameters the delay before retry n is exactly
    15 minutes times floor((5/4)^(n-1)) for the first 73 tries: the binary64
    computation of math.Pow is exact after truncation, nothing overflows, and
    the delay is at least 15 minutes and never decreases.  At try 74 the 64-bit
    product wraps around and the delay is negative. *)
Theorem retry_delay_exact u n (Hn : 1 <= n <= 73) :
  let delay := retry_delay u default_initialRetryTime default_retryTimeScale in
  delay n = default_initialRetryTime * (5 ^ (n - 1) / 4 ^ (n - 1))
  /\ default_initialRetryTime <= delay n
  /\ (n < 73 -> delay n <= delay (n + 1))
  /\ delay 74 < 0.
Proof.
  intros delay.
  assert (E : forall m, 1 <= m <= 73 ->
    delay m = default_initialRetryTime * (5 ^ (m - 1) / 4 ^ (m - 1))).
  { intros m Hm. unfold delay, retry_delay. rewrite scaleFactor_exact by lia.
    apply wrap64_small. pose proof (floor_pow_bounds m Hm).
    unfold minInt64, maxInt64, default_initialRetryTime. lia. }
  pose proof (floor_pow_bounds n Hn). split_and!.
  - by apply E.
  - rewrite E by done. unfold default_initialRetryTime. lia.
  - intros Hlt. rewrite !E by lia. replace (n + 1 - 1) with n by lia.
    pose proof (floor_pow_mono n). unfold default_initialRetryTime. lia.
  - unfold delay, retry_delay. rewrite scaleFactor_exact by lia. vm_compute. done.
Qed.

Lemma retry_delay_exact_witness :
  retry_delay 0 default_initialRetryTime default_retryTimeScale 5 = default_initialRetryTime * 2.
Proof. exact (proj1 (retry_delay_exact 0 5 ltac:(lia))). Defined.
