(* ===== verification/ConfigMap.v ===== *)
(** * ConfigMap: framework/config/map.go

    The conversion of configuration directives to Go variables: the parsers of
    durations, sizes and booleans, the matchers, and Map.ProcessWith.  A variable
    that a [store] argument points at is a key of the store [vars]; the value of an
    [interface{}] is a [value].  strconv.ParseFloat is a parameter. *)
From S2P Require Import Prelude GoStr ExtErrors Config Limiters Backoff.
From stdpp Require Import gmap.
From Stdlib Require Import Ascii ZifyBool.
From Corelib Require Import SpecFloat.

Local Open Scope Z_scope.

(** ** time.ParseDuration *)

Definition hex_digit (n : Z) : Z := if n <? 10 then 48 + n else 87 + n.
(** package time's quote *)
Definition time_quote_byte (b : Z) : list Z :=
  if (128 <=? b) || (b <? 32) then [92; 120; hex_digit (b / 16); hex_digit (b mod 16)]
  else if (b =? 34) || (b =? 92) then [92; b] else [b].
Definition time_quote (s : string) : string :=
  of_bytes (34 :: concat (map time_quote_byte (to_bytes s)) ++ [34]).

Definition two63 : Z := 9223372036854775808.
Definition is_digit (b : Z) : bool := (48 <=? b) && (b <=? 57).

(** leadingInt: [None] on overflow. *)
Fixpoint leadingInt (l : list Z) (x : Z) : option (Z * list Z) :=
  match l with
  | b :: l' =>
    if is_digit b then
      if two63 / 10 <? x then None
      else let x := x * 10 + (b - 48) in if two63 <? x then None else leadingInt l' x
    else Some (x, l)
  | [] => Some (x, [])
  end.
Fixpoint leadingFraction (l : list Z) (x : Z) (scale : spec_float) (overflow : bool) : Z * spec_float * list Z :=
  match l with
  | b :: l' =>
    if is_digit b then
      if overflow then leadingFraction l' x scale true
      else if (two63 - 1) / 10 <? x then leadingFraction l' x scale true
      else
        let y := x * 10 + (b - 48) in
        if two63 <? y then leadingFraction l' x scale true
        else leadingFraction l' y (f64_mul scale (f64_of_Z 10)) false
    else (x, scale, l)
  | [] => (x, scale, [])
  end.
(** The optional period and the digits after it; whether there were any *)
Definition fraction (l : list Z) : Z * spec_float * list Z * bool :=
  match l with
  | 46 :: l => let '(f, scale, r) := leadingFraction l 0 f64_one false in
               (f, scale, r, negb (length r =? length l)%nat)
  | _ => (0, f64_one, l, false)
  end.
Fixpoint span_unit (l : list Z) : list Z * list Z :=
  match l with
  | b :: l' => if (b =? 46) || is_digit b then ([], l) else let '(u, r) := span_unit l' in (b :: u, r)
  | [] => ([], [])
  end.
(** unitMap, by the bytes of the unit *)
Definition unitMap (u : list Z) : option Z :=
  if decide (u = [110; 115]) then Some 1                                               (* ns *)
  else if decide (u = [117; 115] \/ u = [194; 181; 115] \/ u = [206; 188; 115]) then Some 1000  (* us *)
  else if decide (u = [109; 115]) then Some 1000000                                    (* ms *)
  else if decide (u = [115]) then Some 1000000000
  else if decide (u = [109]) then Some 60000000000
  else if decide (u = [104]) then Some 3600000000000
  else None.

Section Duration.
Context (orig : string).
Definition invalid_duration {A} : Result gerror A := Err (ENew ("time: invalid duration " +:+ time_quote orig)).

(** One number and its unit: what it adds and the rest. *)
Definition duration_item (l : list Z) : Result gerror (Z * list Z) :=
  match l with
  | [] => invalid_duration
  | b :: _ =>
    if negb ((b =? 46) || is_digit b) then invalid_duration
    else
      match leadingInt l 0 with
      | None => invalid_duration
      | Some (v, l1) =>
        let pre := negb (length l1 =? length l)%nat in
        let '(f, scale, l2, post) := fraction l1 in
        if negb pre && negb post then invalid_duration
        else
          let '(u, l3) := span_unit l2 in
          match u with
          | [] => Err (ENew ("time: missing unit in duration " +:+ time_quote orig))
          | _ =>
            match unitMap u with
            | None => Err (ENew ("time: unknown unit " +:+ time_quote (of_bytes u) +:+ " in duration " +:+ time_quote orig))
            | Some unit =>
              if two63 / unit <? v then invalid_duration
              else
                let v := v * unit in
                if 0 <? f then
                  let v := v + default 0 (f64_to_int64 (f64_mul (f64_of_Z f) (f64_div (f64_of_Z unit) scale))) in
                  if two63 <? v then invalid_duration else Ok (v, l3)
                else Ok (v, l3)
            end
          end
      end
  end.

Fixpoint duration_loop (fuel : nat) (l : list Z) (d : Z) : Result gerror Z :=
  match l with
  | [] => Ok d
  | _ =>
    match fuel with
    | O => invalid_duration
    | S fuel =>
      '(v, l) ← duration_item l;
      if two63 <? d + v then invalid_duration else duration_loop fuel l (d + v)
    end
  end.
End Duration.

(** time.ParseDuration: every item takes a byte at least, so the length is enough
    fuel (duration_item_shorter). *)
Definition ParseDuration (s : string) : Result gerror Z :=
  let '(neg, l) := match to_bytes s with
                   | 45 :: l => (true, l) | 43 :: l => (false, l) | l => (false, l)
                   end in
  if decide (l = [48]) then Ok 0
  else match l with
  | [] => invalid_duration s
  | _ =>
    d ← duration_loop s (length l) l 0;
    if (neg : bool) then Ok (wrap64 (- d))
    else if two63 - 1 <? d then invalid_duration s
    else Ok d
  end.

Lemma leadingInt_length l x v r : leadingInt l x = Some (v, r) -> (length r <= length l)%nat.
Proof.
  revert x. induction l as [|b l IH]; intros x; simpl; [naive_solver|].
  destruct (is_digit b); [|naive_solver]. destruct (_ <? x); [done|]. case_match; [done|].
  intros E%IH. lia.
Qed.
Lemma leadingFraction_length l x sc o f scale r : leadingFraction l x sc o = (f, scale, r) -> (length r <= length l)%nat.
Proof.
  revert x sc o. induction l as [|b l IH]; intros x sc o; simpl; [naive_solver|].
  destruct (is_digit b); [|naive_solver]. repeat case_match; intros E%IH; lia.
Qed.
Lemma fraction_length l f scale r post : fraction l = (f, scale, r, post) -> (length r <= length l)%nat.
Proof.
  unfold fraction. repeat case_match; intros; simplify_eq; try done.
  match goal with E : leadingFraction _ _ _ _ = _ |- _ => apply leadingFraction_length in E end. simpl. lia.
Qed.
Lemma span_unit_length l u r : span_unit l = (u, r) -> (length l = length u + length r)%nat.
Proof.
  revert u r. induction l as [|b l IH]; intros u r; simpl; [naive_solver|].
  case_match; [naive_solver|]. destruct (span_unit l) as [u' r']. intros; simplify_eq/=. by erewrite IH.
Qed.

Lemma duration_item_shorter orig l v r : duration_item orig l = Ok (v, r) -> (length r < length l)%nat.
Proof.
  unfold duration_item, invalid_duration. destruct l as [|b l]; [done|]. case_match; [done|].
  destruct (leadingInt (b :: l) 0) as [[x l1]|] eqn:E1; [|done]. apply leadingInt_length in E1.
  destruct (fraction l1) as [[[f scale] l2] post] eqn:E2. apply fraction_length in E2.
  case_match; [done|]. destruct (span_unit l2) as [u l3] eqn:E3. apply span_unit_length in E3.
  destruct u as [|c u]; [done|]. repeat case_match; intros; simplify_eq; simpl in *; lia.
Qed.
Lemma duration_loop_fuel orig n m l d :
  (length l <= n)%nat -> (length l <= m)%nat -> duration_loop orig n l d = duration_loop orig m l d.
Proof.
  revert m l d. induction n as [|n IH]; intros m l d Hn Hm.
  - destruct l; [|simpl in *; lia]. by destruct m.
  - destruct l as [|b l]; [by destruct m|]. destruct m as [|m]; [simpl in *; lia|]. cbn [duration_loop].
    destruct (duration_item orig (b :: l)) as [[v r]|e] eqn:E; [|done]. apply duration_item_shorter in E.
    unfold mbind, result_bind. case_match; [done|]. simpl in *. apply IH; lia.
Qed.

Example durations :
  map ParseDuration ["15m"; "1h2m3s"; "1.5h"; "-2.25ms"; "0"; "5"; "1.5"; "9223372036854775807ns"; "9223372036854775808ns"; "-9223372036854775808ns"; ".s"]
  = [Ok 900000000000; Ok 3723000000000; Ok 5400000000000; Ok (-2250000); Ok 0;
     Err (ENew ("time: missing unit in duration " +:+ time_quote "5"));
     Err (ENew ("time: missing unit in duration " +:+ time_quote "1.5"));
     Ok 9223372036854775807; invalid_duration "9223372036854775808ns"; Ok (-9223372036854775808);
     invalid_duration ".s"].
Proof. vm_compute. reflexivity. Qed.

(** ** Sizes and booleans *)

Section Map.
Context `{UnicodeTables}.

(** The state of ParseDataSize's loop *)
Record size_state := mkSize { sz_total : Z; sz_digits : string; sz_suffix : string }.

(** num times a unit, added to an int *)
Definition size_add (total num unit : Z) : Z := wrap64 (total + wrap64 (num * unit)).
Definition size_unit (suffix : string) : option Z :=
  if decide (suffix = "G") then Some 1073741824
  else if decide (suffix = "M") then Some 1048576
  else if decide (suffix = "K") then Some 1024
  else if decide (suffix = "B" \/ suffix = "b") then Some 1
  else None.
Definition size_step (st : size_state) (ch : Z) : Result gerror size_state :=
  if IsDigit ch then
    if decide (sz_suffix st = "") then Ok (mkSize (sz_total st) (sz_digits st +:+ string_of_runes [ch]) "")
    else Err (ENew "unexpected digit after a suffix")
  else if negb (ch =? 32) then Ok (mkSize (sz_total st) (sz_digits st) (sz_suffix st +:+ string_of_runes [ch]))
  else
    match Atoi (sz_digits st) with
    | Err e => Err (ENum "Atoi" (sz_digits st) e)
    | Ok num =>
      if num <? 0 then Err (ENew "value must not be negative")
      else
        match size_unit (sz_suffix st) with
        | Some unit => Ok (mkSize (size_add (sz_total st) num unit) "" "")
        | None =>
          if decide (num = 0) then Ok (mkSize (sz_total st) "" "")
          else Err (ENew ("unknown unit suffix: " +:+ sz_suffix st))
        end
    end.
Fixpoint size_loop (st : size_state) (rs : list Z) : Result gerror size_state :=
  match rs with
  | [] => Ok st
  | ch :: rs => st ← size_step st ch; size_loop st rs
  end.
Definition ParseDataSize (s : string) : Result gerror Z :=
  if decide (s = "") then Err (ENew "missing a number")
  else st ← size_loop (mkSize 0 "" "") (runes (s +:+ " ")); mret (sz_total st).

Definition ParseBool (s : string) : Result gerror bool :=
  let s := ToLower s in
  if decide (s = "1" \/ s = "true" \/ s = "on" \/ s = "yes") then Ok true
  else if decide (s = "0" \/ s = "false" \/ s = "off" \/ s = "no") then Ok false
  else Err (EErrorf "bool argument should be 'yes' or 'no'" None).

(** ** Values and matchers *)

(** strconv.ParseInt and ParseUint in base 10 *)
Definition ParseInt (s : string) (bits : Z) : Result NumErr Z :=
  n ← Atoi s;
  if (n <? - 2 ^ (bits - 1)) || (2 ^ (bits - 1) <=? n) then Err ErrRange else Ok n.
Definition ParseUint (s : string) (bits : Z) : Result NumErr Z :=
  match to_bytes s with
  | [] => Err ErrSyntax
  | l => n ← parse_uint l 0; if 2 ^ bits <=? n then Err ErrRange else Ok n
  end.

Inductive int_type := TInt | TUint | TInt32 | TUint32 | TInt64 | TUint64.

(** The values of interface{} here: [V] are the types of the callers. *)
Context {V : Type} (V_zero : V -> bool).
Inductive value :=
| VNil
| VString (s : string)
| VStrings (l : option (list string))
| VInt (t : int_type) (n : Z)
| VDuration (d : Z)
| VBool (b : bool)
| VFloat (f : spec_float)
| VCustom (v : V)
| VCustoms (l : option (list V)).

(** Whether Process saves the value: it has a type and is not that type's zero. *)
Definition not_zero (v : value) : bool :=
  match v with
  | VNil => false
  | VString s => negb (bool_decide (s = ""))
  | VStrings l => match l with Some _ => true | None => false end
  | VInt _ n => negb (n =? 0)
  | VDuration d => negb (d =? 0)
  | VBool b => b
  | VFloat f => negb (SFeqb f (S754_zero false))
  | VCustom v => negb (V_zero v)
  | VCustoms l => match l with Some _ => true | None => false end
  end.

(** Variables, by the name of the pointer passed as [store] *)
Notation vars := (gmap string value).
Notation globals := (gmap string value).

Record matcher := mkMatcher {
  mt_name : string;
  mt_required : bool;
  mt_inheritGlobal : bool;
  mt_defaultVal : option (Result gerror value);
  mt_mapper : option (globals -> Node -> Result gerror value);
  mt_store : option string;
  mt_customCallback : option (globals -> Node -> vars -> vars * error)
}.

Record Map := mkMap {
  cm_allowUnknown : bool;
  cm_Values : gmap string value;
  cm_entries : gmap string matcher;
  cm_Globals : globals;
  cm_Block : Node
}.
Definition NewMap (gl : globals) (blk : Node) : Map := mkMap false ∅ ∅ gl blk.
Definition AllowUnknown (m : Map) : Map :=
  mkMap true (cm_Values m) (cm_entries m) (cm_Globals m) (cm_Block m).

Definition add_matcher (mt : matcher) (m : Map) : Outcome Map :=
  match cm_entries m !! mt_name mt with
  | Some _ => Panicked "Map.Custom: duplicate matcher"
  | None => Done (mkMap (cm_allowUnknown m) (cm_Values m) (<[mt_name mt := mt]> (cm_entries m)) (cm_Globals m) (cm_Block m))
  end.
Definition Custom (name : string) (inheritGlobal required : bool) (defaultVal : option (Result gerror value))
    (mapper : globals -> Node -> Result gerror value) (store : option string) : Map -> Outcome Map :=
  add_matcher (mkMatcher name required inheritGlobal defaultVal (Some mapper) store None).
Definition Callback (name : string) (mapper : globals -> Node -> vars -> vars * error) : Map -> Outcome Map :=
  add_matcher (mkMatcher name false false None None None (Some mapper)).

(** The mappers of the basic types *)

Definition err_node {A} (node : Node) (msg : string) : Result gerror A := Err (NodeErr node msg).
Definition no_block {A} (node : Node) (msg : string) (r : Result gerror A) : Result gerror A :=
  match children node with [] => r | _ => err_node node msg end.
Definition brackets (l : list string) : string := "[" +:+ String.concat " " l +:+ "]".

Definition EnumList_mapper (allowed : list string) (node : Node) : Result gerror value :=
  no_block node "can't declare a block here"
    match node_Args node with
    | [] => err_node node "expected at least one argument"
    | args =>
      if forallb (fun arg => bool_decide (arg ∈ allowed)) args then Ok (VStrings (Some args))
      else err_node node ("invalid argument, valid values are: " +:+ brackets allowed)
    end.
Definition Enum_mapper (allowed : list string) (node : Node) : Result gerror value :=
  no_block node "can't declare a block here"
    match node_Args node with
    | [arg] =>
      if decide (arg ∈ allowed) then Ok (VString arg)
      else err_node node ("invalid argument, valid values are: " +:+ brackets allowed)
    | _ => err_node node "expected exactly one argument"
    end.
(** The order of the keys in the message is Go's map order. *)
Definition EnumMapped_mapper (mapped : gmap string V) (node : Node) : Result gerror value :=
  no_block node "can't declare a block here"
    match node_Args node with
    | [arg] =>
      match mapped !! arg with
      | Some v => Ok (VCustom v)
      | None => err_node node ("invalid argument, valid values are: " +:+ brackets (map fst (map_to_list mapped)))
      end
    | _ => err_node node "expected exactly one argument"
    end.
Fixpoint mapped_values (mapped : gmap string V) (args : list string) : option (list V) :=
  match args with
  | [] => Some []
  | arg :: args => v ← mapped !! arg; l ← mapped_values mapped args; Some (v :: l)
  end.
Definition EnumListMapped_mapper (mapped : gmap string V) (node : Node) : Result gerror value :=
  no_block node "can't declare a block here"
    match node_Args node with
    | [] => err_node node "expected at least one argument"
    | args =>
      match mapped_values mapped args with
      | Some l => Ok (VCustoms (Some l))
      | None => err_node node ("invalid argument, valid values are: " +:+ brackets (map fst (map_to_list mapped)))
      end
    end.
Definition Duration_mapper (node : Node) : Result gerror value :=
  no_block node "can't declare block here"
    match node_Args node with
    | [] => err_node node "at least one argument is required"
    | args =>
      match ParseDuration (String.concat "" args) with
      | Err e => err_node node (Error e)
      | Ok dur => if dur <? 0 then err_node node "duration must not be negative" else Ok (VDuration dur)
      end
    end.
Definition DataSize_mapper (node : Node) : Result gerror value :=
  no_block node "can't declare block here"
    match node_Args node with
    | [] => err_node node "at least one argument is required"
    | args =>
      match ParseDataSize (String.concat " " args) with
      | Err e => err_node node (Error e)
      | Ok size => Ok (VInt TInt64 size)
      end
    end.
Definition Bool_mapper (node : Node) : Result gerror value :=
  no_block node "can't declare block here"
    match node_Args node with
    | [] => Ok (VBool true)
    | [arg] =>
      match ParseBool arg with
      | Err _ => err_node node "bool argument should be 'yes' or 'no'"
      | Ok b => Ok (VBool b)
      end
    | _ => err_node node "expected exactly 1 argument"
    end.
Definition StringList_mapper (node : Node) : Result gerror value :=
  match node_Args node with
  | [] => err_node node "expected at least one argument"
  | args => no_block node "can't declare block here" (Ok (VStrings (Some args)))
  end.
Definition String_mapper (node : Node) : Result gerror value :=
  match node_Args node with
  | [arg] => no_block node "can't declare block here" (Ok (VString arg))
  | _ => err_node node "expected 1 argument"
  end.
(** The mappers of the integer types, by the parser of the type *)
Definition integer_mapper (t : int_type) (parse : string -> Result NumErr Z) (node : Node) : Result gerror value :=
  match node_Args node with
  | [arg] =>
    no_block node "can't declare block here"
      match parse arg with
      | Err _ => err_node node ("invalid integer: " +:+ arg)
      | Ok n => Ok (VInt t n)
      end
  | _ => err_node node "expected 1 argument"
  end.
Definition Float_mapper (ParseFloat : string -> option spec_float) (node : Node) : Result gerror value :=
  match node_Args node with
  | [arg] =>
    match ParseFloat arg with
    | None => err_node node ("invalid float: " +:+ arg)
    | Some f => Ok (VFloat f)
    end
  | _ => err_node node "expected 1 argument"
  end.

Definition with_default (mapper : Node -> Result gerror value) (name : string) (inheritGlobal required : bool)
    (defaultVal : value) (store : option string) : Map -> Outcome Map :=
  Custom name inheritGlobal required (Some (Ok defaultVal)) (fun _ => mapper) store.

Definition EnumList name inh req allowed dflt store := with_default (EnumList_mapper allowed) name inh req (VStrings dflt) store.
Definition Enum name inh req allowed dflt store := with_default (Enum_mapper allowed) name inh req (VString dflt) store.
Definition EnumMapped name inh req mapped dflt store := with_default (EnumMapped_mapper mapped) name inh req (VCustom dflt) store.
Definition EnumListMapped name inh req mapped dflt store := with_default (EnumListMapped_mapper mapped) name inh req (VCustoms dflt) store.
Definition Map_Duration name inh req dflt store := with_default Duration_mapper name inh req (VDuration dflt) store.
Definition DataSize name inh req dflt store := with_default DataSize_mapper name inh req (VInt TInt64 dflt) store.
Definition Map_Bool name inh dflt store := with_default Bool_mapper name inh false (VBool dflt) store.
Definition StringList name inh req dflt store := with_default StringList_mapper name inh req (VStrings dflt) store.
Definition Map_String name inh req dflt store := with_default String_mapper name inh req (VString dflt) store.
Definition Int name inh req dflt store := with_default (integer_mapper TInt Atoi) name inh req (VInt TInt dflt) store.
Definition UInt name inh req dflt store := with_default (integer_mapper TUint (fun s => ParseUint s 32)) name inh req (VInt TUint dflt) store.
Definition Int32 name inh req dflt store := with_default (integer_mapper TInt32 (fun s => ParseInt s 32)) name inh req (VInt TInt32 dflt) store.
Definition UInt32 name inh req dflt store := with_default (integer_mapper TUint32 (fun s => ParseUint s 32)) name inh req (VInt TUint32 dflt) store.
Definition Int64 name inh req dflt store := with_default (integer_mapper TInt64 (fun s => ParseInt s 64)) name inh req (VInt TInt64 dflt) store.
Definition UInt64 name inh req dflt store := with_default (integer_mapper TUint64 (fun s => ParseUint s 64)) name inh req (VInt TUint64 dflt) store.
Definition Float ParseFloat name inh req dflt store := with_default (Float_mapper ParseFloat) name inh req (VFloat dflt) store.
Lemma Enum_mapper_in allowed n v : Enum_mapper allowed n = Ok v -> exists s, v = VString s /\ s ∈ allowed.
Proof.
  unfold Enum_mapper, no_block, err_node. destruct (children n); [|done]. destruct (node_Args n) as [|arg [|? ?]]; [done| |done].
  case_decide; [|done]. intros E. simplify_eq. eauto.
Qed.
End Map.

(** ** Process *)

Section Process.
Context {V : Type} (V_zero : V -> bool).
Notation value := (value (V := V)).
Notation vars := (gmap string value).
Notation globals := (gmap string value).
Notation matcher := (matcher (V := V)).
Notation Map := (Map (V := V)).

(** The variables of the callers, Map.Values, and the locals of ProcessWith *)
Record pstate := mkP {
  ps_vars : vars;
  ps_Values : gmap string value;
  ps_matched : gset string;
  ps_unknown : list Node
}.
(** reflect's Set into the variable: the value of a mapper has the variable's type, where
    the code would panic otherwise, and a nil value is the zero value of that type. *)
Definition ps_assign (mt : matcher) (v : value) (st : pstate) : pstate :=
  match mt_store mt with
  | Some x => mkP (<[x := v]> (ps_vars st)) (ps_Values st) (ps_matched st) (ps_unknown st)
  | None => st
  end.
Definition ps_save (name : string) (v : value) (st : pstate) : pstate :=
  mkP (ps_vars st) (<[name := v]> (ps_Values st)) (ps_matched st) (ps_unknown st).
Definition ps_mark (name : string) (st : pstate) : pstate :=
  mkP (ps_vars st) (ps_Values st) ({[name]} ∪ ps_matched st) (ps_unknown st).
Definition ps_skip (n : Node) (st : pstate) : pstate :=
  mkP (ps_vars st) (ps_Values st) (ps_matched st) (ps_unknown st ++ [n]).
Definition ps_set_vars (vs : vars) (st : pstate) : pstate :=
  mkP vs (ps_Values st) (ps_matched st) (ps_unknown st).

(** The body of the loop over the directives of the block *)
Definition process_node (m : Map) (subnode : Node) (st : pstate) : pstate * error :=
  match cm_entries m !! node_Name subnode with
  | None =>
    if negb (cm_allowUnknown m) then
      (st, Some (NodeErr subnode ("unexpected directive: " +:+ node_Name subnode)))
    else (ps_skip subnode st, None)
  | Some mt =>
    match mt_customCallback mt with
    | Some callback =>
      let '(vs, err) := callback (cm_Globals m) subnode (ps_vars st) in
      match err with
      | Some e => (ps_set_vars vs st, Some e)
      | None => (ps_mark (node_Name subnode) (ps_set_vars vs st), None)
      end
    | None =>
      if decide (node_Name subnode ∈ ps_matched st) then
        (st, Some (NodeErr subnode ("duplicate directive: " +:+ node_Name subnode)))
      else
        let st := ps_mark (node_Name subnode) st in
        match (match mt_mapper mt with Some mapper => mapper (cm_Globals m) subnode | None => Ok VNil end) with
        | Err e => (st, Some e)
        | Ok val => (ps_assign mt val (ps_save (mt_name mt) val st), None)
        end
    end
  end.
Fixpoint process_nodes (m : Map) (nodes : list Node) (st : pstate) : pstate * error :=
  match nodes with
  | [] => (st, None)
  | n :: nodes => let '(st, err) := process_node m n st in
                  match err with Some _ => (st, err) | None => process_nodes m nodes st end
  end.

(** The body of the loop over the entries: what a directive that is not given
    inherits or is by default. *)
Definition process_entry (globalCfg : globals) (block : Node) (mt : matcher) (st : pstate) : pstate * error :=
  if decide (mt_name mt ∈ ps_matched st) then (st, None)
  else
    match mt_mapper mt with
    | None => (st, None)
    | Some _ =>
      let store val := (ps_assign mt val (if not_zero V_zero val then ps_save (mt_name mt) val st else st), None) in
      match (if mt_inheritGlobal mt then globalCfg !! mt_name mt else None) with
      | Some globalVal => store globalVal
      | None =>
        if negb (mt_required mt) then
          match mt_defaultVal mt with
          | None => (st, None)
          | Some (Err e) => (st, Some e)
          | Some (Ok val) => store val
          end
        else (st, Some (NodeErr block ("missing required directive: " +:+ mt_name mt)))
      end
    end.
Fixpoint process_entries (globalCfg : globals) (block : Node) (order : list matcher) (st : pstate) : pstate * error :=
  match order with
  | [] => (st, None)
  | mt :: order => let '(st, err) := process_entry globalCfg block mt st in
                   match err with Some _ => (st, err) | None => process_entries globalCfg block order st end
  end.

(** ProcessWith, for an order in which Go goes over the entries of the map: the
    variables, the Map with its Values, and the unknown directives or the error. *)
Definition ProcessWith (order : list matcher) (globalCfg : globals) (block : Node) (m : Map) (vs : vars)
  : vars * Map * Result gerror (list Node) :=
  let finish st r := (ps_vars st, mkMap (cm_allowUnknown m) (ps_Values st) (cm_entries m) (cm_Globals m) (cm_Block m), r) in
  let '(st, err) := process_nodes m (children block) (mkP vs ∅ ∅ []) in
  match err with
  | Some e => finish st (Err e)
  | None =>
    let '(st, err) := process_entries globalCfg block order st in
    match err with Some e => finish st (Err e) | None => finish st (Ok (ps_unknown st)) end
  end.
Definition Process (order : list matcher) (m : Map) (vs : vars) : vars * Map * Result gerror (list Node) :=
  ProcessWith order (cm_Globals m) (cm_Block m) m vs.

(** The orders of a Go map's range loop *)
Definition range_order (m : Map) (order : list matcher) : Prop :=
  order ≡ₚ map snd (map_to_list (cm_entries m)).

(** ** What a matcher makes of a block *)

Definition named (name : string) (nodes : list Node) : list Node :=
  filter (fun n => node_Name n = name) nodes.

(** The outcome for one entry, alone: an error, no value, or a value. *)
Definition entry_value (m : Map) (globalCfg : globals) (block : Node) (mt : matcher) : Result gerror (option value) :=
  match mt_mapper mt with
  | None => Ok None
  | Some mapper =>
    match named (mt_name mt) (children block) with
    | [n] => v ← mapper (cm_Globals m) n; Ok (Some v)
    | _ :: n :: _ => Err (NodeErr n ("duplicate directive: " +:+ node_Name n))
    | [] =>
      match (if mt_inheritGlobal mt then globalCfg !! mt_name mt else None) with
      | Some v => Ok (Some v)
      | None =>
        if mt_required mt then Err (NodeErr block ("missing required directive: " +:+ mt_name mt))
        else match mt_defaultVal mt with
             | None => Ok None
             | Some r => v ← r; Ok (Some v)
             end
      end
    end
  end.

(** ** Maps built by Custom and Callback *)

Definition wf_map (m : Map) : Prop := forall name mt, cm_entries m !! name = Some mt ->
  mt_name mt = name /\
  match mt_customCallback mt with
  | Some _ => mt_mapper mt = None /\ mt_store mt = None
  | None => mt_mapper mt <> None
  end.

Lemma NewMap_wf gl blk : wf_map (NewMap gl blk).
Proof. intros name mt E. simpl in E. by rewrite lookup_empty in E. Qed.
Lemma add_matcher_wf mt m m' :
  wf_map m ->
  match mt_customCallback mt with Some _ => mt_mapper mt = None /\ mt_store mt = None | None => mt_mapper mt <> None end ->
  add_matcher mt m = Done m' -> wf_map m'.
Proof.
  unfold add_matcher. intros Hw Hmt E. destruct (cm_entries m !! mt_name mt); simplify_eq.
  intros name mt' E. simpl in E. apply lookup_insert_Some in E as [[<- <-]|[? ?]]; [done|by apply Hw].
Qed.
Lemma Custom_wf name inh req dflt mapper store m m' :
  wf_map m -> Custom name inh req dflt mapper store m = Done m' -> wf_map m'.
Proof. intros Hw. by apply add_matcher_wf. Qed.
Lemma Callback_wf name cb m m' : wf_map m -> Callback name cb m = Done m' -> wf_map m'.
Proof. intros Hw. by apply add_matcher_wf. Qed.

(** No two matchers write to one variable, and no callback writes to a matcher's. *)
Definition separate (m : Map) : Prop :=
  (forall n1 n2 mt1 mt2 x, cm_entries m !! n1 = Some mt1 -> cm_entries m !! n2 = Some mt2 ->
     mt_store mt1 = Some x -> mt_store mt2 = Some x -> n1 = n2) /\
  (forall n1 n2 mt1 mt2 x cb node vs, cm_entries m !! n1 = Some mt1 -> cm_entries m !! n2 = Some mt2 ->
     mt_store mt1 = Some x -> mt_customCallback mt2 = Some cb -> (cb (cm_Globals m) node vs).1 !! x = vs !! x).

(** ** The two loops *)

Section Loops.
Context (m : Map) (globalCfg : globals) (block : Node) (vs : vars).
Hypothesis (Hwf : wf_map m) (Hsep : separate m).
Notation entries := (cm_entries m).

(** The entry has its value in [st]. *)
Definition settled (mt : matcher) (st : pstate) : Prop := exists v,
  entry_value m globalCfg block mt = Ok v /\
  (forall x, mt_store mt = Some x -> ps_vars st !! x = match v with Some v => Some v | None => vs !! x end) /\
  ps_Values st !! mt_name mt =
    (v ≫= fun v => if negb (bool_decide (named (mt_name mt) (children block) = [])) || not_zero V_zero v then Some v else None).
Definition untouched (mt : matcher) (st : pstate) : Prop :=
  (forall x, mt_store mt = Some x -> ps_vars st !! x = vs !! x) /\ ps_Values st !! mt_name mt = None.

(** What a failure comes from *)
Definition culprit : Prop :=
  (exists name mt e, entries !! name = Some mt /\ entry_value m globalCfg block mt = Err e) \/
  (cm_allowUnknown m = false /\ exists n, n ∈ children block /\ entries !! node_Name n = None) \/
  (exists n mt cb vs e, n ∈ children block /\ entries !! node_Name n = Some mt /\
     mt_customCallback mt = Some cb /\ (cb (cm_Globals m) n vs).2 = Some e).

Definition unlisted (nodes : list Node) : list Node := filter (fun n => entries !! node_Name n = None) nodes.

(** After the directives [done] *)
Record nodes_inv (done : list Node) (st : pstate) : Prop := {
  ni_unknown : ps_unknown st = unlisted done;
  ni_allowed : cm_allowUnknown m = false -> unlisted done = [];
  ni_matched : forall name, name ∈ ps_matched st <-> entries !! name <> None /\ named name done <> [];
  ni_entry : forall name mt, entries !! name = Some mt -> mt_customCallback mt = None ->
    match named name done with
    | [] => untouched mt st
    | [n] => exists mapper v, mt_mapper mt = Some mapper /\ mapper (cm_Globals m) n = Ok v /\
               (forall x, mt_store mt = Some x -> ps_vars st !! x = Some v) /\ ps_Values st !! name = Some v
    | _ => False
    end;
  ni_callback : forall name mt, entries !! name = Some mt -> mt_customCallback mt <> None -> ps_Values st !! name = None
}.

Lemma named_app name a b : named name (a ++ b) = named name a ++ named name b.
Proof. apply filter_app. Qed.
Lemma named_one name n : named name [n] = if decide (node_Name n = name) then [n] else [].
Proof. unfold named. rewrite filter_cons, filter_nil. done. Qed.
Lemma named_snoc_ne name done n : node_Name n <> name -> named name (done ++ [n]) = named name done.
Proof. intros Hn. rewrite named_app, named_one, decide_False by done. by rewrite app_nil_r. Qed.
Lemma named_snoc_eq done n : named (node_Name n) (done ++ [n]) = named (node_Name n) done ++ [n].
Proof. by rewrite named_app, named_one, decide_True. Qed.

Lemma nodes_inv_nil : nodes_inv [] (mkP vs ∅ ∅ []).
Proof. split; simpl; [done|done|set_solver|done|done]. Qed.

(** An unknown directive *)
Lemma skip_inv done n st :
  nodes_inv done st -> entries !! node_Name n = None -> cm_allowUnknown m = true -> nodes_inv (done ++ [n]) (ps_skip n st).
Proof.
  intros [Hu Ha Hm He Hc] Hn Hal. split; simpl.
  - unfold unlisted in *. rewrite filter_app, Hu. f_equal. by rewrite filter_cons, decide_True.
  - by rewrite Hal.
  - intros name. rewrite Hm. destruct (decide (node_Name n = name)) as [<-|]; [|by rewrite named_snoc_ne].
    rewrite Hn. naive_solver.
  - intros name mt E. rewrite named_snoc_ne by (intros <-; congruence). by apply He.
  - done.
Qed.

(** A callback *)
Lemma callback_inv done n st mt cb vs' :
  nodes_inv done st -> entries !! node_Name n = Some mt -> mt_customCallback mt = Some cb ->
  (cb (cm_Globals m) n (ps_vars st)).1 = vs' ->
  nodes_inv (done ++ [n]) (ps_mark (node_Name n) (ps_set_vars vs' st)).
Proof.
  intros [Hu Ha Hm He Hc] Hn Hcb Evs. split; simpl.
  - unfold unlisted in *. rewrite filter_app, Hu. rewrite filter_cons, decide_False by (by rewrite Hn).
    by rewrite filter_nil, app_nil_r.
  - intros Hal. unfold unlisted in *. rewrite filter_app, (Ha Hal), filter_cons, decide_False; [done|by rewrite Hn].
  - intros name. rewrite elem_of_union, elem_of_singleton, Hm.
    destruct (decide (node_Name n = name)) as [<-|Hne]; [|rewrite named_snoc_ne by done; naive_solver].
    rewrite named_snoc_eq, Hn. split; [intros _; split; [done|by destruct (named _ done)]|by left].
  - intros name mt1 E Hcb1. assert (node_Name n <> name) by (intros <-; congruence).
    rewrite named_snoc_ne by done. specialize (He name mt1 E Hcb1).
    assert (Hfr : forall x, mt_store mt1 = Some x -> vs' !! x = ps_vars st !! x).
    { intros x Hx. subst vs'. exact (proj2 Hsep name (node_Name n) mt1 mt x cb n (ps_vars st) E Hn Hx Hcb). }
    destruct (named name done) as [|n1 [|]]; [|destruct He as (mp & v & Hmp & Hv & Hx & HV)|done].
    + destruct He as [Hx HV]. split; [|done]. intros x Hs. simpl. rewrite Hfr by done. by apply Hx.
    + exists mp, v. split; [done|]. split; [done|]. split; [|done]. intros x Hs. simpl. rewrite Hfr by done. by apply Hx.
  - done.
Qed.

(** A directive that is mapped *)
Lemma mapped_inv done n st mt mapper v :
  nodes_inv done st -> entries !! node_Name n = Some mt -> mt_customCallback mt = None ->
  node_Name n ∉ ps_matched st -> mt_mapper mt = Some mapper -> mapper (cm_Globals m) n = Ok v ->
  nodes_inv (done ++ [n]) (ps_assign mt v (ps_save (mt_name mt) v (ps_mark (node_Name n) st))).
Proof.
  intros [Hu Ha Hm He Hc] Hn Hcb Hnm Hmp Hv. destruct (Hwf _ _ Hn) as [Hname _].
  assert (Hnone : named (node_Name n) done = []).
  { destruct (named (node_Name n) done) eqn:E; [done|]. exfalso. apply Hnm, Hm. by rewrite E, Hn. }
  set (st' := ps_assign _ _ _).
  assert (Hst : ps_unknown st' = ps_unknown st /\ ps_matched st' = {[node_Name n]} ∪ ps_matched st /\
                ps_Values st' = <[node_Name n := v]> (ps_Values st)).
  { unfold st', ps_assign. rewrite <-Hname. by destruct (mt_store mt). }
  destruct Hst as (Eu & Em & EV).
  split; rewrite ?Eu, ?Em, ?EV.
  - unfold unlisted in *. rewrite filter_app, Hu. rewrite filter_cons, decide_False by (by rewrite Hn).
    by rewrite filter_nil, app_nil_r.
  - intros Hal. unfold unlisted in *. rewrite filter_app, (Ha Hal), filter_cons, decide_False; [done|by rewrite Hn].
  - intros name. rewrite elem_of_union, elem_of_singleton, Hm.
    destruct (decide (node_Name n = name)) as [<-|Hne]; [|rewrite named_snoc_ne by done; naive_solver].
    rewrite named_snoc_eq, Hn. split; [intros _; split; [done|by destruct (named _ done)]|by left].
  - intros name mt1 E Hcb1. destruct (decide (node_Name n = name)) as [<-|Hne].
    + simplify_eq. rewrite named_snoc_eq, Hnone. simpl. exists mapper, v. split; [done|]. split; [done|]. split; [|by apply lookup_insert_eq].
      intros x Hx. unfold st', ps_assign. rewrite Hx. simpl. by apply lookup_insert_eq.
    + rewrite named_snoc_ne by done. specialize (He name mt1 E Hcb1).
      assert (Hfr : forall x, mt_store mt1 = Some x -> ps_vars st' !! x = ps_vars st !! x).
      { intros x Hx. unfold st', ps_assign. destruct (mt_store mt) as [y|] eqn:Ey; simpl; [|done].
        apply lookup_insert_ne. intros Exy. apply Hne, (proj1 Hsep (node_Name n) name mt mt1 x Hn E); [by rewrite Ey, Exy|done]. }
      destruct (Hwf _ _ E) as [Hname1 _].
      destruct (named name done) as [|n1 [|]]; [|destruct He as (mp & w & Hmp1 & Hw & Hx & HV)|done].
      * destruct He as [Hx HV]. split.
        -- intros x Hs. rewrite Hfr by done. by apply Hx.
        -- rewrite EV, Hname1, lookup_insert_ne; [by rewrite <-Hname1|done].
      * exists mp, w. split; [done|]. split; [done|]. split; [|by rewrite lookup_insert_ne].
        intros x Hs. rewrite Hfr by done. by apply Hx.
  - intros name mt1 E Hcb1. rewrite lookup_insert_ne; [by eapply Hc|]. intros <-. congruence.
Qed.

Lemma process_node_inv done n rest st st' err :
  children block = done ++ n :: rest -> nodes_inv done st -> process_node m n st = (st', err) ->
  match err with None => nodes_inv (done ++ [n]) st' | Some _ => culprit end.
Proof.
  intros Hch Hinv. unfold process_node. destruct (entries !! node_Name n) as [mt|] eqn:Hn.
  - destruct (Hwf _ _ Hn) as [Hname Hk]. destruct (mt_customCallback mt) as [cb|] eqn:Hcb.
    + destruct (cb (cm_Globals m) n (ps_vars st)) as [vs' [e|]] eqn:Ecb; intros; simplify_eq.
      * right. right. exists n, mt, cb, (ps_vars st), e. split; [rewrite Hch; set_solver|]. by rewrite Ecb.
      * by eapply callback_inv; [..|by rewrite Ecb].
    + destruct (mt_mapper mt) as [mapper|] eqn:Hmp; [|done].
      assert (Hv : forall e, mapper (cm_Globals m) n = Err e -> exists e', entry_value m globalCfg block mt = Err e').
      { intros e Ee. unfold entry_value. rewrite Hmp, Hname, Hch, named_app. cbn [named].
        unfold named at 2. rewrite filter_cons, decide_True by done.
        destruct (named (node_Name n) done) as [|a [|b l]]; simpl; [|by eexists..].
        destruct (filter _ rest); [|by eexists]. rewrite Ee. by eexists. }
      case_decide as Hmt; intros; simplify_eq.
      * left. exists (node_Name n), mt. apply (ni_matched _ _ Hinv) in Hmt as [_ Hmt].
        unfold entry_value. rewrite Hmp, Hname, Hch, named_app. unfold named at 2. rewrite filter_cons, decide_True by done.
        destruct (named (node_Name n) done) as [|a [|b l]]; [done|by eexists..].
      * destruct (mapper (cm_Globals m) n) as [v|e] eqn:Ev; intros; simplify_eq.
        -- by eapply mapped_inv.
        -- left. destruct (Hv e eq_refl) as [e' He']. by exists (node_Name n), mt, e'.
  - destruct (cm_allowUnknown m) eqn:Hal; simpl; intros; simplify_eq; [by apply skip_inv|].
    right. left. split; [done|]. exists n. split; [rewrite Hch; set_solver|done].
Qed.

Lemma process_nodes_inv done rest st st' err :
  children block = done ++ rest -> nodes_inv done st -> process_nodes m rest st = (st', err) ->
  match err with None => nodes_inv (children block) st' | Some _ => culprit end.
Proof.
  revert done st. induction rest as [|n rest IH]; intros done st Hch Hinv; simpl.
  - intros; simplify_eq. rewrite Hch, app_nil_r. done.
  - destruct (process_node m n st) as [st1 [e|]] eqn:E1.
    + intros; simplify_eq. exact (process_node_inv _ _ _ _ _ _ Hch Hinv E1).
    + apply (IH (done ++ [n])); [by rewrite <-app_assoc|]. exact (process_node_inv _ _ _ _ _ _ Hch Hinv E1).
Qed.

(** After the directives every entry is settled or waits for its default. *)
Definition waiting (mt : matcher) (st : pstate) : Prop := untouched mt st /\ named (mt_name mt) (children block) = [].

Lemma nodes_inv_entry st name mt :
  nodes_inv (children block) st -> entries !! name = Some mt ->
  (settled mt st /\ (mt_mapper mt = None \/ mt_name mt ∈ ps_matched st)) \/
  (mt_name mt ∉ ps_matched st /\ waiting mt st /\ mt_mapper mt <> None).
Proof.
  intros [Hu Ha Hm He Hc] E. destruct (Hwf _ _ E) as [Hname Hk].
  destruct (mt_customCallback mt) as [cb|] eqn:Hcb.
  - left. destruct Hk as [Hmp Hs]. split; [|by left]. exists None. unfold entry_value. rewrite Hmp, Hs. split; [done|]. split; [done|].
    rewrite Hname. simpl. eapply Hc; [done|by rewrite Hcb].
  - specialize (He name mt E Hcb). rewrite <-Hname in He. destruct (named (mt_name mt) (children block)) as [|n [|]] eqn:En; [|left|done].
    + right. split; [|by split]. rewrite Hm. intros [_ Hn]. by rewrite En in Hn.
    + destruct He as (mapper & v & Hmp & Hv & Hx & HV).
      split; [|right; apply Hm; by rewrite En, Hname, E].
      exists (Some v). unfold entry_value. rewrite Hmp, En, Hv. split; [done|]. split; [exact Hx|]. rewrite HV. done.
Qed.

Lemma settled_ext mt st st' :
  settled mt st -> (forall x, mt_store mt = Some x -> ps_vars st' !! x = ps_vars st !! x) ->
  ps_Values st' !! mt_name mt = ps_Values st !! mt_name mt -> settled mt st'.
Proof.
  intros (v & Hv & Hx & HV) Hvars HVal. exists v. split; [done|]. split; [|by rewrite HVal].
  intros x Hs. rewrite Hvars by done. by apply Hx.
Qed.
Lemma waiting_ext mt st st' :
  waiting mt st -> (forall x, mt_store mt = Some x -> ps_vars st' !! x = ps_vars st !! x) ->
  ps_Values st' !! mt_name mt = ps_Values st !! mt_name mt -> waiting mt st'.
Proof.
  intros [[Hx HV] Hn] Hvars HVal. split; [|done]. split; [|by rewrite HVal].
  intros x Hs. rewrite Hvars by done. by apply Hx.
Qed.

(** One entry changes its own variable and value only. *)
Lemma process_entry_frame mt name st st' err :
  entries !! name = Some mt -> process_entry globalCfg block mt st = (st', err) ->
  ps_matched st' = ps_matched st /\ ps_unknown st' = ps_unknown st /\
  forall name1 mt1, entries !! name1 = Some mt1 -> name1 <> name ->
    (forall x, mt_store mt1 = Some x -> ps_vars st' !! x = ps_vars st !! x) /\
    ps_Values st' !! mt_name mt1 = ps_Values st !! mt_name mt1.
Proof.
  intros E Hp. destruct (Hwf _ _ E) as [Hname _].
  assert (Hst : forall val, st' = ps_assign mt val (if not_zero V_zero val then ps_save (mt_name mt) val st else st) ->
    ps_matched st' = ps_matched st /\ ps_unknown st' = ps_unknown st /\
    forall name1 mt1, entries !! name1 = Some mt1 -> name1 <> name ->
      (forall x, mt_store mt1 = Some x -> ps_vars st' !! x = ps_vars st !! x) /\
      ps_Values st' !! mt_name mt1 = ps_Values st !! mt_name mt1).
  { intros val ->. unfold ps_assign. split; [by destruct (mt_store mt), (not_zero V_zero val)|].
    split; [by destruct (mt_store mt), (not_zero V_zero val)|]. intros name1 mt1 E1 Hne.
    destruct (Hwf _ _ E1) as [Hname1 _]. split.
    - intros x Hx. destruct (mt_store mt) as [y|] eqn:Ey; simpl; [|by destruct (not_zero V_zero val)].
      rewrite lookup_insert_ne; [by destruct (not_zero V_zero val)|].
      intros Exy. apply Hne, (proj1 Hsep name1 name mt1 mt x E1 E); [done|by rewrite Ey, Exy].
    - destruct (not_zero V_zero val); [|by destruct (mt_store mt)].
      assert (Ha : ps_Values (ps_assign mt val (ps_save (mt_name mt) val st)) = <[mt_name mt := val]> (ps_Values st))
        by (unfold ps_assign; by destruct (mt_store mt)).
      unfold ps_assign in Ha. rewrite Ha. apply lookup_insert_ne. congruence. }
  unfold process_entry in Hp. repeat case_match; simplify_eq; first [by repeat split|eapply Hst; match goal with Hz : not_zero _ _ = _ |- _ => by rewrite Hz end].
Qed.

Lemma process_entry_settles mt name st st' err :
  entries !! name = Some mt -> mt_name mt ∉ ps_matched st -> waiting mt st -> mt_mapper mt <> None ->
  process_entry globalCfg block mt st = (st', err) ->
  match err with None => settled mt st' | Some _ => culprit end.
Proof.
  intros E Hnm [[Hx HV] Hn] Hmp. unfold process_entry. rewrite decide_False by done.
  destruct (mt_mapper mt) as [mapper|] eqn:Em; [|done].
  assert (Hstore : forall val st', entry_value m globalCfg block mt = Ok (Some val) ->
    st' = ps_assign mt val (if not_zero V_zero val then ps_save (mt_name mt) val st else st) -> settled mt st').
  { intros val ? He ->. exists (Some val). split; [done|]. unfold ps_assign. split.
    - intros x Hs. rewrite Hs. simpl. apply lookup_insert_eq.
    - simpl. rewrite bool_decide_eq_true_2 by done. simpl.
      destruct (not_zero V_zero val), (mt_store mt); simpl; rewrite ?lookup_insert_eq; done. }
  unfold entry_value in Hstore. rewrite Em, Hn in Hstore.
  destruct (if mt_inheritGlobal mt then _ else _) as [gv|] eqn:Eg; [intros; simplify_eq; by eapply Hstore|].
  destruct (mt_required mt) eqn:Er; simpl.
  { intros; simplify_eq. left. exists name, mt. unfold entry_value. rewrite Em, Hn, Eg, Er. by eexists. }
  destruct (mt_defaultVal mt) as [[val|e]|] eqn:Ed; intros; simplify_eq.
  - by eapply Hstore.
  - left. exists name, mt. unfold entry_value. rewrite Em, Hn, Eg, Er, Ed. by eexists.
  - exists None. unfold entry_value. rewrite Em, Hn, Eg, Er, Ed. split; [done|]. by split.
Qed.

(** Settled entries stay so. *)
Lemma process_entry_settled mt name st st' err :
  entries !! name = Some mt -> settled mt st -> mt_mapper mt = None \/ mt_name mt ∈ ps_matched st ->
  process_entry globalCfg block mt st = (st', err) -> err = None /\ st' = st.
Proof.
  intros E Hs Hor. unfold process_entry. case_decide; [naive_solver|]. destruct Hor as [-> |]; naive_solver.
Qed.

(** The loop over the entries, with [order] left to do *)
Definition ready (order : list matcher) (st : pstate) : Prop := forall name mt, entries !! name = Some mt ->
  (settled mt st /\ (mt ∈ order -> mt_mapper mt = None \/ mt_name mt ∈ ps_matched st)) \/
  (mt ∈ order /\ mt_name mt ∉ ps_matched st /\ waiting mt st /\ mt_mapper mt <> None).

Lemma process_entries_inv order st st' err :
  Forall (fun mt => entries !! mt_name mt = Some mt) order -> NoDup (map mt_name order) ->
  ready order st -> process_entries globalCfg block order st = (st', err) ->
  match err with
  | None => ps_unknown st' = ps_unknown st /\ forall name mt, entries !! name = Some mt -> settled mt st'
  | Some _ => culprit
  end.
Proof.
  intros Ho. revert st. induction Ho as [|mt order E Ho IH]; intros st Hnd Hr; simpl.
  - intros; simplify_eq. split; [done|]. intros name mt E. destruct (Hr name mt E) as [[? _]|[H _]]; [done|set_solver].
  - apply NoDup_cons in Hnd as [Hni Hnd]. destruct (process_entry globalCfg block mt st) as [st1 err1] eqn:E1.
    destruct (process_entry_frame _ _ _ _ _ E E1) as (Hm & Hu & Hfr).
    assert (Hmt : match err1 with None => settled mt st1 | Some _ => culprit end).
    { destruct (Hr _ mt E) as [[Hs Hor]|(_ & Hnm & Hw & Hmp)]; [|by eapply process_entry_settles].
      edestruct process_entry_settled as [-> ->]; [exact E|exact Hs|apply Hor; by left|exact E1|done]. }
    destruct err1 as [e|]; [by intros; simplify_eq|]. rewrite <-Hu. apply IH; [done|].
    intros name1 mt1 E1'. destruct (Hwf _ _ E1') as [Hname1 _].
    destruct (decide (name1 = mt_name mt)) as [->|Hne].
    + rewrite E in E1'. simplify_eq. left. split; [exact Hmt|]. intros Hin. exfalso. apply Hni.
      apply list_elem_of_fmap. by exists mt1.
    + destruct (Hfr name1 mt1 E1' Hne) as [Hx HV]. rewrite Hm.
      destruct (Hr name1 mt1 E1') as [[Hs Hor]|(Hin & Hnm & Hw & Hmp)].
      * left. split; [by eapply settled_ext|]. intros Hin. apply Hor. by right.
      * right. split; [|split; [done|]; split; [by eapply waiting_ext|done]].
        apply elem_of_cons in Hin as [->|]; [by destruct Hne|done].
Qed.

Lemma range_order_spec order :
  range_order m order ->
  Forall (fun mt => entries !! mt_name mt = Some mt) order /\ NoDup (map mt_name order) /\
  forall name mt, entries !! name = Some mt -> mt ∈ order.
Proof.
  unfold range_order. intros Ho.
  assert (Hin : forall mt, mt ∈ order <-> entries !! mt_name mt = Some mt).
  { intros mt. rewrite Ho, list_elem_of_fmap. split.
    - intros ([name mt'] & -> & Hx). apply elem_of_map_to_list in Hx. simpl. by destruct (Hwf _ _ Hx) as [-> _].
    - intros Hx. exists (mt_name mt, mt). split; [done|]. by apply elem_of_map_to_list. }
  split; [apply Forall_forall; intros mt; apply Hin|]. split.
  - assert (Hp : map mt_name order ≡ₚ map mt_name (map snd (map_to_list entries))) by (by apply Permutation_map).
    rewrite Hp, map_map.
    assert (Ef : map (fun p => mt_name p.2) (map_to_list entries) = (map_to_list entries).*1).
    { apply list_fmap_ext. intros i [name mt] Hl. apply list_elem_of_lookup_2, elem_of_map_to_list in Hl. simpl.
      by destruct (Hwf _ _ Hl) as [-> _]. }
    rewrite Ef. apply NoDup_fst_map_to_list.
  - intros name mt E. apply Hin. by destruct (Hwf _ _ E) as [-> _].
Qed.
End Loops.

(** C21: what ProcessWith does, whatever the order of its loop over the map of
    entries.  When it returns no error, every entry has the outcome it would have
    alone (the value of its one directive, else the inherited global, else the
    default), the variable the entry points at holds that value, or is unchanged
    when there is none, Values holds it when it was given or is not zero, and the
    unknown directives are returned in their order, and only if they are allowed.
    When it returns an error, some entry has no value, an unknown directive is not
    allowed, or a callback failed; so without callbacks, whether it fails does not
    depend on the order.  Entries must be those of Custom and Callback, with
    variables of their own. *)
Theorem ProcessWith_spec (m : Map) (globalCfg : globals) (block : Node) (vs : vars) (order : list matcher) :
  wf_map m -> separate m -> range_order m order ->
  let '(vs', m', r) := ProcessWith order globalCfg block m vs in
  match r with
  | Ok unknown =>
    (forall name mt, cm_entries m !! name = Some mt -> exists v,
       entry_value m globalCfg block mt = Ok v /\
       (forall x, mt_store mt = Some x -> vs' !! x = match v with Some v => Some v | None => vs !! x end) /\
       cm_Values m' !! name =
         (v ≫= fun v => if negb (bool_decide (named name (children block) = [])) || not_zero V_zero v then Some v else None)) /\
    unknown = filter (fun n => cm_entries m !! node_Name n = None) (children block) /\
    (cm_allowUnknown m = false -> unknown = [])
  | Err _ =>
    (exists name mt e, cm_entries m !! name = Some mt /\ entry_value m globalCfg block mt = Err e) \/
    (cm_allowUnknown m = false /\ exists n, n ∈ children block /\ cm_entries m !! node_Name n = None) \/
    (exists n mt cb vs e, n ∈ children block /\ cm_entries m !! node_Name n = Some mt /\
       mt_customCallback mt = Some cb /\ (cb (cm_Globals m) n vs).2 = Some e)
  end.
Proof.
  intros Hwf Hsep Ho. destruct (range_order_spec m Hwf order Ho) as (Hf & Hnd & Hall). unfold ProcessWith.
  destruct (process_nodes m (children block) (mkP vs ∅ ∅ [])) as [st [e|]] eqn:E1.
  { exact (process_nodes_inv m globalCfg block vs Hwf Hsep [] _ _ _ _ eq_refl (nodes_inv_nil m vs Hwf Hsep) E1). }
  pose proof (process_nodes_inv m globalCfg block vs Hwf Hsep [] _ _ _ _ eq_refl (nodes_inv_nil m vs Hwf Hsep) E1) as Hn. simpl in Hn.
  assert (Hr : ready m globalCfg block vs order st).
  { intros name mt E. destruct (nodes_inv_entry m globalCfg block vs Hwf st name mt Hn E) as [[? ?]|(? & ? & ?)]; [by left|].
    right. by eauto. }
  destruct (process_entries globalCfg block order st) as [st' err] eqn:E2.
  pose proof (process_entries_inv m globalCfg block vs Hwf Hsep order st st' err Hf Hnd Hr E2) as He.
  destruct err as [e|]; [exact He|]. destruct He as [Hu Hs]. simpl. rewrite Hu, (ni_unknown _ _ _ _ Hn).
  split; [|split; [done|exact (ni_allowed _ _ _ _ Hn)]].
  intros name mt E. destruct (Hs name mt E) as (v & Hv & Hx & HV). exists v. destruct (Hwf _ _ E) as [Hname _].
  by rewrite <-Hname.
Qed.
End Process.

(** ** Sizes *)

Section Sizes.
Context `{UnicodeTables}.

Lemma wrap64_add_r a b : wrap64 (a + wrap64 b) = wrap64 (a + b).
Proof.
  unfold wrap64. set (M := 18446744073709551616). set (h := 9223372036854775808). f_equal.
  replace (a + ((b + h) mod M - h) + h) with (a + (b + h) mod M) by lia.
  rewrite Zplus_mod_idemp_r. f_equal. lia.
Qed.
Lemma wrap64_add_l a b : wrap64 (wrap64 a + b) = wrap64 (a + b).
Proof. rewrite (Z.add_comm (wrap64 a)), wrap64_add_r. by rewrite Z.add_comm. Qed.
Lemma wrap64_idemp a : wrap64 (wrap64 a) = wrap64 a.
Proof. exact (wrap64_add_r 0 a). Qed.
Lemma wrap64_id a : - two63 <= a < two63 -> wrap64 a = a.
Proof. intros Ha. unfold wrap64, two63 in *. rewrite Z.mod_small; lia. Qed.

Lemma parse_uint_nonneg l n m : 0 <= n -> parse_uint l n = Ok m -> 0 <= m.
Proof.
  revert n. induction l as [|b l IH]; intros n Hn; simpl; [naive_solver|].
  destruct ((48 <=? b) && (b <=? 57)) eqn:Eb; simpl; [|done]. repeat case_match; try done. apply IH. lia.
Qed.

Definition digits (s : string) : Prop := Forall (fun b => 48 <= b <= 57) (to_bytes s).
Lemma Atoi_digits s n : digits s -> Atoi s = Ok n -> 0 <= n.
Proof.
  unfold digits, Atoi. intros Hd. destruct (to_bytes s) as [|b l]; [done|]. inversion Hd; simplify_eq.
  replace (b =? 45) with false by lia. replace (b =? 43) with false by lia. cbn [orb].
  destruct (parse_uint (b :: l) 0) as [un|] eqn:E; [|done]. apply parse_uint_nonneg in E; [|done].
  unfold mbind, result_bind. cbn [negb andb]. case_match; [done|]. by intros; simplify_eq.
Qed.

Lemma rune_string b : 0 <= b < 128 -> string_of_runes [b] = String (of_byte b) EmptyString.
Proof. intros Hb. unfold string_of_runes. rewrite encode_ascii; [done|by constructor]. Qed.
Lemma IsDigit_ascii b : b < 128 -> IsDigit b = is_digit b.
Proof. intros Hb. unfold IsDigit, is_digit. case_match; [done|lia]. Qed.

Lemma size_loop_digits t d s rest :
  digits s -> size_loop (mkSize t d "") (to_bytes s ++ rest) = size_loop (mkSize t (d +:+ s) "") rest.
Proof.
  revert d. induction s as [|a s IH]; intros d Hs; [by rewrite str_app_nil_r|].
  unfold digits in Hs. simpl in Hs. inversion Hs as [|?? Ha Hs']; simplify_eq. simpl.
  unfold size_step at 1. rewrite IsDigit_ascii by lia. unfold is_digit.
  replace ((48 <=? byte_of a) && (byte_of a <=? 57)) with true by lia. simpl.
  unfold mbind, result_bind. rewrite rune_string, IH by (done || lia). rewrite of_byte_of.
  by rewrite str_app_assoc.
Qed.

Lemma size_unit_suffix t d suffix unit rest :
  size_unit suffix = Some unit ->
  size_loop (mkSize t d "") (to_bytes suffix ++ 32 :: rest) = size_loop (mkSize t d suffix) (32 :: rest).
Proof.
  intros Hu. assert (Hs : suffix ∈ ["G"; "M"; "K"; "B"; "b"]%string).
  { unfold size_unit in Hu. repeat case_decide; simplify_eq; set_solver. }
  repeat (apply elem_of_cons in Hs as [->|Hs]; [reflexivity|]). by apply elem_of_nil in Hs.
Qed.

(** One number with its unit *)
Definition size_item : Type := string * string * Z * Z.
Definition size_text (it : size_item) : string := let '(ds, suffix, _, _) := it in ds +:+ suffix.
Definition size_value (it : size_item) : Z := let '(_, _, n, unit) := it in n * unit.
Definition size_ok (it : size_item) : Prop :=
  let '(ds, suffix, n, unit) := it in digits ds /\ Atoi ds = Ok n /\ size_unit suffix = Some unit.

Lemma size_loop_item t it rest :
  size_ok it ->
  size_loop (mkSize t "" "") (to_bytes (size_text it) ++ 32 :: rest) = size_loop (mkSize (wrap64 (t + wrap64 (size_value it))) "" "") rest.
Proof.
  destruct it as [[[ds suffix] n] unit]. intros (Hd & Hn & Hu). simpl.
  rewrite to_bytes_app, <-app_assoc, size_loop_digits by done. erewrite size_unit_suffix by done. rewrite str_app_nil_l.
  cbn [size_loop]. unfold size_step. change (IsDigit 32) with false. cbn [negb Z.eqb Pos.eqb sz_digits sz_suffix sz_total].
  rewrite Hn, Hu. pose proof (Atoi_digits ds n Hd Hn). replace (n <? 0) with false by lia. done.
Qed.

Lemma size_text_ascii it : size_ok it -> ascii_str (size_text it).
Proof.
  destruct it as [[[ds suffix] n] unit]. intros (Hd & _ & Hu). simpl. apply ascii_str_app. split.
  - eapply Forall_impl; [exact Hd|]. simpl. lia.
  - assert (Hs : suffix ∈ ["G"; "M"; "K"; "B"; "b"]%string) by (unfold size_unit in Hu; repeat case_decide; simplify_eq; set_solver).
    repeat (apply elem_of_cons in Hs as [->|Hs]; [repeat constructor|]). by apply elem_of_nil in Hs.
Qed.

(** A size is the sum of its numbers times their units, modulo 2^64 as a signed
    integer: exact when the sum fits in an int, and silently wrapped, to a negative
    size or to zero, when it does not. *)
Theorem ParseDataSize_sum (items : list size_item) :
  items <> [] -> Forall size_ok items ->
  let sum := foldr (fun it n => size_value it + n) 0 items in
  ParseDataSize (String.concat " " (map size_text items)) = Ok (wrap64 sum) /\
  (sum < two63 -> 0 <= sum -> ParseDataSize (String.concat " " (map size_text items)) = Ok sum).
Proof.
  intros Hne Hok sum.
  assert (Hb : forall l, l <> [] -> to_bytes (String.concat " " l +:+ " ") = concat (map (fun s => to_bytes s ++ [32]) l)).
  { intros l Hl. induction l as [|s [|s' l] IH]; [done|simpl; by rewrite to_bytes_app, app_nil_r|].
    cbn [String.concat]. rewrite !str_app_assoc, !to_bytes_app. cbn [map concat]. rewrite <-app_assoc. f_equal.
    simpl. f_equal. etransitivity; [|by apply IH]. by rewrite to_bytes_app. }
  assert (Ha : ascii_str (String.concat " " (map size_text items) +:+ " ")).
  { unfold ascii_str. rewrite Hb by (by destruct items). clear sum Hne.
    induction Hok as [|it items Hit _ IH]; [constructor|]. simpl. rewrite <-app_assoc.
    apply Forall_app. split; [exact (size_text_ascii it Hit)|]. by constructor. }
  assert (Hl : forall t, wrap64 t = t ->
             size_loop (mkSize t "" "") (concat (map (fun s => to_bytes s ++ [32]) (map size_text items)))
             = Ok (mkSize (wrap64 (t + sum)) "" "")).
  { unfold sum. clear sum Hne Ha. induction Hok as [|it items Hit _ IH]; intros t Ht; simpl; [by rewrite Z.add_0_r, Ht|].
    rewrite <-app_assoc. cbn [app]. rewrite size_loop_item, IH by (done || apply wrap64_idemp).
    rewrite wrap64_add_l, <-Z.add_assoc, (Z.add_comm (wrap64 _)), Z.add_assoc, wrap64_add_r. do 3 f_equal. lia. }
  assert (Hmain : ParseDataSize (String.concat " " (map size_text items)) = Ok (wrap64 sum)).
  { unfold ParseDataSize. case_decide as Hd.
    - exfalso. destruct items as [|it items]; [done|]. inversion Hok as [|?? Hit]; simplify_eq.
      destruct it as [[[ds suffix] n] unit], Hit as (_ & _ & Hu). simpl in Hd.
      assert (suffix <> ""%string) by (intros ->; done).
      destruct (map size_text items); destruct ds, suffix; done.
    - rewrite runes_ascii, Hb, Hl by (done || by destruct items). done. }
  split; [done|]. intros. rewrite Hmain. f_equal. apply wrap64_id. unfold two63 in *. lia.
Qed.
End Sizes.

(** ** Examples and witnesses *)

#[local] Existing Instance ascii_tables.

Example sizes :
  map ParseDataSize ["1G 512M"; "32 K"; "5"; "0"; "K10"; ""; "10b"] =
  [Ok 1610612736; Err (ENew "unknown unit suffix: "); Err (ENew "unknown unit suffix: "); Ok 0;
   Err (ENew "unexpected digit after a suffix"); Err (ENew "missing a number"); Ok 10].
Proof. vm_compute. reflexivity. Qed.
(** Sizes that do not fit wrap around. *)
Example sizes_wrap : map ParseDataSize ["8589934592G"; "17179869184G"] = [Ok (-9223372036854775808); Ok 0].
Proof. vm_compute. reflexivity. Qed.

Lemma ParseDataSize_sum_witness :
  Forall size_ok [("1", "G", 1, 1073741824); ("512", "M", 512, 1048576)]%string /\
  ParseDataSize "1G 512M" = Ok 1610612736.
Proof.
  assert (Hok : Forall size_ok [("1", "G", 1, 1073741824); ("512", "M", 512, 1048576)]%string).
  { assert (Hd : forall s, forallb is_digit (to_bytes s) = true -> digits s).
    { intros s Hs. apply Forall_forall. intros b Hb. rewrite forallb_forall in Hs.
      specialize (Hs b (proj1 (list_elem_of_In _ _) Hb)). unfold is_digit in Hs. lia. }
    apply Forall_cons_2; [|apply Forall_cons_2; [|apply Forall_nil_2]]; (split; [by apply Hd|by split]). }
  split; [exact Hok|].
  apply (ParseDataSize_sum [("1", "G", 1, 1073741824); ("512", "M", 512, 1048576)]%string); [discriminate|exact Hok| |];
    unfold two63; simpl; lia.
Defined.

(** A module's configuration: a required string and a flag inherited from the
    globals *)
Definition sample_block : Node := Config.block "smtp" [] [directive "hostname" ["mx.example.org"]].
Definition sample_entries (m : Map (V := unit)) : Outcome (Map (V := unit)) :=
  m ← Map_String "hostname" false true "" (Some "hostname") m;
  Map_Bool "debug" true false (Some "debug") m.
Definition sample_map : Map (V := unit) :=
  match sample_entries (NewMap ∅ sample_block) with Done m => m | Panicked _ => NewMap ∅ sample_block end.
Definition sample_globals : gmap string (value (V := unit)) := {[ "debug" := VBool true ]}.
Definition sample_order : list (matcher (V := unit)) := map snd (map_to_list (cm_entries sample_map)).

Lemma sample_wf : wf_map sample_map.
Proof.
  unfold sample_map. destruct (sample_entries _) as [m|] eqn:E; [|apply NewMap_wf].
  unfold sample_entries in E. destruct (Map_String _ _ _ _ _ _) as [m1|] eqn:E1; [|done].
  eapply Custom_wf; [|exact E]. eapply Custom_wf; [|exact E1]. apply NewMap_wf.
Qed.
Lemma sample_entries_eq :
  cm_entries sample_map =
  <["debug" := mkMatcher "debug" false true (Some (Ok (VBool false))) (Some (fun _ => Bool_mapper)) (Some "debug") None]>
    (<["hostname" := mkMatcher "hostname" true false (Some (Ok (VString ""))) (Some (fun _ => String_mapper)) (Some "hostname") None]> ∅).
Proof. reflexivity. Qed.
Lemma sample_separate : separate sample_map.
Proof.
  assert (Hl : forall n mt, cm_entries sample_map !! n = Some mt -> mt_store mt = Some n /\ mt_customCallback mt = None).
  { intros n mt E. rewrite sample_entries_eq in E.
    repeat (apply lookup_insert_Some in E as [[<- <-]|[_ E]]; [done|]). by rewrite lookup_empty in E. }
  split.
  - intros n1 n2 mt1 mt2 x [E1 _]%Hl [E2 _]%Hl. congruence.
  - intros n1 n2 mt1 mt2 x cb node vs _ [_ E2]%Hl. congruence.
Qed.

Lemma ProcessWith_spec_witness :
  wf_map sample_map /\ separate sample_map /\ range_order sample_map sample_order /\
  exists vs m, ProcessWith (fun _ => true) sample_order sample_globals sample_block sample_map ∅ = (vs, m, Ok []) /\
    vs !! "hostname"%string = Some (VString "mx.example.org") /\ vs !! "debug"%string = Some (VBool true).
Proof.
  assert (Ho : range_order sample_map sample_order) by (unfold range_order; reflexivity).
  split; [apply sample_wf|]. split; [apply sample_separate|]. split; [exact Ho|].
  pose proof (ProcessWith_spec (fun _ => true) sample_map sample_globals sample_block ∅ sample_order sample_wf sample_separate Ho) as Hs.
  assert (Hr : match (ProcessWith (fun _ => true) sample_order sample_globals sample_block sample_map ∅).2 with Ok [] => True | _ => False end)
    by (vm_compute; exact I).
  destruct (ProcessWith (fun _ => true) sample_order sample_globals sample_block sample_map ∅) as [[vs m] [[|]|]]; [|done..].
  clear Hr. exists vs, m. split; [reflexivity|].
  destruct Hs as (Hs & _). split.
  - destruct (Hs "hostname"%string _ eq_refl) as (v & Hv & Hx & _). rewrite (Hx "hostname"%string eq_refl).
    vm_compute in Hv. by injection Hv as <-.
  - destruct (Hs "debug"%string _ eq_refl) as (v & Hv & Hx & _). rewrite (Hx "debug"%string eq_refl).
    vm_compute in Hv. by injection Hv as <-.
Defined.
