(* ===== verification/ConfigEndpoint.v ===== *)
(** * ConfigEndpoint: framework/config/endpoint.go

    Network endpoints as configuration directives name them.  net/url's Parse is a
    parameter; net.SplitHostPort and net.JoinHostPort are the functions of net. *)
From S2P Require Import Prelude GoStr GoText ExtErrors ConfigParser.
From Stdlib Require Import Ascii ZifyBool.

Local Open Scope Z_scope.

(** ** net.SplitHostPort and net.JoinHostPort *)

Definition colon : ascii := of_byte 58.
Definition open_bracket : ascii := of_byte 91.
Definition close_bracket : ascii := of_byte 93.

Definition JoinHostPort (host port : string) : string :=
  if has_byte colon host || has_byte (of_byte 37) host then "[" +:+ host +:+ "]:" +:+ port
  else host +:+ ":" +:+ port.

Definition addr_error {A} (addr why : string) : Result gerror A :=
  Err (EForeign ("address " +:+ addr +:+ ": " +:+ why) None None None).
Definition SplitHostPort (hostport : string) : Result gerror (string * string) :=
  match LastIndexByte hostport colon with
  | None => addr_error hostport "missing port in address"
  | Some i =>
    let finish host (j k : nat) :=
      if has_byte open_bracket (str_drop j hostport) then addr_error hostport "unexpected '[' in address"
      else if has_byte close_bracket (str_drop k hostport) then addr_error hostport "unexpected ']' in address"
      else Ok (host, str_drop (S i) hostport) in
    if HasPrefix hostport "[" then
      match IndexByte hostport close_bracket with
      | None => addr_error hostport "missing ']' in address"
      | Some last =>
        if (S last =? String.length hostport)%nat then addr_error hostport "missing port in address"
        else if (S last =? i)%nat then finish (str_drop 1 (str_take last hostport)) 1%nat (S last)
        else if HasPrefix (str_drop (S last) hostport) ":" then addr_error hostport "too many colons in address"
        else addr_error hostport "missing port in address"
      end
    else
      let host := str_take i hostport in
      if has_byte colon host then addr_error hostport "too many colons in address" else finish host O O
  end.

(** ** Endpoint *)

Record Endpoint := mkEndpoint {
  end_Original : string;
  end_Scheme : string;
  end_Host : string;
  end_Port : string;
  end_Path : string
}.

(** Endpoint.String *)
Definition Endpoint_String (e : Endpoint) : string :=
  if decide (end_Original e <> "") then end_Original e
  else if decide (end_Scheme e = "unix") then "unix://" +:+ end_Path e
  else if decide (end_Host e = "" /\ end_Port e = "") then ""
  else
    let s := if decide (end_Scheme e = "") then "" else end_Scheme e +:+ "://" in
    let host := if has_byte colon (end_Host e) then "[" +:+ end_Host e +:+ "]" else end_Host e in
    let s := s +:+ host in
    let s := if decide (end_Port e = "") then s else s +:+ ":" +:+ end_Port e in
    if decide (end_Path e = "") then s else s +:+ end_Path e.

Definition Network (e : Endpoint) : string := if decide (end_Scheme e = "unix") then "unix" else "tcp".
Definition Address (e : Endpoint) : string :=
  if decide (end_Scheme e = "unix") then end_Path e else JoinHostPort (end_Host e) (end_Port e).
Definition IsTLS (e : Endpoint) : bool := bool_decide (end_Scheme e = "tls").

(** The fields of url.URL that ParseEndpoint reads *)
Record URL := mkURL { u_Scheme : string; u_Opaque : string; u_Host : string; u_Path : string }.

Section Parse.
Context (url_Parse : string -> Result gerror URL) (RuntimeDirectory : string).
(** Printf's %+v of the URL *)
Context (url_show : URL -> string).

Definition ParseEndpoint (str : string) : Result gerror Endpoint :=
  u ← url_Parse str;
  if decide (u_Scheme u = "tcp" \/ u_Scheme u = "tls") then
    let host := if decide (u_Host u = "" /\ u_Opaque u <> "") then u_Opaque u else u_Host u in
    let '(host, port) :=
      match SplitHostPort host with
      | Ok hp => hp
      | Err _ => match SplitHostPort (host +:+ ":") with Ok hp => hp | Err _ => (host, "") end
      end in
    if decide (port = "") then Err (EErrorf "port is required" None)
    else Ok (mkEndpoint str (u_Scheme u) host port (u_Path u))
  else if decide (u_Scheme u = "unix") then
    let path := if decide (u_Path u = "" /\ u_Opaque u <> "") then u_Opaque u else u_Path u in
    let actualPath := u_Host u +:+ path in
    let actualPath := if IsAbs actualPath then actualPath else Join RuntimeDirectory actualPath in
    Ok (mkEndpoint str (u_Scheme u) "" "" actualPath)
  else Err (EErrorf ("unsupported scheme: " +:+ str +:+ " (" +:+ url_show u +:+ ")") None).
End Parse.

Example split_host_port :
  map SplitHostPort ["mx.example.org:25"; "[::1]:25"; "mx"; "::1:25"; "[::1]"; "a[b:1"; ":25"]
  = [Ok ("mx.example.org", "25"); Ok ("::1", "25"); addr_error "mx" "missing port in address";
     addr_error "::1:25" "too many colons in address"; addr_error "[::1]" "missing port in address";
     addr_error "a[b:1" "unexpected '[' in address"; Ok ("", "25")].
Proof. vm_compute. reflexivity. Qed.
