(* ===== verification/Module.v ===== *)
(** * Module: the interfaces of framework/module that the components share

    Message metadata (msgmetadata.go), buffers (framework/buffer), and the
    DeliveryTarget, Delivery and PartialDelivery interfaces.  A Delivery value is
    a record of programs that run in the world of the target; [traced] wraps a
    target so that the world also records the calls made on it. *)
From S2P Require Import Prelude GoStr ExtErrors Checks.

(** The part of smtp.MailOptions (go-smtp) the source reads. *)
Record MailOptions := mkMailOptions { mo_Size : Z; mo_UTF8 : bool; mo_RequireTLS : bool }.

(** ConnState; addresses are their textual form, [None] for a nil interface. *)
Record ConnState := mkConnState {
  cs_Proto : string;
  cs_Hostname : string;
  cs_RemoteAddr : option string;
  cs_AuthUser : string;
  cs_AuthPassword : string
}.

Record MsgMetadata := mkMsgMetadata {
  mm_ID : string;
  mm_OriginalFrom : string;
  mm_DontTraceSender : bool;
  mm_Quarantine : bool;
  mm_OriginalRcpts : gmap string string;
  mm_SMTPOpts : MailOptions;
  mm_Conn : option ConnState;
  mm_TLSRequireOverride : bool
}.

Definition set_ID (id : string) (m : MsgMetadata) : MsgMetadata :=
  mkMsgMetadata id (mm_OriginalFrom m) (mm_DontTraceSender m) (mm_Quarantine m)
    (mm_OriginalRcpts m) (mm_SMTPOpts m) (mm_Conn m) (mm_TLSRequireOverride m).
Definition set_Conn (c : option ConnState) (m : MsgMetadata) : MsgMetadata :=
  mkMsgMetadata (mm_ID m) (mm_OriginalFrom m) (mm_DontTraceSender m) (mm_Quarantine m)
    (mm_OriginalRcpts m) (mm_SMTPOpts m) c (mm_TLSRequireOverride m).
Definition set_Quarantine (q : bool) (m : MsgMetadata) : MsgMetadata :=
  mkMsgMetadata (mm_ID m) (mm_OriginalFrom m) (mm_DontTraceSender m) q
    (mm_OriginalRcpts m) (mm_SMTPOpts m) (mm_Conn m) (mm_TLSRequireOverride m).
Definition set_OriginalRcpts (o : gmap string string) (m : MsgMetadata) : MsgMetadata :=
  mkMsgMetadata (mm_ID m) (mm_OriginalFrom m) (mm_DontTraceSender m) (mm_Quarantine m)
    o (mm_SMTPOpts m) (mm_Conn m) (mm_TLSRequireOverride m).

Global Instance MailOptions_eq_dec : EqDecision MailOptions.
Proof. solve_decision. Defined.
Global Instance ConnState_eq_dec : EqDecision ConnState.
Proof. solve_decision. Defined.
Global Instance MsgMetadata_eq_dec : EqDecision MsgMetadata.
Proof. solve_decision. Defined.

(** buffer.Buffer: the two implementations the modelled code creates. *)
Inductive Buffer :=
| MemoryBuffer (slice : string)
| FileBuffer (path : string) (lenHint : Z).
Global Instance Buffer_eq_dec : EqDecision Buffer.
Proof. solve_decision. Defined.

Section Targets.
Context `{Textproto}.

(** The statuses a BodyNonAtomic call reports, in order: the SetStatus calls. *)
Abbreviation statuses := (list (string * error)).

(** module.Delivery; [dl_BodyNonAtomic] is [Some] when the value also implements
    module.PartialDelivery. *)
Record Delivery (W : Type) := mkDelivery {
  dl_AddRcpt : string -> Prog W error;
  dl_Body : header -> Buffer -> Prog W error;
  dl_BodyNonAtomic : option (header -> Buffer -> Prog W statuses);
  dl_Abort : Prog W error;
  dl_Commit : Prog W error
}.

(** module.DeliveryTarget *)
Record DeliveryTarget (W : Type) := mkTarget {
  tgt_Start : MsgMetadata -> string -> Prog W (Result gerror (Delivery W))
}.

(** ** Call traces *)

Inductive call :=
| CStart (mm : MsgMetadata) (mailFrom : string) (res : error)
| CAddRcpt (rcpt : string) (res : error)
| CBody (res : error)
| CBodyNonAtomic (res : statuses)
| CAbort (res : error)
| CCommit (res : error).

Definition log_call {W A} (m : Prog W A) (ev : A -> call) : Prog (W * list call) A :=
  fun '(w, tr) =>
    match m w with
    | (w', Done a) => ((w', tr ++ [ev a]), Done a)
    | (w', Panicked why) => ((w', tr), Panicked why)
    end.

Definition traced_delivery {W} (d : Delivery W) : Delivery (W * list call) :=
  mkDelivery _
    (fun r => log_call (dl_AddRcpt _ d r) (CAddRcpt r))
    (fun h b => log_call (dl_Body _ d h b) CBody)
    (match dl_BodyNonAtomic _ d with
     | Some f => Some (fun h b => log_call (f h b) CBodyNonAtomic)
     | None => None
     end)
    (log_call (dl_Abort _ d) CAbort)
    (log_call (dl_Commit _ d) CCommit).

Definition start_err {A} (r : Result gerror A) : error :=
  match r with Ok _ => None | Err e => Some e end.

Definition traced {W} (t : DeliveryTarget W) : DeliveryTarget (W * list call) :=
  mkTarget _ (fun mm from =>
    r ← log_call (tgt_Start _ t mm from) (fun r => CStart mm from (start_err r));
    mret (match r with Ok d => Ok (traced_delivery d) | Err e => Err e end)).

Lemma log_call_Done {W A} (m : Prog W A) ev w tr wt a :
  log_call m ev (w, tr) = (wt, Done a) <->
  exists w', m w = (w', Done a) /\ wt = (w', tr ++ [ev a]).
Proof. unfold log_call. destruct (m w) as [w' [b|why]]; naive_solver. Qed.
End Targets.

Arguments dl_AddRcpt {_ _} _ _.
Arguments dl_Body {_ _} _ _ _.
Arguments dl_BodyNonAtomic {_ _} _.
Arguments dl_Abort {_ _} _.
Arguments dl_Commit {_ _} _.
Arguments mkDelivery {_ _} _ _ _ _ _.
Arguments tgt_Start {_ _} _ _ _.
Arguments mkTarget {_ _} _.
