(* ===== verification/SmtpConn.v ===== *)
(** * SmtpConn: internal/smtpconn

    The wrapper over go-smtp's client that the remote and smtp targets use.  The
    client, the network and TLS are the class [SmtpLib]: operations that run in a
    world [W].  A *C is a value that its operations return changed.  Timeouts and
    logging are left out. *)
From S2P Require Import Prelude GoStr ExtErrors Address Checks Module ConfigEndpoint.
From stdpp Require Import gmap.
From Stdlib Require Import ZifyBool.

Local Open Scope Z_scope.

(** The fields of tls.Config that are set *)
Record tlsConfig := mkTLSConfig { tc_ServerName : string; tc_InsecureSkipVerify : bool }.
Definition with_ServerName (name : string) (cfg : tlsConfig) : tlsConfig := mkTLSConfig name (tc_InsecureSkipVerify cfg).

Class SmtpLib `{Textproto} (W : Type) := {
  NetConn : Type;
  Client : Type;                                              (* *smtp.Client *)
  Writer : Type;                                              (* what Data returns *)
  Cert : Type;                                                (* *x509.Certificate *)
  net_Dial : string -> string -> Prog W (Result gerror NetConn);
  tls_Client : NetConn -> tlsConfig -> NetConn;
  NewClient : bool -> NetConn -> Prog W Client;               (* NewClientLMTP when true *)
  cl_Hello : Client -> string -> Prog W error;
  cl_Extension : Client -> string -> Prog W bool;
  cl_StartTLS : Client -> tlsConfig -> Prog W error;
  cl_Mail : Client -> string -> MailOptions -> Prog W error;
  cl_Rcpt : Client -> string -> Prog W error;
  cl_Data : Client -> Prog W (Result gerror Writer);
  cl_LMTPData : Client -> Prog W (Result gerror Writer);
  w_Header : Writer -> header -> Prog W error;                (* textproto.WriteHeader *)
  w_Copy : Writer -> string -> Prog W error;                  (* io.Copy of the body *)
  w_Close : Writer -> Prog W (list (string * error) * error); (* with the LMTP statuses *)
  cl_Noop : Client -> Prog W error;
  cl_Reset : Client -> Prog W error;
  cl_Quit : Client -> Prog W error;
  cl_Close : Client -> Prog W error;
  is_verify_error : gerror -> bool    (* errors.As of tls.CertificateVerificationError *)
}.

Section SmtpConn.
Context `{Textproto} `{UnicodeTables} `{TextLib} {W : Type} `{!SmtpLib W}.

(** ** The connection *)

Record C := mkC {
  c_Hostname : string;
  c_AddrInSMTPMsg : bool;
  c_serverName : string;
  c_cl : option Client;
  c_rcpts : list string;
  c_lmtp : bool
}.
Definition New_C : C := mkC "localhost.localdomain" false "" None [] false.

Definition set_cl (name : string) (cl : option Client) (c : C) : C :=
  mkC (c_Hostname c) (c_AddrInSMTPMsg c) name cl (c_rcpts c) (c_lmtp c).
Definition set_lmtp (b : bool) (c : C) : C :=
  mkC (c_Hostname c) (c_AddrInSMTPMsg c) (c_serverName c) (c_cl c) (c_rcpts c) b.
Definition add_rcpt (to : string) (c : C) : C :=
  mkC (c_Hostname c) (c_AddrInSMTPMsg c) (c_serverName c) (c_cl c) (c_rcpts c ++ [to]) (c_lmtp c).

Definition nil_client {A} : Prog W A := panic "invalid memory address or nil pointer dereference".
(** A call on c.cl *)
Definition on_client {A} (c : C) (f : Client -> Prog W A) : Prog W A :=
  match c_cl c with Some cl => f cl | None => nil_client end.

(** The type switch of wrapClientErr; 552 becomes 452 in the wrapped error too. *)
Definition wrapClientErr (c : C) (err : error) (serverName : string) : error :=
  match err with
  | None => None
  | Some (ETLS _) | Some (ESMTP _ _ _ _ _ _ _ _ _) => err
  | Some (EGoSMTP code ench msg temp) =>
    let text := if c_AddrInSMTPMsg c then serverName +:+ " said: " +:+ msg else msg in
    let '(code, ench, temp) :=
      if decide (code = 552) then (452, Ench 4 (ec1 ench) (ec2 ench), match temp with Some _ => Some true | None => None end)
      else (code, ench, temp) in
    Some (ESMTP code ench text "" "" "" "" (Some (EGoSMTP code ench msg temp)) {[ "remote_server" := FStr serverName ]})
  | Some (EOp op addr _ _ inner as e) =>
    match inner with
    | Some (EDNS _ _ _ _) =>
      let '(reason, misc) := UnwrapDNSErr (Some e) in
      Some (ESMTP (SMTPCode (Some e) 450 550) (SMTPEnchCode (Some e) (Ench 0 4 4)) "DNS error" "" "" "" reason (Some e)
              (<["io_op" := FStr op]> (<["remote_server" := FStr addr]> misc)))
    | _ =>
      Some (ESMTP 450 (Ench 4 4 2) "Network I/O error" "" "" "" "" (Some e)
              (<["io_op" := FStr op]> {[ "remote_addr" := FStr addr ]}))
    end
  | Some e => Some (WithFields (Some e) {[ "remote_server" := FStr serverName ]})
  end.

(** ** Connecting *)

Definition err_no_tls : gerror := EErrorf "TLS required but unsupported by downstream" None.

(** Quit, and Close when that fails *)
Definition quit_or_close (cl : Client) : Prog W unit :=
  err ← cl_Quit cl;
  match err with Some _ => cl_Close cl ;; mret tt | None => mret tt end.

Definition attemptConnect (c : C) (lmtp : bool) (endp : Endpoint) (starttls : bool) (cfg : tlsConfig)
    : Prog W (C * Result gerror (bool * Client)) :=
  conn ← net_Dial (Network endp) (Address endp);
  match conn with
  | Err e => mret (c, Err e)
  | Ok conn =>
    let conn := if IsTLS endp then tls_Client conn (with_ServerName (end_Host endp) cfg) else conn in
    let c := set_lmtp lmtp c in
    cl ← NewClient lmtp conn;
    err ← cl_Hello cl (c_Hostname c);
    match err with
    | Some e => cl_Close cl ;; mret (c, Err e)
    | None =>
      if negb starttls then mret (c, Ok (false, cl))
      else
        ok ← cl_Extension cl "STARTTLS";
        if negb (ok : bool) then quit_or_close cl ;; mret (c, Err err_no_tls)
        else
          err ← cl_StartTLS cl (with_ServerName (end_Host endp) cfg);
          match err with
          | Some e => quit_or_close cl ;; mret (c, Err (ETLS (Some e)))
          | None =>
            err ← cl_Hello cl (c_Hostname c);
            match err with
            | Some e => cl_Close cl ;; mret (c, Err (if is_verify_error e then ETLS (Some e) else e))
            | None => mret (c, Ok (true, cl))
            end
          end
    end
  end.

(** Connect and ConnectLMTP *)
Definition connect_with (lmtp : bool) (c : C) (endp : Endpoint) (starttls : bool) (cfg : tlsConfig) : Prog W (C * (bool * error)) :=
  '(c, r) ← attemptConnect c lmtp endp starttls cfg;
  match r with
  | Err e => mret (c, (false, wrapClientErr c (Some e) (end_Host endp)))
  | Ok (didTLS, cl) => mret (set_cl (end_Host endp) (Some cl) c, (didTLS, None))
  end.
Definition Connect := connect_with false.
Definition ConnectLMTP := connect_with true.

(** ** Commands *)

Definition remote_server (c : C) : fields := {[ "remote_server" := FStr (c_serverName c) ]}.

Definition C_Mail (c : C) (from : string) (opts : MailOptions) : Prog W error :=
  let send from utf8 :=
    err ← on_client c (fun cl => cl_Mail cl from (mkMailOptions (mo_Size opts) utf8 (mo_RequireTLS opts)));
    mret (wrapClientErr c err (c_serverName c)) in
  if mo_UTF8 opts then
    ok ← on_client c (fun cl => cl_Extension cl "SMTPUTF8");
    if (ok : bool) then send from true
    else
      match ToASCII from with
      | (_, Some e) =>
        mret (Some (ESMTP 550 (Ench 5 6 7) "SMTPUTF8 is unsupported, cannot convert sender address" "" "" "" "" (Some e) (remote_server c)))
      | (from, None) => send from false
      end
  else send from false.

Definition C_Rcpt (c : C) (to : string) : Prog W (C * error) :=
  ok ← on_client c (fun cl => cl_Extension cl "SMTPUTF8");
  let send to :=
    err ← on_client c (fun cl => cl_Rcpt cl to);
    mret (match err with Some _ => c | None => add_rcpt to c end, wrapClientErr c err (c_serverName c)) in
  if negb (IsASCII to) && negb (ok : bool) then
    match ToASCII to with
    | (_, Some e) =>
      mret (c, Some (ESMTP 553 (Ench 5 6 7) "SMTPUTF8 is unsupported, cannot convert recipient address" "" "" "" "" (Some e) (remote_server c)))
    | (to, None) => send to
    end
  else send to.

(** What Data and LMTPData share: header, body and the final dot. *)
Definition write_message (c : C) (wc : Writer) (hdr : header) (body : string) : Prog W (list (string * error) * error) :=
  err ← w_Header wc hdr;
  match err with
  | Some _ => mret ([], wrapClientErr c err (c_serverName c))
  | None =>
    err ← w_Copy wc body;
    match err with
    | Some _ => mret ([], wrapClientErr c err (c_serverName c))
    | None => '(statuses, err) ← w_Close wc; mret (statuses, wrapClientErr c err (c_serverName c))
    end
  end.

Definition C_LMTPData (c : C) (hdr : header) (body : string) : Prog W (list (string * error) * error) :=
  wc ← on_client c cl_LMTPData;
  match wc with
  | Err e => mret ([], wrapClientErr c (Some e) (c_serverName c))
  | Ok wc => write_message c wc hdr body
  end.

(** lmtpError: the last status of each recipient. *)
Definition lmtp_map (statuses : list (string * error)) : gmap string error :=
  foldl (fun m p => <[p.1 := p.2]> m) ∅ statuses.
Definition failures (m : gmap string error) : list gerror := omap snd (map_to_list m).
(** An lmtpError as an error value: it unwraps to the only failure, if one. *)
Definition lmtpError (m : gmap string error) : gerror :=
  match failures m with
  | [e] => EForeign (Error e) None None (Some e)
  | _ => EForeign "multiple errors reported by LMTP downstream" None None None
  end.
Definition smtpToLMTPData (c : C) (hdr : header) (body : string) : Prog W error :=
  '(statuses, err) ← C_LMTPData c hdr body;
  match err with
  | Some _ => mret err
  | None =>
    match failures (lmtp_map statuses) with
    | [] => mret None
    | _ => mret (Some (lmtpError (lmtp_map statuses)))
    end
  end.

Definition C_Data (c : C) (hdr : header) (body : string) : Prog W error :=
  if c_lmtp c then smtpToLMTPData c hdr body
  else
    wc ← on_client c cl_Data;
    match wc with
    | Err e => mret (wrapClientErr c (Some e) (c_serverName c))
    | Ok wc => '(_, err) ← write_message c wc hdr body; mret err
    end.

Definition C_Noop (c : C) : Prog W error :=
  match c_cl c with
  | None => mret (Some (ENew "smtpconn: not connected"))
  | Some cl => cl_Noop cl
  end.

(** Close: the client is kept when QUIT fails. *)
Definition C_Close (c : C) : Prog W (C * error) :=
  err ← on_client c cl_Quit;
  match err with
  | Some _ => err ← on_client c cl_Close; mret (c, err)
  | None => mret (set_cl "" None c, None)
  end.
Definition DirectClose (c : C) : Prog W C :=
  on_client c cl_Close ;; mret (set_cl "" None c).
End SmtpConn.
