(* ===== verification/Pool.v ===== *)
(** * Pool: internal/smtpconn/pool

    The pool of idle connections of the remote target, shared by any number of
    goroutines.  The operations that hold the lock are one step each; a Get that has
    left the lock, to receive from the channel of its key or to drain a channel it has
    closed, is a goroutine whose receive operations are single steps.  Connections are
    numbered; the world says when one is usable and when it was last used.  A drain
    under the lock is part of its step: a Get that takes a connection meanwhile could
    have taken it before the channel was closed. *)
From S2P Require Import Prelude.
From stdpp Require Import gmap.
From Stdlib Require Import ZifyBool.

Local Open Scope Z_scope.

Record Config := mkConfig {
  cfg_MaxKeys : nat;
  cfg_MaxConnsPerKey : nat;
  cfg_MaxConnLifetimeSec : Z;
  cfg_StaleKeyLifetimeSec : Z
}.

(** A channel of connections, and the slot of a key with the number of its channel. *)
Record chan := mkChan { ch_closed : bool; ch_buf : list nat }.
Record slot := mkSlot { sl_c : nat; sl_lastUse : Z }.

(** A Get outside of the lock *)
Inductive getter :=
| Receiving (key : string) (c : nat)   (* the loop over select *)
| Draining (key : string) (c : nat).   (* for conn := range bucket.c, before New *)

(** What happens to connections *)
Inductive pev :=
| Returned (key : string) (conn : nat)
| Handed (key : string) (conn : nat)   (* by Get *)
| Closed (conn : nat)
| Dropped (conn : nat).                (* Return after Close *)

Record P := mkP {
  p_keys : option (gmap string slot);   (* nil after Close *)
  p_chans : list chan;
  p_gets : gmap nat getter;
  p_out : list nat;                     (* connections that clients hold *)
  p_log : list pev;
  p_now : Z
}.
Definition New : P := mkP (Some ∅) [] ∅ [] [] 0.

Definition set_keys (k : option (gmap string slot)) (p : P) : P := mkP k (p_chans p) (p_gets p) (p_out p) (p_log p) (p_now p).
Definition set_chans (c : list chan) (p : P) : P := mkP (p_keys p) c (p_gets p) (p_out p) (p_log p) (p_now p).
Definition set_gets (g : gmap nat getter) (p : P) : P := mkP (p_keys p) (p_chans p) g (p_out p) (p_log p) (p_now p).
Definition set_out (o : list nat) (p : P) : P := mkP (p_keys p) (p_chans p) (p_gets p) o (p_log p) (p_now p).
Definition add_log (l : list pev) (p : P) : P := mkP (p_keys p) (p_chans p) (p_gets p) (p_out p) (p_log p ++ l) (p_now p).
Definition set_now (t : Z) (p : P) : P := mkP (p_keys p) (p_chans p) (p_gets p) (p_out p) (p_log p) t.

(** close(c) *)
Definition close_chan (id : nat) (p : P) : Outcome P :=
  match p_chans p !! id with
  | None => Panicked "close of nil channel"
  | Some ch =>
    if ch_closed ch then Panicked "close of closed channel"
    else Done (set_chans (<[id := mkChan true (ch_buf ch)]> (p_chans p)) p)
  end.
(** Receiving all that a closed channel holds and closing it *)
Definition drain (id : nat) (p : P) : P :=
  match p_chans p !! id with
  | None => p
  | Some ch => add_log (map Closed (ch_buf ch)) (set_chans (<[id := mkChan (ch_closed ch) []]> (p_chans p)) p)
  end.

Section Ops.
Context (cfg : Config).

Definition stale (p : P) (s : slot) : bool := negb (p_now p <? sl_lastUse s + cfg_StaleKeyLifetimeSec cfg).

(** The loops of CleanUp, of Return and of Close over the keys, whose order is not
    fixed *)
Fixpoint drop_keys (drop : slot -> bool) (l : list (string * slot)) (p : P) : Outcome P :=
  match l with
  | [] => Done p
  | (k, v) :: l =>
    if drop v then
      p ← close_chan (sl_c v) p;
      let p := drain (sl_c v) p in
      drop_keys drop l (set_keys (option_map (delete k) (p_keys p)) p)
    else drop_keys drop l p
  end.
Definition CleanUp (p : P) : Outcome P :=
  match p_keys p with None => Done p | Some keys => drop_keys (stale p) (map_to_list keys) p end.
Definition Close (p : P) : Outcome P :=
  match p_keys p with
  | None => Done p
  | Some keys => p ← drop_keys (fun _ => true) (map_to_list keys) p; Done (set_keys None p)
  end.

(** Get, up to the point where it leaves the lock; [None] is a call of cfg.New. *)
Definition Get (key : string) (p : P) : Outcome (P * option getter) :=
  match p_keys p ≫= lookup key with
  | None => Done (p, None)
  | Some bucket =>
    if cfg_MaxConnLifetimeSec cfg <? p_now p - sl_lastUse bucket then
      p ← close_chan (sl_c bucket) (set_keys (option_map (delete key) (p_keys p)) p);
      Done (p, Some (Draining key (sl_c bucket)))
    else Done (p, Some (Receiving key (sl_c bucket)))
  end.

(** One receive of a Get, for a connection with these answers of Usable and LastUseAt *)
Definition recv_step (g : nat) (usable : bool) (lastUseAt : Z) (p : P) : option P :=
  match p_gets p !! g with
  | None => None
  | Some get =>
    let id := match get with Receiving _ c | Draining _ c => c end in
    match p_chans p !! id with
    | None => None
    | Some (mkChan closed []) => Some (set_gets (delete g (p_gets p)) p)     (* then cfg.New *)
    | Some (mkChan closed (c :: buf)) =>
      let p := set_chans (<[id := mkChan closed buf]> (p_chans p)) p in
      match get with
      | Draining _ _ => Some (add_log [Closed c] p)
      | Receiving key _ =>
        if negb usable || (lastUseAt + cfg_MaxConnLifetimeSec cfg <? p_now p) then Some (add_log [Closed c] p)
        else Some (set_gets (delete g (p_gets p)) (set_out (c :: p_out p) (add_log [Handed key c] p)))
      end
    end
  end.

(** Return: lastUse is set on a copy of the slot, so it stays what it was. *)
Definition send (key : string) (id c : nat) (p : P) : Outcome P :=
  let p := set_out (list_difference (p_out p) [c]) p in
  match p_chans p !! id with
  | None => Panicked "send on nil channel"
  | Some (mkChan true _) => Panicked "send on closed channel"
  | Some (mkChan false buf) =>
    if (length buf <? cfg_MaxConnsPerKey cfg)%nat
    then Done (add_log [Returned key c] (set_chans (<[id := mkChan false (buf ++ [c])]> (p_chans p)) p))
    else Done (add_log [Returned key c; Closed c] p)
  end.
Definition make_slot (key : string) (p : P) : P :=
  set_chans (p_chans p ++ [mkChan false []])
    (set_keys (option_map (insert key (mkSlot (length (p_chans p)) (p_now p))) (p_keys p)) p).
Definition Return (key : string) (c : nat) (p : P) : Outcome P :=
  match p_keys p with
  | None => Done (add_log [Dropped c] (set_out (list_difference (p_out p) [c]) p))
  | Some keys =>
    match keys !! key with
    | Some bucket => send key (sl_c bucket) c p
    | None =>
      p ← (if (size keys =? cfg_MaxKeys cfg)%nat then drop_keys (stale p) (map_to_list keys) p else Done p);
      send key (length (p_chans p)) c (make_slot key p)
    end
  end.

(** ** Steps *)

Inductive ev :=
| EvTime (t : Z)
| EvOpen (c : nat)                            (* a client opens a connection of its own *)
| EvGet (g : nat) (key : string)
| EvRecv (g : nat) (usable : bool) (lastUseAt : Z)
| EvReturn (key : string) (c : nat)
| EvCleanUp                                    (* the tick of cleanUpTick *)
| EvClose.

Definition conn_of (e : pev) : nat := match e with Returned _ c | Handed _ c | Closed c | Dropped c => c end.
Definition buffered (p : P) : list nat := concat (map ch_buf (p_chans p)).
Definition known (p : P) : list nat := p_out p ++ buffered p ++ map conn_of (p_log p).

(** One step; [None] when it cannot happen.  A second Close blocks on cleanupStop. *)
Definition pool_step (p : P) (e : ev) : option (Outcome P) :=
  match e with
  | EvTime t => Some (Done (set_now t p))
  | EvOpen c => if bool_decide (c ∈ known p) then None else Some (Done (set_out (c :: p_out p) p))
  | EvGet g key =>
    match p_gets p !! g with
    | Some _ => None
    | None =>
      Some ('(p, get) ← Get key p;
            Done (match get with Some get => set_gets (<[g := get]> (p_gets p)) p | None => p end))
    end
  | EvRecv g usable lastUseAt => option_map Done (recv_step g usable lastUseAt p)
  | EvReturn key c => if bool_decide (c ∈ p_out p) then Some (Return key c p) else None
  | EvCleanUp => Some (CleanUp p)
  | EvClose => match p_keys p with None => None | Some _ => Some (Close p) end
  end.
Fixpoint pool_run (p : P) (evs : list ev) : option (Outcome P) :=
  match evs with
  | [] => Some (Done p)
  | e :: evs =>
    match pool_step p e with
    | Some (Done p) => pool_run p evs
    | r => r
    end
  end.
End Ops.

(** ** The invariant *)

(** Connections that left the pool for good *)
Definition gone_of (e : pev) : option nat := match e with Closed c | Dropped c => Some c | _ => None end.
Definition gone (p : P) : list nat := omap gone_of (p_log p).
Definition holders (p : P) : list nat := p_out p ++ buffered p ++ gone p.

Lemma buffered_split (chans : list chan) id ch :
  chans !! id = Some ch ->
  exists rest, concat (map ch_buf chans) ≡ₚ ch_buf ch ++ rest /\
    forall ch', concat (map ch_buf (<[id := ch']> chans)) ≡ₚ ch_buf ch' ++ rest.
Proof.
  revert id. induction chans as [|ch0 chans IH]; intros [|id] E; simplify_eq/=.
  - eexists. split; [done|]. intros ch'. done.
  - destruct (IH _ E) as (rest & H1 & H2). exists (ch_buf ch0 ++ rest). split.
    + rewrite H1. solve_Permutation.
    + intros ch'. simpl. rewrite H2. solve_Permutation.
Qed.

Ltac permute_out H :=
  match type of H with _ ≡ₚ _ :: ?rest => revert H; generalize rest; intros ? H; rewrite H; solve_Permutation end.

Section Invariant.
Context (cfg : Config).
Implicit Types (p : P) (own : list string).

(** [own] gives the key that each channel was made for. *)
Record pool_inv (own : list string) (p : P) : Prop := {
  inv_len : length own = length (p_chans p);
  inv_keys keys k s : p_keys p = Some keys -> keys !! k = Some s ->
    own !! sl_c s = Some k /\ exists buf, p_chans p !! sl_c s = Some (mkChan false buf);
  inv_gets g key id : p_gets p !! g = Some (Receiving key id) -> own !! id = Some key;
  inv_bufs id ch c k : p_chans p !! id = Some ch -> c ∈ ch_buf ch -> own !! id = Some k -> Returned k c ∈ p_log p;
  inv_cap ch : ch ∈ p_chans p -> (length (ch_buf ch) <= cfg_MaxConnsPerKey cfg)%nat;
  inv_known e : e ∈ p_log p -> conn_of e ∈ holders p;
  inv_lin : NoDup (holders p);
  inv_handed i k c : p_log p !! i = Some (Handed k c) -> exists j, (j < i)%nat /\ p_log p !! j = Some (Returned k c)
}.

(** A step that changes one channel, moves connections and logs what it did *)
Lemma inv_step own p p' id ch ch' l :
  pool_inv own p -> p_chans p !! id = Some ch -> p_chans p' = <[id := ch']> (p_chans p) -> p_log p' = p_log p ++ l ->
  (forall keys' k s, p_keys p' = Some keys' -> keys' !! k = Some s ->
     (exists keys, p_keys p = Some keys /\ keys !! k = Some s) /\ (sl_c s = id -> ch_closed ch' = ch_closed ch)) ->
  (forall g get, p_gets p' !! g = Some get -> p_gets p !! g = Some get) ->
  (forall c k, c ∈ ch_buf ch' -> own !! id = Some k -> c ∈ ch_buf ch \/ Returned k c ∈ l) ->
  (length (ch_buf ch') <= cfg_MaxConnsPerKey cfg)%nat -> holders p' ≡ₚ holders p ->
  (forall e, e ∈ l -> conn_of e ∈ holders p) -> (forall k c, Handed k c ∈ l -> Returned k c ∈ p_log p) ->
  pool_inv own p'.
Proof.
  intros Hinv Hid Hch Hlog Hkeys Hgets Hbuf Hcap Hperm Hl Hh.
  assert (forall e, e ∈ p_log p -> e ∈ p_log p') as Hsub by (intros e He; rewrite Hlog, elem_of_app; auto).
  constructor.
  - rewrite Hch, length_insert. apply Hinv.
  - intros keys' k s Hk Hs. destruct (Hkeys _ _ _ Hk Hs) as [(keys & Hk0 & Hs0) Heq].
    destruct (inv_keys _ _ Hinv _ _ _ Hk0 Hs0) as [Hown [buf Hb]]. split; [done|]. rewrite Hch.
    destruct (decide (sl_c s = id)) as [<-|Hne]; [|by rewrite list_lookup_insert_ne; eauto].
    rewrite list_lookup_insert_eq by (by eapply lookup_lt_Some). destruct ch' as [b buf'].
    simplify_eq. specialize (Heq eq_refl). simpl in Heq. subst. eauto.
  - intros g key id' Hg. eapply Hinv, Hgets, Hg.
  - intros id' ch0 c k Hlook Hc Hown. rewrite Hch in Hlook.
    destruct (decide (id = id')) as [<-|Hne].
    + rewrite list_lookup_insert_eq in Hlook by (by eapply lookup_lt_Some). simplify_eq.
      destruct (Hbuf _ _ Hc Hown) as [?|?]; [by eapply Hsub, inv_bufs|]. rewrite Hlog, elem_of_app. auto.
    + rewrite list_lookup_insert_ne in Hlook by done. by eapply Hsub, inv_bufs.
  - intros ch0 [id' Hlook]%list_elem_of_lookup. rewrite Hch in Hlook.
    apply list_lookup_insert_Some in Hlook as [(? & <- & ?)|[? Hlook]]; [done|].
    eapply inv_cap, list_elem_of_lookup_2; eauto.
  - intros e He. rewrite Hperm. rewrite Hlog, elem_of_app in He. destruct He; [by apply Hinv|auto].
  - rewrite Hperm. apply Hinv.
  - intros i k c Hi. rewrite Hlog in *. apply lookup_app_Some in Hi as [Hi|[Hle Hi]].
    + destruct (inv_handed _ _ Hinv _ _ _ Hi) as (j & ? & ?). exists j. split; [done|]. by apply lookup_app_l_Some.
    + apply list_elem_of_lookup_2, Hh, list_elem_of_lookup_1 in Hi as [j Hj]. exists j.
      split; [apply lookup_lt_Some in Hj; lia|by apply lookup_app_l_Some].
Qed.

Lemma holders_chan p p' id ch ch' l :
  p_chans p !! id = Some ch -> p_chans p' = <[id := ch']> (p_chans p) -> p_log p' = p_log p ++ l ->
  p_out p ++ ch_buf ch ≡ₚ p_out p' ++ ch_buf ch' ++ omap gone_of l -> holders p' ≡ₚ holders p.
Proof.
  intros Hid Hch Hlog Hperm. destruct (buffered_split _ _ _ Hid) as (rest & H1 & H2).
  unfold holders, buffered, gone. rewrite Hch, Hlog, omap_app, H1, (H2 ch').
  transitivity ((p_out p' ++ ch_buf ch' ++ omap gone_of l) ++ rest ++ omap gone_of (p_log p)); [solve_Permutation|].
  rewrite <- Hperm. solve_Permutation.
Qed.

Lemma gone_map cs : omap gone_of (map Closed cs) = cs.
Proof. induction cs; simpl; f_equal; auto. Qed.

Lemma in_buffer p id ch c : p_chans p !! id = Some ch -> c ∈ ch_buf ch -> c ∈ holders p.
Proof.
  intros Hid Hc. destruct (buffered_split _ _ _ Hid) as (rest & H1 & _).
  unfold holders, buffered. rewrite !elem_of_app, H1, elem_of_app. auto.
Qed.

(** The channels of the keys are open, and no two keys share one. *)
Lemma keys_own own p keys k v k' v' :
  pool_inv own p -> p_keys p = Some keys -> keys !! k = Some v -> keys !! k' = Some v' -> sl_c v' = sl_c v -> k' = k.
Proof.
  intros Hinv Hk Hv Hv' Heq. destruct (inv_keys _ _ Hinv _ _ _ Hk Hv) as [Ho _].
  destruct (inv_keys _ _ Hinv _ _ _ Hk Hv') as [Ho' _]. rewrite Heq in Ho'. congruence.
Qed.

(** Dropping a key: its channel is closed, and drained at once or later. *)
Lemma close_inv own p keys k v :
  pool_inv own p -> p_keys p = Some keys -> keys !! k = Some v ->
  exists p1, close_chan (sl_c v) (set_keys (Some (delete k keys)) p) = Done p1 /\ pool_inv own p1.
Proof.
  intros Hinv Hk Hv. destruct (inv_keys _ _ Hinv _ _ _ Hk Hv) as [Ho [buf Hb]].
  unfold close_chan. simpl. rewrite Hb. simpl. eexists. split; [done|].
  eapply (inv_step own p _ _ _ (mkChan true buf) []); try done; simpl; try by rewrite app_nil_r.
  - intros keys' k' s ? Hs. simplify_eq. apply lookup_delete_Some in Hs as [Hne Hs].
    split; [eauto|]. intros Heq. by destruct Hne; symmetry; eapply keys_own.
  - auto.
  - apply (inv_cap _ _ Hinv (mkChan false buf)). by eapply list_elem_of_lookup_2.
  - eapply (holders_chan _ _ _ (mkChan false buf) (mkChan true buf) []); simpl; [done..|by rewrite app_nil_r|].
    by rewrite app_nil_r.
  - intros e He. by apply elem_of_nil in He.
  - intros ? ? He. by apply elem_of_nil in He.
Qed.

Lemma drain_inv own p id : pool_inv own p -> pool_inv own (drain id p) /\ p_out (drain id p) = p_out p.
Proof.
  intros Hinv. unfold drain. destruct (p_chans p !! id) as [ch|] eqn:Hid; [|done]. split; [|done].
  eapply (inv_step own p _ _ _ (mkChan (ch_closed ch) []) (map Closed (ch_buf ch))); try done; simpl.
  - eauto.
  - intros c k Hc. by apply elem_of_nil in Hc.
  - lia.
  - eapply holders_chan; [done..|]. simpl. by rewrite gone_map.
  - intros e (c & -> & Hc)%list_elem_of_fmap. by eapply in_buffer.
  - by intros k c (? & ? & _)%list_elem_of_fmap.
Qed.

Lemma close_chan_keys id K p p1 :
  close_chan id (set_keys K p) = Done p1 ->
  exists p2, close_chan id p = Done p2 /\ p_keys p2 = p_keys p /\ p_keys (drain id p2) = p_keys p /\
    set_keys K (drain id p2) = drain id p1 /\ p_out p1 = p_out p.
Proof.
  unfold close_chan. simpl. destruct (p_chans p !! id) as [ch|] eqn:Hid; [|done]. destruct (ch_closed ch); [done|].
  intros E. simplify_eq. eexists. split; [done|]. unfold drain. simpl.
  rewrite list_lookup_insert_eq by (by eapply lookup_lt_Some). by split_and!.
Qed.

Lemma drop_keys_inv own drop l p keys :
  pool_inv own p -> p_keys p = Some keys -> NoDup l.*1 -> (forall k v, (k, v) ∈ l -> keys !! k = Some v) ->
  exists p' keys', drop_keys drop l p = Done p' /\ pool_inv own p' /\ p_out p' = p_out p /\
    p_keys p' = Some keys' /\ keys' ⊆ keys.
Proof.
  revert p keys. induction l as [|[k v] l IH]; intros p keys Hinv Hk Hnd Hin; simpl; [eauto 10|].
  apply NoDup_cons in Hnd as [Hnotin Hnd]. destruct (drop v).
  - assert (keys !! k = Some v) as Hkv by (apply Hin, list_elem_of_here).
    destruct (close_inv _ _ _ _ _ Hinv Hk Hkv) as (p1 & Hclose & Hinv1).
    destruct (close_chan_keys _ _ _ _ Hclose) as (p2 & Hc & Hk2 & Hk2' & Heq & Hout). rewrite Hc. simpl.
    rewrite Hk2', Hk. simpl. rewrite Heq.
    destruct (drain_inv _ _ (sl_c v) Hinv1) as [Hinv2 Hout2].
    destruct (IH (drain (sl_c v) p1) (delete k keys)) as (p' & keys' & Hd & ? & Ho & ? & ?); [done| |done| |].
    + by rewrite <- Heq.
    + intros k' v' Hin'. rewrite lookup_delete_ne; [apply Hin; by right|].
      intros <-. apply Hnotin. by eapply (list_elem_of_fmap_2 fst) in Hin'.
    + exists p', keys'. split_and!; [done..|by rewrite Ho, Hout2, Hout|done|]. by etrans; [|apply delete_subseteq].
  - apply IH; [done..|]. intros k' v' ?. apply Hin. by right.
Qed.

Lemma drop_all_inv own drop p keys :
  pool_inv own p -> p_keys p = Some keys ->
  exists p' keys', drop_keys drop (map_to_list keys) p = Done p' /\ pool_inv own p' /\ p_out p' = p_out p /\
    p_keys p' = Some keys' /\ keys' ⊆ keys.
Proof.
  intros Hinv Hk. eapply drop_keys_inv; [done..|apply NoDup_fst_map_to_list|].
  intros k v Hin. by apply elem_of_map_to_list.
Qed.

Lemma CleanUp_inv own p : pool_inv own p -> exists p', CleanUp cfg p = Done p' /\ pool_inv own p'.
Proof.
  intros Hinv. unfold CleanUp. destruct (p_keys p) as [keys|] eqn:Hk; [|eauto].
  destruct (drop_all_inv own (stale cfg p) p keys) as (p' & keys' & ? & ? & _); eauto.
Qed.

Lemma set_keys_inv own p : pool_inv own p -> pool_inv own (set_keys None p).
Proof. intros []. by constructor. Qed.

Lemma Close_inv own p : pool_inv own p -> exists p', Close p = Done p' /\ pool_inv own p'.
Proof.
  intros Hinv. unfold Close. destruct (p_keys p) as [keys|] eqn:Hk; [|eauto].
  destruct (drop_all_inv own (fun _ => true) p keys) as (p' & keys' & -> & ? & _); [done..|].
  simpl. eauto using set_keys_inv.
Qed.

(** A goroutine that leaves the lock with a getter for a channel of that key *)
Lemma set_gets_inv own p g get :
  pool_inv own p -> (forall key id, get = Receiving key id -> own !! id = Some key) -> pool_inv own (set_gets (<[g := get]> (p_gets p)) p).
Proof.
  intros [] Hget. constructor; try done. simpl. intros g' key id Hg.
  apply lookup_insert_Some in Hg as [[? ?]|[? ?]]; eauto.
Qed.

Lemma Get_inv own p key :
  pool_inv own p -> exists p' get, Get cfg key p = Done (p', get) /\ pool_inv own p' /\
    forall key' id, get = Some (Receiving key' id) -> own !! id = Some key'.
Proof.
  intros Hinv. unfold Get. destruct (p_keys p) as [keys|] eqn:Hk; simpl; [|by exists p, None].
  destruct (keys !! key) as [v|] eqn:Hv; [|by exists p, None].
  destruct (_ <? _).
  - destruct (close_inv _ _ _ _ _ Hinv Hk Hv) as (p1 & -> & ?). by exists p1, (Some (Draining key (sl_c v))).
  - do 2 eexists. split_and!; [done..|]. intros key' id ?. simplify_eq. by apply (inv_keys _ _ Hinv _ _ _ Hk Hv).
Qed.

Lemma pop_inv own p p' id b c buf l :
  pool_inv own p -> p_chans p !! id = Some (mkChan b (c :: buf)) ->
  p_chans p' = <[id := mkChan b buf]> (p_chans p) -> p_log p' = p_log p ++ l -> p_keys p' = p_keys p ->
  (forall g get, p_gets p' !! g = Some get -> p_gets p !! g = Some get) ->
  (l = [Closed c] /\ p_out p' = p_out p \/
   exists k, l = [Handed k c] /\ own !! id = Some k /\ p_out p' = c :: p_out p) -> pool_inv own p'.
Proof.
  intros Hinv Hid Hch Hlog Hk Hgets Hl.
  assert (c ∈ holders p) as Hc by (eapply in_buffer; [done|apply list_elem_of_here]).
  eapply (inv_step own p p' id _ (mkChan b buf) l Hinv Hid Hch Hlog); try done; simpl.
  - rewrite Hk. eauto.
  - intros c' k Hc'. left. by right.
  - assert (c :: buf = ch_buf (mkChan b (c :: buf))) as Hb by done.
    pose proof (inv_cap _ _ Hinv (mkChan b (c :: buf)) (list_elem_of_lookup_2 _ _ _ Hid)) as Hle. simpl in Hle. lia.
  - eapply holders_chan; [done..|]. simpl.
    destruct Hl as [[-> ->]|(k & -> & _ & ->)]; simpl; solve_Permutation.
  - intros e He. destruct Hl as [[-> _]|(k & -> & _)]; apply list_elem_of_singleton in He as ->; done.
  - intros k c' He. destruct Hl as [[-> _]|(k' & -> & Ho & _)]; apply list_elem_of_singleton in He; simplify_eq.
    eapply inv_bufs; [done..|apply list_elem_of_here|done].
Qed.

Lemma recv_inv own p p' g usable t : pool_inv own p -> recv_step cfg g usable t p = Some p' -> pool_inv own p'.
Proof.
  intros Hinv E. unfold recv_step in E. destruct (p_gets p !! g) as [get|] eqn:Hg; [|done].
  destruct (p_chans p !! _) as [[b [|c buf]]|] eqn:Hid; simplify_eq/=.
  - destruct Hinv. constructor; try done. simpl. intros g' key id [_ ?]%lookup_delete_Some. eauto.
  - destruct get as [key id|key id]; [destruct (_ || _)|]; simplify_eq/=.
    all: eapply pop_inv; [done|exact Hid|reflexivity|reflexivity|reflexivity| |]; simpl; eauto.
    + by intros g' get' [_ ?]%lookup_delete_Some.
    + right. eexists. split_and!; [done| |done]. by eapply inv_gets.
Qed.

Lemma out_remove own p c :
  pool_inv own p -> c ∈ p_out p -> p_out p ≡ₚ c :: list_difference (p_out p) [c].
Proof.
  intros Hinv Hc. assert (NoDup (p_out p)) as Hndo.
  { pose proof (inv_lin _ _ Hinv) as Hnd. by apply NoDup_app in Hnd as (? & _). }
  apply NoDup_Permutation; [done| |].
  - apply NoDup_cons. split; [|by apply NoDup_list_difference]. rewrite list_elem_of_difference, list_elem_of_singleton. tauto.
  - intros x. rewrite elem_of_cons, list_elem_of_difference, list_elem_of_singleton.
    destruct (decide (x = c)) as [->|]; tauto.
Qed.

Lemma send_inv own p key id c buf :
  pool_inv own p -> own !! id = Some key -> p_chans p !! id = Some (mkChan false buf) -> c ∈ p_out p ->
  exists p', send cfg key id c p = Done p' /\ pool_inv own p'.
Proof.
  intros Hinv Ho Hid Hc. pose proof (out_remove _ _ _ Hinv Hc) as Hout.
  assert (c ∈ holders p) as Hh by (unfold holders; rewrite elem_of_app; auto).
  pose proof (inv_cap _ _ Hinv (mkChan false buf) (list_elem_of_lookup_2 _ _ _ Hid)) as Hle. simpl in Hle.
  unfold send. simpl. rewrite Hid. destruct (_ <? _)%nat eqn:Hlt; eexists; (split; [done|]).
  - eapply (inv_step own p _ id _ (mkChan false (buf ++ [c])) [Returned key c]); try done; simpl; eauto.
    + intros c' k. rewrite elem_of_app, list_elem_of_singleton. intros [?| ->] ?; [by left|right]. simplify_eq.
      apply list_elem_of_here.
    + rewrite length_app. simpl. lia.
    + eapply holders_chan; [done..|]. simpl. permute_out Hout.
    + intros e ->%list_elem_of_singleton. done.
    + by intros k c' ?%list_elem_of_singleton.
  - eapply (inv_step own p _ id _ (mkChan false buf) [Returned key c; Closed c]); try done; simpl; eauto.
    + by rewrite list_insert_id.
    + eapply holders_chan; [done|simpl; symmetry; by apply list_insert_id|done|]. simpl. permute_out Hout.
    + intros e [->| ->%list_elem_of_singleton]%elem_of_cons; done.
    + by intros k c' [?|?%list_elem_of_singleton]%elem_of_cons.
Qed.

Lemma make_slot_inv own p key keys :
  pool_inv own p -> p_keys p = Some keys -> keys !! key = None -> pool_inv (own ++ [key]) (make_slot key p).
Proof.
  intros Hinv Hk Hnone. pose proof (inv_len _ _ Hinv) as Hlen.
  assert (holders (make_slot key p) = holders p) as Hh.
  { unfold holders, buffered. simpl. by rewrite map_app, concat_app, !app_nil_r. }
  assert (forall id k, own !! id = Some k -> (own ++ [key]) !! id = Some k) as Hown by (intros; by apply lookup_app_l_Some).
  constructor; rewrite ?Hh; simpl.
  - rewrite !length_app. simpl. lia.
  - intros keys' k s Hk' Hs. rewrite Hk in Hk'. simplify_eq/=. apply lookup_insert_Some in Hs as [[<- <-]|[Hne Hs]]; simpl.
    + split; [rewrite <- Hlen; by apply list_lookup_middle|]. exists []. by apply list_lookup_middle.
    + destruct (inv_keys _ _ Hinv _ _ _ Hk Hs) as [? [buf ?]]. split; [auto|]. exists buf. by apply lookup_app_l_Some.
  - intros g key' id ?. by eapply Hown, inv_gets.
  - intros id ch c k [Hl|[Hle Hl]]%lookup_app_Some Hc Ho.
    + eapply inv_bufs; [done..|]. apply lookup_app_Some in Ho as [?|[Hge _]]; [done|].
      apply lookup_lt_Some in Hl. lia.
    + apply list_lookup_singleton_Some in Hl as [_ <-]. by apply elem_of_nil in Hc.
  - intros ch [?| ->%list_elem_of_singleton]%elem_of_app; [by apply Hinv|simpl; lia].
  - intros e He. by apply Hinv.
  - apply Hinv.
  - intros i k c Hi. by apply (inv_handed _ _ Hinv).
Qed.

Lemma Return_inv own p key c :
  pool_inv own p -> c ∈ p_out p -> exists p' own', Return cfg key c p = Done p' /\ pool_inv own' p'.
Proof.
  intros Hinv Hc. unfold Return. destruct (p_keys p) as [keys|] eqn:Hk.
  - destruct (keys !! key) as [bucket|] eqn:Hb.
    + destruct (inv_keys _ _ Hinv _ _ _ Hk Hb) as [Ho [buf Hbuf]].
      destruct (send_inv own p key (sl_c bucket) c buf) as (p' & ? & ?); eauto.
    + assert (exists p1 keys1, (if (size keys =? cfg_MaxKeys cfg)%nat then drop_keys (stale cfg p) (map_to_list keys) p else Done p) = Done p1 /\
        pool_inv own p1 /\ p_out p1 = p_out p /\ p_keys p1 = Some keys1 /\ keys1 ⊆ keys) as (p1 & keys1 & -> & Hinv1 & Hout & Hk1 & Hsub).
      { destruct (_ =? _)%nat; [by apply drop_all_inv|]. by exists p, keys. }
      simpl. pose proof (make_slot_inv own p1 key keys1 Hinv1 Hk1 (lookup_weaken_None _ _ _ Hb Hsub)) as Hinv2.
      destruct (send_inv (own ++ [key]) (make_slot key p1) key (length (p_chans p1)) c []) as (p' & ? & ?); [done| | | |eauto].
      * rewrite <- (inv_len _ _ Hinv1). by apply list_lookup_middle.
      * by apply list_lookup_middle.
      * simpl. by rewrite Hout.
  - do 2 eexists. split; [done|]. pose proof (out_remove _ _ _ Hinv Hc) as Hout.
    assert (holders (add_log [Dropped c] (set_out (list_difference (p_out p) [c]) p)) ≡ₚ holders p) as Hperm.
    { unfold holders, buffered, gone. simpl. rewrite omap_app. simpl. permute_out Hout. }
    constructor; simpl; try apply Hinv.
    + intros id ch c' k ? ? ?. rewrite elem_of_app. left. by eapply inv_bufs.
    + intros e He. rewrite Hperm. apply elem_of_app in He as [?| ->%list_elem_of_singleton]; [by apply Hinv|].
      simpl. unfold holders. rewrite elem_of_app. auto.
    + rewrite Hperm. apply Hinv.
    + intros i k c' [Hi|[_ Hi]]%lookup_app_Some; [|by apply list_lookup_singleton_Some in Hi as [_ ?]].
      destruct (inv_handed _ _ Hinv _ _ _ Hi) as (j & ? & ?). exists j. split; [done|]. by apply lookup_app_l_Some.
Qed.

Lemma step_inv own p e o :
  pool_inv own p -> pool_step cfg p e = Some o -> exists p' own', o = Done p' /\ pool_inv own' p'.
Proof.
  intros Hinv E. destruct e as [t|c|g key|g usable t|key c| |]; simpl in E.
  - simplify_eq. exists (set_now t p), own. split; [done|]. by destruct Hinv.
  - case_bool_decide as Hc; simplify_eq. do 2 eexists. split; [done|].
    assert (c ∉ holders p) as Hnew.
    { intros Hin. apply Hc. unfold known. unfold holders, gone in Hin. rewrite !elem_of_app in *.
      destruct Hin as [?|[?|(e & He & Hg)%list_elem_of_omap]]; auto. right. right.
      apply list_elem_of_fmap. exists e. split; [|done]. by destruct e; simplify_eq/=. }
    destruct Hinv. constructor; try done; simpl.
    + intros e He. unfold holders. simpl. apply elem_of_cons. auto.
    + by apply NoDup_cons.
  - destruct (p_gets p !! g); simplify_eq.
    destruct (Get_inv own p key Hinv) as (p' & get & -> & Hinv' & Hget). simpl.
    do 2 eexists. split; [done|]. destruct get as [get|]; [|done].
    apply set_gets_inv; [done|]. intros key' id ->. eauto.
  - destruct (recv_step cfg g usable t p) eqn:Hr; simplify_eq/=. eauto using recv_inv.
  - case_bool_decide; simplify_eq. by eapply Return_inv.
  - simplify_eq. destruct (CleanUp_inv own p Hinv) as (p' & -> & ?). eauto.
  - destruct (p_keys p); simplify_eq. destruct (Close_inv own p Hinv) as (p' & -> & ?). eauto.
Qed.

Lemma run_inv own p evs o :
  pool_inv own p -> pool_run cfg p evs = Some o -> exists p' own', o = Done p' /\ pool_inv own' p'.
Proof.
  revert own p. induction evs as [|e evs IH]; intros own p Hinv E; simpl in E; [simplify_eq; eauto|].
  destruct (pool_step cfg p e) as [o'|] eqn:Hs; [|done].
  destruct (step_inv _ _ _ _ Hinv Hs) as (p' & own' & -> & Hinv'). eauto.
Qed.

Lemma New_inv : pool_inv [] New.
Proof.
  constructor; simpl; try (by intros ? ?%elem_of_nil); try done.
  - intros keys k s ? Hs. by simplify_eq.
  - by apply NoDup_nil_2.
Qed.

(** C10: the pool keeps track of every connection, however its operations interleave.
    In any run of gets, returns, clean-ups and a Close, by any number of goroutines,
    no operation panics (no channel is closed twice or sent to after it was closed); a
    connection is, at any time, held by one client, waiting in one channel, or gone,
    and never two of these or none; none is closed twice; no channel holds more than
    MaxConnsPerKey; and what Get hands out for a key was returned under that key
    before. *)
Theorem pool_safe evs o :
  pool_run cfg New evs = Some o ->
  exists p, o = Done p /\ NoDup (p_out p ++ buffered p ++ gone p) /\
    (forall e, e ∈ p_log p -> conn_of e ∈ p_out p ++ buffered p ++ gone p) /\
    (forall ch, ch ∈ p_chans p -> (length (ch_buf ch) <= cfg_MaxConnsPerKey cfg)%nat) /\
    (forall i key c, p_log p !! i = Some (Handed key c) -> exists j, (j < i)%nat /\ p_log p !! j = Some (Returned key c)).
Proof.
  intros E. destruct (run_inv _ _ _ _ New_inv E) as (p & own & -> & Hinv).
  exists p. split; [done|]. split_and!; by apply Hinv.
Qed.
End Invariant.

Definition sample_cfg : Config := mkConfig 1 1 10 20.
(** Two connections of one key, the second too many; one is handed out again; the key
    is dropped by a Get while another Get waits for its channel. *)
Definition sample_evs : list ev :=
  [EvOpen 1%nat; EvOpen 2%nat; EvReturn "a" 1%nat; EvReturn "a" 2%nat; EvGet 0%nat "a"; EvRecv 0%nat true 0; EvReturn "a" 1%nat;
   EvGet 1%nat "a"; EvTime 11; EvGet 2%nat "a"; EvRecv 2%nat true 0; EvRecv 1%nat true 0; EvCleanUp; EvClose].
Definition sample_end : P :=
  mkP None [mkChan true []] {[ 2%nat := Draining "a" 0%nat ]} []
    [Returned "a" 1%nat; Returned "a" 2%nat; Closed 2%nat; Handed "a" 1%nat; Returned "a" 1%nat; Closed 1%nat] 11.
Lemma pool_safe_witness :
  exists p, Done sample_end = Done p /\ NoDup (p_out p ++ buffered p ++ gone p) /\
    (forall e, e ∈ p_log p -> conn_of e ∈ p_out p ++ buffered p ++ gone p) /\
    (forall ch, ch ∈ p_chans p -> (length (ch_buf ch) <= 1)%nat) /\
    (forall i key c, p_log p !! i = Some (Handed key c) -> exists j, (j < i)%nat /\ p_log p !! j = Some (Returned key c)).
Proof. apply (pool_safe sample_cfg sample_evs). vm_compute. reflexivity. Defined.

(** A key in steady use is dropped MaxConnLifetimeSec after it was made, because Return
    sets lastUse on a copy of the slot. *)
Example lastUse_is_not_updated :
  match pool_run sample_cfg New [EvOpen 1%nat; EvReturn "a" 1%nat; EvTime 9; EvGet 0%nat "a"; EvRecv 0%nat true 9; EvReturn "a" 1%nat; EvTime 11; EvGet 0%nat "a"] with
  | Some (Done p) => p_gets p !! 0%nat
  | _ => None
  end = Some (Draining "a" 0).
Proof. vm_compute. reflexivity. Qed.

(** MaxKeys is not a bound: when no key is stale, the pool grows past it, and then the
    test for equality never holds again. *)
Example more_keys_than_MaxKeys :
  match pool_run sample_cfg New [EvOpen 1%nat; EvReturn "a" 1%nat; EvOpen 2%nat; EvReturn "b" 2%nat; EvOpen 3%nat; EvReturn "c" 3%nat] with
  | Some (Done p) => size <$> p_keys p
  | _ => None
  end = Some 3%nat.
Proof. vm_compute. reflexivity. Qed.
