(* ===== verification/Downstream.v ===== *)
(** * Downstream: internal/target/smtp

    The target that hands messages to another SMTP or LMTP server.  A delivery is
    passed from call to call; the client of go-smtp and its Auth are parameters. *)
From S2P Require Import Prelude GoStr ExtErrors Address Checks Config ConfigEndpoint Module SmtpConn.
From stdpp Require Import gmap.

Local Open Scope Z_scope.

(** ** sasl.go *)

(** sasl.Client values: NewPlainClient and NewExternalClient *)
Inductive sasl_Client := PlainClient (identity username password : string) | ExternalClient (identity : string).
Notation saslClientFactory := (MsgMetadata -> Result gerror sasl_Client).

Definition forward_refused : gerror :=
  ESMTP 530 (Ench 5 7 0) "Authentication is required" "" "target.smtp" ""
    "Credentials forwarding is requested but the client is not authenticated" None ∅.
Definition forward_credentials : saslClientFactory := fun msgMeta =>
  match mm_Conn msgMeta with
  | None => Err forward_refused
  | Some conn =>
    if decide (cs_AuthUser conn = "" \/ cs_AuthPassword conn = "") then Err forward_refused
    else Ok (PlainClient "" (cs_AuthUser conn) (cs_AuthPassword conn))
  end.
(** The result [None] is the nil factory. *)
Definition saslAuthDirective (node : Node) : Result gerror (option saslClientFactory) :=
  match default [] (node_Children node), node_Args node with
  | _ :: _, _ => Err (NodeErr node "can't declare a block here")
  | [], [] => Err (NodeErr node "at least one argument required")
  | [], mech :: args =>
    if decide (mech = "off") then Ok None
    else if decide (mech = "forward") then
      match args with [] => Ok (Some forward_credentials) | _ => Err (NodeErr node "no additional arguments required") end
    else if decide (mech = "plain") then
      match args with
      | [username; password] => Ok (Some (fun _ => Ok (PlainClient "" username password)))
      | _ => Err (NodeErr node "two additional arguments are required (username, password)")
      end
    else if decide (mech = "external") then
      match args with [] => Ok (Some (fun _ => Ok (ExternalClient ""))) | _ => Err (NodeErr node "no additional arguments required") end
    else Err (NodeErr node ("unknown authentication mechanism: " +:+ mech))
  end.

Section Downstream.
Context `{Textproto} `{UnicodeTables} `{TextLib} {W : Type} `{!SmtpLib W} (cl_Auth : Client -> sasl_Client -> Prog W error).

Record Downstream := mkDownstream {
  ds_modName : string;
  ds_lmtp : bool;
  ds_starttls : bool;
  ds_hostname : string;
  ds_endpoints : list Endpoint;
  ds_saslFactory : option saslClientFactory;
  ds_tlsConfig : tlsConfig
}.
Definition is_lmtp (modName : string) : bool := bool_decide (modName = "target.lmtp") || bool_decide (modName = "lmtp_downstream").

(** Init after the directives were processed: attempt_starttls, the hostname and the
    targets *)
Context (url_Parse : string -> Result gerror URL) (RuntimeDirectory : string) (url_show : URL -> string).
Fixpoint parse_targets (targets : list string) : Result gerror (list Endpoint) :=
  match targets with
  | [] => Ok []
  | tgt :: targets => endp ← ParseEndpoint url_Parse RuntimeDirectory url_show tgt; endps ← parse_targets targets; Ok (endp :: endps)
  end.
Definition Downstream_Init (u : Downstream) (attemptTLS : option bool)
  (targetsArg targets : list string) : Result gerror Downstream :=
  match idna_ToASCII (ds_hostname u) with
  | (_, Some err) => Err (wrapf (ds_modName u +:+ ": cannot represent the hostname as an A-label name") err)
  | (hostname, None) =>
    endps ← parse_targets (targetsArg ++ targets);
    match ds_endpoints u ++ endps with
    | [] => Err (EErrorf (ds_modName u +:+ ": at least one target endpoint is required") None)
    | endps => Ok (mkDownstream (ds_modName u) (ds_lmtp u) (default (ds_starttls u) attemptTLS) hostname endps (ds_saslFactory u) (ds_tlsConfig u))
    end
  end.

Context (u : Downstream).

Definition moduleError (err : error) : error :=
  match err with None => None | Some _ => Some (WithFields err {[ "target" := FStr (ds_modName u) ]}) end.

Record delivery := mkDelivery { dd_msgMeta : MsgMetadata; dd_mailFrom : string; dd_rcpts : list string; dd_conn : C }.

(** The loop over the endpoints: every attempt is made with the same connection. *)
Fixpoint connect_endpoints (endps : list Endpoint) (conn : C) (lastErr : error) : Prog W (C * error) :=
  match endps with
  | [] => mret (conn, lastErr)
  | endp :: endps =>
    '(conn, (_, err)) ← (if ds_lmtp u then ConnectLMTP conn endp (ds_starttls u) (ds_tlsConfig u)
                         else Connect conn endp (ds_starttls u) (ds_tlsConfig u));
    match err with
    | Some _ => connect_endpoints endps conn err
    | None => mret (conn, None)
    end
  end.
Definition new_conn : C := mkC (ds_hostname u) false "" None [] false.
(** connect; the connection is closed when the authentication fails. *)
Definition connect (msgMeta : MsgMetadata) : Prog W (Result gerror C) :=
  '(conn, lastErr) ← connect_endpoints (ds_endpoints u) new_conn None;
  match moduleError lastErr with
  | Some err => mret (Err err)
  | None =>
    match ds_saslFactory u with
    | None => mret (Ok conn)
    | Some factory =>
      match factory msgMeta with
      | Err err => C_Close conn ;; mret (Err err)
      | Ok saslClient =>
        err ← on_client conn (fun cl => cl_Auth cl saslClient);
        match err with
        | Some err => C_Close conn ;; mret (Err err)
        | None => mret (Ok conn)
        end
      end
    end
  end.

Definition Downstream_Start (msgMeta : MsgMetadata) (mailFrom : string) : Prog W (Result gerror delivery) :=
  r ← connect msgMeta;
  match r with
  | Err err => mret (Err err)
  | Ok conn =>
    err ← C_Mail conn mailFrom (mm_SMTPOpts msgMeta);
    match err with
    | Some err => C_Close conn ;; mret (Err err)
    | None => mret (Ok (mkDelivery msgMeta mailFrom [] conn))
    end
  end.

Definition AddRcpt (d : delivery) (rcptTo : string) : Prog W (delivery * error) :=
  '(conn, err) ← C_Rcpt (dd_conn d) rcptTo;
  match err with
  | Some _ => mret (mkDelivery (dd_msgMeta d) (dd_mailFrom d) (dd_rcpts d) conn, moduleError err)
  | None => mret (mkDelivery (dd_msgMeta d) (dd_mailFrom d) (dd_rcpts d ++ [rcptTo]) conn, None)
  end.

(** [open] is body.Open. *)
Definition Body (d : delivery) (hdr : header) (open : Prog W (Result gerror string)) : Prog W error :=
  r ← open;
  match r with
  | Err err => mret (moduleError (Some err))
  | Ok r => err ← C_Data (dd_conn d) hdr r; mret (moduleError err)
  end.

(** The status of one recipient *)
Definition lmtp_status (err : error) : error :=
  match err with
  | Some (EGoSMTP code ench msg _) => Some (ESMTP code ench msg "" (ds_modName u) "" "" err ∅)
  | _ => err
  end.
(** After an error of Open the code goes on with the nil reader, which the deferred
    Close dereferences.  [dd_rcpts[rcptIndx:]] is out of range when there were more
    statuses than recipients. *)
Definition BodyNonAtomic (d : delivery) (hdr : header) (open : Prog W (Result gerror string)) : Prog W (list (string * error)) :=
  r ← open;
  match r with
  | Err _ => panic "invalid memory address or nil pointer dereference"
  | Ok r =>
    '(sts, err) ← C_LMTPData (dd_conn d) hdr r;
    let reported := map (fun s => (s.1, lmtp_status s.2)) sts in
    match err with
    | None => mret reported
    | Some _ =>
      if (length (dd_rcpts d) <? length sts)%nat then panic "slice bounds out of range"
      else mret (reported ++ map (fun rcpt => (rcpt, moduleError err)) (drop (length sts) (dd_rcpts d)))
    end
  end.

Definition Abort (d : delivery) : Prog W error := C_Close (dd_conn d) ;; mret None.
Definition Commit (d : delivery) : Prog W error := '(_, err) ← C_Close (dd_conn d); mret err.

(** Every accepted recipient gets one status: when the LMTP client reports statuses for
    the first recipients in order, and for all of them if it returns no error,
    BodyNonAtomic reports one for each recipient that AddRcpt accepted, in order. *)
Theorem one_status_each d hdr open w1 w2 w3 body sts err :
  open w1 = (w2, Done (Ok body)) -> C_LMTPData (dd_conn d) hdr body w2 = (w3, Done (sts, err)) ->
  map fst sts = take (length sts) (dd_rcpts d) -> (err = None -> length sts = length (dd_rcpts d)) ->
  exists out, BodyNonAtomic d hdr open w1 = (w3, Done out) /\ map fst out = dd_rcpts d /\
    (forall i r, out !! i = Some (r, None) -> exists r', sts !! i = Some (r', None)).
Proof.
  intros Ho Hd Hs Hn. unfold BodyNonAtomic. rewrite (prog_bind_eq _ _ _ _ _ Ho), (prog_bind_eq _ _ _ _ _ Hd).
  assert (length sts <= length (dd_rcpts d))%nat as Hlen.
  { apply (f_equal length) in Hs. rewrite length_map, length_take in Hs. lia. }
  assert (map fst (map (fun s => (s.1, lmtp_status s.2)) sts) = map fst sts) as Hf by (rewrite map_map; done).
  assert (forall i r, map (fun s : string * error => (s.1, lmtp_status s.2)) sts !! i = Some (r, None) -> exists r', sts !! i = Some (r', None)) as Hok.
  { intros i r Hi. apply list_lookup_fmap_Some in Hi as ([r' [e|]] & Hi & E); [|by exists r'].
    simpl in E. destruct e; simplify_eq/=. }
  destruct err as [e|].
  - destruct (Nat.ltb_spec (length (dd_rcpts d)) (length sts)); [lia|]. eexists. split; [reflexivity|]. split.
    + rewrite map_app, Hf, Hs, map_map. cbn [fst]. rewrite map_id. apply take_drop.
    + intros i r Hi. apply lookup_app_Some in Hi as [Hi|[_ Hi]]; [by eapply Hok|].
      apply list_lookup_fmap_Some in Hi as (? & E & _). unfold moduleError in E. by simplify_eq.
  - eexists. split; [reflexivity|]. split; [|done]. rewrite Hf, Hs, Hn by done. apply firstn_all.
Qed.

(** An error of Open, on the other hand, panics. *)
Lemma open_error_panics d hdr open w1 w2 err :
  open w1 = (w2, Done (Err err)) -> (BodyNonAtomic d hdr open w1).2 = Panicked "invalid memory address or nil pointer dereference".
Proof. intros Ho. unfold BodyNonAtomic. by rewrite (prog_bind_eq _ _ _ _ _ Ho). Qed.
End Downstream.
