(* ===== verification/Dns.v ===== *)
(** * Dns: framework/dns/dnssec.go

    ExtResolver, the lookups that report whether the answer was authenticated by
    DNSSEC.  The client of miekg/dns is the class [DnsLib]; a query that fails gives
    an error.  The messages carry the fields the source reads. *)
From S2P Require Import Prelude GoStr ExtErrors.
From Stdlib Require Import ZifyBool.

Local Open Scope Z_scope.

(** dns.TLSA *)
Record TLSA := mkTLSA { tlsa_Usage : Z; tlsa_Selector : Z; tlsa_MatchingType : Z; tlsa_Certificate : string }.
Global Instance TLSA_eq_dec : EqDecision TLSA.
Proof. solve_decision. Defined.

(** net.MX *)
Record MX := mkMX { mx_Host : string; mx_Pref : Z }.

Inductive rr :=
| RR_A (name addr : string)
| RR_AAAA (name addr : string)
| RR_CNAME (target : string)
| RR_MX (host : string) (pref : Z)
| RR_TXT (txt : list string)
| RR_PTR (ptr : string)
| RR_TLSA (rec : TLSA)
| RR_other.
Inductive qtype := TypeA | TypeAAAA | TypeCNAME | TypeMX | TypeTXT | TypePTR | TypeTLSA.
Global Instance qtype_eq_dec : EqDecision qtype.
Proof. solve_decision. Defined.

Record dns_msg := mkDnsMsg { msg_Rcode : Z; msg_AuthenticatedData : bool; msg_Answer : list rr }.
Definition no_ad (m : dns_msg) : dns_msg := mkDnsMsg (msg_Rcode m) false (msg_Answer m).

Class DnsLib (W : Type) := {
  dns_Exchange : string -> qtype -> string -> Prog W (Result gerror dns_msg);  (* name, type, server *)
  dns_Fqdn : string -> string;
  dns_TLSAName : string -> string -> string -> Result gerror string;
  dns_ReverseAddr : string -> Result gerror string;
  is_loopback : string -> bool                                  (* net.ParseIP and IP.IsLoopback *)
}.

Definition RcodeSuccess : Z := 0.
Definition RcodeNameError : Z := 3.

Definition IsNotFound (err : error) : bool :=
  match err with
  | Some (EDNS _ notfound _ _) => notfound
  | Some (ERCode _ code) => code =? RcodeNameError
  | _ => false
  end.

Section Resolver.
Context {W : Type} `{!DnsLib W}.

Record ExtResolver := mkExtResolver { er_Servers : list string }.

(** The loop of exchange over the servers, with the response and the error so far *)
Fixpoint exchange_loop (name : string) (t : qtype) (servers : list string) (resp : option dns_msg) (lastErr : error)
    : Prog W (option dns_msg * error) :=
  match servers with
  | [] => mret (resp, lastErr)
  | srv :: servers =>
    r ← dns_Exchange name t srv;
    match r with
    | Err e => exchange_loop name t servers None (Some e)
    | Ok resp =>
      if negb (msg_Rcode resp =? RcodeSuccess) then
        exchange_loop name t servers (Some resp) (Some (ERCode name (msg_Rcode resp)))
      else mret (Some (if is_loopback srv then resp else no_ad resp), None)
    end
  end.
(** exchange, and the callers' test of the error; with no server there is neither a
    response nor an error, and the callers dereference nil. *)
Definition exchange (e : ExtResolver) (name : string) (t : qtype) : Prog W (Result gerror dns_msg) :=
  '(resp, err) ← exchange_loop name t (er_Servers e) None None;
  match err, resp with
  | Some e, _ => mret (Err e)
  | None, Some resp => mret (Ok resp)
  | None, None => panic "invalid memory address or nil pointer dereference"
  end.

Definition AuthLookupAddr (e : ExtResolver) (addr : string) : Prog W (bool * list string * error) :=
  match dns_ReverseAddr addr with
  | Err e => mret (false, [], Some e)
  | Ok revAddr =>
    resp ← exchange e revAddr TypePTR;
    match resp with
    | Err e => mret (false, [], Some e)
    | Ok resp => mret (msg_AuthenticatedData resp, omap (fun r => match r with RR_PTR p => Some p | _ => None end) (msg_Answer resp), None)
    end
  end.

Definition AuthLookupMX (e : ExtResolver) (name : string) : Prog W (bool * list MX * error) :=
  resp ← exchange e (dns_Fqdn name) TypeMX;
  match resp with
  | Err e => mret (false, [], Some e)
  | Ok resp =>
    mret (msg_AuthenticatedData resp, omap (fun r => match r with RR_MX h p => Some (mkMX h p) | _ => None end) (msg_Answer resp), None)
  end.

Definition AuthLookupTXT (e : ExtResolver) (name : string) : Prog W (bool * list string * error) :=
  resp ← exchange e (dns_Fqdn name) TypeTXT;
  match resp with
  | Err e => mret (false, [], Some e)
  | Ok resp =>
    mret (msg_AuthenticatedData resp, omap (fun r => match r with RR_TXT l => Some (String.concat "" l) | _ => None end) (msg_Answer resp), None)
  end.

(** The names of the A, or AAAA, records: the last one counts. *)
Definition a_names (t : qtype) (answer : list rr) : list string :=
  omap (fun r => match r, t with
                 | RR_A name _, TypeA => Some name
                 | RR_AAAA name _, TypeAAAA => Some name
                 | _, _ => None
                 end) answer.
Definition CheckCNAMEAD (e : ExtResolver) (host : string) : Prog W (bool * string * error) :=
  resp ← exchange e (dns_Fqdn host) TypeA;
  match resp with
  | Err e => mret (false, "", Some e)
  | Ok resp =>
    let '(ad, rname) := match last (a_names TypeA (msg_Answer resp)) with
                        | Some name => (msg_AuthenticatedData resp, name)
                        | None => (false, "")
                        end in
    if decide (rname = "") then
      resp ← exchange e (dns_Fqdn host) TypeAAAA;
      match resp with
      | Err _ => mret (ad, rname, None)
      | Ok resp =>
        match last (a_names TypeAAAA (msg_Answer resp)) with
        | Some name => mret (msg_AuthenticatedData resp, name, None)
        | None => mret (ad, rname, None)
        end
      end
    else mret (ad, rname, None)
  end.

Definition AuthLookupCNAME (e : ExtResolver) (host : string) : Prog W (bool * string * error) :=
  resp ← exchange e (dns_Fqdn host) TypeCNAME;
  match resp with
  | Err e => mret (false, "", Some e)
  | Ok resp =>
    let targets := omap (fun r => match r with RR_CNAME c => Some c | _ => None end) (msg_Answer resp) in
    mret (msg_AuthenticatedData resp, default "" (head targets), None)
  end.

Definition addrs_of (t : qtype) (answer : list rr) : list string :=
  omap (fun r => match r, t with
                 | RR_A _ addr, TypeA => Some addr
                 | RR_AAAA _ addr, TypeAAAA => Some addr
                 | _, _ => None
                 end) answer.
Definition AuthLookupIPAddr (e : ExtResolver) (host : string) : Prog W (bool * list string * error) :=
  resp ← exchange e (dns_Fqdn host) TypeAAAA;
  let '(aaaaFailed, v6ad, v6addrs) :=
    match resp with
    | Err _ => (true, false, [])
    | Ok resp => (false, msg_AuthenticatedData resp, addrs_of TypeAAAA (msg_Answer resp))
    end in
  resp ← exchange e (dns_Fqdn host) TypeA;
  match resp with
  | Err e =>
    if (aaaaFailed : bool) then mret (false, [], Some e)
    else mret (false, v6addrs, None)
  | Ok resp =>
    let v4ad := msg_AuthenticatedData resp in
    let v4addrs := addrs_of TypeA (msg_Answer resp) in
    mret (v4ad, (if negb v6ad && negb v4ad then v6addrs ++ v4addrs
                 else (if v6ad then v6addrs else []) ++ v4addrs), None)
  end.
Definition AuthLookupHost (e : ExtResolver) (host : string) : Prog W (bool * list string * error) :=
  '(ad, addrs, err) ← AuthLookupIPAddr e host;
  match err with Some _ => mret (false, [], err) | None => mret (ad, addrs, None) end.

Definition AuthLookupTLSA (e : ExtResolver) (service network domain : string) : Prog W (bool * list TLSA * error) :=
  match dns_TLSAName domain service network with
  | Err e => mret (false, [], Some e)
  | Ok name =>
    resp ← exchange e (dns_Fqdn name) TypeTLSA;
    match resp with
    | Err e => mret (false, [], Some e)
    | Ok resp => mret (msg_AuthenticatedData resp, omap (fun r => match r with RR_TLSA t => Some t | _ => None end) (msg_Answer resp), None)
    end
  end.
End Resolver.
