(* ===== verification/MXAuth.v ===== *)
(** * MXAuth: the security policies of outbound connections

    framework/module/mxauth.go (levels and the policy interface), and of
    internal/target/remote: security.go (MTA-STS, DNSSEC, DANE, local policy),
    dane.go (verifyDANE) and policy_group.go (the order of the policies).  A policy
    of a delivery is a record of programs; the futures of MTA-STS and DANE are the
    lenses of [PolicyWorld], and waiting for a future runs the lookup it stands for. *)
From S2P Require Import Prelude GoStr ExtErrors Checks Module ConfigEndpoint SmtpConn Dns.
From stdpp Require Import gmap.
From Stdlib Require Import ZifyBool.

Local Open Scope Z_scope.

(** ** Levels *)

Definition TLSNone : Z := 0.
Definition TLSEncrypted : Z := 1.
Definition TLSAuthenticated : Z := 2.
Definition MXNone : Z := 0.
Definition MX_MTASTS : Z := 1.
Definition MX_DNSSEC : Z := 2.

Definition TLSLevel_String (l : Z) : string :=
  if l =? TLSNone then "none" else if l =? TLSEncrypted then "encrypted"
  else if l =? TLSAuthenticated then "authenticated" else "???".
Definition MXLevel_String (l : Z) : string :=
  if l =? MXNone then "none" else if l =? MX_MTASTS then "mtasts" else if l =? MX_DNSSEC then "dnssec" else "???".

Section MXAuth.
Context `{Textproto} {W : Type} `{!SmtpLib W} `{!DnsLib W}.

(** tls.ConnectionState; [ts_VerifiedChains] is whether the field is not nil. *)
Record tls_state := mkTLSState {
  ts_HandshakeComplete : bool;
  ts_ServerName : string;
  ts_PeerCertificates : list Cert;
  ts_VerifiedChains : bool
}.

(** module.DeliveryMXAuthPolicy *)
Record policy := mkPolicy {
  pol_PrepareDomain : string -> Prog W unit;
  pol_PrepareConn : string -> Prog W unit;
  pol_CheckMX : Z -> string -> string -> bool -> Prog W (Z * error);
  pol_CheckConn : Z -> Z -> string -> string -> tls_state -> Prog W (Z * error);
  pol_Reset : Prog W unit
}.
Definition nothing : Prog W unit := mret tt.

(** ** MTA-STS *)

(** mtasts.Policy of go-mtasts *)
Record sts_policy := mkSTS { sts_Enforce : bool; sts_Match : string -> bool }.

(** The future a delivery object keeps, and what getting it gives: the result of the
    lookup started for that name, or the error of the context. *)
Class PolicyWorld := {
  sts_fut : W -> option string;
  sts_set : option string -> W -> W;
  sts_get : string -> Prog W (Result gerror sts_policy);
  tlsa_fut : W -> option string;
  tlsa_set : option string -> W -> W;
  tlsa_wait : error;            (* the error of the context while waiting, if any *)
  tlsa_Verify : TLSA -> Cert -> bool;                 (* TLSA.Verify gives no error *)
  cert_IsCA : Cert -> bool;
  x509_Verify : Cert -> string -> list Cert -> list Cert -> bool  (* name, roots, intermediates *)
}.
Context `{!PolicyWorld}.

Definition nil_future {A} : Prog W A := panic "nil future used".
Definition await_sts : Prog W (Result gerror sts_policy) := fun w =>
  match sts_fut w with Some domain => sts_get domain w | None => nil_future w end.

Definition mtasts_CheckMX (mx : string) : Prog W (Z * error) :=
  p ← await_sts;
  match p with
  | Err _ => mret (MXNone, None)
  | Ok p =>
    if negb (sts_Match p mx) then
      if sts_Enforce p then
        mret (MXNone, Some (smtp_error 550 (Ench 5 7 0) "Failed to establish the MX record authenticity (MTA-STS)" None))
      else mret (MXNone, None)
    else mret (MX_MTASTS, None)
  end.
Definition mtasts_CheckConn (tlsLevel : Z) (st : tls_state) : Prog W (Z * error) :=
  p ← await_sts;
  match p with
  | Err _ => mret (TLSNone, None)
  | Ok p =>
    if negb (sts_Enforce p) then mret (TLSNone, None)
    else if negb (ts_HandshakeComplete st) then
      mret (TLSNone, Some (smtp_error 451 (Ench 4 7 1) "TLS is required but unavailable or failed (MTA-STS)" None))
    else if negb (ts_VerifiedChains st) then
      mret (TLSNone, Some (ESMTP 451 (Ench 4 7 1)
        "Recipient server TLS certificate is not trusted but authentication is required by MTA-STS" "" "" "" "" None
        {[ "tls_level" := FStr (TLSLevel_String tlsLevel) ]}))
    else mret (TLSNone, None)
  end.
Definition mtasts_policy : policy :=
  mkPolicy (fun domain => modify (sts_set (Some domain))) (fun _ => nothing)
    (fun _ _ mx _ => mtasts_CheckMX mx) (fun _ tlsLevel _ _ st => mtasts_CheckConn tlsLevel st) (modify (sts_set None)).

(** The deprecated STS preload list *)
Definition preload_policy : policy :=
  mkPolicy (fun _ => nothing) (fun _ => nothing) (fun mxLevel _ _ _ => mret (mxLevel, None))
    (fun _ tlsLevel _ _ _ => mret (tlsLevel, None)) nothing.

(** ** DNSSEC *)

Definition dnssec_CheckMX (dnssec : bool) : Prog W (Z * error) :=
  mret (if dnssec then MX_DNSSEC else MXNone, None).
Definition dnssec_policy : policy :=
  mkPolicy (fun _ => nothing) (fun _ => nothing) (fun _ _ _ dnssec => dnssec_CheckMX dnssec)
    (fun _ _ _ _ _ => mret (TLSNone, None)) nothing.

(** ** DANE *)

Definition dane_error (code : Z) (ench : EnhancedCode) (msg server : string) : gerror :=
  ESMTP code ench msg "" "remote" "" "" None {[ "remote_server" := FStr server ]}.

(** The usable records of a usage *)
Definition usable (usage : Z) (rec : TLSA) : bool :=
  (0 <=? tlsa_MatchingType rec) && (tlsa_MatchingType rec <=? 2) &&
  (0 <=? tlsa_Selector rec) && (tlsa_Selector rec <=? 1) && (tlsa_Usage rec =? usage).
Definition eeRecs (recs : list TLSA) : list TLSA := filter (fun r => usable 3 r = true) recs.
Definition taRecs (recs : list TLSA) : list TLSA := filter (fun r => usable 2 r = true) recs.

(** The certificates that go to the pool of roots *)
Definition is_root (ta : list TLSA) (cert : Cert) : bool :=
  existsb (fun rec => cert_IsCA cert && tlsa_Verify rec cert) ta.

Definition verifyDANE (recs : list TLSA) (st : tls_state) : Outcome (bool * error) :=
  let no_match := dane_error 550 (Ench 5 7 0) "No matching TLSA records" (ts_ServerName st) in
  match recs with
  | [] => Done (false, None)
  | _ =>
    if negb (ts_HandshakeComplete st) then
      Done (false, Some (dane_error 550 (Ench 5 7 1) "TLS is required but unsupported or failed (enforced by DANE)" (ts_ServerName st)))
    else
      let ee := eeRecs recs in
      let ta := taRecs recs in
      match ee, ta with
      | [], [] => Done (false, None)
      | _, _ =>
        match ts_PeerCertificates st with
        | [] => Panicked "index out of range [0] with length 0"
        | leaf :: _ =>
          if existsb (fun rec => tlsa_Verify rec leaf) ee then Done (true, None)
          else match ta with
          | [] => Done (true, Some no_match)
          | _ =>
            let roots := List.filter (is_root ta) (ts_PeerCertificates st) in
            let intermediates := List.filter (fun c => negb (is_root ta c)) (ts_PeerCertificates st) in
            if x509_Verify leaf (ts_ServerName st) roots intermediates then Done (true, None)
            else Done (false, Some no_match)
          end
        end
      end
  end.

(** discoverTLSA *)
Definition discoverTLSA (res : ExtResolver) (smtpPort mx : string) : Prog W (Result gerror (list TLSA)) :=
  let at_mx : Prog W (Result gerror (list TLSA)) :=
    '(ad, recs, err) ← AuthLookupTLSA res smtpPort "tcp" mx;
    match err with
    | Some e => if IsNotFound (Some e) then mret (Ok []) else mret (Err e)
    | None => mret (Ok (if (ad : bool) then recs else []))
    end in
  let at_rname rname : Prog W (Result gerror (list TLSA)) :=
    if decide (rname = mx) then at_mx
    else
      '(ad, recs, err) ← AuthLookupTLSA res smtpPort "tcp" rname;
      match err with
      | Some e => if IsNotFound (Some e) then at_mx else mret (Err e)
      | None => if (ad : bool) && negb (bool_decide (recs = [])) then mret (Ok recs) else at_mx
      end in
  '(adA, rname, err) ← CheckCNAMEAD res mx;
  match err with
  | Some e => mret (Err e)
  | None =>
    if decide (rname = "") then mret (Err (ENew "no address associated with the host"))
    else if (adA : bool) then at_rname rname
    else if decide (rname = mx) then mret (Ok [])
    else
      '(cnameAD, _, err) ← AuthLookupCNAME res mx;
      match err with
      | Some e => mret (Err e)
      | None => if (cnameAD : bool) then at_rname rname else mret (Ok [])
      end
  end.

(** danePolicy; [None] is the resolver that could not be set up. *)
Record danePolicy := mkDane { dp_extResolver : option ExtResolver; dp_smtpPort : string }.

Definition dane_PrepareConn (c : danePolicy) (mx : string) : Prog W unit :=
  match dp_extResolver c with None => nothing | Some _ => modify (tlsa_set (Some (dns_Fqdn mx))) end.
Definition await_tlsa (c : danePolicy) (res : ExtResolver) : Prog W (Result gerror (list TLSA)) := fun w =>
  match tlsa_fut w with
  | None => nil_future w
  | Some mx => match tlsa_wait with Some e => (w, Done (Err e)) | None => discoverTLSA res (dp_smtpPort c) mx w end
  end.
Definition dane_CheckConn (c : danePolicy) (st : tls_state) : Prog W (Z * error) :=
  match dp_extResolver c with
  | None => mret (TLSNone, None)
  | Some res =>
    recs ← await_tlsa c res;
    match recs with
    | Err e => if IsNotFound (Some e) then mret (TLSNone, None) else mret (TLSNone, Some (WithTemporary (Some e) true))
    | Ok recs =>
      match verifyDANE recs st with
      | Panicked why => panic why
      | Done (_, Some e) => mret (TLSNone, Some e)
      | Done (overridePKIX, None) => mret (if (overridePKIX : bool) then TLSAuthenticated else TLSNone, None)
      end
    end
  end.
Definition dane_policy (c : danePolicy) : policy :=
  mkPolicy (fun _ => nothing) (dane_PrepareConn c) (fun _ _ _ _ => mret (MXNone, None))
    (fun _ _ _ _ st => dane_CheckConn c st) nothing.

(** ** Local policy *)

Record localPolicy := mkLocal { lp_minTLSLevel : Z; lp_minMXLevel : Z }.

Definition local_CheckMX (l : localPolicy) (mxLevel : Z) : Prog W (Z * error) :=
  if mxLevel <? lp_minMXLevel l then
    mret (MXNone, Some (ESMTP 451 (Ench 4 7 0) "Failed to establish the MX record authenticity" "" "" "" "" None
      (<["required_mx_level" := FStr (MXLevel_String (lp_minMXLevel l))]> {[ "mx_level" := FStr (MXLevel_String mxLevel) ]})))
  else mret (MXNone, None).
Definition local_CheckConn (l : localPolicy) (tlsLevel : Z) : Prog W (Z * error) :=
  if tlsLevel <? lp_minTLSLevel l then
    mret (TLSNone, Some (ESMTP 451 (Ench 4 7 1) "TLS it not available or unauthenticated but required" "" "" "" "" None
      (<["required_tls_level" := FStr (TLSLevel_String (lp_minTLSLevel l))]> {[ "tls_level" := FStr (TLSLevel_String tlsLevel) ]})))
  else mret (TLSNone, None).
Definition local_policy (l : localPolicy) : policy :=
  mkPolicy (fun _ => nothing) (fun _ => nothing) (fun mxLevel _ _ _ => local_CheckMX l mxLevel)
    (fun _ tlsLevel _ _ _ => local_CheckConn l tlsLevel) nothing.
(** The levels of localPolicy.Init, by the values its Enum directives allow *)
Definition local_Init (minTLSLevel minMXLevel : string) : localPolicy :=
  mkLocal (if decide (minTLSLevel = "encrypted") then TLSEncrypted
           else if decide (minTLSLevel = "authenticated") then TLSAuthenticated else TLSNone)
          (if decide (minMXLevel = "mtasts") then MX_MTASTS
           else if decide (minMXLevel = "dnssec") then MX_DNSSEC else MXNone).
End MXAuth.

(** ** The order of the policies (PolicyGroup.Init) *)

Definition policy_names : list string := ["mtasts"; "sts_preload"; "dane"; "dnssec"; "local_policy"].
Section Group.
Context {P : Type}.
(** One block: [None] is a duplicate. *)
Fixpoint add_policies (blocks : list (string * P)) (pols : gmap string P) : Result string (gmap string P) :=
  match blocks with
  | [] => Ok pols
  | (name, p) :: blocks =>
    match pols !! name with
    | Some _ => Err name
    | None => add_policies blocks (<[name := p]> pols)
    end
  end.
Definition ordered (pols : gmap string P) : list P := omap (fun name => pols !! name) policy_names.
End Group.
