(* ===== verification/Dsn.v ===== *)
(** * Dsn: internal/dsn and internal/target/received.go

    The text of bounces: the fields about the reporting MTA and about each recipient,
    the parts of the report, and the Received field.  Headers and multipart messages
    are those of go-message; times are nanoseconds and their formats parameters. *)
From S2P Require Import Prelude GoStr GoText ExtErrors Address Checks Module.
From Stdlib Require Import Ascii ZifyBool.

Local Open Scope Z_scope.

Definition time_zero : Z := -62135596800 * 1000000000.

Record dsn_Envelope := mkEnvelope { de_MsgID : string; de_From : string; de_To : string }.
Record dsn_ReportingMTAInfo := mkMTAInfo {
  di_ReportingMTA : string;
  di_ReceivedFromMTA : string;
  di_XSender : string;
  di_XMessageID : string;
  di_ArrivalDate : Z;
  di_LastAttemptDate : Z
}.
Definition ActionFailed : string := "failed".
Definition ActionDelayed : string := "delayed".
Definition ActionDelivered : string := "delivered".
Definition ActionRelayed : string := "relayed".
Definition ActionExpanded : string := "expanded".
(** [dr_DiagnosticCode] is [None] for a nil error. *)
Record dsn_RecipientInfo := mkRcptInfo {
  dr_FinalRecipient : string;
  dr_RemoteMTA : string;
  dr_Action : string;
  dr_Status : EnhancedCode;
  dr_DiagnosticCode : error
}.

Section Dsn.
Context `{Textproto} `{UnicodeTables} `{TextLib} (FormatTime : Z -> string).

Notation field := (string * string)%type.
Definition conv_failed (what : string) (err : gerror) : gerror :=
  wrapf ("dsn: cannot convert " +:+ what +:+ " to a suitable representation") err.
(** A converted value, or the error *)
Definition converted (what : string) (r : string * error) : Result gerror string :=
  match r with (_, Some err) => Err (conv_failed what err) | (v, None) => Ok v end.
(** An optional field *)
Definition opt_field (value : string) (f : Result gerror field) : Result gerror (list field) :=
  if decide (value = "") then Ok [] else match f with Ok f => Ok [f] | Err e => Err e end.

(** The fields ReportingMTAInfo.WriteTo adds, in order *)
Definition mta_fields (utf8 : bool) (info : dsn_ReportingMTAInfo) : Result gerror (list field) :=
  if decide (di_ReportingMTA info = "") then Err (ENew "dsn: Reporting-MTA field is mandatory")
  else
    reportingMTA ← converted "Reporting-MTA" (dns_SelectIDNA utf8 (di_ReportingMTA info));
    from ← opt_field (di_ReceivedFromMTA info)
      (v ← converted "Received-From-MTA" (dns_SelectIDNA utf8 (di_ReceivedFromMTA info)); Ok ("Received-From-MTA", "dns; " +:+ v));
    sender ← opt_field (di_XSender info)
      (v ← converted "X-Maddy-Sender" (SelectIDNA utf8 (di_XSender info));
       Ok ("X-Maddy-Sender", (if utf8 then "utf8; " else "rfc822; ") +:+ v));
    id ← opt_field (di_XMessageID info) (Ok ("X-Maddy-MsgID", di_XMessageID info));
    Ok ([("Reporting-MTA", "dns; " +:+ reportingMTA)] ++ from ++ sender ++ id ++
        (if decide (di_ArrivalDate info = time_zero) then []
         else [("Arrival-Date", FormatTime (di_ArrivalDate info)); ("Last-Attempt-Date", FormatTime (di_LastAttemptDate info))])).

(** fmt "%d.%d.%d" *)
Definition show_ench (e : EnhancedCode) : string :=
  FormatInt (ec0 e) +:+ "." +:+ FormatInt (ec1 e) +:+ "." +:+ FormatInt (ec2 e).
Definition no_breaks (s : string) : string := ReplaceByte (ReplaceByte s LF " "%char) CR " "%char.
Definition space : string := " ".

(** The Diagnostic-Code: a nil error is dereferenced when the report is in UTF-8. *)
Definition diagnostic (utf8 : bool) (d : error) : Outcome (list field) :=
  match d with
  | Some (EGoSMTP code ench msg _) =>
    Done [("Diagnostic-Code", "smtp; " +:+ FormatInt code +:+ space +:+ show_ench ench +:+ space +:+ no_breaks msg)]
  | Some err => Done (if utf8 then [("Diagnostic-Code", "X-Maddy; " +:+ no_breaks (Error err))] else [])
  | None => if utf8 then Panicked "invalid memory address or nil pointer dereference" else Done []
  end.

(** The fields RecipientInfo.WriteTo adds *)
Definition recipient_fields (utf8 : bool) (info : dsn_RecipientInfo) : Outcome (Result gerror (list field)) :=
  if decide (dr_FinalRecipient info = "") then Done (Err (ENew "dsn: Final-Recipient is required"))
  else match converted "Final-Recipient" (SelectIDNA utf8 (dr_FinalRecipient info)) with
  | Err e => Done (Err e)
  | Ok finalRcpt =>
    if decide (dr_Action info = "") then Done (Err (ENew "dsn: Action is required"))
    else if ec0 (dr_Status info) =? 0 then Done (Err (ENew "dsn: Status is required"))
    else
      diag ← diagnostic utf8 (dr_DiagnosticCode info);
      Done (remote ← opt_field (dr_RemoteMTA info)
              (v ← converted "Remote-MTA" (dns_SelectIDNA utf8 (dr_RemoteMTA info)); Ok ("Remote-MTA", "dns; " +:+ v));
            Ok ([("Final-Recipient", (if utf8 then "utf8; " else "rfc822; ") +:+ finalRcpt); ("Action", dr_Action info);
                 ("Status", show_ench (dr_Status info))] ++ diag ++ remote))
  end.

Definition add_fields (h : header) (l : list field) : header := foldl (fun h f => hdr_Add h f.1 f.2) h l.

(** ** The report *)

(** go-message: a multipart writer over the writer of the body; a part is written by
    WriteHeader and Write. *)
Context {W : Type}.
Record Multipart := mkMultipart {
  mp_part : Type;
  mp_Boundary : string;
  mp_CreatePart : header -> Prog W (Result gerror mp_part);
  mp_WriteHeader : mp_part -> header -> Prog W error;
  mp_Write : mp_part -> string -> Prog W error;
  mp_Close : Prog W unit;
  mp_Now : Prog W Z
}.
(** [String_time] is Time.String. *)
Context (mp : Multipart) (String_time : Z -> string).

Definition mta_WriteTo (utf8 : bool) (info : dsn_ReportingMTAInfo) (w : mp_part mp) : Prog W error :=
  match mta_fields utf8 info with
  | Err e => mret (Some e)
  | Ok fs => mp_WriteHeader mp w (add_fields hdr_empty fs)
  end.
Definition recipient_WriteTo (utf8 : bool) (info : dsn_RecipientInfo) (w : mp_part mp) : Prog W error :=
  match recipient_fields utf8 info with
  | Panicked why => panic why
  | Done (Err e) => mret (Some e)
  | Done (Ok fs) => mp_WriteHeader mp w (add_fields hdr_empty fs)
  end.
Fixpoint each {A} (f : A -> Prog W error) (l : list A) : Prog W error :=
  match l with
  | [] => mret None
  | a :: l => r ← f a; match r with Some e => mret (Some e) | None => each f l end
  end.

Definition writeHeader (utf8 : bool) (h : header) : Prog W error :=
  let partHeader := add_fields hdr_empty
    [("Content-Description", "Undelivered message header");
     ("Content-Type", if utf8 then "message/global-headers" else "message/rfc822-headers");
     ("Content-Transfer-Encoding", "8bit")] in
  w ← mp_CreatePart mp partHeader;
  match w with Err e => mret (Some e) | Ok w => mp_WriteHeader mp w h end.

Definition writeMachineReadablePart (utf8 : bool) (mtaInfo : dsn_ReportingMTAInfo) (rcptsInfo : list dsn_RecipientInfo) : Prog W error :=
  let machineHeader := add_fields hdr_empty
    [("Content-Type", if utf8 then "message/global-delivery-status" else "message/delivery-status");
     ("Content-Description", "Delivery report")] in
  w ← mp_CreatePart mp machineHeader;
  match w with
  | Err e => mret (Some e)
  | Ok w =>
    r ← mta_WriteTo utf8 mtaInfo w;
    match r with Some e => mret (Some e) | None => each (fun rcpt => recipient_WriteTo utf8 rcpt w) rcptsInfo end
  end.

(** failedText; the fields are inserted as they are. *)
Definition nl : string := String LF "".
Definition truncate_second (t : Z) : Z := (t - time_zero) / 1000000000 * 1000000000 + time_zero.
Definition failedText (info : dsn_ReportingMTAInfo) : string :=
  nl +:+ "This is the mail delivery system at " +:+ di_ReportingMTA info +:+ "." +:+ nl +:+ nl +:+
  "Unfortunately, your message could not be delivered to one or more" +:+ nl +:+
  "recipients. The usual cause of this problem is invalid" +:+ nl +:+
  "recipient address or maintenance at the recipient side." +:+ nl +:+ nl +:+
  "Contact the postmaster for further assistance, provide the Message ID (below):" +:+ nl +:+ nl +:+
  "Message ID: " +:+ di_XMessageID info +:+ nl +:+
  "Arrival: " +:+ String_time (truncate_second (di_ArrivalDate info)) +:+ nl +:+
  "Last delivery attempt: " +:+ String_time (truncate_second (di_LastAttemptDate info)) +:+ nl +:+ nl.
Definition show_error (d : error) : string := match d with Some e => Error e | None => "<nil>" end.
Definition writeHumanReadablePart (mtaInfo : dsn_ReportingMTAInfo) (rcptsInfo : list dsn_RecipientInfo) : Prog W error :=
  let humanHeader := add_fields hdr_empty
    [("Content-Transfer-Encoding", "8bit"); ("Content-Type", "text/plain; charset=" +:+ dquote +:+ "utf-8" +:+ dquote);
     ("Content-Description", "Notification")] in
  w ← mp_CreatePart mp humanHeader;
  match w with
  | Err e => mret (Some e)
  | Ok w =>
    r ← mp_Write mp w (failedText mtaInfo);
    match r with
    | Some e => mret (Some e)
    | None => each (fun rcpt => mp_Write mp w ("Delivery to " +:+ dr_FinalRecipient rcpt +:+ " failed with error: " +:+
                                              show_error (dr_DiagnosticCode rcpt) +:+ nl)) rcptsInfo
    end
  end.

(** The deferred Close runs also when a part panics. *)
Definition close_after {A} (m : Prog W A) : Prog W A := fun w =>
  let '(w, o) := m w in let '(w, c) := mp_Close mp w in (w, match c with Done _ => o | Panicked why => Panicked why end).
Definition GenerateDSN (utf8 : bool) (envelope : dsn_Envelope) (mtaInfo : dsn_ReportingMTAInfo) (rcptsInfo : list dsn_RecipientInfo)
  (failedHeader : header) : Prog W (header * error) :=
  now ← mp_Now mp;
  let reportHeader := add_fields hdr_empty
    [("Date", FormatTime now); ("Message-Id", de_MsgID envelope); ("Content-Transfer-Encoding", "8bit");
     ("Content-Type", "multipart/report; report-type=delivery-status; boundary=" +:+ mp_Boundary mp);
     ("MIME-Version", "1.0"); ("Auto-Submitted", "auto-replied"); ("To", de_To envelope); ("From", de_From envelope);
     ("Subject", "Undelivered Mail Returned to Sender")] in
  close_after (
    r ← writeHumanReadablePart mtaInfo rcptsInfo;
    match r with
    | Some e => mret (hdr_empty, Some e)
    | None =>
      r ← writeMachineReadablePart utf8 mtaInfo rcptsInfo;
      match r with
      | Some e => mret (hdr_empty, Some e)
      | None => r ← writeHeader utf8 failedHeader; mret (reportHeader, r)
      end
    end).

(** ** received.go *)

Definition SanitizeForHeader (raw : string) : string := DeleteByte raw LF.

(** The connection as GenerateReceived sees it: the IP of a TCP address, and the name the
    lookup of the address gave, when it gave one. *)
Context (rdns : option (Prog W (Result gerror (option string)))) (tcpIP : option string).

Definition if_ok (r : string * error) (f : string -> string) : string := match r with (v, None) => f v | (_, Some _) => "" end.
Definition received_rdns (utf8 : bool) : Prog W string :=
  match rdns with
  | None => mret ""
  | Some get =>
    r ← get;
    mret (match r with
          | Ok (Some name) => if decide (name = "") then "" else if_ok (dns_SelectIDNA utf8 name) (fun encoded => encoded +:+ space)
          | _ => ""
          end)
  end.
Definition received_from (m : MsgMetadata) (conn : ConnState) : Prog W string :=
  let utf8 := mo_UTF8 (mm_SMTPOpts m) in
  if negb (mm_DontTraceSender m) && (GoStr.Contains (cs_Proto conn) "SMTP" || GoStr.Contains (cs_Proto conn) "LMTP") then
    let from := if_ok (dns_SelectIDNA utf8 (cs_Hostname conn)) (fun hostname => "from " +:+ hostname) in
    match tcpIP with
    | None => mret from
    | Some ip => name ← received_rdns utf8; mret (from +:+ " (" +:+ name +:+ "[" +:+ ip +:+ "])")
    end
  else mret "".
Definition received_by (utf8 : bool) (ourHostname : string) : string :=
  if decide (ourHostname = "") then "" else if_ok (dns_SelectIDNA utf8 ourHostname) (fun h => " by " +:+ SanitizeForHeader h).
Definition received_sender (utf8 : bool) (mailFrom : string) : string :=
  if decide (mailFrom = "") then ""
  else if_ok (SelectIDNA utf8 mailFrom) (fun a => " (envelope-sender <" +:+ SanitizeForHeader a +:+ ">)").
(** [now] is the time in RFC1123Z. *)
Definition GenerateReceived (now : Prog W string) (m : MsgMetadata) (ourHostname mailFrom : string)
  : Prog W (Result gerror string) :=
  match mm_Conn m with
  | None => mret (Err (ENew "can't generate Received for a locally generated message"))
  | Some conn =>
    let utf8 := mo_UTF8 (mm_SMTPOpts m) in
    from ← received_from m conn;
    time ← now;
    mret (Ok (TrimSpace (from +:+ received_by utf8 ourHostname +:+ received_sender utf8 mailFrom +:+
      (if decide (cs_Proto conn = "") then "" else " with " +:+ (if utf8 then "UTF8" else "") +:+ cs_Proto conn) +:+
      " id " +:+ mm_ID m +:+ "; " +:+ time)))
  end.
End Dsn.

(** ** No value of a recipient's fields spans lines *)

Section Lines.
Context `{Textproto} `{UnicodeTables} `{TextLib}.

Lemma no_breaks_one_line s : one_line (no_breaks s).
Proof.
  split; [|by apply ReplaceByte_gone]. apply ReplaceByte_other; [done|]. by apply ReplaceByte_gone.
Qed.
Lemma show_ench_one_line e : is_int64 (ec0 e) -> is_int64 (ec1 e) -> is_int64 (ec2 e) -> one_line (show_ench e).
Proof. intros. unfold show_ench. rewrite !one_line_app. split_and!; auto using FormatInt_one_line; by split. Qed.

Definition ench_int64 (e : EnhancedCode) : Prop := is_int64 (ec0 e) /\ is_int64 (ec1 e) /\ is_int64 (ec2 e).
(** A code is an int, three for an enhanced code. *)
Definition codes_fit (d : error) : Prop :=
  match d with Some (EGoSMTP code ench _ _) => is_int64 code /\ ench_int64 ench | _ => True end.

Lemma diagnostic_one_line utf8 d fs : codes_fit d -> diagnostic utf8 d = Done fs -> Forall (fun f => one_line f.2) fs.
Proof.
  intros Hfit E. assert (forall s, one_line ("X-Maddy; " +:+ no_breaks s)) as Hx.
  { intros s. rewrite one_line_app. split; [by split|apply no_breaks_one_line]. }
  assert (forall e, Forall (fun f : string * string => one_line f.2)
            (if utf8 then [("Diagnostic-Code", "X-Maddy; " +:+ no_breaks (Error e))] else [])) as Hany.
  { intros e. destruct utf8; [|constructor]. constructor; [apply Hx|constructor]. }
  destruct d as [e|]; [|cbn in E; destruct utf8; [done|]; injection E as <-; constructor].
  assert (forall x y : list (string * string), Done x = Done y -> x = y) as Hinj by (intros x y Exy; by injection Exy).
  unfold diagnostic in E. destruct e; apply Hinj in E; rewrite <- E; try apply Hany.
  destruct Hfit as (Hc & Ha & Hb & Hd). constructor; [|constructor]. cbn [snd].
  rewrite !one_line_app. split_and!; auto using FormatInt_one_line, show_ench_one_line, no_breaks_one_line; by split.
Qed.
End Lines.
