(* ===== verification/Disk.v ===== *)
(** * Disk: the file operations of package os the queue uses

    A directory whose files hold a value and know whether it has been synced.
    Every operation can fail: [fs_faults] decides, one entry for each operation
    ([None]: no fault; past its end nothing fails).  [fs_history] keeps every
    state the directory went through, newest first, and [crash] relates a state
    to what a machine that stops there can find at the next start: a synced file
    with its content, an unsynced one with any content.  Creating, renaming and
    removing take effect on the directory in program order. *)
From S2P Require Import Prelude GoStr ExtErrors.
From stdpp Require Import sorting.

Section Disk.
(** The values files decode to; [empty] is the content of a new file, [torn] the
    content of one whose write did not complete. *)
Context {C : Type} (empty torn : C).

Record file := mkFile { f_content : C; f_synced : bool }.
Abbreviation disk := (gmap string file).

Record fs := mkFs {
  fs_disk : disk;
  fs_faults : list (option gerror);
  fs_history : list disk
}.

(** The error of a file operation: os.IsNotExist tells the two apart. *)
Inductive os_error := NotExist (name : string) | OsErr (e : gerror).

Definition os_gerror (e : os_error) : gerror :=
  match e with
  | NotExist name => EErrorf (name +:+ ": no such file or directory") None
  | OsErr e => e
  end.
Definition IsNotExist (e : os_error) : bool :=
  match e with NotExist _ => true | OsErr _ => false end.

(** The next fault decision. *)
Definition next_fault : Prog fs error := fun s =>
  match fs_faults s with
  | [] => (s, Done None)
  | f :: rest => (mkFs (fs_disk s) rest (fs_history s), Done f)
  end.

Definition set_disk (d : disk) : Prog fs unit :=
  modify (fun s => mkFs d (fs_faults s) (d :: fs_history s)).

(** [faulty op]: fail with the injected error or run [op] on the directory. *)
Definition faulty {A} (op : disk -> Prog fs (Result os_error A)) : Prog fs (Result os_error A) :=
  e ← next_fault;
  match e with
  | Some e => mret (Err (OsErr e))
  | None => d ← gets fs_disk; op d
  end.

Definition os_err {A} (r : Result os_error A) : error :=
  match r with Ok _ => None | Err e => Some (os_gerror e) end.

Definition os_Create (p : string) : Prog fs (Result os_error unit) :=
  faulty (fun d => set_disk (<[p := mkFile empty false]> d) ;; mret (Ok tt)).

(** Write the whole content of [p]; a crash or a fault can leave part of it. *)
Definition os_Write (p : string) (c : C) : Prog fs (Result os_error unit) :=
  d ← gets fs_disk;
  set_disk (<[p := mkFile torn false]> d) ;;
  faulty (fun d => set_disk (<[p := mkFile c false]> d) ;; mret (Ok tt)).

Definition os_Sync (p : string) : Prog fs (Result os_error unit) :=
  faulty (fun d =>
    set_disk (alter (fun f => mkFile (f_content f) true) p d) ;; mret (Ok tt)).

Definition os_Rename (p q : string) : Prog fs (Result os_error unit) :=
  faulty (fun d =>
    match d !! p with
    | None => mret (Err (NotExist p))
    | Some f => set_disk (<[q := f]> (delete p d)) ;; mret (Ok tt)
    end).

Definition os_Remove (p : string) : Prog fs (Result os_error unit) :=
  faulty (fun d =>
    match d !! p with
    | None => mret (Err (NotExist p))
    | Some _ => set_disk (delete p d) ;; mret (Ok tt)
    end).

Definition os_Stat (p : string) : Prog fs (Result os_error unit) :=
  faulty (fun d =>
    match d !! p with None => mret (Err (NotExist p)) | Some _ => mret (Ok tt) end).

(** Open and read the whole content. *)
Definition os_Read (p : string) : Prog fs (Result os_error C) :=
  faulty (fun d =>
    match d !! p with None => mret (Err (NotExist p)) | Some f => mret (Ok (f_content f)) end).

(** ReadDir returns the entries sorted by name. *)
Definition name_le (a b : string) : Prop := String.leb a b = true.
#[local] Instance name_le_dec : RelDecision name_le.
Proof. intros a b. unfold name_le. apply _. Defined.
Definition dir_names (d : disk) : list string := merge_sort name_le (map fst (map_to_list d)).
Definition os_ReadDir : Prog fs (Result os_error (list string)) :=
  faulty (fun d => mret (Ok (dir_names d))).

(** ** Crashes *)

Definition crash (d d' : disk) : Prop :=
  forall p,
    match d !! p with
    | None => d' !! p = None
    | Some f => exists f', d' !! p = Some f' /\ (f_synced f = true -> f_content f' = f_content f)
    end.

(** The states reached since [s0]: those of [s1]'s history that [s0]'s lacks. *)
Definition states_since (s0 s1 : fs) (d : disk) : Prop :=
  exists new, fs_history s1 = new ++ fs_history s0 /\ d ∈ new.

Lemma crash_synced d d' p c :
  crash d d' -> d !! p = Some (mkFile c true) -> exists f, d' !! p = Some f /\ f_content f = c.
Proof.
  intros Hc Hp. specialize (Hc p). rewrite Hp in Hc. destruct Hc as (f' & E & Hs). eauto.
Qed.

Lemma crash_absent d d' p : crash d d' -> d !! p = None -> d' !! p = None.
Proof. intros Hc Hp. specialize (Hc p). by rewrite Hp in Hc. Qed.

Lemma crash_refl d : crash d d.
Proof. intros p. destruct (d !! p) eqn:E; eauto. Qed.

(** ** Every state satisfies a property

    [wp I m Q d]: run from the directory [d], with any faults, the program
    returns, every directory it goes through satisfies [I], and [Q] holds of the
    value returned and the directory left. *)
Definition wp {A} (I : disk -> Prop) (m : Prog fs A) (Q : A -> disk -> Prop) (d : disk) : Prop :=
  forall s s' o, fs_disk s = d -> m s = (s', o) ->
    (exists new, fs_history s' = new ++ fs_history s /\ Forall I new)
    /\ exists a, o = Done a /\ Q a (fs_disk s').

Lemma wp_ret {A} I (a : A) Q d : Q a d -> wp I (mret a) Q d.
Proof. intros HQ s s' o <- E. cbv in E. simplify_eq. split; [by exists []|eauto]. Qed.

Lemma wp_bind {A B} I (m : Prog fs A) (f : A -> Prog fs B) Q d :
  wp I m (fun a d' => wp I (f a) Q d') d -> wp I (m ≫= f) Q d.
Proof.
  intros Hm s s' o Hd E. unfold mbind, prog_bind in E.
  destruct (m s) as [s1 o1] eqn:Em. destruct (Hm _ _ _ Hd Em) as ((n1 & H1 & I1) & a & -> & Hf).
  destruct (Hf _ _ _ eq_refl E) as ((n2 & H2 & I2) & b & -> & HQ).
  split; [|eauto]. exists (n2 ++ n1). rewrite H2, H1, app_assoc. split; [done|by apply Forall_app].
Qed.

Lemma wp_weaken {A} I (m : Prog fs A) (Q Q' : A -> disk -> Prop) d :
  wp I m Q' d -> (forall a d', Q' a d' -> Q a d') -> wp I m Q d.
Proof.
  intros Hm HQ s s' o Hd E. destruct (Hm _ _ _ Hd E) as (HI & a & -> & Ha). eauto 10.
Qed.

Lemma wp_gets {A} I (f : fs -> A) Q d :
  (forall s, fs_disk s = d -> Q (f s) d) -> wp I (gets f) Q d.
Proof.
  intros HQ s s' o Hd E. cbv [gets] in E. simplify_eq. split; [by exists []|].
  eexists. split; [done|]. by apply HQ.
Qed.

Lemma wp_set_disk I d' Q d : I d' -> Q tt d' -> wp I (set_disk d') Q d.
Proof.
  intros HI HQ s s' o Hd E. cbv [set_disk modify] in E. simplify_eq/=.
  split; [|eauto]. exists [d']. split; [done|by apply Forall_singleton].
Qed.

Lemma wp_faulty {A} I (op : disk -> Prog fs (Result os_error A)) Q d :
  (forall e, Q (Err (OsErr e)) d) -> wp I (op d) Q d -> wp I (faulty op) Q d.
Proof.
  intros He Hop. apply wp_bind. intros s s' o Hd E. unfold next_fault in E.
  destruct (fs_faults s) as [|[f|] rest]; simplify_eq/=; (split; [by exists []|]);
    (eexists; split; [done|]); simpl.
  - apply wp_bind, wp_gets. by intros ? ->.
  - by apply wp_ret.
  - apply wp_bind, wp_gets. by intros ? ->.
Qed.

Lemma wp_Create I p Q d :
  (forall e, Q (Err (OsErr e)) d) -> I (<[p := mkFile empty false]> d) ->
  Q (Ok tt) (<[p := mkFile empty false]> d) -> wp I (os_Create p) Q d.
Proof. intros. apply wp_faulty; [done|]. by apply wp_bind, wp_set_disk; [|apply wp_ret]. Qed.

Lemma wp_Write I p c Q d :
  let torn_d := <[p := mkFile torn false]> d in
  I torn_d -> (forall e, Q (Err (OsErr e)) torn_d) ->
  I (<[p := mkFile c false]> d) -> Q (Ok tt) (<[p := mkFile c false]> d) ->
  wp I (os_Write p c) Q d.
Proof.
  intros td Ht He HI HQ. apply wp_bind, wp_gets. intros s <-. apply wp_bind, wp_set_disk; [done|].
  apply wp_faulty; [done|]. apply wp_bind. rewrite insert_insert_eq.
  by apply wp_set_disk; [|apply wp_ret].
Qed.

Definition sync_at (p : string) (d : disk) : disk :=
  alter (fun f => mkFile (f_content f) true) p d.

Lemma wp_Sync I p Q d :
  (forall e, Q (Err (OsErr e)) d) -> I (sync_at p d) -> Q (Ok tt) (sync_at p d) ->
  wp I (os_Sync p) Q d.
Proof. intros. apply wp_faulty; [done|]. by apply wp_bind, wp_set_disk; [|apply wp_ret]. Qed.

Lemma wp_Rename I p q f Q d :
  d !! p = Some f -> (forall e, Q (Err (OsErr e)) d) ->
  I (<[q := f]> (delete p d)) -> Q (Ok tt) (<[q := f]> (delete p d)) ->
  wp I (os_Rename p q) Q d.
Proof.
  intros Hp ???. apply wp_faulty; [done|]. rewrite Hp.
  by apply wp_bind, wp_set_disk; [|apply wp_ret].
Qed.

Lemma wp_Remove I p Q d :
  (forall e, Q (Err e) d) -> I (delete p d) -> Q (Ok tt) (delete p d) -> wp I (os_Remove p) Q d.
Proof.
  intros. apply wp_faulty; [done|]. destruct (d !! p); [|by apply wp_ret].
  by apply wp_bind, wp_set_disk; [|apply wp_ret].
Qed.

Lemma wp_Stat I p Q d :
  (forall e, Q (Err (OsErr e)) d) -> (d !! p = None -> Q (Err (NotExist p)) d) ->
  (is_Some (d !! p) -> Q (Ok tt) d) -> wp I (os_Stat p) Q d.
Proof. intros. apply wp_faulty; [done|]. destruct (d !! p); apply wp_ret; eauto. Qed.

Lemma wp_Read I p Q d :
  (forall e, Q (Err (OsErr e)) d) -> (d !! p = None -> Q (Err (NotExist p)) d) ->
  (forall f, d !! p = Some f -> Q (Ok (f_content f)) d) -> wp I (os_Read p) Q d.
Proof. intros. apply wp_faulty; [done|]. destruct (d !! p); apply wp_ret; eauto. Qed.

Lemma wp_ReadDir I Q d :
  (forall e, Q (Err (OsErr e)) d) -> Q (Ok (dir_names d)) d -> wp I os_ReadDir Q d.
Proof. intros. apply wp_faulty; [done|]. by apply wp_ret. Qed.
End Disk.
