(* ===== verification/Buffers.v ===== *)
(** * Buffers: framework/buffer and the buffer modes of the SMTP endpoint

    Where the text of a message waits for its delivery: the buffers in memory and in a
    file, the functions that fill them from an io.Reader, and the modes the buffer
    directive of internal/endpoint/smtp/smtp.go chooses from.  Files are those of Disk,
    with strings as their contents. *)
From S2P Require Import Prelude GoStr ExtErrors Config ConfigParser ConfigMap Module Disk.
From Stdlib Require Import ZifyBool.

Local Open Scope Z_scope.

(** ** Readers

    A reader is the script of the data it has: a Read gives at most one of its chunks, and
    the error that ends it comes alone or with the last of the data.  Of the errors the
    code compares with, io.EOF ends a whole message, and a reader may itself end with
    io.ErrUnexpectedEOF: that of a DATA command does when the connection is lost. *)
Inductive read_error := EOF | ErrUnexpectedEOF | ReadErr (e : gerror).
Inductive Reader :=
| Failing (e : read_error)
| Chunk (data : string) (r : Reader)
| Last (data : string) (e : read_error).

Notation len s := (Z.of_nat (String.length s)).

(** Read of a slice of [n] bytes *)
Definition Read (r : Reader) (n : Z) : Reader * string * option read_error :=
  match r with
  | Failing e => (r, "", Some e)
  | Chunk data r' => if len data <=? n then (r', data, None) else (Chunk (str_drop (Z.to_nat n) data) r', str_take (Z.to_nat n) data, None)
  | Last data e => if len data <=? n then (Failing e, data, Some e) else (Last (str_drop (Z.to_nat n) data) e, str_take (Z.to_nat n) data, None)
  end.
(** The error of a read that is not io.EOF *)
Definition reader_err (e : read_error) : error :=
  match e with EOF => None | ErrUnexpectedEOF => Some (ENew "unexpected EOF") | ReadErr e => Some e end.
(** What a reader holds, and how it ends *)
Fixpoint contents (r : Reader) : string :=
  match r with Failing _ => "" | Chunk data r => data +:+ contents r | Last data _ => data end.
Fixpoint ending (r : Reader) : read_error :=
  match r with Failing e | Last _ e => e | Chunk _ r => ending r end.

(** The loop of io.ReadAtLeast over a slice of [n] bytes; after a chunk that fits
    another Read follows. *)
Fixpoint read_loop (r : Reader) (n : Z) : Reader * string * option read_error :=
  if n <=? 0 then (r, "", None)
  else
    match r with
    | Chunk data r' =>
      if len data <=? n then let '(r', rest, err) := read_loop r' (n - len data) in (r', data +:+ rest, err)
      else Read r n
    | _ => Read r n
    end.
Inductive full_error := FullEOF | UnexpectedEOF | FullErr (e : gerror).
(** io.ReadFull: an error of the reader other than io.EOF is returned as it is. *)
Definition ReadFull (r : Reader) (n : Z) : Reader * string * option full_error :=
  let '(r, data, err) := read_loop r n in
  (r, data,
   if n <=? len data then None
   else match err with
        | None => None
        | Some EOF => Some (if 0 <? len data then UnexpectedEOF else FullEOF)
        | Some ErrUnexpectedEOF => Some UnexpectedEOF
        | Some (ReadErr e) => Some (FullErr e)
        end).
(** io.ReadAll *)
Definition ReadAll (r : Reader) : Result gerror string :=
  match reader_err (ending r) with None => Ok (contents r) | Some e => Err e end.
(** io.MultiReader of the bytes read and the reader they come from *)
Definition MultiReader (initial : string) (r : Reader) : Reader := Chunk initial r.

(** ** BytesReader *)

Record BytesReader := mkBytesReader { br_value : string; br_pos : Z }.
Definition NewBytesReader (b : string) : BytesReader := mkBytesReader b 0.
Definition br_Size (br : BytesReader) : Z := len (br_value br).
Definition br_Len (br : BytesReader) : Z := if br_Size br <=? br_pos br then 0 else br_Size br - br_pos br.
Definition br_Bytes (br : BytesReader) : string := str_drop (Z.to_nat (br_Size br - br_Len br)) (br_value br).
Definition br_Copy (br : BytesReader) : BytesReader := NewBytesReader (br_Bytes br).

(** ** The buffers *)

Definition hex_EncodeToString (l : list Z) : string := of_bytes (l ≫= (fun b => [hex_digit (b / 16); hex_digit (b mod 16)])).

Section Buffers.
(** The content of a file whose write did not complete; the longest slice that make accepts *)
Context (torn : string) (maxAlloc : Z).
Notation bfs := (fs (C := string)).

Definition Buffer_Open (b : Buffer) : Prog bfs (Result os_error string) :=
  match b with MemoryBuffer slice => mret (Ok slice) | FileBuffer path _ => os_Read path end.
Definition Buffer_Len (b : Buffer) : Prog bfs Z :=
  match b with
  | MemoryBuffer slice => mret (len slice)
  | FileBuffer path lenHint =>
    if negb (lenHint =? 0) then mret lenHint
    else r ← os_Read path; mret (match r with Err _ => 0 | Ok content => len content end)
  end.
Definition Buffer_Remove (b : Buffer) : Prog bfs (Result os_error unit) :=
  match b with MemoryBuffer _ => mret (Ok tt) | FileBuffer path _ => os_Remove path end.

Definition BufferInMemory (r : Reader) : Prog bfs (Result gerror Buffer) :=
  mret (match ReadAll r with Err err => Err err | Ok blob => Ok (MemoryBuffer blob) end).

Definition buffer_error {A} (what : string) (err : gerror) : Result gerror A :=
  Err (EErrorf ("buffer: failed to " +:+ what +:+ ": " +:+ Error err) None).
(** io.Copy to a file: what was read is written before the error of the reader shows. *)
Definition copy_to (path : string) (r : Reader) : Prog bfs error :=
  w ← os_Write torn path (contents r);
  mret (match w with
        | Err err => Some (os_gerror err)
        | Ok _ => reader_err (ending r)
        end).
Definition os_Close : Prog bfs (Result os_error unit) := faulty (fun _ => mret (Ok tt)).
(** [random] is what crypto/rand gives. *)
Definition BufferInFile (random : Result gerror (list Z)) (r : Reader) (dir : string) : Prog bfs (Result gerror Buffer) :=
  match random with
  | Err err => mret (buffer_error "generate randomness for file name" err)
  | Ok nameBytes =>
    let path := Join dir (hex_EncodeToString nameBytes) in
    f ← os_Create "" path;
    match f with
    | Err err => mret (buffer_error "create file" (os_gerror err))
    | Ok _ =>
      err ← copy_to path r;
      match err with
      | Some err => mret (buffer_error "write file" err)
      | None =>
        c ← os_Close;
        mret (match c with Err err => buffer_error "close file" (os_gerror err) | Ok _ => Ok (FileBuffer path 0) end)
      end
    end
  end.

(** ** The buffer modes of the endpoint *)

Definition autoBufferMode (maxSize : Z) (dir : string) (random : Result gerror (list Z)) (r : Reader) : Prog bfs (Result gerror Buffer) :=
  if (maxSize <? 0) || (maxAlloc <? maxSize) then panic "makeslice: len out of range"
  else
    let '(r, initial, err) := ReadFull r maxSize in
    match err with
    | Some UnexpectedEOF => mret (Ok (MemoryBuffer initial))
    | Some FullEOF => mret (Ok (MemoryBuffer ""))
    | Some (FullErr err) => mret (Err err)
    | None =>
      if len initial <? maxSize then mret (Ok (MemoryBuffer initial))
      else BufferInFile random (MultiReader initial r) dir
    end.
Inductive buffer_mode := ModeRam | ModeFs (path : string) | ModeAuto (maxSize : Z) (path : string).
(** The function the directive gives, applied *)
Definition run_mode (m : buffer_mode) (random : Result gerror (list Z)) (r : Reader) : Prog bfs (Result gerror Buffer) :=
  match m with
  | ModeRam => BufferInMemory r
  | ModeFs path => BufferInFile random r path
  | ModeAuto maxSize path => autoBufferMode maxSize path random r
  end.

Section Directive.
Context `{UnicodeTables} (os_MkdirAll : string -> error) (StateDirectory : string).
Definition default_path : string := Join StateDirectory "buffer".
Definition MiB : Z := 1 * 1024 * 1024.
Definition made {A} (r : Result gerror A) : Result gerror A := match os_MkdirAll default_path with Some err => Err err | None => r end.
Definition bufferModeDirective (node : Node) : Result gerror buffer_mode :=
  match node_Args node with
  | [] => err_node node "at least one argument required"
  | mode :: args =>
    if decide (mode = "ram") then
      match args with [] => Ok ModeRam | _ => err_node node "no additional arguments for 'ram' mode" end
    else if decide (mode = "fs") then
      made match args with
           | [] => Ok (ModeFs default_path)
           | [path] => Ok (ModeFs path)
           | _ => err_node node "too many arguments for 'fs' mode"
           end
    else if decide (mode = "auto") then
      let sized size path := match ParseDataSize size with
                             | Err err => err_node node (Error err)
                             | Ok maxSize => Ok (ModeAuto maxSize path)
                             end in
      made match args with
           | [] => Ok (ModeAuto MiB default_path)
           | [size] => sized size default_path
           | [size; path] => sized size path
           | _ => err_node node "too many arguments for 'auto' mode"
           end
    else err_node node ("unknown buffer mode: " +:+ mode)
  end.
(** The value when the directive is not given *)
Definition default_mode : Result gerror buffer_mode := made (Ok (ModeAuto MiB default_path)).
End Directive.
End Buffers.

(** ** What is read *)

Lemma len_app a b : len (a +:+ b) = len a + len b.
Proof. rewrite str_length_app. lia. Qed.
Lemma len_take n s : 0 <= n <= len s -> len (str_take (Z.to_nat n) s) = n.
Proof.
  intros Hn. enough (H : (Z.to_nat n <= String.length s)%nat -> String.length (str_take (Z.to_nat n) s) = Z.to_nat n) by (rewrite H; lia).
  generalize (Z.to_nat n). clear. induction s as [|a s IH]; intros [|n] H; simpl in *; try lia. rewrite IH; lia.
Qed.

Lemma Read_contents r n r' data err : 0 <= n -> Read r n = (r', data, err) ->
  contents r = data +:+ contents r' /\ ending r = ending r' /\ len data <= n /\
  (forall e, err = Some e -> r' = Failing e).
Proof.
  intros Hn E. destruct r as [e|d r|d e]; cbn [Read] in E; [simplify_eq; cbn; naive_solver lia|..];
    destruct (len d <=? n) eqn:Ed; simplify_eq; cbn [contents ending].
  - repeat split; [lia|done].
  - rewrite <- str_app_assoc, str_take_drop, len_take by lia. repeat split; [lia|done].
  - rewrite str_app_nil_r. repeat split; [lia|by intros ? [= ->]].
  - rewrite str_take_drop, len_take by lia. repeat split; [lia|done].
Qed.

(** The loop of the source: it reads while there is room and no error. *)
Lemma read_loop_eq r n : 0 < n ->
  read_loop r n = let '(r', data, err) := Read r n in
                  match err with
                  | Some _ => (r', data, err)
                  | None => let '(r'', rest, err) := read_loop r' (n - len data) in (r'', data +:+ rest, err)
                  end.
Proof.
  assert (H0 : forall r, read_loop r 0 = (r, "", None)) by (by intros []).
  intros Hn. destruct r as [e|d r|d e]; cbn [read_loop Read]; destruct (n <=? 0) eqn:?; try lia.
  - done.
  - destruct (len d <=? n) eqn:Ed; [done|]. rewrite len_take, Z.sub_diag, H0 by lia. by rewrite str_app_nil_r.
  - destruct (len d <=? n) eqn:Ed; [done|]. rewrite len_take, Z.sub_diag, H0 by lia. by rewrite str_app_nil_r.
Qed.

Lemma read_loop_contents r n r' data err : 0 <= n -> read_loop r n = (r', data, err) ->
  contents r = data +:+ contents r' /\ ending r = ending r' /\ len data <= n /\
  match err with None => len data = n | Some e => r' = Failing e end.
Proof.
  revert n data err. induction r as [e|d r IH|d e]; intros n data err Hn E; cbn [read_loop] in E;
    destruct (n <=? 0) eqn:E0; try (simplify_eq/=; repeat split; done || lia).
  - destruct (len d <=? n) eqn:Ed.
    + destruct (read_loop r (n - len d)) as [[r1 rest] err1] eqn:El. simplify_eq.
      assert (Hd : 0 <= n - len d) by lia. destruct (IH _ _ _ Hd El) as (Hc & He & Hl & Hr). cbn [contents ending]. rewrite len_app, Hc, str_app_assoc, He.
      split; [done|]. split; [done|]. split; [lia|]. destruct err; [done|lia].
    + cbn [Read] in E. rewrite Ed in E. simplify_eq. cbn [contents ending]. rewrite <- str_app_assoc, str_take_drop, len_take by lia.
      repeat split; lia.
  - cbn [Read] in E. destruct (len d <=? n) eqn:Ed; simplify_eq; cbn [contents ending].
    + rewrite str_app_nil_r. repeat split; lia.
    + rewrite str_take_drop, len_take by lia. repeat split; lia.
Qed.

(** What ReadFull returns: the slice is full, or the reader is at its end. *)
Lemma ReadFull_contents r n r' data err : 0 <= n -> ReadFull r n = (r', data, err) ->
  contents r = data +:+ contents r' /\ ending r = ending r' /\
  match err with
  | None => len data = n
  | Some e => len data < n /\ contents r' = "" /\
              match e with
              | FullErr e => ending r = ReadErr e
              | UnexpectedEOF => ending r = EOF \/ ending r = ErrUnexpectedEOF
              | FullEOF => ending r = EOF /\ data = ""
              end
  end.
Proof.
  intros Hn E. unfold ReadFull in E. destruct (read_loop r n) as [[r1 d] e] eqn:El. simplify_eq.
  destruct (read_loop_contents _ _ _ _ _ Hn El) as (Hc & He & Hl & Hr). split; [done|]. split; [done|].
  destruct (n <=? len data) eqn:Ed; [lia|]. destruct e as [e|]; [|lia]. subst r'. rewrite He.
  destruct e as [| |e]; simpl; [|repeat split; try lia; by right|repeat split; lia].
  destruct (0 <? len data) eqn:E0; repeat split; try lia; [by left|]. destruct data; [done|simpl in E0; lia].
Qed.

(** ** A message is buffered whole *)

Section Whole.
Context (torn : string) (maxAlloc : Z).
Notation bfs := (fs (C := string)).

(** The size up to which a mode keeps a message in memory *)
Definition keeps_in_memory (m : buffer_mode) (size : Z) : bool :=
  match m with ModeRam => true | ModeFs _ => false | ModeAuto maxSize _ => size <? maxSize end.
Definition mode_ok (m : buffer_mode) : Prop :=
  match m with ModeAuto maxSize _ => 0 <= maxSize <= maxAlloc | _ => True end.
Definition in_memory (b : Buffer) : bool := match b with MemoryBuffer _ => true | FileBuffer _ _ => false end.
(** The disk, but for the file of the buffer, is as it was. *)
Definition only_file (b : Buffer) (d d' : gmap string (file (C := string))) : Prop :=
  match b with MemoryBuffer _ => d' = d | FileBuffer p _ => forall q, q <> p -> d' !! q = d !! q end.
Definition faultless (s : bfs) : bfs := mkFs (fs_disk s) [] (fs_history s).

(** What can go wrong: the message does not come whole, or the machine fails. *)
Definition troubled (r : Reader) (random : Result gerror (list Z)) (s : bfs) : Prop :=
  ending r <> EOF \/ is_ok random = false \/ Exists is_Some (fs_faults s).

Lemma BufferInFile_outcome random r dir s s' o :
  BufferInFile torn random r dir s = (s', o) ->
  exists res, o = Done res /\
  match res with
  | Ok b => exists p, b = FileBuffer p 0 /\ ending r = EOF /\ fs_disk s' !! p = Some (mkFile (contents r) false)
                      /\ only_file b (fs_disk s) (fs_disk s')
  | Err _ => troubled r random s
  end.
Proof.
  unfold BufferInFile, troubled, only_file. destruct random as [l|e]; [|intros [= <- <-]; eexists; (split; [done|]); by right; left].
  generalize (Join dir (hex_EncodeToString l)). intros p. destruct s as [d faults h].
  cbv [copy_to os_Create os_Write os_Close faulty next_fault set_disk modify gets mbind prog_bind mret prog_ret].
  destruct faults as [|[e1|] [|[e2|] [|[e3|] faults]]], (ending r) as [| |e] eqn:Ee; cbn; rewrite ?Ee; intros E; simplify_eq;
    (eexists; split; [done|]); cbn;
    lazymatch goal with
    | |- exists _, _ => exists p; repeat split; [by rewrite lookup_insert_eq|by intros q Hq; rewrite !lookup_insert_ne]
    | |- _ => first [by left|right; right; rewrite !Exists_cons; naive_solver]
    end.
Qed.

(** The message came whole, or its reader ended with io.ErrUnexpectedEOF before the slice
    of the auto mode was full: the code takes that error, which io.ReadFull also gives for
    a short message, for the end of the message. *)
Definition came_whole (m : buffer_mode) (r : Reader) : Prop :=
  ending r = EOF \/
  ending r = ErrUnexpectedEOF /\ match m with ModeAuto maxSize _ => len (contents r) < maxSize | _ => False end.

(** C32: What a reader gives is buffered whole, in memory or in a file of its own as the
    mode says, and reading the buffer gives it back.  A message whose reader ended with
    an error is refused, but for one: in the auto mode a message shorter than the
    limit whose reader ends with io.ErrUnexpectedEOF (a connection lost in DATA) is
    accepted as far as it came.  Without a failure of the reader, of the machine or of
    its randomness every message is buffered. *)
Theorem buffered_whole (m : buffer_mode) (random : Result gerror (list Z)) (r : Reader) (s s' : bfs) o :
  mode_ok m -> run_mode torn maxAlloc m random r s = (s', o) ->
  exists res, o = Done res /\
  match res with
  | Ok b => came_whole m r /\ in_memory b = keeps_in_memory m (len (contents r))
            /\ (Buffer_Open b (faultless s')).2 = Done (Ok (contents r)) /\ only_file b (fs_disk s) (fs_disk s')
  | Err _ => troubled r random s
  end.
Proof.
  assert (Hfile : forall r' dir, ending r' = ending r -> contents r' = contents r -> keeps_in_memory m (len (contents r)) = false ->
    BufferInFile torn random r' dir s = (s', o) -> exists res, o = Done res /\
    match res with
    | Ok b => came_whole m r /\ in_memory b = keeps_in_memory m (len (contents r))
              /\ (Buffer_Open b (faultless s')).2 = Done (Ok (contents r)) /\ only_file b (fs_disk s) (fs_disk s')
    | Err _ => troubled r random s
    end).
  { intros r' dir He Hc Hm E. destruct (BufferInFile_outcome _ _ _ _ _ _ E) as (res & -> & Hr). exists res. split; [done|].
    unfold troubled in *. rewrite He, Hc in Hr. destruct res as [b|]; [|done]. destruct Hr as (p & -> & H1 & H2 & H3).
    repeat split; [by left|by rewrite Hm| |done]. cbv [Buffer_Open os_Read faulty next_fault faultless gets mbind prog_bind mret prog_ret].
    cbn. by rewrite H2. }
  intros Hok E. destruct m as [|path|maxSize path]; cbn [run_mode] in E; [|by eapply Hfile|].
  - cbv [BufferInMemory ReadAll] in E. destruct (ending r) eqn:Ee; injection E as <- <-; eexists; (split; [done|]); cbn; [|by left; rewrite Ee..].
    by repeat split; [left|..].
  - cbn [mode_ok] in Hok. unfold autoBufferMode in E.
    destruct (_ || _) eqn:Eg; [lia|]. destruct (ReadFull r maxSize) as [[r' initial] err] eqn:Er.
    destruct (ReadFull_contents _ _ _ _ _ (proj1 Hok) Er) as (Hc & He & Hr).
    destruct err as [err|].
    + destruct Hr as (Hl & H0 & Hr). rewrite H0, str_app_nil_r in Hc.
      destruct err as [| |e]; injection E as <- <-; eexists; (split; [done|]); cbn [in_memory keeps_in_memory only_file Buffer_Open].
      * destruct Hr as [Hr ->]. rewrite Hc. repeat split; [by left|cbn in *; lia].
      * rewrite Hc. repeat split; [|lia]. unfold came_whole. rewrite Hc. tauto.
      * left. by rewrite Hr.
    + destruct (len initial <? maxSize) eqn:El; [lia|]. eapply (Hfile (MultiReader initial r')); [..|exact E]; [done|done|].
      cbn [keeps_in_memory]. rewrite Hc, len_app. lia.
Qed.
End Whole.

(** A message in two chunks, that outgrows a buffer of three bytes *)
Definition sample_reader : Reader := Chunk "ab" (Last "cd" EOF).
Definition sample_fs (faults : list (option gerror)) : fs (C := string) := mkFs {[ "d/00" := mkFile "other" true ]} faults [].
Lemma buffered_whole_witness :
  mode_ok 100 (ModeAuto 3 "d") /\
  exists b s', run_mode "" 100 (ModeAuto 3 "d") (Ok [255]) sample_reader (sample_fs []) = (s', Done (Ok b)) /\ in_memory b = false
    /\ (Buffer_Open b (faultless s')).2 = Done (Ok "abcd").
Proof.
  assert (Hok : mode_ok 100 (ModeAuto 3 "d")) by (cbn; lia). split; [exact Hok|].
  destruct (run_mode "" 100 (ModeAuto 3 "d") (Ok [255]) sample_reader (sample_fs [])) as [s' o] eqn:E.
  destruct (buffered_whole "" 100 (ModeAuto 3 "d") (Ok [255]) sample_reader (sample_fs []) s' o Hok E) as (res & -> & Hr).
  destruct res as [b|e].
  - destruct Hr as (_ & Hm & Ho & _). exists b, s'. split; [reflexivity|]. split; [exact Hm|exact Ho].
  - exfalso. destruct Hr as [H|[H|H]]; [by apply H|done|by inversion H].
Defined.

(** A connection lost in DATA: the message is accepted, cut short. *)
Example lost_connection_accepted :
  (run_mode "" 100 (ModeAuto 100 "d") (Ok [255]) (Chunk "first half, " (Failing ErrUnexpectedEOF)) (sample_fs [])).2
  = Done (Ok (MemoryBuffer "first half, ")).
Proof. reflexivity. Qed.
(** The other modes refuse it. *)
Example lost_connection_refused :
  (run_mode "" 100 ModeRam (Ok [255]) (Chunk "first half, " (Failing ErrUnexpectedEOF)) (sample_fs [])).2
  = Done (Err (ENew "unexpected EOF")).
Proof. reflexivity. Qed.

(** A write that fails leaves its part of the message in the directory, and the file open. *)
Lemma failed_buffer_stays :
  let '(s', o) := run_mode "a" 100 (ModeFs "d") (Ok [255]) sample_reader (sample_fs [None; Some (ENew "disk full")]) in
  o = Done (Err (EErrorf "buffer: failed to write file: disk full" None)) /\ fs_disk s' !! "d/ff" = Some (mkFile "a" false).
Proof. vm_compute. done. Qed.

#[local] Existing Instance ascii_tables.
(** A size that overflows an int is accepted, and every message then panics. *)
Lemma overflown_size_panics :
  let no_err := fun _ : string => @None gerror in
  bufferModeDirective no_err "/var" (directive "buffer" ["auto"; "8589934592G"]) = Ok (ModeAuto (- 2 ^ 63) "/var/buffer") /\
  (run_mode "" 100 (ModeAuto (- 2 ^ 63) "/var/buffer") (Ok []) sample_reader (sample_fs [])).2 = Panicked "makeslice: len out of range".
Proof. vm_compute. done. Qed.

(** ** BytesReader *)

(** Copy starts where the reader stands. *)
Lemma br_Copy_rest br : 0 <= br_pos br -> br_Bytes (br_Copy br) = br_Bytes br /\ br_Bytes br = str_drop (Z.to_nat (br_pos br)) (br_value br).
Proof.
  assert (Hd : forall s, str_drop (String.length s) s = "") by (induction s; done).
  assert (Hm : forall s n, (String.length s <= n)%nat -> str_drop n s = "").
  { induction s as [|a s IH]; intros [|n] Hn; simpl in *; [done..|lia|]. apply IH. lia. }
  assert (Hp : forall b, br_Bytes (NewBytesReader b) = b).
  { intros b. unfold br_Bytes, br_Len, br_Size. cbn. destruct (len b <=? 0) eqn:E; [by destruct b|]. by rewrite Z.sub_0_r, Z.sub_diag. }
  intros Hpos. unfold br_Copy. rewrite Hp. split; [done|]. unfold br_Bytes, br_Len, br_Size.
  destruct (len (br_value br) <=? br_pos br) eqn:E.
  - rewrite Z.sub_0_r, Nat2Z.id, Hd, Hm; [done|lia].
  - do 2 f_equal. lia.
Qed.
