(* ===== verification/Blob.v ===== *)
(** * Blob: stores of message bodies (framework/module/blob_store.go,
    internal/storage/blob/fs, internal/storage/imapsql/external_blob_store.go)

    A blob store as the interface promises it, the store that keeps blobs as files of a
    directory, and the wrapper that gives go-imap-sql such a store.  Files are those of
    Disk, with their bytes; a write that fails leaves any part of it. *)
From S2P Require Import Prelude GoStr ExtErrors Config ConfigParser ConfigMap Disk.
From Stdlib Require Import ZifyBool.

Local Open Scope Z_scope.

Definition ErrNoSuchBlob : gerror := ENew "blob_store: no such object".
Definition UnknownBlobSize : Z := -1.

(** module.BlobStore and module.Blob, as programs of a world *)
Class BlobStore (W : Type) := {
  Blob : Type;
  bs_Create : string -> Z -> Prog W (Result gerror Blob);
  bs_Open : string -> Prog W (Result gerror string);
  bs_Delete : list string -> Prog W error;
  bl_Write : Blob -> string -> Prog W (Blob * error);
  bl_Sync : Blob -> Prog W error;
  bl_Close : Blob -> Prog W error
}.

(** How a caller writes a blob: the pieces, then Sync, then Close *)
Section Store.
Context {W : Type} `{!BlobStore W}.
Fixpoint write_pieces (b : Blob) (pieces : list string) : Prog W (Blob * error) :=
  match pieces with
  | [] => mret (b, None)
  | piece :: pieces =>
    '(b, err) ← bl_Write b piece;
    match err with Some err => mret (b, Some err) | None => write_pieces b pieces end
  end.
Definition store_blob (key : string) (size : Z) (pieces : list string) : Prog W error :=
  r ← bs_Create key size;
  match r with
  | Err err => mret (Some err)
  | Ok b =>
    '(b, err) ← write_pieces b pieces;
    match err with
    | Some err => mret (Some err)
    | None =>
      err ← bl_Sync b;
      match err with Some err => mret (Some err) | None => bl_Close b end
    end
  end.
End Store.

(** ** The directory store *)

Section Fs.
Context (torn : string).
Notation bfs := (fs (C := string)).
Notation bdisk := (gmap string (file (C := string))).

Record FSStore := mkFSStore { fb_instName : string; fb_root : string }.
Definition fs_New (instName : string) (inlineArgs : list string) : Result gerror FSStore :=
  match inlineArgs with
  | [] => Ok (mkFSStore instName "")
  | [root] => Ok (mkFSStore instName root)
  | _ => Err (EErrorf "storage.blob.fs: 1 or 0 arguments expected" None)
  end.
(** [cfg] is the map of the block; [order] an order of the loop over it. *)
Definition fs_Init {V} (V_zero : V -> bool) (order : list (matcher (V := V))) (os_MkdirAll : string -> error) (s : FSStore) (cfg : Map (V := V))
  : Outcome (Result gerror FSStore) :=
  m ← Map_String "root" false false (fb_root s) (Some "root") cfg;
  mret (match Process V_zero order m {[ "root" := VString (fb_root s) ]} with
        | (_, _, Err err) => Err err
        | (vs, _, Ok _) =>
          let root := match vs !! "root" with Some (VString r) => r | _ => "" end in
          if decide (root = "") then Err (NodeErr (cm_Block cfg) "storage.blob.fs: directory not set")
          else match os_MkdirAll root with Some err => Err err | None => Ok (mkFSStore (fb_instName s) root) end
        end).

Context (s : FSStore).
Definition blob_path (key : string) : string := Join (fb_root s) key.
Definition zero_bytes (n : nat) : string := of_bytes (replicate n 0).
(** The content of a file after a write of [data] at [off] *)
Definition splice (off : nat) (data old : string) : string := str_take off old +:+ data +:+ str_drop (off + String.length data) old.
(** Truncate of a new file, and Write at the offset of the handle *)
Definition f_Truncate (p : string) (size : Z) : Prog bfs (Result os_error unit) :=
  faulty (fun d => set_disk (<[p := mkFile (zero_bytes (Z.to_nat size)) false]> d) ;; mret (Ok tt)).
Definition f_Write (p : string) (off : nat) (data : string) : Prog bfs (Result os_error unit) :=
  d ← gets fs_disk;
  let old := match d !! p with Some f => f_content f | None => "" end in
  set_disk (<[p := mkFile torn false]> d) ;;
  faulty (fun d => set_disk (<[p := mkFile (splice off data old) false]> d) ;; mret (Ok tt)).

Record fs_blob := mkFsBlob { fb_path : string; fb_off : nat }.
Definition fs_Open (key : string) : Prog bfs (Result gerror string) :=
  f ← os_Read (blob_path key);
  mret (match f with Ok content => Ok content | Err err => Err (if IsNotExist err then ErrNoSuchBlob else os_gerror err) end).
Definition fs_Create (key : string) (blobSize : Z) : Prog bfs (Result gerror fs_blob) :=
  f ← os_Create "" (blob_path key);
  match f with
  | Err err => mret (Err (os_gerror err))
  | Ok _ =>
    t ← (if 0 <=? blobSize then f_Truncate (blob_path key) blobSize else mret (Ok tt));
    mret (match t with Err err => Err (os_gerror err) | Ok _ => Ok (mkFsBlob (blob_path key) 0) end)
  end.
Fixpoint fs_Delete (keys : list string) : Prog bfs error :=
  match keys with
  | [] => mret None
  | key :: keys =>
    r ← os_Remove (blob_path key);
    match r with
    | Ok _ => fs_Delete keys
    | Err err => if IsNotExist err then fs_Delete keys else mret (Some (os_gerror err))
    end
  end.
Definition fs_Write (b : fs_blob) (data : string) : Prog bfs (fs_blob * error) :=
  r ← f_Write (fb_path b) (fb_off b) data;
  mret (match r with Err err => (b, Some (os_gerror err)) | Ok _ => (mkFsBlob (fb_path b) (fb_off b + String.length data), None) end).
Definition fs_Sync (b : fs_blob) : Prog bfs error := r ← os_Sync (fb_path b); mret (os_err r).
Definition fs_Close (b : fs_blob) : Prog bfs error := r ← faulty (fun _ => mret (Ok tt)); mret (os_err r).
Definition fs_store : BlobStore bfs := {|
  Blob := fs_blob; bs_Create := fs_Create; bs_Open := fs_Open; bs_Delete := fs_Delete; bl_Write := fs_Write; bl_Sync := fs_Sync; bl_Close := fs_Close
|}.
End Fs.

(** imapsql.ExternalError, and the store that go-imap-sql is given *)
Record external_error := mkExternalError { xe_NonExistent : bool; xe_Key : string; xe_Err : gerror }.
Section External.
Context {W : Type} `{!BlobStore W} (is_no_such : gerror -> bool).
Definition ext_error (key : string) (err : gerror) : external_error := mkExternalError (is_no_such err) key err.
Definition ext_Create (key : string) (objSize : Z) : Prog W (Result external_error Blob) :=
  r ← bs_Create key objSize; mret (match r with Err err => Err (ext_error key err) | Ok b => Ok b end).
Definition ext_Open (key : string) : Prog W (Result external_error string) :=
  r ← bs_Open key; mret (match r with Err err => Err (ext_error key err) | Ok b => Ok b end).
Definition ext_Delete (keys : list string) : Prog W (option external_error) :=
  err ← bs_Delete keys; mret (match err with Some err => Some (mkExternalError false "" err) | None => None end).
End External.

(** ** A stored blob survives *)

Section Durable.
Context (torn : string) (s : FSStore).
Notation bfs := (fs (C := string)).
Notation bdisk := (gmap string (file (C := string))).
#[local] Existing Instance fs_store.
Notation anything := (fun _ : bdisk => True).

Lemma str_drop_app_plus w t n : str_drop (String.length w + n) (w +:+ t) = str_drop n t.
Proof. induction w as [|a w IH]; [done|]. exact IH. Qed.
Lemma str_drop_drop n m t : str_drop n (str_drop m t) = str_drop (m + n) t.
Proof. revert t. induction m as [|m IH]; [done|]. intros [|a t]; [by destruct n|]. apply IH. Qed.
Lemma splice_next w base data : splice (String.length w) data (w +:+ str_drop (String.length w) base) = (w +:+ data) +:+ str_drop (String.length (w +:+ data)) base.
Proof. unfold splice. rewrite str_take_app, str_drop_app_plus, str_drop_drop, str_app_assoc, str_length_app. done. Qed.

Lemma wp_f_Write p off data (Q : Result os_error unit -> bdisk -> Prop) d c :
  d !! p = Some c -> (forall e f, Q (Err (OsErr e)) (<[p := f]> d)) -> Q (Ok tt) (<[p := mkFile (splice off data (f_content c)) false]> d) ->
  wp anything (f_Write torn p off data) Q d.
Proof.
  intros Hp He Hq. apply wp_bind, wp_gets. intros st <-. rewrite Hp. apply wp_bind, wp_set_disk; [done|]. apply wp_faulty; [intros; apply He|].
  rewrite insert_insert_eq. by apply wp_bind, wp_set_disk; [|apply wp_ret].
Qed.

(** After the pieces: the file has them over its first content, and no other file changed. *)
Definition written (p w base : string) (d0 d : bdisk) : Prop :=
  (exists f, d !! p = Some f /\ f_content f = w +:+ str_drop (String.length w) base) /\ forall q, q <> p -> d !! q = d0 !! q.
Definition others (p : string) (d0 d : bdisk) : Prop := forall q, q <> p -> d !! q = d0 !! q.
Lemma zero_bytes_dropped n : str_drop n (zero_bytes n) = "".
Proof. induction n as [|n IH]; [done|exact IH]. Qed.
Definition joined (pieces : list string) : string := foldr (fun a b => a +:+ b) "" pieces.
Lemma write_pieces_wp p base d0 pieces : forall w d, written p w base d0 d ->
  wp anything (write_pieces (BlobStore0 := fs_store torn s) (mkFsBlob p (String.length w)) pieces)
    (fun r d' => others p d0 d' /\ (r.2 = None -> fb_path r.1 = p /\ written p (w +:+ joined pieces) base d0 d')) d.
Proof.
  induction pieces as [|piece pieces IH]; intros w d [(f & Hf & Hc) Ho]; cbn [write_pieces].
  - apply wp_ret. split; [done|]. intros _. split; [done|]. cbn [joined foldr]. rewrite str_app_nil_r. split; [by exists f|done].
  - apply wp_bind. cbn [bl_Write fs_store]. unfold fs_Write. cbn [fb_path fb_off]. apply wp_bind.
    eapply (wp_f_Write _ _ _ _ _ f); [done| |].
    + intros e f'. apply wp_ret. cbn. apply wp_ret. split; [|done]. intros q Hq. rewrite lookup_insert_ne by done. by apply Ho.
    + apply wp_ret. rewrite Hc, splice_next, <- str_length_app. cbn [joined foldr]. change (foldr _ "" pieces) with (joined pieces).
      rewrite <- str_app_assoc. apply IH. split; [rewrite lookup_insert_eq; by eexists|]. intros q Hq. rewrite lookup_insert_ne by done. by apply Ho.
Qed.

(** A blob whose pieces have the announced size, or no announced size, and whose store
    reported success, is read back as its pieces, also after a crash; storing returns, and
    changes no other file. *)
Theorem blob_durable key size pieces (st st' : bfs) o :
  size < 0 \/ size = Z.of_nat (String.length (joined pieces)) ->
  store_blob (BlobStore0 := fs_store torn s) key size pieces st = (st', o) ->
  exists err, o = Done err /\ others (blob_path s key) (fs_disk st) (fs_disk st') /\
  (err = None -> forall d' h, crash (fs_disk st') d' -> (fs_Open s key (mkFs d' [] h)).2 = Done (Ok (joined pieces))).
Proof.
  intros Hsize E. set (p := blob_path s key) in *.
  assert (Hw : wp anything (store_blob (BlobStore0 := fs_store torn s) key size pieces)
    (fun err d => others p (fs_disk st) d /\ (err = None -> d !! p = Some (mkFile (joined pieces) true))) (fs_disk st)).
  { unfold store_blob. cbn [bs_Create fs_store]. unfold fs_Create. fold p. apply wp_bind, wp_bind.
    assert (Hin : forall f, others p (fs_disk st) (<[p := f]> (fs_disk st))) by (intros f q Hq; by rewrite lookup_insert_ne).
    apply wp_Create; [intros e; apply wp_ret; cbn; apply wp_ret; split; [by intros ? ?|done]|done|].
    assert (Hrest : forall base d, written p "" base (fs_disk st) d -> str_drop (String.length (joined pieces)) base = "" ->
      wp anything ('(b, err) ← write_pieces (BlobStore0 := fs_store torn s) (mkFsBlob p 0) pieces;
        match err with Some err => mret (Some err) | None => err ← bl_Sync (BlobStore := fs_store torn s) b; match err with Some err => mret (Some err) | None => bl_Close (BlobStore := fs_store torn s) b end end)
        (fun err d => others p (fs_disk st) d /\ (err = None -> d !! p = Some (mkFile (joined pieces) true))) d).
    { intros base d Hd Hb. apply wp_bind. eapply wp_weaken; [exact (write_pieces_wp p base (fs_disk st) pieces "" d Hd)|].
      intros [b err] d1 [Ho Hr]. destruct err as [err|]; [apply wp_ret; by split|]. destruct (Hr eq_refl) as [Hp [(f & Hf & Hc) _]].
      cbn [fst] in Hp. cbn [bl_Sync bl_Close fs_store]. unfold fs_Sync, fs_Close. rewrite Hp. apply wp_bind, wp_bind.
      change ("" +:+ joined pieces) with (joined pieces) in Hc. rewrite Hb, str_app_nil_r in Hc.
      assert (Hs : others p (fs_disk st) (sync_at p d1)) by (intros q Hq; unfold sync_at; by rewrite lookup_alter_ne, Ho).
      apply wp_Sync; [intros e; apply wp_ret; cbn; apply wp_ret; by split|done|]. apply wp_ret. cbn [os_err]. apply wp_bind, wp_faulty.
      - intros e. apply wp_ret. split; [done|by intros ?].
      - apply wp_ret, wp_ret. split; [done|]. intros _. unfold sync_at. rewrite lookup_alter_eq, Hf. cbn. by rewrite Hc. }
    apply wp_bind. destruct (0 <=? size) eqn:Es.
    - apply wp_faulty; [intros e; apply wp_ret; cbn; apply wp_ret; by split|]. apply wp_bind, wp_set_disk; [done|]. apply wp_ret, wp_ret. cbn.
      rewrite insert_insert_eq. apply (Hrest (zero_bytes (Z.to_nat size))); [split; [rewrite lookup_insert_eq; by eexists|apply Hin]|].
      destruct Hsize as [Hs| ->]; [lia|]. rewrite Nat2Z.id. apply zero_bytes_dropped.
    - apply wp_ret, wp_ret. cbn. apply (Hrest ""); [split; [rewrite lookup_insert_eq; by eexists|apply Hin]|]. by destruct (String.length _). }
  destruct (Hw st st' o eq_refl E) as (_ & err & -> & Ho & Hr). exists err. split; [done|]. split; [done|]. intros Herr d' h Hc.
  destruct (crash_synced _ _ _ _ Hc (Hr Herr)) as (f & Hf & Hcont). unfold fs_Open. fold p.
  cbv [os_Read faulty next_fault gets mbind prog_bind mret prog_ret]. cbn. rewrite Hf. by rewrite Hcont.
Qed.
End Durable.

Definition blob_dir : FSStore := mkFSStore "" "/blobs".
Definition empty_dir : fs (C := string) := mkFs ∅ [] [].
Lemma blob_durable_witness :
  let '(st', o) := store_blob (BlobStore0 := fs_store "" blob_dir) "k" 4 ["ab"; "cd"] empty_dir in
  o = Done None /\ (fs_Open blob_dir "k" (mkFs (fs_disk st') [] [])).2 = Done (Ok "abcd").
Proof.
  destruct (store_blob (BlobStore0 := fs_store "" blob_dir) "k" 4 ["ab"; "cd"] empty_dir) as [st' o] eqn:E.
  assert (Hs : 4 < 0 \/ 4 = Z.of_nat (String.length (joined ["ab"; "cd"]))) by (right; reflexivity).
  assert (Ho : o = Done None) by (assert (H := f_equal snd E); vm_compute in H; by symmetry). split; [exact Ho|].
  destruct (blob_durable "" blob_dir "k" 4 ["ab"; "cd"] empty_dir st' o Hs E) as (err & Herr & _ & Hr).
  apply Hr; [congruence|apply crash_refl].
Defined.
(** A blob shorter than announced is stored, with zeros for the rest. *)
Lemma short_blob_padded :
  let '(st', o) := store_blob (BlobStore0 := fs_store "" blob_dir) "k" 4 ["ab"] empty_dir in
  o = Done None /\ (fs_Open blob_dir "k" (mkFs (fs_disk st') [] [])).2 = Done (Ok (of_bytes [97; 98; 0; 0])).
Proof. vm_compute. done. Qed.
(** Deleting goes on after keys that are not there, and stops at any other error. *)
Lemma delete_missing : (fs_Delete blob_dir ["a"; "k"] (mkFs {[ "/blobs/k" := mkFile "x" true ]} [] [])).1.(fs_disk) = ∅.
Proof. vm_compute. done. Qed.
