(* ===== verification/Tls.v ===== *)
(** * Tls: framework/config/tls, internal/tls/file.go and internal/proxy_protocol

    The TLS settings of a configuration: the tls block of servers with the loader that reads
    certificate files (internal/tls/file.go), the tls_client block and the directives inside them, and the proxy_protocol directive with the check of who may
    speak that protocol.  Certificates, certificate files and IP networks are parameters. *)
From S2P Require Import Prelude GoStr ExtErrors Config ConfigParser ConfigMap.
From stdpp Require Import gmap.

Local Open Scope Z_scope.

(** ** Names (general.go), with the numbers of crypto/tls *)

Definition VersionTLS10 : Z := 0x0301.
Definition VersionTLS11 : Z := 0x0302.
Definition VersionTLS12 : Z := 0x0303.
Definition VersionTLS13 : Z := 0x0304.
Definition strVersionsMap : gmap string Z := list_to_map [
  ("tls1.0", VersionTLS10); ("tls1.1", VersionTLS11); ("tls1.2", VersionTLS12); ("tls1.3", VersionTLS13); ("", 0)].
Definition strCiphersMap : gmap string Z := list_to_map [
  ("RSA-WITH-RC4128-SHA", 0x0005);
  ("RSA-WITH-3DES-EDE-CBC-SHA", 0x000a);
  ("RSA-WITH-AES128-CBC-SHA", 0x002f);
  ("RSA-WITH-AES256-CBC-SHA", 0x0035);
  ("RSA-WITH-AES128-CBC-SHA256", 0x003c);
  ("RSA-WITH-AES128-GCM-SHA256", 0x009c);
  ("RSA-WITH-AES256-GCM-SHA384", 0x009d);
  ("ECDHE-ECDSA-WITH-RC4128-SHA", 0xc007);
  ("ECDHE-ECDSA-WITH-AES128-CBC-SHA", 0xc009);
  ("ECDHE-ECDSA-WITH-AES256-CBC-SHA", 0xc00a);
  ("ECDHE-RSA-WITH-RC4128-SHA", 0xc011);
  ("ECDHE-RSA-WITH-3DES-EDE-CBC-SHA", 0xc012);
  ("ECDHE-RSA-WITH-AES128-CBC-SHA", 0xc013);
  ("ECDHE-RSA-WITH-AES256-CBC-SHA", 0xc014);
  ("ECDHE-ECDSA-WITH-AES128-CBC-SHA256", 0xc023);
  ("ECDHE-RSA-WITH-AES128-CBC-SHA256", 0xc027);
  ("ECDHE-RSA-WITH-AES128-GCM-SHA256", 0xc02f);
  ("ECDHE-ECDSA-WITH-AES128-GCM-SHA256", 0xc02b);
  ("ECDHE-RSA-WITH-AES256-GCM-SHA384", 0xc030);
  ("ECDHE-ECDSA-WITH-AES256-GCM-SHA384", 0xc02c);
  ("ECDHE-RSA-WITH-CHACHA20-POLY1305", 0xcca8);
  ("ECDHE-ECDSA-WITH-CHACHA20-POLY1305", 0xcca9)].
Definition strCurvesMap : gmap string Z := list_to_map [("p256", 23); ("p384", 24); ("p521", 25); ("X25519", 29)].

(** [min, max] of the versions *)
Definition TLSVersionsDirective (node : Node) : Result gerror (Z * Z) :=
  let version arg := match strVersionsMap !! arg with
                     | Some v => Ok v
                     | None => err_node node ("invalid TLS version value: " +:+ arg)
                     end in
  match node_Args node with
  | [arg] => value ← version arg; Ok (value, value)
  | [arg0; arg1] => minValue ← version arg0; maxValue ← version arg1; Ok (minValue, maxValue)
  | _ => err_node node "expected 1 or 2 arguments"
  end.
Fixpoint known_ids (ids : gmap string Z) (node : Node) (what : string) (args : list string) : Result gerror (list Z) :=
  match args with
  | [] => Ok []
  | arg :: args =>
    match ids !! arg with
    | None => err_node node ("unknown " +:+ what +:+ ": " +:+ arg)
    | Some id => res ← known_ids ids node what args; Ok (id :: res)
    end
  end.
Definition ids_directive (ids : gmap string Z) (what : string) (node : Node) : Result gerror (list Z) :=
  match node_Args node with
  | [] => err_node node "expected at least 1 argument, got 0"
  | args => known_ids ids node what args
  end.
Definition TLSCiphersDirective : Node -> Result gerror (list Z) := ids_directive strCiphersMap "cipher".
Definition TLSCurvesDirective : Node -> Result gerror (list Z) := ids_directive strCurvesMap "curve".

(** ** The settings both blocks have *)

Section Values.
Context `{UnicodeTables} {L : Type}.
(** Values of the directives: [2]uint16, a list of numbers, a loader *)
Inductive tls_value := TVersions (minmax : Z * Z) | TIds (ids : list Z) | TLoader (loader : L).
Definition tls_zero (v : tls_value) : bool :=
  match v with TVersions (lo, hi) => (lo =? 0) && (hi =? 0) | TIds _ | TLoader _ => false end.
Notation value := (value (V := tls_value)).
Notation Map := (Map (V := tls_value)).
Notation vars := (gmap string value).

Definition custom {A} (wrap : A -> tls_value) (r : Result gerror A) : Result gerror value := v ← r; Ok (VCustom (wrap v)).
Definition common_directives (default_versions : Z * Z) (m : Map) : Outcome Map :=
  m ← Custom "protocols" false false (Some (Ok (VCustom (TVersions default_versions)))) (fun _ n => custom TVersions (TLSVersionsDirective n)) (Some "tlsVersions") m;
  m ← Custom "ciphers" false false (Some (Ok VNil)) (fun _ n => custom TIds (TLSCiphersDirective n)) (Some "CipherSuites") m;
  Custom "curves" false false (Some (Ok VNil)) (fun _ n => custom TIds (TLSCurvesDirective n)) (Some "CurvePreferences") m.

(** tls.Config, where the code sets it; nil lists are empty *)
Record Config := mkConfig {
  tc_SessionTicketsDisabled : bool;
  tc_CipherSuites : list Z;
  tc_CurvePreferences : list Z;
  tc_MinVersion : Z;
  tc_MaxVersion : Z
}.
Definition var_versions (vs : vars) : Z * Z := match vs !! "tlsVersions" with Some (VCustom (TVersions v)) => v | _ => (0, 0) end.
Definition var_ids (vs : vars) (x : string) : list Z := match vs !! x with Some (VCustom (TIds l)) => l | _ => [] end.
Definition config_of (disabled : bool) (vs : vars) : Config :=
  mkConfig disabled (var_ids vs "CipherSuites") (var_ids vs "CurvePreferences") (var_versions vs).1 (var_versions vs).2.

(** ** The tls block of a server (server.go) *)

(** modconfig.ModuleFromNode for a loader, with the globals it gets; loader.ConfigureTLS,
    which fills a clone of the base configuration *)
Context (ModuleFromNode : list string -> Node -> Result gerror L).
Record TLSConfig := mkTLSConfig { tls_loader : option L; tls_baseCfg : Config }.

Definition Node_zero : Node := mkNode "" [] None false false "" 0.
Definition var_loader (vs : vars) : option L := match vs !! "loader" with Some (VCustom (TLoader l)) => Some l | _ => None end.
Definition server_directives (loader : option L) (m : Map) : Outcome Map :=
  m ← Custom "loader" false false (Some (Ok (match loader with Some l => VCustom (TLoader l) | None => VNil end)))
        (fun _ n => custom TLoader (ModuleFromNode (node_Args n) n)) (Some "loader") m;
  common_directives (VersionTLS10, 0) m.
(** [order]: an order in which Go goes over the map of the directives, for each map *)
Definition readTLSBlock (order : Map -> list (matcher (V := tls_value))) (blockNode : Node) : Outcome (Result gerror (option TLSConfig)) :=
  let read loader :=
    m ← server_directives loader (NewMap ∅ blockNode);
    mret (match Process tls_zero (order m) m ∅ with
          | (_, _, Err err) => Err err
          | (vs, _, Ok _) => Ok (Some (mkTLSConfig (var_loader vs) (config_of true vs)))
          end) in
  match node_Args blockNode with
  | [] => read None
  | arg :: _ =>
    if decide (arg = "off") then mret (Ok None)
    else match ModuleFromNode (node_Args blockNode) Node_zero with
         | Err err => mret (Err err)
         | Ok loader => read (Some loader)
         end
  end.
(** The *tls.Config with this GetConfigForClient, or nil *)
Definition TLSDirective := readTLSBlock.
Definition Get (ConfigureTLS : L -> Config -> Result gerror Config) (cfg : TLSConfig) : Result gerror (option Config) :=
  match tls_loader cfg with
  | None => Ok None
  | Some l => tlsCfg ← ConfigureTLS l (tls_baseCfg cfg); Ok (Some tlsCfg)
  end.
End Values.
Arguments tls_value : clear implicits.
Arguments TLSConfig : clear implicits.

(** ** The file loader (internal/tls/file.go) *)

Section FileLoader.
Context `{UnicodeTables} {Cert : Type}.
(** tls.LoadX509KeyPair at the time of a load; the SIRRMESH_WORK_DIR of the environment; an order of the loop over
    the map of the block *)
Record FileLoader := mkFileLoader { fl_certPaths : list string; fl_keyPaths : list string; fl_certs : list Cert }.
Fixpoint load_pairs (LoadX509KeyPair : string -> string -> Result gerror Cert) (pairs : list (string * string)) : Result gerror (list Cert) :=
  match pairs with
  | [] => Ok []
  | (certPath, keyPath) :: pairs =>
    match LoadX509KeyPair certPath keyPath with
    | Err err => Err (EErrorf ("failed to load " +:+ certPath +:+ " and " +:+ keyPath +:+ ": " +:+ Error err) None)
    | Ok cert => certs ← load_pairs LoadX509KeyPair pairs; Ok (cert :: certs)
    end
  end.
(** The certificates are replaced together, and only when all of them load. *)
Definition loadCerts (LoadX509KeyPair : string -> string -> Result gerror Cert) (f : FileLoader) : FileLoader * error :=
  if negb (bool_decide (length (fl_certPaths f) = length (fl_keyPaths f))) then (f, Some (ENew "mismatch in certs and keys count"))
  else match fl_certPaths f with
       | [] => (f, Some (ENew "tls.loader.file: at least one certificate required"))
       | _ =>
         match load_pairs LoadX509KeyPair (zip (fl_certPaths f) (fl_keyPaths f)) with
         | Err err => (f, Some err)
         | Ok certs => (mkFileLoader (fl_certPaths f) (fl_keyPaths f) certs, None)
         end
       end.
(** A path of the arguments; the working directory is that of the environment *)
Definition argument_path (workDir path : string) : string := if HasPrefix path "/" then path else ConfigParser.Join workDir path.
Fixpoint argument_paths (workDir : string) (args : list string) : list (string * string) :=
  match args with
  | cert :: key :: args => (argument_path workDir cert, argument_path workDir key) :: argument_paths workDir args
  | _ => []
  end.
Definition file_Init (LoadX509KeyPair : string -> string -> Result gerror Cert) (workDir : string) {V} (V_zero : V -> bool)
    (order : list (matcher (V := V))) (inlineArgs : list string) (cfg : Map (V := V)) : Outcome (Result gerror FileLoader) :=
  m ← StringList "certs" false false None (Some "certPaths") cfg;
  m ← StringList "keys" false false None (Some "keyPaths") m;
  mret (match Process V_zero order m ∅ with
        | (_, _, Err err) => Err err
        | (vs, _, Ok _) =>
          let paths x := match vs !! x with Some (VStrings (Some l)) => l | _ => [] end in
          if negb (bool_decide (length (paths "certPaths") = length (paths "keyPaths"))) then Err (ENew "tls.loader.file: mismatch in certs and keys count")
          else if Nat.odd (length inlineArgs) then Err (ENew "tls.loader.file: odd amount of arguments")
          else
            let inline := argument_paths workDir inlineArgs in
            let certPaths := paths "certPaths" ++ map fst inline in
            if negb (forallb IsAbs certPaths) then Err (EErrorf "tls.loader.file: only absolute paths allowed in certificate paths: sorry :(" None)
            else match loadCerts LoadX509KeyPair (mkFileLoader certPaths (paths "keyPaths" ++ map snd inline) []) with
                 | (_, Some err) => Err err
                 | (f, None) => Ok f
                 end
        end).
(** Reloads: on the event and every minute, whatever the files hold by then *)
Definition reload (LoadX509KeyPair : string -> string -> Result gerror Cert) (f : FileLoader) : FileLoader := (loadCerts LoadX509KeyPair f).1.
Definition ConfigureTLS (f : FileLoader) : list Cert := fl_certs f.

(** A reload replaces all certificates or none, so that after any reloads the loader has
    certificates again as long as it started with some. *)
Lemma reload_all_or_none load f : reload load f = f \/
  exists certs, load_pairs load (zip (fl_certPaths f) (fl_keyPaths f)) = Ok certs /\ ConfigureTLS (reload load f) = certs /\
    length certs = length (fl_certPaths f) /\ certs <> [].
Proof.
  assert (Hl : forall pairs certs, load_pairs load pairs = Ok certs -> length certs = length pairs).
  { induction pairs as [|[c k] pairs IH]; intros certs E; cbn in E; [by simplify_eq|].
    destruct (load c k); [|done]. destruct (load_pairs load pairs); [|done]. cbn in E. simplify_eq. cbn. by rewrite (IH _ eq_refl). }
  unfold reload, loadCerts. destruct (bool_decide _) eqn:Eb; cbn; [|by left]. apply bool_decide_eq_true in Eb.
  destruct (fl_certPaths f) as [|p ps] eqn:Ep; [by left|]. destruct (load_pairs _ _) as [certs|] eqn:El; [|by left]. right. exists certs.
  pose proof (Hl _ _ El) as Hlen. rewrite length_zip_with in Hlen. cbn [length] in *.
  assert (length certs = S (length ps)) by lia. repeat split; [done|]. by intros ->.
Qed.
Theorem reloads_keep_certificates (loads : list (string -> string -> Result gerror Cert)) f :
  ConfigureTLS f <> [] -> ConfigureTLS (foldl (fun f load => reload load f) f loads) <> [].
Proof.
  revert f. induction loads as [|load loads IH]; intros f Hf; [done|]. cbn. apply IH.
  destruct (reload_all_or_none load f) as [->|(certs & _ & -> & _ & Hc)]; done.
Qed.
End FileLoader.

(** ** The tls_client block (client.go) *)

Section Client.
Context `{UnicodeTables} {Pool KeyPair : Type}.
Notation value := (value (V := tls_value unit)).
Notation vars := (gmap string value).

(** os.ReadFile; x509.NewCertPool and AppendCertsFromPEM, which is false when it found no
    certificate; tls.LoadX509KeyPair *)
Context (os_ReadFile : string -> Result gerror string) (NewCertPool : Pool) (AppendCertsFromPEM : Pool -> string -> Pool * bool)
  (LoadX509KeyPair : string -> string -> Result gerror KeyPair).
Record ClientConfig := mkClientConfig {
  cc_base : Config;
  cc_RootCAs : option Pool;
  cc_ClientCertificate : option KeyPair
}.
Fixpoint load_roots (pool : Pool) (paths : list string) : Result gerror Pool :=
  match paths with
  | [] => Ok pool
  | path :: paths =>
    blob ← os_ReadFile path;
    let '(pool, ok) := AppendCertsFromPEM pool blob in
    if negb ok then Err (EErrorf ("no certificates was loaded from " +:+ path) None) else load_roots pool paths
  end.
Definition client_directives (m : Map (V := tls_value unit)) : Outcome (Map (V := tls_value unit)) :=
  m ← StringList "root_ca" false false None (Some "rootCAPaths") m;
  m ← Map_String "cert" false false "" (Some "certPath") m;
  m ← Map_String "key" false false "" (Some "keyPath") m;
  common_directives (0, 0) m.
Definition client_config (vs : vars) : Result gerror ClientConfig :=
  let rootCAPaths := match vs !! "rootCAPaths" with Some (VStrings (Some l)) => l | _ => [] end in
  let str x := match vs !! x with Some (VString s) => s | _ => "" end in
  roots ← (match rootCAPaths with [] => Ok None | _ => pool ← load_roots NewCertPool rootCAPaths; Ok (Some pool) end);
  keypair ← (if decide (str "certPath" <> "" /\ str "keyPath" <> "")
             then kp ← LoadX509KeyPair (str "certPath") (str "keyPath"); Ok (Some kp) else Ok None);
  Ok (mkClientConfig (config_of false vs) roots keypair).
Definition TLSClientBlock (order : Map (V := tls_value unit) -> list (matcher (V := tls_value unit))) (node : Node) : Outcome (Result gerror ClientConfig) :=
  m ← client_directives (NewMap ∅ node);
  mret (match Process tls_zero (order m) m ∅ with (_, _, Err err) => Err err | (vs, _, Ok _) => client_config vs end).
End Client.
Arguments ClientConfig : clear implicits.

(** ** The proxy protocol (internal/proxy_protocol) *)

Section Proxy.
Context `{UnicodeTables} {IP IPNet T : Type}.
Notation value := (value (V := T)).

(** net.ParseCIDR; (net.IPNet).Contains; the tls block *)
Context (ParseCIDR : string -> Result gerror IPNet) (Contains : IPNet -> IP -> bool) (T_zero : T -> bool) (tls_directive : Node -> Result gerror value).
Record ProxyProtocol := mkProxyProtocol { pp_trust : list IPNet; pp_tlsConfig : option T }.
Definition trust_text (trust : string) : string := if GoStr.Contains trust "/" then trust else trust +:+ "/32".
Fixpoint parse_trust (trustList : list string) : Result gerror (list IPNet) :=
  match trustList with
  | [] => Ok []
  | trust :: trustList => ipNet ← ParseCIDR (trust_text trust); nets ← parse_trust trustList; Ok (ipNet :: nets)
  end.
Definition ProxyProtocolDirective (order : Map (V := T) -> list (matcher (V := T))) (node : Node) : Outcome (Result gerror ProxyProtocol) :=
  m ← StringList "trust" false false None (Some "trustList") (NewMap ∅ node);
  m ← Custom "tls" true false None (fun _ n => tls_directive n) (Some "tlsConfig") m;
  mret (match Process T_zero (order m) m ∅ with
        | (_, _, Err err) => Err err
        | (vs, _, Ok _) =>
          let trustList := match vs !! "trustList" with Some (VStrings (Some l)) => l | _ => [] end in
          nets ← parse_trust (trustList ++ node_Args node);
          Ok (mkProxyProtocol nets (match vs !! "tlsConfig" with Some (VCustom t) => Some t | _ => None end))
        end).
Inductive net_Addr := TCPAddr (ip : IP) | UnixAddr | OtherAddr.
(** Whether the other side of a connection may say who its client is *)
Definition sourceChecker (p : ProxyProtocol) (upstream : net_Addr) : bool :=
  match upstream with
  | TCPAddr ip => match pp_trust p with [] => true | _ => existsb (fun trusted => Contains trusted ip) (pp_trust p) end
  | UnixAddr => true
  | OtherAddr => false
  end.
End Proxy.
Arguments ProxyProtocol : clear implicits.

(** ** What a tls block gives *)

Section Spec.
Context `{UnicodeTables} {L : Type} (ModuleFromNode : list string -> Node -> Result gerror L).
Notation value := (value (V := tls_value L)).
Notation Map := (Map (V := tls_value L)).
Notation matcher := (matcher (V := tls_value L)).

(** The value of a directive that is given once or not at all *)
Definition given {A} (blk : Node) (name : string) (dflt : A) (read : Node -> Result gerror A) (a : A) : Prop :=
  match named name (children blk) with [] => a = dflt | [n] => read n = Ok a | _ => False end.
Definition loader_module (n : Node) : Result gerror (option L) := l ← ModuleFromNode (node_Args n) n; Ok (Some l).
Definition argument_loader (blk : Node) : Result gerror (option L) :=
  match node_Args blk with [] => Ok None | args => l ← ModuleFromNode args Node_zero; Ok (Some l) end.
(** The settings a block asks for *)
Definition settles (blk : Node) (c : TLSConfig L) : Prop :=
  exists loader, argument_loader blk = Ok loader /\
  given blk "loader" loader loader_module (tls_loader c) /\
  given blk "protocols" (VersionTLS10, 0) TLSVersionsDirective (tc_MinVersion (tls_baseCfg c), tc_MaxVersion (tls_baseCfg c)) /\
  given blk "ciphers" [] TLSCiphersDirective (tc_CipherSuites (tls_baseCfg c)) /\
  given blk "curves" [] TLSCurvesDirective (tc_CurvePreferences (tls_baseCfg c)) /\
  tc_SessionTicketsDisabled (tls_baseCfg c) = true /\
  Forall (fun n => node_Name n ∈ ["loader"; "protocols"; "ciphers"; "curves"]) (children blk).

Lemma add_fresh (mt : matcher) (m : Map) : cm_entries m !! mt_name mt = None ->
  add_matcher mt m = Done (mkMap (cm_allowUnknown m) (cm_Values m) (<[mt_name mt := mt]> (cm_entries m)) (cm_Globals m) (cm_Block m)).
Proof. intros E. unfold add_matcher. by rewrite E. Qed.

Definition loader_matcher (loader : option L) : matcher :=
  mkMatcher "loader" false false (Some (Ok (match loader with Some l => VCustom (TLoader l) | None => VNil end)))
    (Some (fun _ n => custom TLoader (ModuleFromNode (node_Args n) n))) (Some "loader") None.
Definition protocols_matcher (dflt : Z * Z) : matcher :=
  mkMatcher "protocols" false false (Some (Ok (VCustom (TVersions dflt)))) (Some (fun _ n => custom TVersions (TLSVersionsDirective n))) (Some "tlsVersions") None.
Definition ciphers_matcher : matcher := mkMatcher "ciphers" false false (Some (Ok VNil)) (Some (fun _ n => custom TIds (TLSCiphersDirective n))) (Some "CipherSuites") None.
Definition curves_matcher : matcher := mkMatcher "curves" false false (Some (Ok VNil)) (Some (fun _ n => custom TIds (TLSCurvesDirective n))) (Some "CurvePreferences") None.
Definition server_entries_of (loader : option L) : gmap string matcher :=
  <["curves" := curves_matcher]> (<["ciphers" := ciphers_matcher]> (<["protocols" := protocols_matcher (VersionTLS10, 0)]> (<["loader" := loader_matcher loader]> ∅))).
Lemma server_entries loader blk : server_directives ModuleFromNode loader (NewMap ∅ blk) = Done (mkMap false ∅ (server_entries_of loader) ∅ blk).
Proof.
  unfold server_directives, common_directives, Custom.
  do 4 (rewrite add_fresh by (cbn [cm_entries NewMap mt_name]; rewrite ?lookup_insert_ne by done; apply lookup_empty); cbn [mbind outcome_bind NewMap cm_allowUnknown cm_Values cm_entries cm_Globals cm_Block mt_name]).
  reflexivity.
Qed.
Lemma server_entry loader name mt : server_entries_of loader !! name = Some mt <->
  (name = "curves" /\ mt = curves_matcher) \/ (name = "ciphers" /\ mt = ciphers_matcher) \/
  (name = "protocols" /\ mt = protocols_matcher (VersionTLS10, 0)) \/ (name = "loader" /\ mt = loader_matcher loader).
Proof.
  unfold server_entries_of. split.
  - intros E. repeat (apply lookup_insert_Some in E as [[<- <-]|[_ E]]; [naive_solver|]). by rewrite lookup_empty in E.
  - intros [[-> ->]|[[-> ->]|[[-> ->]|[-> ->]]]]; rewrite ?lookup_insert_ne by done; apply lookup_insert_eq.
Qed.

Definition server_map (loader : option L) (blk : Node) : Map := mkMap false ∅ (server_entries_of loader) ∅ blk.
Lemma server_wf loader blk : wf_map (server_map loader blk).
Proof. intros name mt E. apply server_entry in E as [[-> ->]|[[-> ->]|[[-> ->]|[-> ->]]]]; done. Qed.
Lemma server_separate loader blk : separate (server_map loader blk).
Proof.
  split.
  - intros n1 n2 mt1 mt2 x E1 E2 S1 S2. apply server_entry in E1, E2.
    destruct E1 as [[-> ->]|[[-> ->]|[[-> ->]|[-> ->]]]], E2 as [[-> ->]|[[-> ->]|[[-> ->]|[-> ->]]]]; cbn in S1, S2; congruence.
  - intros n1 n2 mt1 mt2 x cb node vs E1 E2 S1 C2. apply server_entry in E2. by destruct E2 as [[-> ->]|[[-> ->]|[[-> ->]|[-> ->]]]].
Qed.

(** What one entry of the map says of the block *)
Lemma entry_given {A} (blk : Node) (mt : matcher) (dflt : option A) (read : Node -> Result gerror A) (wrap : A -> tls_value L) v :
  mt_mapper mt = Some (fun _ n => custom wrap (read n)) -> mt_required mt = false -> mt_inheritGlobal mt = false ->
  mt_defaultVal mt = Some (Ok (match dflt with Some a => VCustom (wrap a) | None => VNil end)) ->
  entry_value (server_map None blk) ∅ blk mt = Ok (Some v) ->
  match named (mt_name mt) (children blk) with
  | [] => v = match dflt with Some a => VCustom (wrap a) | None => VNil end
  | [n] => exists a, read n = Ok a /\ v = VCustom (wrap a)
  | _ => False
  end.
Proof.
  unfold entry_value. intros -> -> -> ->. destruct (named _ _) as [|n [|n' ns]]; cbn; [naive_solver| |done].
  unfold custom. destruct (read n); naive_solver.
Qed.

(** The directive is given once, well formed, or not at all. *)
Definition readable {A} (blk : Node) (name : string) (read : Node -> Result gerror A) : Prop :=
  match named name (children blk) with [] => True | [n] => exists a, read n = Ok a | _ => False end.
Lemma given_readable {A} blk name (dflt : A) read a : given blk name dflt read a -> readable blk name read.
Proof. unfold given, readable. destruct (named _ _) as [|n [|n' ns]]; eauto. Qed.
Lemma readable_entry {A} loader (blk : Node) (mt : matcher) (read : Node -> Result gerror A) (wrap : A -> tls_value L) dv e :
  mt_mapper mt = Some (fun _ n => custom wrap (read n)) -> mt_required mt = false -> mt_inheritGlobal mt = false -> mt_defaultVal mt = Some (Ok dv) ->
  readable blk (mt_name mt) read -> entry_value (server_map loader blk) ∅ blk mt = Err e -> False.
Proof.
  unfold entry_value, readable. intros -> -> -> ->. destruct (named _ _) as [|n [|n' ns]]; cbn; [done| |done]. unfold custom. by intros (a & ->).
Qed.
Lemma entry_some (m : Map) gl blk (mt : matcher) dv : mt_mapper mt <> None -> mt_defaultVal mt = Some dv -> entry_value m gl blk mt <> Ok None.
Proof.
  unfold entry_value. intros Hm ->. destruct (mt_mapper mt) as [mapper|]; [|done].
  destruct (named _ _) as [|n [|n' ns]]; [|by destruct (mapper _ n)|done].
  destruct (if mt_inheritGlobal mt then _ else _); [done|]. destruct (mt_required mt); [done|]. by destruct dv.
Qed.

Lemma loader_given blk loader c :
  given blk "loader" loader loader_module c <->
  match named "loader" (children blk) with [] => c = loader | [n] => exists l, ModuleFromNode (node_Args n) n = Ok l /\ c = Some l | _ => False end.
Proof.
  unfold given, loader_module. destruct (named _ _) as [|n [|n' ns]]; [done| |done].
  destruct (ModuleFromNode _ _); cbn; naive_solver.
Qed.

Lemma read_block (order : Map -> list matcher) loader blk : (forall m, range_order m (order m)) -> argument_loader blk = Ok loader ->
  match Process tls_zero (order (server_map loader blk)) (server_map loader blk) ∅ with
  | (vs, _, Ok _) => settles blk (mkTLSConfig (var_loader vs) (config_of true vs))
  | (_, _, Err _) => forall c, ~ settles blk c
  end.
Proof.
  intros Ho Ha. pose proof (ProcessWith_spec tls_zero (server_map loader blk) ∅ blk ∅ _ (server_wf _ _) (server_separate _ _) (Ho _)) as Hs.
  change (Process _ _ _ _) with (ProcessWith tls_zero (order (server_map loader blk)) ∅ blk (server_map loader blk) ∅).
  destruct (ProcessWith _ _ _ _ _ _) as [[vs m'] [unknown|e]].
  - destruct Hs as (Hv & Hu & Hd). specialize (Hd eq_refl). exists loader. split; [done|].
    assert (He : forall mt, server_entries_of loader !! mt_name mt = Some mt -> exists v, entry_value (server_map None blk) ∅ blk mt = Ok (Some v) /\
      forall x, mt_store mt = Some x -> vs !! x = Some v).
    { intros mt E. destruct (Hv _ _ E) as (v & E1 & E2 & _). destruct v as [v|]; [by exists v|]. exfalso.
      apply server_entry in E. revert E1. by destruct E as [[_ ->]|[[_ ->]|[[_ ->]|[_ ->]]]]; eapply entry_some. }
    assert (Hin : forall name mt, name = mt_name mt -> server_entries_of loader !! name = Some mt -> exists v,
      entry_value (server_map None blk) ∅ blk mt = Ok (Some v) /\ forall x, mt_store mt = Some x -> vs !! x = Some v) by (intros ? mt ->; apply He).
    destruct (Hin "loader" (loader_matcher loader)) as (vl & El & Vl); [done|apply server_entry; naive_solver|].
    destruct (Hin "protocols" (protocols_matcher (VersionTLS10, 0))) as (vp & Ep & Vp); [done|apply server_entry; naive_solver|].
    destruct (Hin "ciphers" ciphers_matcher) as (vc & Ec & Vc); [done|apply server_entry; naive_solver|].
    destruct (Hin "curves" curves_matcher) as (vu & Eu & Vu); [done|apply server_entry; naive_solver|].
    specialize (Vl _ eq_refl). specialize (Vp _ eq_refl). specialize (Vc _ eq_refl). specialize (Vu _ eq_refl).
    unfold var_loader, config_of, var_versions, var_ids. cbn [tls_loader tls_baseCfg tc_MinVersion tc_MaxVersion tc_CipherSuites tc_CurvePreferences tc_SessionTicketsDisabled].
    rewrite Vl, Vp, Vc, Vu.
    apply (entry_given blk _ loader (fun n => ModuleFromNode (node_Args n) n) TLoader) in El; [|done..].
    apply (entry_given blk _ (Some (VersionTLS10, 0)) TLSVersionsDirective TVersions) in Ep; [|done..].
    apply (entry_given blk _ None TLSCiphersDirective TIds) in Ec; [|done..].
    apply (entry_given blk _ None TLSCurvesDirective TIds) in Eu; [|done..].
    cbn [mt_name loader_matcher protocols_matcher ciphers_matcher curves_matcher] in *.
    split; [|split; [|split; [|split; [|split; [done|]]]]].
    + apply loader_given. destruct (named _ _) as [|n [|n' ns]]; [rewrite El; by destruct loader| |done]. destruct El as (l & E & ->). eauto.
    + unfold given. destruct (named "protocols" _) as [|n [|n' ns]]; [by rewrite Ep| |done]. destruct Ep as ([] & E & ->). done.
    + unfold given. destruct (named "ciphers" _) as [|n [|n' ns]]; [by rewrite Ec| |done]. destruct Ec as (l & E & ->). done.
    + unfold given. destruct (named "curves" _) as [|n [|n' ns]]; [by rewrite Eu| |done]. destruct Eu as (l & E & ->). done.
    + rewrite Hd in Hu. apply Forall_forall. intros n Hn. destruct (server_entries_of loader !! node_Name n) as [mt|] eqn:E.
      * apply server_entry in E. set_solver.
      * exfalso. assert (Hf : n ∈ filter (fun n => cm_entries (server_map loader blk) !! node_Name n = None) (children blk)) by (by apply list_elem_of_filter).
        rewrite <- Hu in Hf. by apply elem_of_nil in Hf.
  - intros c (loader' & Ha' & Hl & Hp & Hc & Hu & _ & Hf). rewrite Ha in Ha'. simplify_eq.
    destruct Hs as [(name & mt & e' & E & Ee)|[(_ & n & Hn & E)|(n & mt & cb & vs' & e' & _ & E & Ecb & _)]].
    + assert (Hr : readable blk "loader" (fun n => ModuleFromNode (node_Args n) n)).
      { apply loader_given in Hl. unfold readable. destruct (named _ _) as [|n [|n' ns]]; naive_solver. }
      apply given_readable in Hp, Hc, Hu. apply server_entry in E.
      destruct E as [[_ ->]|[[_ ->]|[[_ ->]|[_ ->]]]]; (eapply readable_entry; [..|exact Ee]); done.
    + rewrite Forall_forall in Hf. specialize (Hf n Hn).
      assert (is_Some (server_entries_of loader' !! node_Name n)) as [mt Hm]; [|cbn in E; by rewrite Hm in E].
      assert (exists mt, server_entries_of loader' !! node_Name n = Some mt) as [mt Hm]; [|eauto].
      rewrite !elem_of_cons, elem_of_nil in Hf.
      destruct Hf as [->|[->|[->|[->|[]]]]]; eexists; apply server_entry; naive_solver.
    + apply server_entry in E. by destruct E as [[_ ->]|[[_ ->]|[[_ ->]|[_ ->]]]].
Qed.

(** A tls block is accepted exactly when it names a loader, versions, cipher suites and
    curves that exist, each at most once, and nothing else; the settings are then those it
    names, whatever the order of Go's map: by default no version below TLS 1.0 is ruled
    out, and the cipher suites and curves are those of crypto/tls.  "off", and it alone,
    gives no TLS. *)
Theorem tls_block_spec (order : Map -> list matcher) blk : (forall m, range_order m (order m)) ->
  match readTLSBlock ModuleFromNode order blk with
  | Panicked _ => False
  | Done (Ok None) => head (node_Args blk) = Some "off"
  | Done (Ok (Some c)) => head (node_Args blk) <> Some "off" /\ settles blk c
  | Done (Err _) => head (node_Args blk) <> Some "off" /\ forall c, ~ settles blk c
  end.
Proof.
  intros Ho. assert (Hread : forall loader, argument_loader blk = Ok loader ->
    match (m ← server_directives ModuleFromNode loader (NewMap ∅ blk);
           mret (match Process tls_zero (order m) m ∅ with
                 | (_, _, Err err) => Err err
                 | (vs, _, Ok _) => Ok (Some (mkTLSConfig (var_loader vs) (config_of true vs)))
                 end)) with
    | Done (Ok (Some c)) => settles blk c
    | Done (Err _) => forall c, ~ settles blk c
    | _ => False
    end).
  { intros loader Ha. rewrite server_entries. cbn [mbind outcome_bind]. pose proof (read_block order loader blk Ho Ha) as Hr.
    unfold server_map in Hr. by destruct (Process _ _ _ _) as [[vs m'] [u|e]]. }
  unfold readTLSBlock. unfold argument_loader in Hread. destruct (node_Args blk) as [|arg args] eqn:Ea.
  - specialize (Hread None eq_refl). destruct (mbind _ _) as [[[c|]|e]|why]; done.
  - destruct (decide (arg = "off")) as [->|Hoff]; [done|].
    destruct (ModuleFromNode (arg :: args) Node_zero) as [l|e] eqn:El.
    + specialize (Hread (Some l) eq_refl). destruct (mbind _ _) as [[[c|]|e]|why]; naive_solver.
    + split; [naive_solver|]. intros c (loader & Hl & _). unfold argument_loader in Hl. rewrite Ea, El in Hl. done.
Qed.
End Spec.

#[local] Existing Instance ascii_tables.
Definition map_order {V} (m : Map (V := V)) : list (matcher (V := V)) := map snd (map_to_list (cm_entries m)).
Definition file_loader : list string -> Node -> Result gerror string := fun args _ =>
  match args with ["file"; cert; _] => Ok cert | _ => Err (ENew "unknown loader") end.
Definition sample_tls : Node := Config.block "tls" ["file"; "cert.pem"; "key.pem"] [directive "protocols" ["tls1.2"; "tls1.3"]; directive "curves" ["X25519"; "p256"]].
Lemma tls_block_spec_witness :
  (forall m, range_order m (map_order (V := tls_value string) m)) /\
  exists c, readTLSBlock file_loader map_order sample_tls = Done (Ok (Some c)) /\ settles file_loader sample_tls c.
Proof.
  assert (Ho : forall m, range_order m (map_order (V := tls_value string) m)) by (intros m; unfold range_order, map_order; reflexivity).
  split; [exact Ho|]. pose proof (tls_block_spec file_loader map_order sample_tls Ho) as Hs.
  destruct (readTLSBlock file_loader map_order sample_tls) as [[[c|]|e]|why] eqn:E; [|exfalso..].
  - exists c. split; [reflexivity|exact (proj2 Hs)].
  - by cbn in Hs.
  - assert (Hok : match readTLSBlock file_loader map_order sample_tls with Done (Ok _) => true | _ => false end = true) by (vm_compute; reflexivity).
    by rewrite E in Hok.
  - exact Hs.
Defined.

(** Versions in the wrong order are accepted. *)
Example versions_swapped : TLSVersionsDirective (directive "protocols" ["tls1.3"; "tls1.0"]) = Ok (VersionTLS13, VersionTLS10).
Proof. reflexivity. Qed.
(** A block that names no loader is accepted, and its Get gives no configuration. *)
Example no_loader_accepted :
  (o ← readTLSBlock (fun _ _ => Err (ENew "unknown loader")) map_order (Config.block "tls" [] [] : Node);
   mret (match o with Ok (Some c) => Some (Get (L := string) (fun _ cfg => Ok cfg) c) | _ => None end)) = Done (Some (Ok None)).
Proof. vm_compute. reflexivity. Qed.
(** An IPv6 address without a prefix length is trusted with the first 32 bits of it. *)
Example trusted_v6 : trust_text "2001:db8::1" = "2001:db8::1/32".
Proof. reflexivity. Qed.
