(* ===== verification/QueueStore.v ===== *)
(** * QueueStore: the queue's messages on disk

    The functions of internal/target/queue/queue.go that keep a message in the
    queue directory as the files ID.header, ID.body and ID.meta.  Paths are
    relative to the directory [q.location].  A file holds the value its encoder
    writes: the JSON of a QueueMetadata, a textproto header, or raw bytes. *)
From S2P Require Import Prelude GoStr ExtErrors Checks Module Disk.

Local Open Scope Z_scope.

(** *smtp.SMTPError of go-smtp, as the queue stores it. *)
Record smtp_err := mkSmtpErr { se_Code : Z; se_EnhancedCode : EnhancedCode; se_Message : string }.

(** Times are nanoseconds; a nil TriesCount and an empty one are not told apart,
    and RcptErrs is never nil (Start and the decoder make it). *)
Record QueueMetadata := mkQueueMetadata {
  qm_MsgMeta : MsgMetadata;
  qm_From : string;
  qm_To : list string;
  qm_FailedRcpts : list string;
  qm_TemporaryFailedRcpts : list string;
  qm_RcptErrs : gmap string smtp_err;
  qm_TriesCount : gmap string Z;
  qm_FirstAttempt : Z;
  qm_LastAttempt : Z
}.

Global Instance smtp_err_eq_dec : EqDecision smtp_err.
Proof. solve_decision. Defined.
Global Instance QueueMetadata_eq_dec : EqDecision QueueMetadata.
Proof. solve_decision. Defined.

Definition msg_id (meta : QueueMetadata) : string := mm_ID (qm_MsgMeta meta).

Definition set_MsgMeta (mm : MsgMetadata) (m : QueueMetadata) : QueueMetadata :=
  mkQueueMetadata mm (qm_From m) (qm_To m) (qm_FailedRcpts m) (qm_TemporaryFailedRcpts m)
    (qm_RcptErrs m) (qm_TriesCount m) (qm_FirstAttempt m) (qm_LastAttempt m).

(** What updateMetadataOnDisk encodes: the connection is dropped. *)
Definition stored_meta (meta : QueueMetadata) : QueueMetadata :=
  set_MsgMeta (set_Conn None (qm_MsgMeta meta)) meta.

Section Store.
Context `{Textproto}.

Inductive content :=
| CMeta (m : QueueMetadata)
| CHeader (h : header)
| CBlob (s : string)
| CTorn.

Abbreviation qfs := (fs (C := content)).
Abbreviation qdisk := (gmap string (file (C := content))).
Abbreviation Create := (os_Create (CBlob "")).
Abbreviation Write := (os_Write CTorn).

(** A file whose name ends with the extension. *)
Definition header_of (id : string) : string := id +:+ ".header".
Definition body_of (id : string) : string := id +:+ ".body".
Definition meta_of (id : string) : string := id +:+ ".meta".
Definition new_meta_of (id : string) : string := meta_of id +:+ ".new".

(** [if err != nil { return ... }] *)
Definition if_err {A B} (r : Result os_error A) (h : gerror -> B) (k : A -> B) : B :=
  match r with Err e => h (os_gerror e) | Ok a => k a end.

(** runtime.GOOS == "windows" *)
Context (windows : bool).
(** What reading a buffer that is a file outside the queue's directory yields:
    an error of Open, or the bytes read with the error they end with. *)
Context (outside : string -> Result gerror (string * error)).

(** body.Open() and the reads that follow. *)
Definition buffer_Open (b : Buffer) : Result gerror (string * error) :=
  match b with
  | MemoryBuffer s => Ok (s, None)
  | FileBuffer p _ => outside p
  end.

(** body.Len(); a FileBuffer without a hint asks the file system. *)
Definition buffer_Len (b : Buffer) : Z :=
  match b with
  | MemoryBuffer s => Z.of_nat (String.length s)
  | FileBuffer p hint =>
    if hint =? 0 then
      match outside p with Ok (s, _) => Z.of_nat (String.length s) | Err _ => 0 end
    else hint
  end.

(** The error is only logged. *)
Definition tryRemoveDanglingFile (name : string) : Prog qfs unit :=
  os_Remove name ;; mret tt.

Definition updateMetadataOnDisk (meta : QueueMetadata) : Prog qfs error :=
  let metaPath := meta_of (msg_id meta) in
  let path := if windows then metaPath else new_meta_of (msg_id meta) in
  r ← Create path;
  if_err r (fun e => mret (Some e)) (fun _ =>
  r ← Write path (CMeta (stored_meta meta));
  if_err r (fun e => mret (Some e)) (fun _ =>
  r ← os_Sync path;
  if_err r (fun e => mret (Some e)) (fun _ =>
  if windows then mret None
  else
    r ← os_Rename path metaPath;
    if_err r (fun e => mret (Some e)) (fun _ => mret None)))).

(** io.Copy of the body into its file. *)
Definition copy_body (path : string) (data : string * error) : Prog qfs error :=
  match data.2 with
  | None => r ← Write path (CBlob data.1); mret (os_err r)
  | Some e => r ← Write path CTorn;
              mret (match os_err r with Some we => Some we | None => Some e end)
  end.

Definition storeNewMessage (meta : QueueMetadata) (h : header) (body : Buffer)
  : Prog qfs (Result gerror Buffer) :=
  let id := msg_id meta in
  r ← Create (header_of id);
  if_err r (fun e => mret (Err e)) (fun _ =>
  r ← Write (header_of id) (CHeader h);
  if_err r (fun e => tryRemoveDanglingFile (header_of id) ;; mret (Err e)) (fun _ =>
  match buffer_Open body with
  | Err e => tryRemoveDanglingFile (header_of id) ;; mret (Err e)
  | Ok data =>
    r ← Create (body_of id);
    if_err r (fun e => mret (Err e)) (fun _ =>
    r ← copy_body (body_of id) data;
    match r with
    | Some e =>
      tryRemoveDanglingFile (body_of id) ;; tryRemoveDanglingFile (header_of id) ;; mret (Err e)
    | None =>
      r ← updateMetadataOnDisk meta;
      match r with
      | Some e =>
        tryRemoveDanglingFile (body_of id) ;; tryRemoveDanglingFile (header_of id) ;; mret (Err e)
      | None =>
        r ← os_Sync (header_of id);
        if_err r (fun e => mret (Err e)) (fun _ =>
        r ← os_Sync (body_of id);
        if_err r (fun e => mret (Err e)) (fun _ =>
        mret (Ok (FileBuffer (body_of id) (buffer_Len body)))))
      end
    end)
  end)).

(** Errors are only logged. *)
Definition removeFromDisk (mm : MsgMetadata) : Prog qfs unit :=
  os_Remove (header_of (mm_ID mm)) ;;
  os_Remove (body_of (mm_ID mm)) ;;
  os_Remove (meta_of (mm_ID mm)) ;;
  mret tt.

Definition discardBroken (id : string) : Prog qfs unit :=
  os_Rename (meta_of id) (id +:+ ".meta_broken") ;; mret tt.

Definition errDecode : gerror := EErrorf "invalid meta-data" None.
Definition errHeader : gerror := EErrorf "malformed header" None.

Definition readMessageMeta (id : string) : Prog qfs (Result gerror QueueMetadata) :=
  r ← os_Read (meta_of id);
  if_err r (fun e => mret (Err e)) (fun c =>
  match c with CMeta m => mret (Ok m) | _ => mret (Err errDecode) end).

Definition openMessage (id : string) : Prog qfs (Result gerror (QueueMetadata * header * Buffer)) :=
  r ← readMessageMeta id;
  match r with
  | Err e => mret (Err e)
  | Ok meta =>
    r ← os_Stat (body_of id);
    match r with
    | Err e =>
      (if IsNotExist e then tryRemoveDanglingFile (meta_of id) else mret tt) ;;
      mret (Err (os_gerror e))
    | Ok _ =>
      r ← os_Read (header_of id);
      match r with
      | Err e =>
        (if IsNotExist e
         then tryRemoveDanglingFile (meta_of id) ;; tryRemoveDanglingFile (body_of id)
         else mret tt) ;;
        mret (Err (os_gerror e))
      | Ok (CHeader h) => mret (Ok (meta, h, FileBuffer (body_of id) 0))
      | Ok _ => mret (Err errHeader)
      end
    end
  end.

(** ** File names of one message are distinct *)

Lemma names_distinct (id : string) :
  header_of id <> body_of id /\ header_of id <> meta_of id /\ header_of id <> new_meta_of id /\
  body_of id <> meta_of id /\ body_of id <> new_meta_of id /\ meta_of id <> new_meta_of id.
Proof.
  assert (new_meta_of id = id +:+ ".meta.new") as ->.
  { unfold new_meta_of, meta_of. by rewrite str_app_assoc. }
  unfold header_of, body_of, meta_of.
  repeat split; intros E; by apply (inj (String.append id)) in E.
Qed.

(** Lookups in a directory after writes to named files. *)
Ltac lookup_names id :=
  destruct (names_distinct id) as (?&?&?&?&?&?); unfold sync_at;
  repeat first
    [ rewrite lookup_insert_eq | rewrite lookup_alter_eq | rewrite lookup_delete_eq
    | rewrite lookup_insert_ne by congruence | rewrite lookup_alter_ne by congruence
    | rewrite lookup_delete_ne by congruence ]; simpl.

(** ** The meta-data file *)

(** Outside the meta-data file of [meta] and its temporary copy nothing changed,
    and the meta-data file is the one of [d0] or the new one, complete and synced. *)
Definition meta_old_or_new (d0 : qdisk) (id : string) (meta : QueueMetadata) (d : qdisk) : Prop :=
  (d !! meta_of id = d0 !! meta_of id
   \/ d !! meta_of id = Some (mkFile (CMeta (stored_meta meta)) true)) /\
  forall q, q <> meta_of id -> q <> new_meta_of id -> d !! q = d0 !! q.

Lemma updateMetadataOnDisk_wp (d0 : qdisk) meta :
  windows = false ->
  wp (meta_old_or_new d0 (msg_id meta) meta) (updateMetadataOnDisk meta)
    (fun r d => meta_old_or_new d0 (msg_id meta) meta d /\
      match r with
      | None => d !! meta_of (msg_id meta) = Some (mkFile (CMeta (stored_meta meta)) true)
      | Some _ => d !! meta_of (msg_id meta) = d0 !! meta_of (msg_id meta)
      end) d0.
Proof.
  intros Hw. unfold updateMetadataOnDisk. rewrite Hw.
  generalize (msg_id meta) as id. intros id.
  assert (forall d, d !! meta_of id = d0 !! meta_of id ->
            (forall q, q <> meta_of id -> q <> new_meta_of id -> d !! q = d0 !! q) ->
            meta_old_or_new d0 id meta d) as Hold by (split; auto).
  apply wp_bind, wp_Create; [intros e; apply wp_ret; eauto 10| |].
  all: assert (forall f, meta_old_or_new d0 id meta (<[new_meta_of id := f]> d0)) as Hins
    by (intros f; apply Hold; [by lookup_names id|intros q ??; by rewrite lookup_insert_ne by congruence]).
  { apply Hins. }
  apply wp_bind, wp_Write; rewrite ?insert_insert_eq; [apply Hins| |apply Hins|].
  { intros e. apply wp_ret. split; [apply Hins|]. by lookup_names id. }
  apply wp_bind, wp_Sync.
  { intros e. apply wp_ret. split; [apply Hins|]. by lookup_names id. }
  all: unfold sync_at; rewrite alter_insert_eq; simpl.
  { apply Hins. }
  apply wp_bind. eapply wp_Rename; [apply lookup_insert_eq| | |].
  { intros e. apply wp_ret. split; [apply Hins|]. by lookup_names id. }
  all: rewrite delete_insert_eq.
  all: assert (meta_old_or_new d0 id meta
         (<[meta_of id := mkFile (CMeta (stored_meta meta)) true]> (delete (new_meta_of id) d0)))
    as Hnew by (split; [right; apply lookup_insert_eq|
                  intros q ??; rewrite lookup_insert_ne, lookup_delete_ne by congruence; done]).
  - done.
  - apply wp_ret. split; [done|apply lookup_insert_eq].
Qed.


(** ** Storing a message *)

Definition on_disk (d : qdisk) (id : string) (meta : QueueMetadata) (h : header) (blob : string)
    (synced : bool) : Prop :=
  d !! meta_of id = Some (mkFile (CMeta (stored_meta meta)) true) /\
  (exists s1, d !! header_of id = Some (mkFile (CHeader h) s1) /\ (synced = true -> s1 = true)) /\
  (exists s2, d !! body_of id = Some (mkFile (CBlob blob) s2) /\ (synced = true -> s2 = true)).

(** What storeNewMessage leaves. *)
Definition store_result (d0 : qdisk) meta h body (r : Result gerror Buffer) (d : qdisk) : Prop :=
  match r with
  | Ok b => b = FileBuffer (body_of (msg_id meta)) (buffer_Len body) /\
            exists blob, buffer_Open body = Ok (blob, None) /\
              on_disk d (msg_id meta) meta h blob true
  | Err _ => d !! meta_of (msg_id meta) = d0 !! meta_of (msg_id meta) \/
             exists blob, buffer_Open body = Ok (blob, None) /\
               on_disk d (msg_id meta) meta h blob false
  end.

Abbreviation anywhere := (fun _ : qdisk => True).

Lemma tryRemove_wp (I : qdisk -> Prop) name Q d :
  Q tt d -> I (delete name d) -> Q tt (delete name d) -> wp I (tryRemoveDanglingFile name) Q d.
Proof. intros. apply wp_bind, wp_Remove; [|done|]; intros; by apply wp_ret. Qed.

(** The two clean-ups after a failure leave the meta-data file alone. *)
Lemma cleanup_wp id (e : gerror) (P : option file -> Prop) (d : qdisk) :
  P (d !! meta_of id) ->
  wp anywhere (tryRemoveDanglingFile (body_of id) ;; tryRemoveDanglingFile (header_of id) ;;
               mret (Err (A := Buffer) e))
    (fun r d' => r = Err e /\ P (d' !! meta_of id)) d.
Proof.
  intros HP. apply wp_bind, tryRemove_wp; [|done|];
    (apply wp_bind, tryRemove_wp; [|done|]); apply wp_ret; split; (done || by lookup_names id).
Qed.

Lemma copy_body_wp path data Q (d : qdisk) :
  (forall e, Q (Some e) (<[path := mkFile CTorn false]> d)) ->
  (data.2 = None -> Q None (<[path := mkFile (CBlob data.1) false]> d)) ->
  wp anywhere (copy_body path data) Q d.
Proof.
  intros He Hok. unfold copy_body. destruct data as [blob [e|]]; simpl in *;
    apply wp_bind, wp_Write; try done; intros; apply wp_ret; simpl; auto.
Qed.

Lemma wp_any I A (m : Prog qfs A) Q d : wp I m Q d -> wp anywhere m Q d.
Proof.
  intros Hm s s' o Hd E. destruct (Hm _ _ _ Hd E) as ((n & ? & _) & HQ).
  split; [|done]. exists n. split; [done|]. by apply Forall_forall.
Qed.

Lemma storeNewMessage_wp (d0 : qdisk) meta h body :
  windows = false ->
  wp anywhere (storeNewMessage meta h body) (store_result d0 meta h body) d0.
Proof.
  intros Hw. unfold storeNewMessage, store_result.
  pose proof (updateMetadataOnDisk_wp) as Hupd.
  specialize (fun d => Hupd d meta Hw). revert Hupd. generalize (updateMetadataOnDisk meta) as upd.
  generalize (msg_id meta) as id. intros id upd Hupd.
  apply wp_bind, wp_Create; [intros e; apply wp_ret; by left|done|].
  apply wp_bind, wp_Write; [done| |done|]; rewrite ?insert_insert_eq.
  { intros e. apply wp_bind, tryRemove_wp; [|done|]; apply wp_ret; left; by lookup_names id. }
  simpl. destruct (buffer_Open body) as [data|e].
  2:{ apply wp_bind, tryRemove_wp; [|done|]; apply wp_ret; left; by lookup_names id. }
  apply wp_bind, wp_Create; [intros e; apply wp_ret; left; by lookup_names id|done|].
  apply wp_bind, copy_body_wp; rewrite ?insert_insert_eq.
  { intros e. eapply wp_weaken;
      [apply (cleanup_wp id e (fun f => f = d0 !! meta_of id)); by lookup_names id|].
    intros r d' [-> ?]. by left. }
  destruct data as [blob rest]; simpl. intros ->.
  apply wp_bind. eapply wp_weaken; [eapply wp_any, Hupd|]. intros [e|] d ((_ & Hother) & Hm).
  { eapply wp_weaken; [apply (cleanup_wp id e (fun f => f = d0 !! meta_of id))|].
    - rewrite Hm. by lookup_names id.
    - intros r d' [-> ?]. by left. }
  assert (d !! header_of id = Some (mkFile (CHeader h) false) /\
          d !! body_of id = Some (mkFile (CBlob blob) false)) as [Hh Hb].
  { split; (rewrite Hother; [by lookup_names id|..]); destruct (names_distinct id); naive_solver. }
  apply wp_bind, wp_Sync; [|done|].
  { intros e. apply wp_ret. right. exists blob. unfold on_disk. eauto 10. }
  apply wp_bind, wp_Sync; [|done|]; intros; apply wp_ret.
  - right. exists blob. split; [done|]. unfold on_disk. lookup_names id.
    rewrite Hm, Hh, Hb. simpl. eauto 10.
  - split; [done|]. exists blob. split; [done|]. unfold on_disk. lookup_names id.
    rewrite Hm, Hh, Hb. simpl. eauto 10.
Qed.


(** ** Opening a message *)

Definition complete (d : qdisk) (id : string) : Prop :=
  is_Some (d !! meta_of id) /\ is_Some (d !! header_of id) /\ is_Some (d !! body_of id).

Lemma openMessage_needs id (d : qdisk) :
  wp anywhere (openMessage id) (fun r _ => is_ok r = true -> complete d id) d.
Proof.
  unfold openMessage, readMessageMeta.
  apply wp_bind, wp_bind, wp_Read; try (intros; apply wp_ret, wp_ret; done).
  intros [c sy] Hm. destruct c as [m| | |]; try (apply wp_ret, wp_ret; done).
  apply wp_ret, wp_bind, wp_Stat.
  - intros e. apply wp_bind, wp_ret, wp_ret. done.
  - intros _. apply wp_bind, tryRemove_wp; try done; by apply wp_ret.
  - intros Hb. apply wp_bind, wp_Read.
    + intros e. apply wp_bind, wp_ret, wp_ret. done.
    + intros _. apply wp_bind, wp_bind, tryRemove_wp; try done;
        (apply tryRemove_wp; try done); by apply wp_ret.
    + intros f Hh. destruct (f_content f); apply wp_ret; [done| |done|done].
      intros _. split; [|split]; eauto.
Qed.

Lemma openMessage_complete id s m h sy1 sy2 c sy3 :
  fs_faults s = [] ->
  fs_disk s !! meta_of id = Some (mkFile (CMeta m) sy1) ->
  fs_disk s !! header_of id = Some (mkFile (CHeader h) sy2) ->
  fs_disk s !! body_of id = Some (mkFile c sy3) ->
  openMessage id s = (s, Done (Ok (m, h, FileBuffer (body_of id) 0))).
Proof.
  intros Hf Hm Hh Hb. destruct s as [d fl hi]; simpl in *. subst fl.
  cbv [openMessage readMessageMeta os_Read os_Stat faulty next_fault mbind prog_bind mret prog_ret gets].
  simpl. rewrite Hm. simpl. rewrite Hb. simpl. by rewrite Hh.
Qed.

(** ** A directory where nothing fails *)

Lemma updateMetadataOnDisk_nofault meta s :
  windows = false -> fs_faults s = [] ->
  exists s', updateMetadataOnDisk meta s = (s', Done None) /\ fs_faults s' = [] /\
    fs_disk s' = <[meta_of (msg_id meta) := mkFile (CMeta (stored_meta meta)) true]>
                   (delete (new_meta_of (msg_id meta)) (fs_disk s)).
Proof.
  intros Hw Hf. destruct s as [d fl hi]. simpl in Hf. subst fl.
  unfold updateMetadataOnDisk. rewrite Hw. generalize (msg_id meta) as id. intros id.
  cbv [os_Create os_Write os_Sync os_Rename faulty next_fault mbind prog_bind mret prog_ret gets
       set_disk modify if_err os_err os_gerror fs_disk fs_faults fs_history].
  rewrite lookup_alter_eq, lookup_insert_eq. simpl. eexists. split; [done|]. split; [done|]. simpl.
  by rewrite alter_insert_eq, !insert_insert_eq, delete_insert_eq.
Qed.

Lemma os_Remove_nofault p (s : qfs) :
  fs_faults s = [] -> exists s' r, os_Remove p s = (s', Done r) /\ fs_faults s' = [] /\
                                   fs_disk s' = delete p (fs_disk s).
Proof.
  intros Hf. destruct s as [d fl hi]. simpl in Hf. subst fl.
  cbv [os_Remove faulty next_fault mbind prog_bind mret prog_ret gets set_disk modify]. simpl.
  destruct (d !! p) eqn:E; simpl; do 2 eexists; (split; [done|]); (split; [done|]); [done|].
  by rewrite delete_id.
Qed.

Lemma removeFromDisk_nofault mm s :
  fs_faults s = [] ->
  exists s', removeFromDisk mm s = (s', Done tt) /\ fs_faults s' = [] /\
    fs_disk s' = delete (meta_of (mm_ID mm)) (delete (body_of (mm_ID mm))
                   (delete (header_of (mm_ID mm)) (fs_disk s))).
Proof.
  intros Hf. unfold removeFromDisk.
  destruct (os_Remove_nofault (header_of (mm_ID mm)) s Hf) as (s1 & r1 & E1 & Hf1 & D1).
  destruct (os_Remove_nofault (body_of (mm_ID mm)) s1 Hf1) as (s2 & r2 & E2 & Hf2 & D2).
  destruct (os_Remove_nofault (meta_of (mm_ID mm)) s2 Hf2) as (s3 & r3 & E3 & Hf3 & D3).
  exists s3. split; [|by rewrite D3, D2, D1].
  unfold mbind, prog_bind. by rewrite E1, E2, E3.
Qed.

Lemma discardBroken_nofault id s :
  fs_faults s = [] ->
  exists s', discardBroken id s = (s', Done tt) /\ fs_faults s' = [] /\ fs_disk s' !! meta_of id = None.
Proof.
  intros Hf. destruct s as [d fl hi]. simpl in Hf. subst fl.
  assert (meta_of id <> id +:+ ".meta_broken") as Hne
    by (unfold meta_of; intros E; by apply (inj (String.append id)) in E).
  cbv [discardBroken os_Rename faulty next_fault mbind prog_bind mret prog_ret gets set_disk modify].
  simpl. destruct (d !! meta_of id) eqn:E; simpl; eexists; (split; [done|]); (split; [done|]); [|done].
  simpl. by rewrite lookup_insert_ne, lookup_delete_eq by done.
Qed.

(** ** Properties *)

(** The content of a file, where it exists. *)
Definition content_of (d : qdisk) (p : string) : option content := f_content <$> d !! p.

Lemma crash_content_of (d d' : qdisk) p :
  crash d d' -> (forall f, d !! p = Some f -> f_synced f = true) -> content_of d' p = content_of d p.
Proof.
  intros Hc Hs. unfold content_of. specialize (Hc p).
  destruct (d !! p) as [f|]; [|by rewrite Hc].
  destruct Hc as (f' & -> & E). simpl. by rewrite E by auto.
Qed.

(** C12: updateMetadataOnDisk replaces the meta-data of a message atomically.
    Whatever operations fail, the machine can stop in any state it goes through
    and the meta-data file found afterwards is the complete old one or the
    complete new one; it returns nil only when the new one is in place and
    synced, an error only when the old one still is, and it touches no other file
    than ID.meta and ID.meta.new. *)
Theorem updateMetadataOnDisk_crash_safe meta s s' o
    (Hw : windows = false)
    (Hold : forall f, fs_disk s !! meta_of (msg_id meta) = Some f -> f_synced f = true)
    (Hrun : updateMetadataOnDisk meta s = (s', o)) :
  let p := meta_of (msg_id meta) in
  (exists r, o = Done r /\
     match r with
     | None => fs_disk s' !! p = Some (mkFile (CMeta (stored_meta meta)) true)
     | Some _ => fs_disk s' !! p = fs_disk s !! p
     end) /\
  forall d, states_since s s' d ->
    (forall q, q <> p -> q <> new_meta_of (msg_id meta) -> d !! q = fs_disk s !! q) /\
    forall d', crash d d' ->
      content_of d' p = content_of (fs_disk s) p \/ content_of d' p = Some (CMeta (stored_meta meta)).
Proof.
  destruct (updateMetadataOnDisk_wp (fs_disk s) meta Hw s s' o eq_refl Hrun)
    as ((new & Hnew & HI) & r & -> & _ & Hr).
  split; [eauto|]. intros d (new' & E & Hd). rewrite Hnew in E. apply app_inv_tail in E as <-.
  rewrite Forall_forall in HI. destruct (HI _ Hd) as [Hp Hq]. split; [done|].
  intros d' Hc. rewrite (crash_content_of _ _ _ Hc).
  - unfold content_of. destruct Hp as [->| ->]; auto.
  - intros f Hf. destruct Hp as [Hp|Hp]; rewrite Hp in Hf; [auto|by simplify_eq].
Qed.

Lemma store_result_durable (d0 : qdisk) meta h body b d d' :
  store_result d0 meta h body (Ok b) d -> crash d d' ->
  (exists blob, buffer_Open body = Ok (blob, None) /\
                content_of d' (body_of (msg_id meta)) = Some (CBlob blob)) /\
  openMessage (msg_id meta) (mkFs d' [] []) =
  (mkFs d' [] [], Done (Ok (stored_meta meta, h, FileBuffer (body_of (msg_id meta)) 0))).
Proof.
  intros (-> & blob & Ho & Hm & (s1 & Hh & Es1) & (s2 & Hb & Es2)) Hc.
  rewrite Es1 in Hh by done. rewrite Es2 in Hb by done.
  destruct (crash_synced _ _ _ _ Hc Hm) as ([? ?] & Hm' & Em).
  destruct (crash_synced _ _ _ _ Hc Hh) as ([? ?] & Hh' & Eh).
  destruct (crash_synced _ _ _ _ Hc Hb) as ([? ?] & Hb' & Eb). simpl in *. subst.
  split; [|by eapply openMessage_complete].
  exists blob. split; [done|]. unfold content_of. by rewrite Hb'.
Qed.

(** C11: when storeNewMessage reports success the message is durable: in every
    directory a crash can leave, opening the message yields the stored meta-data
    (without the connection), the header and the body file.  When it reports an
    error, either the meta-data file is as before, so that nothing new can be
    delivered, or the whole message is already there. *)
Theorem storeNewMessage_durable meta h body s s' o
    (Hw : windows = false) (Hrun : storeNewMessage meta h body s = (s', o)) :
  exists r, o = Done r /\
    match r with
    | Ok b =>
      b = FileBuffer (body_of (msg_id meta)) (buffer_Len body) /\
      forall d', crash (fs_disk s') d' ->
        (exists blob, buffer_Open body = Ok (blob, None) /\
                      content_of d' (body_of (msg_id meta)) = Some (CBlob blob)) /\
        openMessage (msg_id meta) (mkFs d' [] []) =
        (mkFs d' [] [], Done (Ok (stored_meta meta, h, FileBuffer (body_of (msg_id meta)) 0)))
    | Err _ =>
      fs_disk s' !! meta_of (msg_id meta) = fs_disk s !! meta_of (msg_id meta) \/
      exists blob, buffer_Open body = Ok (blob, None) /\
                   on_disk (fs_disk s') (msg_id meta) meta h blob false
    end.
Proof.
  destruct (storeNewMessage_wp (fs_disk s) meta h body Hw s s' o eq_refl Hrun) as (_ & r & -> & Hr).
  exists r. split; [done|]. destruct r as [b|e]; [|done].
  split; [apply Hr|]. intros d' Hc. by eapply store_result_durable.
Qed.

(** Removing a message never leaves one that can be delivered again: in
    every state removeFromDisk goes through, with any of its three removals
    failing, one of the three files is gone, and after a crash there openMessage
    fails. *)
Theorem removeFromDisk_not_redelivered mm s s' o d d' sx r
    (Hrun : removeFromDisk mm s = (s', o))
    (Hst : states_since s s' d) (Hc : crash d d')
    (Hopen : openMessage (mm_ID mm) (mkFs d' [] []) = (sx, Done r)) :
  ~ complete d (mm_ID mm) /\ is_ok r = false.
Proof.
  assert (~ complete d (mm_ID mm)) as Hn.
  { assert (wp (fun d => ~ complete d (mm_ID mm)) (removeFromDisk mm) (fun _ _ => True) (fs_disk s)) as Hwp.
    { unfold removeFromDisk, complete, is_Some.
      repeat (simpl; match goal with
        | |- wp _ (mret _) _ _ => by apply wp_ret
        | |- wp _ _ _ _ => apply wp_bind, wp_Remove; [intros ?| |]
        end); lookup_names (mm_ID mm); naive_solver. }
    destruct (Hwp s s' o eq_refl Hrun) as ((new & Hnew & HI) & _).
    destruct Hst as (new' & E & Hd). rewrite Hnew in E. apply app_inv_tail in E as <-.
    rewrite Forall_forall in HI. by apply HI. }
  split; [done|]. destruct (is_ok r) eqn:Er; [|done]. exfalso. apply Hn.
  destruct (openMessage_needs (mm_ID mm) d' (mkFs d' [] []) _ _ eq_refl Hopen) as (_ & r' & ? & Hr). simplify_eq.
  specialize (Hr Er). unfold complete in *.
  assert (forall p, is_Some (d' !! p) -> is_Some (d !! p)) as Hback.
  { intros p [f Hf]. destruct (d !! p) as [g|] eqn:Ep; [eauto|].
    by rewrite (crash_absent _ _ _ Hc Ep) in Hf. }
  naive_solver.
Qed.

(** When the sync of the header fails after the meta-data has been written,
    storeNewMessage reports the error but leaves the whole message on disk, so
    the next start of the queue can deliver a message its source was told was
    not accepted. *)
Theorem storeNewMessage_sync_failure_keeps_message meta h blob e s
    (Hw : windows = false) (Hf : fs_faults s = replicate 8 None ++ [Some e]) :
  exists s', storeNewMessage meta h (MemoryBuffer blob) s = (s', Done (Err e)) /\
    fs_faults s' = [] /\
    openMessage (msg_id meta) s'
    = (s', Done (Ok (stored_meta meta, h, FileBuffer (body_of (msg_id meta)) 0))).
Proof.
  destruct s as [d fl hi]. simpl in Hf. subst fl.
  unfold storeNewMessage, updateMetadataOnDisk, copy_body. rewrite Hw.
  generalize (msg_id meta) as id. intros id.
  cbv [os_Create os_Write os_Sync os_Rename faulty next_fault mbind prog_bind mret prog_ret gets
       set_disk modify if_err os_err os_gerror fs_disk fs_faults fs_history buffer_Open fst snd replicate app].
  rewrite lookup_alter_eq, lookup_insert_eq. simpl. eexists. split; [done|]. split; [done|].
  eapply openMessage_complete; [done|..]; simpl; by lookup_names id.
Qed.
End Store.

(** ** Witnesses *)

Definition sample_meta : QueueMetadata :=
  mkQueueMetadata
    (mkMsgMetadata "1a2b3c4d" "a@example.org" false false ∅ (mkMailOptions 0 true false) None false)
    "a@example.org" ["b@example.org"; "c@example.org"] [] [] ∅ ∅ 0 0.

Definition no_outside (_ : string) : Result gerror (string * error) := Err (ENew "no such file").

(** A fault while the new meta-data of a queued message is synced. *)
Definition sample_disk : gmap string (file (C := content (H := list_textproto))) :=
  {["1a2b3c4d.meta" := mkFile (CMeta sample_meta) true]}.
Definition sample_update := updateMetadataOnDisk (H := list_textproto) false sample_meta
  (mkFs sample_disk [None; None; Some (ENew "disk full")] []).

Lemma updateMetadataOnDisk_crash_safe_witness :
  exists d, states_since (mkFs sample_disk [None; None; Some (ENew "disk full")] []) sample_update.1 d /\
    d !! "1a2b3c4d.meta.new" = Some (mkFile CTorn false) /\
    content_of d "1a2b3c4d.meta" = Some (CMeta sample_meta).
Proof.
  exists (<["1a2b3c4d.meta.new" := mkFile CTorn false]> sample_disk).
  assert (states_since (mkFs sample_disk [None; None; Some (ENew "disk full")] []) sample_update.1
            (<["1a2b3c4d.meta.new" := mkFile CTorn false]> sample_disk)) as Hst.
  { exists (fs_history sample_update.1). split; [reflexivity|]. vm_compute. right. left. }
  split; [exact Hst|]. split; [reflexivity|].
  destruct (updateMetadataOnDisk_crash_safe (H := list_textproto) false sample_meta
              (mkFs sample_disk [None; None; Some (ENew "disk full")] []) sample_update.1 sample_update.2)
    as [_ Hs].
  - reflexivity.
  - intros f Hf. vm_compute in Hf. by injection Hf as <-.
  - vm_compute. reflexivity.
  - destruct (Hs _ Hst) as [Ho _]. reflexivity.
Defined.

Lemma storeNewMessage_durable_witness :
  exists s', storeNewMessage (H := list_textproto) false no_outside sample_meta ["From: a"] (MemoryBuffer "hi")
               (mkFs ∅ [] []) = (s', Done (Ok (FileBuffer "1a2b3c4d.body" 2))) /\
    openMessage (H := list_textproto) "1a2b3c4d" (mkFs (fs_disk s') [] [])
    = (mkFs (fs_disk s') [] [], Done (Ok (sample_meta, ["From: a"], FileBuffer "1a2b3c4d.body" 0))).
Proof.
  eexists. split; [vm_compute; reflexivity|].
  destruct (storeNewMessage_durable (H := list_textproto) false no_outside sample_meta ["From: a"]
              (MemoryBuffer "hi") (mkFs ∅ [] [])
              (storeNewMessage (H := list_textproto) false no_outside sample_meta ["From: a"]
                 (MemoryBuffer "hi") (mkFs ∅ [] [])).1
              (Done (Ok (FileBuffer "1a2b3c4d.body" 2)))) as (r & Er & Hr).
  - reflexivity.
  - vm_compute. reflexivity.
  - injection Er as <-. destruct Hr as [_ Hr]. apply Hr, crash_refl.
Defined.

(** The queue stops after the header is removed. *)
Definition stored_disk : gmap string (file (C := content (H := list_textproto))) :=
  {["1a2b3c4d.meta" := mkFile (CMeta sample_meta) true;
    "1a2b3c4d.header" := mkFile (CHeader (H := list_textproto) ["From: a"]) true;
    "1a2b3c4d.body" := mkFile (CBlob "hi") true]}.
Definition headless_disk := delete "1a2b3c4d.header" stored_disk.

Lemma removeFromDisk_not_redelivered_witness :
  is_ok (E := gerror) (match (openMessage (H := list_textproto) "1a2b3c4d" (mkFs headless_disk [] [])).2 with
                       | Done r => r | Panicked _ => Ok (sample_meta, ["From: a"], MemoryBuffer "") end) = false.
Proof.
  destruct (removeFromDisk_not_redelivered (H := list_textproto) (qm_MsgMeta sample_meta)
    (mkFs stored_disk [] []) (removeFromDisk (H := list_textproto) (qm_MsgMeta sample_meta) (mkFs stored_disk [] [])).1
    (Done tt) headless_disk headless_disk
    (openMessage (H := list_textproto) "1a2b3c4d" (mkFs headless_disk [] [])).1
    (Err (os_gerror (NotExist "1a2b3c4d.header")))) as [_ Hr].
  - vm_compute. reflexivity.
  - eexists [_; _; _]. split; [vm_compute; reflexivity|]. vm_compute. right. right. left.
  - apply crash_refl.
  - vm_compute. reflexivity.
  - reflexivity.
Defined.

Lemma storeNewMessage_sync_failure_keeps_message_witness :
  exists s', storeNewMessage (H := list_textproto) false no_outside sample_meta ["From: a"] (MemoryBuffer "hi")
               (mkFs ∅ (replicate 8 None ++ [Some (ENew "disk full")]) []) = (s', Done (Err (ENew "disk full"))) /\
    (openMessage (H := list_textproto) "1a2b3c4d" s').2
    = Done (Ok (sample_meta, ["From: a"], FileBuffer "1a2b3c4d.body" 0)).
Proof.
  destruct (storeNewMessage_sync_failure_keeps_message (H := list_textproto) false no_outside sample_meta
    ["From: a"] "hi" (ENew "disk full") (mkFs ∅ (replicate 8 None ++ [Some (ENew "disk full")]) []))
    as (s' & E & _ & Ho); [reflexivity|reflexivity|].
  exists s'. split; [exact E|]. change "1a2b3c4d" with (msg_id sample_meta). rewrite Ho. reflexivity.
Defined.
