(* ===== verification/Delivery.v ===== *)
(** * Delivery: one attempt of the queue to hand a message to its target

    [toSMTPErr] and [deliver] of internal/target/queue/queue.go.  The target is
    any DeliveryTarget; the properties of [deliver] are stated on the trace of
    the calls it makes on it. *)
From S2P Require Import Prelude GoStr ExtErrors Checks Module Disk QueueStore.
From Stdlib Require Import Ascii.

Local Open Scope Z_scope.

(** ** Errors as the queue stores them *)

(** As written: a field of type exterrors.EnhancedCode fails the assertion to
    smtp.EnhancedCode. *)
Definition toSMTPErr (err : gerror) : smtp_err :=
  let '(code, ench) :=
    if IsTemporaryOrUnspec (Some err) then (451, Ench 4 0 0) else (554, Ench 5 0 0) in
  let ctxInfo := Fields (Some err) in
  let code := match ctxInfo !! "smtp_code" with Some (FInt c) => c | _ => code end in
  let ench := match ctxInfo !! "smtp_enchcode" with Some (FGoEnch c) => c | _ => ench end in
  let msg := match ctxInfo !! "smtp_msg" with Some (FStr m) => m | _ => "Internal server error" end in
  match err with
  | EGoSMTP c e m _ => mkSmtpErr c e m
  | _ => mkSmtpErr code ench msg
  end.

(** The common fields of an SMTPError hide those of the errors it wraps. *)
Lemma Fields_SMTPError code ench msg check tgt mo reason inner misc k v :
  SMTPError_Fields code ench msg check tgt reason inner misc !! k = Some v -> v <> FNil ->
  Fields (Some (ESMTP code ench msg check tgt mo reason inner misc)) !! k = Some v.
Proof.
  intros Hk Hv. set (e := ESMTP _ _ _ _ _ _ _ _ _).
  pose proof (Fields_loop_nonnil e ∅ k) as E.
  assert (own_value k e = Some v) as Hov.
  { unfold own_value. simpl. rewrite Hk. simpl. by rewrite decide_False. }
  rewrite lookup_empty, chain_unwrap in E. cbn [map first_some] in E. rewrite Hov in E.
  unfold nonnil in E. change (Fields_loop e ∅) with (Fields (Some e)) in E.
  destruct (Fields (Some e) !! k) as [v'|]; simpl in E; [|done]. case_decide; by simplify_eq.
Qed.

Lemma SMTPError_Fields_lookup code ench msg check tgt reason inner misc k :
  k <> "check" -> k <> "target" -> k <> "reason" ->
  SMTPError_Fields code ench msg check tgt reason inner misc !! k
  = (<["smtp_msg" := FStr msg]> (<["smtp_enchcode" := FEnch ench]>
      (<["smtp_code" := FInt code]> misc))) !! k.
Proof.
  intros ???. unfold SMTPError_Fields.
  repeat (case_decide || case_match); by rewrite ?lookup_insert_ne by done.
Qed.

(** The record the queue keeps of a failure reported as an
    exterrors.SMTPError has its code and message, but never its enhanced code:
    that is always the generic one of the code's class, because the value stored
    under smtp_enchcode has the other type. *)
Theorem toSMTPErr_SMTPError code ench msg check tgt mo reason inner misc :
  toSMTPErr (ESMTP code ench msg check tgt mo reason inner misc)
  = mkSmtpErr code (if SMTPError_Temporary code then Ench 4 0 0 else Ench 5 0 0) msg.
Proof.
  unfold toSMTPErr.
  rewrite !(Fields_SMTPError _ _ _ _ _ _ _ _ _ "smtp_code" (FInt code)),
    !(Fields_SMTPError _ _ _ _ _ _ _ _ _ "smtp_enchcode" (FEnch ench)),
    !(Fields_SMTPError _ _ _ _ _ _ _ _ _ "smtp_msg" (FStr msg));
    try done; try (rewrite SMTPError_Fields_lookup by done; by simplify_map_eq).
  unfold IsTemporaryOrUnspec. simpl. by destruct (SMTPError_Temporary code).
Qed.

(** ** deliver *)

Definition hex_digit (n : Z) : ascii :=
  ascii_of_N (Z.to_N (if n <? 10 then 48 + n else 87 + n)).
Fixpoint format_hex (fuel : nat) (n : Z) (acc : string) : string :=
  match fuel with
  | O => acc
  | S fuel =>
    let acc := String (hex_digit (n mod 16)) acc in
    if n <? 16 then acc else format_hex fuel (n / 16) acc
  end.
(** strconv.FormatInt(n, 16): an int64 has at most 16 hexadecimal digits. *)
Definition FormatInt16 (n : Z) : string :=
  if n <? 0 then String "-" (format_hex 16 (- n) "") else format_hex 16 n "".

(** time.Time.Unix *)
Definition Unix (t : Z) : Z := t / 1000000000.

Section Deliver.
Context `{Textproto} {W : Type}.

Abbreviation errs := (gmap string gerror).

(** [perr.Errs[rcpt] = err] for each of the recipients. *)
Definition expand (rcpts : list string) (err : gerror) (m : errs) : errs :=
  foldl (fun m r => <[r := err]> m) m rcpts.

(** partialError.SetStatus: nil is ignored. *)
Definition SetStatus (m : errs) (st : string * error) : errs :=
  match st.2 with None => m | Some err => <[st.1 := err]> m end.

(** The AddRcpt loop: the errors and the accepted recipients so far. *)
Fixpoint add_rcpts (d : Delivery W) (rcpts : list string) (m : errs) (accepted : list string)
  : Prog W (errs * list string) :=
  match rcpts with
  | [] => mret (m, accepted)
  | rcpt :: rcpts =>
    r ← dl_AddRcpt d rcpt;
    match r with
    | Some err => add_rcpts d rcpts (<[rcpt := err]> m) accepted
    | None => add_rcpts d rcpts m (accepted ++ [rcpt])
    end
  end.

(** The body, through BodyNonAtomic when the delivery has it. *)
Definition send_body (d : Delivery W) (h : header) (body : Buffer) (accepted : list string) (m : errs)
  : Prog W errs :=
  match dl_BodyNonAtomic d with
  | Some bodyNonAtomic => sts ← bodyNonAtomic h body; mret (foldl SetStatus m sts)
  | None =>
    r ← dl_Body d h body;
    mret (match r with Some err => expand accepted err m | None => m end)
  end.

Definition all_failed (m : errs) (accepted : list string) : bool :=
  forallb (fun r => bool_decide (is_Some (m !! r))) accepted.

(** One attempt.  The target is given a copy of the meta-data of its own (DeepCopy), with
    the time of the attempt in its ID: what it does to it does not reach the queue. *)
Definition deliver (target : DeliveryTarget W) (now : Z) (meta : QueueMetadata) (h : header)
    (body : Buffer) : Prog W errs :=
  let msgMeta := set_ID (msg_id meta +:+ "-" +:+ FormatInt16 (Unix now)) (qm_MsgMeta meta) in
  r ← tgt_Start target msgMeta (qm_From meta);
  match r with
  | Err err => mret (expand (qm_To meta) err ∅)
  | Ok d =>
    '(m, accepted) ← add_rcpts d (qm_To meta) ∅ [];
    match accepted with
    | [] => dl_Abort d ;; mret m
    | _ :: _ =>
      m ← send_body d h body accepted m;
      if all_failed m accepted then dl_Abort d ;; mret m
      else
        r ← dl_Commit d;
        mret (match r with Some err => expand accepted err m | None => m end)
    end
  end.

End Deliver.

(** ** The trace of an attempt *)

Section DeliverTrace.
Context `{Textproto} {W : Type}.
Abbreviation errs := (gmap string gerror).

(** What the calls of an attempt say of one recipient: the target accepted it
    every time it was offered, took the body for it, and committed. *)
Definition delivered_in (tr : list call) (r : string) : Prop :=
  CAddRcpt r None ∈ tr /\ (forall e, CAddRcpt r e ∈ tr -> e = None) /\
  (forall e, CBody e ∈ tr -> e = None) /\
  (forall sts e, CBodyNonAtomic sts ∈ tr -> (r, Some e) ∉ sts) /\
  CCommit None ∈ tr.

(** The calls the Delivery interface allows, as an automaton: Start first; then
    AddRcpt calls; then at most one body call; then one Abort or one Commit,
    Commit only after a body call.  The body call needs an accepted recipient. *)
Inductive dstate := DInit | DRcpt (accepted : bool) | DBodyDone | DEnd.

Definition protocol_step (s : dstate) (c : call) : option dstate :=
  match s, c with
  | DInit, CStart _ _ None => Some (DRcpt false)
  | DInit, CStart _ _ (Some _) => Some DEnd
  | DRcpt a, CAddRcpt _ None => Some (DRcpt true)
  | DRcpt a, CAddRcpt _ (Some _) => Some (DRcpt a)
  | DRcpt true, CBody _ | DRcpt true, CBodyNonAtomic _ => Some DBodyDone
  | DRcpt _, CAbort _ => Some DEnd
  | DBodyDone, CAbort _ | DBodyDone, CCommit _ => Some DEnd
  | _, _ => None
  end.
Definition protocol (s : dstate) (tr : list call) : option dstate :=
  foldl (fun s c => s ≫= fun s => protocol_step s c) (Some s) tr.

Lemma protocol_snoc s tr c : protocol s (tr ++ [c]) = protocol s tr ≫= fun s => protocol_step s c.
Proof. unfold protocol. by rewrite foldl_app. Qed.

(** *** Helper lemmas *)

Lemma expand_None rcpts err (m : errs) r :
  expand rcpts err m !! r = None <-> r ∉ rcpts /\ m !! r = None.
Proof.
  unfold expand. revert m. induction rcpts as [|x l IH]; intros m; simpl; [set_solver|].
  rewrite IH, lookup_insert_None. set_solver.
Qed.

Lemma SetStatus_None sts (m : errs) r :
  foldl SetStatus m sts !! r = None <-> m !! r = None /\ forall e, (r, Some e) ∉ sts.
Proof.
  revert m. induction sts as [|[x [e|]] l IH]; intros m; simpl; [set_solver|..]; rewrite IH;
    unfold SetStatus; simpl.
  - rewrite lookup_insert_None. set_solver.
  - set_solver.
Qed.

Lemma all_failed_spec (m : errs) accepted :
  all_failed m accepted = true <-> forall r, r ∈ accepted -> is_Some (m !! r).
Proof.
  unfold all_failed. rewrite forallb_forall. setoid_rewrite bool_decide_eq_true.
  by setoid_rewrite list_elem_of_In.
Qed.

(** The calls of the AddRcpt loop. *)
Definition rcpt_calls (rcpts : list string) (cs : list call) : Prop :=
  Forall2 (fun r c => exists e, c = CAddRcpt r e) rcpts cs.

Lemma rcpt_calls_inv rcpts cs c :
  rcpt_calls rcpts cs -> c ∈ cs -> exists r e, c = CAddRcpt r e /\ r ∈ rcpts.
Proof.
  intros Hf. induction Hf as [|r c' l cs [e ->] Hf IH]; [set_solver|].
  intros [->|Hin]%elem_of_cons; [set_solver|]. destruct (IH Hin) as (r' & e' & -> & ?). set_solver.
Qed.

Lemma rcpt_calls_elem rcpts cs r :
  rcpt_calls rcpts cs -> r ∈ rcpts -> exists e, CAddRcpt r e ∈ cs.
Proof.
  intros Hf. induction Hf as [|r' c' l cs [e ->] Hf IH]; [set_solver|].
  intros [->|Hin]%elem_of_cons; [set_solver|]. destruct (IH Hin) as (e' & ?). set_solver.
Qed.

Definition nonempty {A} (l : list A) : bool := match l with [] => false | _ => true end.

Lemma add_rcpts_trace (d : Delivery W) rcpts m acc w tr w' tr' m' acc' :
  add_rcpts (traced_delivery d) rcpts m acc (w, tr) = ((w', tr'), Done (m', acc')) ->
  exists cs, tr' = tr ++ cs /\ rcpt_calls rcpts cs /\
    (forall r, r ∈ acc' <-> r ∈ acc \/ CAddRcpt r None ∈ cs) /\
    (forall r, m' !! r = None <-> m !! r = None /\ forall e, CAddRcpt r e ∈ cs -> e = None) /\
    protocol (DRcpt (nonempty acc)) cs = Some (DRcpt (nonempty acc')).
Proof.
  revert m acc w tr. induction rcpts as [|x l IH]; intros m acc w tr E; simpl in E.
  - cbv [mret prog_ret] in E. simplify_eq. exists []. rewrite app_nil_r.
    split_and!; try done; [constructor|set_solver|set_solver].
  - apply prog_bind_Done in E as (wt & e & E1 & E2).
    apply log_call_Done in E1 as (w1 & _ & ->).
    destruct e as [err|]; apply IH in E2 as (cs & -> & Hf & Hacc & Hm & Hp).
    + exists (CAddRcpt x (Some err) :: cs). rewrite <- app_assoc.
      split_and!; [done|constructor; eauto|set_solver| |].
      * intros r. rewrite Hm, lookup_insert_None. set_solver.
      * rewrite <- Hp. unfold protocol. simpl. by destruct (nonempty acc).
    + exists (CAddRcpt x None :: cs). rewrite <- app_assoc.
      split_and!; [done|constructor; eauto|set_solver| |].
      * intros r. rewrite Hm. set_solver.
      * rewrite <- Hp. unfold protocol. simpl. by destruct acc.
Qed.

(** What a body call says of an accepted recipient. *)
Definition body_ok (c : call) (r : string) : Prop :=
  match c with
  | CBody e => e = None
  | CBodyNonAtomic sts => forall e, (r, Some e) ∉ sts
  | _ => False
  end.

Lemma send_body_trace (d : Delivery W) h b acc m w tr w' tr' m' :
  send_body (traced_delivery d) h b acc m (w, tr) = ((w', tr'), Done m') ->
  exists c, tr' = tr ++ [c] /\ protocol_step (DRcpt true) c = Some DBodyDone /\
    (forall r, m' !! r = None -> m !! r = None) /\
    forall r, r ∈ acc -> (m' !! r = None <-> m !! r = None /\ body_ok c r).
Proof.
  unfold send_body, traced_delivery. simpl. intros E.
  destruct (dl_BodyNonAtomic d) as [bna|];
    apply prog_bind_Done in E as (wt & res & E1 & E2); apply log_call_Done in E1 as (w1 & _ & ->);
    cbv [mret prog_ret] in E2; simplify_eq; eexists; (split; [done|]); (split; [done|]); simpl.
  - by setoid_rewrite SetStatus_None; naive_solver.
  - destruct res as [e|]; [setoid_rewrite expand_None|]; naive_solver.
Qed.

(** The meta-data the target is given: those of the message with an ID of the attempt *)
Definition attempt_meta (now : Z) (meta : QueueMetadata) : MsgMetadata :=
  set_ID (msg_id meta +:+ "-" +:+ FormatInt16 (Unix now)) (qm_MsgMeta meta).

(** The possible traces of an attempt, with the errors it returns. *)
Inductive attempt (mm : MsgMetadata) (from : string) (rcpts : list string) : list call -> errs -> Prop :=
| at_start e : attempt mm from rcpts [CStart mm from (Some e)] (expand rcpts e ∅)
| at_rcpts cs x (m : errs) :
    rcpt_calls rcpts cs -> protocol (DRcpt false) cs = Some (DRcpt false) ->
    (forall r, CAddRcpt r None ∉ cs) ->
    (forall r, m !! r = None <-> forall e, CAddRcpt r e ∈ cs -> e = None) ->
    attempt mm from rcpts (CStart mm from None :: cs ++ [CAbort x]) m
| at_body cs c final (acc : list string) (m m' : errs) :
    rcpt_calls rcpts cs -> protocol (DRcpt false) cs = Some (DRcpt true) ->
    protocol_step (DRcpt true) c = Some DBodyDone ->
    (forall r, r ∈ acc <-> CAddRcpt r None ∈ cs) ->
    (forall r, r ∈ acc -> (m !! r = None <-> (forall e, CAddRcpt r e ∈ cs -> e = None) /\ body_ok c r)) ->
    (forall r, r ∈ rcpts -> r ∉ acc -> is_Some (m' !! r)) ->
    (exists x, final = CAbort x /\ m' = m /\ forall r, r ∈ acc -> is_Some (m !! r)) \/
    (exists x, final = CCommit x /\
               forall r, r ∈ acc -> (m' !! r = None <-> m !! r = None /\ x = None)) ->
    attempt mm from rcpts (CStart mm from None :: cs ++ [c; final]) m'.

Lemma deliver_attempt (t : DeliveryTarget W) now meta h b w w' tr errs :
  deliver (traced t) now meta h b (w, []) = ((w', tr), Done errs) ->
  attempt (attempt_meta now meta) (qm_From meta) (qm_To meta) tr errs.
Proof.
  unfold deliver. intros E. apply prog_bind_Done in E as (wt & r & E1 & E2).
  unfold traced in E1. simpl in E1.
  apply prog_bind_Done in E1 as (wt' & r' & E1 & E3).
  apply log_call_Done in E1 as (w1 & _ & ->). cbv [mret prog_ret] in E3. simplify_eq.
  destruct r' as [d|e]; simpl in E2; [|cbv [mret prog_ret] in E2; simplify_eq; apply at_start].
  apply prog_bind_Done in E2 as (wt & [m acc] & E2 & E3). destruct wt as [w2 tr2].
  apply add_rcpts_trace in E2 as (cs & -> & Hf & Hacc & Hm & Hp). simpl in Hp.
  assert (forall r, r ∈ qm_To meta -> r ∉ acc -> is_Some (m !! r)) as Hrej.
  { intros r Hr Hn. apply not_eq_None_Some. rewrite Hm. intros [_ Hok].
    destruct (rcpt_calls_elem _ _ _ Hf Hr) as [e He]. rewrite (Hok e He) in He. apply Hn, Hacc. auto. }
  assert (forall r, r ∈ acc <-> CAddRcpt r None ∈ cs) as Hacc' by set_solver.
  destruct acc as [|x acc].
  { apply prog_bind_Done in E3 as (wt & y & E3 & E4). apply log_call_Done in E3 as (w3 & _ & ->).
    cbv [mret prog_ret] in E4. simplify_eq. apply at_rcpts; try done.
    - intros r. rewrite <- Hacc'. set_solver.
    - intros r. rewrite Hm. set_solver. }
  set (acc0 := x :: acc) in *. apply prog_bind_Done in E3 as (wt & m1 & E3 & E4).
  destruct wt as [w3 tr3]. apply send_body_trace in E3 as (c & -> & Hc & Hmono & Hb).
  assert (forall r, r ∈ acc0 ->
    (m1 !! r = None <-> (forall e, CAddRcpt r e ∈ cs -> e = None) /\ body_ok c r)) as Hb'.
  { intros r Hr. rewrite (Hb r Hr), Hm. set_solver. }
  assert (forall m2 : gmap string gerror, (forall r, m2 !! r = None -> m1 !! r = None) ->
    forall r, r ∈ qm_To meta -> r ∉ acc0 -> is_Some (m2 !! r)) as Hrej'.
  { intros m2 H2 r Hr Hn. apply not_eq_None_Some. intros E. apply H2, Hmono in E.
    destruct (Hrej r Hr Hn) as [y Hy]. congruence. }
  destruct (all_failed m1 acc0) eqn:Ef;
    apply prog_bind_Done in E4 as (wt & y & E4 & E5); apply log_call_Done in E4 as (w4 & _ & ->);
    cbv [mret prog_ret] in E5; simplify_eq; cbn [app]; rewrite <- app_assoc; eapply at_body; eauto.
  - left. eexists. split; [done|]. split; [done|]. by apply all_failed_spec.
  - apply Hrej'. intros r. destruct y as [e|]; [|done].
    change (expand acc0 e m1 !! r = None -> m1 !! r = None). by intros [_ ?]%expand_None.
  - right. eexists. split; [done|]. intros r Hr. destruct y as [e|].
    + change (expand acc0 e m1 !! r = None <-> m1 !! r = None /\ Some e = None).
      rewrite expand_None. split; by intros [].
    + split; [by intros|by intros []].
Qed.

(** The recipients offered to the target, in order. *)
Definition offered (tr : list call) : list string :=
  omap (fun c => match c with CAddRcpt r _ => Some r | _ => None end) tr.

Lemma offered_rcpt_calls rcpts cs : rcpt_calls rcpts cs -> offered cs = rcpts.
Proof. intros Hf. induction Hf as [|r c l cs [e ->] Hf IH]; [done|]. simpl. by f_equal. Qed.

Lemma offered_app a b : offered (a ++ b) = offered a ++ offered b.
Proof. apply omap_app. Qed.

Lemma protocol_app s a b : protocol s (a ++ b) = protocol s a ≫= fun s' => protocol s' b.
Proof.
  unfold protocol. rewrite foldl_app. destruct (foldl _ (Some s) a); [done|].
  simpl. by induction b.
Qed.

Lemma protocol_cons s c l : protocol s (c :: l) = protocol_step s c ≫= fun s' => protocol s' l.
Proof. apply (protocol_app s [c]). Qed.

Lemma attempt_body_call c :
  protocol_step (DRcpt true) c = Some DBodyDone ->
  (exists e, c = CBody e) \/ (exists sts, c = CBodyNonAtomic sts).
Proof. destruct c as [? ? []|? []| | | |]; simpl; intros ?; simplify_eq; eauto. Qed.

(** *** The protocol of the Delivery interface *)

(** C15: deliver follows the protocol of module.Delivery whatever the target
    answers: Start once; every recipient of the message offered exactly once and
    in order; a body call only if one was accepted; and every started delivery
    ended by exactly one Abort or one Commit, which is the last call. *)
Theorem deliver_protocol (t : DeliveryTarget W) now meta h b w w' tr errs
  (Hrun : deliver (traced t) now meta h b (w, []) = ((w', tr), Done errs)) :
  protocol DInit tr = Some DEnd /\
  (offered tr = qm_To meta \/ exists e, tr = [CStart (attempt_meta now meta) (qm_From meta) (Some e)]).
Proof.
  destruct (deliver_attempt _ _ _ _ _ _ _ _ _ Hrun) as [e|cs x m Hf Hp|cs c final acc m m' Hf Hp Hc _ _ _ Hfin].
  - eauto.
  - split; [|left; simpl; rewrite offered_app, (offered_rcpt_calls _ _ Hf); apply app_nil_r].
    rewrite protocol_cons. simpl. by rewrite protocol_app, Hp.
  - split.
    + rewrite protocol_cons. simpl. rewrite protocol_app, Hp. simpl.
      rewrite protocol_cons, Hc. by destruct Hfin as [(y & -> & _)|(y & -> & _)].
    + left. simpl. rewrite offered_app, (offered_rcpt_calls _ _ Hf).
      destruct (attempt_body_call c Hc) as [[e ->]|[sts ->]], Hfin as [(y & -> & _)|(y & -> & _)];
        apply app_nil_r.
Qed.

(** C14: a recipient is left without an error exactly when the target took the
    message for it: it was accepted every time it was offered, the body was not
    refused for it, and Commit succeeded. *)
Theorem deliver_outcome (t : DeliveryTarget W) now meta h b w w' tr errs r
  (Hrun : deliver (traced t) now meta h b (w, []) = ((w', tr), Done errs))
  (Hr : r ∈ qm_To meta) :
  errs !! r = None <-> delivered_in tr r.
Proof.
  destruct (deliver_attempt _ _ _ _ _ _ _ _ _ Hrun)
    as [e|cs x m Hf Hp Hn Hm|cs c final acc m m' Hf Hp Hc Hacc Hm Hrej Hfin].
  - rewrite expand_None. unfold delivered_in. set_solver.
  - unfold delivered_in. split; [|set_solver]. intros E. exfalso.
    destruct (rcpt_calls_elem _ _ _ Hf Hr) as [e He]. rewrite Hm in E. rewrite (E e He) in He.
    by apply (Hn r).
  - assert (forall c', c' ∈ CStart (attempt_meta now meta) (qm_From meta) None :: cs ++ [c; final] <->
              c' = CStart (attempt_meta now meta) (qm_From meta) None \/ c' ∈ cs \/ c' = c \/ c' = final) as Hin by set_solver.
    assert (forall c', c' ∈ cs -> exists r e, c' = CAddRcpt r e) as Hcs
      by (intros c' Hc'; destruct (rcpt_calls_inv _ _ _ Hf Hc') as (?&?&?&?); eauto).
    assert (forall x, CCommit x = CStart (attempt_meta now meta) (qm_From meta) None \/ CCommit x ∈ cs \/ CCommit x = c
                      \/ CCommit x = final -> final = CCommit x) as Hlast.
    { intros x [?|[Hx|[Hx|Hx]]]; [done| | |done].
      - by apply Hcs in Hx as (?&?&?).
      - by destruct (attempt_body_call c Hc) as [[? ->]|[? ->]]. }
    unfold delivered_in. setoid_rewrite Hin. split.
    + intros E. destruct (decide (r ∈ acc)) as [Ha|Ha]; [|by destruct (Hrej r Hr Ha); congruence].
      destruct Hfin as [(y & -> & -> & Hall)|(y & -> & Hy)]; [destruct (Hall r Ha); congruence|].
      apply Hy in E as [E ->]; [|done]. apply Hm in E as [Hrc Hb]; [|done].
      destruct (attempt_body_call c Hc) as [[e ->]|[sts ->]]; simpl in Hb; naive_solver.
    + intros (_ & Hrc & Hb1 & Hb2 & Hcm).
      destruct (rcpt_calls_elem _ _ _ Hf Hr) as [e He]. assert (e = None) as -> by (apply Hrc; auto).
      assert (r ∈ acc) as Ha by (by apply Hacc).
      apply Hlast in Hcm as ->.
      destruct Hfin as [(y & ? & _)|(y & ? & Hy)]; [done|]. simplify_eq.
      apply Hy; [done|]. split; [|done]. apply Hm; [done|]. split; [by auto|].
      destruct (attempt_body_call c Hc) as [[e ->]|[sts ->]]; simpl; auto.
Qed.
End DeliverTrace.

(** ** Witnesses *)

(** A target that accepts everything except one recipient. *)
Definition sample_Delivery : Delivery (H := list_textproto) unit :=
  mkDelivery (H := list_textproto)
    (fun r => mret (if decide (r = "c@example.org") then Some (ETemp (Some (ENew "try later")) true) else None))
    (fun _ _ => mret None) None (mret None) (mret None).
Definition sample_target : DeliveryTarget (H := list_textproto) unit :=
  mkTarget (H := list_textproto) (fun _ _ => mret (Ok sample_Delivery)).

Definition sample_deliver :=
  deliver (H := list_textproto) (traced (H := list_textproto) sample_target) 0 sample_meta
    ["From: a"] (MemoryBuffer "hi") (tt, []).

Lemma deliver_protocol_witness :
  sample_deliver.1.2 = [CStart (attempt_meta 0 sample_meta) "a@example.org" None; CAddRcpt "b@example.org" None;
    CAddRcpt "c@example.org" (Some (ETemp (Some (ENew "try later")) true)); CBody None; CCommit None] /\
  protocol DInit sample_deliver.1.2 = Some DEnd.
Proof.
  split; [reflexivity|].
  refine (proj1 (deliver_protocol (H := list_textproto) sample_target 0 sample_meta ["From: a"]
    (MemoryBuffer "hi") tt tt sample_deliver.1.2
    {["c@example.org" := ETemp (Some (ENew "try later")) true]} _)).
  vm_compute. reflexivity.
Defined.

Lemma deliver_outcome_witness :
  delivered_in sample_deliver.1.2 "b@example.org" /\ ~ delivered_in sample_deliver.1.2 "c@example.org".
Proof.
  split.
  - refine (proj1 (deliver_outcome (H := list_textproto) sample_target 0 sample_meta ["From: a"]
      (MemoryBuffer "hi") tt tt sample_deliver.1.2
      {["c@example.org" := ETemp (Some (ENew "try later")) true]} "b@example.org" _ _) _).
    + vm_compute. reflexivity.
    + left.
    + reflexivity.
  - intros Hd.
    assert (({["c@example.org" := ETemp (Some (ENew "try later")) true]} : gmap string gerror)
              !! "c@example.org" = None) as E; [|discriminate E].
    refine (proj2 (deliver_outcome (H := list_textproto) sample_target 0 sample_meta ["From: a"]
      (MemoryBuffer "hi") tt tt sample_deliver.1.2
      {["c@example.org" := ETemp (Some (ENew "try later")) true]} "c@example.org" _ _) Hd).
    + vm_compute. reflexivity.
    + right. left.
Defined.
