(* ===== verification/Queue.v ===== *)
(** * Queue: internal/target/queue/queue.go

    The delivery queue: accepting a message as a delivery target, dispatching a
    slot of the time wheel, one delivery attempt with its retries and its bounce,
    and the scan of the directory at start.  The world of the queue is its
    directory, the slots it has put on the wheel, the clock, the deliveries
    started on it, and [qw_ext], the world of its target and of the pipeline for
    bounces.  One dispatch is one sequential program: the goroutines of different
    messages share none of the files it uses. *)
From S2P Require Import Prelude GoStr ExtErrors Checks Module Dsn Disk QueueStore Delivery Limiters Backoff.
From Corelib Require Import SpecFloat.

Local Open Scope Z_scope.

Section Queue.
Context `{Textproto} {W : Type}.

Abbreviation qfs := (fs (C := content)).
Abbreviation errs := (gmap string gerror).

(** A slot with no message in memory is read back from disk. *)
Record queueSlot := mkSlot {
  sl_ID : string;
  sl_msg : option (QueueMetadata * header * Buffer)
}.

(** queueDelivery; [qd_meta] and [qd_body] are [None] for nil. *)
Record queueDelivery := mkQD {
  qd_meta : option QueueMetadata;
  qd_header : header;
  qd_body : option Buffer
}.

Record qworld := mkQW {
  qw_fs : qfs;
  qw_wheel : list (Z * queueSlot);
  qw_now : Z;
  qw_ticks : list N;              (* time that passes before each reading of the clock *)
  qw_deliveries : list queueDelivery;
  qw_ext : W
}.

(** The configuration of the queue and what it calls outside of it. *)
Record queue := mkQueue {
  q_hostname : string;
  q_autogenMsgDomain : string;
  q_dsnPipeline : option (DeliveryTarget W);
  q_initialRetryTime : Z;
  q_retryTimeScale : spec_float;
  q_maxTries : Z;
  q_postInitDelay : Z;
  q_Target : DeliveryTarget W;
  q_windows : bool;
  q_outside : string -> Result gerror (string * error);
  q_int64_undefined : Z;
  q_GenerateMsgID : Prog W (Result gerror string);
  q_GenerateDSN : bool -> dsn_Envelope -> dsn_ReportingMTAInfo -> list dsn_RecipientInfo -> header ->
                  Prog W (Result gerror (header * string))
}.

Context (q : queue).

Definition on_fs {A} (m : Prog qfs A) : Prog qworld A :=
  lift qw_fs (fun f w => mkQW f (qw_wheel w) (qw_now w) (qw_ticks w) (qw_deliveries w) (qw_ext w)) m.
Definition on_ext {A} (m : Prog W A) : Prog qworld A :=
  lift qw_ext (fun e w => mkQW (qw_fs w) (qw_wheel w) (qw_now w) (qw_ticks w) (qw_deliveries w) e) m.

(** time.Now *)
Definition time_Now : Prog qworld Z := fun w =>
  let now := qw_now w + Z.of_N (hd 0%N (qw_ticks w)) in
  (mkQW (qw_fs w) (qw_wheel w) now (tail (qw_ticks w)) (qw_deliveries w) (qw_ext w), Done now).

(** q.wheel.Add *)
Definition wheel_Add (target : Z) (slot : queueSlot) : Prog qworld unit :=
  modify (fun w => mkQW (qw_fs w) (qw_wheel w ++ [(target, slot)]) (qw_now w) (qw_ticks w)
                     (qw_deliveries w) (qw_ext w)).

(** ** The bounce *)

(** The stored error as the *smtp.SMTPError it is *)
Definition go_error (e : smtp_err) : gerror := EGoSMTP (se_Code e) (se_EnhancedCode e) (se_Message e) None.

(** The loop that builds the recipient part of the report. *)
Fixpoint dsn_rcpts (meta : QueueMetadata) (failed : list string) : Outcome (list dsn_RecipientInfo) :=
  match failed with
  | [] => mret []
  | rcpt :: failed =>
    match qm_RcptErrs meta !! rcpt with
    | None => Panicked nil_panic
    | Some rcptErr =>
      let originalRcpt := default "" (mm_OriginalRcpts (qm_MsgMeta meta) !! rcpt) in
      let rcpt := if decide (originalRcpt = "") then rcpt else originalRcpt in
      rest ← dsn_rcpts meta failed;
      mret (mkRcptInfo rcpt "" ActionFailed (se_EnhancedCode rcptErr) (Some (go_error rcptErr)) :: rest)
    end
  end.

Definition dsn_mtaInfo (meta : QueueMetadata) : dsn_ReportingMTAInfo :=
  mkMTAInfo (q_hostname q)
    (match mm_Conn (qm_MsgMeta meta) with
     | Some c => if mm_DontTraceSender (qm_MsgMeta meta) then "" else cs_Hostname c
     | None => ""
     end)
    (qm_From meta) (msg_id meta) (qm_FirstAttempt meta) (qm_LastAttempt meta).

(** The delivery of a generated report: the error the deferred function sees. *)
Definition send_dsn (d : Delivery W) (rcpt : string) (h : header) (b : Buffer) : Prog W error :=
  r ← dl_AddRcpt d rcpt;
  match r with
  | Some e => mret (Some e)
  | None =>
    r ← dl_Body d h b;
    match r with
    | Some e => mret (Some e)
    | None => dl_Commit d
    end
  end.

Definition lift_outcome {V A} (o : Outcome A) : Prog V A := fun w => (w, o).

Definition emitDSN (meta : QueueMetadata) (h : header) (failedRcpts : list string) : Prog W unit :=
  match q_dsnPipeline q with
  | None => mret tt
  | Some pipeline =>
    if decide (mm_OriginalFrom (qm_MsgMeta meta) = "") then mret tt
    else
      r ← q_GenerateMsgID q;
      match r with
      | Err _ => mret tt
      | Ok dsnID =>
        let env := mkEnvelope ("<" +:+ dsnID +:+ "@" +:+ q_autogenMsgDomain q +:+ ">")
                     ("MAILER-DAEMON@" +:+ q_autogenMsgDomain q) (mm_OriginalFrom (qm_MsgMeta meta)) in
        infos ← lift_outcome (dsn_rcpts meta failedRcpts);
        r ← q_GenerateDSN q (mo_UTF8 (mm_SMTPOpts (qm_MsgMeta meta))) env (dsn_mtaInfo meta) infos h;
        match r with
        | Err _ => mret tt
        | Ok (dsnHeader, blob) =>
          let dsnMeta := mkMsgMetadata dsnID "" false false ∅
            (mkMailOptions 0 (mo_UTF8 (mm_SMTPOpts (qm_MsgMeta meta)))
                           (mo_RequireTLS (mm_SMTPOpts (qm_MsgMeta meta)))) None false in
          r ← tgt_Start pipeline dsnMeta "";
          match r with
          | Err _ => mret tt
          | Ok d =>
            r ← send_dsn d (qm_From meta) dsnHeader (MemoryBuffer blob);
            match r with
            | Some _ => dl_Abort d ;; mret tt
            | None => mret tt
            end
          end
        end
      end
  end.

(** ** One attempt *)

(** The variables of the loop of tryDelivery over the recipients. *)
Record settled := mkSettled {
  st_RcptErrs : gmap string smtp_err;
  st_TriesCount : gmap string Z;
  st_newRcpts : list string;
  st_failedRcpts : list string;
  st_smallest : Z
}.

Definition settle_rcpt (errors : errs) (st : settled) (rcpt : string) : settled :=
  match errors !! rcpt with
  | None => st
  | Some rcptErr =>
    let rcptErrs := <[rcpt := toSMTPErr rcptErr]> (st_RcptErrs st) in
    let tries := default 0 (st_TriesCount st !! rcpt) in
    if negb (IsTemporaryOrUnspec (Some rcptErr)) || (q_maxTries q <=? tries + 1)
    then mkSettled rcptErrs (delete rcpt (st_TriesCount st)) (st_newRcpts st)
           (st_failedRcpts st ++ [rcpt]) (st_smallest st)
    else mkSettled rcptErrs (<[rcpt := tries + 1]> (st_TriesCount st)) (st_newRcpts st ++ [rcpt])
           (st_failedRcpts st) (Z.min (tries + 1) (st_smallest st))
  end.

Definition settle (meta : QueueMetadata) (errors : errs) : settled :=
  foldl (settle_rcpt errors)
    (mkSettled (qm_RcptErrs meta) (qm_TriesCount meta) [] [] 999999) (qm_To meta).

Definition set_settled (st : settled) (m : QueueMetadata) : QueueMetadata :=
  mkQueueMetadata (qm_MsgMeta m) (qm_From m) (qm_To m) (qm_FailedRcpts m) (qm_TemporaryFailedRcpts m)
    (st_RcptErrs st) (st_TriesCount st) (qm_FirstAttempt m) (qm_LastAttempt m).
Definition set_retry (newRcpts : list string) (now : Z) (m : QueueMetadata) : QueueMetadata :=
  mkQueueMetadata (qm_MsgMeta m) (qm_From m) newRcpts (qm_FailedRcpts m) (qm_TemporaryFailedRcpts m)
    (qm_RcptErrs m) (qm_TriesCount m) (qm_FirstAttempt m) now.

Definition tries_delay (smallestTriesCount : Z) : Z :=
  retry_delay (q_int64_undefined q) (q_initialRetryTime q) (q_retryTimeScale q) smallestTriesCount.

(** What follows a failed attempt with recipients left: the error of the write
    is only logged. *)
Definition requeue (meta : QueueMetadata) (st : settled) : Prog qworld unit :=
  now ← time_Now;
  let meta := set_retry (st_newRcpts st) now meta in
  on_fs (updateMetadataOnDisk (q_windows q) meta) ;;
  now ← time_Now;
  wheel_Add (now + tries_delay (st_smallest st)) (mkSlot (msg_id meta) None).

Definition tryDelivery (meta : QueueMetadata) (h : header) (b : Buffer) : Prog qworld unit :=
  now ← time_Now;
  errors ← on_ext (deliver (q_Target q) now meta h b);
  let st := settle meta errors in
  let meta := set_settled st meta in
  (match st_failedRcpts st with
   | [] => mret tt
   | _ :: _ => on_ext (emitDSN meta h (st_failedRcpts st))
   end) ;;
  match st_newRcpts st with
  | [] => on_fs (removeFromDisk (qm_MsgMeta meta))
  | _ :: _ => requeue meta st
  end.

(** ** Dispatch *)

Definition dispatch_body (slot : queueSlot) : Prog qworld unit :=
  match sl_msg slot with
  | Some (meta, h, b) => tryDelivery meta h b
  | None =>
    r ← on_fs (openMessage (sl_ID slot));
    match r with
    | Err _ => mret tt
    | Ok (meta, h, b) => tryDelivery meta h b
    end
  end.

(** The goroutine of dispatch: a panic marks the message as broken. *)
Definition dispatch (slot : queueSlot) : Prog qworld unit := fun w =>
  match dispatch_body slot w with
  | (w', Panicked _) => on_fs (discardBroken (sl_ID slot)) w'
  | r => r
  end.

(** ** The queue as a delivery target *)

Definition set_deliveries (ds : list queueDelivery) (w : qworld) : qworld :=
  mkQW (qw_fs w) (qw_wheel w) (qw_now w) (qw_ticks w) ds (qw_ext w).

(** The queueDelivery behind a handle, and its update. *)
Definition get_delivery (i : nat) : Prog qworld queueDelivery :=
  gets (fun w => default (mkQD None hdr_empty None) (qw_deliveries w !! i)).
Definition put_delivery (i : nat) (d : queueDelivery) : Prog qworld unit :=
  modify (fun w => set_deliveries (<[i := d]> (qw_deliveries w)) w).

(** [qd.meta.f] dereferences qd.meta. *)
Definition deref {A} (o : option A) : Prog qworld A :=
  match o with Some a => mret a | None => panic nil_panic end.

Definition add_rcpt (rcpt : string) (m : QueueMetadata) : QueueMetadata :=
  mkQueueMetadata (qm_MsgMeta m) (qm_From m) (qm_To m ++ [rcpt]) (qm_FailedRcpts m)
    (qm_TemporaryFailedRcpts m) (qm_RcptErrs m) (qm_TriesCount m) (qm_FirstAttempt m) (qm_LastAttempt m).

Definition qd_AddRcpt (i : nat) (rcptTo : string) : Prog qworld error :=
  qd ← get_delivery i;
  meta ← deref (qd_meta qd);
  put_delivery i (mkQD (Some (add_rcpt rcptTo meta)) (qd_header qd) (qd_body qd)) ;;
  mret None.

Definition qd_Body (i : nat) (h : header) (body : Buffer) : Prog qworld error :=
  qd ← get_delivery i;
  meta ← deref (qd_meta qd);
  r ← on_fs (storeNewMessage (q_windows q) (q_outside q) meta h body);
  match r with
  | Err e => mret (Some e)
  | Ok storedBody => put_delivery i (mkQD (Some meta) h (Some storedBody)) ;; mret None
  end.

Definition qd_Abort (i : nat) : Prog qworld error :=
  qd ← get_delivery i;
  match qd_body qd with
  | Some _ => meta ← deref (qd_meta qd); on_fs (removeFromDisk (qm_MsgMeta meta)) ;; mret None
  | None => mret None
  end.


(** A nil body buffer, when Body was never called, is an empty one here. *)
Definition qd_Commit (i : nat) : Prog qworld error :=
  qd ← get_delivery i;
  match qd_meta qd with
  | None => panic "queue: double Commit"
  | Some meta =>
    let body := default (MemoryBuffer "") (qd_body qd) in
    wheel_Add time_zero (mkSlot (msg_id meta) (Some (meta, qd_header qd, body))) ;;
    put_delivery i (mkQD None (qd_header qd) None) ;;
    mret None
  end.

Definition queue_Delivery (i : nat) : Delivery qworld :=
  mkDelivery (qd_AddRcpt i) (qd_Body i) None (qd_Abort i) (qd_Commit i).

Definition queue_Start (msgMeta : MsgMetadata) (mailFrom : string)
  : Prog qworld (Result gerror (Delivery qworld)) :=
  first ← time_Now;
  last ← time_Now;
  ds ← gets qw_deliveries;
  let meta := mkQueueMetadata msgMeta mailFrom [] [] [] ∅ ∅ first last in
  modify (set_deliveries (ds ++ [mkQD (Some meta) hdr_empty None])) ;;
  mret (Ok (queue_Delivery (length ds))).

(** The queue implements module.DeliveryTarget. *)
Definition queue_target : DeliveryTarget qworld := mkTarget queue_Start.

(** ** The scan of the directory *)

(** The smallest count of a map, and 999999 when it is empty. *)
Definition smallest_count (m : gmap string Z) : Z := map_fold (fun _ c acc => Z.min c acc) 999999 m.

(** [if os.IsNotExist(err) { remove the two others } else { skip }] *)
Definition dangling (e : os_error) (a b : string) : Prog qworld unit :=
  if IsNotExist e then on_fs (tryRemoveDanglingFile a) ;; on_fs (tryRemoveDanglingFile b)
  else mret tt.

Definition schedule_read (id : string) (meta : QueueMetadata) : Prog qworld unit :=
  let nextTryTime := qm_LastAttempt meta + tries_delay (smallest_count (qm_TriesCount meta)) in
  now ← time_Now;
  if time_Sub nextTryTime now <? q_postInitDelay q
  then now ← time_Now; wheel_Add (now + q_postInitDelay q) (mkSlot id None)
  else wheel_Add nextTryTime (mkSlot id None).

(** An entry of the directory.  The directories the code skips have no place in the model
    of the disk, whose entries are files. *)
Definition read_entry (name : string) : Prog qworld unit :=
  if negb (HasSuffix name ".meta") then mret tt
  else
    let id := str_take (String.length name - 5) name in
    r ← on_fs (readMessageMeta id);
    match r with
    | Err _ => mret tt
    | Ok meta =>
      r ← on_fs (os_Stat (header_of id));
      match r with
      | Err e => dangling e (meta_of id) (body_of id)
      | Ok _ =>
        r ← on_fs (os_Stat (body_of id));
        match r with
        | Err e => dangling e (meta_of id) (header_of id)
        | Ok _ => schedule_read id meta
        end
      end
    end.

Definition readDiskQueue : Prog qworld error :=
  r ← on_fs os_ReadDir;
  match r with
  | Err e => mret (Some (os_gerror e))
  | Ok names => for_each read_entry names ;; mret None
  end.
End Queue.
