(* ===== verification/QueueFacts.v ===== *)
(** * QueueFacts: the properties of the delivery queue *)
From S2P Require Import Prelude GoStr ExtErrors Checks Module Disk QueueStore Delivery Limiters Backoff Dsn Queue.
From stdpp Require Import sorting.

Local Open Scope Z_scope.

Section Settle.
Context `{Textproto} {W : Type} (q : queue (W := W)).
Abbreviation errs := (gmap string gerror).

(** ** Who is retried *)

Definition tries (m : gmap string Z) (r : string) : Z := default 0 (m !! r).

(** The attempt left the recipient with an error, and there is another try. *)
Definition retried (errors : errs) (m : gmap string Z) (r : string) : Prop :=
  exists e, errors !! r = Some e /\ IsTemporaryOrUnspec (Some e) = true /\ tries m r + 1 < q_maxTries q.
(** ... or there is none, or the error is permanent. *)
Definition gives_up (errors : errs) (m : gmap string Z) (r : string) : Prop :=
  exists e, errors !! r = Some e /\ (IsTemporaryOrUnspec (Some e) = false \/ q_maxTries q <= tries m r + 1).

Global Instance retried_dec errors m r : Decision (retried errors m r).
Proof.
  unfold retried. destruct (errors !! r) as [e|]; [|by right; intros (?&?&?)].
  destruct (decide (IsTemporaryOrUnspec (Some e) = true /\ tries m r + 1 < q_maxTries q)) as [D|D];
    [left|right]; naive_solver.
Defined.
Global Instance gives_up_dec errors m r : Decision (gives_up errors m r).
Proof.
  unfold gives_up. destruct (errors !! r) as [e|]; [|by right; intros (?&?&?)].
  destruct (decide (IsTemporaryOrUnspec (Some e) = false \/ q_maxTries q <= tries m r + 1)) as [D|D];
    [left|right]; naive_solver.
Defined.

(** One recipient is delivered, retried or given up on. *)
Lemma rcpt_trichotomy (errors : errs) m r :
  (errors !! r = None /\ ~ retried errors m r /\ ~ gives_up errors m r) \/
  (retried errors m r /\ ~ gives_up errors m r) \/ (~ retried errors m r /\ gives_up errors m r).
Proof.
  unfold retried, gives_up. destruct (errors !! r) as [e|]; [right|left; naive_solver].
  destruct (IsTemporaryOrUnspec (Some e)) eqn:Et, (decide (q_maxTries q <= tries m r + 1));
    [right|left|right|right]; (split; [|]); (naive_solver lia || idtac).
  all: try (intros (?&?&?); naive_solver lia).
Qed.

(** How often an address is listed *)
Definition copies (r : string) (l : list string) : nat := length (filter (fun x => x = r) l).

#[local] Arguments copies : simpl never.

Lemma copies_nil r : copies r [] = 0%nat.
Proof. done. Qed.
Lemma copies_app r l k : copies r (l ++ k) = (copies r l + copies r k)%nat.
Proof. unfold copies. by rewrite filter_app, length_app. Qed.
Lemma copies_cons r x l : copies r (x :: l) = ((if decide (x = r) then 1 else 0) + copies r l)%nat.
Proof. unfold copies. rewrite filter_cons. by case_decide. Qed.
Lemma copies_pos r l : r ∈ l <-> (0 < copies r l)%nat.
Proof.
  induction l as [|x l IH]; [rewrite copies_nil; split; [set_solver|lia]|].
  rewrite copies_cons, elem_of_cons, IH. case_decide; subst; split; naive_solver lia.
Qed.

(** What becomes of [n] entries of the list that are the same address, one after the
    other: how many are retried, how many are given up on, and the count that is left.
    Giving up on one of them drops the count, so that the next starts again. *)
Fixpoint fates (temporary : bool) (n : nat) (c : option Z) : nat * nat * option Z :=
  match n with
  | O => (O, O, c)
  | S n =>
    if temporary && (default 0 c + 1 <? q_maxTries q)
    then let '(again, given_up, c) := fates temporary n (Some (default 0 c + 1)) in (S again, given_up, c)
    else let '(again, given_up, c) := fates temporary n None in (again, S given_up, c)
  end.

Lemma fates_all temporary n c : let '(a, b, _) := fates temporary n c in (a + b = n)%nat.
Proof.
  revert c. induction n as [|n IH]; intros c; [done|]. cbn [fates].
  destruct (_ && _); [specialize (IH (Some (default 0 c + 1)))|specialize (IH None)]; destruct (fates _ _ _) as [[a b] c']; lia.
Qed.
Lemma fates_permanent n c : (fates false n c).1.1 = O.
Proof. revert c. induction n as [|n IH]; intros c; [done|]. cbn. specialize (IH None). by destruct (fates _ _ _) as [[a b] c']. Qed.

(** Tries left to the [v] entries of an address with the count [c] *)
Definition tries_left (v : nat) (c : Z) : Z := Z.of_nat v * q_maxTries q - Z.min (q_maxTries q - 1) c.
Lemma fates_left temporary n c : 1 <= q_maxTries q -> 0 <= default 0 c ->
  let '(a, _, c') := fates temporary n c in
  tries_left a (default 0 c') + Z.of_nat n <= tries_left n (default 0 c) /\ 0 <= default 0 c'.
Proof.
  intros HM. unfold tries_left.
  (* the general statement, with [v] entries already retried *)
  assert (Hv : forall n v c, 0 <= default 0 c -> let '(a, _, c') := fates temporary n c in
    Z.of_nat (v + a) * q_maxTries q - Z.min (q_maxTries q - 1) (default 0 c') + Z.of_nat n
    <= Z.of_nat (v + n) * q_maxTries q - Z.min (q_maxTries q - 1) (default 0 c) /\ 0 <= default 0 c').
  { clear n c. induction n as [|n IH]; intros v c Hc; [rewrite !Nat.add_0_r; cbn; lia|]. cbn [fates].
    destruct (_ && _) eqn:Eb.
    - apply andb_true_iff in Eb as [_ Eb%Z.ltb_lt]. specialize (IH (S v) (Some (default 0 c + 1)) ltac:(cbn; lia)).
      destruct (fates _ _ _) as [[a b] c']. cbn [default] in IH. destruct IH as [IH ?]. split; [|done].
      replace (v + S a)%nat with (S v + a)%nat by lia. replace (v + S n)%nat with (S v + n)%nat by lia. cbn in *. lia.
    - specialize (IH v None ltac:(cbn; lia)). destruct (fates _ _ _) as [[a b] c']. cbn [default] in IH. destruct IH as [IH ?]. split; [|done].
      replace (v + S n)%nat with (S (v + n)) by lia. cbn in *. nia. }
  intros Hc. exact (Hv n O c Hc).
Qed.
(** Without tries nothing is retried. *)
Lemma fates_no_tries temporary n c : q_maxTries q <= 0 -> 0 <= default 0 c -> (fates temporary n c).1.1 = O.
Proof.
  intros HM. revert c. induction n as [|n IH]; intros c Hc; [done|]. cbn [fates].
  rewrite (proj2 (Z.ltb_ge _ _)), andb_false_r by lia. specialize (IH None ltac:(cbn; lia)). by destruct (fates _ _ _) as [[a b] c'].
Qed.

(** The entries of an address depend on that address alone. *)
Definition fate_of (errors : errs) (r : string) (n : nat) (c : option Z) : nat * nat * option Z :=
  match errors !! r with None => (O, O, c) | Some e => fates (IsTemporaryOrUnspec (Some e)) n c end.

Lemma settle_rcpt_other (errors : errs) st x r : x <> r ->
  let st' := settle_rcpt q errors st x in
  st_TriesCount st' !! r = st_TriesCount st !! r /\ st_RcptErrs st' !! r = st_RcptErrs st !! r /\
  copies r (st_newRcpts st') = copies r (st_newRcpts st) /\ copies r (st_failedRcpts st') = copies r (st_failedRcpts st).
Proof.
  intros Hx. unfold settle_rcpt. destruct (errors !! x); [|done].
  destruct (_ || _); cbn; rewrite ?copies_app, ?copies_cons, ?copies_nil, ?(decide_False (P := x = r)) by done;
    rewrite ?lookup_delete_ne, ?lookup_insert_ne by done; split_and!; done || lia.
Qed.
Lemma settle_rcpt_own (errors : errs) st r e : errors !! r = Some e ->
  let st' := settle_rcpt q errors st r in
  st_RcptErrs st' !! r = Some (toSMTPErr e) /\
  if IsTemporaryOrUnspec (Some e) && (default 0 (st_TriesCount st !! r) + 1 <? q_maxTries q)
  then st_TriesCount st' !! r = Some (default 0 (st_TriesCount st !! r) + 1) /\
       st_newRcpts st' = st_newRcpts st ++ [r] /\ st_failedRcpts st' = st_failedRcpts st /\
       st_smallest st' = Z.min (default 0 (st_TriesCount st !! r) + 1) (st_smallest st)
  else st_TriesCount st' !! r = None /\ st_newRcpts st' = st_newRcpts st /\
       st_failedRcpts st' = st_failedRcpts st ++ [r] /\ st_smallest st' = st_smallest st.
Proof.
  intros He. unfold settle_rcpt. rewrite He, Z.leb_antisym, <- negb_andb.
  destruct (_ && _); cbn; by simplify_map_eq.
Qed.
Lemma settle_rcpt_smallest (errors : errs) st x : st_smallest (settle_rcpt q errors st x) <= st_smallest st.
Proof. unfold settle_rcpt. destruct (errors !! x); [|done]. destruct (_ || _); cbn; lia. Qed.
Lemma settle_fold_smallest (errors : errs) l st : st_smallest (foldl (settle_rcpt q errors) st l) <= st_smallest st.
Proof.
  revert st. induction l as [|x l IH]; intros st; [done|]. cbn [foldl]. etransitivity; [apply IH|apply settle_rcpt_smallest].
Qed.

Lemma settle_fold_fate (errors : errs) r l st :
  let st' := foldl (settle_rcpt q errors) st l in
  let '(a, b, c) := fate_of errors r (copies r l) (st_TriesCount st !! r) in
  copies r (st_newRcpts st') = (copies r (st_newRcpts st) + a)%nat /\
  copies r (st_failedRcpts st') = (copies r (st_failedRcpts st) + b)%nat /\
  st_TriesCount st' !! r = c /\
  st_RcptErrs st' !! r = match errors !! r with
                         | Some e => if decide (r ∈ l) then Some (toSMTPErr e) else st_RcptErrs st !! r
                         | None => st_RcptErrs st !! r
                         end.
Proof.
  revert st. induction l as [|x l IH]; intros st.
  { unfold fate_of. cbn. destruct (errors !! r); cbn; rewrite ?Nat.add_0_r; split_and!; try done; by rewrite decide_False by set_solver. }
  cbn [foldl]. specialize (IH (settle_rcpt q errors st x)). cbv zeta in *. rewrite copies_cons. destruct (decide (x = r)) as [->|Hx].
  - unfold fate_of in *. destruct (errors !! r) as [e|] eqn:He.
    + destruct (settle_rcpt_own errors st r e He) as [HR Hs]. rewrite (decide_True (P := r ∈ r :: l)) by set_solver.
      cbn [Nat.add fates]. destruct (_ && _); destruct Hs as (Hc & Hn & Hf & _); rewrite Hc in IH;
        destruct (fates _ _ _) as [[a b] c]; destruct IH as (-> & -> & -> & ->); rewrite Hn, Hf, ?copies_app, copies_cons, copies_nil, decide_True by done;
        (split_and!; [lia..|done|by case_decide]).
    + assert (settle_rcpt q errors st r = st) as E by (unfold settle_rcpt; by rewrite He). by rewrite E in *.
  - destruct (settle_rcpt_other errors st x r Hx) as (Hc & HR & Hn & Hf). rewrite Hc, HR, Hn, Hf in IH. cbn [Nat.add].
    destruct (fate_of _ _ _ _) as [[a b] c]. destruct IH as (-> & -> & -> & ->). split_and!; try done.
    destruct (errors !! r); [|done]. apply decide_ext. set_solver.
Qed.

(** Every entry of the list goes to one of the classes. *)
Lemma settle_fold_classes (errors : errs) l st :
  let st' := foldl (settle_rcpt q errors) st l in
  st_newRcpts st ++ st_failedRcpts st ++ l
  ≡ₚ filter (fun r => errors !! r = None) l ++ st_newRcpts st' ++ st_failedRcpts st'.
Proof.
  revert st. induction l as [|x l IH]; intros st; [cbn; by rewrite app_nil_r|]. cbn [foldl]. cbv zeta in *.
  specialize (IH (settle_rcpt q errors st x)). rewrite filter_cons. destruct (errors !! x) as [e|] eqn:He.
  - rewrite decide_False by done. rewrite <- IH. destruct (settle_rcpt_own errors st x e He) as [_ Hs].
    destruct (_ && _); destruct Hs as (_ & -> & -> & _); solve_Permutation.
  - rewrite decide_True by done. assert (settle_rcpt q errors st x = st) as E by (unfold settle_rcpt; by rewrite He).
    rewrite E in *. cbn [app]. rewrite <- IH. solve_Permutation.
Qed.

(** One entry of an address: the two fates *)
Lemma fate_once (errors : errs) T r :
  fate_of errors r 1 (T !! r) =
  (if decide (retried errors T r) then (1%nat, O, Some (tries T r + 1))
   else if decide (gives_up errors T r) then (O, 1%nat, None) else (O, O, T !! r)).
Proof.
  unfold fate_of. destruct (rcpt_trichotomy errors T r) as [(E & Hr & Hg)|[(Hr & Hg)|(Hr & Hg)]].
  - by rewrite E, !decide_False.
  - rewrite (decide_True _ _ Hr). destruct Hr as (e & -> & Ht & Hm). unfold tries in *. cbn. by rewrite Ht, (proj2 (Z.ltb_lt _ _) Hm).
  - rewrite (decide_False _ _ Hr), (decide_True _ _ Hg). destruct Hg as (e & -> & Hm). unfold tries in *. cbn.
    assert (IsTemporaryOrUnspec (Some e) && (default 0 (T !! r) + 1 <? q_maxTries q) = false) as ->; [|done].
    destruct Hm as [->|Hm]; [done|]. apply andb_false_iff. right. by apply Z.ltb_ge.
Qed.

(** A count that was reached bounds the smallest one. *)
Lemma settle_fold_least (errors : errs) r l st : copies r l = 1%nat -> retried errors (st_TriesCount st) r ->
  st_smallest (foldl (settle_rcpt q errors) st l) <= tries (st_TriesCount st) r + 1.
Proof.
  revert st. induction l as [|x l IH]; intros st; [done|]. rewrite copies_cons. cbn [foldl]. case_decide as Hx.
  - subst x. intros _ (e & He & Ht & Hm). etransitivity; [apply settle_fold_smallest|].
    destruct (settle_rcpt_own errors st r e He) as [_ Hs]. unfold tries in *. rewrite Ht, (proj2 (Z.ltb_lt _ _) Hm) in Hs.
    destruct Hs as (_ & _ & _ & ->). lia.
  - intros Hl Hr. destruct (settle_rcpt_other errors st x r Hx) as (Hc & _).
    assert (tries (st_TriesCount (settle_rcpt q errors st x)) r = tries (st_TriesCount st) r) as Et by (unfold tries; by rewrite Hc).
    rewrite <- Et. apply IH; [lia|]. unfold retried. by rewrite Et.
Qed.

Lemma settle_fates (errors : errs) meta r :
  let st := settle q meta errors in
  (copies r (st_newRcpts st), copies r (st_failedRcpts st), st_TriesCount st !! r)
  = fate_of errors r (copies r (qm_To meta)) (qm_TriesCount meta !! r) /\
  (r ∈ qm_To meta -> forall e, errors !! r = Some e -> st_RcptErrs st !! r = Some (toSMTPErr e)).
Proof.
  cbv zeta. unfold settle. set (st0 := mkSettled _ _ _ _ _). set (st := foldl _ _ _).
  pose proof (settle_fold_fate errors r (qm_To meta) st0) as Hf. cbv zeta in Hf. fold st in Hf.
  change (st_TriesCount st0) with (qm_TriesCount meta) in Hf. destruct (fate_of _ _ _ _) as [[a b] c].
  destruct Hf as (Hn & Hf & Hc & HR). cbn in Hn, Hf. rewrite copies_nil in Hn, Hf.
  split; [cbn in Hn, Hf; congruence|]. intros Hin e He. by rewrite HR, He, decide_True.
Qed.

(** C16: after an attempt every entry of the recipient list is in exactly one of
    three classes: delivered (no error), retried (with a temporary error), or given
    up on (its last error kept for the bounce).  Nobody is lost.  What becomes of
    an address depends on its error, its count and how often it is listed
    ([fates]).  An address listed once is retried, its count one higher and below
    max_tries, or given up on, its count dropped, and never both; the delay is
    computed from a count that no such address is above.  An address listed twice
    may be both: its second entry sees the count of the first. *)
Theorem settle_partition (errors : errs) meta :
  let st := settle q meta errors in
  let T := qm_TriesCount meta in
  qm_To meta ≡ₚ filter (fun r => errors !! r = None) (qm_To meta) ++ st_newRcpts st ++ st_failedRcpts st /\
  (forall r, (copies r (st_newRcpts st), copies r (st_failedRcpts st), st_TriesCount st !! r)
             = fate_of errors r (copies r (qm_To meta)) (T !! r)) /\
  (forall r, r ∈ st_newRcpts st -> exists e, errors !! r = Some e /\ IsTemporaryOrUnspec (Some e) = true) /\
  (forall r, r ∈ st_failedRcpts st -> exists e, errors !! r = Some e /\ st_RcptErrs st !! r = Some (toSMTPErr e)) /\
  (forall r, copies r (qm_To meta) = 1%nat ->
     (r ∈ st_newRcpts st <-> retried errors T r) /\ (r ∈ st_failedRcpts st <-> gives_up errors T r) /\
     ~ (r ∈ st_newRcpts st /\ r ∈ st_failedRcpts st) /\
     (r ∈ st_newRcpts st -> st_TriesCount st !! r = Some (tries T r + 1) /\ tries T r + 1 < q_maxTries q /\
                            st_smallest st <= tries T r + 1) /\
     (r ∈ st_failedRcpts st -> st_TriesCount st !! r = None)).
Proof.
  cbv zeta. set (T := qm_TriesCount meta). set (st := settle q meta errors).
  pose proof (settle_fates errors meta) as Hfate. cbv zeta in Hfate. fold st T in Hfate.
  pose proof (settle_fold_classes errors (qm_To meta) (mkSettled (qm_RcptErrs meta) T [] [] 999999)) as Hclass.
  cbv zeta in Hclass. change (foldl _ _ _) with st in Hclass. cbn [st_newRcpts st_failedRcpts app] in Hclass.
  assert (Hin : forall r, r ∈ st_newRcpts st \/ r ∈ st_failedRcpts st -> r ∈ qm_To meta /\ exists e, errors !! r = Some e).
  { intros r Hr. split; [rewrite Hclass; set_solver|]. destruct (Hfate r) as [E _]. unfold fate_of in E.
    destruct (errors !! r) as [e|]; [by exists e|]. rewrite !copies_pos in Hr. injection E as E1 E2 _. lia. }
  split; [done|]. split; [apply Hfate|]. split; [|split].
  - intros r Hr. destruct (Hin r (or_introl Hr)) as [_ [e He]]. exists e. split; [done|].
    destruct (Hfate r) as [E _]. unfold fate_of in E. rewrite He in E. destruct (IsTemporaryOrUnspec (Some e)); [done|].
    pose proof (fates_permanent (copies r (qm_To meta)) (T !! r)) as Hp. rewrite <- E in Hp. cbn in Hp. apply copies_pos in Hr. lia.
  - intros r Hr. destruct (Hin r (or_intror Hr)) as [Hto [e He]]. exists e. split; [done|]. by apply (proj2 (Hfate r)).
  - intros r H1. destruct (Hfate r) as [E _]. rewrite H1, fate_once in E. rewrite !copies_pos.
    destruct (rcpt_trichotomy errors T r) as [(_ & Hr & Hg)|[(Hr & Hg)|(Hr & Hg)]].
    + rewrite !decide_False in E by done. injection E as E1 E2 E3. rewrite E1, E2, E3. split_and!; (naive_solver lia || lia).
    + rewrite decide_True in E by done. injection E as E1 E2 E3. rewrite E1, E2, E3. split_and!; [naive_solver lia..|intros _|lia].
      split; [done|]. split; [by destruct Hr as (e & _ & _ & ?)|]. exact (settle_fold_least errors r (qm_To meta) (mkSettled (qm_RcptErrs meta) T [] [] 999999) H1 Hr).
    + rewrite decide_False, decide_True in E by done. injection E as E1 E2 E3. rewrite E1, E2, E3. split_and!; (naive_solver lia || lia || done).
Qed.
End Settle.

(** ** Every message leaves the queue *)

Section Drains.
Context `{Textproto} {W : Type} (q : queue (W := W)).
Abbreviation qworld := (qworld (W := W)).

Lemma on_ext_run {A} (m : Prog W A) (w w' : qworld) o :
  on_ext m w = (w', o) -> qw_fs w' = qw_fs w /\ qw_wheel w' = qw_wheel w.
Proof. unfold on_ext, lift. destruct (m (qw_ext w)). intros ?. by simplify_eq. Qed.

Lemma on_fs_run {A} (m : Prog (fs (C := content)) A) (w : qworld) s o :
  m (qw_fs w) = (s, o) ->
  exists w', on_fs m w = (w', o) /\ qw_fs w' = s /\ qw_wheel w' = qw_wheel w.
Proof. intros E. unfold on_fs, lift. rewrite E. eauto. Qed.

(** The header and the body of the message [id] are on disk. *)
Definition parts_stored (d : gmap string (file (C := content))) (id : string) : Prop :=
  (exists h sy, d !! header_of id = Some (mkFile (CHeader h) sy)) /\ is_Some (d !! body_of id).

(** ... and its meta-data is [meta]. *)
Definition stored (d : gmap string (file (C := content))) (meta : QueueMetadata) : Prop :=
  (exists sy, d !! meta_of (msg_id meta) = Some (mkFile (CMeta meta) sy)) /\
  parts_stored d (msg_id meta).

(** The only slot of the wheel is that of the message with the meta-data [meta], which
    is on disk. *)
Definition scheduled (meta : QueueMetadata) (w : qworld) : Prop :=
  fs_faults (qw_fs w) = [] /\
  exists t slot, qw_wheel w = [(t, slot)] /\ sl_ID slot = msg_id meta /\
    match sl_msg slot with
    | Some (m, _, _) => m = meta /\ stored (fs_disk (qw_fs w)) (stored_meta meta)
    | None => stored (fs_disk (qw_fs w)) meta
    end.
(** Every recipient has at most [k] tries left. *)
Definition budget (meta : QueueMetadata) (k : Z) : Prop :=
  forall r, r ∈ qm_To meta -> 0 <= tries (qm_TriesCount meta) r /\
    (1 <= q_maxTries q -> tries_left q (copies r (qm_To meta)) (tries (qm_TriesCount meta) r) <= k).
Definition waiting (id : string) (k : Z) (w : qworld) : Prop :=
  exists meta, msg_id meta = id /\ scheduled meta w /\ budget meta k.

(** Nothing is scheduled and the message cannot be read again. *)
Definition gone (id : string) (w : qworld) : Prop :=
  qw_wheel w = [] /\ fs_disk (qw_fs w) !! meta_of id = None.

(** Take the first slot off the wheel and dispatch it. *)
Definition serve_one (w : qworld) : qworld :=
  match qw_wheel w with
  | [] => w
  | (_, slot) :: rest =>
    (dispatch q slot (mkQW (qw_fs w) rest (qw_now w) (qw_ticks w) (qw_deliveries w) (qw_ext w))).1
  end.
Fixpoint serve (n : nat) (w : qworld) : qworld :=
  match n with O => w | S n => serve n (serve_one w) end.

Lemma requeue_waiting meta st k (w w' : qworld) o :
  q_windows q = false -> fs_faults (qw_fs w) = [] -> qw_wheel w = [] ->
  parts_stored (fs_disk (qw_fs w)) (msg_id meta) ->
  (forall now, budget (set_retry (st_newRcpts st) now meta) k) ->
  requeue q meta st w = (w', o) -> o = Done tt /\ waiting (msg_id meta) k w'.
Proof.
  intros Hw Hf Hwh Hst Hk E. unfold requeue in E.
  erewrite prog_bind_eq in E by done. cbv zeta in E.
  set (now := qw_now w + _) in E. set (w1 := mkQW _ _ _ _ _ _) in E.
  set (m1 := set_retry (st_newRcpts st) now meta) in E.
  destruct (updateMetadataOnDisk_nofault (q_windows q) m1 (qw_fs w1) Hw Hf) as (s' & Eu & Hf' & Hd).
  apply (on_fs_run _ w1) in Eu as (w2 & Eu & Hs2 & Hwh2).
  erewrite prog_bind_eq in E by done. erewrite prog_bind_eq in E by done.
  cbv [wheel_Add modify] in E. simplify_eq/=. split; [done|].
  exists (stored_meta m1). split; [done|]. split; [|exact (Hk now)]. split; [done|].
  do 2 eexists. rewrite Hwh2. simpl. rewrite Hwh. split_and!; try done.
  simpl. rewrite Hd. unfold stored.
  change (msg_id (stored_meta m1)) with (msg_id meta). change (msg_id m1) with (msg_id meta).
  destruct (names_distinct (msg_id meta)) as (?&?&?&?&?&?).
  destruct Hst as [Hh Hb]. unfold parts_stored.
  split_and!.
  - eexists. apply lookup_insert_eq.
  - by rewrite lookup_insert_ne, lookup_delete_ne by congruence.
  - by rewrite lookup_insert_ne, lookup_delete_ne by congruence.
Qed.

(** The state in which an attempt at a message starts. *)
Definition attempting (meta : QueueMetadata) (k : Z) (w : qworld) : Prop :=
  fs_faults (qw_fs w) = [] /\ qw_wheel w = [] /\ budget meta k /\
  (stored (fs_disk (qw_fs w)) meta \/ stored (fs_disk (qw_fs w)) (stored_meta meta)).

(** The message left the queue, or waits for its next try. *)
Definition progressed (id : string) (k : Z) (w : qworld) : Prop :=
  gone id w \/ (waiting id (k - 1) w /\ 1 < k).

Lemma same_disk_attempting meta k (w w' : qworld) :
  qw_fs w' = qw_fs w -> qw_wheel w' = qw_wheel w -> attempting meta k w -> attempting meta k w'.
Proof. unfold attempting. by intros -> ->. Qed.

(** An attempt takes a try from every recipient that stays. *)
Lemma settle_budget errors meta k : budget meta k ->
  let st := settle q meta errors in
  (forall now, budget (set_retry (st_newRcpts st) now (set_settled st meta)) (k - 1)) /\
  (forall r, r ∈ st_newRcpts st -> 1 < k).
Proof.
  intros Hk st.
  assert (Hr : forall r, r ∈ st_newRcpts st -> 1 <= q_maxTries q /\ 0 <= tries (st_TriesCount st) r /\
            tries_left q (copies r (st_newRcpts st)) (tries (st_TriesCount st) r) <= k - 1).
  { intros r Hr. destruct (settle_fates q errors meta r) as [E _]. fold st in E. unfold fate_of in E. apply copies_pos in Hr.
    destruct (errors !! r) as [e|]; [|injection E as E1 _ _; lia].
    assert (Hto : (0 < copies r (qm_To meta))%nat).
    { pose proof (fates_all q (IsTemporaryOrUnspec (Some e)) (copies r (qm_To meta)) (qm_TriesCount meta !! r)) as Ha. rewrite <- E in Ha. lia. }
    destruct (Hk r) as [H0 Hl]; [by apply copies_pos|]. unfold tries in *.
    destruct (Z_le_gt_dec 1 (q_maxTries q)) as [HM|HM].
    2:{ pose proof (fates_no_tries q (IsTemporaryOrUnspec (Some e)) (copies r (qm_To meta)) (qm_TriesCount meta !! r) ltac:(lia) H0) as Ha.
        rewrite <- E in Ha. cbn in Ha. lia. }
    pose proof (fates_left q (IsTemporaryOrUnspec (Some e)) (copies r (qm_To meta)) (qm_TriesCount meta !! r) HM H0) as Ha.
    rewrite <- E in Ha. specialize (Hl HM). lia. }
  split.
  - intros now r Hin. cbn in Hin |- *. destruct (Hr r Hin) as (_ & H0 & Hl). split; [exact H0|by intros _].
  - intros r Hin. destruct (Hr r Hin) as (HM & H0 & Hl). apply copies_pos in Hin. unfold tries_left in Hl. nia.
Qed.

Lemma tryDelivery_progress meta h b k (w w' : qworld) o :
  q_windows q = false -> attempting meta k w -> tryDelivery q meta h b w = (w', o) ->
  match o with
  | Done _ => progressed (msg_id meta) k w'
  | Panicked _ => fs_faults (qw_fs w') = [] /\ qw_wheel w' = []
  end.
Proof.
  intros Hwin Ha E. unfold tryDelivery in E. erewrite prog_bind_eq in E by done. cbv zeta in E.
  set (now := qw_now w + _) in E. set (w1 := mkQW _ _ _ _ _ _) in E.
  assert (attempting meta k w1) as Ha1 by (by eapply same_disk_attempting, Ha). clearbody w1. clear Ha.
  unfold mbind, prog_bind at 1 in E.
  destruct (on_ext _ w1) as [w2 [errors|why]] eqn:E2; apply on_ext_run in E2 as [Hfs Hwh];
    [|simplify_eq; rewrite Hfs, Hwh; by destruct Ha1 as (?&?&_)].
  apply (same_disk_attempting _ _ _ _ Hfs Hwh) in Ha1. clear Hfs Hwh w1.
  set (st := settle q meta errors) in E. set (dsn := match st_failedRcpts st with [] => _ | _ :: _ => _ end) in E.
  assert (forall w3 r, dsn w2 = (w3, r) -> qw_fs w3 = qw_fs w2 /\ qw_wheel w3 = qw_wheel w2) as Hdsn.
  { intros w3 r. unfold dsn. destruct (st_failedRcpts st); [by intros [= <- _]|]. apply on_ext_run. }
  clearbody dsn. unfold prog_bind at 1 in E. destruct (dsn w2) as [w3 [[]|why]];
    destruct (Hdsn _ _ eq_refl) as [Hfs Hwh]; [|simplify_eq; rewrite Hfs, Hwh; by destruct Ha1 as (?&?&_)].
  apply (same_disk_attempting _ _ _ _ Hfs Hwh) in Ha1. clear Hfs Hwh Hdsn w2 dsn.
  destruct Ha1 as (Hf & Hwh & Hk & Hst).
  pose proof (settle_budget errors meta k Hk) as Hnew. cbv zeta in Hnew. fold st in Hnew.
  destruct (st_newRcpts st) as [|r0 rest] eqn:Enew.
  - destruct (removeFromDisk_nofault (qm_MsgMeta (set_settled st meta)) (qw_fs w3) Hf) as (s' & Er & _ & Hd).
    apply (on_fs_run _ w3) in Er as (w4 & Er & Hs & Hw4). rewrite E in Er. simplify_eq.
    left. split; [congruence|]. rewrite Hd. apply lookup_delete_eq.
  - rewrite <- Enew in Hnew. destruct Hnew as [Hnew Hlt].
    eapply (requeue_waiting (set_settled st meta) st (k - 1)) in E as [-> Hwt]; try done.
    + right. split; [exact Hwt|]. apply (Hlt r0). rewrite Enew. by left.
    + by destruct Hst as [[_ ?]|[_ ?]].
Qed.

Lemma dispatch_tryDelivery slot meta h b k (w : qworld) :
  q_windows q = false -> sl_ID slot = msg_id meta -> attempting meta k w ->
  progressed (msg_id meta) k
    (match tryDelivery q meta h b w with
     | (w', Panicked _) => (on_fs (discardBroken (sl_ID slot)) w').1
     | (w', Done _) => w'
     end).
Proof.
  intros Hw Hid Ha. destruct (tryDelivery q meta h b w) as [w' o] eqn:E.
  pose proof (tryDelivery_progress _ _ _ _ _ _ _ Hw Ha E) as Hp.
  destruct o as [u|why]; [done|]. destruct Hp as [Hf Hwh].
  destruct (discardBroken_nofault (sl_ID slot) (qw_fs w') Hf) as (s' & Ed & _ & Hd).
  apply (on_fs_run _ w') in Ed as (w2 & Ed & Hs & Hw2). rewrite Ed. simpl.
  left. split; [congruence|]. by rewrite Hs, <- Hid.
Qed.

Lemma serve_one_progress id k (w : qworld) :
  q_windows q = false -> waiting id k w -> progressed id k (serve_one w).
Proof.
  intros Hw (meta & Hm & (Hf & t & slot & Hwh & Hid & Hst) & Hk).
  unfold serve_one. rewrite Hwh. set (w1 := mkQW _ _ _ _ _ _).
  unfold dispatch, dispatch_body. destruct (sl_msg slot) as [[[m h] b]|] eqn:Es.
  - destruct Hst as [-> Hst]. assert (attempting meta k w1) as Ha by (split_and!; auto).
    pose proof (dispatch_tryDelivery slot meta h b k w1 Hw Hid Ha) as Hp.
    rewrite <- Hm. destruct (tryDelivery q meta h b w1) as [w2 [u|why]]; done.
  - assert (attempting meta k w1) as Ha by (split_and!; auto).
    destruct Hst as ([sy Hmeta] & (h & sy' & Hh) & [[c sy''] Hb]).
    pose proof (openMessage_complete (msg_id meta) (qw_fs w1) meta h _ _ _ _ Hf Hmeta Hh Hb) as Ho.
    apply (on_fs_run _ w1) in Ho as (w2 & Ho & Hs & Hw2). rewrite Hid, <- Hm.
    unfold mbind at 1, prog_bind at 1. rewrite Ho.
    apply (same_disk_attempting _ _ _ _ Hs Hw2) in Ha.
    pose proof (dispatch_tryDelivery (mkSlot (msg_id meta) None) meta h (FileBuffer (body_of (msg_id meta)) 0)
                  k w2 Hw eq_refl Ha) as Hp. simpl in Hp.
    destruct (tryDelivery q meta h _ w2) as [w3 [u|why]]; done.
Qed.

Lemma serve_gone id n (w : qworld) : gone id w -> gone id (serve n w).
Proof.
  revert w. induction n as [|n IH]; intros w Hg; [done|]. apply IH.
  unfold serve_one. by rewrite (proj1 Hg).
Qed.

Lemma serve_progress id n k (w : qworld) :
  q_windows q = false -> waiting id k w -> k <= Z.of_nat n -> (0 < n)%nat -> gone id (serve n w).
Proof.
  intros Hw. revert k w. induction n as [|n IH]; intros k w Hwt Hk Hn; [lia|]. simpl.
  destruct (serve_one_progress id k w Hw Hwt) as [Hg|[Hwt' Hlt]]; [by apply serve_gone|].
  apply (IH (k - 1)); [done|lia|]. destruct n; lia.
Qed.

(** C2: a message leaves the queue after at most max_tries attempts for each time a
    recipient is listed: after max_tries attempts when the recipients are distinct.
    On a disk that works, whatever the target and the bounce pipeline answer and
    whether or not they panic, once a message has been dispatched that many times
    (once, if max_tries is not positive) nothing is scheduled for it and its
    meta-data file is gone, so that it is never delivered again. *)
Theorem queue_drains meta (w : qworld) n
  (Hwin : q_windows q = false) (Hw : scheduled meta w)
  (Hcount : forall r, r ∈ qm_To meta -> 0 <= tries (qm_TriesCount meta) r)
  (Hn : (0 < n)%nat)
  (Hmax : forall r, r ∈ qm_To meta -> Z.of_nat (copies r (qm_To meta)) * q_maxTries q <= Z.of_nat n) :
  gone (msg_id meta) (serve n w).
Proof.
  apply (serve_progress _ n (Z.of_nat n)); [done| |lia|done]. exists meta. split; [done|]. split; [done|].
  intros r Hr. specialize (Hcount r Hr). specialize (Hmax r Hr). split; [done|]. intros HM. unfold tries_left. lia.
Qed.
End Drains.

(** ** Bounces *)

Section Bounce.
Context `{Textproto} {W : Type} (q : queue (W := W * list call)).

(** The program makes no call on the traced target. *)
Definition silent {A} (m : Prog (W * list call) A) : Prop :=
  forall w w' o, m w = (w', o) -> w'.2 = w.2.

(** The calls emitDSN may make on the bounce pipeline, for a bounce with the meta-data
    [mm]. *)
Inductive bounce_trace (mm : MsgMetadata) (rcpt : string) : list call -> Prop :=
| bt_start e : bounce_trace mm rcpt [CStart mm "" (Some e)]
| bt_rcpt e x : bounce_trace mm rcpt [CStart mm "" None; CAddRcpt rcpt (Some e); CAbort x]
| bt_body e x : bounce_trace mm rcpt [CStart mm "" None; CAddRcpt rcpt None; CBody (Some e); CAbort x]
| bt_commit e x :
    bounce_trace mm rcpt [CStart mm "" None; CAddRcpt rcpt None; CBody None; CCommit (Some e); CAbort x]
| bt_sent : bounce_trace mm rcpt [CStart mm "" None; CAddRcpt rcpt None; CBody None; CCommit None].

Lemma send_dsn_trace {V} (d : Delivery V) rcpt h b w tr wt e :
  send_dsn (traced_delivery d) rcpt h b (w, tr) = (wt, Done e) ->
  exists w' cs, wt = (w', tr ++ cs) /\
    match e with
    | Some e => cs = [CAddRcpt rcpt (Some e)] \/ cs = [CAddRcpt rcpt None; CBody (Some e)]
                \/ cs = [CAddRcpt rcpt None; CBody None; CCommit (Some e)]
    | None => cs = [CAddRcpt rcpt None; CBody None; CCommit None]
    end.
Proof.
  unfold send_dsn. intros E. apply prog_bind_Done in E as (wt1 & r & E1 & E).
  apply log_call_Done in E1 as (w1 & _ & ->).
  destruct r as [e1|]; [cbv [mret prog_ret] in E; simplify_eq; eauto 10|].
  apply prog_bind_Done in E as (wt2 & r & E2 & E). apply log_call_Done in E2 as (w2 & _ & ->).
  rewrite <- app_assoc in E.
  destruct r as [e2|]; [cbv [mret prog_ret] in E; simplify_eq; eauto 10|].
  apply log_call_Done in E as (w3 & _ & ->). rewrite <- app_assoc. exists w3. eexists. split; [done|].
  destruct e; auto.
Qed.

(** C17: a bounce goes out at most once, with the null sender, to the sender of
    the failed message alone.  Its own meta-data has no original sender, so when it
    fails in its turn, in this or another queue, no bounce is sent for it: bounces do
    not loop.  When any of the calls on the pipeline fails the delivery is aborted. *)
Theorem emitDSN_bounces meta h failedRcpts p w w' tr
  (Hp : q_dsnPipeline q = Some (traced p))
  (Hid : silent (q_GenerateMsgID q))
  (Hgen : forall utf8 env mta infos h, silent (q_GenerateDSN q utf8 env mta infos h))
  (Hrun : emitDSN q meta h failedRcpts (w, []) = ((w', tr), Done tt)) :
  tr = [] \/
  (mm_OriginalFrom (qm_MsgMeta meta) <> "" /\ exists mm, bounce_trace mm (qm_From meta) tr /\
     mm_OriginalFrom mm = "" /\ mm_Conn mm = None /\
     mo_UTF8 (mm_SMTPOpts mm) = mo_UTF8 (mm_SMTPOpts (qm_MsgMeta meta)) /\
     mo_RequireTLS (mm_SMTPOpts mm) = mo_RequireTLS (mm_SMTPOpts (qm_MsgMeta meta)) /\
     forall q' meta' h' failed' w2, qm_MsgMeta meta' = mm -> emitDSN (W := W * list call) q' meta' h' failed' w2 = (w2, Done tt)).
Proof.
  unfold emitDSN in Hrun. rewrite Hp in Hrun. case_decide as Hfrom.
  { cbv [mret prog_ret] in Hrun. simplify_eq. by left. }
  apply prog_bind_Done in Hrun as ([w1 tr1] & r & E1 & E). apply Hid in E1. simpl in E1. subst tr1.
  destruct r as [id|e]; [|cbv [mret prog_ret] in E; simplify_eq; by left].
  apply prog_bind_Done in E as ([w2 tr2] & infos & E2 & E).
  unfold lift_outcome in E2. simplify_eq.
  apply prog_bind_Done in E as ([w3 tr3] & r & E3 & E). apply Hgen in E3. simpl in E3. subst tr3.
  destruct r as [[dh blob]|e]; [|cbv [mret prog_ret] in E; simplify_eq; by left].
  apply prog_bind_Done in E as (wt & r & E4 & E). unfold traced in E4. simpl in E4.
  apply prog_bind_Done in E4 as (wt' & r' & E4 & E5). apply log_call_Done in E4 as (w4 & _ & ->).
  cbv [mret prog_ret] in E5. simplify_eq. right. split; [done|].
  eexists. split.
  - destruct r' as [d|e]; [|cbv [mret prog_ret] in E; simplify_eq; apply bt_start].
    apply prog_bind_Done in E as (wt & r & E5 & E). apply send_dsn_trace in E5 as (w5 & cs & -> & Hcs).
    destruct r as [e|]; [|cbv [mret prog_ret] in E; simplify_eq; apply bt_sent].
    apply prog_bind_Done in E as (wt & x & E6 & E). apply log_call_Done in E6 as (w6 & _ & ->).
    cbv [mret prog_ret] in E. simplify_eq.
    destruct Hcs as [->|[->| ->]]; constructor.
  - split_and!; [done..|]. intros q' meta' h' failed' w5 Hm. unfold emitDSN.
    destruct (q_dsnPipeline q'); [|done]. by rewrite Hm, decide_True.
Qed.
End Bounce.

(** ** Accepting a message *)

Section Accept.
Context `{Textproto} {W : Type} (q : queue (W := W)).
Abbreviation qworld := (qworld (W := W)).

(** The calls of a message source on a target. *)
Definition submit {V} (t : DeliveryTarget V) (mm : MsgMetadata) (from : string) (rcpts : list string)
    (h : header) (b : Buffer) : Prog V error :=
  r ← tgt_Start t mm from;
  match r with
  | Err e => mret (Some e)
  | Ok d =>
    for_each (fun r => dl_AddRcpt d r ;; mret tt) rcpts ;;
    e ← dl_Body d h b;
    match e with
    | Some e => dl_Abort d ;; mret (Some e)
    | None => dl_Commit d
    end
  end.

(** A world in which the last delivery started is [qd]. *)
Definition with_delivery (w : qworld) (ds : list queueDelivery) (qd : queueDelivery) : qworld :=
  set_deliveries (ds ++ [qd]) w.

Lemma get_last_delivery (w : qworld) ds qd :
  get_delivery (length ds) (with_delivery w ds qd) = (with_delivery w ds qd, Done qd).
Proof. unfold get_delivery, gets, with_delivery. simpl. by rewrite list_lookup_middle. Qed.

Lemma put_last_delivery (w : qworld) ds qd qd' :
  put_delivery (length ds) qd' (with_delivery w ds qd) = (with_delivery w ds qd', Done tt).
Proof.
  unfold put_delivery, modify, with_delivery, set_deliveries. simpl.
  by rewrite insert_app_r_alt, Nat.sub_diag by lia.
Qed.

Lemma AddRcpt_last (w : qworld) ds meta h b rcpt :
  qd_AddRcpt (length ds) rcpt (with_delivery w ds (mkQD (Some meta) h b))
  = (with_delivery w ds (mkQD (Some (add_rcpt rcpt meta)) h b), Done None).
Proof.
  unfold qd_AddRcpt. rewrite (prog_bind_eq _ _ _ _ _ (get_last_delivery _ _ _)). simpl.
  erewrite prog_bind_eq by done. by rewrite (prog_bind_eq _ _ _ _ _ (put_last_delivery _ _ _ _)).
Qed.

Definition add_rcpts_meta (rcpts : list string) (m : QueueMetadata) : QueueMetadata :=
  foldl (fun m r => add_rcpt r m) m rcpts.

Lemma add_rcpts_meta_To rcpts m :
  qm_To (add_rcpts_meta rcpts m) = qm_To m ++ rcpts /\
  qm_From (add_rcpts_meta rcpts m) = qm_From m /\
  qm_MsgMeta (add_rcpts_meta rcpts m) = qm_MsgMeta m /\
  qm_TriesCount (add_rcpts_meta rcpts m) = qm_TriesCount m.
Proof.
  unfold add_rcpts_meta. revert m. induction rcpts as [|r l IH]; intros m; simpl; [by rewrite app_nil_r|].
  destruct (IH (add_rcpt r m)) as (-> & -> & -> & ->). simpl. by rewrite <- app_assoc.
Qed.

Lemma for_each_AddRcpt (w : qworld) ds meta h b rcpts :
  for_each (fun r => dl_AddRcpt (queue_Delivery q (length ds)) r ;; mret tt) rcpts
    (with_delivery w ds (mkQD (Some meta) h b))
  = (with_delivery w ds (mkQD (Some (add_rcpts_meta rcpts meta)) h b), Done tt).
Proof.
  revert meta. induction rcpts as [|r l IH]; intros meta; [done|]. cbn [for_each dl_AddRcpt queue_Delivery].
  erewrite prog_bind_eq; [apply IH|]. simpl. by rewrite (prog_bind_eq _ _ _ _ _ (AddRcpt_last _ _ _ _ _ _)).
Qed.

Lemma Start_run mm from (w : qworld) :
  exists w1 meta, queue_Start q mm from w
    = (with_delivery w1 (qw_deliveries w) (mkQD (Some meta) hdr_empty None),
       Done (Ok (queue_Delivery q (length (qw_deliveries w))))) /\
    qw_fs w1 = qw_fs w /\ qw_wheel w1 = qw_wheel w /\
    qm_MsgMeta meta = mm /\ qm_From meta = from /\ qm_To meta = [] /\ qm_TriesCount meta = ∅.
Proof.
  unfold queue_Start. eexists (mkQW _ _ _ _ _ _), (mkQueueMetadata _ _ _ _ _ _ _ _ _).
  split; [reflexivity|]. done.
Qed.

Lemma Body_last (w w' : qworld) ds meta h h0 b o :
  qd_Body q (length ds) h b (with_delivery w ds (mkQD (Some meta) h0 None)) = (w', o) ->
  exists s r, storeNewMessage (q_windows q) (q_outside q) meta h b (qw_fs w) = (s, r) /\
    qw_fs w' = s /\ qw_wheel w' = qw_wheel w /\
    match r with
    | Done (Ok buf) => o = Done None /\
        exists w1, w' = with_delivery w1 ds (mkQD (Some meta) h (Some buf))
    | Done (Err e) => o = Done (Some e) /\ exists w1, w' = with_delivery w1 ds (mkQD (Some meta) h0 None)
    | Panicked why => o = Panicked why
    end.
Proof.
  unfold qd_Body. rewrite (prog_bind_eq _ _ _ _ _ (get_last_delivery _ _ _)). simpl.
  erewrite prog_bind_eq by done. intros E. unfold mbind, prog_bind at 1, on_fs, lift in E. simpl in E.
  destruct (storeNewMessage _ _ meta h b (qw_fs w)) as [s r] eqn:Es.
  exists s, r. split; [done|].
  set (w2 := mkQW _ _ _ _ _ _) in E.
  assert (w2 = with_delivery (mkQW s (qw_wheel w) (qw_now w) (qw_ticks w) (qw_deliveries w) (qw_ext w)) ds
                 (mkQD (Some meta) h0 None)) as Ew by done.
  destruct r as [[buf|e]|why].
  - unfold prog_bind in E. rewrite Ew, put_last_delivery in E. cbv [mret prog_ret] in E. simplify_eq. eauto 10.
  - cbv [mret prog_ret] in E. rewrite Ew in E. simplify_eq. eauto 10.
  - by simplify_eq.
Qed.

Lemma Commit_last (w : qworld) ds meta h buf :
  exists w', qd_Commit (length ds) (with_delivery w ds (mkQD (Some meta) h (Some buf))) = (w', Done None) /\
    qw_fs w' = qw_fs w /\
    qw_wheel w' = qw_wheel w ++ [(time_zero, mkSlot (msg_id meta) (Some (meta, h, buf)))].
Proof.
  unfold qd_Commit. rewrite (prog_bind_eq _ _ _ _ _ (get_last_delivery _ _ _)). simpl.
  eexists. split; [reflexivity|]. done.
Qed.

(** C1: the queue as a delivery target.  When Body and Commit report no error,
    one slot holding exactly the sender, the recipients, the header and the body
    file of the message is scheduled at once, and the message is durable: whatever a
    crash leaves, opening it yields the same sender and recipients, the header and
    the body file, and that file holds all the bytes of the body that was given.
    When Body reports an error nothing is scheduled. *)
Theorem queue_accepts mm from rcpts h b (w w' : qworld) o
  (Hwin : q_windows q = false)
  (Hrun : submit (queue_target q) mm from rcpts h b w = (w', o)) :
  exists e, o = Done e /\
    match e with
    | Some _ => qw_wheel w' = qw_wheel w
    | None => exists meta,
        qw_wheel w' = qw_wheel w ++
          [(time_zero, mkSlot (mm_ID mm) (Some (meta, h, FileBuffer (body_of (mm_ID mm)) (buffer_Len (q_outside q) b))))] /\
        qm_MsgMeta meta = mm /\ qm_From meta = from /\ qm_To meta = rcpts /\ qm_TriesCount meta = ∅ /\
        forall d', crash (fs_disk (qw_fs w')) d' ->
          (exists blob, buffer_Open (q_outside q) b = Ok (blob, None) /\
                        content_of d' (body_of (mm_ID mm)) = Some (CBlob blob)) /\
          openMessage (mm_ID mm) (mkFs d' [] []) =
          (mkFs d' [] [], Done (Ok (stored_meta meta, h, FileBuffer (body_of (mm_ID mm)) 0)))
    end.
Proof.
  destruct (Start_run mm from w) as (w1 & meta & Es & Hfs & Hwh & Hmm & Hfrom & Hto & Ht).
  unfold submit in Hrun. simpl in Hrun.
  rewrite (prog_bind_eq _ _ _ _ _ Es) in Hrun. set (ds := qw_deliveries w) in *.
  rewrite (prog_bind_eq _ _ _ _ _ (for_each_AddRcpt _ _ _ _ _ _)) in Hrun.
  set (meta1 := add_rcpts_meta rcpts meta) in *.
  destruct (add_rcpts_meta_To rcpts meta) as (Hto1 & Hfrom1 & Hmm1 & Ht1). fold meta1 in Hto1, Hfrom1, Hmm1, Ht1.
  cbn [dl_Body queue_Delivery] in Hrun.
  destruct (qd_Body q (length ds) h b (with_delivery w1 ds (mkQD (Some meta1) hdr_empty None)))
    as [w2 ob] eqn:Eb.
  pose proof (Body_last _ _ _ _ _ _ _ _ Eb) as (s & r & Est & Hs & Hw2 & Hr). rewrite Hfs in Est.
  destruct (storeNewMessage_wp (q_windows q) (q_outside q) (fs_disk (qw_fs w)) meta1 h b Hwin _ _ _ eq_refl Est)
    as (_ & r' & -> & Hres).
  apply prog_bind_run in Hrun as [(w5 & e & Eb' & Hrun)|(why & Eb' & ->)]; rewrite Eb in Eb';
    [|destruct r', Hr; simplify_eq]. 
  destruct r' as [buf|e']; destruct Hr as [-> [w3 ->]]; simplify_eq.
  - destruct (Commit_last w3 ds meta1 h buf) as (w4 & Ec & Hfs4 & Hwh4).
    cbn [dl_Commit queue_Delivery] in Hrun. rewrite Ec in Hrun. simplify_eq.
    exists None. split; [done|]. exists meta1. assert (buf = FileBuffer (body_of (msg_id meta1)) (buffer_Len (q_outside q) b)) as -> by apply Hres.
    simpl in *.
    assert (msg_id meta1 = mm_ID (qm_MsgMeta meta)) as Hid by (unfold msg_id; by rewrite Hmm1).
    rewrite Hwh4, Hw2, Hwh, Hid. split_and!; try congruence; [by rewrite Hto1, Hto|].
    intros d' Hc. rewrite Hfs4 in Hc. rewrite <- Hid.
    by eapply (store_result_durable (q_outside q) ∅).
  - cbn [dl_Abort queue_Delivery] in Hrun. unfold qd_Abort in Hrun.
    apply prog_bind_run in Hrun as [(w5 & x & Ea & Hrun)|(why & Ea & ->)];
      rewrite (prog_bind_eq _ _ _ _ _ (get_last_delivery _ _ _)) in Ea; cbv [mret prog_ret] in Ea; simpl in Ea;
      simplify_eq.
    cbv [mret prog_ret] in Hrun. simplify_eq. exists (Some e'). split; [done|]. simpl in *. congruence.
Qed.
End Accept.

(** ** Witnesses *)

(** A queue with the default retry policy. *)
Definition sample_queue {W} (t : DeliveryTarget (H := list_textproto) W)
    (dsn : option (DeliveryTarget (H := list_textproto) W)) : queue (H := list_textproto) (W := W) :=
  mkQueue (H := list_textproto) "mx.example.org" "example.org" dsn default_initialRetryTime
    default_retryTimeScale 2 10000000000 t false no_outside 0
    (mret (Ok "d0d0")) (fun _ _ _ _ _ => mret (Ok (["Subject: failed"], "report"))).

Definition sample_errs : gmap string gerror := {["c@example.org" := ETemp (Some (ENew "try later")) true]}.

(** A recipient listed twice is retried and given up on in the same attempt, and its
    count starts again: with max_tries = 2 a third attempt is made. *)
Definition twice_meta : QueueMetadata := set_retry ["c@example.org"; "c@example.org"] 0 sample_meta.
Example duplicate_recipient :
  let st := settle (sample_queue sample_target None) twice_meta sample_errs in
  st_newRcpts st = ["c@example.org"] /\ st_failedRcpts st = ["c@example.org"] /\ st_TriesCount st !! "c@example.org" = None.
Proof. split_and!; reflexivity. Qed.

Definition sample_world : qworld (H := list_textproto) (W := unit) :=
  mkQW (H := list_textproto) (mkFs stored_disk [] [])
    [(time_zero, mkSlot (H := list_textproto) "1a2b3c4d" None)] 0 [] [] tt.

Lemma queue_drains_witness :
  gone (H := list_textproto) "1a2b3c4d" (serve (sample_queue sample_target None) 2 sample_world).
Proof.
  apply (queue_drains (sample_queue sample_target None) sample_meta); [reflexivity| | |lia|].
  - split; [reflexivity|]. exists time_zero, (mkSlot (H := list_textproto) "1a2b3c4d" None).
    split; [reflexivity|]. split; [reflexivity|].
    split; [exists true; reflexivity|]. split; [exists ["From: a"], true; reflexivity|].
    exists (mkFile (CBlob "hi") true). reflexivity.
  - intros r _. apply Z.le_refl.
  - intros r Hr. change (qm_To sample_meta) with ["b@example.org"; "c@example.org"] in *.
    rewrite !elem_of_cons, elem_of_nil in Hr. destruct Hr as [->|[->|[]]]; vm_compute; discriminate.
Defined.

Definition sample_dsn_queue := sample_queue (traced (H := list_textproto) sample_target)
  (Some (traced (H := list_textproto) sample_target)).
Definition sample_failed_meta : QueueMetadata :=
  set_settled (settle sample_dsn_queue sample_meta {["b@example.org" := ETemp (Some (ENew "no such user")) false]})
    sample_meta.
Definition mm_zero : MsgMetadata := mkMsgMetadata "" "" false false ∅ (mkMailOptions 0 false false) None false.
Definition sample_bounce :=
  emitDSN sample_dsn_queue sample_failed_meta ["From: a"] ["b@example.org"] (tt, []).

Lemma emitDSN_bounces_witness :
  (exists mm, bounce_trace mm "a@example.org" sample_bounce.1.2 /\ mm_OriginalFrom mm = "") /\
  map (fun c => match c with CStart mm from e => CStart mm_zero from e | _ => c end) sample_bounce.1.2
  = [CStart mm_zero "" None; CAddRcpt "a@example.org" None; CBody None; CCommit None].
Proof.
  split; [|reflexivity].
  destruct (emitDSN_bounces sample_dsn_queue sample_failed_meta ["From: a"] ["b@example.org"]
              sample_target tt tt sample_bounce.1.2) as [E|(_ & mm & Hb & Hm & _)].
  - reflexivity.
  - intros w w' o E. by injection E as <- _.
  - intros u e m i h w w' o E. by injection E as <- _.
  - vm_compute. reflexivity.
  - discriminate E.
  - exists mm. split; [exact Hb|exact Hm].
Defined.

Definition empty_world : qworld (H := list_textproto) (W := unit) :=
  mkQW (H := list_textproto) (mkFs ∅ [] []) [] 0 [] [] tt.
Definition sample_submit :=
  submit (queue_target (sample_queue sample_target None)) (qm_MsgMeta sample_meta) "a@example.org"
    ["b@example.org"] ["From: a"] (MemoryBuffer "hi") empty_world.

Lemma queue_accepts_witness :
  sample_submit.2 = Done None /\ length (qw_wheel sample_submit.1) = 1%nat.
Proof.
  split; [reflexivity|].
  destruct (queue_accepts (sample_queue sample_target None) (qm_MsgMeta sample_meta) "a@example.org"
    ["b@example.org"] ["From: a"] (MemoryBuffer "hi") empty_world sample_submit.1 sample_submit.2)
    as (e & Ee & He).
  - reflexivity.
  - vm_compute. reflexivity.
  - vm_compute in Ee. injection Ee as <-. destruct He as (meta & -> & _). reflexivity.
Defined.
