(* ===== verification/QueueScan.v ===== *)
(** * QueueScan: the scan of the queue directory at start

    What readDiskQueue (internal/target/queue/queue.go) schedules. *)
From S2P Require Import Prelude GoStr ExtErrors Checks Module Disk QueueStore Limiters Backoff Queue.
From stdpp Require Import sorting.

Local Open Scope Z_scope.

(** ** File names *)

Lemma app_same_len_inj (a b x y : string) :
  String.length x = String.length y -> a +:+ x = b +:+ y -> a = b /\ x = y.
Proof.
  intros Hl E. assert (String.length a = String.length b) as Ha.
  { apply (f_equal String.length) in E. rewrite !str_length_app in E. lia. }
  revert b E Ha. induction a as [|c a IH]; intros [|c' b] E Ha; try done.
  rewrite !str_app_cons in E. injection E as -> E. simpl in Ha.
  destruct (IH b E ltac:(lia)) as [-> ->]. done.
Qed.

Lemma header_tail id : header_of id = (id +:+ ".h") +:+ "eader".
Proof. unfold header_of. by rewrite str_app_assoc. Qed.

Lemma meta_of_inj id id' : meta_of id = meta_of id' -> id = id'.
Proof. by intros [-> _]%app_same_len_inj. Qed.
Lemma header_of_inj id id' : header_of id = header_of id' -> id = id'.
Proof. by intros [-> _]%app_same_len_inj. Qed.
Lemma body_of_inj id id' : body_of id = body_of id' -> id = id'.
Proof. by intros [-> _]%app_same_len_inj. Qed.
Lemma meta_body id id' : meta_of id <> body_of id'.
Proof. by intros [_ ?]%app_same_len_inj. Qed.
Lemma meta_header id id' : meta_of id <> header_of id'.
Proof. rewrite header_tail. by intros [_ ?]%app_same_len_inj. Qed.
Lemma body_header id id' : body_of id <> header_of id'.
Proof. rewrite header_tail. by intros [_ ?]%app_same_len_inj. Qed.

(** [p] is a file of the message. *)
Definition file_of (id p : string) : Prop := p = meta_of id \/ p = header_of id \/ p = body_of id.

Lemma file_of_inj id id' p : file_of id p -> file_of id' p -> id = id'.
Proof.
  intros [->|[->| ->]] [E|[E|E]];
    first [ by apply meta_of_inj | by apply header_of_inj | by apply body_of_inj
          | by apply meta_header in E | by apply meta_body in E | by apply body_header in E
          | symmetry in E;
            first [ by apply meta_header in E | by apply meta_body in E | by apply body_header in E ] ].
Qed.

Section Scan.
Context `{Textproto} {W : Type} (q : queue (W := W)).
Abbreviation qworld := (qworld (W := W)).
Abbreviation qdisk := (gmap string (file (C := content))).

(** The three files are there and the meta-data can be decoded. *)
Definition loadable (d : qdisk) (id : string) : Prop :=
  (exists m sy, d !! meta_of id = Some (mkFile (CMeta m) sy)) /\
  is_Some (d !! header_of id) /\ is_Some (d !! body_of id).

(** [d'] is [d] without some files of messages that cannot be loaded. *)
Definition cleaned (d d' : qdisk) : Prop :=
  forall p, d' !! p = d !! p \/ (d' !! p = None /\ exists id, file_of id p /\ ~ loadable d id).

Lemma cleaned_refl d : cleaned d d.
Proof. by left. Qed.

Lemma cleaned_loadable d d' id : cleaned d d' -> loadable d' id <-> loadable d id.
Proof.
  intros Hc. unfold loadable. split.
  - intros ((m & sy & Hm) & [fh Hh] & [fb Hb]).
    destruct (Hc (meta_of id)) as [E|[E _]]; [rewrite E in Hm|congruence].
    destruct (Hc (header_of id)) as [E'|[E' _]]; [rewrite E' in Hh|congruence].
    destruct (Hc (body_of id)) as [E''|[E'' _]]; [rewrite E'' in Hb|congruence]. eauto 10.
  - intros Hl. assert (forall p, file_of id p -> d' !! p = d !! p) as Hsame.
    { intros p Hp. destruct (Hc p) as [?|(_ & id' & Hp' & Hn)]; [done|].
      exfalso. apply Hn. by rewrite (file_of_inj _ _ _ Hp' Hp). }
    unfold loadable in Hl. unfold file_of in Hsame. by rewrite !Hsame by auto.
Qed.

Lemma cleaned_trans d d' d2 : cleaned d d' -> cleaned d' d2 -> cleaned d d2.
Proof.
  intros H1 H2 p. destruct (H2 p) as [E|(E & id & Hp & Hn)].
  - rewrite E. apply H1.
  - right. split; [done|]. exists id. split; [done|]. by rewrite <- (cleaned_loadable d d').
Qed.

Lemma cleaned_delete d id p : file_of id p -> ~ loadable d id -> cleaned d (delete p d).
Proof.
  intros Hp Hn p'. destruct (decide (p' = p)) as [->|Hne].
  - right. rewrite lookup_delete_eq. eauto.
  - left. by rewrite lookup_delete_ne.
Qed.

(** *** Operations that cannot fail *)

Lemma on_fs_read p (w : qworld) :
  fs_faults (qw_fs w) = [] ->
  on_fs (os_Read p) w = (w, Done (match fs_disk (qw_fs w) !! p with
                                   | None => Err (NotExist p) | Some f => Ok (f_content f) end)).
Proof.
  destruct w as [[d fl hi] ?????]. simpl. intros ->.
  cbv [on_fs lift os_Read faulty next_fault mbind prog_bind gets mret prog_ret]. simpl.
  by destruct (d !! p).
Qed.

Lemma on_fs_stat p (w : qworld) :
  fs_faults (qw_fs w) = [] ->
  on_fs (os_Stat p) w = (w, Done (match fs_disk (qw_fs w) !! p with
                                   | None => Err (NotExist p) | Some f => Ok tt end)).
Proof.
  destruct w as [[d fl hi] ?????]. simpl. intros ->.
  cbv [on_fs lift os_Stat faulty next_fault mbind prog_bind gets mret prog_ret]. simpl.
  by destruct (d !! p).
Qed.

Lemma on_fs_meta id (w : qworld) :
  fs_faults (qw_fs w) = [] ->
  exists r, on_fs (readMessageMeta id) w = (w, Done r) /\
    match r with
    | Ok m => exists sy, fs_disk (qw_fs w) !! meta_of id = Some (mkFile (CMeta m) sy)
    | Err _ => forall m sy, fs_disk (qw_fs w) !! meta_of id <> Some (mkFile (CMeta m) sy)
    end.
Proof.
  destruct w as [[d fl hi] ?????]. simpl. intros ->.
  cbv [on_fs lift readMessageMeta os_Read faulty next_fault mbind prog_bind gets mret prog_ret]. simpl.
  destruct (d !! meta_of id) as [[[] ?]|]; eexists; (split; [reflexivity|]); simpl; naive_solver.
Qed.

Lemma on_fs_tryRemove p (w : qworld) :
  fs_faults (qw_fs w) = [] ->
  exists w', on_fs (tryRemoveDanglingFile p) w = (w', Done tt) /\ fs_faults (qw_fs w') = [] /\
    fs_disk (qw_fs w') = delete p (fs_disk (qw_fs w)) /\ qw_wheel w' = qw_wheel w /\ qw_now w' = qw_now w.
Proof.
  intros Hf. destruct (os_Remove_nofault p (qw_fs w) Hf) as (s' & r & E & Hf' & Hd).
  unfold on_fs, lift, tryRemoveDanglingFile. rewrite (prog_bind_eq _ _ _ _ _ E).
  eexists. split; [reflexivity|]. done.
Qed.

(** What an entry can do to the world: schedule one slot late enough, or clean. *)
Definition scan_step (id : string) (w w' : qworld) : Prop :=
  fs_faults (qw_fs w') = [] /\ qw_now w <= qw_now w' /\
  cleaned (fs_disk (qw_fs w)) (fs_disk (qw_fs w')) /\
  ((loadable (fs_disk (qw_fs w)) id /\
    exists t, qw_wheel w' = qw_wheel w ++ [(t, mkSlot id None)] /\ qw_now w + q_postInitDelay q <= t) \/
   (~ loadable (fs_disk (qw_fs w)) id /\ qw_wheel w' = qw_wheel w)).

Lemma dangling_step id p1 p2 p3 (w : qworld) :
  fs_faults (qw_fs w) = [] -> ~ loadable (fs_disk (qw_fs w)) id -> file_of id p1 -> file_of id p2 ->
  exists w', dangling (NotExist p3) p1 p2 w = (w', Done tt) /\ scan_step id w w'.
Proof.
  intros Hf Hn H1 H2. unfold dangling. simpl.
  destruct (on_fs_tryRemove p1 w Hf) as (w1 & E1 & Hf1 & Hd1 & Hw1 & Hn1).
  destruct (on_fs_tryRemove p2 w1 Hf1) as (w2 & E2 & Hf2 & Hd2 & Hw2 & Hn2).
  exists w2. rewrite (prog_bind_eq _ _ _ _ _ E1). split; [done|].
  pose proof (cleaned_delete _ id p1 H1 Hn) as Hc1.
  split_and!; [done|lia| |right; split; [done|congruence]].
  rewrite Hd2, Hd1. eapply cleaned_trans; [exact Hc1|]. apply (cleaned_delete _ id); [done|].
  by rewrite (cleaned_loadable _ _ _ Hc1).
Qed.

Lemma time_Sub_ge t u d : minInt64 <= d -> d <= time_Sub t u -> d <= maxInt64 -> u + d <= t \/ d = minInt64.
Proof. unfold time_Sub. lia. Qed.

Lemma schedule_read_step id meta (w : qworld) :
  minInt64 < q_postInitDelay q <= maxInt64 ->
  fs_faults (qw_fs w) = [] -> loadable (fs_disk (qw_fs w)) id ->
  exists w', schedule_read q id meta w = (w', Done tt) /\ scan_step id w w'.
Proof.
  intros Hp Hf Hl. unfold schedule_read.
  set (next := qm_LastAttempt meta + _).
  erewrite prog_bind_eq by done. set (now := qw_now w + _). set (w1 := mkQW _ _ _ _ _ _).
  assert (qw_now w <= now) as Hnow by (unfold now; lia).
  destruct (Z.ltb_spec (time_Sub next now) (q_postInitDelay q)) as [Hlt|Hge].
  - erewrite prog_bind_eq by done. simpl. eexists. split; [reflexivity|].
    split_and!; simpl; [done|fold now; lia|by apply cleaned_refl|].
    left. split; [done|]. eexists. split; [done|]. fold now. lia.
  - eexists. split; [reflexivity|]. split_and!; simpl; [done|lia|by apply cleaned_refl|].
    left. split; [done|]. eexists. split; [done|].
    apply (time_Sub_ge next now) in Hge; lia.
Qed.

Lemma read_entry_step name (w : qworld) :
  minInt64 < q_postInitDelay q <= maxInt64 -> fs_faults (qw_fs w) = [] ->
  exists w', read_entry q name w = (w', Done tt) /\
    if HasSuffix name ".meta"
    then exists id, name = meta_of id /\ scan_step id w w'
    else w' = w.
Proof.
  intros Hp Hf. unfold read_entry. destruct (HasSuffix name ".meta") eqn:Es; [|by exists w].
  apply HasSuffix_spec in Es as [id ->].
  assert (str_take (String.length (id +:+ ".meta") - 5) (id +:+ ".meta") = id) as ->.
  { rewrite str_length_app. simpl. rewrite Nat.add_sub. apply str_take_app. }
  cbn [negb]. cbv zeta.
  destruct (on_fs_meta id w Hf) as (r & Er & Hr). rewrite (prog_bind_eq _ _ _ _ _ Er).
  assert (forall w', scan_step id w w' -> exists id0, id +:+ ".meta" = meta_of id0 /\ scan_step id0 w w')
    as Hex by eauto.
  destruct r as [m|e].
  2:{ exists w. split; [done|]. apply Hex. split_and!; [done|lia|apply cleaned_refl|].
      right. split; [|done]. intros [(m & sy & Hm) _]. by apply Hr in Hm. }
  destruct Hr as [sy Hm].
  rewrite (prog_bind_eq _ _ _ _ _ (on_fs_stat _ _ Hf)).
  destruct (fs_disk (qw_fs w) !! header_of id) as [fh|] eqn:Eh.
  2:{ destruct (dangling_step id (meta_of id) (body_of id) (header_of id) w Hf) as (w' & E & Hs);
        [|by left|by right; right|].
      - intros (_ & [? ?] & _). congruence.
      - exists w'. auto. }
  rewrite (prog_bind_eq _ _ _ _ _ (on_fs_stat _ _ Hf)).
  destruct (fs_disk (qw_fs w) !! body_of id) as [fb|] eqn:Eb.
  2:{ destruct (dangling_step id (meta_of id) (header_of id) (body_of id) w Hf) as (w' & E & Hs);
        [|by left|by right; left|].
      - intros (_ & _ & [? ?]). congruence.
      - exists w'. auto. }
  destruct (schedule_read_step id m w Hp Hf) as (w' & E & Hs).
  { split; [eauto|]. rewrite Eh, Eb. eauto. }
  exists w'. auto.
Qed.

(** The world during the scan, after the entries [seen]. *)
Definition scan_inv (w0 : qworld) (seen : list string) (w : qworld) : Prop :=
  fs_faults (qw_fs w) = [] /\ qw_now w0 <= qw_now w /\
  cleaned (fs_disk (qw_fs w0)) (fs_disk (qw_fs w)) /\
  exists added, qw_wheel w = qw_wheel w0 ++ added /\
    (forall t slot, (t, slot) ∈ added -> qw_now w0 + q_postInitDelay q <= t) /\
    (forall id, (exists t, (t, mkSlot id None) ∈ added) <->
                meta_of id ∈ seen /\ loadable (fs_disk (qw_fs w0)) id).

Lemma scan_inv_step w0 seen name (w : qworld) :
  minInt64 < q_postInitDelay q <= maxInt64 -> scan_inv w0 seen w ->
  exists w', read_entry q name w = (w', Done tt) /\ scan_inv w0 (seen ++ [name]) w'.
Proof.
  intros Hp (Hf & Hnow & Hc & added & Hw & Ht & Hadd).
  destruct (read_entry_step name w Hp Hf) as (w' & E & Hs). exists w'. split; [done|].
  destruct (HasSuffix name ".meta") eqn:Es.
  - destruct Hs as (id & -> & Hf' & Hnow' & Hc' & Hcase).
    rewrite (cleaned_loadable _ _ id Hc) in Hcase.
    split; [done|]. split; [lia|]. split; [by eapply cleaned_trans|].
    destruct Hcase as [(Hl & t & Hw' & Hle)|[Hn Hw']].
    + exists (added ++ [(t, mkSlot id None)]). split; [by rewrite Hw', Hw, app_assoc|]. split.
      * intros t' s' [Hin|Hin]%elem_of_app; [by eapply Ht|].
        apply list_elem_of_singleton in Hin. simplify_eq. lia.
      * intros id'. rewrite elem_of_app, list_elem_of_singleton. split.
        -- intros [t' [Hin|Hin]%elem_of_app];
             [by destruct (proj1 (Hadd id') (ex_intro _ t' Hin)); auto|].
           apply list_elem_of_singleton in Hin. simplify_eq. auto.
        -- intros [[Hin|Hin] Hl'].
           ++ destruct (proj2 (Hadd id') (conj Hin Hl')) as [t' ?]. exists t'. set_solver.
           ++ apply meta_of_inj in Hin as ->. exists t. set_solver.
    + exists added. split; [congruence|]. split; [done|]. intros id'.
      rewrite Hadd, elem_of_app, list_elem_of_singleton. split; [by intros []; auto|].
      intros [[?|Hin] ?]; [done|]. by apply meta_of_inj in Hin as ->.
  - subst w'. split_and!; [done..|]. exists added. split; [done|]. split; [done|]. intros id.
    rewrite Hadd, elem_of_app, list_elem_of_singleton. split; [by intros []; auto|].
    intros [[?|<-] ?]; [done|]. exfalso.
    assert (HasSuffix (meta_of id) ".meta" = true) by (apply HasSuffix_spec; by exists id). congruence.
Qed.

Lemma for_each_scan w0 names seen (w : qworld) :
  minInt64 < q_postInitDelay q <= maxInt64 -> scan_inv w0 seen w ->
  exists w', for_each (read_entry q) names w = (w', Done tt) /\ scan_inv w0 (seen ++ names) w'.
Proof.
  intros Hp. revert seen w. induction names as [|n l IH]; intros seen w Hi.
  - exists w. rewrite app_nil_r. done.
  - destruct (scan_inv_step _ _ n _ Hp Hi) as (w1 & E1 & Hi1).
    destruct (IH _ _ Hi1) as (w2 & E2 & Hi2). exists w2. cbn [for_each].
    rewrite (prog_bind_eq _ _ _ _ _ E1). split; [done|]. by rewrite <- app_assoc in Hi2.
Qed.

Lemma elem_of_dir_names (d : qdisk) name : name ∈ dir_names d <-> is_Some (d !! name).
Proof.
  unfold dir_names. rewrite (merge_sort_Permutation name_le).
  rewrite list_elem_of_fmap. split.
  - intros ([p f] & -> & Hin). apply elem_of_map_to_list in Hin. eauto.
  - intros [f Hf]. exists (name, f). split; [done|]. by apply elem_of_map_to_list.
Qed.

(** C13: at start the queue schedules exactly the messages that are whole: the
    meta-data can be decoded and the header and the body are there.  None of them
    is scheduled before the start-up delay has passed, and a file is only removed
    when its message cannot be loaded. *)
Theorem readDiskQueue_schedules (w : qworld)
  (Hp : minInt64 < q_postInitDelay q <= maxInt64) (Hf : fs_faults (qw_fs w) = []) :
  exists w' added, readDiskQueue q w = (w', Done None) /\
    qw_wheel w' = qw_wheel w ++ added /\
    (forall id, (exists t, (t, mkSlot id None) ∈ added) <-> loadable (fs_disk (qw_fs w)) id) /\
    (forall t slot, (t, slot) ∈ added -> qw_now w + q_postInitDelay q <= t) /\
    cleaned (fs_disk (qw_fs w)) (fs_disk (qw_fs w')).
Proof.
  assert (on_fs os_ReadDir w = (w, Done (Ok (dir_names (fs_disk (qw_fs w)))))) as E.
  { destruct w as [[d fl hi] ?????]. simpl in *. by subst fl. }
  unfold readDiskQueue. rewrite (prog_bind_eq _ _ _ _ _ E).
  destruct (for_each_scan w (dir_names (fs_disk (qw_fs w))) [] w Hp) as (w' & E' & Hi).
  { split_and!; [done|lia|apply cleaned_refl|]. exists []. rewrite app_nil_r. set_solver. }
  destruct Hi as (_ & _ & Hc & added & Hw & Ht & Hadd).
  exists w', added. rewrite (prog_bind_eq _ _ _ _ _ E'). split_and!; try done.
  intros id. rewrite Hadd. simpl. split; [by intros []|]. intros Hl. split; [|done].
  apply elem_of_dir_names. destruct Hl as [(m & sy & Hm) _]. eauto.
Qed.
End Scan.

(** ** Witness *)

Definition scan_queue : queue (H := list_textproto) (W := unit) :=
  mkQueue (H := list_textproto) "mx.example.org" "example.org" None default_initialRetryTime
    default_retryTimeScale 2 10000000000
    (mkTarget (H := list_textproto) (fun _ _ => mret (Err (ENew "unreachable")))) false no_outside 0
    (mret (Ok "d0d0")) (fun _ _ _ _ _ => mret (Err (ENew "unused"))).
Definition scan_world : qworld (H := list_textproto) (W := unit) :=
  mkQW (H := list_textproto) (mkFs (<["e5f6.meta" := mkFile (CMeta sample_meta) true]> stored_disk) [] [])
    [] 0 [] [] tt.

Lemma readDiskQueue_schedules_witness :
  exists w' (added : list (Z * queueSlot (H := list_textproto))), readDiskQueue scan_queue scan_world = (w', Done None) /\
    (exists t, (t, mkSlot (H := list_textproto) "1a2b3c4d" None) ∈ added) /\
    ~ (exists t, (t, mkSlot (H := list_textproto) "e5f6" None) ∈ added).
Proof.
  destruct (readDiskQueue_schedules scan_queue scan_world) as (w' & added & E & _ & Hadd & _).
  - vm_compute. split; [reflexivity|discriminate].
  - reflexivity.
  - exists w', added. split; [exact E|]. split.
    + apply Hadd. split; [exists sample_meta, true; reflexivity|]. split; eexists; reflexivity.
    + rewrite Hadd. intros (_ & [f Hf] & _). discriminate Hf.
Defined.
