(* ===== verification/Bounce.v ===== *)
(** * Bounce: the reports the queue asks for can be written

    What emitDSN (Queue) gives to GenerateDSN (Dsn). *)
From S2P Require Import Prelude GoStr GoText ExtErrors Address Checks Module Dsn Disk QueueStore Delivery Queue.
From Stdlib Require Import ZifyBool.

Local Open Scope Z_scope.

(** The enhanced code stored for an error that is not one of go-smtp's. *)
Lemma toSMTPErr_status err :
  (forall c e m t, err <> EGoSMTP c e m t) -> (forall e, Fields (Some err) !! "smtp_enchcode" <> Some (FGoEnch e)) ->
  se_EnhancedCode (toSMTPErr err) = Ench 4 0 0 \/ se_EnhancedCode (toSMTPErr err) = Ench 5 0 0.
Proof.
  intros Hgo Hf. unfold toSMTPErr.
  assert (forall d : EnhancedCode, match Fields (Some err) !! "smtp_enchcode" with Some (FGoEnch c) => c | _ => d end = d) as He.
  { intros d. destruct (Fields (Some err) !! "smtp_enchcode") as [[]|] eqn:E; try done. by destruct (Hf _ eq_refl). }
  destruct err; try (by destruct (Hgo code ench msg temp)).
  all: destruct (IsTemporaryOrUnspec _); cbn [se_EnhancedCode]; rewrite He; auto.
Qed.

Section Bounce.
Context `{Textproto} `{UnicodeTables} `{TextLib}.

(** A stored error whose code is set, and whose numbers are ints *)
Definition describable (e : smtp_err) : Prop :=
  ec0 (se_EnhancedCode e) <> 0 /\ is_int64 (se_Code e) /\ ench_int64 (se_EnhancedCode e).
(** An address that can be written *)
Definition writable (utf8 : bool) (addr : string) : Prop :=
  addr <> "" /\ exists out, SelectIDNA utf8 addr = (out, None) /\ one_line out.

Lemma dsn_rcpts_infos meta failed infos :
  dsn_rcpts meta failed = Done infos ->
  Forall2 (fun rcpt info => exists e, qm_RcptErrs meta !! rcpt = Some e /\ dr_RemoteMTA info = "" /\ dr_Action info = ActionFailed /\
    dr_Status info = se_EnhancedCode e /\ dr_DiagnosticCode info = Some (go_error e) /\
    dr_FinalRecipient info = (let o := default "" (mm_OriginalRcpts (qm_MsgMeta meta) !! rcpt) in if decide (o = "") then rcpt else o))
    failed infos.
Proof.
  revert infos. induction failed as [|rcpt failed IH]; intros infos E; cbn [dsn_rcpts] in E; [injection E as <-; constructor|].
  destruct (qm_RcptErrs meta !! rcpt) as [e|] eqn:He; [|done].
  destruct (dsn_rcpts meta failed) as [rest|] eqn:Er; [|done]. injection E as <-. constructor; [|by apply IH].
  exists e. by split_and!.
Qed.

Lemma recipient_fields_described utf8 info e :
  writable utf8 (dr_FinalRecipient info) -> describable e -> dr_RemoteMTA info = "" -> dr_Action info = ActionFailed ->
  dr_Status info = se_EnhancedCode e -> dr_DiagnosticCode info = Some (go_error e) ->
  exists fs, recipient_fields utf8 info = Done (Ok fs) /\ Forall (fun f => one_line f.2) fs /\
    map fst fs = ["Final-Recipient"; "Action"; "Status"; "Diagnostic-Code"].
Proof.
  intros (Hne & out & Hs & Hout) (Hz & Hcode & Hench) Hm Ha Hst Hd. unfold recipient_fields.
  rewrite decide_False, Hs by done. cbn [converted]. rewrite Ha, Hst, Hd, Hm. rewrite decide_False by done.
  destruct (Z.eqb_spec (ec0 (se_EnhancedCode e)) 0); [done|].
  destruct (diagnostic utf8 (Some (go_error e))) as [diag|] eqn:Hdiag; [|done].
  pose proof (diagnostic_one_line utf8 (Some (go_error e)) diag (conj Hcode Hench) Hdiag) as Hl. cbv [mbind outcome_bind opt_field].
  rewrite decide_True by done. eexists. split; [reflexivity|]. rewrite app_nil_r. split.
  - repeat (apply Forall_cons; split); cbn [snd]; [|by split|by destruct Hench as (?&?&?); apply show_ench_one_line|done].
    rewrite one_line_app. split; [destruct utf8; by split|done].
  - unfold diagnostic, go_error in Hdiag. apply (f_equal (fun o => match o with Done l => map fst l | _ => [] end)) in Hdiag.
    cbn in Hdiag. cbn. by rewrite <- Hdiag.
Qed.

(** An error that is not one of go-smtp's and does not carry one of its codes *)
Definition own_error (err : gerror) : Prop :=
  (forall c e m t, err <> EGoSMTP c e m t) /\ (forall e, Fields (Some err) !! "smtp_enchcode" <> Some (FGoEnch e)) /\
  is_int64 (se_Code (toSMTPErr err)).
Lemma own_error_describable err : own_error err -> describable (toSMTPErr err).
Proof.
  intros (Hgo & Hf & Hc). destruct (toSMTPErr_status err Hgo Hf) as [E|E]; unfold describable; rewrite E; split_and!; try done.
Qed.
(** The address a failure is reported under *)
Definition reported (meta : QueueMetadata) (rcpt : string) : string :=
  let o := default "" (mm_OriginalRcpts (qm_MsgMeta meta) !! rcpt) in if decide (o = "") then rcpt else o.

Lemma dsn_rcpts_total meta failed :
  (forall r, r ∈ failed -> is_Some (qm_RcptErrs meta !! r)) -> exists infos, dsn_rcpts meta failed = Done infos.
Proof.
  induction failed as [|r failed IH]; intros Hall; [by eexists|]. cbn [dsn_rcpts].
  destruct (Hall r ltac:(left)) as [e ->]. destruct IH as [infos ->]; [intros; apply Hall; by right|]. by eexists.
Qed.

(** A bounce describes every failed recipient.  When each failed recipient of a
    message has an error the queue stored, other than a plain one of go-smtp, and the
    address it is reported under can be written, the recipient part of the report is
    made of the four fields of each of them, with the address the sender wrote to,
    a status of class 4 or 5, and no value that spans lines, whatever the text of the
    errors of other servers is. *)
Theorem bounce_described utf8 meta failed :
  (forall r, r ∈ failed -> (exists err, qm_RcptErrs meta !! r = Some (toSMTPErr err) /\ own_error err) /\ writable utf8 (reported meta r)) ->
  exists infos, dsn_rcpts meta failed = Done infos /\
    Forall2 (fun r info => dr_FinalRecipient info = reported meta r /\ (ec0 (dr_Status info) = 4 \/ ec0 (dr_Status info) = 5) /\
      exists fs, recipient_fields utf8 info = Done (Ok fs) /\ Forall (fun f => one_line f.2) fs /\
        map fst fs = ["Final-Recipient"; "Action"; "Status"; "Diagnostic-Code"]) failed infos.
Proof.
  intros Hall. destruct (dsn_rcpts_total meta failed) as [infos E].
  { intros r Hr. destruct (Hall r Hr) as [(err & -> & _) _]. by eexists. }
  exists infos. split; [done|]. pose proof (dsn_rcpts_infos _ _ _ E) as Hi.
  apply Forall2_same_length_lookup in Hi as [Hlen Hi]. apply Forall2_same_length_lookup. split; [done|].
  intros i r info Hr Hinfo. destruct (Hi i r info Hr Hinfo) as (e & He & Hm & Ha & Hst & Hd & Hf).
  destruct (Hall r) as [(err & He' & Hown) Hw]; [by eapply list_elem_of_lookup_2|].
  rewrite He in He'. simplify_eq. fold (reported meta r) in Hf. split_and!; [done| |].
  - destruct Hown as (Hgo & Hx & _). rewrite Hst. destruct (toSMTPErr_status err Hgo Hx) as [-> | ->]; auto.
  - apply (recipient_fields_described utf8 info (toSMTPErr err)); auto using own_error_describable. by rewrite Hf.
Qed.
End Bounce.

(** ** Examples *)

#[local] Existing Instance ascii_tables.
#[local] Existing Instance identity_text.
#[local] Existing Instance pair_textproto.

Definition refused : gerror := ESMTP 550 (Ench 5 1 1) ("no such user" +:+ nl +:+ "X-Injected: yes") "" "" "" "" None ∅.
Definition sample_meta : QueueMetadata :=
  mkQueueMetadata (mkMsgMetadata "id" "a@example.org" false false {[ "bob@mx.example.net" := "bob@example.net" ]} (mkMailOptions 0 false false) None false)
    "a@example.org" [] ["bob@mx.example.net"] [] {[ "bob@mx.example.net" := toSMTPErr refused ]} ∅ 0 0.
Lemma bounce_described_witness :
  exists infos, dsn_rcpts sample_meta ["bob@mx.example.net"] = Done infos /\
    Forall2 (fun r info => dr_FinalRecipient info = reported sample_meta r /\ (ec0 (dr_Status info) = 4 \/ ec0 (dr_Status info) = 5) /\
      exists fs, recipient_fields false info = Done (Ok fs) /\ Forall (fun f => one_line f.2) fs /\
        map fst fs = ["Final-Recipient"; "Action"; "Status"; "Diagnostic-Code"]) ["bob@mx.example.net"] infos.
Proof.
  apply bounce_described. intros r Hr. apply list_elem_of_singleton in Hr. subst r. split.
  - exists refused. split; [reflexivity|]. split; [discriminate|]. split; [|vm_compute; split; discriminate || reflexivity].
    intros e. replace (Fields (Some refused) !! "smtp_enchcode") with (Some (FEnch (Ench 5 1 1))) by (vm_compute; reflexivity).
    discriminate.
  - split; [discriminate|]. exists "bob@example.net". split; [vm_compute; reflexivity|split; reflexivity].
Defined.

(** An error of go-smtp without an enhanced code makes the whole report fail, so that
    no bounce is sent. *)
Example no_status_no_report msg :
  recipient_fields false (mkRcptInfo "bob@example.net" "" ActionFailed (Ench 0 0 0) (Some (EGoSMTP 550 (Ench 0 0 0) msg None)))
  = Done (Err (ENew "dsn: Status is required")).
Proof. vm_compute. reflexivity. Qed.

(** Last-Attempt-Date is written although no attempt was made: the test looks at the
    other date. *)
Example last_attempt_guard :
  mta_fields (fun t => if decide (t = time_zero) then "zero" else "a date") false (mkMTAInfo "mx.example.org" "" "" "" 0 time_zero)
  = Ok [("Reporting-MTA", "dns; mx.example.org"); ("Arrival-Date", "a date"); ("Last-Attempt-Date", "zero")].
Proof. vm_compute. reflexivity. Qed.
