(* ===== verification/Tables.v ===== *)
(** * Tables: internal/table and the Table interfaces of framework/module

    The tables that compute their answers: static, identity, email_localpart,
    email_with_domain and chain.  A module.Table value is a record of programs in
    the world of the modules behind it; [tb_LookupMulti] is [Some] when the value
    also implements module.MultiTable.  An error makes the other results
    meaningless, so a lookup returns a [Result]. *)
From S2P Require Import Prelude GoStr ExtErrors Address Config.
From Stdlib Require Import Ascii.

Record Table (W : Type) := mkTable {
  tb_Lookup : string -> Prog W (Result gerror (option string));
  tb_LookupMulti : option (string -> Prog W (Result gerror (list string)))
}.
Arguments mkTable {_} _ _.
Arguments tb_Lookup {_} _ _.
Arguments tb_LookupMulti {_} _.

(** ** table.static *)

Abbreviation static_map := (gmap string (list string)).

(** The callback of the directive [entry]: a later entry replaces an earlier one. *)
Definition static_entry (m : static_map) (node : Node) : Result gerror static_map :=
  match node_Args node with
  | key :: (_ :: _) as values => Ok (<[key := tail values]> m)
  | _ => Err (NodeErr node "expected at least one value")
  end.
Fixpoint Static_Init (m : static_map) (entries : list Node) : Result gerror static_map :=
  match entries with
  | [] => Ok m
  | node :: entries => m ← static_entry m node; Static_Init m entries
  end.

Definition Static_LookupMulti (m : static_map) (key : string) : list string := default [] (m !! key).
Definition Static_Lookup (m : static_map) (key : string) : option string :=
  head (Static_LookupMulti m key).

Definition static_table {W} (m : static_map) : Table W :=
  mkTable (fun key => mret (Ok (Static_Lookup m key)))
          (Some (fun key => mret (Ok (Static_LookupMulti m key)))).

(** ** table.identity *)

Definition Identity_Lookup (key : string) : option string := Some key.
Definition identity_table {W} : Table W := mkTable (fun key => mret (Ok (Identity_Lookup key))) None.

(** ** table.email_localpart *)

Section Addresses.
Context `{UnicodeTables} `{TextLib}.

Definition EmailLocalpart_Lookup (allowNonEmail : bool) (key : string) : option string :=
  match Split key with
  | Err _ => if allowNonEmail then Some key else None
  | Ok (mbox, _) => Some mbox
  end.
Definition email_localpart_table {W} (allowNonEmail : bool) : Table W :=
  mkTable (fun key => mret (Ok (EmailLocalpart_Lookup allowNonEmail key))) None.

(** ** table.email_with_domain *)

Definition errInvalidDomain (d : string) : gerror :=
  EErrorf ("table.email_with_domain: invalid domain: " +:+ d) None.
Definition errNoDomain : gerror :=
  EErrorf "table.email_with_domain: at least one domain is required" None.

Definition EmailWithDomain_Init (domains : list string) : error :=
  match find (fun d => negb (ValidDomain d)) domains with
  | Some d => Some (errInvalidDomain d)
  | None => match domains with [] => Some errNoDomain | _ => None end
  end.

Definition index_panic : string := "index out of range".

(** [s.domains[0]] panics on an empty list, also in the log call guarded by
    [len(s.domains) == 0]. *)
Definition EmailWithDomain_Lookup (domains : list string) (key : string) : Outcome string :=
  match domains with
  | [] => Panicked index_panic
  | d :: _ => mret (QuoteMbox key +:+ at_str +:+ d)
  end.
Definition EmailWithDomain_LookupMulti (domains : list string) (key : string) : list string :=
  map (fun d => QuoteMbox key +:+ at_str +:+ d) domains.

Definition email_with_domain_table {W} (domains : list string) : Table W :=
  mkTable (fun key w => (w, match EmailWithDomain_Lookup domains key with
                            | Done v => Done (Ok (Some v)) | Panicked why => Panicked why end))
          (Some (fun key => mret (Ok (EmailWithDomain_LookupMulti domains key)))).
End Addresses.

(** ** table.chain *)

Section Chain.
Context {W : Type}.

(** One lookup of a step, through LookupMulti where the table has it: no value
    is the empty list. *)
Definition step_lookup (step : Table W) (key : string) : Prog W (Result gerror (list string)) :=
  match tb_LookupMulti step with
  | Some multi => multi key
  | None =>
    r ← tb_Lookup step key;
    mret (match r with
          | Err e => Err e
          | Ok None => Ok []
          | Ok (Some v) => Ok [v]
          end)
  end.

(** The inner loop over the values so far: [None] when one has no value. *)
Fixpoint step_keys (step : Table W) (keys newResult : list string)
  : Prog W (Result gerror (option (list string))) :=
  match keys with
  | [] => mret (Ok (Some newResult))
  | key :: keys =>
    r ← step_lookup step key;
    match r with
    | Err e => mret (Err e)
    | Ok [] => mret (Ok None)
    | Ok val => step_keys step keys (newResult ++ val)
    end
  end.

(** The loop STEP; each table comes with its optional flag. *)
Fixpoint chain_steps (steps : list (Table W * bool)) (result : list string)
  : Prog W (Result gerror (list string)) :=
  match steps with
  | [] => mret (Ok result)
  | (step, optional) :: steps =>
    r ← step_keys step result [];
    match r with
    | Err e => mret (Err e)
    | Ok (Some newResult) => chain_steps steps newResult
    | Ok None => if optional : bool then chain_steps steps result else mret (Ok [])
    end
  end.

Definition Chain_LookupMulti (steps : list (Table W * bool)) (key : string)
  : Prog W (Result gerror (list string)) := chain_steps steps [key].

Definition Chain_Lookup (steps : list (Table W * bool)) (key : string)
  : Prog W (Result gerror (option string)) :=
  r ← Chain_LookupMulti steps key;
  mret (match r with Err e => Err e | Ok l => Ok (head l) end).

Definition chain_table (steps : list (Table W * bool)) : Table W :=
  mkTable (Chain_Lookup steps) (Some (Chain_LookupMulti steps)).
End Chain.

(** ** Facts about chains *)

Section ChainFacts.
Context {W : Type}.

(** A table that answers [f], without effect. *)
Definition pure_table (t : Table W) (f : string -> list string) : Prop :=
  forall key w, step_lookup t key w = (w, Done (Ok (f key))).

Definition nonempty_on (f : string -> list string) (keys : list string) : bool :=
  forallb (fun k => match f k with [] => false | _ => true end) keys.

Lemma step_keys_pure t f keys acc w :
  pure_table t f ->
  step_keys t keys acc w
  = (w, Done (Ok (if nonempty_on f keys then Some (acc ++ flat_map f keys) else None))).
Proof.
  intros Hp. revert acc. induction keys as [|k l IH]; intros acc; simpl; [by rewrite app_nil_r|].
  rewrite (prog_bind_eq _ _ _ _ _ (Hp k w)). destruct (f k) as [|v vs] eqn:E; [done|].
  rewrite IH. simpl. destruct (nonempty_on f l); [|done]. by rewrite <- app_assoc.
Qed.

(** The reference meaning of a chain of pure tables: a step maps every value; if
    one of them has no value the step is skipped when optional and ends the
    lookup with nothing otherwise. *)
Fixpoint chain_ref (fs : list ((string -> list string) * bool)) (result : list string) : list string :=
  match fs with
  | [] => result
  | (f, optional) :: fs =>
    if nonempty_on f result then chain_ref fs (flat_map f result)
    else if optional : bool then chain_ref fs result else []
  end.

Lemma chain_steps_pure steps fs result w :
  Forall2 (fun s g => pure_table s.1 g.1 /\ s.2 = g.2) steps fs ->
  chain_steps steps result w = (w, Done (Ok (chain_ref fs result))).
Proof.
  intros Hf. revert result. induction Hf as [|[t o] [f o'] steps fs [Hp Ho] Hf IH]; intros result; [done|].
  simpl in *. subst o'. rewrite (prog_bind_eq _ _ _ _ _ (step_keys_pure t f result [] w Hp)).
  simpl. destruct (nonempty_on f result); [by rewrite IH|]. destruct o; [by rewrite IH|done].
Qed.

Lemma chain_ref_nil fs : chain_ref fs [] = [].
Proof. induction fs as [|[f o] fs IH]; [done|]. simpl. apply IH. Qed.

Lemma chain_ref_app fs gs result : chain_ref (fs ++ gs) result = chain_ref gs (chain_ref fs result).
Proof.
  revert result. induction fs as [|[f o] fs IH]; intros result; [done|]. simpl.
  destruct (nonempty_on f result); [apply IH|]. destruct o; [apply IH|]. by rewrite chain_ref_nil.
Qed.
End ChainFacts.

(** Table.email_with_domain makes addresses from which table.email_localpart
    and unquoting give the key back: for every non-empty key and every configured
    domain without an at-sign, the made address splits into the quoted key and
    that domain, and the local part unquotes to the key (to the key with invalid
    UTF-8 replaced). *)
Theorem email_with_domain_roundtrip `{UnicodeTables} `{TextLib} domains key d addr
  (Hkey : key <> "") (Hd : d <> "") (Hat : has_byte at_sign d = false)
  (Hin : (d, addr) ∈ zip domains (EmailWithDomain_LookupMulti domains key)) :
  Split addr = Ok (QuoteMbox key, d) /\
  EmailLocalpart_Lookup false addr = Some (QuoteMbox key) /\
  UnquoteMbox (QuoteMbox key) = Ok (string_of_runes (runes key)).
Proof.
  assert (addr = QuoteMbox key +:+ at_str +:+ d) as ->.
  { unfold EmailWithDomain_LookupMulti in Hin. clear Hkey Hd Hat.
    induction domains as [|d' l IH]; simpl in Hin; [by apply elem_of_nil in Hin|].
    apply elem_of_cons in Hin as [Hin|Hin]; [by simplify_eq|auto]. }
  assert (QuoteMbox key <> "") as Hq.
  { unfold QuoteMbox. destruct (existsb _ _); [|done]. done. }
  assert (Split (QuoteMbox key +:+ at_str +:+ d) = Ok (QuoteMbox key, d)) as Hs by (by apply Split_join).
  split; [done|]. split; [unfold EmailLocalpart_Lookup; by rewrite Hs|].
  by apply UnquoteMbox_QuoteMbox.
Qed.

Lemma email_with_domain_roundtrip_witness :
  @EmailLocalpart_Lookup ascii_tables false (QuoteMbox "a b" +:+ "@example.org") = Some (QuoteMbox "a b").
Proof.
  apply (@email_with_domain_roundtrip ascii_tables identity_text ["example.org"] "a b" "example.org").
  - discriminate.
  - discriminate.
  - reflexivity.
  - left.
Defined.

(** A chain of tables that answer without effect and without error computes
    its reference meaning, and chains compose: looking a key up in a chain made of
    two parts is looking it up in the first and running the second on the values
    found. *)
Theorem chain_composes {W} (steps1 steps2 : list (Table W * bool)) fs1 fs2 key w
  (H1 : Forall2 (fun s g => pure_table s.1 g.1 /\ s.2 = g.2) steps1 fs1)
  (H2 : Forall2 (fun s g => pure_table s.1 g.1 /\ s.2 = g.2) steps2 fs2) :
  Chain_LookupMulti (steps1 ++ steps2) key w = (w, Done (Ok (chain_ref fs2 (chain_ref fs1 [key])))) /\
  Chain_LookupMulti (steps1 ++ steps2) key w
  = (r ← Chain_LookupMulti steps1 key;
     match r with Err e => mret (Err e) | Ok l => chain_steps steps2 l end) w.
Proof.
  assert (Chain_LookupMulti (steps1 ++ steps2) key w
          = (w, Done (Ok (chain_ref fs2 (chain_ref fs1 [key]))))) as E.
  { unfold Chain_LookupMulti. rewrite (chain_steps_pure _ (fs1 ++ fs2)) by (by apply Forall2_app).
    by rewrite chain_ref_app. }
  split; [done|]. rewrite E. unfold Chain_LookupMulti.
  rewrite (prog_bind_eq _ _ _ _ _ (chain_steps_pure _ _ _ _ H1)). by rewrite (chain_steps_pure _ _ _ _ H2).
Qed.

Definition sample_static : static_map := {["a" := ["b"; "c"]; "b" := ["d"]]}.

Lemma chain_composes_witness :
  Chain_LookupMulti [(static_table sample_static, false); (static_table sample_static, true)] "a" tt
  = (tt, Done (Ok ["b"; "c"])).
Proof.
  refine (eq_trans (proj1 (chain_composes [(static_table sample_static, false)]
    [(static_table sample_static, true)] [(Static_LookupMulti sample_static, false)]
    [(Static_LookupMulti sample_static, true)] "a" tt _ _)) _);
    [repeat constructor|repeat constructor|reflexivity].
Defined.
