(* ===== verification/TableFile.v ===== *)
(** * TableFile: table.file and table.regexp (internal/table)

    The table kept in a text file, its reloading, and the table made of a regular
    expression.  The file system, the clock and the regexp engine are parameters. *)
From S2P Require Import Prelude GoStr GoText ExtErrors Address Tables.
From stdpp Require Import gmap.
From Stdlib Require Import Ascii ZifyBool.

Local Open Scope Z_scope.

(** ** readFile *)

Notation file_map := (gmap string (list string)).

Section File.
Context `{UnicodeTables}.

(** [out[from] = append(out[from], to)] for each value *)
Definition append_values (m : file_map) (from : string) (tos : list string) : file_map :=
  <[from := default [] (m !! from) ++ tos]> m.
Definition parse_error (path : string) (lineCounter : nat) (text : string) : gerror :=
  EErrorf (path +:+ ":" +:+ FormatInt (Z.of_nat lineCounter) +:+ ": " +:+ text) None.

(** One line: nothing, or a key and its values *)
Inductive file_line := Skip | NoKey | Entry (from : string) (tos : list string).
Definition read_line (line : string) : file_line :=
  if HasPrefix line "#" then Skip
  else
    let text := TrimSpace line in
    if decide (text = "") then Skip
    else
      let '(key, values) := match SplitN text ":"%char 2 with [k; v] => (k, v) | _ => (text, "") end in
      let from := TrimSpace key in
      if decide (from = "") then NoKey else Entry from (map TrimSpace (SplitByte values ","%char)).
(** The loop: the map is filled also when a later line is refused. *)
Fixpoint read_lines (path : string) (lineCounter : nat) (lines : list string) (out : file_map) : file_map * error :=
  match lines with
  | [] => (out, None)
  | line :: lines =>
    match read_line line with
    | Skip => read_lines path (S lineCounter) lines out
    | NoKey => (out, Some (parse_error path (S lineCounter) "empty address before colon"))
    | Entry from tos => read_lines path (S lineCounter) lines (append_values out from tos)
    end
  end.

(** The file system: an absent file is told apart from other errors. *)
Inductive fs_error := NotExist | OtherError (err : gerror).
Record FileWorld (W : Type) := mkFileWorld {
  fw_Open : string -> Prog W (fs_error + (string * error));   (* the content, and the error reading ended with *)
  fw_Stat : string -> Prog W (fs_error + Z);                  (* ModTime *)
  fw_Now : Prog W Z
}.
Arguments fw_Open {_} _ _.
Arguments fw_Stat {_} _ _.
Arguments fw_Now {_} _.
Context {W : Type} (fw : FileWorld W).

Definition scan_error (long : bool) (err : error) : error := if long then Some (ENew ErrTooLong) else err.
Definition readFile (path : string) (out : file_map) : Prog W (file_map * option fs_error) :=
  r ← fw_Open fw path;
  mret (match r with
        | inl e => (out, Some e)
        | inr (content, err) =>
          let '(lines, long) := ScanLines content in
          match read_lines path 0 lines out with
          | (out, Some e) => (out, Some (OtherError e))
          | (out, None) => (out, option_map OtherError (scan_error long err))
          end
        end).

Record File := mkFile { fi_file : string; fi_m : file_map; fi_mStamp : Z }.
Definition with_map (m : file_map) (f : File) : File := mkFile (fi_file f) m (fi_mStamp f).

(** The loading part of Init, after the directive [file] was processed *)
Definition file_Init (f : File) (file : string) : Prog W (File * error) :=
  if decide (file <> "" /\ fi_file f <> "") then
    mret (f, Some (EErrorf "table.file: file path specified both in directive and in argument, do it once" None))
  else
    let f := if decide (file = "") then f else mkFile file (fi_m f) (fi_mStamp f) in
    r ← readFile (fi_file f) (fi_m f);
    mret (match r with
          | (m, Some (OtherError e)) => (with_map m f, Some e)
          | (m, _) => (with_map m f, None)
          end).

Definition second : Z := 1000000000.
Definition reloadInterval : Z := 15 * second.
(** reload; after an error of Stat that is not NotExist the nil FileInfo is used. *)
Definition reload (f : File) : Prog W File :=
  info ← fw_Stat fw (fi_file f);
  match info with
  | inl NotExist => mret (with_map ∅ f)
  | inl (OtherError _) => panic "invalid memory address or nil pointer dereference"
  | inr modTime =>
    if modTime <? fi_mStamp f then mret f
    else
      now ← fw_Now fw;
      if now - modTime <? Z.quot reloadInterval 2 then mret f
      else
        r ← readFile (fi_file f) ∅;
        match r with
        | (_, Some _) => mret f
        | (newm, None) =>
          info2 ← fw_Stat fw (fi_file f);
          mret (match info2 with
                | inl _ => f
                | inr modTime2 => if modTime2 =? modTime then mkFile (fi_file f) newm modTime else f
                end)
        end
  end.

(** The loop of reloader: a panic is recovered, and ends it. *)
Inductive reload_ev := Tick | ForceReload | StopReloader.
Fixpoint reloader (evs : list reload_ev) (f : File) : Prog W (File * bool) :=
  match evs with
  | [] => mret (f, true)
  | StopReloader :: _ => mret (f, false)
  | (Tick | ForceReload) :: evs => fun w =>
    match reload f w with
    | (w, Done f) => reloader evs f w
    | (w, Panicked _) => (w, Done (f, false))
    end
  end.

Definition File_Lookup (f : File) (val : string) : option string :=
  match fi_m f !! val with Some (v :: _) => Some v | _ => None end.
Definition File_LookupMulti (f : File) (val : string) : list string := default [] (fi_m f !! val).
Definition file_table {V} (f : File) : Table V :=
  mkTable (fun key => mret (Ok (File_Lookup f key))) (Some (fun key => mret (Ok (File_LookupMulti f key)))).

(** ** table.regexp *)

(** regexp.Compile, and of the compiled expression FindStringSubmatchIndex and
    ExpandString *)
Record regex := mkRegex { re_Find : string -> option (list Z); re_Expand : string -> string -> list Z -> string }.
Context (regexp_Compile : string -> Result gerror regex).

Record Regexp := mkRegexp { rx_re : regex; rx_replacements : list string; rx_expandPlaceholders : bool }.
Definition regex_text (fullMatch caseInsensitive : bool) (regex : string) : string :=
  let regex :=
    if fullMatch then
      let regex := if HasPrefix regex "^" then regex else "^" +:+ regex in
      if HasSuffix regex "$" then regex else regex +:+ "$"
    else regex in
  if caseInsensitive then "(?i)" +:+ regex else regex.
Definition Regexp_Init (modName : string) (inlineArgs : list string) (fullMatch caseInsensitive expandPlaceholders : bool)
  : Outcome (Result gerror Regexp) :=
  match inlineArgs with
  | [] => Panicked "index out of range"
  | regex :: replacements =>
    Done (match regexp_Compile (regex_text fullMatch caseInsensitive regex) with
          | Err e => Err (EErrorf (modName +:+ ": " +:+ Error e) None)
          | Ok re => Ok (mkRegexp re replacements expandPlaceholders)
          end)
  end.
Definition Regexp_LookupMulti (r : Regexp) (key : string) : list string :=
  match re_Find (rx_re r) key with
  | None => []
  | Some matches =>
    map (fun replacement => if rx_expandPlaceholders r then re_Expand (rx_re r) replacement key matches else replacement) (rx_replacements r)
  end.
Definition Regexp_Lookup (r : Regexp) (key : string) : option string := head (Regexp_LookupMulti r key).
End File.

(** ** Reading back what was written *)

Section Print.
Context `{UnicodeTables}.

Definition comma : ascii := ","%char.
Definition colon_sep : ascii := ":"%char.
(** Text without blanks at its ends: printable ASCII *)
Definition visible (b : Z) : Prop := 33 <= b <= 126.
Definition edges (l : list Z) : Prop := Forall visible (take 1 l) /\ Forall visible (take 1 (rev l)).
Definition neat (s : string) : Prop := ascii_str s /\ edges (to_bytes s).
Lemma visible_not_space b : visible b -> IsSpace b = false.
Proof. unfold visible, IsSpace. intros Hb. replace (b <? 128) with true by lia. lia. Qed.
Lemma neat_trimmed s : neat s -> TrimSpace s = s.
Proof.
  intros (Ha & Hf & Hl). apply TrimSpace_trimmed. unfold trimmed. rewrite runes_ascii by done.
  split; intros b l E; rewrite E in *; simpl in *; [apply Forall_cons in Hf as [? _]|apply Forall_cons in Hl as [? _]]; auto using visible_not_space.
Qed.
Lemma edge_app a c b : Forall visible (take 1 a) -> visible c -> Forall visible (take 1 (a ++ c :: b)).
Proof. destruct a as [|x a]; simpl; intros Ha Hc; [constructor; [done|constructor]|done]. Qed.
Lemma neat_sep s c t : neat s -> visible (byte_of c) -> neat t -> neat (s +:+ String c t).
Proof.
  intros [Hs [Hs1 Hs2]] Hc [Ht [Ht1 Ht2]]. split.
  - apply ascii_str_app. split; [done|]. unfold ascii_str. simpl. constructor; [unfold visible in Hc; lia|done].
  - rewrite to_bytes_app. cbn [to_bytes]. split; [by apply edge_app|].
    rewrite rev_app_distr. cbn [rev]. rewrite <- app_assoc. by apply edge_app.
Qed.
Lemma neat_join l c : visible (byte_of c) -> Forall neat l -> neat (JoinByte l c).
Proof.
  intros Hc. induction 1 as [|s l Hs Hl IH]; [repeat constructor|]. destruct l as [|t l]; [done|].
  change (JoinByte (s :: t :: l) c) with (s +:+ String c (JoinByte (t :: l) c)). by apply neat_sep.
Qed.

Definition good_key (k : string) : Prop :=
  neat k /\ k <> "" /\ HasPrefix k "#" = false /\ has_byte colon_sep k = false /\ has_byte LF k = false.
Definition good_value (v : string) : Prop := neat v /\ has_byte comma v = false /\ has_byte LF v = false.
Definition print_entry (e : string * list string) : string := e.1 +:+ ":" +:+ JoinByte e.2 comma.
Definition good_entry (e : string * list string) : Prop :=
  good_key e.1 /\ e.2 <> [] /\ Forall good_value e.2 /\ Z.of_nat (String.length (print_entry e)) <= maxLine.
Fixpoint print_table (entries : list (string * list string)) : string :=
  match entries with [] => "" | e :: entries => print_entry e +:+ String LF (print_table entries) end.

(** A printed entry is a line that reads as the entry. *)
Lemma read_print_line e : good_entry e -> read_line (print_entry e) = Entry e.1 e.2 /\ has_byte LF (print_entry e) = false.
Proof.
  intros ((Hk & Hne & Hh & Hc & Hlf) & Hv & Hvs & _). destruct e as [k vs]. simpl in *. unfold print_entry. simpl.
  assert (Forall neat vs) as Hn by (eapply Forall_impl; [exact Hvs|]; by intros v (? & _)).
  pose proof (neat_join vs comma ltac:(unfold visible; vm_compute; split; discriminate) Hn) as Hj.
  change (":" +:+ JoinByte vs comma) with (String colon_sep (JoinByte vs comma)).
  pose proof (neat_sep k colon_sep _ Hk ltac:(unfold visible; vm_compute; split; discriminate) Hj) as Hl.
  split.
  - unfold read_line. destruct k as [|a k]; [done|]. rewrite str_app_cons.
    assert (HasPrefix (String a (k +:+ String colon_sep (JoinByte vs comma))) "#" = false) as ->.
    { assert (forall s, HasPrefix s "" = true) as Hp by (by intros []). cbn [HasPrefix] in *. by rewrite Hp in *. }
    rewrite <- str_app_cons. rewrite neat_trimmed by done. rewrite decide_False by done.
    fold colon_sep. rewrite SplitN_cons by done. cbn [SplitN]. rewrite neat_trimmed by done. rewrite decide_False by done.
    fold comma. rewrite SplitByte_Join; [|done|eapply Forall_impl; [exact Hvs|]; by intros v (_ & ? & _)].
    f_equal. clear -Hn. induction Hn as [|v vs Hv Hn IH]; [done|]. simpl. by rewrite neat_trimmed, IH.
  - rewrite has_byte_app, Hlf. cbn [has_byte]. rewrite bool_decide_false by done. simpl.
    apply has_byte_Join; [|done]. eapply Forall_impl; [exact Hvs|]. by intros v (_ & _ & ?).
Qed.

Lemma neat_entry e : good_entry e -> neat (print_entry e).
Proof.
  intros ((Hk & _) & Hv & Hvs & _). unfold print_entry.
  apply (neat_sep e.1 colon_sep); [done|unfold visible; vm_compute; split; discriminate|].
  apply neat_join; [unfold visible; vm_compute; split; discriminate|]. eapply Forall_impl; [exact Hvs|]. by intros v (? & _).
Qed.
Lemma no_CR_end s : neat s -> dropCR s = s.
Proof.
  intros [_ [_ Hl]]. unfold dropCR. destruct (TrimSuffix_cases s (String CR "")) as [[_ E]|E]; [done|].
  rewrite E in Hl. rewrite to_bytes_app, rev_app_distr in Hl. simpl in Hl. inversion Hl as [|x l Hx]; subst.
  unfold visible in Hx. vm_compute in Hx. destruct Hx as [Hx _]. by destruct Hx.
Qed.

Lemma ScanLines_print entries : Forall good_entry entries -> ScanLines (print_table entries) = (map print_entry entries, false).
Proof.
  intros He. assert (print_table entries = unlines (map print_entry entries)) as -> by (clear; induction entries as [|e es IH]; [done|]; simpl; by rewrite IH).
  apply ScanLines_unlines, Forall_fmap. eapply Forall_impl; [exact He|]. intros e Hge. destruct (read_print_line e Hge) as [_ Hlf].
  split; [done|]. split; [by apply no_CR_end, neat_entry|]. by destruct Hge as (_ & _ & _ & Hlen).
Qed.

(** The values of a key, in the order of the entries *)
Definition values_of (entries : list (string * list string)) (key : string) : list string :=
  flat_map snd (filter (fun e => e.1 = key) entries).
Lemma read_lines_print path n entries out :
  Forall good_entry entries ->
  exists m, read_lines path n (map print_entry entries) out = (m, None) /\
    forall key, default [] (m !! key) = default [] (out !! key) ++ values_of entries key.
Proof.
  intros Hes. revert n out. induction Hes as [|e entries He Hes IH]; intros n out.
  - exists out. split; [done|]. intros key. unfold values_of. simpl. by rewrite app_nil_r.
  - cbn [map read_lines]. destruct (read_print_line e He) as [-> _].
    destruct (IH (S n) (append_values out e.1 e.2)) as (m & -> & Hm). exists m. split; [done|]. intros key. rewrite Hm.
    unfold append_values, values_of. rewrite filter_cons. destruct (decide (e.1 = key)) as [<-|Hne].
    + rewrite lookup_insert_eq. simpl. by rewrite <- app_assoc.
    + by rewrite lookup_insert_ne by done.
Qed.

(** A table that is written out is read back.  For entries whose keys and values are
    ASCII without blanks at their ends (and without the separators), the file that has
    them line by line is read without error, and LookupMulti then gives for every key
    its values in the order of the file, those of repeated keys together. *)
Theorem file_read_back {W} (fw : FileWorld W) path entries w w' :
  Forall good_entry entries -> fw_Open _ fw path w = (w', Done (inr (print_table entries, None))) ->
  exists m, readFile fw path ∅ w = (w', Done (m, None)) /\
    forall stamp key, File_LookupMulti (mkFile path m stamp) key = values_of entries key /\
                      File_Lookup (mkFile path m stamp) key = head (values_of entries key).
Proof.
  intros Hes Ho. destruct (read_lines_print path 0 entries ∅ Hes) as (m & E & Hm). exists m. split.
  - unfold readFile. rewrite (prog_bind_eq _ _ _ _ _ Ho), ScanLines_print by done. by rewrite E.
  - intros stamp key. specialize (Hm key). rewrite lookup_empty in Hm. simpl in Hm.
    unfold File_LookupMulti, File_Lookup. simpl. rewrite <- Hm. destruct (m !! key) as [[|v vs]|]; done.
Qed.
End Print.

(** ** What reloading may do *)

Section Reload.
Context `{UnicodeTables} {W : Type} (fw : FileWorld W).

(** The table that a whole file gives *)
Definition whole_file (path : string) (m : file_map) : Prop :=
  exists content lines, ScanLines content = (lines, false) /\ read_lines path 0 lines ∅ = (m, None).

Lemma reload_cases f w w' f' :
  reload fw f w = (w', Done f') ->
  fi_file f' = fi_file f /\ (fi_m f' = fi_m f \/ fi_m f' = ∅ \/ whole_file (fi_file f) (fi_m f')).
Proof.
  unfold reload. intros E. apply prog_bind_Done in E as (w1 & info & _ & E).
  destruct info as [[|err]|modTime]; [by cbv in E; simplify_eq/=; auto|done|].
  destruct (modTime <? fi_mStamp f); [cbv [mret prog_ret] in E; simplify_eq; auto|].
  apply prog_bind_Done in E as (w2 & now & _ & E). destruct (_ <? _); [cbv [mret prog_ret] in E; simplify_eq; auto|].
  apply prog_bind_Done in E as (w3 & [newm [err|]] & Er & E); [cbv [mret prog_ret] in E; simplify_eq; auto|].
  apply prog_bind_Done in E as (w4 & info2 & _ & E). cbv [mret prog_ret] in E. injection E as <- <-.
  destruct info2 as [err|modTime2]; [auto|]. destruct (_ =? _); [|auto]. split; [done|]. right; right. simpl.
  unfold readFile in Er. apply prog_bind_Done in Er as (w5 & r & _ & Er). cbv [mret prog_ret] in Er. injection Er as _ Er.
  destruct r as [e|[content err]]; [done|]. destruct (ScanLines content) as [lines long] eqn:Hs.
  destruct (read_lines (fi_file f) 0 lines ∅) as [m [e|]] eqn:Hr; [done|]. injection Er as <- Hlong.
  exists content, lines. destruct long; [done|]. done.
Qed.

(** Whatever the events, the table is the one of before, empty, or that of a whole
    file: a file that cannot be read or parsed never replaces it. *)
Theorem reloader_consistent evs f w w' f' alive :
  reloader fw evs f w = (w', Done (f', alive)) ->
  fi_file f' = fi_file f /\ (fi_m f' = fi_m f \/ fi_m f' = ∅ \/ whole_file (fi_file f) (fi_m f')).
Proof.
  revert f w. induction evs as [|ev evs IH]; intros f w E; [cbv in E; simplify_eq; auto|].
  assert (forall f w, (match reload fw f w with (w, Done f) => reloader fw evs f w | (w, Panicked _) => (w, Done (f, false)) end)
            = (w', Done (f', alive)) -> fi_file f' = fi_file f /\ (fi_m f' = fi_m f \/ fi_m f' = ∅ \/ whole_file (fi_file f) (fi_m f'))) as Hstep.
  { intros g v Eg. destruct (reload fw g v) as [v' [g'|]] eqn:Hr; [|simplify_eq; auto].
    destruct (reload_cases _ _ _ _ Hr) as [Hp Hc]. destruct (IH _ _ Eg) as [Hp' Hc']. rewrite Hp, Hp' in *. split; [done|].
    destruct Hc' as [Hc'|[Hc'|Hc']]; [|auto..]. rewrite Hc'. done. }
  destruct ev; [by eapply Hstep|by eapply Hstep|cbv in E; simplify_eq; auto].
Qed.

(** An error of Stat ends the reloader for good. *)
Lemma stat_error_ends err evs f w w1 :
  fw_Stat _ fw (fi_file f) w = (w1, Done (inl (OtherError err))) ->
  reloader fw (Tick :: evs) f w = (w1, Done (f, false)).
Proof.
  intros Hs. cbn [reloader]. assert (reload fw f w = (w1, Panicked "invalid memory address or nil pointer dereference")) as ->; [|done].
  unfold reload. by rewrite (prog_bind_eq _ _ _ _ _ Hs).
Qed.
(** A file older than the one read last is never read: not even after the file was
    away and the table emptied. *)
Lemma older_file_ignored f modTime w w1 :
  fw_Stat _ fw (fi_file f) w = (w1, Done (inr modTime)) -> modTime < fi_mStamp f -> reload fw f w = (w1, Done f).
Proof.
  intros Hs Hlt. unfold reload. rewrite (prog_bind_eq _ _ _ _ _ Hs). by replace (modTime <? fi_mStamp f) with true by lia.
Qed.
End Reload.

(** ** A table *)

#[local] Existing Instance ascii_tables.

Definition sample_entries : list (string * list string) :=
  [("alice", ["a@example.org"; "b@example.org"]); ("bob", [""]); ("alice", ["c@example.org"])].
Definition sample_fs : FileWorld unit :=
  mkFileWorld _ (fun path => mret (inr (print_table sample_entries, None))) (fun path => mret (inr 0)) (mret 0).
Lemma neat_edges s : forallb (fun b => (33 <=? b) && (b <=? 126)) (to_bytes s) = true -> neat s.
Proof.
  rewrite forallb_forall. intros Hs. assert (Forall visible (to_bytes s)) as Hv.
  { apply Forall_forall. intros b Hb%list_elem_of_In. specialize (Hs b Hb). unfold visible. lia. }
  split; [|split]; [|by apply Forall_take|by apply Forall_take, Forall_rev]. eapply Forall_impl; [exact Hv|]. unfold visible. simpl. lia.
Qed.
Lemma sample_good : Forall good_entry sample_entries.
Proof.
  assert (forall v, forallb (fun b => (33 <=? b) && (b <=? 126)) (to_bytes v) = true -> has_byte comma v = false -> has_byte LF v = false -> good_value v) as Hv.
  { intros v. split; [by apply neat_edges|done]. }
  repeat (apply Forall_cons; split); [..|constructor]; (split; [split; [by apply neat_edges|by split_and!]|split; [done|split; [|by vm_compute]]]);
    repeat (apply Forall_cons; split); try constructor; by apply Hv.
Qed.
Lemma file_read_back_witness :
  exists m, readFile sample_fs "users" ∅ tt = (tt, Done (m, None)) /\
    forall stamp key, File_LookupMulti (mkFile "users" m stamp) key = values_of sample_entries key /\
                      File_Lookup (mkFile "users" m stamp) key = head (values_of sample_entries key).
Proof. apply (file_read_back sample_fs "users" sample_entries tt tt); [exact sample_good|reflexivity]. Defined.

(** A first line that is refused keeps the lines before it: Init has filled the map. *)
Example partial_map :
  (read_lines "users" 0 ["alice: x"; ": y"] ∅).2 = Some (parse_error "users" 2 "empty address before colon") /\
  (read_lines "users" 0 ["alice: x"; ": y"] ∅).1 !! "alice" = Some ["x"].
Proof. split; vm_compute; reflexivity. Qed.
