(* ===== verification/SqlTable.v ===== *)
(** * SqlTable: table.sql_query and table.sql_table (internal/table)

    Tables kept in a database: the statements of the configuration (sql_query.go) and the
    ones sql_table generates from the names of a table and its columns (sql_table.go).
    The database is the class [SqlLib], with the operations of database/sql; a nil
    statement is [None]. *)
From S2P Require Import Prelude GoStr ExtErrors Config ConfigMap Tables.
From stdpp Require Import gmap.
From Stdlib Require Import Ascii.

Local Open Scope Z_scope.

(** A query's arguments: positional, or sql.Named *)
Inductive sql_arg := Positional (v : string) | Named (name v : string).
Global Instance sql_arg_eq_dec : EqDecision sql_arg.
Proof. solve_decision. Defined.
(** What Scan of a single row gives *)
Inductive row := Row (s : string) | NoRows | RowErr (e : gerror).
Class SqlLib (W : Type) := {
  DB : Type;
  Stmt : Type;
  sql_Open : string -> string -> Prog W (Result gerror DB);
  db_Exec : DB -> string -> Prog W error;
  db_Prepare : DB -> string -> Prog W (Result gerror Stmt);
  db_Close : DB -> Prog W error;
  st_QueryRow : Stmt -> list sql_arg -> Prog W row;
  (* the rows, each with the outcome of its Scan, and Err of the rows *)
  st_Query : Stmt -> list sql_arg -> Prog W (Result gerror (list (Result gerror string) * error));
  st_Exec : Stmt -> list sql_arg -> Prog W error;
  st_Close : Stmt -> Prog W error
}.

Section Sql.
Context `{UnicodeTables} {W : Type} `{!SqlLib W} {V : Type} (V_zero : V -> bool).
Notation value := (value (V := V)).

Record SQL := mkSQL {
  sq_modName : string;
  sq_namedArgs : bool;
  sq_db : DB;
  sq_lookup : Stmt;
  sq_add : option Stmt;
  sq_list : option Stmt;
  sq_set : option Stmt;
  sq_del : option Stmt
}.

(** ** Init *)

Record sql_settings := mkSqlSettings {
  se_namedArgs : bool;
  se_driver : string;
  se_initQueries : list string;
  se_dsnParts : list string;
  se_lookupQuery : string;
  se_addQuery : string;
  se_listQuery : string;
  se_removeQuery : string;
  se_setQuery : string
}.
Definition sql_directives (cfg : Map (V := V)) : Outcome (Map (V := V)) :=
  cfg ← StringList "init" false false None (Some "initQueries") cfg;
  cfg ← Map_String "driver" false true "" (Some "driver") cfg;
  cfg ← StringList "dsn" false true None (Some "dsnParts") cfg;
  cfg ← Map_Bool "named_args" false false (Some "namedArgs") cfg;
  cfg ← Map_String "lookup" false true "" (Some "lookupQuery") cfg;
  cfg ← Map_String "add" false false "" (Some "addQuery") cfg;
  cfg ← Map_String "list" false false "" (Some "listQuery") cfg;
  cfg ← Map_String "del" false false "" (Some "removeQuery") cfg;
  Map_String "set" false false "" (Some "setQuery") cfg.
Definition var_string (vars : gmap string value) (x : string) : string := match vars !! x with Some (VString s) => s | _ => "" end.
Definition var_strings (vars : gmap string value) (x : string) : list string := match vars !! x with Some (VStrings (Some l)) => l | _ => [] end.
Definition var_bool (vars : gmap string value) (x : string) : bool := match vars !! x with Some (VBool b) => b | _ => false end.
Definition sql_settings_of (vars : gmap string value) : sql_settings :=
  mkSqlSettings (var_bool vars "namedArgs") (var_string vars "driver") (var_strings vars "initQueries") (var_strings vars "dsnParts")
    (var_string vars "lookupQuery") (var_string vars "addQuery") (var_string vars "listQuery") (var_string vars "removeQuery") (var_string vars "setQuery").
(** The directives of a block, in an order in which Go goes over the map *)
Definition read_settings (order : list (matcher (V := V))) (cfg : Map (V := V)) : Outcome (Result gerror sql_settings) :=
  m ← sql_directives cfg;
  mret (match Process V_zero order m ∅ with (_, _, Err err) => Err err | (vars, _, Ok _) => Ok (sql_settings_of vars) end).

Section Open.
Context (modName : string) (blk : Node).
Definition sql_err {A} (what : string) (err : gerror) : Result gerror A := Err (NodeErr blk (what +:+ ": " +:+ Error err)).
Fixpoint run_init (db : DB) (initQueries : list string) : Prog W error :=
  match initQueries with
  | [] => mret None
  | init :: initQueries => err ← db_Exec db init; match err with Some err => mret (Some err) | None => run_init db initQueries end
  end.
(** A statement that is prepared when its query is given *)
Definition prepare_opt (db : DB) (query : string) : Prog W (Result gerror (option Stmt)) :=
  if decide (query = "") then mret (Ok None)
  else r ← db_Prepare db query; mret (match r with Ok s => Ok (Some s) | Err err => Err err end).
Definition and_then {A B} (what : string) (m : Prog W (Result gerror A)) (k : A -> Prog W (Result gerror B)) : Prog W (Result gerror B) :=
  r ← m; match r with Err err => mret (sql_err what err) | Ok a => k a end.
Definition sql_open (s : sql_settings) : Prog W (Result gerror SQL) :=
  if decide (se_driver s = "postgres" /\ se_namedArgs s = true) then mret (Err (NodeErr blk "PostgreSQL driver does not support named_args"))
  else
    and_then "failed to open db" (sql_Open (se_driver s) (JoinByte (se_dsnParts s) " "%char)) (fun db =>
    err ← run_init db (se_initQueries s);
    match err with
    | Some err => mret (sql_err "init query failed" err)
    | None =>
      and_then "failed to prepare lookup query" (db_Prepare db (se_lookupQuery s)) (fun lookup =>
      and_then "failed to prepare add query" (prepare_opt db (se_addQuery s)) (fun add =>
      and_then "failed to prepare list query" (prepare_opt db (se_listQuery s)) (fun list_ =>
      and_then "failed to prepare set query" (prepare_opt db (se_setQuery s)) (fun set_ =>
      and_then "failed to prepare del query" (prepare_opt db (se_removeQuery s)) (fun del =>
      mret (Ok (mkSQL modName (se_namedArgs s) db lookup add list_ set_ del)))))))
    end).
Definition SQL_Init (order : list (matcher (V := V))) (cfg : Map (V := V)) : Prog W (Result gerror SQL) :=
  match read_settings order cfg with
  | Panicked why => panic why
  | Done (Err err) => mret (Err err)
  | Done (Ok s) => sql_open s
  end.
End Open.

(** ** The operations *)

Context (s : SQL).
Definition named_or_not (args : list (string * string)) : list sql_arg :=
  map (fun a => if sq_namedArgs s then Named a.1 a.2 else Positional a.2) args.
Definition SQL_Close : Prog W error := st_Close (sq_lookup s) ;; db_Close (sq_db s).
Definition SQL_Lookup (val : string) : Prog W (Result gerror (option string)) :=
  r ← st_QueryRow (sq_lookup s) (named_or_not [("key", val)]);
  mret (match r with
        | Row repl => Ok (Some repl)
        | NoRows => Ok None
        | RowErr err => Err (wrapf (sq_modName s +:+ ": lookup " +:+ val) err)
        end).
Fixpoint scan_all (rows : list (Result gerror string)) : Result gerror (list string) :=
  match rows with
  | [] => Ok []
  | Err err :: _ => Err err
  | Ok res :: rows => l ← scan_all rows; Ok (res :: l)
  end.
Definition SQL_LookupMulti (val : string) : Prog W (Result gerror (list string)) :=
  r ← st_Query (sq_lookup s) (named_or_not [("key", val)]);
  let wrap err : Result gerror (list string) := Err (wrapf (sq_modName s +:+ "; lookup " +:+ val) err) in
  mret (match r with
        | Err err => wrap err
        | Ok (rows, err) =>
          match scan_all rows, err with
          | Err err, _ => wrap err
          | Ok _, Some err => wrap err
          | Ok repl, None => Ok repl
          end
        end).
Definition not_mutable {A} (query : string) : Result gerror A := Err (EErrorf (sq_modName s +:+ ": table is not mutable (no '" +:+ query +:+ "' query)") None).
(** Err of the rows is not looked at. *)
Definition SQL_Keys : Prog W (Result gerror (list string)) :=
  match sq_list s with
  | None => mret (not_mutable "list")
  | Some stmt =>
    r ← st_Query stmt [];
    let wrap err : Result gerror (list string) := Err (wrapf (sq_modName s +:+ ": list") err) in
    mret (match r with
          | Err err => wrap err
          | Ok (rows, _) => match scan_all rows with Err err => wrap err | Ok keys => Ok keys end
          end)
  end.
Definition error_of {A} (r : Result gerror A) : error := match r with Err e => Some e | Ok _ => None end.
Definition SQL_RemoveKey (k : string) : Prog W error :=
  match sq_del s with
  | None => mret (error_of (A := unit) (not_mutable "del"))
  | Some stmt =>
    err ← st_Exec stmt (named_or_not [("key", k)]);
    mret (match err with Some err => Some (wrapf (sq_modName s +:+ ": del " +:+ k) err) | None => None end)
  end.
(** The add statement; when it fails, for whatever reason, the set statement *)
Definition SQL_SetKey (k v : string) : Prog W error :=
  match sq_set s, sq_add s with
  | None, _ => mret (error_of (A := unit) (not_mutable "set"))
  | Some _, None => mret (error_of (A := unit) (not_mutable "add"))
  | Some set_, Some add =>
    let args := named_or_not [("key", k); ("value", v)] in
    err ← st_Exec add args;
    match err with
    | None => mret None
    | Some _ => err ← st_Exec set_ args; mret (match err with Some err => Some (wrapf (sq_modName s +:+ ": add " +:+ k) err) | None => None end)
    end
  end.
End Sql.

(** ** table.sql_table *)

Section Table.
Context `{UnicodeTables} {W : Type} `{!SqlLib W} {V : Type} (V_zero : V -> bool).

Record table_settings := mkTableSettings {
  ts_driver : string;
  ts_dsnParts : list string;
  ts_tableName : string;
  ts_keyColumn : string;
  ts_valueColumn : string
}.
Definition table_directives (cfg : Map (V := V)) : Outcome (Map (V := V)) :=
  cfg ← Map_String "driver" false true "" (Some "driver") cfg;
  cfg ← StringList "dsn" false true None (Some "dsnParts") cfg;
  cfg ← Map_String "table_name" false true "" (Some "tableName") cfg;
  cfg ← Map_String "key_column" false false "key" (Some "keyColumn") cfg;
  Map_String "value_column" false false "value" (Some "valueColumn") cfg.
Definition table_settings_of (vars : gmap string (value (V := V))) : table_settings :=
  mkTableSettings (var_string vars "driver") (var_strings vars "dsnParts") (var_string vars "tableName") (var_string vars "keyColumn") (var_string vars "valueColumn").

Section Queries.
Context (t : table_settings).
Notation tableName := (ts_tableName t).
Notation keyColumn := (ts_keyColumn t).
Notation valueColumn := (ts_valueColumn t).
(** Named parameters for SQLite, numbered ones otherwise *)
Definition is_sqlite : bool := bool_decide (ts_driver t = "sqlite3").
Definition key_param : string := if is_sqlite then ":key" else "$1".
Definition value_param : string := if is_sqlite then ":value" else "$2".
Definition useNamedArgs : string := if is_sqlite then "yes" else "no".
Definition lookupQuery : string := "SELECT " +:+ valueColumn +:+ " FROM " +:+ tableName +:+ " WHERE " +:+ keyColumn +:+ " = " +:+ key_param.
Definition addQuery : string :=
  "INSERT INTO " +:+ tableName +:+ "(" +:+ keyColumn +:+ ", " +:+ valueColumn +:+ ") VALUES(" +:+ key_param +:+ ", " +:+ value_param +:+ ")".
Definition listQuery : string := "SELECT " +:+ keyColumn +:+ " from " +:+ tableName.
Definition setQuery : string :=
  "UPDATE " +:+ tableName +:+ " SET " +:+ valueColumn +:+ " = " +:+ value_param +:+ " WHERE " +:+ keyColumn +:+ " = " +:+ key_param.
Definition delQuery : string := "DELETE FROM " +:+ tableName +:+ " WHERE " +:+ keyColumn +:+ " = " +:+ key_param.
Definition line_break (tabs : nat) : string := String (of_byte 10) (Nat.iter tabs (String (of_byte 9)) "").
Definition createQuery : string :=
  "CREATE TABLE IF NOT EXISTS " +:+ tableName +:+ " (" +:+ line_break 5 +:+ keyColumn +:+ " TEXT PRIMARY KEY NOT NULL," +:+
  line_break 5 +:+ valueColumn +:+ " TEXT NOT NULL" +:+ line_break 4 +:+ ")".
(** The configuration of the sql_query table that does the work *)
Definition generated_block : Node := Config.block "" [] [
  directive "driver" [ts_driver t]; directive "dsn" (ts_dsnParts t); directive "named_args" [useNamedArgs]; directive "lookup" [lookupQuery];
  directive "add" [addQuery]; directive "list" [listQuery]; directive "set" [setQuery]; directive "del" [delQuery]; directive "init" [createQuery]].
Definition generated_settings : sql_settings :=
  mkSqlSettings is_sqlite (ts_driver t) [createQuery] (ts_dsnParts t) lookupQuery addQuery listQuery delQuery setQuery.
End Queries.

(** [order] and [order']: the orders of the loops over the two maps *)
Definition SQLTable_Init (modName : string) (order order' : list (matcher (V := V))) (cfg : Map (V := V)) : Prog W (Result gerror SQL) :=
  match (m ← table_directives cfg;
         mret (match Process V_zero order m ∅ with (_, _, Err err) => Err err | (vars, _, Ok _) => Ok (table_settings_of vars) end)) with
  | Panicked why => panic why
  | Done (Err err) => mret (Err err)
  | Done (Ok t) => SQL_Init V_zero modName (generated_block t) order' (NewMap (cm_Globals cfg) (generated_block t))
  end.
End Table.

(** The generated block is what Init of sql_query accepts. *)
Section Accepted.
Context `{UnicodeTables} {W : Type} `{!SqlLib W} {V : Type} (V_zero : V -> bool).
Lemma no_entry_left (gl : gmap string (value (V := V))) blk order st :
  Forall (fun mt => mt_name mt ∈ ps_matched st) order -> process_entries V_zero gl blk order st = (st, None).
Proof. induction 1 as [|mt order Hm _ IH]; [done|]. cbn. unfold process_entry. by rewrite decide_True. Qed.

Section Block.
Context (gl : gmap string (value (V := V))) (d : string) (d0 : string) (dsn : list string) (named : bool) (lookup add list_ set_ del init : string).
Definition nine_directives : Node := Config.block "" [] [
  directive "driver" [d]; directive "dsn" (d0 :: dsn); directive "named_args" [if named then "yes" else "no"]; directive "lookup" [lookup];
  directive "add" [add]; directive "list" [list_]; directive "set" [set_]; directive "del" [del]; directive "init" [init]].
Definition nine_map : Map (V := V) := match sql_directives (NewMap gl nine_directives) with Done m => m | Panicked _ => NewMap gl nine_directives end.
Definition nine_state : pstate := (process_nodes nine_map (children nine_directives) (mkP ∅ ∅ ∅ [])).1.
End Block.
Lemma nine_entries gl d d0 dsn named lookup add list_ set_ del init : sql_directives (NewMap gl (nine_directives d d0 dsn named lookup add list_ set_ del init)) = Done (nine_map gl d d0 dsn named lookup add list_ set_ del init).
Proof.
  assert (Hd : match sql_directives (NewMap gl (nine_directives d d0 dsn named lookup add list_ set_ del init)) with Done _ => true | Panicked _ => false end = true) by (vm_compute; reflexivity).
  unfold nine_map. by destruct (sql_directives _).
Qed.
Lemma nine_processed gl d d0 dsn named lookup add list_ set_ del init : process_nodes (nine_map gl d d0 dsn named lookup add list_ set_ del init) (children (nine_directives d d0 dsn named lookup add list_ set_ del init)) (mkP ∅ ∅ ∅ []) = ((nine_state gl d d0 dsn named lookup add list_ set_ del init), None).
Proof.
  assert (Hn : match (process_nodes (nine_map gl d d0 dsn named lookup add list_ set_ del init) (children (nine_directives d d0 dsn named lookup add list_ set_ del init)) (mkP ∅ ∅ ∅ [])).2 with None => true | Some _ => false end = true)
    by (destruct named; vm_compute; reflexivity).
  unfold nine_state. by destruct (process_nodes _ _ _) as [st [e|]].
Qed.
Lemma nine_matched gl d d0 dsn named lookup add list_ set_ del init : forallb (fun mt => bool_decide (mt_name mt ∈ ps_matched (nine_state gl d d0 dsn named lookup add list_ set_ del init))) (map snd (map_to_list (cm_entries (nine_map gl d d0 dsn named lookup add list_ set_ del init)))) = true.
Proof. destruct named; vm_compute; reflexivity. Qed.
Lemma nine_settings gl d d0 dsn named lookup add list_ set_ del init : sql_settings_of (ps_vars (nine_state gl d d0 dsn named lookup add list_ set_ del init)) = mkSqlSettings named d [init] (d0 :: dsn) lookup add list_ del set_.
Proof. unfold nine_state. destruct named; vm_compute; reflexivity. Qed.
Lemma nine_accepted gl d d0 dsn named lookup add list_ set_ del init order : range_order (nine_map gl d d0 dsn named lookup add list_ set_ del init) order ->
  read_settings V_zero order (NewMap gl (nine_directives d d0 dsn named lookup add list_ set_ del init)) = Done (Ok (mkSqlSettings named d [init] (d0 :: dsn) lookup add list_ del set_)).
Proof.
  intros Ho. unfold read_settings. rewrite nine_entries. cbn [mbind outcome_bind]. unfold Process, ProcessWith.
  change (children (cm_Block (nine_map gl d d0 dsn named lookup add list_ set_ del init))) with (children (nine_directives d d0 dsn named lookup add list_ set_ del init)). rewrite nine_processed.
  rewrite no_entry_left; [cbn; by rewrite nine_settings|]. pose proof (nine_matched gl d d0 dsn named lookup add list_ set_ del init) as Hm. rewrite forallb_forall in Hm.
  apply Forall_forall. intros mt Hin. rewrite Ho in Hin. apply list_elem_of_In, Hm in Hin. by apply bool_decide_eq_true in Hin.
Qed.

Lemma generated_accepted (gl : gmap string (value (V := V))) t m order : ts_dsnParts t <> [] ->
  sql_directives (NewMap gl (generated_block t)) = Done m -> range_order m order ->
  read_settings V_zero order (NewMap gl (generated_block t)) = Done (Ok (generated_settings t)).
Proof.
  intros Hd Hm Ho. destruct (ts_dsnParts t) as [|d0 dsn] eqn:Ed; [done|].
  assert (E : generated_block t = nine_directives (ts_driver t) d0 dsn (is_sqlite t) (lookupQuery t) (addQuery t) (listQuery t) (setQuery t) (delQuery t) (createQuery t)).
  { unfold generated_block, nine_directives. by rewrite Ed. }
  rewrite E in *. rewrite nine_accepted; [unfold generated_settings; by rewrite Ed|]. rewrite nine_entries in Hm.
  pose proof (f_equal (fun o => match o with Done x => x | Panicked _ => m end) Hm) as Hm'. cbv beta iota in Hm'. rewrite Hm'. exact Ho.
Qed.
End Accepted.

(** ** A generated table is a map *)

Section Refinement.
Context `{UnicodeTables} {W : Type} `{!SqlLib W} {V : Type} (V_zero : V -> bool) (t : table_settings) (rows : W -> gmap string string).

(** How a driver writes the parameters of a statement, as its documentation says: SQLite
    takes names, given by sql.Named, and PostgreSQL (lib/pq) takes numbers, given by
    position.  Others, as MySQL with its question marks, take neither. *)
Inductive param_style := ByName | ByNumber.
Definition driver_style (driver : string) : option param_style :=
  if decide (driver = "sqlite3") then Some ByName else if decide (driver = "postgres") then Some ByNumber else None.
Definition params (style : param_style) : list string :=
  match style with ByName => [":key"; ":value"] | ByNumber => ["$1"; "$2"] end.
(** The values arguments give to them *)
Fixpoint find_named (name : string) (args : list sql_arg) : option string :=
  match args with
  | [] => None
  | Named n v :: args => if decide (n = name) then Some v else find_named name args
  | Positional _ :: args => find_named name args
  end.
Definition positional (i : nat) (args : list sql_arg) : option string := match args !! i with Some (Positional v) => Some v | _ => None end.
Definition bound (args : list sql_arg) (p : string) : option string :=
  if HasPrefix p ":" then find_named (str_drop 1 p) args else if decide (p = "$1") then positional 0 args else if decide (p = "$2") then positional 1 args else None.

(** What SQL says of statements, each alone, with the parameters of the driver: [rows] are
    the rows of the table, by their primary key. *)
Definition selects (p : string) (s : Stmt) : Prop := forall args k w, bound args p = Some k ->
  st_QueryRow s args w = (w, Done (match rows w !! k with Some v => Row v | None => NoRows end)) /\
  st_Query s args w = (w, Done (Ok (match rows w !! k with Some v => [Ok v] | None => [] end, None))).
Definition inserts (p q : string) (s : Stmt) : Prop := forall args k v w, bound args p = Some k -> bound args q = Some v ->
  match rows w !! k with
  | Some _ => exists duplicate, st_Exec s args w = (w, Done (Some duplicate))
  | None => exists w', st_Exec s args w = (w', Done None) /\ rows w' = <[k := v]> (rows w)
  end.
Definition updates (p q : string) (s : Stmt) : Prop := forall args k v w, bound args p = Some k -> bound args q = Some v ->
  exists w', st_Exec s args w = (w', Done None) /\ rows w' = alter (fun _ => v) k (rows w).
Definition deletes (p : string) (s : Stmt) : Prop := forall args k w, bound args p = Some k ->
  exists w', st_Exec s args w = (w', Done None) /\ rows w' = delete k (rows w).
Definition lists (s : Stmt) : Prop := forall w, exists keys,
  st_Query s [] w = (w, Done (Ok (map Ok keys, None))) /\ keys ≡ₚ map fst (map_to_list (rows w)).
Definition prepared (q : string) (means : Stmt -> Prop) : Prop := forall db w, exists s, db_Prepare db q w = (w, Done (Ok s)) /\ means s.
Notation tbl := (ts_tableName t).
Notation kc := (ts_keyColumn t).
Notation vc := (ts_valueColumn t).
(** A database that works, as its driver documents its statements *)
Record Engine (style : param_style) : Prop := {
  eng_open : forall dsn w, exists db, sql_Open (ts_driver t) dsn w = (w, Done (Ok db));
  eng_create : forall db w, exists w', db_Exec db (createQuery t) w = (w', Done None) /\ rows w' = rows w;
  eng_select : forall p, p ∈ params style -> prepared ("SELECT " +:+ vc +:+ " FROM " +:+ tbl +:+ " WHERE " +:+ kc +:+ " = " +:+ p) (selects p);
  eng_insert : forall p q, p ∈ params style -> q ∈ params style ->
    prepared ("INSERT INTO " +:+ tbl +:+ "(" +:+ kc +:+ ", " +:+ vc +:+ ") VALUES(" +:+ p +:+ ", " +:+ q +:+ ")") (inserts p q);
  eng_keys : prepared ("SELECT " +:+ kc +:+ " from " +:+ tbl) lists;
  eng_update : forall p q, p ∈ params style -> q ∈ params style ->
    prepared ("UPDATE " +:+ tbl +:+ " SET " +:+ vc +:+ " = " +:+ q +:+ " WHERE " +:+ kc +:+ " = " +:+ p) (updates p q);
  eng_delete : forall p, p ∈ params style -> prepared ("DELETE FROM " +:+ tbl +:+ " WHERE " +:+ kc +:+ " = " +:+ p) (deletes p)
}.

(** A table that behaves as a map *)
Record is_map (s : SQL) : Prop := {
  im_Lookup : forall k w, SQL_Lookup s k w = (w, Done (Ok (rows w !! k)));
  im_LookupMulti : forall k w, SQL_LookupMulti s k w = (w, Done (Ok (option_list (rows w !! k))));
  im_SetKey : forall k v w, exists w', SQL_SetKey s k v w = (w', Done None) /\ rows w' = <[k := v]> (rows w);
  im_RemoveKey : forall k w, exists w', SQL_RemoveKey s k w = (w', Done None) /\ rows w' = delete k (rows w);
  im_Keys : forall w, exists keys, SQL_Keys s w = (w, Done (Ok keys)) /\ keys ≡ₚ map fst (map_to_list (rows w))
}.

Lemma scan_all_Ok l : scan_all (map Ok l) = Ok l.
Proof. induction l as [|x l IH]; [done|]. cbn. by rewrite IH. Qed.
Lemma key_param_known style : driver_style (ts_driver t) = Some style -> key_param t ∈ params style /\ value_param t ∈ params style.
Proof.
  unfold driver_style, key_param, value_param, is_sqlite. intros Hs.
  destruct (decide (ts_driver t = "sqlite3")) as [E|E]; [rewrite bool_decide_true by done|rewrite bool_decide_false by done; destruct (decide (ts_driver t = "postgres"))];
    simplify_eq; split; set_solver.
Qed.
Section Table.
Context (modName : string) (db : DB) (lookup add list_ set_ del : Stmt).
Notation s := (mkSQL modName (is_sqlite t) db lookup (Some add) (Some list_) (Some set_) (Some del)).
Lemma key_bound k : bound (named_or_not s [("key", k)]) (key_param t) = Some k.
Proof. unfold named_or_not, key_param. cbn. by destruct (is_sqlite t). Qed.
Lemma pair_bound k v : bound (named_or_not s [("key", k); ("value", v)]) (key_param t) = Some k /\ bound (named_or_not s [("key", k); ("value", v)]) (value_param t) = Some v.
Proof. unfold named_or_not, key_param, value_param. cbn. by destruct (is_sqlite t). Qed.
Lemma statements_map : selects (key_param t) lookup -> inserts (key_param t) (value_param t) add -> lists list_ ->
  updates (key_param t) (value_param t) set_ -> deletes (key_param t) del -> is_map s.
Proof.
  intros Hl Ha Hk Hs Hd. split.
  - intros k w. unfold SQL_Lookup. destruct (Hl _ k w (key_bound k)) as [E _]. rewrite (prog_bind_eq _ _ _ _ _ E). by destruct (rows w !! k).
  - intros k w. unfold SQL_LookupMulti. destruct (Hl _ k w (key_bound k)) as [_ E]. rewrite (prog_bind_eq _ _ _ _ _ E). by destruct (rows w !! k).
  - intros k v w. unfold SQL_SetKey. cbn [sq_set sq_add]. destruct (pair_bound k v) as [Bk Bv]. specialize (Ha _ k v w Bk Bv). destruct (rows w !! k) as [v0|] eqn:Ek.
    + destruct Ha as [duplicate E]. rewrite (prog_bind_eq _ _ _ _ _ E). destruct (Hs _ k v w Bk Bv) as (w' & E' & Hw).
      rewrite (prog_bind_eq _ _ _ _ _ E'). exists w'. split; [done|]. rewrite Hw. apply map_eq. intros j.
      destruct (decide (j = k)) as [->|Hj]; [by rewrite lookup_alter_eq, Ek, lookup_insert_eq|by rewrite lookup_alter_ne, lookup_insert_ne].
    + destruct Ha as (w' & E & Hw). rewrite (prog_bind_eq _ _ _ _ _ E). by exists w'.
  - intros k w. unfold SQL_RemoveKey. cbn [sq_del]. destruct (Hd _ k w (key_bound k)) as (w' & E & Hw). rewrite (prog_bind_eq _ _ _ _ _ E). by exists w'.
  - intros w. destruct (Hk w) as (keys & E & Hp). exists keys. unfold SQL_Keys. cbn. rewrite (prog_bind_eq _ _ _ _ _ E). by rewrite scan_all_Ok.
Qed.
End Table.

End Refinement.

(** ** Witness and examples *)

#[local] Existing Instance ascii_tables.
Definition sample_driver (style : param_style) : string := match style with ByName => "sqlite3" | ByNumber => "postgres" end.
Definition sample_table (style : param_style) : table_settings := mkTableSettings (sample_driver style) ["credentials.db"] "passwords" "key" "value".
(** A database of one table, that takes the parameters of one style; [broken] makes its inserts fail and [err] ends its rows. *)
Inductive toy_stmt := TSelect (p : string) | TInsert (p q : string) | TKeys | TUpdate (p q : string) | TDelete (p : string).
Definition toy_text (s : toy_stmt) : string :=
  match s with
  | TSelect p => "SELECT value FROM passwords WHERE key = " +:+ p
  | TInsert p q => "INSERT INTO passwords(key, value) VALUES(" +:+ p +:+ ", " +:+ q +:+ ")"
  | TKeys => "SELECT key from passwords"
  | TUpdate p q => "UPDATE passwords SET value = " +:+ q +:+ " WHERE key = " +:+ p
  | TDelete p => "DELETE FROM passwords WHERE key = " +:+ p
  end.
Definition toy_stmts (style : param_style) : list toy_stmt :=
  TKeys :: map TSelect (params style) ++ map TDelete (params style) ++
  (params style ≫= (fun p => params style ≫= (fun q => [TInsert p q; TUpdate p q]))).
Definition toy_prepare (style : param_style) (text : string) : Result gerror toy_stmt :=
  match filter (fun s => toy_text s = text) (toy_stmts style) with s :: _ => Ok s | [] => Err (ENew "syntax error") end.
Definition toy_exec (broken : bool) (s : toy_stmt) (args : list sql_arg) : Prog (gmap string string) error := fun w =>
  match s with
  | TInsert p q =>
    match bound args p, bound args q with
    | Some k, Some v =>
      if broken then (w, Done (Some (ENew "disk full")))
      else match w !! k with Some _ => (w, Done (Some (ENew "UNIQUE constraint failed"))) | None => (<[k := v]> w, Done None) end
    | _, _ => (w, Done (Some (ENew "missing argument")))
    end
  | TUpdate p q => match bound args p, bound args q with Some k, Some v => (alter (fun _ => v) k w, Done None) | _, _ => (w, Done (Some (ENew "missing argument"))) end
  | TDelete p => match bound args p with Some k => (delete k w, Done None) | None => (w, Done (Some (ENew "missing argument"))) end
  | _ => (w, Done (Some (ENew "not a statement to execute")))
  end.
Definition toy_rows (s : toy_stmt) (args : list sql_arg) (w : gmap string string) : list string :=
  match s with
  | TSelect p => match bound args p with Some k => option_list (w !! k) | None => [] end
  | TKeys => map fst (map_to_list w)
  | _ => []
  end.
Definition toy_lib (style : param_style) (broken : bool) (err : error) : SqlLib (gmap string string) := {|
  DB := unit; Stmt := toy_stmt; sql_Open := fun _ _ => mret (Ok tt); db_Exec := fun _ _ => mret None; db_Prepare := fun _ q => mret (toy_prepare style q);
  db_Close := fun _ => mret None;
  st_QueryRow := fun s args w => (w, Done (match toy_rows s args w with v :: _ => Row v | [] => NoRows end));
  st_Query := fun s args w => (w, Done (Ok (map Ok (toy_rows s args w), err)));
  st_Exec := toy_exec broken; st_Close := fun _ => mret None |}.
Lemma toy_prepares style : forallb (fun s => match toy_prepare style (toy_text s) with
    | Ok s' => match s, s' with
               | TKeys, TKeys => true
               | TSelect p, TSelect p' | TDelete p, TDelete p' => bool_decide (p = p')
               | TInsert p q, TInsert p' q' | TUpdate p q, TUpdate p' q' => bool_decide (p = p' /\ q = q')
               | _, _ => false
               end
    | Err _ => false end) (toy_stmts style) = true.
Proof. destruct style; vm_compute; done. Qed.
Lemma toy_prepare_text style s : s ∈ toy_stmts style -> toy_prepare style (toy_text s) = Ok s.
Proof.
  intros Hs. pose proof (toy_prepares style) as H. rewrite forallb_forall in H. specialize (H s (proj1 (list_elem_of_In _ _) Hs)).
  destruct (toy_prepare style (toy_text s)) as [s'|e]; [|done]. destruct s, s'; try done; apply bool_decide_eq_true in H; naive_solver.
Qed.
Lemma toy_prepared {style broken err} s (means : toy_stmt -> Prop) : s ∈ toy_stmts style -> means s -> @prepared _ (toy_lib style broken err) (toy_text s) means.
Proof. intros Hs Hm db w. exists s. split; [|done]. cbn. by rewrite toy_prepare_text. Qed.
Lemma pair_stmt style p q : p ∈ params style -> q ∈ params style -> TInsert p q ∈ toy_stmts style /\ TUpdate p q ∈ toy_stmts style.
Proof.
  intros Hp Hq. unfold toy_stmts. split; right; apply elem_of_app; right; apply elem_of_app; right;
    apply list_elem_of_bind; exists p; (split; [|done]); apply list_elem_of_bind; exists q; (split; [|done]); set_solver.
Qed.
Lemma one_stmt style p : p ∈ params style -> TSelect p ∈ toy_stmts style /\ TDelete p ∈ toy_stmts style.
Proof.
  intros Hp. unfold toy_stmts. split; right; apply elem_of_app; [left|right; apply elem_of_app; left]; by apply list_elem_of_fmap_2.
Qed.
Lemma toy_engine style : @Engine _ (toy_lib style false None) (sample_table style) (fun w => w) style.
Proof.
  split.
  - intros. by exists tt.
  - intros db w. by exists w.
  - intros p Hp. apply (toy_prepared (TSelect p)); [by apply one_stmt|]. intros args k w Hk.
    cbn. rewrite Hk. by destruct (w !! k).
  - intros p q Hp Hq. apply (toy_prepared (TInsert p q)); [by apply pair_stmt|]. intros args k v w Hk Hv.
    cbn. rewrite Hk, Hv. destruct (w !! k); by eexists.
  - apply (toy_prepared TKeys); [by left|]. intros w. by eexists.
  - intros p q Hp Hq. apply (toy_prepared (TUpdate p q)); [by apply pair_stmt|]. intros args k v w Hk Hv. cbn. rewrite Hk, Hv. by eexists.
  - intros p Hp. apply (toy_prepared (TDelete p)); [by apply one_stmt|]. intros args k w Hk. cbn. rewrite Hk. by eexists.
Qed.
Definition sample_m (style : param_style) : Map (V := unit) :=
  match style with
  | ByName => nine_map ∅ "sqlite3" "credentials.db" [] true (lookupQuery (sample_table ByName)) (addQuery (sample_table ByName))
      (listQuery (sample_table ByName)) (setQuery (sample_table ByName)) (delQuery (sample_table ByName)) (createQuery (sample_table ByName))
  | ByNumber => nine_map ∅ "postgres" "credentials.db" [] false (lookupQuery (sample_table ByNumber)) (addQuery (sample_table ByNumber))
      (listQuery (sample_table ByNumber)) (setQuery (sample_table ByNumber)) (delQuery (sample_table ByNumber)) (createQuery (sample_table ByNumber))
  end.
Lemma sample_directives style : sql_directives (NewMap ∅ (generated_block (sample_table style))) = Done (sample_m style).
Proof. destruct style; apply nine_entries. Qed.
Lemma sample_style style : driver_style (ts_driver (sample_table style)) = Some style.
Proof. by destruct style. Qed.
Definition started_as_map (style : param_style) : Prop := exists w1 s,
  @SQL_Init _ _ (toy_lib style false None) unit (fun _ => true) "table.sql_table" (generated_block (sample_table style))
    (map snd (map_to_list (cm_entries (sample_m style)))) (NewMap ∅ (generated_block (sample_table style))) ∅ = (w1, Done (Ok s)) /\
  w1 = ∅ /\ @is_map _ (toy_lib style false None) (fun w => w) s.

Definition sample_sql (broken : bool) (err : error) : @SQL _ (toy_lib ByName broken err) :=
  @mkSQL _ (toy_lib ByName broken err) "table.sql_table" true tt (TSelect ":key") (Some (TInsert ":key" ":value")) (Some TKeys) (Some (TUpdate ":key" ":value")) (Some (TDelete ":key")).
(** When the insert fails for another reason than an existing key, the update changes no
    row and SetKey reports that it has set the key. *)
Example failed_insert_is_success :
  @SQL_SetKey _ (toy_lib ByName true None) (sample_sql true None) "user" "hash" ∅ = (∅, Done None).
Proof. vm_compute. done. Qed.
(** Keys gives the rows read before an error as if they were all. *)
Example broken_rows_unnoticed :
  @SQL_Keys _ (toy_lib ByName false (Some (ENew "connection lost"))) (sample_sql false (Some (ENew "connection lost"))) {[ "user" := "hash" ]}
  = ({[ "user" := "hash" ]}, Done (Ok ["user"])).
Proof. vm_compute. done. Qed.
