(* ===== verification/DkimSign.v ===== *)
(** * DkimSign: internal/modify/dkim

    The modifier that signs: its keys, the fields it signs and the message it signs for.
    The signer of go-msgauth, key formats and files are parameters. *)
From S2P Require Import Prelude GoStr GoText ExtErrors Address Checks Module TableFile.
From stdpp Require Import gmap.
From Stdlib Require Import Ascii.

Local Open Scope Z_scope.

Section Dkim.
Context `{UnicodeTables} `{TextLib} `{Textproto} {W Signer : Type}.

(** ** The modifier *)

Definition oversignDefault : list string :=
  ["Subject"; "Sender"; "To"; "Cc"; "From"; "Date"; "MIME-Version"; "Content-Type"; "Content-Transfer-Encoding";
   "Reply-To"; "In-Reply-To"; "Message-Id"; "References"; "Autocrypt"; "Openpgp"].
Definition signDefault : list string :=
  ["List-Id"; "List-Help"; "List-Unsubscribe"; "List-Post"; "List-Owner"; "List-Archive";
   "Resent-To"; "Resent-Sender"; "Resent-Message-Id"; "Resent-Date"; "Resent-From"; "Resent-Cc"].
Record Modifier := mkModifier {
  dk_domains : list string;
  dk_selector : string;
  dk_signers : gmap string Signer;
  dk_oversignHeader : list string;
  dk_signHeader : list string;
  dk_headerCanon : string;
  dk_bodyCanon : string;
  dk_sigExpiry : Z;
  dk_signSubdomains : bool
}.
(** The domains and the selector of the arguments *)
Definition New (inlineArgs : list string) : Result gerror (list string * string) :=
  match inlineArgs with
  | [] => Ok ([], "")
  | [_] => Err (ENew "modify.dkim: at least two arguments required")
  | _ => Ok (removelast inlineArgs, List.last inlineArgs "")
  end.

(** ** keys.go *)

(** crypto/x509, crypto/rsa and encoding/pem *)
Inductive parsed_key := RsaKey (k : Signer) (valid : error) | Ed25519Key (k : Signer) | EcdsaPublicKey | OtherKey (type : string).
Inductive public_key := RsaPublic (pkix : Result gerror string) | Ed25519Public (bytes : string) | OtherPublic.
Record KeyLib := mkKeyLib {
  kl_pem_Decode : string -> option (string * string);
  kl_ParsePKCS8 : string -> Result gerror parsed_key;
  kl_ParsePKCS1 : string -> Result gerror parsed_key;
  kl_ParseEC : string -> Result gerror parsed_key;
  kl_Generate : string -> Prog W (Result gerror Signer);
  kl_MarshalPKCS8 : Signer -> Result gerror string;
  kl_Public : Signer -> public_key
}.
Record KeyFiles := mkKeyFiles {
  kf_Open : string -> Prog W (fs_error + (string * error));
  kf_MkdirAll_Dir : string -> Prog W error;
  kf_Create : string -> Prog W error;
  kf_WriteString : string -> string -> Prog W error;
  kf_OpenNew : string -> Prog W error;
  kf_pem_Encode : string -> string -> string -> Prog W error
}.
Context (lib : KeyLib) (files : KeyFiles).

Definition dns_path (keyPath : string) : string :=
  if HasSuffix keyPath ".key" then str_take (String.length keyPath - 4) keyPath +:+ ".dns" else keyPath +:+ ".dns".
Definition writeDNSRecord (keyPath dkimAlgoName : string) (pkey : Signer) : Prog W (Result gerror string) :=
  let record keyBlob :=
    err ← kf_Create files (dns_path keyPath);
    match err with
    | Some err => mret (Err err)
    | None =>
      err ← kf_WriteString files (dns_path keyPath) ("v=DKIM1; k=" +:+ dkimAlgoName +:+ "; p=" +:+ EncodeToString keyBlob);
      mret (match err with Some err => Err err | None => Ok (dns_path keyPath) end)
    end in
  match kl_Public lib pkey with
  | RsaPublic (Err err) => mret (Err err)
  | RsaPublic (Ok keyBlob) => record keyBlob
  | Ed25519Public keyBlob => record keyBlob
  | OtherPublic => panic "modify.dkim.writeDNSRecord: unknown key algorithm"
  end.
Definition generateAndWrite (keyPath newKeyAlgo : string) : Prog W (Result gerror Signer) :=
  let wrapErr err : Result gerror Signer := Err (wrapf ("modify.dkim: generate " +:+ keyPath) err) in
  let dkimName := if decide (newKeyAlgo = "rsa4096" \/ newKeyAlgo = "rsa2048") then "rsa" else newKeyAlgo in
  pkey ← (if decide (newKeyAlgo ∈ ["rsa4096"; "rsa2048"; "ed25519"]) then kl_Generate lib newKeyAlgo
          else mret (Err (EErrorf ("unknown key algorithm: " +:+ newKeyAlgo) None)));
  match pkey with
  | Err err => mret (wrapErr err)
  | Ok pkey =>
    match kl_MarshalPKCS8 lib pkey with
    | Err err => mret (wrapErr err)
    | Ok keyBlob =>
      err ← kf_MkdirAll_Dir files keyPath;
      match err with
      | Some err => mret (wrapErr err)
      | None =>
        r ← writeDNSRecord keyPath dkimName pkey;
        match r with
        | Err err => mret (wrapErr err)
        | Ok _ =>
          err ← kf_OpenNew files keyPath;
          match err with
          | Some err => mret (wrapErr err)
          | None =>
            err ← kf_pem_Encode files keyPath "PRIVATE KEY" keyBlob;
            mret (match err with Some err => wrapErr err | None => Ok pkey end)
          end
        end
      end
    end
  end.
(** The key of a PEM block *)
Definition parse_key (keyPath type bytes : string) : Result gerror Signer :=
  let msg text := "modify.dkim: " +:+ keyPath +:+ ": " +:+ text in
  let parsed := if decide (type = "PRIVATE KEY") then Some (kl_ParsePKCS8 lib bytes)
                else if decide (type = "RSA PRIVATE KEY") then Some (kl_ParsePKCS1 lib bytes)
                else if decide (type = "EC PRIVATE KEY") then Some (kl_ParseEC lib bytes)
                else None in
  match parsed with
  | None => Err (EErrorf (msg "not a private key or unsupported format") None)
  | Some (Err err) => Err (wrapf ("modify.dkim: " +:+ keyPath) err)
  | Some (Ok (RsaKey _ (Some err))) => Err err
  | Some (Ok (RsaKey key None)) => Ok key
  | Some (Ok (Ed25519Key key)) => Ok key
  | Some (Ok EcdsaPublicKey) => Err (EErrorf (msg "ECDSA keys are not supported") None)
  | Some (Ok (OtherKey type)) => Err (EErrorf (msg ("unknown key type: " +:+ type)) None)
  end.
(** The key, and whether it is new *)
Definition loadOrGenerateKey (keyPath newKeyAlgo : string) : Prog W (Result gerror (Signer * bool)) :=
  f ← kf_Open files keyPath;
  match f with
  | inl NotExist => pkey ← generateAndWrite keyPath newKeyAlgo; mret (pkey ← pkey; Ok (pkey, true))
  | inl (OtherError err) => mret (Err err)
  | inr (_, Some err) => mret (Err err)
  | inr (pemBlob, None) =>
    mret (match kl_pem_Decode lib pemBlob with
          | None => Err (EErrorf ("modify.dkim: " +:+ keyPath +:+ ": invalid PEM block") None)
          | Some (type, bytes) => pkey ← parse_key keyPath type bytes; Ok (pkey, false)
          end)
  end.

(** ** Init, after the directives *)

Definition keyPath_of (template domain selector : string) : string := replace_pairs [("{domain}", domain); ("{selector}", selector)] template O.
Definition set_signer (m : Modifier) (domain : string) (s : Signer) : Modifier :=
  mkModifier (dk_domains m) (dk_selector m) (<[domain := s]> (dk_signers m)) (dk_oversignHeader m) (dk_signHeader m)
    (dk_headerCanon m) (dk_bodyCanon m) (dk_sigExpiry m) (dk_signSubdomains m).
Fixpoint init_domains (keyPathTemplate newKeyAlgo : string) (domains : list string) (m : Modifier) : Prog W (Result gerror Modifier) :=
  match domains with
  | [] => mret (Ok m)
  | domain :: domains =>
    r ← loadOrGenerateKey (keyPath_of keyPathTemplate domain (dk_selector m)) newKeyAlgo;
    match r with
    | Err err => mret (Err err)
    | Ok (signer, _) =>
      match dns_ForLookup domain with
      | (_, Some err) => mret (Err (wrapf ("sign_skim: unable to normalize domain " +:+ domain) err))
      | (normDomain, None) => init_domains keyPathTemplate newKeyAlgo domains (set_signer m normDomain signer)
      end
    end
  end.
Definition hashFuncs : gmap string string := {[ "sha256" := "SHA-256" ]}.
Definition Init (hashName keyPathTemplate newKeyAlgo : string) (m : Modifier) : Prog W (Result gerror Modifier) :=
  if decide (dk_domains m = []) then mret (Err (ENew "sign_domain: at least one domain is needed"))
  else if decide (dk_selector m = "") then mret (Err (ENew "sign_domain: selector is not specified"))
  else if dk_signSubdomains m && (1 <? length (dk_domains m))%nat then
    mret (Err (ENew "sign_domain: only one domain is supported when sign_subdomains is enabled"))
  else
    match hashFuncs !! hashName with
    | None => panic "modify.dkim.Init: Hash function allowed by config matcher but not present in hashFuncs"
    | Some _ => init_domains keyPathTemplate newKeyAlgo (dk_domains m) m
    end.

(** ** Signing *)

(** The keys of a list that were not seen before, each as often as [times] says *)
Fixpoint add_keys (times : string -> nat) (keys : list string) (seen : gset string) (res : list string) : gset string * list string :=
  match keys with
  | [] => (seen, res)
  | key :: keys =>
    if decide (ToLower key ∈ seen) then add_keys times keys seen res
    else add_keys times keys ({[ ToLower key ]} ∪ seen) (res ++ replicate (times key) key)
  end.
Definition uses (h : header) (key : string) : nat := length (hdr_ByKey h key).
Definition fieldsToSign (m : Modifier) (h : header) : list string :=
  let '(seen, res) := add_keys (fun key => S (uses h key)) (dk_oversignHeader m) ∅ [] in
  (add_keys (uses h) (dk_signHeader m) seen res).2.

Record SignOptions := mkSignOptions {
  so_Domain : string;
  so_Selector : string;
  so_Identifier : string;
  so_Signer : Signer;
  so_HeaderCanonicalization : string;
  so_BodyCanonicalization : string;
  so_HeaderKeys : list string;
  so_Expiration : option Z
}.
(** dkim.Signer *)
Record Signing := mkSigning {
  sg_WriteHeader : header -> Prog W error;
  sg_Copy : string -> Prog W error;
  sg_Close : Prog W error;
  sg_Signature : Prog W string
}.
Context (NewSigner : SignOptions -> Prog W (Result gerror Signing)) (time_Now : Prog W Z).

Record state := mkState { sg_m : Modifier; sg_meta : MsgMetadata; sg_from : string }.
Definition ModStateForMsg (m : Modifier) (msgMeta : MsgMetadata) : state := mkState m msgMeta "".
Definition RewriteSender (s : state) (mailFrom : string) : state * Result gerror string := (mkState (sg_m s) (sg_meta s) mailFrom, Ok mailFrom).
Definition RewriteRcpt (s : state) (rcptTo : string) : Result gerror (list string) := Ok [rcptTo].

Definition modifier_error (err : gerror) : error := Some (WithFields (Some err) {[ "modifier" := FStr "modify.dkim" ]}).
(** The domain of the sender, of the first key when it has none, and of the only key for
    a subdomain *)
Definition sender_domain (s : state) : Outcome (Result gerror string) :=
  let parts := if decide (sg_from s = "") then Ok ("", "") else Split (sg_from s) in
  match parts with
  | Err err => Done (Err err)
  | Ok (_, domain) =>
    match dk_domains (sg_m s) with
    | [] => if decide (domain = "") then Panicked "index out of range [0] with length 0"
            else if dk_signSubdomains (sg_m s) then Panicked "index out of range [0] with length 0" else Done (Ok domain)
    | first :: _ =>
      let domain := if decide (domain = "") then first else domain in
      Done (Ok (if dk_signSubdomains (sg_m s) && HasSuffix domain ("." +:+ first) then first else domain))
    end
  end.
(** The names in the signature: in A-labels unless the message is SMTPUTF8; [None] when
    there is no such form. *)
Definition sign_names (s : state) (domain : string) : option (string * string) :=
  if mo_UTF8 (mm_SMTPOpts (sg_meta s)) then Some (domain, dk_selector (sg_m s))
  else match idna_ToASCII domain with
  | (_, Some _) => None
  | (domain, None) =>
    match idna_ToASCII (dk_selector (sg_m s)) with (_, Some _) => None | (selector, None) => Some (domain, selector) end
  end.
Definition sign_options (m : Modifier) (h : header) (domain selector : string) (keySigner : Signer) (expiration : option Z) : SignOptions :=
  mkSignOptions domain selector ("@" +:+ domain) keySigner (dk_headerCanon m) (dk_bodyCanon m) (fieldsToSign m h) expiration.
Definition sign (opts : SignOptions) (h : header) (open : Prog W (Result gerror string)) : Prog W (header * error) :=
  r ← NewSigner opts;
  match r with
  | Err err => mret (h, modifier_error err)
  | Ok signer =>
    let fail err := sg_Close signer ;; mret (h, modifier_error err) in
    err ← sg_WriteHeader signer h;
    match err with
    | Some err => fail err
    | None =>
      r ← open;
      match r with
      | Err err => fail err
      | Ok body =>
        err ← sg_Copy signer body;
        match err with
        | Some err => fail err
        | None =>
          err ← sg_Close signer;
          match err with
          | Some err => mret (h, modifier_error err)
          | None => sig ← sg_Signature signer; mret (hdr_AddRaw h sig, None)
          end
        end
      end
    end
  end.
Definition RewriteBody (s : state) (h : header) (open : Prog W (Result gerror string)) : Prog W (header * error) :=
  match sender_domain s with
  | Panicked why => panic why
  | Done (Err err) => mret (h, Some err)
  | Done (Ok domain) =>
    match dns_ForLookup domain with
    | (_, Some _) => mret (h, None)
    | (normDomain, None) =>
      match dk_signers (sg_m s) !! normDomain with
      | None => mret (h, None)
      | Some keySigner =>
        match sign_names s domain with
        | None => mret (h, None)
        | Some (domain, selector) =>
          expiration ← (if dk_sigExpiry (sg_m s) =? 0 then mret None else now ← time_Now; mret (Some (now + dk_sigExpiry (sg_m s))));
          sign (sign_options (sg_m s) h domain selector keySigner expiration) h open
        end
      end
    end
  end.
End Dkim.

(** ** What a signature covers *)

Section Facts.
Context `{UnicodeTables} `{TextLib} `{Textproto} {W Signer : Type}.

(** How often a name is in a list, and its first spelling; [c] is in lower case. *)
Definition times_named (c : string) (l : list string) : nat := length (base.filter (fun k => ToLower k = c) l).
Fixpoint spelling (c : string) (keys : list string) : option string :=
  match keys with [] => None | k :: keys => if decide (ToLower k = c) then Some k else spelling c keys end.

Lemma times_named_app c l k : times_named c (l ++ k) = (times_named c l + times_named c k)%nat.
Proof. unfold times_named. by rewrite filter_app, length_app. Qed.
Lemma times_named_replicate c n k : times_named c (replicate n k) = if decide (ToLower k = c) then n else O.
Proof.
  unfold times_named. induction n as [|n IH]; [by case_decide|]. cbn [replicate]. rewrite filter_cons. case_decide; [|done].
  cbn [length]. by rewrite IH.
Qed.
Lemma add_keys_spec times keys seen res :
  let '(seen', res') := add_keys times keys seen res in
  seen' = seen ∪ list_to_set (map ToLower keys) /\
  forall c, times_named c res' = (times_named c res + if decide (c ∈ seen) then 0 else match spelling c keys with Some k => times k | None => 0 end)%nat.
Proof.
  revert seen res. induction keys as [|k keys IH]; intros seen res; cbn [add_keys map list_to_set spelling].
  - split; [set_solver|]. intros c. case_decide; lia.
  - case_decide as Hk.
    + specialize (IH seen res). destruct (add_keys times keys seen res) as [seen' res']. destruct IH as [-> IH].
      split; [set_solver|]. intros c. rewrite IH. repeat case_decide; subst; done.
    + specialize (IH ({[ToLower k]} ∪ seen) (res ++ replicate (times k) k)).
      destruct (add_keys times keys ({[ToLower k]} ∪ seen) (res ++ replicate (times k) k)) as [seen' res']. destruct IH as [-> IH].
      split; [set_solver|]. intros c. rewrite IH, times_named_app, times_named_replicate. repeat case_decide; subst; try lia; set_solver.
Qed.
(** How often a signature names a field: one time more than the message has it for the
    fields to oversign, as often for the others *)
Definition covered (m : Modifier (Signer := Signer)) (h : header) (c : string) : nat :=
  match spelling c (dk_oversignHeader m) with
  | Some k => S (uses h k)
  | None => match spelling c (dk_signHeader m) with Some k => uses h k | None => O end
  end.
Lemma spelling_lower c keys : c ∈ map ToLower keys <-> spelling c keys <> None.
Proof.
  induction keys as [|k keys IH]; cbn [map spelling]; [set_solver|]. rewrite elem_of_cons. case_decide as Hd; [naive_solver|].
  rewrite <- IH. naive_solver.
Qed.
Lemma fieldsToSign_covers m h c : times_named c (fieldsToSign m h) = covered m h c.
Proof.
  unfold fieldsToSign, covered. pose proof (add_keys_spec (fun key => S (uses h key)) (dk_oversignHeader m) ∅ []) as Ha.
  destruct (add_keys _ _ _ _) as [seen res]. destruct Ha as [-> Ha].
  set (seen := ∅ ∪ list_to_set (map ToLower (dk_oversignHeader m))).
  pose proof (add_keys_spec (uses h) (dk_signHeader m) seen res) as Hb.
  destruct (add_keys (uses h) (dk_signHeader m) seen res) as [seen2 res2]. destruct Hb as [_ Hb]. cbn [snd].
  rewrite Hb, Ha. rewrite (decide_False (P := c ∈ ∅)) by set_solver. unfold times_named at 1. cbn [base.filter list_filter length].
  pose proof (spelling_lower c (dk_oversignHeader m)) as Hs.
  destruct (spelling c (dk_oversignHeader m)) as [k|] eqn:E.
  - rewrite decide_True; [lia|]. unfold seen. apply elem_of_union_r, elem_of_list_to_set. by apply Hs.
  - rewrite decide_False; [lia|]. unfold seen. rewrite elem_of_union, elem_of_list_to_set. intros [Hx|Hx]; [set_solver|]. by apply Hs in Hx.
Qed.

Context (NewSigner : SignOptions (Signer := Signer) -> Prog W (Result gerror (Signing (W := W)))) (time_Now : Prog W Z).

Lemma sign_result opts h open w w' h' err :
  sign NewSigner opts h open w = (w', Done (h', err)) ->
  h' = h \/ err = None /\ exists signer sig w1 w2 w3, NewSigner opts w = (w1, Done (Ok signer)) /\ sg_Signature signer w2 = (w3, Done sig) /\ h' = hdr_AddRaw h sig.
Proof.
  unfold sign. intros (w1 & r & E1 & E)%prog_bind_Done. destruct r as [signer|e]; [|cbv [mret prog_ret] in E; simplify_eq; by left].
  assert (forall (e : gerror) w, (sg_Close signer ;; mret (h, modifier_error e)) w = (w', Done (h', err)) -> h' = h) as Hfail.
  { intros e w0 (w2 & a & _ & E2)%prog_bind_Done. cbv [mret prog_ret] in E2. by simplify_eq. }
  apply prog_bind_Done in E as (w2 & r & E2 & E). destruct r as [e|]; [left; by eapply Hfail|].
  apply prog_bind_Done in E as (w3 & r & E3 & E). destruct r as [body|e]; [|left; by eapply Hfail].
  apply prog_bind_Done in E as (w4 & r & E4 & E). destruct r as [e|]; [left; by eapply Hfail|].
  apply prog_bind_Done in E as (w5 & r & E5 & E). destruct r as [e|]; [cbv [mret prog_ret] in E; simplify_eq; by left|].
  apply prog_bind_Done in E as (w6 & sig & E6 & E). cbv [mret prog_ret] in E. simplify_eq. right. split; [done|]. eauto 10.
Qed.

(** The domain a message is signed for: that of its sender, the first configured one when
    it has none, or the configured parent of it *)
Definition own_domain (m : Modifier (Signer := Signer)) (from dom : string) : Prop :=
  exists d, (from = "" /\ d = "" \/ exists mbox, Split from = Ok (mbox, d)) /\
    (d = dom \/ head (dk_domains m) = Some dom /\ (d = "" \/ dk_signSubdomains m = true /\ HasSuffix d ("." +:+ dom) = true)).
Lemma sender_domain_own s dom : sender_domain s = Done (Ok dom) -> own_domain (sg_m s) (sg_from s) dom.
Proof.
  unfold sender_domain, own_domain. intros E.
  assert (exists d, (sg_from s = "" /\ d = "" \/ exists mbox, Split (sg_from s) = Ok (mbox, d)) /\
    match dk_domains (sg_m s) with
    | [] => d = dom
    | first :: _ => dom = (if dk_signSubdomains (sg_m s) && HasSuffix (if decide (d = "") then first else d) ("." +:+ first) then first else if decide (d = "") then first else d)
    end) as (d & Hd & E2).
  { case_decide as Hf; [|destruct (Split (sg_from s)) as [[mbox d]|e] eqn:Es; [|done]].
    - exists "". split; [by left|]. rewrite (decide_True (P := "" = "")) in * by done. destruct (dk_domains (sg_m s)); [done|]. congruence.
    - exists d. split; [eauto|]. destruct (dk_domains (sg_m s)); [|congruence]. repeat case_match; congruence. }
  exists d. split; [done|]. destruct (dk_domains (sg_m s)) as [|first l]; [by left|]. subst dom. cbn [head].
  destruct (decide (d = "")) as [Hz|Hz].
  2: { destruct (dk_signSubdomains (sg_m s)) eqn:Esub; cbn [andb]; [|by left].
    destruct (HasSuffix d ("." +:+ first)) eqn:Eh; [|by left]. right. auto. }
  right. split; [|by left]. by destruct (_ && _).
Qed.

(** C34: what a message is signed with.  When RewriteBody changes the header it adds one
    field, the signature made with a key of the domain of the sender (of the first domain
    if the sender has none, of the configured domain for its subdomains), for the
    identity of that domain; and the signature names every field to oversign once more
    than the message has it, and every other field to sign as often as the message has
    it, whatever the spelling or the repetitions of the configuration. *)
Theorem dkim_signature s h open w w' h' err :
  RewriteBody NewSigner time_Now s h open w = (w', Done (h', err)) ->
  h' = h \/
  err = None /\ exists opts signer sig dom w1 w2 w3 w4,
    NewSigner opts w1 = (w2, Done (Ok signer)) /\ sg_Signature signer w3 = (w4, Done sig) /\ h' = hdr_AddRaw h sig /\
    own_domain (sg_m s) (sg_from s) dom /\ dk_signers (sg_m s) !! (dns_ForLookup dom).1 = Some (so_Signer opts) /\
    (if mo_UTF8 (mm_SMTPOpts (sg_meta s)) then so_Domain opts = dom else idna_ToASCII dom = (so_Domain opts, None)) /\
    so_Identifier opts = "@" +:+ so_Domain opts /\
    forall c, times_named c (so_HeaderKeys opts) = covered (sg_m s) h c.
Proof.
  unfold RewriteBody. destruct (sender_domain s) as [[dom|e]|why] eqn:Ed; [|intros E; cbv [mret prog_ret] in E; simplify_eq; by left|done].
  apply sender_domain_own in Ed. destruct (dns_ForLookup dom) as [norm [e|]] eqn:En; [intros E; cbv [mret prog_ret] in E; simplify_eq; by left|].
  destruct (dk_signers (sg_m s) !! norm) as [key|] eqn:Ek; [|intros E; cbv [mret prog_ret] in E; simplify_eq; by left].
  destruct (sign_names s dom) as [[domain selector]|] eqn:Es; [|intros E; cbv [mret prog_ret] in E; simplify_eq; by left].
  intros (w1 & expiration & _ & E)%prog_bind_Done. apply sign_result in E as [?|(-> & signer & sig & w2 & w3 & w4 & E1 & E2 & ->)]; [by left|].
  right. split; [done|]. eexists _, signer, sig, dom, w1, w2, w3, w4. split; [exact E1|]. split; [exact E2|]. split; [done|]. split; [done|].
  cbn [so_Signer so_Domain so_Identifier so_HeaderKeys sign_options]. rewrite En. split; [done|]. split.
  - unfold sign_names in Es. destruct (mo_UTF8 _); [by simplify_eq|].
    destruct (idna_ToASCII dom) as [d [e|]]; [done|]. destruct (idna_ToASCII (dk_selector (sg_m s))) as [sel [e|]]; [done|]. by simplify_eq.
  - split; [done|]. intros c. apply fieldsToSign_covers.
Qed.
End Facts.

(** ** A message of one domain *)

#[local] Existing Instance ascii_tables.
#[local] Existing Instance identity_text.
#[local] Existing Instance pair_textproto.

Definition sample_modifier : Modifier (Signer := string) :=
  mkModifier ["example.org"] "default" {[ "example.org" := "key" ]} ["Subject"; "subject"; "From"] ["List-Id"; "Date"; "from"] "relaxed" "relaxed" 0 false.
Definition sample_meta : MsgMetadata := mkMsgMetadata "id" "alice@example.org" false false ∅ (mkMailOptions 0 false false) None false.
Definition sample_header : header := [("From", "alice@example.org"); ("Date", "today"); ("Date", "tomorrow")].
Definition sample_signer (opts : SignOptions (Signer := string)) : Prog unit (Result gerror (Signing (W := unit))) :=
  mret (Ok (mkSigning (fun _ => mret None) (fun _ => mret None) (mret None) (mret ("d=" +:+ so_Domain opts +:+ "; h=" +:+ String.concat ":" (so_HeaderKeys opts))))).
Definition sample_state : state := (RewriteSender (ModStateForMsg sample_modifier sample_meta) "alice@example.org").1.
Definition signed_header : header := hdr_AddRaw sample_header "d=example.org; h=Subject:From:From:Date:Date".
Example signed : RewriteBody sample_signer (mret 0) sample_state sample_header (mret (Ok "text")) tt = (tt, Done (signed_header, None)).
Proof. vm_compute. reflexivity. Qed.
Lemma dkim_signature_witness :
  signed_header = sample_header \/
  (None : error) = None /\ exists opts signer sig dom w1 w2 w3 w4,
    sample_signer opts w1 = (w2, Done (Ok signer)) /\ sg_Signature signer w3 = (w4, Done sig) /\ signed_header = hdr_AddRaw sample_header sig /\
    own_domain (sg_m sample_state) (sg_from sample_state) dom /\ dk_signers (sg_m sample_state) !! (dns_ForLookup dom).1 = Some (so_Signer opts) /\
    (if mo_UTF8 (mm_SMTPOpts (sg_meta sample_state)) then so_Domain opts = dom else idna_ToASCII dom = (so_Domain opts, None)) /\
    so_Identifier opts = "@" +:+ so_Domain opts /\
    forall c, times_named c (so_HeaderKeys opts) = covered (sg_m sample_state) sample_header c.
Proof.
  apply (dkim_signature sample_signer (mret 0) sample_state sample_header (mret (Ok "text")) tt tt signed_header None).
  vm_compute. reflexivity.
Defined.
