(* ===== verification/PassTable.v ===== *)
(** * PassTable: internal/auth/pass_table

    Credentials kept in a table as "algorithm:hash".  The hash functions are the class
    [CryptoLib]; encoding/base64 and strconv are those of GoText. *)
From S2P Require Import Prelude GoStr GoText ExtErrors Address Tables.
From stdpp Require Import gmap.
From Stdlib Require Import Ascii ZifyBool.

Local Open Scope Z_scope.

(** golang.org/x/crypto and crypto; IDKey panics when it is given no pass or thread. *)
Class CryptoLib (W : Type) := {
  rand_Read : nat -> Prog W (Result gerror string);
  bcrypt_Generate : string -> Z -> Prog W (Result gerror string);
  bcrypt_Compare : string -> string -> error;                        (* hash, password *)
  argon2_IDKey : string -> string -> Z -> Z -> Z -> Z -> Outcome string;  (* password, salt, time, memory, threads, length *)
  sha256_Sum : string -> string
}.

(** The MutableTable half of a table, where it has one *)
Record MutableTable (W : Type) := mkMutable {
  mt_Keys : Prog W (Result gerror (list string));
  mt_RemoveKey : string -> Prog W error;
  mt_SetKey : string -> string -> Prog W error
}.
Arguments mkMutable {_} _ _ _.
Arguments mt_Keys {_} _.
Arguments mt_RemoveKey {_} _ _.
Arguments mt_SetKey {_} _ _ _.

Definition colon : ascii := ":"%char.
Definition HashSHA256 : string := "sha256".
Definition HashBcrypt : string := "bcrypt".
Definition HashArgon2 : string := "argon2".
Definition Argon2Salt : nat := 16.
Definition Argon2Size : Z := 64.
Definition bcrypt_DefaultCost : Z := 10.

Record HashOpts := mkHashOpts { ho_BcryptCost : Z; ho_Argon2Time : Z; ho_Argon2Memory : Z; ho_Argon2Threads : Z }.

Definition err_mismatch : gerror := EErrorf "pass_table: hash mismatch" None.
Definition err_corrupt : gerror := EForeign "illegal base64 data" None None None.

Section Hash.
Context {W : Type} `{!CryptoLib W}.

Definition computeArgon2 (opts : HashOpts) (pass : string) : Prog W (Result gerror string) :=
  salt ← rand_Read Argon2Salt;
  match salt with
  | Err e => mret (Err (wrapf "pass_table: failed to generate salt" e))
  | Ok salt =>
    match argon2_IDKey pass salt (ho_Argon2Time opts) (ho_Argon2Memory opts) (ho_Argon2Threads opts) Argon2Size with
    | Panicked why => panic why
    | Done hash =>
      mret (Ok (JoinByte [FormatUint (ho_Argon2Time opts); FormatUint (ho_Argon2Memory opts); FormatUint (ho_Argon2Threads opts);
                          EncodeToString salt; EncodeToString hash] colon))
    end
  end.
(** One part of the hash string: the index is out of range when there are too few. *)
Definition malformed {A} (e : gerror) : Outcome (Result gerror A) := Done (Err (wrapf "pass_table: malformed hash string" e)).
Definition uint_part (parts : list string) (i : nat) (bitSize : Z) : Outcome (Result gerror Z) :=
  match parts !! i with
  | None => Panicked "index out of range"
  | Some p => match ParseUint p bitSize with Ok n => Done (Ok n) | Err e => malformed (ENum "ParseUint" p e) end
  end.
Definition b64_part (parts : list string) (i : nat) : Outcome (Result gerror string) :=
  match parts !! i with
  | None => Panicked "index out of range"
  | Some p => match DecodeString p with Some s => Done (Ok s) | None => malformed err_corrupt end
  end.
Definition and_then {A B} (o : Outcome (Result gerror A)) (f : A -> Outcome (Result gerror B)) : Outcome (Result gerror B) :=
  r ← o; match r with Ok a => f a | Err e => Done (Err e) end.
Definition verifyArgon2 (pass hashSalt : string) : Outcome (Result gerror unit) :=
  let parts := SplitN hashSalt colon 5 in
  and_then (uint_part parts 0 32) (fun time =>
  and_then (uint_part parts 1 32) (fun memory =>
  and_then (uint_part parts 2 8) (fun threads =>
  and_then (b64_part parts 3) (fun salt =>
  and_then (b64_part parts 4) (fun hash =>
  passHash ← argon2_IDKey pass salt time memory threads Argon2Size;
  Done (if decide (passHash = hash) then Ok tt else Err err_mismatch)))))).

Definition computeSHA256 (pass : string) : Prog W (Result gerror string) :=
  salt ← rand_Read 32;
  match salt with
  | Err e => mret (Err (wrapf "pass_table: failed to generate salt" e))
  | Ok salt => mret (Ok (EncodeToString salt +:+ ":" +:+ EncodeToString (sha256_Sum (salt +:+ pass))))
  end.
Definition verifySHA256 (pass hashSalt : string) : Outcome (Result gerror unit) :=
  match SplitByte hashSalt colon with
  | [p0; p1] =>
    match DecodeString p0, DecodeString p1 with
    | Some salt, Some hash => Done (if decide (sha256_Sum (salt +:+ pass) = hash) then Ok tt else Err err_mismatch)
    | _, _ => Done (Err (wrapf "pass_table: malformed hash string, cannot decode pass" err_corrupt))
    end
  | _ => Done (Err (EErrorf "pass_table: malformed hash string, no salt" None))
  end.

Definition computeBcrypt (opts : HashOpts) (pass : string) : Prog W (Result gerror string) := bcrypt_Generate pass (ho_BcryptCost opts).
Definition verifyBcrypt (pass hashSalt : string) : Outcome (Result gerror unit) :=
  Done (match bcrypt_Compare hashSalt pass with None => Ok tt | Some e => Err e end).

(** The maps HashCompute and HashVerify; [sha] is whether addSHA256 was called. *)
Definition HashCompute (sha : bool) (name : string) : option (HashOpts -> string -> Prog W (Result gerror string)) :=
  if decide (name = HashBcrypt) then Some computeBcrypt
  else if decide (name = HashArgon2) then Some computeArgon2
  else if sha && bool_decide (name = HashSHA256) then Some (fun _ => computeSHA256)
  else None.
Definition HashVerify (sha : bool) (name : string) : option (string -> string -> Outcome (Result gerror unit)) :=
  if decide (name = HashBcrypt) then Some verifyBcrypt
  else if decide (name = HashArgon2) then Some verifyArgon2
  else if sha && bool_decide (name = HashSHA256) then Some verifySHA256
  else None.
End Hash.

(** ** The module *)

Definition ErrUnknownCredentials : gerror := ENew "unknown credentials".

Section Auth.
Context `{TextLib} {W : Type} `{!CryptoLib W} (sha : bool).

Record Auth := mkAuth { pt_modName : string; pt_table : Table W; pt_mutable : option (MutableTable W) }.
Context (a : Auth).

Definition Lookup (username : string) : Prog W (Result gerror (option string)) :=
  match UsernameCaseMapped username with
  | (_, Some e) => mret (Err e)
  | (key, None) => tb_Lookup (pt_table a) key
  end.

Definition AuthPlain (username password : string) : Prog W error :=
  match UsernameCaseMapped username with
  | (_, Some e) => mret (Some e)
  | (key, None) =>
    r ← tb_Lookup (pt_table a) key;
    match r with
    | Err _ | Ok None => mret (Some ErrUnknownCredentials)   (* ok is tested before err *)
    | Ok (Some hash) =>
      match SplitN hash colon 2 with
      | [tag; hashSalt] =>
        match HashVerify sha tag with
        | None => mret (Some (EErrorf (pt_modName a +:+ ": auth plain " +:+ key +:+ ": unknown hash: " +:+ tag) None))
        | Some hashVerify =>
          match hashVerify password hashSalt with
          | Panicked why => panic why
          | Done (Ok _) => mret None
          | Done (Err e) => mret (Some e)
          end
        end
      | _ => mret (Some (EErrorf (pt_modName a +:+ ": auth plain " +:+ key +:+ ": no hash tag") None))
      end
    end
  end.

Definition err_immutable : gerror := EErrorf (pt_modName a +:+ ": table is not mutable, no management functionality available") None.
Definition ListUsers : Prog W (Result gerror (list string)) :=
  match pt_mutable a with
  | None => mret (Err err_immutable)
  | Some tbl =>
    l ← mt_Keys tbl;
    mret (match l with Ok l => Ok l | Err e => Err (wrapf (pt_modName a +:+ ": list users") e) end)
  end.

Definition CreateUserHash (username password hashAlgo : string) (opts : HashOpts) : Prog W error :=
  match pt_mutable a with
  | None => mret (Some err_immutable)
  | Some tbl =>
    match HashCompute sha hashAlgo with
    | None => mret (Some (EErrorf (pt_modName a +:+ ": unknown hash function: " +:+ hashAlgo) None))
    | Some compute =>
      match UsernameCaseMapped username with
      | (_, Some e) => mret (Some (wrapf (pt_modName a +:+ ": create user " +:+ username +:+ " (raw)") e))
      | (key, None) =>
        r ← tb_Lookup (pt_table a) key;
        match r with
        | Err e => mret (Some (wrapf (pt_modName a +:+ ": create user " +:+ key) e))
        | Ok (Some _) => mret (Some (EErrorf (pt_modName a +:+ ": credentials for " +:+ key +:+ " already exist") None))
        | Ok None =>
          hash ← compute opts password;
          match hash with
          | Err e => mret (Some (wrapf (pt_modName a +:+ ": create user " +:+ key +:+ ": hash generation") e))
          | Ok hash =>
            err ← mt_SetKey tbl key (hashAlgo +:+ ":" +:+ hash);
            mret (match err with None => None | Some e => Some (wrapf (pt_modName a +:+ ": create user " +:+ key) e) end)
          end
        end
      end
    end
  end.
Definition CreateUser (username password : string) : Prog W error :=
  CreateUserHash username password HashBcrypt (mkHashOpts bcrypt_DefaultCost 0 0 0).

Definition SetUserPassword (username password : string) : Prog W error :=
  match pt_mutable a with
  | None => mret (Some err_immutable)
  | Some tbl =>
    match UsernameCaseMapped username with
    | (_, Some e) => mret (Some (wrapf (pt_modName a +:+ ": set password " +:+ username +:+ " (raw)") e))
    | (key, None) =>
      hash ← computeBcrypt (mkHashOpts bcrypt_DefaultCost 0 0 0) password;
      match hash with
      | Err e => mret (Some (wrapf (pt_modName a +:+ ": set password " +:+ key +:+ ": hash generation") e))
      | Ok hash =>
        err ← mt_SetKey tbl key ("bcrypt:" +:+ hash);
        mret (match err with None => None | Some e => Some (wrapf (pt_modName a +:+ ": set password " +:+ key) e) end)
      end
    end
  end.

Definition DeleteUser (username : string) : Prog W error :=
  match pt_mutable a with
  | None => mret (Some err_immutable)
  | Some tbl =>
    match UsernameCaseMapped username with
    | (_, Some e) => mret (Some (wrapf (pt_modName a +:+ ": del user " +:+ username +:+ " (raw)") e))
    | (key, None) =>
      err ← mt_RemoveKey tbl key;
      mret (match err with None => None | Some e => Some (wrapf (pt_modName a +:+ ": del user " +:+ key) e) end)
    end
  end.
End Auth.
Arguments mkAuth {_} _ _ _.

(** ** What a user can log in with *)

(** What the module relies on: a table whose lookups read a map that SetKey updates and
    that hashing leaves alone, and bcrypt hashes that accept their password. *)
Class TableLaws `{!CryptoLib W} (t : Table W) (tbl : MutableTable W) := {
  contents : W -> gmap string string;
  lookup_reads k w : tb_Lookup t k w = (w, Done (Ok (contents w !! k)));
  set_updates k v w w' : mt_SetKey tbl k v w = (w', Done None) -> contents w' = <[k := v]> (contents w);
  rand_frame n w : contents (rand_Read n w).1 = contents w;
  bcrypt_frame pass cost w : contents (bcrypt_Generate pass cost w).1 = contents w;
  bcrypt_accepts pass cost hash w w' : bcrypt_Generate pass cost w = (w', Done (Ok hash)) -> bcrypt_Compare hash pass = None
}.

Lemma tag_split tag hash : has_byte colon tag = false -> SplitN (tag +:+ ":" +:+ hash) colon 2 = [tag; hash].
Proof. intros Ht. change (":" +:+ hash) with (String colon hash). by rewrite SplitN_cons. Qed.

Section Facts.
Context `{TextLib} {W : Type} `{!CryptoLib W} (sha : bool) (a : Auth (W := W)) (tbl : MutableTable W).
Context `{!TableLaws (pt_table a) tbl}.

(** The parameters fit the types of HashOpts. *)
Definition opts_ok (o : HashOpts) : Prop :=
  0 <= ho_Argon2Time o < 2 ^ 32 /\ 0 <= ho_Argon2Memory o < 2 ^ 32 /\ 0 <= ho_Argon2Threads o < 2 ^ 8.

Lemma uint_part_ok parts i n bitSize :
  parts !! i = Some (FormatUint n) -> 0 <= bitSize <= 64 -> 0 <= n < 2 ^ bitSize -> uint_part parts i bitSize = Done (Ok n).
Proof. intros Hp Hb Hn. unfold uint_part. by rewrite Hp, ParseUint_Format. Qed.
Lemma b64_part_ok parts i s : parts !! i = Some (EncodeToString s) -> b64_part parts i = Done (Ok s).
Proof. intros Hp. unfold b64_part. by rewrite Hp, Decode_Encode. Qed.

Lemma argon2_accepts opts pass hash w w' :
  opts_ok opts -> computeArgon2 opts pass w = (w', Done (Ok hash)) ->
  verifyArgon2 pass hash = Done (Ok tt) /\ contents w' = contents w.
Proof.
  intros (Ht & Hm & Hth) E. unfold computeArgon2 in E. apply prog_bind_Done in E as (w1 & salt & Er & E).
  destruct salt as [salt|]; [|done]. destruct (argon2_IDKey _ _ _ _ _ _) as [h|] eqn:Eh; [|done].
  cbv [mret prog_ret] in E. simplify_eq. split.
  - assert (forall n, 0 <= n < 2 ^ 32 -> has_byte colon (FormatUint n) = false) as Hno.
    { intros n Hn. apply FormatUint_no_byte; [unfold maxUint64; lia|right; vm_compute; done]. }
    unfold verifyArgon2.
    pose proof (SplitN_Join [FormatUint (ho_Argon2Time opts); FormatUint (ho_Argon2Memory opts); FormatUint (ho_Argon2Threads opts);
                  EncodeToString salt] (EncodeToString h) colon) as Hs. cbn [app length JoinByte] in Hs. rewrite Hs; clear Hs.
    + cbv zeta. rewrite (uint_part_ok _ 0 (ho_Argon2Time opts)) by (done || lia). cbn [and_then mbind outcome_bind].
      rewrite (uint_part_ok _ 1 (ho_Argon2Memory opts)) by (done || lia). cbn [and_then mbind outcome_bind].
      rewrite (uint_part_ok _ 2 (ho_Argon2Threads opts)) by (done || lia). cbn [and_then mbind outcome_bind].
      rewrite (b64_part_ok _ 3 salt), (b64_part_ok _ 4 h) by done. cbn [and_then mbind outcome_bind]. rewrite Eh.
      cbn [mbind outcome_bind]. by rewrite decide_True.
    + repeat constructor; [apply Hno; lia..|by apply Encode_no_colon].
  - pose proof (rand_frame Argon2Salt w) as Hf. by rewrite Er in Hf.
Qed.

Lemma sha256_accepts pass hash w w' :
  computeSHA256 pass w = (w', Done (Ok hash)) -> verifySHA256 pass hash = Done (Ok tt) /\ contents w' = contents w.
Proof.
  intros E. unfold computeSHA256 in E. apply prog_bind_Done in E as (w1 & salt & Er & E).
  destruct salt as [salt|]; [|done]. cbv [mret prog_ret] in E. simplify_eq. split.
  - unfold verifySHA256. change (":" +:+ EncodeToString (sha256_Sum (salt +:+ pass))) with (String colon (EncodeToString (sha256_Sum (salt +:+ pass)))).
    rewrite SplitByte_pair by (by split; apply Encode_no_colon). rewrite !Decode_Encode. by rewrite decide_True.
  - pose proof (rand_frame 32 w) as Hf. by rewrite Er in Hf.
Qed.

Lemma HashCompute_accepts algo opts compute pass hash w w' :
  opts_ok opts -> HashCompute sha algo = Some compute -> compute opts pass w = (w', Done (Ok hash)) ->
  has_byte colon algo = false /\ contents w' = contents w /\
  exists verify, HashVerify sha algo = Some verify /\ verify pass hash = Done (Ok tt).
Proof.
  intros Ho Hc E. unfold HashCompute, HashVerify in *.
  destruct (decide (algo = HashBcrypt)) as [->|]; [|destruct (decide (algo = HashArgon2)) as [->|]].
  - simplify_eq. split_and!; [done| |].
    + pose proof (bcrypt_frame pass (ho_BcryptCost opts) w) as Hf. unfold computeBcrypt in E. by rewrite E in Hf.
    + eexists. split; [done|]. unfold verifyBcrypt. by rewrite (bcrypt_accepts _ _ _ _ _ E).
  - simplify_eq. destruct (argon2_accepts _ _ _ _ _ Ho E). split_and!; eauto.
  - destruct (sha && bool_decide (algo = HashSHA256)) eqn:Hs; [|done]. simplify_eq.
    apply andb_true_iff in Hs as [_ Hs%bool_decide_eq_true]. subst. destruct (sha256_accepts _ _ _ _ E). split_and!; eauto.
Qed.

(** What AuthPlain answers depends on the entry of the user alone. *)
Definition check_entry (key password : string) (entry : option string) : Outcome error :=
  match entry with
  | None => Done (Some ErrUnknownCredentials)
  | Some hash =>
    match SplitN hash colon 2 with
    | [tag; hashSalt] =>
      match HashVerify sha tag with
      | None => Done (Some (EErrorf (pt_modName a +:+ ": auth plain " +:+ key +:+ ": unknown hash: " +:+ tag) None))
      | Some verify => r ← verify password hashSalt; Done (match r with Ok _ => None | Err e => Some e end)
      end
    | _ => Done (Some (EErrorf (pt_modName a +:+ ": auth plain " +:+ key +:+ ": no hash tag") None))
    end
  end.
Lemma AuthPlain_entry username key password w :
  UsernameCaseMapped username = (key, None) ->
  AuthPlain sha a username password w = (w, check_entry key password (contents w !! key)).
Proof.
  intros Hk. unfold AuthPlain. rewrite Hk. unfold mbind, prog_bind. rewrite lookup_reads. unfold check_entry.
  destruct (contents w !! key) as [hash|]; [|done]. destruct (SplitN hash colon 2) as [|tag [|hs [|]]]; try done.
  destruct (HashVerify sha tag) as [verify|]; [|done]. by destruct (verify password hs) as [[]|].
Qed.

(** C25: who creates a user can log in.  When CreateUserHash succeeds, with any hash
    function the module knows, the user did not exist before, AuthPlain accepts that
    name, in any spelling that normalises to it, with that password, and answers for
    every other user as it did before. *)
Theorem create_then_auth username key password algo opts w w' :
  pt_mutable a = Some tbl -> opts_ok opts -> UsernameCaseMapped username = (key, None) ->
  CreateUserHash sha a username password algo opts w = (w', Done None) ->
  contents w !! key = None /\
  (forall name, UsernameCaseMapped name = (key, None) -> AuthPlain sha a name password w' = (w', Done None)) /\
  (forall name key' pass, UsernameCaseMapped name = (key', None) -> key' <> key ->
     (AuthPlain sha a name pass w').2 = (AuthPlain sha a name pass w).2).
Proof.
  intros Hm Ho Hk E. unfold CreateUserHash in E. rewrite Hm, Hk in E.
  destruct (HashCompute sha algo) as [compute|] eqn:Hc; [|done].
  apply prog_bind_Done in E as (w1 & r & Hl & E). rewrite lookup_reads in Hl. simplify_eq.
  destruct (contents w1 !! key) eqn:Hnone; [done|].
  apply prog_bind_Done in E as (w2 & hash & Hh & E). destruct hash as [hash|]; [|done].
  apply prog_bind_Done in E as (w3 & err & Hs & E). cbv [mret prog_ret] in E. destruct err; [done|]. simplify_eq.
  destruct (HashCompute_accepts _ _ _ _ _ _ _ Ho Hc Hh) as (Hno & Hf & verify & Hv & Hok).
  pose proof (set_updates _ _ _ _ Hs) as Hu. rewrite Hf in Hu. split_and!; [done|..].
  - intros name Hn. rewrite (AuthPlain_entry _ _ _ _ Hn), Hu, lookup_insert_eq. unfold check_entry.
    rewrite tag_split by done. rewrite Hv, Hok. done.
  - intros name key' pass Hn Hne. rewrite !(AuthPlain_entry _ _ _ _ Hn), Hu. by rewrite lookup_insert_ne.
Qed.

(** A login that succeeds was checked against the hash of that user. *)
Lemma AuthPlain_sound username key password w :
  UsernameCaseMapped username = (key, None) -> (AuthPlain sha a username password w).2 = Done None ->
  exists hash tag hashSalt verify, contents w !! key = Some hash /\ SplitN hash colon 2 = [tag; hashSalt] /\
    HashVerify sha tag = Some verify /\ verify password hashSalt = Done (Ok tt).
Proof.
  intros Hk. rewrite (AuthPlain_entry _ _ _ _ Hk). simpl. unfold check_entry. destruct (contents w !! key) as [hash|]; [|done].
  destruct (SplitN hash colon 2) as [|tag [|hs [|]]] eqn:Hsp; try done.
  destruct (HashVerify sha tag) as [verify|] eqn:Hv; [|done].
  destruct (verify password hs) as [[[]|]|] eqn:Hr; try done. eauto 10.
Qed.
End Facts.

(** ** A table in memory and toy hashes *)

Definition sample_world := gmap string string.
Definition sample_crypto : CryptoLib sample_world := {|
  rand_Read := fun _ => mret (Ok "0123456789abcdef");
  bcrypt_Generate := fun pass _ => mret (Ok ("$" +:+ pass));
  bcrypt_Compare := fun hash pass => if decide (hash = "$" +:+ pass) then None else Some err_mismatch;
  argon2_IDKey := fun pass salt t m p len => Done (pass +:+ salt);
  sha256_Sum := fun s => s
|}.
Definition sample_auth : Auth (W := sample_world) :=
  mkAuth "auth.pass_table" (mkTable (fun key w => (w, Done (Ok (w !! key)))) None) (Some
    (mkMutable (mret (Ok [])) (fun key => modify (delete key) ;; mret None) (fun key v => modify (insert key v) ;; mret None))).
Definition sample_mutable : MutableTable sample_world :=
  mkMutable (mret (Ok [])) (fun key => modify (delete key) ;; mret None) (fun key v => modify (insert key v) ;; mret None).
Definition sample_laws : TableLaws (CryptoLib0 := sample_crypto) (pt_table sample_auth) sample_mutable.
Proof.
  refine {| contents := fun w : sample_world => w |}; try done.
  - intros k v w w' E. unfold sample_mutable, modify in E. simpl in E. cbv [mbind prog_bind mret prog_ret] in E. by simplify_eq.
  - intros pass cost hash w w' E. simpl in E. cbv [mret prog_ret] in E. simplify_eq. simpl. by rewrite decide_True.
Defined.

Definition sample_opts : HashOpts := mkHashOpts 10 3 1024 1.
Definition sample_users : sample_world :=
  {[ "bob" := "argon2:3:1024:1:" +:+ EncodeToString "0123456789abcdef" +:+ ":" +:+ EncodeToString "secret0123456789abcdef" ]}.
Lemma create_then_auth_witness :
  (∅ : sample_world) !! "bob" = None /\
  (forall name, UsernameCaseMapped (TextLib := identity_text) name = ("bob", None) ->
     AuthPlain (H := identity_text) (CryptoLib0 := sample_crypto) false sample_auth name "secret" sample_users = (sample_users, Done None)) /\
  (forall name key' pass, UsernameCaseMapped (TextLib := identity_text) name = (key', None) -> key' <> "bob" ->
     (AuthPlain (H := identity_text) (CryptoLib0 := sample_crypto) false sample_auth name pass sample_users).2
     = (AuthPlain (H := identity_text) (CryptoLib0 := sample_crypto) false sample_auth name pass ∅).2).
Proof.
  apply (create_then_auth (H := identity_text) (CryptoLib0 := sample_crypto) (TableLaws0 := sample_laws) false sample_auth sample_mutable
           "bob" "bob" "secret" HashArgon2 sample_opts ∅ sample_users).
  - reflexivity.
  - unfold opts_ok. simpl. lia.
  - reflexivity.
  - vm_compute. reflexivity.
Defined.

(** A stored hash with missing parts makes a login panic. *)
Example malformed_hash_panics :
  (AuthPlain (H := identity_text) (CryptoLib0 := sample_crypto) false sample_auth "bob" "x" {[ "bob" := "argon2:3" ]}).2
  = Panicked "index out of range".
Proof. vm_compute. reflexivity. Qed.
