(* ===== verification/AuthBackends.v ===== *)
(** * AuthBackends: internal/auth/ldap, internal/auth/dovecot_sasl, internal/auth/pam

    Providers of passwords that ask a directory, a Dovecot server or PAM.  The client
    libraries are parameters: the operations of a connection to a directory are the class
    [LdapLib].  The lock of the LDAP module is held from getConn to returnConn, so that
    operations follow one another. *)
From S2P Require Import Prelude GoStr ExtErrors Config ConfigParser ConfigMap PassTable.
From stdpp Require Import gmap.

Local Open Scope Z_scope.

(** strings.ReplaceAll of a non-empty [old]; [skip] bytes are left of a match *)
Fixpoint ReplaceAll (old new : string) (skip : nat) (s : string) : string :=
  match s with
  | EmptyString => EmptyString
  | String a s' =>
    match skip with
    | S skip => ReplaceAll old new skip s'
    | O => if HasPrefix s old then new +:+ ReplaceAll old new (String.length old - 1) s' else String a (ReplaceAll old new 0 s')
    end
  end.

(** ** LDAP *)

(** *ldap.Conn of go-ldap.  DialURL takes the server name of the TLS configuration; Search
    gives the names of the entries. *)
Class LdapLib (W : Type) := {
  Conn : Type;
  Conn_eq : EqDecision Conn;
  ldap_DialURL : string -> string -> Prog W (Result gerror Conn);
  ldap_SetTimeout : Conn -> Z -> Prog W unit;
  ldap_StartTLS : Conn -> string -> Prog W error;
  ldap_Bind : Conn -> string -> string -> Prog W error;
  ldap_UnauthenticatedBind : Conn -> string -> Prog W error;
  ldap_ExternalBind : Conn -> Prog W error;
  ldap_IsClosing : Conn -> Prog W bool;
  (* of a pointer, which may be nil *)
  ldap_Close : option Conn -> Prog W unit;
  ldap_Search : Conn -> string -> string -> Prog W (Result gerror (list string))
}.
#[export] Existing Instance Conn_eq.

Section Ldap.
Context {W : Type} `{!LdapLib W} (url_Host : string -> Result gerror string).

Inductive bind_mode := BindOff | BindUnauth (username : string) | BindPlain (username password : string) | BindExternal.
Definition readBindDirective (n : Node) : Result gerror bind_mode :=
  match node_Args n with
  | [] => Err (EErrorf "auth.ldap: auth expects at least one argument" None)
  | mode :: args =>
    if decide (mode = "off") then Ok BindOff
    else if decide (mode = "unauth") then Ok (match args with [username] => BindUnauth username | _ => BindUnauth "" end)
    else if decide (mode = "plain") then
      match args with
      | [username; password] => Ok (BindPlain username password)
      | _ => Err (EErrorf "auth.ldap: username and password expected for plaintext bind" None)
      end
    else if decide (mode = "external") then Ok BindExternal
    else Err (EErrorf ("auth.ldap: unknown bind authentication: " +:+ mode) None)
  end.
(** a.readBind *)
Definition readBind (m : bind_mode) (c : Conn) : Prog W error :=
  match m with
  | BindOff => mret None
  | BindUnauth username => ldap_UnauthenticatedBind c username
  | BindPlain username password => ldap_Bind c username password
  | BindExternal => ldap_ExternalBind c
  end.

Record LdapAuth := mkLdapAuth {
  la_urls : list string;
  la_readBind : bind_mode;
  la_starttls : bool;
  la_requestTimeout : Z;
  la_dnTemplate : string;
  la_baseDN : string;
  la_filterTemplate : string;
  la_conn : option Conn
}.
Definition set_conn (c : option Conn) (a : LdapAuth) : LdapAuth :=
  mkLdapAuth (la_urls a) (la_readBind a) (la_starttls a) (la_requestTimeout a) (la_dnTemplate a) (la_baseDN a) (la_filterTemplate a) c.

(** The loop of newConn: the connection of the first server that answers, with the server
    name of its TLS configuration *)
Fixpoint dial (urls : list string) (serverName : string) : Prog W (Result gerror (option (Conn * string))) :=
  match urls with
  | [] => mret (Ok None)
  | u :: urls =>
    match url_Host u with
    | Err err => mret (Err (wrapf "auth.ldap: invalid server URL" err))
    | Ok hostname =>
      let serverName := default "" (head (SplitByte hostname (of_byte 58))) in
      r ← ldap_DialURL u serverName;
      match r with Ok conn => mret (Ok (Some (conn, serverName))) | Err _ => dial urls serverName end
    end
  end.
Definition newConn (a : LdapAuth) : Prog W (Result gerror Conn) :=
  r ← dial (la_urls a) "";
  match r with
  | Err err => mret (Err err)
  | Ok None => mret (Err (EErrorf "auth.ldap: all directory servers are unreachable" None))
  | Ok (Some (conn, serverName)) =>
    (if la_requestTimeout a =? 0 then mret tt else ldap_SetTimeout conn (la_requestTimeout a)) ;;
    err ← (if la_starttls a then ldap_StartTLS conn serverName else mret None);
    match err with
    | Some err => mret (Err (wrapf "auth.ldap" err))
    | None =>
      err ← readBind (la_readBind a) conn;
      mret (match err with Some err => Err (wrapf "auth.ldap" err) | None => Ok conn end)
    end
  end.
Definition getConn (a : LdapAuth) : Prog W (LdapAuth * Result gerror Conn) :=
  r ← (match la_conn a with Some conn => mret (Ok conn) | None => newConn a end);
  match r with
  | Err err => mret (a, Err err)
  | Ok conn =>
    let a := set_conn (Some conn) a in
    closing ← ldap_IsClosing conn;
    if (closing : bool) then
      ldap_Close (Some conn) ;;
      r ← newConn a;
      mret (match r with Err err => (a, Err err) | Ok conn => (set_conn (Some conn) a, Ok conn) end)
    else mret (a, Ok conn)
  end.
Definition returnConn (a : LdapAuth) (conn : Conn) : Prog W LdapAuth :=
  err ← readBind (la_readBind a) conn;
  a ← (match err with Some _ => ldap_Close (Some conn) ;; mret (set_conn None a) | None => mret a end);
  (if decide (la_conn a = Some conn) then mret tt else ldap_Close (la_conn a)) ;;
  mret (set_conn (Some conn) a).

Definition username_in (template username : string) : string := ReplaceAll "{username}" username 0 template.
(** The entry of a user: none, or an error *)
Definition search_user (a : LdapAuth) (conn : Conn) (username : string) : Prog W (Result gerror (option string)) :=
  res ← ldap_Search conn (la_baseDN a) (username_in (la_filterTemplate a) username);
  mret (match res with
        | Err err => Err (wrapf "auth.ldap: search" err)
        | Ok [] => Ok None
        | Ok [dn] => Ok (Some dn)
        | Ok entries => Err (EErrorf ("auth.ldap: too manu entries returned (" +:+ pretty.pretty (length entries) +:+ ")") None)
        end).
(** With the connection, which is returned after [body] *)
Definition with_conn {A} (a : LdapAuth) (failed : gerror -> A) (body : Conn -> Prog W A) : Prog W (LdapAuth * A) :=
  '(a, r) ← getConn a;
  match r with
  | Err err => mret (a, failed err)
  | Ok conn => x ← body conn; a ← returnConn a conn; mret (a, x)
  end.
Definition Ldap_Lookup (a : LdapAuth) (username : string) : Prog W (LdapAuth * Result gerror (option string)) :=
  with_conn a Err (fun conn =>
    if decide (la_dnTemplate a <> "") then mret (Err (EErrorf "auth.ldap: lookups require search config but dn_template is used" None))
    else search_user a conn username).
Definition Ldap_AuthPlain (a : LdapAuth) (username password : string) : Prog W (LdapAuth * error) :=
  with_conn a Some (fun conn =>
    r ← (if decide (la_dnTemplate a <> "") then mret (Ok (Some (username_in (la_dnTemplate a) username))) else search_user a conn username);
    match r with
    | Err err => mret (Some err)
    | Ok None => mret (Some ErrUnknownCredentials)
    | Ok (Some userDN) =>
      err ← ldap_Bind conn userDN password;
      mret (match err with Some _ => Some ErrUnknownCredentials | None => None end)
    end).
End Ldap.

(** ** Init of the LDAP module *)

Section Init.
Context `{UnicodeTables} {W TlsClient : Type} `{!LdapLib W} (url_Host : string -> Result gerror string).
Inductive ldap_value := LBind (m : bind_mode) | LTls (c : TlsClient).
Notation value := (value (V := ldap_value)).
Notation Map := (Map (V := ldap_value)).
(** The tls_client directive and its default; an order of the loop over the map; module.NoRun *)
Context (TLSClientBlock : Node -> Result gerror TlsClient) (no_tls : TlsClient) (order : Map -> list (matcher (V := ldap_value))) (NoRun : bool).

Definition var_urls (vs : gmap string value) : list string := match vs !! "urls" with Some (VStrings (Some l)) => l | _ => [] end.
Definition ldap_directives (m : Map) : Outcome Map :=
  m ← Map_Bool "debug" true false (Some "Debug") m;
  m ← Custom "tls_client" true false (Some (Ok (VCustom (LTls no_tls)))) (fun _ n => c ← TLSClientBlock n; Ok (VCustom (LTls c))) (Some "tlsCfg") m;
  m ← Callback "urls" (fun _ node vs => (<["urls" := VStrings (Some (var_urls vs ++ node_Args node))]> vs, None)) m;
  m ← Custom "bind" false false (Some (Ok (VCustom (LBind BindOff)))) (fun _ n => b ← readBindDirective n; Ok (VCustom (LBind b))) (Some "readBind") m;
  m ← Map_Bool "starttls" false false (Some "startls") m;
  m ← Map_Duration "connect_timeout" false false 60000000000 (Some "Timeout") m;
  m ← Map_Duration "request_timeout" false false 60000000000 (Some "requestTimeout") m;
  m ← Map_String "dn_template" false false "" (Some "dnTemplate") m;
  m ← Map_String "base_dn" false false "" (Some "baseDN") m;
  Map_String "filter" false false "" (Some "filterTemplate") m.
Definition ldap_auth_of (vs : gmap string value) : LdapAuth (W := W) :=
  let str x := match vs !! x with Some (VString s) => s | _ => "" end in
  mkLdapAuth (var_urls vs) (match vs !! "readBind" with Some (VCustom (LBind b)) => b | _ => BindOff end)
    (match vs !! "startls" with Some (VBool b) => b | _ => false end) (match vs !! "requestTimeout" with Some (VDuration d) => d | _ => 0 end)
    (str "dnTemplate") (str "baseDN") (str "filterTemplate") None.
(** Either a template of the name, or a search *)
Definition ldap_settings_error (a : LdapAuth (W := W)) : error :=
  if decide (la_dnTemplate a = "") then
    if decide (la_baseDN a = "") then Some (EErrorf "auth.ldap: base_dn not set" None)
    else if decide (la_filterTemplate a = "") then Some (EErrorf "auth.ldap: filter not set" None)
    else None
  else if decide (la_baseDN a <> "" \/ la_filterTemplate a <> "") then Some (EErrorf "auth.ldap: search directives set when dn_template is used" None)
  else None.
(** The module was made with the inline arguments as its first URLs. *)
Definition ldap_Init (inlineArgs : list string) (cfg : Map) : Prog W (Result gerror (LdapAuth (W := W))) :=
  match ldap_directives cfg with
  | Panicked why => panic why
  | Done m =>
    match Process (fun _ => false) (order m) m {[ "urls" := VStrings (Some inlineArgs) ]} with
    | (_, _, Err err) => mret (Err err)
    | (vs, _, Ok _) =>
      let a := ldap_auth_of vs in
      match ldap_settings_error a with
      | Some err => mret (Err err)
      | None =>
        if NoRun then mret (Ok a)
        else
          r ← newConn url_Host a;
          mret (match r with Err err => Err (wrapf "auth.ldap" err) | Ok conn => Ok (set_conn (Some conn) a) end)
      end
    end
  end.
End Init.

(** ** What a login shows *)

Section Login.
Context {W : Type} `{!LdapLib W} (url_Host : string -> Result gerror string).

(** The name the directory knows the user by, as the configuration says *)
Definition names (a : LdapAuth) (conn : Conn) (username dn : string) (w w' : W) : Prop :=
  if decide (la_dnTemplate a = "") then ldap_Search conn (la_baseDN a) (username_in (la_filterTemplate a) username) w = (w', Done (Ok [dn]))
  else dn = username_in (la_dnTemplate a) username /\ w' = w.
Definition same_settings (a a' : LdapAuth) : Prop := set_conn None a = set_conn None a'.

Lemma getConn_settings a w w' a' r : getConn url_Host a w = (w', Done (a', r)) ->
  same_settings a a' /\ forall conn, r = Ok conn -> la_conn a' = Some conn.
Proof.
  unfold getConn. intros E. inv_prog E. destruct a0 as [conn|e]; [|injection E as <- <- <-; naive_solver].
  inv_prog E. destruct a0; [|injection E as <- <- <-; split; [done|]; by intros ? [= ->]].
  inv_prog E. inv_prog E. destruct a1 as [conn'|e]; injection E as <- <- <-; split; [done| |done|done]; by intros ? [= ->].
Qed.

(** returnConn: when the connection is bound as the reader again it is the one that is
    kept; otherwise Close is called on a nil pointer, and the closed connection is kept. *)
Lemma returnConn_run a conn w w' a' : la_conn a = Some conn -> returnConn a conn w = (w', Done a') ->
  a' = a /\
  exists w1 err, readBind (la_readBind a) conn w = (w1, Done err) /\
  match err with
  | None => w' = w1
  | Some _ => exists w2, ldap_Close (Some conn) w1 = (w2, Done tt) /\ ldap_Close None w2 = (w', Done tt)
  end.
Proof.
  intros Hc E. unfold returnConn in E. assert (Ha : set_conn (Some conn) a = a) by (destruct a; cbn in *; by subst).
  apply prog_bind_Done in E as (w1 & err & Eb & E). apply prog_bind_Done in E as (w2 & a1 & E1 & E).
  apply prog_bind_Done in E as (w3 & [] & E2 & E). injection E as <- <-. destruct err as [err|].
  - apply prog_bind_Done in E1 as (w4 & [] & E3 & E1). injection E1 as <- <-. cbn [set_conn la_conn] in E2. rewrite decide_False in E2 by done.
    split; [exact Ha|]. exists w1, (Some err). split; [done|]. by exists w4.
  - injection E1 as <- <-. rewrite decide_True in E2 by done. injection E2 as <-.
    split; [exact Ha|]. by exists w1, None.
Qed.

Lemma with_conn_run {A} (a : LdapAuth) (failed : gerror -> A) (body : Conn -> Prog W A) w w' a' x :
  with_conn url_Host a failed body w = (w', Done (a', x)) ->
  same_settings a a' /\
  ((exists err, x = failed err) \/
   exists conn w1 w2, la_conn a' = Some conn /\ body conn w1 = (w2, Done x) /\ exists w3 err, readBind (la_readBind a) conn w2 = (w3, Done err) /\
     match err with None => w' = w3 | Some _ => exists w4, ldap_Close (Some conn) w3 = (w4, Done tt) /\ ldap_Close None w4 = (w', Done tt) end).
Proof.
  unfold with_conn. intros E. apply prog_bind_Done in E as (w1 & [a1 r] & E1 & E). destruct (getConn_settings _ _ _ _ _ E1) as [Hs Hc].
  destruct r as [conn|err]; [|injection E as <- <- <-; split; [done|]; left; by exists err].
  apply prog_bind_Done in E as (w2 & x1 & Eb & E). apply prog_bind_Done in E as (w3 & a2 & Er & E). injection E as <- <- <-.
  destruct (returnConn_run _ _ _ _ _ (Hc _ eq_refl) Er) as (-> & w4 & err & Er1 & Er2). split; [done|]. right.
  exists conn, w1, w2. split; [by apply Hc|]. split; [done|]. exists w4, err. split; [|done].
  replace (la_readBind a) with (la_readBind a1); [done|]. by injection Hs.
Qed.

(** A login succeeds only when the directory accepted the password for the one entry that
    is the user's, on the connection of the module; after every operation that keeps its
    connection, the connection is bound for reading again, or Close was called on a nil
    pointer. *)
Theorem ldap_login (a : LdapAuth) username password w w' a' err : Ldap_AuthPlain url_Host a username password w = (w', Done (a', err)) ->
  same_settings a a' /\
  (err = None -> exists conn w1 w2 w3 dn, la_conn a' = Some conn /\ names a conn username dn w1 w2 /\
     ldap_Bind conn dn password w2 = (w3, Done None) /\
     (readBind (la_readBind a) conn w3 = (w', Done None) \/ exists w4, ldap_Close None w4 = (w', Done tt))).
Proof.
  intros E. unfold Ldap_AuthPlain in E. destruct (with_conn_run _ _ _ _ _ _ _ E) as [Hs H]. split; [done|]. intros ->.
  destruct H as [[e He]|(conn & w1 & w4 & Hc & Hb & w5 & e & Hr & He)]; [done|].
  apply prog_bind_Done in Hb as (w2 & r & Eu & Hb). destruct r as [[dn|]|e1]; [|by injection Hb..].
  apply prog_bind_Done in Hb as (w3 & e1 & Ebind & Hb). destruct e1; [by injection Hb|]. injection Hb as <-.
  exists conn, w1, w2, w3, dn. split; [done|]. split; [|split; [done|]].
  - unfold names. destruct (decide (la_dnTemplate a = "")) as [Ht|Ht].
    + rewrite decide_False in Eu by naive_solver. apply prog_bind_Done in Eu as (w6 & res & Es & Eu).
      destruct res as [[|dn' [|dn2 l]]|e2]; cbv [mret prog_ret] in Eu; by simplify_eq.
    + rewrite decide_True in Eu by done. by injection Eu as <- <-.
  - destruct e as [e|]; [right|left; by subst]. destruct He as (w6 & _ & Hn). eauto.
Qed.
End Login.

(** A directory of one connection whose world is who it is bound as *)
Definition dir_bind (dn password : string) : Prog string error := fun w =>
  if decide (password = "secret") then (dn, Done None) else (w, Done (Some (ENew "invalid credentials"))).
#[local] Instance dir_lib : LdapLib string := {|
  Conn := unit;
  ldap_DialURL := fun _ _ => mret (Ok tt);
  ldap_SetTimeout := fun _ _ => mret tt;
  ldap_StartTLS := fun _ _ => mret None;
  ldap_Bind := fun _ => dir_bind;
  ldap_UnauthenticatedBind := fun _ _ w => ("", Done None);
  ldap_ExternalBind := fun _ w => ("external", Done None);
  ldap_IsClosing := fun _ => mret false;
  ldap_Close := fun _ => mret tt;
  ldap_Search := fun _ _ filter => mret (Ok (if decide (filter = "(uid=bob)") then ["uid=bob,dc=org"] else []))
|}.
Definition sample_ldap : LdapAuth := mkLdapAuth ["ldap://dir"] (BindUnauth "reader") false 0 "" "dc=org" "(uid={username})" None.
Definition ldap_run (username password : string) := Ldap_AuthPlain (fun _ => Ok "dir:389") sample_ldap username password "".
Lemma ldap_login_witness :
  ldap_run "bob" "secret" = ("", Done (set_conn (Some tt) sample_ldap, None)) /\
  exists conn w1 w2 w3 dn, names sample_ldap conn "bob" dn w1 w2 /\ ldap_Bind conn dn "secret" w2 = (w3, Done None).
Proof.
  assert (E : ldap_run "bob" "secret" = ("", Done (set_conn (Some tt) sample_ldap, None))) by reflexivity.
  split; [exact E|]. destruct (ldap_login (fun _ => Ok "dir:389") sample_ldap "bob" "secret" "" "" _ None E) as [_ H].
  destruct (H eq_refl) as (conn & w1 & w2 & w3 & dn & _ & Hn & Hb & _). by exists conn, w1, w2, w3, dn.
Defined.
Example ldap_logins : map (fun p => match ldap_run p.1 p.2 with (w, Done (_, err)) => Some (w, err) | _ => None end)
  [("bob", "secret"); ("bob", "guess"); ("eve", "secret")]
  = [Some ("", None); Some ("", Some ErrUnknownCredentials); Some ("", Some ErrUnknownCredentials)].
Proof. reflexivity. Qed.
(** The text of a user name is part of the filter. *)
Example username_filter : username_in "(&(uid={username})(mail=yes))" "*)(|(uid=*" = "(&(uid=*)(|(uid=*)(mail=yes))".
Proof. reflexivity. Qed.

(** ** Dovecot *)

Section Dovecot.
Context {W : Type}.
(** *dovecotsasl.Client of go-dovecot-sasl *)
Inductive sasl_Client := PlainClient (identity username password : string) | LoginClient (username password : string).
Record DovecotClient := mkDovecotClient {
  dc_Mechs : list (string * bool);
  dc_Do : string -> sasl_Client -> Prog W error;
  dc_Close : Prog W unit
}.
(** net.Dial and NewClient over the connection *)
Context (Dial : string -> string -> Prog W (Result gerror unit)) (NewClient : Prog W (Result gerror DovecotClient)).
Context (ErrUnsupportedMech : gerror).

(** [da_mechanisms]: the names of the public mechanisms *)
Record DovecotAuth := mkDovecotAuth { da_network : string; da_addr : string; da_mechanisms : list string }.
Definition unable (err : gerror) : gerror := EErrorf ("dovecot_sasl: unable to contact server: " +:+ Error err) None.
Definition dovecot_client (network addr : string) : Prog W (Result gerror DovecotClient) :=
  conn ← Dial network addr;
  match conn with
  | Err err => mret (Err (unable err))
  | Ok _ => cl ← NewClient; mret (match cl with Err err => Err (unable err) | Ok cl => Ok cl end)
  end.
Definition dovecot_getConn (a : DovecotAuth) : Prog W (Result gerror DovecotClient) := dovecot_client (da_network a) (da_addr a).
(** Init, once the endpoint is parsed *)
Definition dovecot_Init (scheme address : string) : Prog W (Result gerror DovecotAuth) :=
  cl ← dovecot_client scheme address;
  match cl with
  | Err err => mret (Err err)
  | Ok cl =>
    let public := map fst (filter (fun mech => mech.2 = false) (dc_Mechs cl)) in
    dc_Close cl ;; mret (Ok (mkDovecotAuth scheme address public))
  end.
Definition dovecot_do (a : DovecotAuth) (failed : gerror -> gerror) (client : sasl_Client) : Prog W error :=
  cl ← dovecot_getConn a;
  match cl with
  | Err err => mret (Some (failed err))
  | Ok cl => err ← dc_Do cl "SMTP" client; dc_Close cl ;; mret err
  end.
Definition dovecot_AuthPlain (a : DovecotAuth) (username password : string) : Prog W error :=
  if decide ("PLAIN" ∈ da_mechanisms a) then dovecot_do a (fun err => WithTemporary (Some err) true) (PlainClient "" username password)
  else if decide ("LOGIN" ∈ da_mechanisms a) then dovecot_do a (fun err => err) (LoginClient username password)
  else mret (Some ErrUnsupportedMech).
End Dovecot.

(** ** PAM *)

Section Pam.
Context {W : Type}.
(** external.AuthUsingHelper; runPAMAuth of this build, which without libpam is an error *)
Context (AuthUsingHelper : string -> string -> string -> Prog W error) (runPAMAuth : string -> string -> Prog W error) (canCallDirectly : bool)
  (LibexecDirectory : string) (os_Stat : string -> error).
Record PamAuth := mkPamAuth { pa_useHelper : bool; pa_helperPath : string }.
Definition pam_Init (useHelper : bool) : Result gerror PamAuth :=
  if negb canCallDirectly && negb useHelper then Err (ENew "pam: this build lacks support for direct libpam invocation, use helper binary")
  else if useHelper then
    let helperPath := ConfigParser.Join LibexecDirectory "sirrmesh-pam-helper" in
    match os_Stat helperPath with
    | Some _ => Err (EErrorf ("pam: no helper binary (sirrmesh-pam-helper) found in " +:+ LibexecDirectory) None)
    | None => Ok (mkPamAuth true helperPath)
    end
  else Ok (mkPamAuth false "").
Definition pam_AuthPlain (a : PamAuth) (username password : string) : Prog W error :=
  err ← (if pa_useHelper a then AuthUsingHelper (pa_helperPath a) username password else mret None);
  match err with
  | Some err => mret (Some err)
  | None => runPAMAuth username password
  end.
End Pam.
(** runPAMAuth of pam_stub.go *)
Definition stub_runPAMAuth {W} (username password : string) : Prog W error := mret (Some (ENew "pam: Can't call libpam directly")).

(** In a build without libpam the helper is required, and every login it accepts fails. *)
Lemma pam_helper_is_not_enough {W} (helper : string -> string -> string -> Prog W error) a username password w w' err :
  pam_AuthPlain helper stub_runPAMAuth a username password w = (w', Done err) -> err <> None.
Proof. unfold pam_AuthPlain. intros E. apply prog_bind_Done in E as (w1 & e & _ & E). destruct e; injection E as <- <-; done. Qed.
