(* ===== verification/Authz.v ===== *)
(** * Authz: internal/authz and internal/check/authorize_sender

    Who may use which sender address: the table that maps users to addresses, the
    normalisation of both, and the check that applies it to MAIL FROM and to the
    From and Sender fields. *)
From S2P Require Import Prelude GoStr ExtErrors Address Checks Module Tables.

Local Open Scope Z_scope.

Section Authz.
Context `{UnicodeTables} `{TextLib} {W : Type}.

(** ** normalization.go *)

Notation NormalizeFunc := (string -> string * error).
Definition NormalizeNoop : NormalizeFunc := fun s => (s, None).
Definition NormalizeAuto : NormalizeFunc := fun s => if Valid s then PRECISFold s else UsernameCaseMapped s.
Definition NormalizeFuncs (name : string) : option NormalizeFunc :=
  if decide (name = "auto") then Some NormalizeAuto
  else if decide (name = "precis_casefold_email") then Some PRECISFold
  else if decide (name = "precis_casefold") then Some UsernameCaseMapped
  else if decide (name = "precis_email") then Some PRECIS
  else if decide (name = "precis") then Some UsernameCasePreserved
  else if decide (name = "casefold") then Some (fun s => (ToLower s, None))
  else if decide (name = "noop") then Some NormalizeNoop
  else None.

(** ** lookup.go *)

Definition valid_emails (mapping : Table W) (username : string) : Prog W (Result gerror (list string)) :=
  match tb_LookupMulti mapping with
  | Some multi => r ← multi username; mret (match r with Ok l => Ok l | Err e => Err (wrapf "authz" e) end)
  | None =>
    r ← tb_Lookup mapping username;
    mret (match r with Ok (Some e) => Ok [e] | Ok None => Ok [] | Err e => Err (wrapf "authz" e) end)
  end.
Fixpoint authorize (addrs validEmails : list string) : Result gerror bool :=
  match addrs with
  | [] => Ok false
  | addr :: addrs =>
    match Split addr with
    | Err e => Err (wrapf "authz" e)
    | Ok (_, domain) =>
      if existsb (fun ent => bool_decide (ent = domain) || bool_decide (ent = "*") || bool_decide (ent = addr)) validEmails
      then Ok true else authorize addrs validEmails
    end
  end.
Definition AuthorizeEmailUse (username : string) (addrs : list string) (mapping : Table W) : Prog W (Result gerror bool) :=
  r ← valid_emails mapping username;
  mret (match r with Err e => Err e | Ok validEmails => authorize addrs validEmails end).

(** ** authorize_sender.go *)

Context `{Textproto}.
Definition modName : string := "check.authorize_sender".

(** net/mail: the addresses of a list, without the display names *)
Context (ParseAddressList : string -> Result gerror (list string)) (ParseAddress : string -> Result gerror string).

Record Check := mkCheck {
  ac_checkHeader : bool;
  ac_emailPrepare : Table W;
  ac_userToEmail : Table W;
  ac_unauthAction : FailAction;
  ac_noMatchAction : FailAction;
  ac_errAction : FailAction;
  ac_fromNorm : NormalizeFunc;
  ac_authNorm : NormalizeFunc
}.
Record state := mkState { as_c : Check; as_msgMeta : MsgMetadata }.
Definition CheckStateForMsg (c : Check) (msgMeta : MsgMetadata) : state := mkState c msgMeta.

Definition refusal (code : Z) (ench : EnhancedCode) (msg : string) (err : error) : CheckResult :=
  mkCheckResult (Some (ESMTP code ench msg modName "" "" "" err ∅)) false false [] hdr_empty.
Definition no_match (c : Check) : CheckResult :=
  FailAction_Apply (ac_noMatchAction c) (refusal 553 (Ench 5 7 0) "Unauthorized use of sender address" None).
Definition internal_error (c : Check) (err : gerror) : CheckResult :=
  FailAction_Apply (ac_errAction c) (refusal 454 (Ench 4 7 0) "Internal error during policy check" (Some err)).

(** preparedEmail, ok and err *)
Definition prepare_email (t : Table W) (email : string) : Prog W (Result gerror (list string * bool)) :=
  match tb_LookupMulti t with
  | Some multi => r ← multi email; mret (match r with Ok l => Ok (l, bool_decide (0 < length l)%nat) | Err e => Err e end)
  | None =>
    r ← tb_Lookup t email;
    mret (match r with Ok (Some e) => Ok ([e], true) | Ok None => Ok ([""], false) | Err e => Err e end)
  end.

Definition authzSender (s : state) (authName email : string) : Prog W CheckResult :=
  let c := as_c s in
  if decide (authName = "") then
    mret (FailAction_Apply (ac_unauthAction c) (refusal 530 (Ench 5 7 0) "Authentication required" None))
  else match ac_fromNorm c email with
  | (_, Some err) =>
    mret (FailAction_Apply (ac_errAction c) (refusal 553 (Ench 5 1 7) "Unable to normalize sender address" (Some err)))
  | (fromEmailNorm, None) =>
    match ac_authNorm c authName with
    | (_, Some err) =>
      mret (FailAction_Apply (ac_errAction c) (refusal 535 (Ench 5 7 8) "Unable to normalize authorization username" None))
    | (authNameNorm, None) =>
      r ← prepare_email (ac_emailPrepare c) fromEmailNorm;
      match r with
      | Err err => mret (internal_error c err)
      | Ok (preparedEmail, ok) =>
        let preparedEmail := if ok : bool then preparedEmail else [fromEmailNorm] in
        r ← AuthorizeEmailUse authNameNorm preparedEmail (ac_userToEmail c);
        mret (match r with
              | Err err => internal_error c err
              | Ok false => no_match c
              | Ok true => CheckResult_zero
              end)
      end
    end
  end.

Definition CheckConnection (s : state) : Prog W CheckResult := mret CheckResult_zero.
Definition CheckSender (s : state) (fromEmail : string) : Prog W CheckResult :=
  match mm_Conn (as_msgMeta s) with
  | None => mret CheckResult_zero
  | Some conn => authzSender s (cs_AuthUser conn) fromEmail
  end.
Definition CheckRcpt (s : state) (_ : string) : Prog W CheckResult := mret CheckResult_zero.

Definition bad_header (s : state) (msg : string) (err : error) : Prog W CheckResult :=
  mret (FailAction_Apply (ac_errAction (as_c s)) (refusal 550 (Ench 5 7 0) msg err)).

Definition CheckBody (s : state) (hdr : header) : Prog W CheckResult :=
  if negb (ac_checkHeader (as_c s)) then mret CheckResult_zero
  else match mm_Conn (as_msgMeta s) with
  | None => mret CheckResult_zero
  | Some conn =>
    let authName := cs_AuthUser conn in
    let fromHdr := hdr_Get hdr "From" in
    if decide (fromHdr = "") then bad_header s "Missing From header" None
    else match ParseAddressList fromHdr with
    | Err e => bad_header s "Malformed From header" (Some e)
    | Ok [] => bad_header s "Malformed From header" None
    | Ok (_ :: _ :: _) => bad_header s "Multiple From addresses are not allowed" None
    | Ok [fromEmail] =>
      let senderHdr := hdr_Get hdr "Sender" in
      match (if decide (senderHdr = "") then Ok "" else ParseAddress senderHdr) with
      | Err e => bad_header s "Malformed Sender header" (Some e)
      | Ok senderAddr =>
        res ← authzSender s authName fromEmail;
        match cr_Reason res with
        | None => mret res
        | Some _ =>
          if bool_decide (senderAddr <> "") && bool_decide (senderAddr <> fromEmail) then
            res ← authzSender s authName senderAddr;
            mret (match cr_Reason res with None => res | Some _ => no_match (as_c s) end)
          else mret (no_match (as_c s))
        end
      end
    end
  end.

(** ** What the check accepts *)

(** An entry of user_to_email stands for one address, for a whole domain or for all. *)
Definition permits (ent addr : string) : Prop := ent = "*" \/ ent = addr \/ exists mbox, Split addr = Ok (mbox, ent).
Definition splits (addr : string) : Prop := exists p, Split addr = Ok p.

Lemma authorize_true addrs ents :
  authorize addrs ents = Ok true <->
  exists l addr l' ent, addrs = l ++ addr :: l' /\ ent ∈ ents /\ permits ent addr /\ splits addr /\ Forall splits l.
Proof.
  induction addrs as [|a addrs IH]; simpl.
  - split; [done|]. intros (l & addr & l' & ent & E & _). by destruct l.
  - destruct (Split a) as [[mbox domain]|e] eqn:Hs.
    2:{ split; [done|]. intros (l & addr & l' & ent & E & _ & _ & (p & Hp) & Hall).
        destruct l as [|b l]; simplify_eq/=; [congruence|]. inversion Hall as [|?? (q & Hq)]; congruence. }
    destruct (existsb _ ents) eqn:Hex.
    + split; [intros _|done]. apply existsb_exists in Hex as (ent & Hin%list_elem_of_In & He).
      exists [], a, addrs, ent. split; [done|]. split; [done|]. split; [|split; [by exists (mbox, domain)|done]].
      rewrite !orb_true_iff, !bool_decide_eq_true in He. unfold permits. rewrite Hs. naive_solver.
    + rewrite IH. split.
      * intros (l & addr & l' & ent & -> & Hin & Hp & Hsp & Hall).
        exists (a :: l), addr, l', ent. split_and!; try done. constructor; [by exists (mbox, domain)|done].
      * intros (l & addr & l' & ent & E & Hin & Hp & Hsp & Hall). destruct l as [|b l]; simplify_eq/=.
        -- exfalso. rewrite <-not_true_iff_false in Hex. apply Hex, existsb_exists.
           exists ent. split; [by apply list_elem_of_In|]. rewrite !orb_true_iff, !bool_decide_eq_true.
           unfold permits in Hp. rewrite Hs in Hp. naive_solver.
        -- inversion Hall; subst. by exists l, addr, l', ent.
Qed.

(** The addresses an address stands for, when the table prepare_email answers [f]. *)
Definition prepared (f : string -> list string) (email : string) : list string :=
  match f email with [] => [email] | l => l end.

Lemma prepare_email_pure t f email w :
  pure_table t f ->
  exists l ok, prepare_email t email w = (w, Done (Ok (l, ok))) /\ (if ok : bool then l else [email]) = prepared f email.
Proof.
  intros Hp. specialize (Hp email w). unfold step_lookup in Hp. unfold prepare_email, prepared.
  destruct (tb_LookupMulti t) as [multi|].
  - rewrite (prog_bind_eq _ _ _ _ _ Hp). do 2 eexists. split; [reflexivity|]. by destruct (f email).
  - apply prog_bind_Done in Hp as (w1 & r & E & Hp). rewrite (prog_bind_eq _ _ _ _ _ E). cbv [mret prog_ret] in *.
    injection Hp as -> Hp. destruct r as [[v|]|]; [injection Hp as <-..|done]; eauto.
Qed.
Lemma valid_emails_pure t f user w : pure_table t f -> valid_emails t user w = (w, Done (Ok (f user))).
Proof.
  intros Hp. specialize (Hp user w). unfold step_lookup in Hp. unfold valid_emails.
  destruct (tb_LookupMulti t) as [multi|]; [by rewrite (prog_bind_eq _ _ _ _ _ Hp)|].
  apply prog_bind_Done in Hp as (w1 & r & E & Hp). rewrite (prog_bind_eq _ _ _ _ _ E). cbv [mret prog_ret] in *.
  injection Hp as -> Hp. destruct r as [[v|]|]; [injection Hp as <-..|done]; done.
Qed.
Section Verdict.
Context (s : state) (prep owns : string -> list string).
Notation c := (as_c s).
Context (Hprep : pure_table (ac_emailPrepare c) prep) (Howns : pure_table (ac_userToEmail c) owns).

(** The user may use the address: one of the addresses it stands for is permitted by
    an entry of the user, and those before it are addresses. *)
Definition authorised (user email : string) : Prop :=
  user <> "" /\ exists n u l a l' ent,
    ac_fromNorm c email = (n, None) /\ ac_authNorm c user = (u, None) /\
    prepared prep n = l ++ a :: l' /\ ent ∈ owns u /\ permits ent a /\ splits a /\ Forall splits l.

(** A refusal has a reason; it is a rejection when the actions are. *)
Definition refused (res : CheckResult) : Prop :=
  cr_Reason res <> None /\
  (fa_Reject (ac_unauthAction c) = true -> fa_Reject (ac_noMatchAction c) = true -> fa_Reject (ac_errAction c) = true ->
   cr_Reject res = true).
Lemma refused_apply fa code ench msg err :
  fa = ac_unauthAction c \/ fa = ac_noMatchAction c \/ fa = ac_errAction c -> refused (FailAction_Apply fa (refusal code ench msg err)).
Proof.
  unfold refused, FailAction_Apply, refusal; simpl. intros Hfa. split; [by destruct (fa_ReasonOverride fa)|].
  intros. destruct Hfa as [->|[->| ->]]; by rewrite orb_false_r.
Qed.

Lemma authzSender_verdict user email w :
  exists res, authzSender s user email w = (w, Done res) /\
    (res = CheckResult_zero /\ authorised user email \/ refused res /\ ~ authorised user email).
Proof.
  unfold authzSender. destruct (decide (user = "")) as [->|Hu].
  { eexists. split; [reflexivity|]. right. split; [by auto using refused_apply|]. by intros [? _]. }
  destruct (ac_fromNorm c email) as [n [err|]] eqn:Hn.
  { eexists. split; [reflexivity|]. right. split; [by auto using refused_apply|]. intros (_ & ? & ? & ? & ? & ? & ? & ? & _). congruence. }
  destruct (ac_authNorm c user) as [u [err|]] eqn:Hun.
  { eexists. split; [reflexivity|]. right. split; [by auto using refused_apply|]. intros (_ & ? & ? & ? & ? & ? & ? & _ & ? & _). congruence. }
  destruct (prepare_email_pure _ _ n w Hprep) as (l & ok & E & Hl). rewrite (prog_bind_eq _ _ _ _ _ E).
  unfold AuthorizeEmailUse. rewrite Hl. unfold mbind, prog_bind. rewrite (valid_emails_pure _ _ u w Howns). simpl.
  assert (authorised user email <-> authorize (prepared prep n) (owns u) = Ok true) as Ha.
  { rewrite authorize_true. unfold authorised. rewrite Hn, Hun. naive_solver. }
  eexists. split; [reflexivity|]. rewrite Ha.
  destruct (authorize _ _) as [[]|err]; [by left|right..]; (split; [|done]); apply refused_apply; auto.
Qed.

(** The address of the Sender field, empty when there is none. *)
Definition sender_of (hdr : header) : Result gerror string :=
  if decide (hdr_Get hdr "Sender" = "") then Ok "" else ParseAddress (hdr_Get hdr "Sender").
(** One address in From, and it or the Sender is the user's. *)
Definition permitted (user : string) (hdr : header) : Prop :=
  exists from sender, hdr_Get hdr "From" <> "" /\ ParseAddressList (hdr_Get hdr "From") = Ok [from] /\
    sender_of hdr = Ok sender /\ (authorised user from \/ sender <> "" /\ authorised user sender).

Lemma CheckBody_verdict conn hdr w :
  ac_checkHeader c = true -> mm_Conn (as_msgMeta s) = Some conn ->
  exists res, CheckBody s hdr w = (w, Done res) /\
    (res = CheckResult_zero /\ permitted (cs_AuthUser conn) hdr \/ refused res /\ ~ permitted (cs_AuthUser conn) hdr).
Proof.
  intros Hc Hconn. unfold CheckBody. rewrite Hc, Hconn. cbn [negb].
  assert (forall msg err, ~ permitted (cs_AuthUser conn) hdr -> exists res, bad_header s msg err w = (w, Done res) /\
    (res = CheckResult_zero /\ permitted (cs_AuthUser conn) hdr \/ refused res /\ ~ permitted (cs_AuthUser conn) hdr)) as Hbad.
  { intros msg err Hno. eexists. split; [reflexivity|]. right. split; [|done]. by auto using refused_apply. }
  destruct (decide (hdr_Get hdr "From" = "")) as [Hf|Hf]; [apply Hbad; by intros (? & ? & ? & _)|].
  destruct (ParseAddressList _) as [[|from [|]]|e] eqn:Hl; [apply Hbad; intros (? & ? & _ & ? & _); congruence| |apply Hbad; intros (? & ? & _ & ? & _); congruence..].
  fold (sender_of hdr). destruct (sender_of hdr) as [sender|e] eqn:Hs; [|apply Hbad; intros (? & ? & _ & _ & ? & _); congruence].
  assert (permitted (cs_AuthUser conn) hdr <-> authorised (cs_AuthUser conn) from \/ sender <> "" /\ authorised (cs_AuthUser conn) sender) as Hp.
  { unfold permitted. rewrite Hl, Hs. naive_solver. }
  setoid_rewrite Hp. clear Hbad Hp. destruct (authzSender_verdict (cs_AuthUser conn) from w) as (res & E & Hv).
  rewrite (prog_bind_eq _ _ _ _ _ E). destruct Hv as [[-> Ha]|[[Hr _] Ha]].
  { eexists. split; [reflexivity|]. by auto. }
  destruct (cr_Reason res); [|done].
  destruct (bool_decide (sender <> "") && bool_decide (sender <> from)) eqn:Hb.
  - apply andb_true_iff in Hb as [Hb1%bool_decide_eq_true _].
    destruct (authzSender_verdict (cs_AuthUser conn) sender w) as (res' & E' & Hv).
    rewrite (prog_bind_eq _ _ _ _ _ E'). eexists. split; [reflexivity|]. destruct Hv as [[-> Ha']|[[Hr' _] Ha']]; [by auto|].
    destruct (cr_Reason res'); [|done]. right. split; [apply refused_apply; auto|naive_solver].
  - eexists. split; [reflexivity|]. right. split; [apply refused_apply; auto|].
    apply andb_false_iff in Hb as [Hb%bool_decide_eq_false|Hb%bool_decide_eq_false]; [naive_solver|].
    destruct (decide (sender = from)) as [->|]; naive_solver.
Qed.

(** C35: authorize_sender lets a user send under his own addresses only.  For a message
    with a connection, and tables that answer, CheckSender passes exactly the sender
    addresses the user is authorised for, and CheckBody exactly the messages with one
    From address such that it or the Sender address is the user's; everything else,
    a missing user name and addresses that cannot be normalised or parsed included,
    gets a reason, and is rejected when the three actions reject. *)
Theorem authorize_sender_spec conn email hdr w :
  ac_checkHeader c = true -> mm_Conn (as_msgMeta s) = Some conn ->
  exists rs rb, CheckSender s email w = (w, Done rs) /\ CheckBody s hdr w = (w, Done rb) /\
    (cr_Reason rs = None <-> authorised (cs_AuthUser conn) email) /\
    (cr_Reason rb = None <-> permitted (cs_AuthUser conn) hdr) /\
    forall res, res = rs \/ res = rb -> res = CheckResult_zero \/ refused res.
Proof.
  intros Hc Hconn. destruct (CheckBody_verdict conn hdr w Hc Hconn) as (rb & Eb & Hb).
  destruct (authzSender_verdict (cs_AuthUser conn) email w) as (rs & Es & Hs).
  exists rs, rb. unfold CheckSender. rewrite Hconn. split_and!; [done|done|..].
  - destruct Hs as [[-> ?]|[[? _] ?]]; naive_solver.
  - destruct Hb as [[-> ?]|[[? _] ?]]; naive_solver.
  - intros res [-> | ->]; [destruct Hs as [[? _]|[? _]]|destruct Hb as [[? _]|[? _]]]; auto.
Qed.
End Verdict.
End Authz.

(** ** A user and her addresses *)

#[local] Existing Instance ascii_tables.
#[local] Existing Instance pair_textproto.

Definition reject_action : FailAction := mkFailAction false true None.
Definition sample_owns (user : string) : list string := if decide (user = "alice") then ["example.org"; "alice@example.net"] else [].
Definition sample_check : Check (W := unit) :=
  mkCheck true identity_table (mkTable (fun u => mret (Ok (head (sample_owns u)))) (Some (fun u => mret (Ok (sample_owns u)))))
    reject_action reject_action reject_action (fun s => (s, None)) (fun s => (s, None)).
Definition sample_conn : ConnState := mkConnState "ESMTP" "client" None "alice" "".
Definition sample_state : state (W := unit) :=
  mkState sample_check (set_Conn (Some sample_conn) (mkMsgMetadata "id" "" false false ∅ (mkMailOptions 0 false false) None false)).
Definition sample_list (s : string) : Result gerror (list string) := Ok [s].

Lemma authorize_sender_spec_witness :
  exists rs rb,
    CheckSender sample_state "bob@example.com" tt = (tt, Done rs) /\
    CheckBody sample_list Ok sample_state [("From", "root@example.org"); ("Sender", "alice@example.net")] tt = (tt, Done rb) /\
    (cr_Reason rs = None <-> authorised sample_state (fun e => [e]) sample_owns "alice" "bob@example.com") /\
    (cr_Reason rb = None <-> permitted sample_list Ok sample_state (fun e => [e]) sample_owns "alice"
       [("From", "root@example.org"); ("Sender", "alice@example.net")]) /\
    forall res, res = rs \/ res = rb -> res = CheckResult_zero \/ refused sample_state res.
Proof.
  apply (authorize_sender_spec sample_list Ok sample_state (fun e => [e]) sample_owns) with (conn := sample_conn).
  - intros key []. reflexivity.
  - intros key []. reflexivity.
  - reflexivity.
  - reflexivity.
Defined.

(** It passes the message above, and refuses one from another domain. *)
Example alice_may_use_her_domain :
  (CheckBody sample_list Ok sample_state [("From", "root@example.org")] tt).2 = Done CheckResult_zero.
Proof. vm_compute. reflexivity. Qed.
Example alice_may_not_use_another :
  match (CheckBody sample_list Ok sample_state [("From", "root@example.com")] tt).2 with
  | Done r => cr_Reject r | Panicked _ => false end = true.
Proof. vm_compute. reflexivity. Qed.

(** A temporary error of a table is a permanent refusal by the time CheckBody returns
    it: the result of authzSender is replaced by that of no_match_action. *)
Definition broken_check : Check (W := unit) :=
  mkCheck true identity_table (mkTable (fun _ => mret (Err EDeadline)) None)
    reject_action reject_action reject_action (fun s => (s, None)) (fun s => (s, None)).
Example table_error_is_permanent :
  let s := mkState broken_check (as_msgMeta sample_state) in
  match (CheckBody sample_list Ok s [("From", "root@example.org")] tt).2,
        (CheckSender s "root@example.org" tt).2 with
  | Done b, Done m => (IsTemporary (cr_Reason b), IsTemporary (cr_Reason m))
  | _, _ => (true, true) end = (false, true).
Proof. vm_compute. reflexivity. Qed.
