(* ===== verification/Sasl.v ===== *)
(** * Sasl: internal/auth

    The SASL front end (sasl.go, sasllogin), the domain test of auth.go and the
    providers that ask other services: plain_separate, netauth and external.  A
    provider is what its AuthPlain does; the PLAIN server of go-sasl calls the
    function it is given with the three parts of the response. *)
From S2P Require Import Prelude GoStr ExtErrors Address Config Tables Authz PassTable.
From Stdlib Require Import Ascii.

Section Sasl.
Context `{UnicodeTables} {W : Type}.

Notation NormalizeFunc := (string -> string * error).
Notation PlainAuth := (string -> string -> Prog W error).

Definition newline : string := String (ascii_of_nat 10) "".
Definition ErrUnsupportedMech : gerror := ENew "Unsupported SASL mechanism".
Definition ErrInvalidAuthCred : gerror := ENew "auth: invalid credentials".

(** ** sasl.go *)

Record SASLAuth := mkSASLAuth {
  sa_EnableLogin : bool;
  sa_AuthMap : option (Table W);
  sa_AuthNormalize : option NormalizeFunc;
  sa_Plain : list PlainAuth
}.
Context (s : SASLAuth).

Definition SASLMechanisms : list string :=
  match sa_Plain s with [] => [] | _ => "PLAIN" :: (if sa_EnableLogin s then ["LOGIN"] else []) end.

Definition usernameForAuth (saslUsername : string) : Prog W (Result gerror string) :=
  match (match sa_AuthNormalize s with Some norm => norm saslUsername | None => (saslUsername, None) end) with
  | (_, Some err) => mret (Err err)
  | (saslUsername, None) =>
    match sa_AuthMap s with
    | None => mret (Ok saslUsername)
    | Some m =>
      r ← tb_Lookup m saslUsername;
      mret (match r with Err err => Err err | Ok None => Err ErrInvalidAuthCred | Ok (Some mapped) => Ok mapped end)
    end
  end.

Fixpoint try_providers (l : list PlainAuth) (lastErr : error) (username password : string) : Prog W error :=
  match l with
  | [] => mret (Some (match lastErr with
                      | Some e => wrapf "no auth. provider accepted creds, last err" e
                      | None => EErrorf "no auth. provider accepted creds, last err: %!w(<nil>)" None
                      end))
  | p :: l =>
    r ← usernameForAuth username;
    match r with
    | Err err => mret (Some err)
    | Ok mappedUsername =>
      lastErr ← p mappedUsername password;
      match lastErr with None => mret None | Some _ => try_providers l lastErr username password end
    end
  end.
Definition SASL_AuthPlain (username password : string) : Prog W error :=
  match sa_Plain s with [] => mret (Some ErrUnsupportedMech) | l => try_providers l None username password end.

Record ContextData := mkContextData { cd_Username : string; cd_Password : string }.
Context (successCb : string -> ContextData -> Prog W error).

(** The function given to the PLAIN server *)
Definition plain_authenticate (identity username password : string) : Prog W error :=
  let identity := if decide (identity = "") then username else identity in
  if decide (identity <> username) then mret (Some ErrInvalidAuthCred)
  else
    err ← SASL_AuthPlain username password;
    match err with
    | Some _ => mret (Some ErrInvalidAuthCred)
    | None => successCb identity (mkContextData username password)
    end.
(** The function given to the LOGIN server *)
Definition login_authenticate (username password : string) : Prog W error :=
  r ← usernameForAuth username;
  match r with
  | Err err => mret (Some err)
  | Ok username =>
    err ← SASL_AuthPlain username password;
    match err with
    | Some _ => mret (Some ErrInvalidAuthCred)
    | None => successCb username (mkContextData username password)
    end
  end.

(** ** sasllogin *)

Inductive loginState := loginNotStarted | loginWaitingUsername | loginWaitingPassword | loginEnded.
Record loginServer := mkLoginServer {
  lo_state : loginState;
  lo_username : string;
  lo_password : string;
  lo_authenticate : string -> string -> Prog W error
}.
Definition NewLoginServer (authenticator : string -> string -> Prog W error) : loginServer :=
  mkLoginServer loginNotStarted "" "" authenticator.
Definition ErrUnexpectedClientResponse : gerror := ENew "sasl: unexpected client response".

(** [response] is [None] for a nil slice; the result is challenge, done and err. *)
Definition login_Next (a : loginServer) (response : option string)
  : Prog W (loginServer * (option string * bool * error)) :=
  let text := default "" response in
  let ask_password := mret (mkLoginServer loginWaitingPassword text (lo_password a) (lo_authenticate a), (Some "Password:", false, None)) in
  match lo_state a, response with
  | loginNotStarted, None =>
    mret (mkLoginServer loginWaitingUsername (lo_username a) (lo_password a) (lo_authenticate a), (Some "Username:", false, None))
  | loginNotStarted, Some _ | loginWaitingUsername, _ => ask_password
  | loginWaitingPassword, _ =>
    err ← lo_authenticate a (lo_username a) text;
    mret (mkLoginServer loginEnded (lo_username a) text (lo_authenticate a), (None, true, err))
  | loginEnded, _ => mret (a, (None, false, Some ErrUnexpectedClientResponse))
  end.

(** ** CreateSASL *)

Inductive sasl_Server :=
| PlainServer (authenticate : string -> string -> string -> Prog W error)
| LoginServer (a : loginServer)
| FailingSASLServ (err : gerror).
Definition CreateSASL (mech : string) : sasl_Server :=
  if decide (mech = "PLAIN") then PlainServer plain_authenticate
  else if decide (mech = "LOGIN") then
    if negb (sa_EnableLogin s) then FailingSASLServ ErrUnsupportedMech else LoginServer (NewLoginServer login_authenticate)
  else FailingSASLServ ErrUnsupportedMech.
End Sasl.
Arguments mkSASLAuth {_} _ _ _ _.

Section Providers.
Context `{UnicodeTables} {W : Type}.
Notation PlainAuth := (string -> string -> Prog W error).

(** [any] is the module the directive names: its PlainAuth side, where it has one. *)
Definition AddProvider (s : SASLAuth (W := W)) (node : Node) (any : Result gerror (option PlainAuth)) : Result gerror SASLAuth :=
  match any with
  | Err e => Err e
  | Ok (Some plainAuth) => Ok (mkSASLAuth (sa_EnableLogin s) (sa_AuthMap s) (sa_AuthNormalize s) (sa_Plain s ++ [plainAuth]))
  | Ok None => Err (NodeErr node "auth: specified module does not provide any SASL mechanism")
  end.

(** ** plain_separate *)

Record PlainSeparate := mkPlainSeparate { ps_userTbls : list (Table W); ps_passwd : list PlainAuth }.
Context (a : PlainSeparate).

Fixpoint find_user (tbls : list (Table W)) (username : string) : Prog W (Result gerror bool) :=
  match tbls with
  | [] => mret (Ok false)
  | tbl :: tbls =>
    r ← tb_Lookup tbl username;
    match r with
    | Err e => mret (Err e)
    | Ok (Some _) => mret (Ok true)
    | Ok None => find_user tbls username
    end
  end.
Definition user_known (username : string) : Prog W (Result gerror bool) :=
  match ps_userTbls a with [] => mret (Ok true) | tbls => find_user tbls username end.
Definition PlainSeparate_Lookup (username : string) : Prog W (Result gerror (option string)) :=
  r ← user_known username;
  mret (match r with
        | Err e => Err (wrapf "plain_separate: underlying table error" e)
        | Ok ok => Ok (if ok : bool then Some "" else None)
        end).
Fixpoint try_passwd (l : list PlainAuth) (lastErr : error) (username password : string) : Prog W error :=
  match l with
  | [] => mret lastErr
  | p :: l =>
    err ← p username password;
    match err with Some err => try_passwd l (Some err) username password | None => mret None end
  end.
Definition PlainSeparate_AuthPlain (username password : string) : Prog W error :=
  r ← user_known username;
  match r with
  | Err e => mret (Some e)
  | Ok false => mret (Some (ENew "user not found in tables"))
  | Ok true => try_passwd (ps_passwd a) None username password
  end.
Definition PlainSeparate_user (tbl : Result gerror (Table W)) : Result gerror PlainSeparate :=
  match tbl with Err e => Err e | Ok tbl => Ok (mkPlainSeparate (ps_userTbls a ++ [tbl]) (ps_passwd a)) end.
Definition PlainSeparate_pass (auth : Result gerror PlainAuth) : Result gerror PlainSeparate :=
  match auth with Err e => Err e | Ok auth => Ok (mkPlainSeparate (ps_userTbls a) (ps_passwd a ++ [auth])) end.
End Providers.

(** ** auth.go *)

Section Domains.
Context `{UnicodeTables}.

(** [allowedDomains] is [None] for a nil slice. *)
Definition domain_allowed (domain : string) (allowedDomains : option (list string)) : bool :=
  match allowedDomains with
  | Some l => if decide (domain = "") then true else existsb (fun d => EqualFold domain d) l
  | None => bool_decide (domain = "")
  end.
Definition CheckDomainAuth (username : string) (perDomain : bool) (allowedDomains : option (list string)) : string * bool :=
  let parts := SplitByte username at_sign in
  let check (accountName domain : string) :=
    let allowed := domain_allowed domain allowedDomains in
    match allowedDomains with
    | Some _ => if allowed then (accountName, true) else ("", false)
    | None => (accountName, allowed)
    end in
  if perDomain then
    match parts with [_; domain] => check username domain | _ => ("", false) end
  else
    match parts with
    | [accountName; domain] => check accountName domain
    | _ => check (default "" (head parts)) ""
    end.

(** ** external and netauth: os/exec and the client are parameters. *)

Context {W : Type}.

(** What Wait of a started command reports *)
Inductive exit_status := Exited | ExitError (code : Z) (err : gerror) (stderr : string) | WaitError (err : gerror).
Record Command := mkCommand {
  xc_StdinPipe : Prog W error;
  xc_Start : Prog W error;
  xc_WriteString : string -> Prog W error;
  xc_Wait : Prog W exit_status
}.
Context (exec_Command : string -> Command).

Definition AuthUsingHelper (binaryPath accountName password : string) : Prog W error :=
  let cmd := exec_Command binaryPath in
  let write_failed err := mret (Some (wrapf "helperauth: stdin write" err)) in
  r ← xc_StdinPipe cmd;
  match r with
  | Some err => mret (Some (wrapf "helperauth: stdin init" err))
  | None =>
    r ← xc_Start cmd;
    match r with
    | Some err => mret (Some (wrapf "helperauth: process start" err))
    | None =>
      r ← xc_WriteString cmd (accountName +:+ newline);
      match r with
      | Some err => write_failed err
      | None =>
        r ← xc_WriteString cmd (password +:+ newline);
        match r with
        | Some err => write_failed err
        | None =>
          st ← xc_Wait cmd;
          mret (match st with
                | Exited => None
                | ExitError code err stderr =>
                  if Z.eqb code 1 then Some ErrUnknownCredentials
                  else Some (EErrorf ("helperauth: " +:+ Error err +:+ ": " +:+ stderr) (Some err))
                | WaitError err => Some (wrapf "helperauth: process wait" err)
                end)
        end
      end
    end
  end.
Record ExternalAuth := mkExternalAuth { ea_helperPath : string; ea_perDomain : bool; ea_domains : option (list string) }.
Definition External_AuthPlain (ea : ExternalAuth) (username password : string) : Prog W error :=
  match CheckDomainAuth username (ea_perDomain ea) (ea_domains ea) with
  | (_, false) => mret (Some ErrUnknownCredentials)
  | (accountName, true) => AuthUsingHelper (ea_helperPath ea) accountName password
  end.

Record NetAuthClient := mkNetAuthClient {
  na_EntityInfo : string -> Prog W (Result gerror string);
  na_AuthEntity : string -> string -> Prog W error;
  na_EntityGroups : string -> Prog W (Result gerror (list string))
}.
Context (nacl : NetAuthClient) (mustGroup : string).
Definition checkMustGroup (username : string) : Prog W error :=
  groups ← na_EntityGroups nacl username;
  mret (match groups with
        | Err err => Some (wrapf "auth.netauth: groups" err)
        | Ok groups =>
          if existsb (fun g => bool_decide (g = mustGroup)) groups then None
          else Some (EErrorf ("auth.netauth: missing required group (" +:+ username +:+ " not in " +:+ mustGroup +:+ ")") None)
        end).
Definition NetAuth_Lookup (username : string) : Prog W (Result gerror (option string)) :=
  e ← na_EntityInfo nacl username;
  match e with
  | Err err => mret (Err (wrapf "auth.netauth: search" err))
  | Ok id =>
    if decide (mustGroup <> "") then
      err ← checkMustGroup username;
      mret (match err with Some err => Err err | None => Ok (Some id) end)
    else mret (Ok (Some id))
  end.
Definition NetAuth_AuthPlain (username password : string) : Prog W error :=
  err ← na_AuthEntity nacl username password;
  match err with
  | Some _ => mret (Some ErrUnknownCredentials)
  | None => if decide (mustGroup <> "") then checkMustGroup username else mret None
  end.
End Domains.

(** ** What a successful login means *)

Section Success.
Context `{UnicodeTables} {W : Type} (s : SASLAuth (W := W)) (successCb : string -> ContextData -> Prog W error).

(** A provider accepted the password for the mapped name. *)
Definition accepted (user pass : string) (w w' : W) : Prop :=
  exists p mapped w1, p ∈ sa_Plain s /\ usernameForAuth s user w = (w1, Done (Ok mapped)) /\ p mapped pass w1 = (w', Done None).

Lemma try_providers_success l lastErr user pass w w' :
  try_providers s l lastErr user pass w = (w', Done None) ->
  exists p mapped w0 w1, p ∈ l /\ usernameForAuth s user w0 = (w1, Done (Ok mapped)) /\ p mapped pass w1 = (w', Done None).
Proof.
  revert lastErr w. induction l as [|p l IH]; intros lastErr w E; [done|]. cbn [try_providers] in E.
  apply prog_bind_Done in E as (w1 & r & Er & E). destruct r as [mapped|]; [|done].
  apply prog_bind_Done in E as (w2 & [err|] & Ep & E).
  - destruct (IH _ _ E) as (q & m & w3 & w4 & Hin & ?). exists q, m, w3, w4. split; [by right|done].
  - cbv [mret prog_ret] in E. simplify_eq. exists p, mapped, w, w1. split; [by left|done].
Qed.
Lemma AuthPlain_success user pass w w' :
  SASL_AuthPlain s user pass w = (w', Done None) -> exists w0, accepted user pass w0 w'.
Proof.
  unfold SASL_AuthPlain. destruct (sa_Plain s) eqn:Hp; [done|]. rewrite <- Hp. intros E.
  destruct (try_providers_success _ _ _ _ _ _ E) as (q & m & w0 & w1 & ?). exists w0, q, m, w1. naive_solver.
Qed.

(** The successive calls of Next *)
Fixpoint login_run (a : loginServer (W := W)) (responses : list (option string)) : Prog W (list (option string * bool * error)) :=
  match responses with
  | [] => mret []
  | r :: responses => '(a, out) ← login_Next a r; outs ← login_run a responses; mret (out :: outs)
  end.
Definition succeeded (outs : list (option string * bool * error)) : Prop := exists challenge, (challenge, true, None) ∈ outs.

Lemma login_ended a responses w :
  lo_state a = loginEnded -> exists outs, login_run a responses w = (w, Done outs) /\ ~ succeeded outs.
Proof.
  intros Ha. induction responses as [|r rs IH]; [exists []; split; [done|by intros (? & ?%elem_of_nil)]|].
  destruct IH as (outs & E & Hno). cbn [login_run]. unfold login_Next. rewrite Ha. cbv [mbind prog_bind mret prog_ret] in *.
  rewrite E. eexists. split; [reflexivity|]. intros (c & Hc). apply elem_of_cons in Hc as [Hc|Hc]; [done|]. apply Hno. by exists c.
Qed.
Lemma login_asked a responses w w' outs :
  lo_state a = loginWaitingPassword -> login_run a responses w = (w', Done outs) -> succeeded outs ->
  exists p rest, responses = p :: rest /\ lo_authenticate a (lo_username a) (default "" p) w = (w', Done None).
Proof.
  intros Ha E Hs. destruct responses as [|p rest]; [cbv in E; simplify_eq; destruct Hs as (? & []%elem_of_nil)|].
  exists p, rest. split; [done|]. cbn [login_run] in E. unfold login_Next in E. rewrite Ha in E.
  apply prog_bind_Done in E as (w1 & [a' out] & E1 & E). apply prog_bind_Done in E1 as (w2 & err & Ea & E1).
  cbv [mret prog_ret] in E1. injection E1 as -> <- <-. apply prog_bind_Done in E as (w3 & outs' & E & Eo).
  cbv [mret prog_ret] in Eo. injection Eo as -> <-. destruct Hs as (c & Hc).
  match type of E with login_run ?a _ _ = _ => destruct (login_ended a rest w1) as (outs2 & E2 & Hno); [done|] end.
  rewrite E2 in E. simplify_eq. apply elem_of_cons in Hc as [Hc|Hc]; [by simplify_eq|]. destruct Hno. by exists c.
Qed.
Lemma login_named a a' u responses w w' outs :
  login_Next a u w = (w, Done (a', (Some "Password:", false, None))) ->
  lo_state a' = loginWaitingPassword ->
  login_run a (u :: responses) w = (w', Done outs) -> succeeded outs ->
  exists p rest, responses = p :: rest /\ lo_authenticate a' (lo_username a') (default "" p) w = (w', Done None).
Proof.
  intros En Ha E (c & Hc). cbn [login_run] in E. rewrite (prog_bind_eq _ _ _ _ _ En) in E.
  apply prog_bind_Done in E as (w1 & outs' & E & Eo). cbv [mret prog_ret] in Eo. injection Eo as -> <-.
  apply elem_of_cons in Hc as [Hc|Hc]; [done|]. apply (login_asked _ _ _ _ _ Ha E). by exists c.
Qed.
Lemma login_success auth responses w w' outs :
  login_run (NewLoginServer auth) responses w = (w', Done outs) -> succeeded outs ->
  exists u p rest, (responses = u :: p :: rest /\ u <> None \/ responses = None :: u :: p :: rest) /\
    auth (default "" u) (default "" p) w = (w', Done None).
Proof.
  intros E Hs. destruct responses as [|[u|] rs].
  - cbv in E. simplify_eq. destruct Hs as (? & []%elem_of_nil).
  - edestruct (login_named (NewLoginServer auth) (mkLoginServer loginWaitingPassword u "" auth) (Some u) rs w w' outs) as (p & rest & -> & Ha); [reflexivity|done..|].
    exists (Some u), p, rest. by auto.
  - cbn [login_run] in E. apply prog_bind_Done in E as (w1 & [a' out] & E1 & E). cbv in E1. injection E1 as -> <- <-.
    apply prog_bind_Done in E as (w2 & outs' & E & Eo). cbv [mret prog_ret] in Eo. injection Eo as -> <-.
    destruct Hs as (c & Hc). apply elem_of_cons in Hc as [Hc|Hc]; [done|].
    destruct rs as [|u rs]; [cbv in E; simplify_eq; by apply elem_of_nil in Hc|].
    edestruct (login_named (mkLoginServer loginWaitingUsername "" "" auth) (mkLoginServer loginWaitingPassword (default "" u) "" auth) u rs w1 w' outs')
      as (p & rest & -> & Ha); [reflexivity|done|done|by exists c|].
    exists u, p, rest. by auto.
Qed.

(** C24: nobody logs in without a provider.  When a PLAIN exchange succeeds, the
    identity is empty or the user name, a provider has accepted the password for the
    name that auth_map gives, and the callback has accepted the user.  When a LOGIN
    exchange reports success, whatever the client sent, its first two responses (after
    an empty one) were the name and the password, the provider accepted the password
    for the name mapped twice, and the callback accepted the name mapped once. *)
Theorem sasl_success mech :
  (forall auth identity user pass w w',
     CreateSASL s successCb mech = PlainServer auth -> auth identity user pass w = (w', Done None) ->
     (identity = "" \/ identity = user) /\
     exists w0 w1, accepted user pass w0 w1 /\ successCb user (mkContextData user pass) w1 = (w', Done None)) /\
  (forall a responses outs w w',
     CreateSASL s successCb mech = LoginServer a -> login_run a responses w = (w', Done outs) -> succeeded outs ->
     exists u p rest mapped w0 w1 w2, (responses = u :: p :: rest \/ responses = None :: u :: p :: rest) /\
       usernameForAuth s (default "" u) w = (w0, Done (Ok mapped)) /\ accepted mapped (default "" p) w1 w2 /\
       successCb mapped (mkContextData mapped (default "" p)) w2 = (w', Done None)).
Proof.
  unfold CreateSASL. split.
  - intros auth identity user pass w w' Hc E. destruct (decide (mech = "PLAIN")); [|repeat case_decide; try done; by destruct (negb (sa_EnableLogin s))].
    simplify_eq. unfold plain_authenticate in E. destruct (decide (_ <> user)) as [|Hid%dec_stable]; [done|].
    apply prog_bind_Done in E as (w1 & [err|] & Ea & E); [done|]. destruct (AuthPlain_success _ _ _ _ Ea) as (w0 & Hacc).
    rewrite Hid in E. split; [case_decide; auto|]. by exists w0, w1.
  - intros a responses outs w w' Hc E Hs. destruct (decide (mech = "PLAIN")); [done|]. destruct (decide (mech = "LOGIN")); [|done].
    destruct (negb (sa_EnableLogin s)); [done|]. injection Hc as <-. destruct (login_success _ _ _ _ _ E Hs) as (u & p & rest & Hr & El).
    unfold login_authenticate in El. apply prog_bind_Done in El as (w0 & [mapped|] & Eu & El); [|done].
    apply prog_bind_Done in El as (w2 & [err|] & Ea & El); [done|]. destruct (AuthPlain_success _ _ _ _ Ea) as (w1 & Hacc).
    exists u, p, rest, mapped, w0, w1, w2. split_and!; [naive_solver|done..].
Qed.
End Success.

(** ** Examples *)

(** A user table and one provider: bob may log in. *)
Definition bob_only : string -> string -> Prog unit error := fun user pass =>
  mret (if decide (user = "bob@example.org" /\ pass = "secret") then None else Some ErrUnknownCredentials).
Definition one_map : Table unit := mkTable (fun u => mret (Ok (if decide (u = "bob") then Some "bob@example.org" else None))) None.
Definition sample_sasl : SASLAuth := mkSASLAuth true (Some one_map) None [bob_only].

(** With an auth_map PLAIN accepts bob; LOGIN maps the name twice and refuses him. *)
Example login_maps_twice :
  (match CreateSASL sample_sasl (fun _ _ => mret None) "PLAIN" with PlainServer auth => auth "" "bob" "secret" tt | _ => (tt, Done (Some EDeadline)) end).2 = Done None /\
  (match CreateSASL sample_sasl (fun _ _ => mret None) "LOGIN" with LoginServer a => login_run a [Some "bob"; Some "secret"] tt | _ => (tt, Done []) end).2
  = Done [(Some "Password:", false, None); (None, true, Some ErrInvalidAuthCred)].
Proof. split; vm_compute; reflexivity. Qed.

(** Without a pass directive plain_separate accepts every password. *)
Example no_pass_accepts_all :
  (PlainSeparate_AuthPlain (mkPlainSeparate [one_map] []) "bob" "anything" tt).2 = Done None.
Proof. vm_compute. reflexivity. Qed.

(** A name with an empty domain passes the domain test. *)
Example empty_domain_allowed : CheckDomainAuth (H := ascii_tables) "bob@" true (Some ["example.org"]) = ("bob@", true).
Proof. vm_compute. reflexivity. Qed.

Definition plain_sasl : SASLAuth := mkSASLAuth true None None [bob_only].
Definition accept_all : string -> ContextData -> Prog unit error := fun _ _ => mret None.
Lemma sasl_success_witness :
  exists u p rest mapped w0 w1 w2,
    ([None; Some "bob@example.org"; Some "secret"] = u :: p :: rest \/ [None; Some "bob@example.org"; Some "secret"] = None :: u :: p :: rest) /\
    usernameForAuth plain_sasl (default "" u) tt = (w0, Done (Ok mapped)) /\ accepted plain_sasl mapped (default "" p) w1 w2 /\
    accept_all mapped (mkContextData mapped (default "" p)) w2 = (tt, Done None).
Proof.
  apply (proj2 (sasl_success plain_sasl accept_all "LOGIN") (NewLoginServer (login_authenticate plain_sasl accept_all))
    [None; Some "bob@example.org"; Some "secret"]
    [(Some "Username:", false, None); (Some "Password:", false, None); (None, true, None)] tt tt).
  - reflexivity.
  - vm_compute. reflexivity.
  - exists None. right. right. left.
Defined.
