(* ===== verification/Shadow.v ===== *)
(** * Shadow: internal/auth/shadow

    The shadow password file of the system: its entries, expiry and passwords.  The file,
    the clock and the hashes of package crypt are parameters. *)
From S2P Require Import Prelude GoStr GoText ExtErrors Address Limiters Backoff PassTable Sasl.
From Stdlib Require Import Ascii ZifyBool.

Local Open Scope Z_scope.

(** ** The entries *)

Record Entry := mkEntry {
  en_Name : string;
  en_Pass : string;
  en_LastChange : Z;
  en_MinPassAge : Z;
  en_MaxPassAge : Z;
  en_WarnPeriod : Z;
  en_InactivityPeriod : Z;
  en_AcctExpiry : Z;
  en_Flags : Z
}.
Definition ErrNoSuchUser : gerror := ENew "shadow: user entry is not present in database".

(** The errors of this package that errors.Is looks for, and any other *)
Inductive lookup_error := NoSuchUser | ReadError (err : gerror).
Definition lookup_gerror (e : lookup_error) : gerror := match e with NoSuchUser => ErrNoSuchUser | ReadError err => err end.
Inductive password_error := WrongPassword | OtherError (err : gerror).

(** The loop over the seven numbers; [i] counts from 2. *)
Fixpoint parse_numbers (i : Z) (parts : list string) : Result gerror (list Z) :=
  match parts with
  | [] => Ok []
  | part :: parts =>
    value ← (if decide (part = "") then Ok (- 1)
             else match Atoi part with Ok n => Ok n | Err _ => Err (EErrorf ("read: invalid value for field " +:+ FormatInt i) None) end);
    values ← parse_numbers (i + 1) parts; mret (value :: values)
  end.
Definition parseEntry (line : string) : Result gerror Entry :=
  match SplitByte line ":"%char with
  | [name; pass; p2; p3; p4; p5; p6; p7; p8] =>
    values ← parse_numbers 2 [p2; p3; p4; p5; p6; p7; p8];
    match values with
    | [v2; v3; v4; v5; v6; v7; v8] => Ok (mkEntry name pass v2 v3 v4 v5 v6 v7 v8)
    | _ => Err (ENew "read: malformed entry")
    end
  | _ => Err (ENew "read: malformed entry")
  end.
Fixpoint parse_entries (lines : list string) (res : list Entry) : list Entry * error :=
  match lines with
  | [] => (res, None)
  | line :: lines => match parseEntry line with Err err => (res, Some err) | Ok ent => parse_entries lines (res ++ [ent]) end
  end.

Section Shadow.
Context {W : Type}.
(** os.Open of /etc/shadow with the content, and the error reading it ends with; the
    clock in seconds; Verify of the hash function of a password *)
Inductive verify_result := VerifyOk | KeyMismatch | VerifyError (err : gerror) | VerifyPanic (why : string).
Record Sys := mkSys {
  sy_Open : Prog W (Result (gerror * bool) (string * error));
  sy_Now : Prog W Z;
  sy_Verify : string -> string -> verify_result
}.
Context (sys : Sys).

Definition Read : Prog W (list Entry * error) :=
  r ← sy_Open sys;
  mret (match r with
        | Err (err, _) => ([], Some err)
        | Ok (content, err) =>
          let '(lines, long) := ScanLines content in
          match parse_entries lines [] with
          | (res, Some err) => (res, Some err)
          | (res, None) => (res, if long then Some (ENew ErrTooLong) else err)
          end
        end).
Definition find_entry (name : string) (entries : list Entry) : option Entry :=
  list_find (fun e => en_Name e = name) entries ≫= fun p => Some p.2.
Definition Lookup (name : string) : Prog W (Result lookup_error Entry) :=
  '(entries, err) ← Read;
  mret (match err with
        | Some err => Err (ReadError err)
        | None => match find_entry name entries with Some e => Ok e | None => Err NoSuchUser end
        end).

(** ** Validity *)

Definition secsInDay : Z := 86400.
Definition nowDays : Prog W Z := t ← sy_Now sys; mret (Z.quot t secsInDay).
Definition IsAccountValid (e : Entry) : Prog W bool :=
  if en_AcctExpiry e =? -1 then mret true else d ← nowDays; mret (d <? en_AcctExpiry e).
Definition IsPasswordValid (e : Entry) : Prog W bool :=
  if (en_LastChange e =? -1) || (en_MaxPassAge e =? -1) || (en_InactivityPeriod e =? -1) then mret true
  else d ← nowDays; mret (d <? wrap64 (wrap64 (en_LastChange e + en_MaxPassAge e) + en_InactivityPeriod e)).
Definition VerifyPassword (e : Entry) (pass : string) : option password_error :=
  match en_Pass e with
  | EmptyString => Some (OtherError (ENew "verify: null password"))
  | String a _ =>
    if decide (a = "!"%char) then Some (OtherError (ENew "verify: locked password"))
    else match sy_Verify sys (en_Pass e) pass with
    | VerifyOk => None
    | KeyMismatch => Some WrongPassword
    | VerifyError err => Some (OtherError err)
    | VerifyPanic why => Some (OtherError (EErrorf why None))
    end
  end.

(** ** The module *)

Record Auth := mkAuth { au_useHelper : bool; au_helperPath : string }.
Definition New (inlineArgs : list string) : Result gerror unit :=
  match inlineArgs with [] => Ok tt | _ => Err (ENew "shadow: inline arguments are not used") end.
(** Init after the directives, [helperPath] being the path in LibexecDirectory *)
Definition Init (os_Stat : string -> Prog W error) (LibexecDirectory helperPath : string) (useHelper : bool) : Prog W (Result gerror Auth) :=
  if useHelper then
    err ← os_Stat helperPath;
    mret (match err with
          | Some _ => Err (EErrorf ("shadow: no helper binary (sirrmesh-shadow-helper) found in " +:+ LibexecDirectory) None)
          | None => Ok (mkAuth true helperPath)
          end)
  else
    r ← sy_Open sys;
    mret (match r with
          | Err (_, true) => Err (EErrorf "shadow: can't read /etc/shadow due to permission error, use helper binary or run sirrmesh as a privileged user" None)
          | Err (err, false) => Err (EErrorf ("shadow: can't read /etc/shadow: " +:+ Error err) None)
          | Ok _ => Ok (mkAuth false "")
          end).
(** Lookup of the table: whether there is such an account. *)
Definition Auth_Lookup (a : Auth) (username : string) : Prog W (Result gerror bool) :=
  if au_useHelper a then mret (Err (EErrorf "shadow: table lookup are not possible when using a helper" None))
  else
    r ← Lookup username;
    match r with
    | Err NoSuchUser => mret (Ok false)
    | Err (ReadError err) => mret (Err err)
    | Ok ent => valid ← IsAccountValid ent; mret (Ok valid)
    end.
Definition AuthPlain (exec_Command : string -> Command (W := W)) (a : Auth) (username password : string) : Prog W error :=
  if au_useHelper a then AuthUsingHelper exec_Command (au_helperPath a) username password
  else
    r ← Lookup username;
    match r with
    | Err err => mret (Some (lookup_gerror err))
    | Ok ent =>
      valid ← IsAccountValid ent;
      if negb valid then mret (Some (EErrorf "shadow: account is expired" None))
      else
        valid ← IsPasswordValid ent;
        if negb valid then mret (Some (EErrorf "shadow: password is expired" None))
        else mret (match VerifyPassword ent password with
                   | Some WrongPassword => Some ErrUnknownCredentials
                   | Some (OtherError err) => Some err
                   | None => None
                   end)
    end.

(** ** A shadow file and its users *)

Definition print_number (n : Z) : string := if n =? -1 then "" else FormatInt n.
Definition numbers (e : Entry) : list Z :=
  [en_LastChange e; en_MinPassAge e; en_MaxPassAge e; en_WarnPeriod e; en_InactivityPeriod e; en_AcctExpiry e; en_Flags e].
Definition print_entry (e : Entry) : string := JoinByte (en_Name e :: en_Pass e :: map print_number (numbers e)) ":"%char.
Definition plain (s : string) : Prop := has_byte ":"%char s = false /\ one_line s.
Definition good_entry (e : Entry) : Prop :=
  plain (en_Name e) /\ plain (en_Pass e) /\ Forall is_int64 (numbers e) /\ Z.of_nat (String.length (print_entry e)) <= maxLine /\
  is_int64 (en_LastChange e + en_MaxPassAge e) /\ is_int64 (en_LastChange e + en_MaxPassAge e + en_InactivityPeriod e).

(** Who may log in with [pass] on day [day] *)
Definition may_login (day : Z) (e : Entry) (pass : string) : Prop :=
  (en_AcctExpiry e = -1 \/ day < en_AcctExpiry e) /\
  (en_LastChange e = -1 \/ en_MaxPassAge e = -1 \/ en_InactivityPeriod e = -1 \/
     day < en_LastChange e + en_MaxPassAge e + en_InactivityPeriod e) /\
  en_Pass e <> "" /\ HasPrefix (en_Pass e) "!" = false /\ sy_Verify sys (en_Pass e) pass = VerifyOk.
End Shadow.

Lemma print_number_plain n : is_int64 n -> plain (print_number n).
Proof.
  intros Hn. unfold print_number. destruct (n =? -1); [by repeat split|]. split; [|by apply FormatInt_one_line].
  unfold FormatInt. unfold is_int64 in Hn. destruct (Z.ltb_spec n 0).
  - rewrite has_byte_app, FormatUint_no_byte; [done|unfold maxUint64; lia|]. right. by vm_compute.
  - apply FormatUint_no_byte; [unfold maxUint64; lia|]. right. by vm_compute.
Qed.
Lemma parse_print_numbers i l : Forall is_int64 l -> parse_numbers i (map print_number l) = Ok l.
Proof.
  intros Hl. revert i. induction Hl as [|n l Hn Hl IH]; intros i; [done|]. cbn [map parse_numbers].
  assert ((if decide (print_number n = "") then Ok (-1)
           else match Atoi (print_number n) with Ok n => Ok n | Err _ => Err (EErrorf ("read: invalid value for field " +:+ FormatInt i) None) end) = @Ok gerror Z n) as ->.
  { unfold print_number. destruct (Z.eqb_spec n (-1)) as [->|]; [done|]. rewrite Atoi_FormatInt by done.
    case_decide as He; [|done]. assert (Atoi "" = Ok n) as Hx by (by rewrite <- He, Atoi_FormatInt). done. }
  cbn. by rewrite IH.
Qed.
Lemma parse_print_entry e : good_entry e -> parseEntry (print_entry e) = Ok e /\ good_line (print_entry e).
Proof.
  intros ((Hn & Hn1) & (Hp & Hp1) & Hnum & Hlen & _).
  assert (Forall plain (map print_number (numbers e))) as Hpl by (apply Forall_fmap; eapply Forall_impl; [exact Hnum|]; apply print_number_plain).
  split.
  - unfold parseEntry, print_entry. rewrite SplitByte_Join; [|done|].
    + cbn [map numbers]. change [print_number (en_LastChange e); print_number (en_MinPassAge e); print_number (en_MaxPassAge e); print_number (en_WarnPeriod e);
        print_number (en_InactivityPeriod e); print_number (en_AcctExpiry e); print_number (en_Flags e)] with (map print_number (numbers e)).
      rewrite parse_print_numbers by done. by destruct e.
    + apply Forall_cons_2; [done|]. apply Forall_cons_2; [done|]. eapply Forall_impl; [exact Hpl|]. by intros s (? & _).
  - assert (one_line (print_entry e)) as Hone.
    { unfold print_entry. assert (Forall one_line (en_Name e :: en_Pass e :: map print_number (numbers e))) as Hall.
      { apply Forall_cons_2; [done|]. apply Forall_cons_2; [done|]. eapply Forall_impl; [exact Hpl|]. by intros s (_ & ?). }
      split; apply has_byte_Join; try done; eapply Forall_impl; try exact Hall; by intros s (? & ?). }
    by apply one_line_good.
Qed.
Lemma parse_print_entries entries res :
  Forall good_entry entries -> parse_entries (map print_entry entries) res = (res ++ entries, None).
Proof.
  intros He. revert res. induction He as [|e entries He Hes IH]; intros res; [by rewrite app_nil_r|].
  cbn [map parse_entries]. destruct (parse_print_entry e He) as [-> _]. by rewrite IH, <- app_assoc.
Qed.

(** The accounts of a shadow file.  When the file holds well-formed entries, a login
    without a helper succeeds exactly when the first entry with the name of the user
    lets him in today: his account and his password have not expired, the password is
    neither empty nor locked, and its hash accepts what he gave. *)
Theorem shadow_login {W} (sys : Sys (W := W)) exec_Command helper entries t user pass w w1 :
  Forall good_entry entries -> sy_Open sys w = (w1, Done (Ok (unlines (map print_entry entries), None))) ->
  (forall w, (sy_Now sys w).2 = Done t) ->
  exists w' err, AuthPlain sys exec_Command (mkAuth false helper) user pass w = (w', Done err) /\
    (err = None <-> exists e, find_entry user entries = Some e /\ may_login sys (Z.quot t secsInDay) e pass).
Proof.
  intros He Ho Hnow. unfold AuthPlain. cbn [au_useHelper].
  assert (Read sys w = (w1, Done (entries, None))) as Er.
  { unfold Read. rewrite (prog_bind_eq _ _ _ _ _ Ho). rewrite ScanLines_unlines.
    - by rewrite parse_print_entries.
    - apply Forall_fmap. eapply Forall_impl; [exact He|]. intros e Hge. by apply parse_print_entry. }
  assert (Lookup sys user w = (w1, Done (match find_entry user entries with Some e => Ok e | None => Err NoSuchUser end))) as El.
  { unfold Lookup. by rewrite (prog_bind_eq _ _ _ _ _ Er). }
  rewrite (prog_bind_eq _ _ _ _ _ El). destruct (find_entry user entries) as [e|] eqn:Ef; [|eexists w1, _; split; [done|]; naive_solver].
  assert (good_entry e) as Hge.
  { unfold find_entry in Ef. destruct (list_find _ entries) as [[i e']|] eqn:Ei; [|done]. cbn in Ef. simplify_eq.
    apply list_find_Some in Ei as (Ei & _). by eapply Forall_lookup_1. }
  assert (forall w, exists w', nowDays sys w = (w', Done (Z.quot t secsInDay))) as Hday.
  { intros w0. specialize (Hnow w0). unfold nowDays. destruct (sy_Now sys w0) as [w2 o] eqn:E. simpl in Hnow. subst o.
    exists w2. by rewrite (prog_bind_eq _ _ _ _ _ E). }
  set (day := Z.quot t secsInDay) in *.
  assert (forall w, exists w' b, IsAccountValid sys e w = (w', Done b) /\ (b = true <-> en_AcctExpiry e = -1 \/ day < en_AcctExpiry e)) as Ha.
  { intros w0. unfold IsAccountValid. destruct (Z.eqb_spec (en_AcctExpiry e) (-1)); [exists w0, true; split; [done|]; naive_solver|].
    destruct (Hday w0) as [w2 E]. rewrite (prog_bind_eq _ _ _ _ _ E). eexists w2, _. split; [done|]. lia. }
  assert (forall w, exists w' b, IsPasswordValid sys e w = (w', Done b) /\
    (b = true <-> en_LastChange e = -1 \/ en_MaxPassAge e = -1 \/ en_InactivityPeriod e = -1 \/
       day < en_LastChange e + en_MaxPassAge e + en_InactivityPeriod e)) as Hp.
  { intros w0. destruct Hge as (_ & _ & _ & _ & Hs1 & Hs2). unfold IsPasswordValid. destruct (_ || _) eqn:Eor.
    - exists w0, true. split; [done|]. lia.
    - destruct (Hday w0) as [w2 E]. rewrite (prog_bind_eq _ _ _ _ _ E). eexists w2, _. split; [done|].
      unfold is_int64 in *. rewrite (wrap64_small (_ + en_MaxPassAge e)), wrap64_small by (unfold minInt64, maxInt64; lia). lia. }
  destruct (Ha w1) as (w2 & b & Eb & Hb). rewrite (prog_bind_eq _ _ _ _ _ Eb). destruct b; cbn [negb].
  2: { eexists w2, _. split; [done|]. split; [done|]. intros (e' & [= <-] & H1 & _). destruct Hb as [_ Hb]. by apply Hb in H1. }
  destruct (Hp w2) as (w3 & b & Eb2 & Hb2). rewrite (prog_bind_eq _ _ _ _ _ Eb2). destruct b; cbn [negb].
  2: { eexists w3, _. split; [done|]. split; [done|]. intros (e' & [= <-] & _ & H1 & _). destruct Hb2 as [_ Hb2]. by apply Hb2 in H1. }
  eexists w3, _. split; [done|]. assert (may_login sys day e pass <-> VerifyPassword sys e pass = None) as Hv.
  { unfold may_login, VerifyPassword. destruct (en_Pass e) as [|a p]; [naive_solver|]. cbn [HasPrefix].
    case_decide as Hd; [subst; cbn|rewrite bool_decide_false by congruence]. 
    - split; [|done]. intros (_ & _ & _ & Hx & _). by destruct p.
    - cbn [andb]. destruct (sy_Verify sys (String a p) pass); naive_solver. }
  destruct (VerifyPassword sys e pass) as [[|err]|]; naive_solver.
Qed.

(** ** A file of two accounts *)

Definition sample_entries : list Entry :=
  [mkEntry "root" "!" 19000 0 99999 7 (-1) (-1) (-1); mkEntry "alice" "$5$salt$alice" 19000 0 90 7 14 20000 (-1)].
Definition sample_sys (t : Z) : Sys (W := unit) :=
  mkSys (mret (Ok (unlines (map print_entry sample_entries), None))) (mret t)
    (fun hash pass => if decide (hash = "$5$salt$" +:+ pass) then VerifyOk else KeyMismatch).
Example sample_file :
  map print_entry sample_entries = ["root:!:19000:0:99999:7:::"; "alice:$5$salt$alice:19000:0:90:7:14:20000:"].
Proof. vm_compute. reflexivity. Qed.
Definition no_command (name : string) : Command (W := unit) := mkCommand (mret None) (mret None) (fun _ => mret None) (mret Exited).
Lemma shadow_login_witness :
  exists w' err, AuthPlain (sample_sys (19100 * 86400)) no_command (mkAuth false "") "alice" "alice" tt = (w', Done err) /\
    (err = None <-> exists e, find_entry "alice" sample_entries = Some e /\ may_login (sample_sys (19100 * 86400)) (Z.quot (19100 * 86400) secsInDay) e "alice").
Proof.
  apply (shadow_login (sample_sys (19100 * 86400)) no_command "" sample_entries (19100 * 86400) "alice" "alice" tt tt).
  - repeat constructor; vm_compute; discriminate.
  - reflexivity.
  - reflexivity.
Defined.
Example logins :
  let login day user pass := (AuthPlain (sample_sys (day * 86400)) no_command (mkAuth false "") user pass tt).2 in
  login 19100 "alice" "alice" = Done None /\ login 19100 "alice" "bob" = Done (Some ErrUnknownCredentials) /\
  login 19104 "alice" "alice" = Done (Some (EErrorf "shadow: password is expired" None)) /\
  login 19100 "root" "" = Done (Some (ENew "verify: locked password")).
Proof. vm_compute. repeat split. Qed.
