(* ===== verification/Dnsbl.v ===== *)
(** * Dnsbl: internal/check/dnsbl

    Blocklists: the query names, the lookups, the score of the lists and the verdict.
    The resolver's answers are functions; the lists are asked by goroutines, so the
    order in which their results arrive is any permutation. *)
From S2P Require Import Prelude GoStr GoText ExtErrors Address Checks Module.
From Stdlib Require Import Ascii ZifyBool.

Local Open Scope Z_scope.

(** ** net: addresses are their bytes *)

Definition IP := list Z.
Definition v4_prefix : list Z := repeat 0 10 ++ [255; 255].
Definition To4 (ip : IP) : option IP :=
  if decide (length ip = 4)%nat then Some ip
  else if decide (length ip = 16%nat /\ take 12 ip = v4_prefix) then Some (drop 12 ip)
  else None.
Record IPNet := mkIPNet { net_IP : IP; net_Mask : list Z }.
(** networkNumberAndMask *)
Definition number_mask (n : IPNet) : option (IP * list Z) :=
  let ip := match To4 (net_IP n) with
            | Some v4 => Some v4
            | None => if decide (length (net_IP n) = 16)%nat then Some (net_IP n) else None
            end in
  match ip with
  | None => None
  | Some ip =>
    if decide (length (net_Mask n) = length ip) then Some (ip, net_Mask n)
    else if decide (length (net_Mask n) = 16%nat /\ length ip = 4%nat) then Some (ip, drop 12 (net_Mask n))
    else None
  end.
Definition Contains (n : IPNet) (ip : IP) : bool :=
  let ip := default ip (To4 ip) in
  match number_mask n with
  | None => bool_decide (ip = [])
  | Some (nn, m) =>
    bool_decide (length ip = length nn) &&
    forallb (fun t => let '((a, k), b) := t in Z.land a k =? Z.land b k) (zip (zip nn m) ip)
  end.

Section Dnsbl.
Context `{UnicodeTables} `{TextLib} `{Textproto}.

Record List := mkList {
  Zone : string;
  ClientIPv4 : bool;
  ClientIPv6 : bool;
  EHLO : bool;
  MAILFROM : bool;
  ScoreAdj : Z;
  Responses : list IPNet
}.
Definition with_zone (zone : string) (l : List) : List :=
  mkList zone (ClientIPv4 l) (ClientIPv6 l) (EHLO l) (MAILFROM l) (ScoreAdj l) (Responses l).
Definition defaultBL : List := mkList "" true false false false 0 [].

(** The answers of the resolver, and (IP).String *)
Record Resolver := mkResolver {
  LookupHost : string -> Result gerror (list string);
  LookupIPAddr : string -> Result gerror (list IP);
  LookupTXT : string -> Result gerror (list string)
}.
Context (IP_String : IP -> string).

(** ** common.go *)

Record ListedErr := mkListedErr { le_Identity : string; le_List : string; le_Reason : string }.
Definition ListedErr_Fields (le : ListedErr) : fields :=
  {[ "check" := FStr "dnsbl"; "list" := FStr (le_List le); "listed_identity" := FStr (le_Identity le);
     "reason" := FStr (le_Reason le); "smtp_code" := FInt 554; "smtp_enchcode" := FEnch (Ench 5 7 0);
     "smtp_msg" := FStr "Client identity listed in the used DNSBL" ]}.
Definition ListedErr_Error (le : ListedErr) : string := le_Identity le +:+ " is listed in the used DNSBL".

(** The error a lookup returns: nil, a ListedErr, or another. *)
Inductive verdict := NotListed | Listed (le : ListedErr) | Failed (err : gerror).

Definition is_notfound (err : gerror) : bool := match err with EDNS _ true _ _ => true | _ => false end.
Definition join_reasons (l : list string) : string := String.concat "; " l.

(** The explanation of a list, or what it answered *)
Definition reason_of (txts : Result gerror (list string)) (answers : list string) : string :=
  match txts with
  | Ok [] | Err _ => join_reasons answers
  | Ok txts => join_reasons txts
  end.
Definition checkDomain (r : Resolver) (cfg : List) (domain : string) : verdict :=
  let query := domain +:+ "." +:+ Zone cfg in
  match LookupHost r query with
  | Err err => if is_notfound err then NotListed else Failed err
  | Ok [] => NotListed
  | Ok addrs => Listed (mkListedErr domain (Zone cfg) (reason_of (LookupTXT r query) addrs))
  end.

Definition hex_digit (n : Z) : string := of_bytes [if n <? 10 then n + 48 else n + 87].
Definition octet_query (ipv6 : bool) (octet : Z) : string :=
  if ipv6 then hex_digit (Z.land octet 15) +:+ "." +:+ hex_digit (Z.shiftr (Z.land octet 240) 4) else FormatUint octet.
Definition queryString (ip : IP) : string :=
  let '(ip, ipv6) := match To4 ip with Some v4 => (v4, false) | None => (ip, true) end in
  JoinByte (map (octet_query ipv6) (rev ip)) "."%char.

(** The loop addrsLoop *)
Definition filter_addrs (cfg : List) (addrs : list IP) : list IP :=
  List.filter (fun addr => match Responses cfg with [] => true | nets => existsb (fun n => Contains n addr) nets end) addrs.
Definition checkIP (r : Resolver) (cfg : List) (ip : IP) : verdict :=
  let '(ip, ipv6) := match To4 ip with Some v4 => (v4, false) | None => (ip, true) end in
  if (if ipv6 then negb (ClientIPv6 cfg) else negb (ClientIPv4 cfg)) then NotListed
  else
    let query := queryString ip +:+ "." +:+ Zone cfg in
    match LookupIPAddr r query with
    | Err err => if is_notfound err then NotListed else Failed err
    | Ok addrs =>
      match filter_addrs cfg addrs with
      | [] => NotListed
      | filtered => Listed (mkListedErr (IP_String ip) (Zone cfg) (reason_of (LookupTXT r query) (map IP_String filtered)))
      end
    end.

(** ** dnsbl.go *)

(** The messages testList logs; an error of a lookup ends it. *)
Definition test_one (must : bool) (v : verdict) (name : string) (k : list string) : list string :=
  match v, must with
  | Failed _, _ => ["lookup error, bailing out"]
  | NotListed, true => ("List does not contain a test record for " +:+ name) :: k
  | Listed _, false => ("List contains a record for " +:+ name) :: k
  | _, _ => k
  end.
Definition v4_loopback (last : Z) : IP := v4_prefix ++ [127; 0; 0; last].
Definition testList (r : Resolver) (l : List) : list string :=
  let test_domains :=
    if EHLO l || MAILFROM l then
      test_one true (checkDomain r l "test") "'test' TLD" (test_one false (checkDomain r l "invalid") "'invalid' TLD" [])
    else [] in
  let test_v6 :=
    if ClientIPv6 l then   (* net.ParseIP makes v4-mapped addresses of these *)
      test_one true (checkIP r l (v4_loopback 2)) "::FFFF:7F00:2"
        (test_one false (checkIP r l (v4_loopback 1)) "::FFFF:7F00:1" test_domains)
    else test_domains in
  if ClientIPv4 l then
    test_one true (checkIP r l (v4_loopback 2)) "127.0.0.2" (test_one false (checkIP r l (v4_loopback 1)) "127.0.0.1" test_v6)
  else test_v6.

(** readListCfg, with net.ParseCIDR, after the directives were processed into [listCfg] and [responseNets] *)
Fixpoint read_nets (ParseCIDR : string -> Result gerror IPNet) (responseNets : list string) : Result gerror (list IPNet) :=
  match responseNets with
  | [] => Ok []
  | resp :: rest =>
    n ← ParseCIDR (if ContainsByte resp "/"%char then resp else resp +:+ "/32");
    nets ← read_nets ParseCIDR rest; Ok (n :: nets)
  end.
Definition with_nets (nets : list IPNet) (l : List) : List :=
  mkList (Zone l) (ClientIPv4 l) (ClientIPv6 l) (EHLO l) (MAILFROM l) (ScoreAdj l) nets.
Fixpoint add_zones (zones : list string) (listCfg : List) (bls : list List) : Result gerror (list List) :=
  match zones with
  | [] => Ok bls
  | zone :: zones =>
    if (ScoreAdj listCfg <? 0) && EHLO listCfg then Err (ENew "dnsbl: 'ehlo' should not be used with negative score")
    else if (ScoreAdj listCfg <? 0) && MAILFROM listCfg then Err (ENew "dnsbl: 'mailfrom' should not be used with negative score")
    else add_zones zones listCfg (bls ++ [with_zone zone listCfg])
  end.
Definition readListCfg (ParseCIDR : string -> Result gerror IPNet) (name : string) (args : list string) (listCfg : List) (responseNets : list string) (bls : list List)
  : Result gerror (list List) :=
  nets ← read_nets ParseCIDR responseNets; add_zones (name :: args) (with_nets nets listCfg) bls.
(** The lists given as arguments of the check *)
Definition inline_lists (inlineBls : list string) : list List := map (fun zone => with_zone zone defaultBL) inlineBls.

Record DNSBL := mkDNSBL { bl_checkEarly : bool; bl_bls : list List; bl_quarantineThres : Z; bl_rejectThres : Z; bl_resolver : Resolver }.
Context (bl : DNSBL).

(** [let*]: the first check that does not pass *)
Definition or_else (v k : verdict) : verdict := match v with NotListed => k | _ => v end.
Definition checkList (l : List) (ip : IP) (ehlo mailFrom : string) : verdict :=
  or_else (if ClientIPv4 l || ClientIPv6 l then checkIP (bl_resolver bl) l ip else NotListed)
  (if EHLO l && bool_decide (ehlo <> "") && HasPrefix ehlo "[" && HasSuffix ehlo "]" then NotListed
   else
     or_else (if EHLO l && bool_decide (ehlo <> "") then checkDomain (bl_resolver bl) l ehlo else NotListed)
     (if MAILFROM l && bool_decide (mailFrom <> "") then
        match Split mailFrom with
        | Err _ => NotListed
        | Ok (_, domain) =>
          if decide (domain = "") then NotListed
          else if EHLO l && dns_Equal domain ehlo then NotListed
          else checkDomain (bl_resolver bl) l domain
        end
      else NotListed)).

(** What the goroutines leave behind when their results arrive in this order: the
    first error, and the score. *)
Fixpoint gather (results : list (List * verdict)) : error * Z :=
  match results with
  | [] => (None, 0)
  | (l, v) :: results =>
    let '(err, score) := gather results in
    match v with
    | NotListed => (err, score)
    | Listed _ => (err, ScoreAdj l + score)
    | Failed e => (Some e, score)
    end
  end.
Definition listed_result (reject : bool) : CheckResult :=
  mkCheckResult (Some (ESMTP 554 (Ench 5 7 0) "Client identity is listed in the used DNSBL" "dnsbl" "" "" "" None ∅)) reject (negb reject) [] hdr_empty.
Definition checkLists (order : list List) (ip : IP) (ehlo mailFrom : string) : CheckResult :=
  let '(err, score) := gather (map (fun l => (l, checkList l ip ehlo mailFrom)) order) in
  match err with
  | Some e =>
    mkCheckResult (Some (ESMTP (SMTPCode (Some e) 451 554) (SMTPEnchCode (Some e) (Ench 0 7 0)) "DNS error during policy check" "dnsbl" "" "" "" (Some e) ∅))
      true false [] hdr_empty
  | None =>
    if bl_rejectThres bl <=? score then listed_result true
    else if bl_quarantineThres bl <=? score then listed_result false
    else CheckResult_zero
  end.

(** CheckConnection (early): the error, and what is stored in ModData.  [ip] is [None]
    when the address is not a TCP address. *)
Definition CheckConnection_early (order : list List) (ip : option IP) (hostname : string) : error * option CheckResult :=
  match ip with
  | None => (None, None)
  | Some ip =>
    let result := checkLists order ip hostname "" in
    if cr_Reject result && bl_checkEarly bl then (cr_Reason result, None) else (None, Some result)
  end.
(** [modData] is what was stored for the connection. *)
Definition CheckConnection (conn : option ConnState) (modData : option CheckResult) : CheckResult :=
  match conn with None => CheckResult_zero | Some _ => default CheckResult_zero modData end.
Definition CheckSender (_ : string) : CheckResult := CheckResult_zero.
Definition CheckRcpt (_ : string) : CheckResult := CheckResult_zero.
Definition CheckBody (_ : header) (_ : Buffer) : CheckResult := CheckResult_zero.

(** ** Facts *)

Lemma gather_fst results :
  (gather results).1 = None <-> Forall (fun lv => forall e, lv.2 <> Failed e) results.
Proof.
  induction results as [|[l v] results IH]; simpl; [by split; [constructor|]|].
  rewrite Forall_cons, <- IH. destruct (gather results) as [err score]. destruct v; simpl; naive_solver.
Qed.
Definition listed_score (lv : List * verdict) : Z := match lv.2 with Listed _ => ScoreAdj lv.1 | _ => 0 end.
Lemma gather_snd results : (gather results).2 = foldr (fun lv n => listed_score lv + n) 0 results.
Proof.
  induction results as [|[l v] results IH]; [done|]. simpl. unfold listed_score at 1. destruct (gather results). simpl in *.
  destruct v; simpl; lia.
Qed.
Lemma gather_perm r1 r2 : r1 ≡ₚ r2 -> ((gather r1).1 = None <-> (gather r2).1 = None) /\ (gather r1).2 = (gather r2).2.
Proof.
  intros Hp. split; [rewrite !gather_fst; by rewrite Hp|]. rewrite !gather_snd.
  induction Hp; simpl; [done|lia|lia|congruence].
Qed.

Lemma asked_perm (l1 l2 : list List) ip ehlo mailFrom :
  l1 ≡ₚ l2 -> map (fun l => (l, checkList l ip ehlo mailFrom)) l1 ≡ₚ map (fun l => (l, checkList l ip ehlo mailFrom)) l2.
Proof. intros Hp. by apply Permutation_map. Qed.

(** The score of a client, and the lists that could not be asked *)
Definition score (lists : list List) (ip : IP) (ehlo mailFrom : string) : Z :=
  foldr (fun l n => match checkList l ip ehlo mailFrom with Listed _ => ScoreAdj l + n | _ => n end) 0 lists.
Definition unanswered (lists : list List) (ip : IP) (ehlo mailFrom : string) : Prop :=
  exists l e, l ∈ lists /\ checkList l ip ehlo mailFrom = Failed e.

Lemma gather_asked lists ip ehlo mailFrom :
  let g := gather (map (fun l => (l, checkList l ip ehlo mailFrom)) lists) in
  g.2 = score lists ip ehlo mailFrom /\ (g.1 = None <-> ~ unanswered lists ip ehlo mailFrom) /\
  forall e, g.1 = Some e -> exists l, l ∈ lists /\ checkList l ip ehlo mailFrom = Failed e.
Proof.
  split_and!.
  - rewrite gather_snd. induction lists as [|l lists IH]; [done|]. cbn [map foldr score]. unfold score in IH. rewrite IH.
    unfold listed_score. simpl. destruct (checkList l ip ehlo mailFrom); lia.
  - rewrite gather_fst, Forall_map, Forall_forall. unfold unanswered. simpl. naive_solver.
  - induction lists as [|l lists IH]; [done|]. cbn [map gather]. intros e He.
    destruct (gather _) as [err sc]. simpl in *. destruct (checkList l ip ehlo mailFrom) as [|le|e'] eqn:Hc.
    1,2: destruct (IH _ He) as (l' & Hin & ?); exists l'; split; [by right|done].
    simpl in He. simplify_eq. exists l. split; [by left|done].
Qed.

(** C40: the verdict of the blocklists.  In whatever order the results of the lists
    arrive, a client is rejected exactly when a list could not be asked or the scores
    of the lists it is on add up to the reject threshold, and quarantined exactly when
    they reach the quarantine threshold only; otherwise the result is empty.  After a
    failed lookup the code is 451 or 554 by the error of one of the failed lists. *)
Theorem checkLists_verdict order ip ehlo mailFrom :
  order ≡ₚ bl_bls bl ->
  let res := checkLists order ip ehlo mailFrom in
  let n := score (bl_bls bl) ip ehlo mailFrom in
  (cr_Reject res = true <-> unanswered (bl_bls bl) ip ehlo mailFrom \/ bl_rejectThres bl <= n) /\
  (cr_Quarantine res = true <-> ~ unanswered (bl_bls bl) ip ehlo mailFrom /\ bl_quarantineThres bl <= n < bl_rejectThres bl) /\
  (cr_Reason res = None <-> ~ unanswered (bl_bls bl) ip ehlo mailFrom /\ n < bl_quarantineThres bl /\ n < bl_rejectThres bl) /\
  (cr_Reason res = None -> res = CheckResult_zero) /\
  (unanswered (bl_bls bl) ip ehlo mailFrom ->
   exists l e, l ∈ bl_bls bl /\ checkList l ip ehlo mailFrom = Failed e /\
     exists ench, cr_Reason res = Some (ESMTP (SMTPCode (Some e) 451 554) ench "DNS error during policy check" "dnsbl" "" "" "" (Some e) ∅)).
Proof.
  intros Hp res n. destruct (gather_perm _ _ (asked_perm _ _ ip ehlo mailFrom Hp)) as [Hg1 Hg2].
  destruct (gather_asked order ip ehlo mailFrom) as (_ & _ & He).
  destruct (gather_asked (bl_bls bl) ip ehlo mailFrom) as (Hn & Hu & _).
  unfold res, checkLists. destruct (gather _) as [[e|] sc]; simpl in *.
  - assert (unanswered (bl_bls bl) ip ehlo mailFrom).
    { destruct (He e eq_refl) as (l & Hin & Hf). exists l, e. by rewrite <- Hp. }
    split_and!; try naive_solver. intros _. destruct (He e eq_refl) as (l & Hin & Hf). rewrite Hp in Hin.
    exists l, e. split_and!; [done..|]. by eexists.
  - assert (~ unanswered (bl_bls bl) ip ehlo mailFrom) by naive_solver. fold n in Hn. rewrite Hg2, Hn.
    destruct (Z.leb_spec (bl_rejectThres bl) n); [|destruct (Z.leb_spec (bl_quarantineThres bl) n)]; simpl;
      split_and!; try naive_solver lia.
Qed.
End Dnsbl.

(** ** Query names *)

Definition dot : ascii := "."%char.
Definition ip_bytes (ip : IP) : Prop := Forall (fun b => 0 <= b < 256) ip.
Definition low (o : Z) : string := hex_digit (Z.land o 15).
Definition high (o : Z) : string := hex_digit (Z.shiftr (Z.land o 240) 4).
#[local] Arguments low : simpl never.
#[local] Arguments high : simpl never.
#[local] Arguments FormatUint : simpl never.

Lemma low_high_small : forallb (fun k =>
  let o := Z.of_nat k in negb (has_byte dot (low o)) && negb (has_byte dot (high o)) &&
  forallb (fun k' => let o' := Z.of_nat k' in
    negb (bool_decide (low o = low o') && bool_decide (high o = high o')) || (k =? k')%nat) (seq 0 256)) (seq 0 256) = true.
Proof. vm_compute. reflexivity. Qed.
Lemma byte_in_seq o : 0 <= o < 256 -> In (Z.to_nat o) (seq 0 256) /\ Z.of_nat (Z.to_nat o) = o.
Proof. intros Ho. rewrite in_seq. lia. Qed.
Lemma nibbles_inj o o' : 0 <= o < 256 -> 0 <= o' < 256 -> low o = low o' -> high o = high o' -> o = o'.
Proof.
  intros (Hi & E)%byte_in_seq (Hi' & E')%byte_in_seq Hl Hh. pose proof low_high_small as Hs.
  rewrite forallb_forall in Hs. specialize (Hs _ Hi). cbv zeta in Hs. rewrite !andb_true_iff, forallb_forall in Hs.
  destruct Hs as (_ & Hs). specialize (Hs _ Hi'). rewrite E, E', !bool_decide_true in Hs by done. simpl in Hs. lia.
Qed.
Lemma nibbles_no_dot o : 0 <= o < 256 -> has_byte dot (low o) = false /\ has_byte dot (high o) = false.
Proof.
  intros (Hi & E)%byte_in_seq. pose proof low_high_small as Hs. rewrite forallb_forall in Hs. specialize (Hs _ Hi).
  cbv zeta in Hs. rewrite E, !andb_true_iff, !negb_true_iff in Hs. tauto.
Qed.

(** The labels of a query *)
Definition query_labels (ipv6 : bool) (octets : list Z) : list string :=
  flat_map (fun o => if ipv6 then [low o; high o] else [FormatUint o]) octets.
Lemma query_labels_no_dot ipv6 l : ip_bytes l -> Forall (fun p => has_byte dot p = false) (query_labels ipv6 l).
Proof.
  induction 1 as [|o l Ho Hl IH]; [constructor|]. simpl. destruct ipv6; simpl.
  - destruct (nibbles_no_dot o Ho). by repeat constructor.
  - constructor; [|done]. apply FormatUint_no_byte; [unfold maxUint64; lia|left; vm_compute; done].
Qed.
Lemma Join_query ipv6 l : JoinByte (map (octet_query ipv6) l) dot = JoinByte (query_labels ipv6 l) dot.
Proof.
  induction l as [|o l IH]; [done|]. destruct l as [|o' l].
  - destruct ipv6; [|done]. reflexivity.
  - change (JoinByte (map (octet_query ipv6) (o :: o' :: l)) dot)
      with (octet_query ipv6 o +:+ String dot (JoinByte (map (octet_query ipv6) (o' :: l)) dot)).
    rewrite IH. destruct ipv6; [|reflexivity]. simpl. unfold low, high. by rewrite str_app_assoc.
Qed.
Lemma cons_eq {A} (a b : A) l k : a :: l = b :: k -> a = b /\ l = k.
Proof. intros E. by injection E. Qed.
Lemma query_labels_inj ipv6 l l' :
  ip_bytes l -> ip_bytes l' -> query_labels ipv6 l = query_labels ipv6 l' -> l = l'.
Proof.
  intros Hl. revert l'. induction Hl as [|o l Ho Hl IH]; intros [|o' l'] Hl' E; [done| | |].
  - by destruct ipv6.
  - by destruct ipv6.
  - apply Forall_cons in Hl' as [Ho' Hl']. destruct ipv6; simpl in E.
    + apply cons_eq in E as [E1 [E2 E]%cons_eq]. f_equal; [by apply nibbles_inj|by apply IH].
    + apply cons_eq in E as [E1 E]. f_equal; [|by apply IH].
      assert (ParseUint (FormatUint o) 8 = ParseUint (FormatUint o') 8) as Hp by (by rewrite E1).
      rewrite !ParseUint_Format in Hp by lia. by injection Hp.
Qed.

(** The address and its family *)
Definition canonical (ip : IP) : IP * bool := match To4 ip with Some v4 => (v4, false) | None => (ip, true) end.
Definition valid_ip (ip : IP) : Prop := ip_bytes ip /\ (length ip = 4 \/ length ip = 16)%nat.
Lemma canonical_bytes ip : valid_ip ip -> ip_bytes (canonical ip).1 /\ length (canonical ip).1 = if (canonical ip).2 then 16%nat else 4%nat.
Proof.
  intros [Hb Hl]. unfold canonical, To4. destruct (decide _); [done|]. destruct (decide _) as [[? _]|]; simpl.
  - split; [by apply Forall_drop|]. rewrite length_drop. lia.
  - split; [done|]. lia.
Qed.
Lemma query_labels_length ipv6 l : length (query_labels ipv6 l) = ((if ipv6 then 2 else 1) * length l)%nat.
Proof. induction l as [|o l IH]; [by destruct ipv6|]. simpl. rewrite length_app, IH. destruct ipv6; simpl; lia. Qed.

(** Different addresses are asked under different names; an IPv4-mapped address is
    asked as the IPv4 address. *)
Theorem queryString_inj ip ip' :
  valid_ip ip -> valid_ip ip' -> queryString ip = queryString ip' -> canonical ip = canonical ip'.
Proof.
  intros Hv Hv' E. destruct (canonical_bytes ip Hv) as [Hb Hl]. destruct (canonical_bytes ip' Hv') as [Hb' Hl'].
  unfold queryString in E. fold (canonical ip) (canonical ip') dot in E.
  destruct (canonical ip) as [l v6], (canonical ip') as [l' v6']. simpl in *. rewrite !Join_query in E.
  assert (forall v l, length l = (if v : bool then 16 else 4)%nat -> query_labels v (rev l) <> []) as Hne.
  { intros v k Hk Hn. apply (f_equal length) in Hn. rewrite query_labels_length, length_rev in Hn. destruct v; simpl in Hn; lia. }
  assert (query_labels v6 (rev l) = query_labels v6' (rev l')) as El.
  { rewrite <- (SplitByte_Join (query_labels v6 (rev l)) dot), <- (SplitByte_Join (query_labels v6' (rev l')) dot);
      [by rewrite E|auto|by apply query_labels_no_dot, Forall_rev|auto|by apply query_labels_no_dot, Forall_rev]. }
  assert (v6 = v6') as <-.
  { apply (f_equal length) in El. rewrite !query_labels_length, !length_rev in El. destruct v6, v6'; simpl in *; (done || lia). }
  f_equal. rewrite <- (rev_involutive l), <- (rev_involutive l'). f_equal. by apply (query_labels_inj v6); [apply Forall_rev..|].
Qed.

(** ** A blocklist *)

#[local] Existing Instance ascii_tables.
#[local] Existing Instance identity_text.
#[local] Existing Instance pair_textproto.

(** One that lists 192.0.2.1 and has the entry for tests. *)
Definition bl_answer (q : string) : Result gerror (list IP) :=
  if decide (q = "1.2.0.192.bl.example" \/ q = "2.0.0.127.bl.example") then Ok [[127; 0; 0; 2]]
  else Err (EDNS "no such host" true false false).
Definition sample_resolver : Resolver :=
  mkResolver (fun _ => Err (EDNS "no such host" true false false)) bl_answer (fun _ => Ok []).
Definition sample_nets : list IPNet := [mkIPNet [127; 0; 0; 0] [255; 255; 255; 0]].
Definition good_list : List := mkList "bl.example" true true false false 5 sample_nets.
Definition other_list : List := mkList "wl.example" true true false false (-1) sample_nets.
Definition sample_bl : DNSBL := mkDNSBL true [good_list; other_list] 1 5 sample_resolver.
Definition no_string (_ : IP) : string := "".

Lemma checkLists_verdict_witness :
  let res := checkLists no_string sample_bl [other_list; good_list] [192; 0; 2; 1] "client" "" in
  cr_Reject res = true /\ cr_Quarantine res = false.
Proof.
  destruct (checkLists_verdict no_string sample_bl [other_list; good_list] [192; 0; 2; 1] "client" "") as ([_ H1] & [H2 _] & _).
  - apply perm_swap.
  - split; [apply H1; right; vm_compute; discriminate|reflexivity].
Defined.

(** A list given as an argument has the score 0: the client it lists passes. *)
Example inline_list_has_no_effect :
  let bl := mkDNSBL true (inline_lists ["bl.example"]) 1 9999 sample_resolver in
  checkLists no_string bl (bl_bls bl) [192; 0; 2; 1] "client" "" = CheckResult_zero /\
  checkList no_string bl (with_zone "bl.example" defaultBL) [192; 0; 2; 1] "client" "" <> NotListed.
Proof. split; [vm_compute; reflexivity|vm_compute; discriminate]. Qed.

(** A bracketed EHLO name ends the checks of a list before the sender is looked at. *)
Example address_literal_skips_sender l ip mailFrom :
  ClientIPv4 l = false -> ClientIPv6 l = false -> EHLO l = true ->
  checkList no_string sample_bl l ip "[192.0.2.1]" mailFrom = NotListed.
Proof. intros H4 H6 He. unfold checkList. rewrite H4, H6, He. reflexivity. Qed.

(** The tests for IPv6 ask for IPv4-mapped addresses, which a list of IPv6 addresses
    alone never looks up: it is always reported. *)
Example v6_test_always_warns r l :
  ClientIPv4 l = false -> ClientIPv6 l = true -> EHLO l = false -> MAILFROM l = false ->
  testList no_string r l = ["List does not contain a test record for ::FFFF:7F00:2"].
Proof. intros H4 H6 He Hm. unfold testList, checkIP. rewrite H4, H6, He, Hm. reflexivity. Qed.

Example queryString_v6 :
  queryString ([32; 1; 13; 184] ++ repeat 0 11 ++ [255])
  = "f.f.0.0.0.0.0.0.0.0.0.0.0.0.0.0.0.0.0.0.0.0.0.0.8.b.d.0.1.0.0.2".
Proof. vm_compute. reflexivity. Qed.
