(* ===== verification/Modify.v ===== *)
(** * Modify: internal/modify/group.go and replace_addr.go

    Modifiers rewrite the sender, the recipients and the header of a message.  A
    Modifier makes a state object for a message; both are records of programs, as
    in Module.  The rewriters return a value that is meaningless next to an error,
    hence a [Result]; RewriteBody changes the header through a pointer and
    returns it with the error. *)
From S2P Require Import Prelude GoStr ExtErrors Address Checks Module Tables.
From Stdlib Require Import Ascii.

Section Modify.
Context `{Textproto} `{UnicodeTables} `{TextLib}.

(** module.ModifierState and module.Modifier *)
Record ModifierState (W : Type) := mkModifierState {
  ms_RewriteSender : string -> Prog W (Result gerror string);
  ms_RewriteRcpt : string -> Prog W (Result gerror (list string));
  ms_RewriteBody : header -> Buffer -> Prog W (header * error);
  ms_Close : Prog W error
}.
Record Modifier (W : Type) := mkModifier {
  mod_ModStateForMsg : MsgMetadata -> Prog W (Result gerror (ModifierState W))
}.
Arguments ms_RewriteSender {_} _ _.
Arguments ms_RewriteRcpt {_} _ _.
Arguments ms_RewriteBody {_} _ _ _.
Arguments ms_Close {_} _.
Arguments mkModifierState {_} _ _ _ _.
Arguments mod_ModStateForMsg {_} _ _.
Arguments mkModifier {_} _.

(** ** Group *)

Section Group.
Context {W : Type}.
Implicit Types states : list (ModifierState W).

(** The loop that releases the states made so far. *)
Definition close_states states : Prog W unit := for_each (fun s => ms_Close s ;; mret tt) states.

Fixpoint group_states (mods : list (Modifier W)) (mm : MsgMetadata) states
  : Prog W (Result gerror (list (ModifierState W))) :=
  match mods with
  | [] => mret (Ok states)
  | modifier :: mods =>
    r ← mod_ModStateForMsg modifier mm;
    match r with
    | Err e => close_states states ;; mret (Err e)
    | Ok state => group_states mods mm (states ++ [state])
    end
  end.

Fixpoint group_RewriteSender states (mailFrom : string) : Prog W (Result gerror string) :=
  match states with
  | [] => mret (Ok mailFrom)
  | state :: states =>
    r ← ms_RewriteSender state mailFrom;
    match r with
    | Err e => mret (Err e)
    | Ok mailFrom => group_RewriteSender states mailFrom
    end
  end.

(** One state over all results so far. *)
Fixpoint rewrite_results (state : ModifierState W) (result intermediate : list string)
  : Prog W (Result gerror (list string)) :=
  match result with
  | [] => mret (Ok intermediate)
  | part :: result =>
    r ← ms_RewriteRcpt state part;
    match r with
    | Err e => mret (Err e)
    | Ok multi => rewrite_results state result (intermediate ++ multi)
    end
  end.
Fixpoint group_RewriteRcpts states (result : list string) : Prog W (Result gerror (list string)) :=
  match states with
  | [] => mret (Ok result)
  | state :: states =>
    r ← rewrite_results state result [];
    match r with
    | Err e => mret (Err e)
    | Ok result => group_RewriteRcpts states result
    end
  end.
Definition group_RewriteRcpt states (rcptTo : string) := group_RewriteRcpts states [rcptTo].

Fixpoint group_RewriteBody states (h : header) (body : Buffer) : Prog W (header * error) :=
  match states with
  | [] => mret (h, None)
  | state :: states =>
    r ← ms_RewriteBody state h body;
    match r with
    | (h, Some e) => mret (h, Some e)
    | (h, None) => group_RewriteBody states h body
    end
  end.

(** Every state is closed; the last error is returned. *)
Fixpoint group_Close_loop states (lastErr : error) : Prog W error :=
  match states with
  | [] => mret lastErr
  | state :: states =>
    r ← ms_Close state;
    group_Close_loop states (match r with Some e => Some e | None => lastErr end)
  end.
Definition group_Close states : Prog W error := group_Close_loop states None.

Definition group_state states : ModifierState W :=
  mkModifierState (group_RewriteSender states) (group_RewriteRcpt states) (group_RewriteBody states)
    (group_Close states).

Definition Group_ModStateForMsg (mods : list (Modifier W)) (mm : MsgMetadata)
  : Prog W (Result gerror (ModifierState W)) :=
  r ← group_states mods mm [];
  mret (match r with Ok states => Ok (group_state states) | Err e => Err e end).

(** A group is a modifier. *)
Definition Group_modifier (mods : list (Modifier W)) : Modifier W := mkModifier (Group_ModStateForMsg mods).
End Group.

(** ** replace_sender and replace_rcpt *)

Definition errMalformed (err : gerror) : gerror := EErrorf ("malformed address: " +:+ Error err) None.
Definition errRefuse (replacement : string) : gerror :=
  EErrorf ("refusing to replace recipient with the invalid address " +:+ replacement) None.
Definition errRefuseLocal (replacement : string) : gerror :=
  EErrorf ("refusing to replace recipient with invalid address " +:+ replacement) None.

Section ReplaceAddr.
Context {W : Type} (LookupMulti : string -> Prog W (Result gerror (list string))).

(** A replacement for the local part alone: a whole address, or a new local part. *)
Definition replace_local (domain replacement : string) : Result gerror string :=
  if ContainsByte replacement at_sign && negb (HasPrefix replacement dquote) && negb (HasSuffix replacement dquote)
  then if Valid replacement then Ok replacement else Err (errRefuseLocal replacement)
  else Ok (replacement +:+ at_str +:+ domain).
Fixpoint replace_locals (domain : string) (replacements : list string) : Result gerror (list string) :=
  match replacements with
  | [] => Ok []
  | x :: l => y ← replace_local domain x; ys ← replace_locals domain l; Ok (y :: ys)
  end.

Definition replaceAddr_rewrite (val : string) : Prog W (Result gerror (list string)) :=
  match ForLookup val with
  | (_, Some err) => mret (Err (errMalformed err))
  | (normAddr, None) =>
    r ← LookupMulti normAddr;
    match r with
    | Err e => mret (Err e)
    | Ok ((_ :: _) as replacements) =>
      match find (fun x => negb (Valid x)) replacements with
      | Some bad => mret (Err (errRefuse bad))
      | None => mret (Ok replacements)
      end
    | Ok [] =>
      match Split normAddr with
      | Err _ => mret (Ok [val])
      | Ok (mbox, domain) =>
        r ← LookupMulti mbox;
        match r with
        | Err e => mret (Err e)
        | Ok ((_ :: _) as replacements) => mret (replace_locals domain replacements)
        | Ok [] => mret (Ok [val])
        end
      end
    end
  end.

Definition replaceAddr_RewriteSender (replaceSender : bool) (mailFrom : string)
  : Prog W (Result gerror string) :=
  if replaceSender then
    r ← replaceAddr_rewrite mailFrom;
    match r with
    | Err e => mret (Err e)
    | Ok [] => panic index_panic
    | Ok (x :: _) => mret (Ok x)
    end
  else mret (Ok mailFrom).

Definition replaceAddr_RewriteRcpt (replaceRcpt : bool) (rcptTo : string)
  : Prog W (Result gerror (list string)) :=
  if replaceRcpt then replaceAddr_rewrite rcptTo else mret (Ok [rcptTo]).

Definition replaceAddr_state (replaceSender replaceRcpt : bool) : ModifierState W :=
  mkModifierState (replaceAddr_RewriteSender replaceSender) (replaceAddr_RewriteRcpt replaceRcpt)
    (fun h _ => mret (h, None)) (mret None).
Definition replaceAddr_modifier (modName : string) : Modifier W :=
  mkModifier (fun _ => mret (Ok (replaceAddr_state (bool_decide (modName = "modify.replace_sender"))
                                                   (bool_decide (modName = "modify.replace_rcpt"))))).
End ReplaceAddr.

(** ** Facts about groups *)

Section GroupTrace.
Context {W : Type}.

(** The states made and closed, by the position of their modifier. *)
Inductive mod_event := MOpen (i : nat) | MClose (i : nat).

Definition unlogged {A} (m : Prog W A) : Prog (W * list mod_event) A :=
  lift fst (fun w p => (w, p.2)) m.

Definition traced_state (i : nat) (s : ModifierState W) : ModifierState (W * list mod_event) :=
  mkModifierState (fun a => unlogged (ms_RewriteSender s a)) (fun a => unlogged (ms_RewriteRcpt s a))
    (fun h b => unlogged (ms_RewriteBody s h b))
    (r ← unlogged (ms_Close s); modify (fun p => (p.1, p.2 ++ [MClose i])) ;; mret r).

Definition traced_modifier (i : nat) (m : Modifier W) : Modifier (W * list mod_event) :=
  mkModifier (fun mm =>
    r ← unlogged (mod_ModStateForMsg m mm);
    match r with
    | Err e => mret (Err e)
    | Ok s => modify (fun p => (p.1, p.2 ++ [MOpen i])) ;; mret (Ok (traced_state i s))
    end).

Lemma unlogged_Done {A} (m : Prog W A) w tr p a :
  unlogged m (w, tr) = (p, Done a) -> exists w', p = (w', tr).
Proof. unfold unlogged, lift. simpl. destruct (m w). intros ?. simplify_eq. eauto. Qed.

Lemma traced_Close i s w tr p e :
  ms_Close (traced_state i s) (w, tr) = (p, Done e) -> exists w', p = (w', tr ++ [MClose i]).
Proof.
  simpl. intros E. apply prog_bind_Done in E as (p1 & r & E1 & E).
  apply unlogged_Done in E1 as [w1 ->]. cbv [modify mbind prog_bind mret prog_ret] in E. simplify_eq/=. eauto.
Qed.

(** States made from the modifiers [k], [k + 1], ... *)
Definition states_from (k : nat) (ss : list (ModifierState (W * list mod_event))) : Prop :=
  exists raw, ss = imap (fun i s => traced_state (k + i) s) raw.

Lemma close_states_trace ss k w tr p :
  states_from k ss -> close_states ss (w, tr) = (p, Done tt) ->
  exists w', p = (w', tr ++ map MClose (seq k (length ss))).
Proof.
  intros [raw ->]. revert k w tr. induction raw as [|s raw IH]; intros k w tr E.
  - cbv in E. simplify_eq. exists w. by rewrite app_nil_r.
  - unfold close_states in E. simpl in E.
    apply prog_bind_Done in E as (p1 & u & E1 & E).
    apply prog_bind_Done in E1 as (p2 & e & E1 & E2). cbv [mret prog_ret] in E2. simplify_eq.
    apply traced_Close in E1 as [w1 ->].
    assert (imap ((fun i s => traced_state (k + i) s) ∘ S) raw = imap (fun i s => traced_state (S k + i) s) raw)
      as Ei by (apply imap_ext; intros; simpl; f_equal; lia).
    rewrite Ei in E. apply IH in E as [w2 ->]. exists w2. rewrite !length_imap. simpl.
    by rewrite Nat.add_0_r, <- app_assoc.
Qed.

Lemma Close_loop_trace ss k w tr p e e' :
  states_from k ss -> group_Close_loop ss e (w, tr) = (p, Done e') ->
  exists w', p = (w', tr ++ map MClose (seq k (length ss))).
Proof.
  intros [raw ->]. revert k w tr e. induction raw as [|s raw IH]; intros k w tr e E.
  - cbv in E. simplify_eq. exists w. by rewrite app_nil_r.
  - cbn [imap group_Close_loop] in E.
    apply prog_bind_Done in E as (p1 & u & E1 & E). apply traced_Close in E1 as [w1 ->].
    assert (imap ((fun i s => traced_state (k + i) s) ∘ S) raw = imap (fun i s => traced_state (S k + i) s) raw)
      as Ei by (apply imap_ext; intros; simpl; f_equal; lia).
    rewrite Ei in E. apply IH in E as [w2 ->]. exists w2. rewrite !length_imap. simpl.
    by rewrite Nat.add_0_r, <- app_assoc.
Qed.

Lemma states_from_snoc ss s : states_from 0 ss -> states_from 0 (ss ++ [traced_state (length ss) s]).
Proof.
  intros [raw ->]. exists (raw ++ [s]). by rewrite imap_app, length_imap; simpl; rewrite Nat.add_0_r.
Qed.

Lemma group_states_trace (ms : list (Modifier W)) mm ss w tr p r :
  states_from 0 ss ->
  group_states (imap (fun i => traced_modifier (length ss + i)) ms) mm ss (w, tr) = (p, Done r) ->
  match r with
  | Ok ss' => states_from 0 ss' /\ length ss' = (length ss + length ms)%nat /\
      exists w', p = (w', tr ++ map MOpen (seq (length ss) (length ms)))
  | Err _ => exists w' j, (j < length ms)%nat /\
      p = (w', tr ++ map MOpen (seq (length ss) j) ++ map MClose (seq 0 (length ss + j)))
  end.
Proof.
  revert ss w tr. induction ms as [|m ms IH]; intros ss w tr Hs E.
  - cbv [imap group_states mret prog_ret] in E. simplify_eq. rewrite Nat.add_0_r.
    split; [done|]. split; [done|]. exists w. by rewrite app_nil_r.
  - cbn [imap group_states] in E. rewrite Nat.add_0_r in E.
    apply prog_bind_Done in E as (p1 & r1 & E1 & E). simpl in E1.
    apply prog_bind_Done in E1 as (p2 & r2 & E1 & E2). apply unlogged_Done in E1 as [w1 ->].
    destruct r2 as [s|e].
    + cbv [modify mbind prog_bind mret prog_ret] in E2. simplify_eq/=.
      pose proof (states_from_snoc ss s Hs) as Hs'. set (ss1 := ss ++ [_]) in *.
      assert (length ss1 = S (length ss)) as Hl by (unfold ss1; rewrite length_app; simpl; lia).
      assert (imap ((fun i => traced_modifier (length ss + i)) ∘ S) ms
              = imap (fun i => traced_modifier (length ss1 + i)) ms) as Ei
        by (apply imap_ext; intros; simpl; f_equal; lia).
      rewrite Ei in E. apply IH in E; [|done]. rewrite Hl in E.
      destruct r as [ss'|e]; [|destruct E as (w' & j & Hj & ->); exists w', (S j); split; [lia|]].
      * destruct E as (? & -> & w' & ->). split; [done|]. split; [lia|]. exists w'. by rewrite <- app_assoc.
      * simpl. rewrite <- !app_assoc. simpl. by rewrite Nat.add_succ_r.
    + cbv [mret prog_ret] in E2. simplify_eq.
      apply prog_bind_Done in E as (p3 & [] & E3 & E). cbv [mret prog_ret] in E. simplify_eq.
      apply (close_states_trace _ 0) in E3 as [w2 ->]; [|done].
      exists w2, 0%nat. split; [simpl; lia|]. by rewrite Nat.add_0_r.
Qed.

(** A group of modifiers never leaks the state of one of them.  The states
    are made in the order of the modifiers; when one cannot be made, exactly
    those made before it are closed, once each; and closing the state of the
    whole group closes each of them once, also when some Close fails. *)
Theorem group_releases_states (ms : list (Modifier W)) mm w p r
  (Hrun : Group_ModStateForMsg (imap traced_modifier ms) mm (w, []) = (p, Done r)) :
  match r with
  | Ok gs => p.2 = map MOpen (seq 0 (length ms)) /\
      forall w2 tr2 p3 e, ms_Close gs (w2, tr2) = (p3, Done e) ->
        p3.2 = tr2 ++ map MClose (seq 0 (length ms))
  | Err _ => exists k, (k < length ms)%nat /\
      p.2 = map MOpen (seq 0 k) ++ map MClose (seq 0 k)
  end.
Proof.
  unfold Group_ModStateForMsg in Hrun. apply prog_bind_Done in Hrun as (p1 & r1 & E1 & E).
  cbv [mret prog_ret] in E. simplify_eq.
  apply (group_states_trace ms mm [] w []) in E1; [|by exists []].
  destruct r1 as [ss|e]; simpl in E1.
  - destruct E1 as (Hs & Hl & w' & ->). split; [done|]. intros w2 tr2 p3 e Hc. simpl in Hc.
    apply (Close_loop_trace _ 0) in Hc as [w3 ->]; [|done]. by rewrite Hl.
  - destruct E1 as (w' & j & Hj & ->). eauto.
Qed.
End GroupTrace.

(** ** Facts about replace_sender and replace_rcpt *)

Section ReplaceFacts.
Context {W : Type} (LookupMulti : string -> Prog W (Result gerror (list string))).

Lemma replace_locals_spec domain replacements ys :
  replace_locals domain replacements = Ok ys ->
  length ys = length replacements /\
  forall y, y ∈ ys -> Valid y = true \/ exists x, x ∈ replacements /\ y = x +:+ at_str +:+ domain.
Proof.
  revert ys. induction replacements as [|x l IH]; intros ys E; simpl in E.
  { simplify_eq. split; [done|]. set_solver. }
  apply bind_Ok in E as (y & Ey & E). apply bind_Ok in E as (ys' & Eys & E). simplify_eq.
  destruct (IH _ Eys) as [Hl Hin]. split; [simpl; by rewrite Hl|].
  intros y' [->|Hy]%elem_of_cons.
  - unfold replace_local in Ey. destruct (_ && _ && _).
    + destruct (Valid x) eqn:V; [|done]. simplify_eq. by left.
    + simplify_eq. right. exists x. split; [left|done].
  - destruct (Hin _ Hy) as [?|(z & Hz & ->)]; [by left|]. right. exists z. split; [by right|done].
Qed.

(** Replace_sender and replace_rcpt never invent an address: a successful
    rewrite yields at least one address, and each is the original one, a valid
    address, or a replacement for the local part put before the domain of the
    original.  So replace_sender always has a first result to use. *)
Theorem replaceAddr_results val w w' results
  (Hrun : replaceAddr_rewrite LookupMulti val w = (w', Done (Ok results))) :
  results <> [] /\
  forall x, x ∈ results ->
    x = val \/ Valid x = true \/
    exists mbox domain repl, Split (ForLookup val).1 = Ok (mbox, domain) /\ x = repl +:+ at_str +:+ domain.
Proof.
  unfold replaceAddr_rewrite in Hrun. destruct (ForLookup val) as [norm [err|]]; simpl; [done|].
  apply prog_bind_Done in Hrun as (w1 & r1 & _ & E).
  destruct r1 as [[|x0 l]|e]; [| |done].
  - destruct (Split norm) as [[mbox domain]|err] eqn:Es.
    2:{ cbv [mret prog_ret] in E. simplify_eq. split; [done|]. set_solver. }
    apply prog_bind_Done in E as (w2 & r2 & _ & E).
    destruct r2 as [[|x0 l]|e]; [| |done]; cbv [mret prog_ret] in E.
    + simplify_eq. split; [done|]. set_solver.
    + assert (replace_locals domain (x0 :: l) = Ok results) as Er by congruence.
      destruct (replace_locals_spec domain (x0 :: l) results Er) as [Hl Hin].
      split; [intros ->; done|]. intros x Hx. right.
      destruct (Hin x Hx) as [?|(z & _ & ->)]; [by left|]. right. eauto.
  - destruct (find _ (x0 :: l)) eqn:Ef; [done|]. cbv [mret prog_ret] in E. simplify_eq.
    split; [done|]. intros x Hx. right. left.
    apply list_elem_of_In in Hx. apply (find_none _ _ Ef) in Hx. by destruct (Valid x).
Qed.
End ReplaceFacts.
End Modify.

Arguments ms_RewriteSender {_ _} _ _.
Arguments ms_RewriteRcpt {_ _} _ _.
Arguments ms_RewriteBody {_ _} _ _ _.
Arguments ms_Close {_ _} _.
Arguments mkModifierState {_ _} _ _ _ _.
Arguments mod_ModStateForMsg {_ _} _ _.
Arguments mkModifier {_ _} _.

(** ** Witnesses *)

Definition null_state : ModifierState (H := list_textproto) unit :=
  mkModifierState (H := list_textproto) (fun s => mret (Ok s)) (fun r => mret (Ok [r]))
    (fun h _ => mret (h, None)) (mret None).
Definition sample_mods : list (Modifier (H := list_textproto) unit) :=
  [mkModifier (H := list_textproto) (fun _ => mret (Ok null_state));
   mkModifier (H := list_textproto) (fun _ => mret (Ok null_state));
   mkModifier (H := list_textproto) (fun _ => mret (Err (ENew "cannot start")))].
Definition sample_mm : MsgMetadata :=
  mkMsgMetadata "1a2b3c4d" "a@example.org" false false ∅ (mkMailOptions 0 true false) None false.

Lemma group_releases_states_witness :
  exists k, (k < 3)%nat /\
    [MOpen 0; MOpen 1; MClose 0; MClose 1] = map MOpen (seq 0 k) ++ map MClose (seq 0 k).
Proof.
  apply (group_releases_states (H := list_textproto) sample_mods sample_mm tt
           (tt, [MOpen 0; MOpen 1; MClose 0; MClose 1]) (Err (ENew "cannot start"))).
  vm_compute. reflexivity.
Defined.

Definition sample_rewrite :=
  @replaceAddr_rewrite ascii_tables identity_text unit
    (fun key => mret (Ok (Static_LookupMulti {["postmaster" := ["admin"]]} key))) "Postmaster@example.org".

Lemma replaceAddr_results_witness :
  sample_rewrite tt = (tt, Done (Ok ["admin@example.org"])) /\ ["admin@example.org"] <> [].
Proof.
  split; [vm_compute; reflexivity|].
  refine (proj1 (@replaceAddr_results ascii_tables identity_text unit
    (fun key => mret (Ok (Static_LookupMulti {["postmaster" := ["admin"]]} key))) "Postmaster@example.org"
    tt tt ["admin@example.org"] _)).
  vm_compute. reflexivity.
Defined.
