(* ===== verification/Dmarc.v ===== *)
(** * Dmarc: internal/dmarc

    Fetching and applying a DMARC policy.  The public suffix list, the record
    parser of go-msgauth and the parser of address lists are the class
    [DmarcLib]; the resolver and the random number of the pct test are
    arguments. *)
From S2P Require Import Prelude GoStr ExtErrors Address Checks.
From Stdlib Require Import Ascii ZifyBool.

Local Open Scope Z_scope.

Inductive AlignmentMode := AlignmentStrict | AlignmentRelaxed.

(** dmarc.Record of go-msgauth: the fields the source reads.  A Policy is a
    string. *)
Record dmarc_Record := mkDmarcRecord {
  rec_Policy : string;
  rec_SubdomainPolicy : string;
  rec_DKIMAlignment : AlignmentMode;
  rec_SPFAlignment : AlignmentMode;
  rec_Percent : option Z
}.
Definition PolicyNone : string := "none".
Definition PolicyReject : string := "reject".
Definition PolicyQuarantine : string := "quarantine".

(** authres.ResultValue *)
Definition ResultNone : string := "none".
Definition ResultPass : string := "pass".
Definition ResultFail : string := "fail".
Definition ResultTempError : string := "temperror".
Definition ResultPermError : string := "permerror".

Class DmarcLib := {
  dns_Fqdn : string -> string;                               (* dns.Fqdn of miekg/dns *)
  EffectiveTLDPlusOne : string -> Result gerror string;
  PublicSuffix : string -> string;
  dmarc_Parse : string -> Result gerror dmarc_Record;
  ParseAddressList : string -> Result gerror (list string)   (* the Address of each *)
}.

(** authres.DMARCResult, SPFResult and DKIMResult. *)
Record DMARCResult := mkDMARC { dm_Value : string; dm_Reason : string; dm_From : string }.
Record SPFResult := mkSPF { spf_Value : string; spf_Reason : string; spf_From : string; spf_Helo : string }.
Record DKIMResult := mkDKIM { dkim_Value : string; dkim_Reason : string; dkim_Domain : string; dkim_Identifier : string }.
Definition SPF_zero := mkSPF "" "" "" "".
Definition DKIM_zero := mkDKIM "" "" "" "".

Record EvalResult := mkEval {
  ev_Authres : DMARCResult;
  ev_SPFResult : SPFResult;
  ev_SPFAligned : bool;
  ev_DKIMResult : DKIMResult;
  ev_DKIMAligned : bool
}.

Section Dmarc.
Context `{UnicodeTables} `{DmarcLib} `{Textproto}.

(** ** FetchRecord *)

Section Fetch.
(** r.LookupTXT *)
Context {W : Type} (LookupTXT : string -> Prog W (list string * error)).

(** framework/dns/norm.go *)
Definition dns_FQDN (domain : string) : string := dns_Fqdn domain.

(** The error that ends the lookup: none for a DNSError with IsNotFound set. *)
Definition txt_failed (err : error) : option gerror :=
  match err with
  | None => None
  | Some (EDNS m notfound t tmp) => if notfound then None else Some (EDNS m notfound t tmp)
  | Some e => Some e
  end.

(** The records that are DMARC policies: exactly one is needed. *)
Definition pick_record (policyDomain : string) (txts : list string)
  : string * option dmarc_Record * error :=
  match filter (fun txt => HasPrefix txt "v=DMARC1") txts with
  | [txt] => match dmarc_Parse txt with
             | Ok rec => (policyDomain, Some rec, None)
             | Err e => (policyDomain, None, Some e)
             end
  | _ => ("", None, None)
  end.

Definition FetchRecord (fromDomain : string) : Prog W (string * option dmarc_Record * error) :=
  '(txts, err) ← LookupTXT (dns_FQDN ("_dmarc." +:+ fromDomain));
  match txt_failed err with
  | Some e => mret ("", None, Some e)
  | None =>
    match txts with
    | _ :: _ => mret (pick_record fromDomain txts)
    | [] =>
      match EffectiveTLDPlusOne fromDomain with
      | Err e => mret ("", None, Some e)
      | Ok orgDomain =>
        '(txts, err) ← LookupTXT (dns_FQDN ("_dmarc." +:+ orgDomain));
        match txt_failed err with
        | Some e => mret ("", None, Some e)
        | None =>
          match txts with
          | [] => mret ("", None, None)
          | _ :: _ => mret (pick_record orgDomain txts)
          end
        end
      end
    end
  end.
End Fetch.

(** ** EvaluateAlignment *)

Definition isAligned (fromDomain authDomain : string) (mode : AlignmentMode) : bool :=
  match mode with
  | AlignmentStrict => EqualFold fromDomain authDomain
  | AlignmentRelaxed =>
    if EqualFold fromDomain (PublicSuffix fromDomain) then EqualFold fromDomain authDomain
    else match EffectiveTLDPlusOne fromDomain, EffectiveTLDPlusOne authDomain with
         | Ok orgDomainFrom, Ok authDomainFrom => EqualFold orgDomainFrom authDomainFrom
         | _, _ => false
         end
  end.

(** The variables of the loop over the results. *)
Record align_st := mkAlign {
  al_spfAligned : bool;
  al_spfResult : SPFResult;
  al_dkimAligned : bool;
  al_dkimResult : DKIMResult;
  al_dkimPresent : bool;
  al_dkimTempFail : bool
}.
Definition align_init := mkAlign false SPF_zero false DKIM_zero false false.

Definition align_step (fromDomain : string) (record : dmarc_Record) (st : align_st) (res : authres)
  : align_st :=
  match res with
  | ARDKIM value reason domain identifier =>
    let dkimRes := mkDKIM value reason domain identifier in
    let dkimResult := if decide (dkim_Value (al_dkimResult st) = "") then dkimRes else al_dkimResult st in
    if isAligned fromDomain domain (rec_DKIMAlignment record)
    then mkAlign (al_spfAligned st) (al_spfResult st)
           (al_dkimAligned st || bool_decide (value = ResultPass)) dkimRes true
           (al_dkimTempFail st || bool_decide (value = ResultTempError))
    else mkAlign (al_spfAligned st) (al_spfResult st) (al_dkimAligned st) dkimResult true (al_dkimTempFail st)
  | ARSPF value reason from helo =>
    let aligned := isAligned fromDomain (if decide (from = "") then helo else from) (rec_SPFAlignment record) in
    mkAlign (al_spfAligned st || (aligned && bool_decide (value = ResultPass)))
      (mkSPF value reason from helo) (al_dkimAligned st) (al_dkimResult st) (al_dkimPresent st)
      (al_dkimTempFail st)
  | _ => st
  end.

Definition EvaluateAlignment (fromDomain : string) (record : dmarc_Record) (results : list authres)
  : EvalResult :=
  let st := foldl (align_step fromDomain record) align_init results in
  let result value reason := mkEval (mkDMARC value reason fromDomain) (al_spfResult st)
    (al_spfAligned st) (al_dkimResult st) (al_dkimAligned st) in
  if negb (al_dkimPresent st) || bool_decide (spf_Value (al_spfResult st) = "")
  then result ResultNone "Not enough information (required checks are disabled)"
  else if al_dkimTempFail st && negb (al_dkimAligned st) && negb (al_spfAligned st)
  then result ResultTempError "DKIM authentication temp error"
  else if negb (al_dkimAligned st) && bool_decide (spf_Value (al_spfResult st) = ResultTempError)
  then result ResultTempError "SPF authentication temp error"
  else if al_dkimAligned st || al_spfAligned st
  then result ResultPass "" else result ResultFail "No aligned identifiers".

(** ** ExtractFromDomain *)

(** The loop over the From fields: the first non-empty value; a field after it
    is an error. *)
Fixpoint first_from (firstFrom : string) (values : list string) : Result gerror string :=
  match values with
  | [] => Ok firstFrom
  | v :: values =>
    if decide (firstFrom = "") then first_from v values
    else Err (ENew "dmarc: multiple From header fields are not allowed")
  end.

Definition TrimPrefix (s p : string) : string :=
  if HasPrefix s p then str_drop (String.length p) s else s.

Definition ExtractFromDomain (hdr : header) : Result gerror string :=
  firstFrom ← first_from "" (hdr_ByKey hdr "From");
  if decide (firstFrom = "") then Err (ENew "dmarc: missing From header field")
  else match ParseAddressList firstFrom with
       | Err err => Err (EErrorf ("dmarc: malformed From header field: "
                                  +:+ TrimPrefix (Error err) "mail: ") None)
       | Ok (_ :: _ :: _) => Err (ENew "dmarc: multiple addresses in From field are not allowed")
       | Ok [] => Err (ENew "dmarc: missing address in From field")
       | Ok [addr] =>
         match Split addr with
         | Err err => Err (EErrorf ("dmarc: malformed From header field: " +:+ Error err) (Some err))
         | Ok (_, domain) => Ok domain
         end
       end.

(** ** Verifier *)

(** verifyData; [vd_err] also stands for the panic of the lookup goroutine. *)
Record verifyData := mkVerifyData {
  vd_policyDomain : string;
  vd_fromDomain : string;
  vd_record : option dmarc_Record;
  vd_err : error
}.
Definition errPanic : gerror := ENew "panic during policy fetch".

(** What the channel of the verifier receives after Verifier.FetchRecord. *)
Definition Verifier_FetchRecord {W} (LookupTXT : string -> Prog W (list string * error)) (hdr : header)
  : Prog W verifyData :=
  match ExtractFromDomain hdr with
  | Err err => mret (mkVerifyData "" "" None (Some err))
  | Ok fromDomain => fun w =>
    match FetchRecord LookupTXT fromDomain w with
    | (w', Done (policyDomain, record, err)) =>
      (w', Done (mkVerifyData policyDomain fromDomain record err))
    | (w', Panicked _) => (w', Done (mkVerifyData "" "" None (Some errPanic)))
    end
  end.

(** The Temporary method, where the error is a DNSError. *)
Definition dns_temporary (err : gerror) : bool :=
  match err with EDNS _ _ timeout temporary => timeout || temporary | _ => false end.

(** [r] is rand.Int31n(100). *)
Definition Verifier_Apply (r : Z) (data : verifyData) (authRes : list authres) : EvalResult * string :=
  let only m := mkEval m SPF_zero false DKIM_zero false in
  match vd_err data with
  | Some err =>
    let reason := "Policy lookup failed: " +:+ Error err in
    if dns_temporary err
    then (only (mkDMARC ResultTempError reason (vd_fromDomain data)), PolicyReject)
    else (only (mkDMARC ResultPermError reason (vd_fromDomain data)), PolicyNone)
  | None =>
    match vd_record data with
    | None => (only (mkDMARC ResultNone "" (vd_fromDomain data)), PolicyNone)
    | Some record =>
      let result := EvaluateAlignment (vd_fromDomain data) record authRes in
      let value := dm_Value (ev_Authres result) in
      if bool_decide (value = ResultPass) || bool_decide (value = ResultNone) then (result, PolicyNone)
      else if match rec_Percent record with Some pct => pct <? r | None => false end
      then (result, PolicyNone)
      else if negb (EqualFold (vd_policyDomain data) (vd_fromDomain data))
              && negb (bool_decide (rec_SubdomainPolicy record = ""))
      then (result, rec_SubdomainPolicy record)
      else (result, rec_Policy record)
    end
  end.

(** ** The loop of EvaluateAlignment *)

Section Alignment.
Context (fromDomain : string) (record : dmarc_Record).

Definition is_dkim (r : authres) : bool := match r with ARDKIM _ _ _ _ => true | _ => false end.
Definition is_spf (r : authres) : bool := match r with ARSPF _ _ _ _ => true | _ => false end.

(** An aligned DKIM signature, or SPF identity, with the value [v]. *)
Definition aligned_dkim (v : string) (r : authres) : bool :=
  match r with
  | ARDKIM value _ domain _ =>
    isAligned fromDomain domain (rec_DKIMAlignment record) && bool_decide (value = v)
  | _ => false
  end.
Definition aligned_spf (v : string) (r : authres) : bool :=
  match r with
  | ARSPF value _ from helo =>
    isAligned fromDomain (if decide (from = "") then helo else from) (rec_SPFAlignment record)
    && bool_decide (value = v)
  | _ => false
  end.

(** The value of the last SPF result. *)
Definition spf_value (results : list authres) : string :=
  foldl (fun v r => match r with ARSPF value _ _ _ => value | _ => v end) "" results.

Lemma align_foldl results st :
  let st' := foldl (align_step fromDomain record) st results in
  al_dkimPresent st' = al_dkimPresent st || existsb is_dkim results /\
  al_dkimAligned st' = al_dkimAligned st || existsb (aligned_dkim ResultPass) results /\
  al_dkimTempFail st' = al_dkimTempFail st || existsb (aligned_dkim ResultTempError) results /\
  al_spfAligned st' = al_spfAligned st || existsb (aligned_spf ResultPass) results /\
  spf_Value (al_spfResult st')
  = foldl (fun v r => match r with ARSPF value _ _ _ => value | _ => v end) (spf_Value (al_spfResult st)) results.
Proof.
  revert st. induction results as [|r l IH]; intros st; simpl; [by rewrite !orb_false_r|].
  destruct (IH (align_step fromDomain record st r)) as (E1 & E2 & E3 & E4 & E5).
  rewrite E1, E2, E3, E4, E5.
  destruct r; simpl; rewrite ?orb_assoc; try done.
  destruct (isAligned _ _ _); simpl; rewrite ?orb_true_r, ?orb_false_r; done.
Qed.

(** The value of the DMARC result, from what the loop finds. *)
Definition dmarc_value (present aligned_d temp_d aligned_s : bool) (spf : string) : string :=
  if negb present || bool_decide (spf = "") then ResultNone
  else if temp_d && negb aligned_d && negb aligned_s then ResultTempError
  else if negb aligned_d && bool_decide (spf = ResultTempError) then ResultTempError
  else if aligned_d || aligned_s then ResultPass else ResultFail.

Lemma EvaluateAlignment_value results :
  dm_Value (ev_Authres (EvaluateAlignment fromDomain record results))
  = dmarc_value (existsb is_dkim results) (existsb (aligned_dkim ResultPass) results)
      (existsb (aligned_dkim ResultTempError) results) (existsb (aligned_spf ResultPass) results)
      (spf_value results).
Proof.
  unfold EvaluateAlignment, dmarc_value, spf_value.
  destruct (align_foldl results align_init) as (-> & -> & -> & -> & ->). simpl.
  repeat case_match; done.
Qed.

Lemma existsb_Permutation {A} (f : A -> bool) l l' : l ≡ₚ l' -> existsb f l = existsb f l'.
Proof.
  intros Hp. induction Hp as [|x l l' Hp IH|x y l|l l1 l2 Hp1 IH1 Hp2 IH2]; simpl.
  - done.
  - by rewrite IH.
  - by rewrite !orb_assoc, (orb_comm (f y)).
  - by rewrite IH1.
Qed.

(** With at most one SPF result the value found does not depend on the order. *)
Lemma spf_value_Permutation results results' :
  results ≡ₚ results' -> (length (filter is_spf results) <= 1)%nat ->
  spf_value results = spf_value results'.
Proof.
  assert (forall l v, foldl (fun v r => match r with ARSPF value _ _ _ => value | _ => v end) v l
          = foldl (fun v r => match r with ARSPF value _ _ _ => value | _ => v end) v (filter is_spf l)) as Hf.
  { induction l as [|r l IH]; intros v; [done|]. rewrite filter_cons. destruct r; simpl; apply IH. }
  intros Hp Hl. unfold spf_value. rewrite (Hf results), (Hf results').
  assert (filter is_spf results ≡ₚ filter is_spf results') as Hp' by (by rewrite Hp).
  destruct (filter is_spf results) as [|x [|y l]]; [| |simpl in Hl; lia].
  - by apply Permutation_nil_l in Hp' as ->.
  - by apply Permutation_singleton_l in Hp' as ->.
Qed.
End Alignment.

(** The value of the DMARC result does not depend on the order in which the
    results of the checks arrive, when at most one of them is an SPF result; so
    the policy applied to the message does not depend on it either. *)
Theorem dmarc_order_independent r data results results'
  (Hp : results ≡ₚ results') (Hspf : (length (filter is_spf results) <= 1)%nat) :
  dm_Value (ev_Authres (Verifier_Apply r data results).1)
  = dm_Value (ev_Authres (Verifier_Apply r data results').1) /\
  (Verifier_Apply r data results).2 = (Verifier_Apply r data results').2.
Proof.
  unfold Verifier_Apply. destruct (vd_err data) as [e|]; [done|].
  destruct (vd_record data) as [record|]; [|done].
  assert (dm_Value (ev_Authres (EvaluateAlignment (vd_fromDomain data) record results))
          = dm_Value (ev_Authres (EvaluateAlignment (vd_fromDomain data) record results'))) as E.
  { rewrite !EvaluateAlignment_value.
    by rewrite !(existsb_Permutation _ _ _ Hp), (spf_value_Permutation _ _ Hp Hspf). }
  rewrite E. repeat case_match; done.
Qed.

(** EvaluateAlignment reports "pass" exactly when DKIM and SPF were both
    evaluated and an identifier of one of them is aligned with the From domain
    and passed, except that an SPF temporary error hides a pass of an earlier
    SPF result alone. *)
Theorem EvaluateAlignment_pass fromDomain record results :
  dm_Value (ev_Authres (EvaluateAlignment fromDomain record results)) = ResultPass <->
  (exists r, r ∈ results /\ is_dkim r = true) /\ spf_value results <> "" /\
  ((exists value reason domain identifier, ARDKIM value reason domain identifier ∈ results /\
      value = ResultPass /\ isAligned fromDomain domain (rec_DKIMAlignment record) = true) \/
   (spf_value results <> ResultTempError /\
    exists value reason from helo, ARSPF value reason from helo ∈ results /\ value = ResultPass /\
      isAligned fromDomain (if decide (from = "") then helo else from) (rec_SPFAlignment record) = true)).
Proof.
  rewrite EvaluateAlignment_value.
  assert (existsb (aligned_dkim fromDomain record ResultPass) results = true <->
    exists value reason domain identifier, ARDKIM value reason domain identifier ∈ results /\
      value = ResultPass /\ isAligned fromDomain domain (rec_DKIMAlignment record) = true) as <-.
  { rewrite existsb_exists. setoid_rewrite <- list_elem_of_In. split.
    - intros ([] & Hin & E); simpl in E; try done. apply andb_true_iff in E as [? ?%bool_decide_eq_true]. eauto 10.
    - intros (v & re & d & i & Hin & -> & Ha). eexists. split; [exact Hin|]. simpl. by rewrite Ha. }
  assert (existsb (aligned_spf fromDomain record ResultPass) results = true <->
    exists value reason from helo, ARSPF value reason from helo ∈ results /\ value = ResultPass /\
      isAligned fromDomain (if decide (from = "") then helo else from) (rec_SPFAlignment record) = true) as <-.
  { rewrite existsb_exists. setoid_rewrite <- list_elem_of_In. split.
    - intros ([] & Hin & E); simpl in E; try done. apply andb_true_iff in E as [? ?%bool_decide_eq_true]. eauto 10.
    - intros (v & re & d & i & Hin & -> & Ha). eexists. split; [exact Hin|]. simpl. by rewrite Ha. }
  assert (existsb is_dkim results = true <-> exists r, r ∈ results /\ is_dkim r = true) as <-.
  { rewrite existsb_exists. by setoid_rewrite list_elem_of_In. }
  unfold dmarc_value.
  destruct (existsb is_dkim results), (existsb (aligned_dkim fromDomain record ResultPass) results),
    (existsb (aligned_dkim fromDomain record ResultTempError) results),
    (existsb (aligned_spf fromDomain record ResultPass) results);
    simpl; repeat case_bool_decide; naive_solver.
Qed.

Lemma filter_all {A} (P : A -> Prop) `{forall x, Decision (P x)} l : Forall P l -> filter P l = l.
Proof.
  intros Hl. induction Hl as [|x l Hx Hl IH]; [done|]. by rewrite filter_cons_True, IH.
Qed.
Lemma filter_none {A} (P : A -> Prop) `{forall x, Decision (P x)} l :
  Forall (fun x => ~ P x) l -> filter P l = [].
Proof.
  intros Hl. induction Hl as [|x l Hx Hl IH]; [done|]. by rewrite filter_cons_False, IH.
Qed.

(** A record with "pct=p" has its policy applied to a message that fails for
    p + 1 of the 100 values the random number can take: one in a hundred too many
    for every p below 100, and "pct=0" does not turn the policy off. *)
Theorem Apply_pct data record results p
  (Herr : vd_err data = None) (Hrec : vd_record data = Some record)
  (Hpct : rec_Percent record = Some p) (Hp : 0 <= p <= 99)
  (Hpol : rec_Policy record <> PolicyNone) (Hsub : rec_SubdomainPolicy record <> PolicyNone)
  (Hfail : let value := dm_Value (ev_Authres (EvaluateAlignment (vd_fromDomain data) record results)) in
           value <> ResultPass /\ value <> ResultNone) :
  length (filter (fun r => (Verifier_Apply r data results).2 <> PolicyNone) (seqZ 0 100))
  = Z.to_nat (p + 1).
Proof.
  assert (forall r, (Verifier_Apply r data results).2 <> PolicyNone <-> r <= p) as Happ.
  { intros r. unfold Verifier_Apply. rewrite Herr, Hrec, Hpct. simpl in Hfail.
    rewrite !bool_decide_eq_false_2 by apply Hfail. simpl.
    destruct (Z.ltb_spec p r); [split; [done|lia]|].
    split; [lia|]. intros _. by destruct (_ && _). }
  replace 100 with ((p + 1) + (99 - p)) by lia. rewrite seqZ_app, filter_app by lia.
  rewrite (filter_all _ (seqZ 0 (p + 1))), filter_none, app_nil_r, length_seqZ; [done|..];
    apply Forall_forall; intros r Hr%elem_of_seqZ; rewrite Happ; lia.
Qed.
End Dmarc.

(** ** Witnesses *)

(** Every domain is its own organizational domain. *)
Definition flat_dmarc : DmarcLib := {|
  dns_Fqdn := fun d => d +:+ "."; EffectiveTLDPlusOne := fun d => Ok d; PublicSuffix := fun _ => "org";
  dmarc_Parse := fun _ => Err (ENew "unsupported"); ParseAddressList := fun s => Ok [s] |}.
Definition sample_record : dmarc_Record :=
  mkDmarcRecord "reject" "" AlignmentRelaxed AlignmentRelaxed (Some 0).
Definition sample_verify : verifyData := mkVerifyData "example.org" "example.org" (Some sample_record) None.
Definition sample_results : list authres :=
  [ARSPF "fail" "" "a@example.org" "mx.example.org"; ARDKIM "pass" "" "example.com" "@example.com"].

Lemma dmarc_order_independent_witness :
  (@Verifier_Apply ascii_tables flat_dmarc 0 sample_verify sample_results).2 = "reject" /\
  (@Verifier_Apply ascii_tables flat_dmarc 0 sample_verify (reverse sample_results)).2 = "reject".
Proof.
  split; [reflexivity|].
  refine (eq_trans (eq_sym (proj2 (@dmarc_order_independent ascii_tables flat_dmarc 0 sample_verify
    sample_results (reverse sample_results) _ _))) _).
  - apply perm_swap.
  - vm_compute. lia.
  - reflexivity.
Defined.

Lemma Apply_pct_witness :
  length (filter (fun r => (@Verifier_Apply ascii_tables flat_dmarc r sample_verify sample_results).2 <> PolicyNone)
            (seqZ 0 100)) = 1%nat.
Proof.
  apply (@Apply_pct ascii_tables flat_dmarc sample_verify sample_record sample_results 0);
    try reflexivity; try discriminate; try lia.
  split; discriminate.
Defined.
