(* ===== verification/CheckRunner.v ===== *)
(** * CheckRunner: internal/msgpipeline/check_runner.go

    Running groups of checks and merging their results.  Checks run in parallel
    goroutines; a [schedule] fixes one interleaving of a group: the order in which
    the checks run and, since each is done under its own lock or sync.Once, the
    orders in which the results, the header fields and the verdicts are merged.
    Every combination of orders is possible, and the properties quantify over all
    schedules. *)
From S2P Require Import Prelude GoStr ExtErrors Address Checks Module Dmarc.
From Stdlib Require Import Ascii.

Local Open Scope Z_scope.

Section CheckRunner.
Context `{Textproto} `{UnicodeTables} `{DmarcLib} {W : Type}.

(** module.CheckState and module.Check; the numbers stand for the identity of
    the objects, which are map keys. *)
Record CheckState := mkCheckState {
  cs_id : nat;
  cs_CheckConnection : Prog W CheckResult;
  cs_CheckSender : string -> Prog W CheckResult;
  cs_CheckRcpt : string -> Prog W CheckResult;
  cs_CheckBody : header -> Buffer -> Prog W CheckResult;
  cs_Close : Prog W error
}.
Record Check := mkCheck {
  ck_id : nat;
  ck_CheckStateForMsg : MsgMetadata -> Prog W (Result gerror CheckState)
}.

Abbreviation rcpt_sets := (gmap nat (gset string)).

(** [cr_calls] counts the groups run so far; [cr_dmarc] is the content of the
    channel of the verifier. *)
Record checkRunner := mkCheckRunner {
  cr_msgMeta : MsgMetadata;
  cr_mailFrom : string;
  cr_mailFromReceived : bool;
  cr_checkedRcpts : list string;
  cr_checkedRcptsPerCheck : rcpt_sets;
  cr_doDMARC : bool;
  cr_didDMARCFetch : bool;
  cr_dmarc : option verifyData;
  cr_states : gmap nat CheckState;
  cr_mergedRes : CheckResult;
  cr_calls : nat
}.

Definition newCheckRunner (mm : MsgMetadata) : checkRunner :=
  mkCheckRunner mm "" false [] ∅ false false None ∅ CheckResult_zero 0.

Definition set_cr_states (s : gmap nat CheckState) (cr : checkRunner) : checkRunner :=
  mkCheckRunner (cr_msgMeta cr) (cr_mailFrom cr) (cr_mailFromReceived cr) (cr_checkedRcpts cr)
    (cr_checkedRcptsPerCheck cr) (cr_doDMARC cr) (cr_didDMARCFetch cr) (cr_dmarc cr) s
    (cr_mergedRes cr) (cr_calls cr).
Definition set_cr_merged (per : rcpt_sets) (res : CheckResult) (cr : checkRunner) : checkRunner :=
  mkCheckRunner (cr_msgMeta cr) (cr_mailFrom cr) (cr_mailFromReceived cr) (cr_checkedRcpts cr)
    per (cr_doDMARC cr) (cr_didDMARCFetch cr) (cr_dmarc cr) (cr_states cr) res (S (cr_calls cr)).
Definition set_cr_sender (mailFrom : string) (cr : checkRunner) : checkRunner :=
  mkCheckRunner (cr_msgMeta cr) mailFrom true (cr_checkedRcpts cr)
    (cr_checkedRcptsPerCheck cr) (cr_doDMARC cr) (cr_didDMARCFetch cr) (cr_dmarc cr) (cr_states cr)
    (cr_mergedRes cr) (cr_calls cr).
Definition add_cr_rcpt (rcpt : string) (cr : checkRunner) : checkRunner :=
  mkCheckRunner (cr_msgMeta cr) (cr_mailFrom cr) (cr_mailFromReceived cr) (cr_checkedRcpts cr ++ [rcpt])
    (cr_checkedRcptsPerCheck cr) (cr_doDMARC cr) (cr_didDMARCFetch cr) (cr_dmarc cr) (cr_states cr)
    (cr_mergedRes cr) (cr_calls cr).
Definition set_cr_dmarc (data : verifyData) (cr : checkRunner) : checkRunner :=
  mkCheckRunner (cr_msgMeta cr) (cr_mailFrom cr) (cr_mailFromReceived cr) (cr_checkedRcpts cr)
    (cr_checkedRcptsPerCheck cr) (cr_doDMARC cr) true (Some data) (cr_states cr)
    (cr_mergedRes cr) (cr_calls cr).
Definition set_cr_results (mm : MsgMetadata) (res : CheckResult) (cr : checkRunner) : checkRunner :=
  mkCheckRunner mm (cr_mailFrom cr) (cr_mailFromReceived cr) (cr_checkedRcpts cr)
    (cr_checkedRcptsPerCheck cr) (cr_doDMARC cr) (cr_didDMARCFetch cr) (cr_dmarc cr) (cr_states cr)
    res (cr_calls cr).

(** ** Merging the results of a group *)

(** The orders of one interleaving: lists of positions in the group. *)
Record schedule := mkSchedule {
  sc_run : list nat;
  sc_auth : list nat;
  sc_header : list nat;
  sc_flags : list nat
}.
Definition valid_schedule (n : nat) (sc : schedule) : Prop :=
  sc_run sc ≡ₚ seq 0 n /\ sc_auth sc ≡ₚ seq 0 n /\ sc_header sc ≡ₚ seq 0 n /\ sc_flags sc ≡ₚ seq 0 n.

(** A check that panicked has no result. *)
Abbreviation results := (gmap nat CheckResult).

Definition merge_auth (order : list nat) (rs : results) (acc : list authres) : list authres :=
  acc ++ flat_map (fun i => match rs !! i with Some r => cr_AuthResult r | None => [] end) order.

(** AddRaw of each field, also of one that could not be formatted. *)
Definition add_raws (h : header) (fields : header) : header :=
  foldl (fun h f => hdr_AddRaw h f.1) h (hdr_Raws fields).
Definition merge_header (order : list nat) (rs : results) (h : header) : header :=
  foldl (fun h i => match rs !! i with
                    | Some r => if hdr_Len (cr_Header r) =? 0 then h else add_raws h (cr_Header r)
                    | None => h
                    end) h order.

(** quarantineErr and rejectErr, with their Once. *)
Record flags := mkFlags {
  fl_quarantineDone : bool;
  fl_quarantineErr : error;
  fl_rejectDone : bool;
  fl_rejectErr : error
}.
Definition flag_result (fl : flags) (r : CheckResult) : flags :=
  if cr_Quarantine r then
    if fl_quarantineDone fl then fl
    else mkFlags true (cr_Reason r) (fl_rejectDone fl) (fl_rejectErr fl)
  else if cr_Reject r then
    if fl_rejectDone fl then fl
    else mkFlags (fl_quarantineDone fl) (fl_quarantineErr fl) true (cr_Reason r)
  else fl.
Definition merge_flags (order : list nat) (rs : results) : flags :=
  foldl (fun fl i => match rs !! i with Some r => flag_result fl r | None => fl end)
    (mkFlags false None false None) order.

Definition merge_results (sc : schedule) (rs : results) (merged : CheckResult) : CheckResult * error :=
  let auth := merge_auth (sc_auth sc) rs (cr_AuthResult merged) in
  let h := merge_header (sc_header sc) rs (cr_Header merged) in
  let fl := merge_flags (sc_flags sc) rs in
  match fl_rejectErr fl with
  | Some err => (mkCheckResult (cr_Reason merged) (cr_Reject merged) (cr_Quarantine merged) auth h, Some err)
  | None =>
    let quarantine := match fl_quarantineErr fl with Some _ => true | None => cr_Quarantine merged end in
    (mkCheckResult (cr_Reason merged) (cr_Reject merged) quarantine auth h, None)
  end.

(** ** Running a group *)

(** A goroutine that recovers from a panic. *)
Definition catch {A} (m : Prog W A) : Prog W (option A) := fun w =>
  match m w with
  | (w', Done a) => (w', Done (Some a))
  | (w', Panicked _) => (w', Done None)
  end.

(** What a goroutine runs for a state: it may answer without calling the check. *)
Definition runner : Type := CheckState -> rcpt_sets -> rcpt_sets * option (Prog W CheckResult).

Fixpoint run_in_order (order : list nat) (states : list CheckState) (run : runner) (per : rcpt_sets)
    (rs : results) : Prog W (rcpt_sets * results) :=
  match order with
  | [] => mret (per, rs)
  | i :: order =>
    match states !! i with
    | None => run_in_order order states run per rs
    | Some s =>
      let '(per, call) := run s per in
      match call with
      | None => run_in_order order states run per (<[i := CheckResult_zero]> rs)
      | Some m =>
        r ← catch m;
        run_in_order order states run per (match r with Some r => <[i := r]> rs | None => rs end)
      end
    end
  end.

(** The scheduler: the schedule of the nth group run. *)
Context (sched : nat -> schedule).

Definition runAndMergeResults (cr : checkRunner) (states : list CheckState) (run : runner)
  : Prog W (checkRunner * error) :=
  let sc := sched (cr_calls cr) in
  '(per, rs) ← run_in_order (sc_run sc) states run (cr_checkedRcptsPerCheck cr) ∅;
  let '(merged, err) := merge_results sc rs (cr_mergedRes cr) in
  mret (set_cr_merged per merged cr, err).

Definition connection_runner : runner := fun s per => (per, Some (cs_CheckConnection s)).
Definition sender_runner (mailFrom : string) : runner := fun s per => (per, Some (cs_CheckSender s mailFrom)).
Definition body_runner (h : header) (body : Buffer) : runner := fun s per => (per, Some (cs_CheckBody s h body)).
(** A recipient is given to a check once. *)
Definition rcpt_runner (rcpt : string) : runner := fun s per =>
  let seen := default ∅ (per !! cs_id s) in
  if decide (rcpt ∈ seen) then (per, None)
  else (<[cs_id s := seen ∪ {[rcpt]}]> per, Some (cs_CheckRcpt s rcpt)).

(** ** States *)

Definition close_check_states (states : list CheckState) : Prog W unit :=
  for_each (fun s => cs_Close s ;; mret tt) states.

(** The loop over the checks: the states of all of them, the new states, and the
    new entries of the map; [None] when one cannot be made. *)
Fixpoint collect_states (cr : checkRunner) (checks : list Check) (states newStates : list CheckState)
    (newMap : gmap nat CheckState)
  : Prog W (Result gerror (list CheckState * list CheckState * gmap nat CheckState)) :=
  match checks with
  | [] => mret (Ok (states, newStates, newMap))
  | check :: checks =>
    match cr_states cr !! ck_id check with
    | Some s => collect_states cr checks (states ++ [s]) newStates newMap
    | None =>
      r ← ck_CheckStateForMsg check (cr_msgMeta cr);
      match r with
      | Err e => close_check_states states ;; mret (Err e)
      | Ok s => collect_states cr checks (states ++ [s]) (newStates ++ [s]) (<[ck_id check := s]> newMap)
      end
    end
  end.

(** The replay of the recipients seen so far. *)
Fixpoint replay_rcpts (cr : checkRunner) (states : list CheckState) (rcpts : list string)
  : Prog W (checkRunner * error) :=
  match rcpts with
  | [] => mret (cr, None)
  | rcpt :: rcpts =>
    '(cr, err) ← runAndMergeResults cr states (rcpt_runner rcpt);
    match err with
    | Some _ => mret (cr, err)
    | None => replay_rcpts cr states rcpts
    end
  end.

(** The replay of the connection and the sender. *)
Definition replay_sender (cr : checkRunner) (newStates : list CheckState) : Prog W (checkRunner * error) :=
  if cr_mailFromReceived cr then
    '(cr, err) ← runAndMergeResults cr newStates connection_runner;
    match err with
    | Some _ => mret (cr, err)
    | None => runAndMergeResults cr newStates (sender_runner (cr_mailFrom cr))
    end
  else mret (cr, None).

Definition checkStates (cr : checkRunner) (checks : list Check)
  : Prog W (checkRunner * Result gerror (list CheckState)) :=
  r ← collect_states cr checks [] [] ∅;
  match r with
  | Err e => mret (cr, Err e)
  | Ok (states, newStates, newMap) =>
    match newStates with
    | [] => mret (cr, Ok states)
    | _ :: _ =>
      '(cr, err) ← replay_sender cr newStates;
      match err with
      | Some e => close_check_states states ;; mret (cr, Err e)
      | None =>
        '(cr, err) ← replay_rcpts cr states (cr_checkedRcpts cr);
        match err with
        | Some e => close_check_states states ;; mret (cr, Err e)
        | None => mret (set_cr_states (newMap ∪ cr_states cr) cr, Ok states)
        end
      end
    end
  end.

Definition checkConnSender (cr : checkRunner) (checks : list Check) (mailFrom : string)
  : Prog W (checkRunner * error) :=
  '(cr, r) ← checkStates (set_cr_sender mailFrom cr) checks;
  mret (cr, match r with Ok _ => None | Err e => Some e end).

Definition checkRcpt (cr : checkRunner) (checks : list Check) (rcptTo : string)
  : Prog W (checkRunner * error) :=
  '(cr, r) ← checkStates cr checks;
  match r with
  | Err e => mret (cr, Some e)
  | Ok states =>
    '(cr, err) ← runAndMergeResults cr states (rcpt_runner rcptTo);
    mret (add_cr_rcpt rcptTo cr, err)
  end.

(** The resolver behind the verifier, and the random number of the pct test. *)
Context (LookupTXT : string -> Prog W (list string * error)).

Definition checkBody (cr : checkRunner) (checks : list Check) (h : header) (body : Buffer)
  : Prog W (checkRunner * error) :=
  '(cr, r) ← checkStates cr checks;
  match r with
  | Err e => mret (cr, Some e)
  | Ok states =>
    cr ← (if cr_doDMARC cr && negb (cr_didDMARCFetch cr)
          then data ← Verifier_FetchRecord LookupTXT h; mret (set_cr_dmarc data cr)
          else mret cr);
    runAndMergeResults cr states (body_runner h body)
  end.

(** authres.Format of go-msgauth *)
Context (authres_Format : string -> list authres -> string).

Definition dmarc_error (res : EvalResult) : gerror :=
  let temp := bool_decide (dm_Value (ev_Authres res) = ResultTempError) in
  ESMTP (if temp then 450 else 550) (if temp then Ench 4 7 1 else Ench 5 7 1) "DMARC check failed" "dmarc"
    "" "" "" None
    (<["reason" := FStr (dm_Reason (ev_Authres res))]>
     (<["dkim_res" := FStr (dkim_Value (ev_DKIMResult res))]>
      (<["dkim_domain" := FStr (dkim_Domain (ev_DKIMResult res))]>
       (<["spf_res" := FStr (spf_Value (ev_SPFResult res))]>
        {["spf_from" := FStr (spf_From (ev_SPFResult res))]})))).

(** The part of applyResults after the DMARC test. *)
Definition add_results (hostname : string) (cr : checkRunner) (h : header) : header :=
  let h := match cr_AuthResult (cr_mergedRes cr) with
           | [] => h
           | rs => hdr_Add h "Authentication-Results" (authres_Format hostname rs)
           end in
  add_raws h (cr_Header (cr_mergedRes cr)).

Definition add_auth (r : authres) (res : CheckResult) : CheckResult :=
  mkCheckResult (cr_Reason res) (cr_Reject res) (cr_Quarantine res) (cr_AuthResult res ++ [r]) (cr_Header res).

Definition blocked_panic : string := "all goroutines are asleep - deadlock!".

(** [r] is rand.Int31n(100).  Apply waits for the channel of the verifier. *)
Definition applyResults (r : Z) (hostname : string) (cr : checkRunner) (h : header)
  : Prog W (checkRunner * header * error) :=
  let mm := if cr_Quarantine (cr_mergedRes cr) then set_Quarantine true (cr_msgMeta cr) else cr_msgMeta cr in
  if negb (cr_doDMARC cr)
  then let cr := set_cr_results mm (cr_mergedRes cr) cr in mret (cr, add_results hostname cr h, None)
  else
    match cr_dmarc cr with
    | None => panic blocked_panic
    | Some data =>
      let '(res, policy) := Verifier_Apply r data (cr_AuthResult (cr_mergedRes cr)) in
      let a := ev_Authres res in
      let merged := add_auth (ARDMARC (dm_Value a) (dm_Reason a) (dm_From a)) (cr_mergedRes cr) in
      if bool_decide (policy = PolicyReject)
      then mret (set_cr_results mm merged cr, h, Some (dmarc_error res))
      else
        let mm := if bool_decide (policy = PolicyQuarantine) then set_Quarantine true mm else mm in
        let cr := set_cr_results mm merged cr in
        mret (cr, add_results hostname cr h, None)
    end.

(** The map is ranged over in some order. *)
Definition cr_close (cr : checkRunner) : Prog W unit :=
  close_check_states (map snd (map_to_list (cr_states cr))).

End CheckRunner.

(** ** The verdict of a group *)

Section Verdict.
Context `{Textproto}.
Abbreviation results := (gmap nat CheckResult).

Definition rejecting (r : CheckResult) : Prop := cr_Quarantine r = false /\ cr_Reject r = true.
(** What FailAction.Apply guarantees: a verdict comes with its reason. *)
Definition reasoned (r : CheckResult) : Prop :=
  cr_Quarantine r = true \/ cr_Reject r = true -> cr_Reason r <> None.

(** The state of the two Once after the results [l]. *)
Definition flags_spec (l : list CheckResult) (fl : flags) : Prop :=
  (fl_rejectDone fl = true <-> is_Some (fl_rejectErr fl)) /\
  (fl_quarantineDone fl = true <-> is_Some (fl_quarantineErr fl)) /\
  (is_Some (fl_rejectErr fl) <-> exists r, r ∈ l /\ rejecting r) /\
  (is_Some (fl_quarantineErr fl) <-> exists r, r ∈ l /\ cr_Quarantine r = true) /\
  (forall e, fl_rejectErr fl = Some e -> exists r, r ∈ l /\ rejecting r /\ cr_Reason r = Some e).

Lemma flags_spec_step l fl r :
  reasoned r -> flags_spec l fl -> flags_spec (l ++ [r]) (flag_result fl r).
Proof.
  intros Hr (Hrd & Hqd & Hrej & Hq & He). unfold flag_result.
  assert (forall P : CheckResult -> Prop, (exists x, x ∈ l ++ [r] /\ P x) <-> (exists x, x ∈ l /\ P x) \/ P r) as Hex.
  { intros P. setoid_rewrite elem_of_app. setoid_rewrite list_elem_of_singleton. naive_solver. }
  unfold flags_spec. setoid_rewrite Hex. unfold rejecting, reasoned in *.
  destruct (cr_Quarantine r) eqn:Eq; [|destruct (cr_Reject r) eqn:Ej].
  - destruct (fl_quarantineDone fl) eqn:Ed; simpl.
    + split_and!; naive_solver.
    + assert (is_Some (cr_Reason r)) by (apply not_eq_None_Some; auto). split_and!; naive_solver.
  - destruct (fl_rejectDone fl) eqn:Ed; simpl.
    + split_and!; naive_solver.
    + assert (is_Some (cr_Reason r)) by (apply not_eq_None_Some; auto). split_and!; naive_solver.
  - split_and!; naive_solver.
Qed.

(** The results in the order of a list of positions. *)
Definition results_in (order : list nat) (rs : results) : list CheckResult := omap (fun i => rs !! i) order.

Lemma merge_flags_spec order rs :
  (forall i r, rs !! i = Some r -> reasoned r) -> flags_spec (results_in order rs) (merge_flags order rs).
Proof.
  intros Hr. unfold merge_flags, results_in.
  assert (forall l fl, flags_spec l fl ->
    flags_spec (l ++ omap (fun i => rs !! i) order)
      (foldl (fun fl i => match rs !! i with Some r => flag_result fl r | None => fl end) fl order)) as H'.
  { clear -Hr. induction order as [|i order IH]; intros l fl Hl; simpl; [by rewrite app_nil_r|].
    destruct (rs !! i) as [r|] eqn:E; [|by apply IH].
    specialize (IH (l ++ [r]) (flag_result fl r)). rewrite <- app_assoc in IH. apply IH.
    apply flags_spec_step; [by eapply Hr|done]. }
  apply (H' []). split_and!; simpl; try (split; [by intros []|by intros (?&[]%elem_of_nil&?)]); try done;
    by split; [|intros [? ?]].
Qed.

Lemma elem_of_results_in n order rs r :
  order ≡ₚ seq 0 n -> (forall i, is_Some (rs !! i) -> (i < n)%nat) ->
  r ∈ results_in order rs <-> exists i, rs !! i = Some r.
Proof.
  intros Hp Hn. unfold results_in. rewrite list_elem_of_omap. split; [naive_solver|].
  intros [i Hi]. exists i. split; [|done]. rewrite Hp. apply elem_of_seq.
  assert (i < n)%nat by (apply Hn; eauto). lia.
Qed.

Lemma merge_auth_Permutation order order' rs acc :
  order ≡ₚ order' -> merge_auth order rs acc ≡ₚ merge_auth order' rs acc.
Proof. intros Hp. unfold merge_auth. by rewrite Hp. Qed.

Definition some_rejects (rs : results) : Prop := exists i r, rs !! i = Some r /\ rejecting r.
Definition some_quarantines (rs : results) : Prop := exists i r, rs !! i = Some r /\ cr_Quarantine r = true.

Lemma elem_of_results_exists n order rs (P : CheckResult -> Prop) :
  order ≡ₚ seq 0 n -> (forall i, is_Some (rs !! i) -> (i < n)%nat) ->
  (exists r, r ∈ results_in order rs /\ P r) <-> (exists i r, rs !! i = Some r /\ P r).
Proof.
  intros Hp Hn. setoid_rewrite (elem_of_results_in n order rs _ Hp Hn). split.
  - intros (r & [i ?] & ?). eauto.
  - intros (i & r & ? & ?). eauto.
Qed.

(** The verdict under one schedule. *)
Lemma merge_results_verdict n sc rs merged :
  valid_schedule n sc -> (forall i, is_Some (rs !! i) -> (i < n)%nat) ->
  (forall i r, rs !! i = Some r -> reasoned r) ->
  let m := merge_results sc rs merged in
  (is_Some m.2 <-> some_rejects rs) /\
  (forall err, m.2 = Some err -> exists i r, rs !! i = Some r /\ rejecting r /\ cr_Reason r = Some err) /\
  (m.2 = None -> (cr_Quarantine m.1 = true <-> cr_Quarantine merged = true \/ some_quarantines rs)) /\
  cr_AuthResult m.1 = merge_auth (sc_auth sc) rs (cr_AuthResult merged).
Proof.
  intros (_ & _ & _ & Hf) Hn Hr.
  destruct (merge_flags_spec (sc_flags sc) rs Hr) as (_ & _ & Hrej & Hq & He).
  rewrite (elem_of_results_exists n _ rs rejecting Hf Hn) in Hrej.
  rewrite (elem_of_results_exists n _ rs (fun r => cr_Quarantine r = true) Hf Hn) in Hq.
  unfold merge_results. cbv zeta. unfold some_rejects, some_quarantines. rewrite <- Hrej, <- Hq.
  destruct (fl_rejectErr (merge_flags (sc_flags sc) rs)) as [err|]; simpl; split_and!; try done.
  - intros err' [= <-]. destruct (He err eq_refl) as (r & Hin & Hrr & Hreason).
    apply (elem_of_results_in n _ rs r Hf Hn) in Hin as [i Hi]. eauto.
  - intros _. destruct (fl_quarantineErr _).
    + split; [intros _; right; eauto|done].
    + split; [by left|]. intros [?|[? ?]]; done.
Qed.

(** C18: the verdict of a group of checks does not depend on how its goroutines
    interleave.  When every rejection and quarantine comes with a reason, in every
    schedule the message is rejected exactly when some check rejected it (and did
    not quarantine it), with the reason of such a check; otherwise it is
    quarantined exactly when it already was or some check said so; and the same
    authentication results are collected, up to their order. *)
Theorem merge_verdict n sc sc' rs merged
  (Hv : valid_schedule n sc) (Hv' : valid_schedule n sc')
  (Hn : forall i, is_Some (rs !! i) -> (i < n)%nat)
  (Hr : forall i r, rs !! i = Some r -> reasoned r) :
  let m := merge_results sc rs merged in
  let m' := merge_results sc' rs merged in
  (is_Some m.2 <-> exists i r, rs !! i = Some r /\ rejecting r) /\
  (is_Some m.2 <-> is_Some m'.2) /\
  (forall err, m.2 = Some err -> exists i r, rs !! i = Some r /\ rejecting r /\ cr_Reason r = Some err) /\
  (m.2 = None ->
     (cr_Quarantine m.1 = true <->
      cr_Quarantine merged = true \/ exists i r, rs !! i = Some r /\ cr_Quarantine r = true) /\
     cr_Quarantine m.1 = cr_Quarantine m'.1) /\
  cr_AuthResult m.1 ≡ₚ cr_AuthResult m'.1.
Proof.
  destruct (merge_results_verdict n sc rs merged Hv Hn Hr) as (Hrej & He & Hq & Hau).
  destruct (merge_results_verdict n sc' rs merged Hv' Hn Hr) as (Hrej' & _ & Hq' & Hau').
  cbv zeta. split; [done|]. split; [by rewrite Hrej, Hrej'|]. split; [done|]. split.
  - intros E. split; [by apply Hq|]. apply eq_true_iff_eq. rewrite Hq by done. symmetry. apply Hq'.
    apply eq_None_not_Some. rewrite Hrej', <- Hrej, E. by intros [? ?].
  - rewrite Hau, Hau'. apply merge_auth_Permutation.
    destruct Hv as (_ & -> & _), Hv' as (_ & -> & _). done.
Qed.
End Verdict.

(** ** Witnesses *)

Definition sample_result (reject quarantine : bool) (reason : string) : CheckResult (H := list_textproto) :=
  mkCheckResult (H := list_textproto) (if decide (reason = "") then None else Some (ENew reason)) reject quarantine
    [AROther reason] [].
Definition sample_rs : gmap nat (CheckResult (H := list_textproto)) :=
  <[0%nat := sample_result false true "spam"]> {[1%nat := sample_result true false "blocked"]}.

Lemma merge_verdict_witness :
  is_Some (merge_results (H := list_textproto) (mkSchedule [0;1] [0;1] [0;1] [0;1])%nat sample_rs
             (CheckResult_zero (H := list_textproto))).2 /\
  is_Some (merge_results (H := list_textproto) (mkSchedule [1;0] [1;0] [0;1] [1;0])%nat sample_rs
             (CheckResult_zero (H := list_textproto))).2.
Proof.
  split; [eexists; reflexivity|].
  refine (proj1 (proj1 (proj2 (merge_verdict (H := list_textproto) 2%nat (mkSchedule [0;1] [0;1] [0;1] [0;1])%nat
    (mkSchedule [1;0] [1;0] [0;1] [1;0])%nat sample_rs (CheckResult_zero (H := list_textproto)) _ _ _ _))) _).
  - repeat split; reflexivity.
  - repeat split; try reflexivity; apply perm_swap.
  - intros i. unfold sample_rs. rewrite lookup_insert_is_Some, lookup_singleton_is_Some. lia.
  - intros i r Hi. unfold sample_rs in Hi. apply lookup_insert_Some in Hi as [[_ <-]|[_ Hi]]; [done|].
    by apply lookup_singleton_Some in Hi as [_ <-].
  - eexists. reflexivity.
Defined.

(** Without a reason the verdict does depend on the schedule: the first rejection
    to arrive uses up the Once, and without a reason it does not count. *)
Example unreasoned_reject_hides_rejection :
  let rs := <[0%nat := sample_result true false ""]> {[1%nat := sample_result true false "blocked"]} in
  (merge_results (H := list_textproto) (mkSchedule [0;1] [0;1] [0;1] [0;1])%nat rs
     (CheckResult_zero (H := list_textproto))).2 = None /\
  (merge_results (H := list_textproto) (mkSchedule [0;1] [0;1] [0;1] [1;0])%nat rs
     (CheckResult_zero (H := list_textproto))).2 = Some (ENew "blocked").
Proof. split; reflexivity. Qed.
