(* ===== verification/StatelessChecks.v ===== *)
(** * StatelessChecks: internal/check/stateless_check.go, check/dns and check/requiretls

    The wrapper that makes a check of four functions, and the checks made with it:
    require_matching_rdns, require_mx_record and require_tls. *)
From S2P Require Import Prelude GoStr ExtErrors Address Checks Module Dns CheckRunner.

Local Open Scope Z_scope.

Section Stateless.
Context `{Textproto} `{UnicodeTables} `{TextLib} {W : Type}.

(** StatelessCheckContext: the resolver, and the connection of the message with its
    rDNS future and the state of its TLS handshake. *)
Record StatelessCheckContext := mkContext {
  sx_LookupMX : string -> Prog W (Result gerror (list MX));
  sx_MsgMeta : MsgMetadata;
  sx_RDNSName : option (Prog W (Result gerror (option string)));
  sx_HandshakeComplete : bool
}.
Notation FuncConnCheck := (StatelessCheckContext -> Prog W CheckResult).
Notation FuncAddrCheck := (StatelessCheckContext -> string -> Prog W CheckResult).
Notation FuncBodyCheck := (StatelessCheckContext -> header -> Buffer -> Prog W CheckResult).

Record statelessCheck := mkStateless {
  sl_failAction : FailAction;
  sl_connCheck : option FuncConnCheck;
  sl_senderCheck : option FuncAddrCheck;
  sl_rcptCheck : option FuncAddrCheck;
  sl_bodyCheck : option FuncBodyCheck
}.
Record statelessCheckState := mkStatelessState { ss_c : statelessCheck; ss_ctx : StatelessCheckContext }.

Definition apply_check (s : statelessCheckState) (check : option (StatelessCheckContext -> Prog W CheckResult)) : Prog W CheckResult :=
  match check with
  | None => mret CheckResult_zero
  | Some f => originalRes ← f (ss_ctx s); mret (FailAction_Apply (sl_failAction (ss_c s)) originalRes)
  end.
Definition CheckConnection (s : statelessCheckState) : Prog W CheckResult := apply_check s (sl_connCheck (ss_c s)).
Definition CheckSender (s : statelessCheckState) (mailFrom : string) : Prog W CheckResult :=
  apply_check s (option_map (fun f ctx => f ctx mailFrom) (sl_senderCheck (ss_c s))).
Definition CheckRcpt (s : statelessCheckState) (rcptTo : string) : Prog W CheckResult :=
  apply_check s (option_map (fun f ctx => f ctx rcptTo) (sl_rcptCheck (ss_c s))).
Definition CheckBody (s : statelessCheckState) (h : header) (body : Buffer) : Prog W CheckResult :=
  apply_check s (option_map (fun f ctx => f ctx h body) (sl_bodyCheck (ss_c s))).

(** The CheckState of a message; [id] stands for the identity of the object. *)
Definition CheckStateForMsg (c : statelessCheck) (ctx : StatelessCheckContext) (id : nat) : CheckState :=
  let s := mkStatelessState c ctx in
  mkCheckState id (CheckConnection s) (CheckSender s) (CheckRcpt s) (CheckBody s) (mret None).

(** Init: the configured action, or the default *)
Definition stateless_Init (defaultFailAction : FailAction) (configured : option FailAction) (c : statelessCheck) : statelessCheck :=
  mkStateless (default defaultFailAction configured) (sl_connCheck c) (sl_senderCheck c) (sl_rcptCheck c) (sl_bodyCheck c).
Definition RegisterStatelessCheck (modName : string) (defaultFailAction : FailAction) (conn : option FuncConnCheck) (sender rcpt : option FuncAddrCheck)
  (body : option FuncBodyCheck) (inlineArgs : list string) : Result gerror statelessCheck :=
  match inlineArgs with
  | [] => Ok (mkStateless (mkFailAction false false None) conn sender rcpt body)
  | _ => Err (EErrorf (modName +:+ ": inline arguments are not used") None)
  end.

(** ** check/dns *)

Definition check_refusal (code : Z) (ench : EnhancedCode) (msg name : string) : CheckResult :=
  mkCheckResult (Some (ESMTP code ench msg name "" "" "" None ∅)) false false [] hdr_empty.
Definition dns_refusal (ench : EnhancedCode) (name : string) (err : gerror) : CheckResult :=
  let '(reason, misc) := UnwrapDNSErr (Some err) in
  mkCheckResult (Some (ESMTP (SMTPCode (Some err) 450 550) (SMTPEnchCode (Some err) ench) "DNS error during policy check" name "" "" reason (Some err) misc))
    false false [] hdr_empty.

Definition requireMatchingRDNS (ctx : StatelessCheckContext) : Prog W CheckResult :=
  match mm_Conn (sx_MsgMeta ctx), sx_RDNSName ctx with
  | Some conn, Some get =>
    r ← get;
    mret (match r with
          | Err err => dns_refusal (Ench 0 7 25) "require_matching_rdns" err
          | Ok None => check_refusal 550 (Ench 5 7 25) "No PTR record found" "require_matching_rdns"
          | Ok (Some rdnsName) =>
            if dns_Equal (TrimSuffix rdnsName ".") (TrimSuffix (cs_Hostname conn) ".") then CheckResult_zero
            else check_refusal 550 (Ench 5 7 25) "rDNS name does not match source hostname" "require_matching_rdns"
          end)
  | _, _ => mret CheckResult_zero
  end.

Definition requireMXRecord (ctx : StatelessCheckContext) (mailFrom : string) : Prog W CheckResult :=
  if decide (mailFrom = "") then mret CheckResult_zero
  else match Split mailFrom with
  | Err _ => mret (check_refusal 501 (Ench 5 1 8) "Malformed sender address" "require_mx_record")
  | Ok (_, domain) =>
    if decide (domain = "") then mret (check_refusal 501 (Ench 5 1 8) "No domain part in address" "require_mx_record")
    else
      r ← sx_LookupMX ctx domain;
      mret (match r with
            | Err err => dns_refusal (Ench 0 7 0) "require_mx_record" err
            | Ok [] => check_refusal 501 (Ench 5 7 27) "Domain in MAIL FROM does not have any MX records" "require_mx_record"
            | Ok srcMx =>
              if existsb (fun mx => bool_decide (mx_Host mx = ".")) srcMx
              then check_refusal 501 (Ench 5 7 27) "Domain in MAIL FROM has null MX record" "require_mx_record"
              else CheckResult_zero
            end)
  end.

(** ** check/requiretls *)

Definition requireTLS (ctx : StatelessCheckContext) : Prog W CheckResult :=
  mret (if bool_decide (is_Some (mm_Conn (sx_MsgMeta ctx))) && sx_HandshakeComplete ctx then CheckResult_zero
        else check_refusal 550 (Ench 5 7 1) "TLS conversation required" "require_tls").

(** The checks that are registered *)
Definition registered (name : string) : option (list string -> Result gerror statelessCheck * FailAction) :=
  if decide (name = "require_matching_rdns") then
    let d := mkFailAction true false None in Some (fun args => (RegisterStatelessCheck name d (Some requireMatchingRDNS) None None None args, d))
  else if decide (name = "require_mx_record") then
    let d := mkFailAction true false None in Some (fun args => (RegisterStatelessCheck name d None (Some requireMXRecord) None None args, d))
  else if decide (name = "require_tls") then
    let d := mkFailAction false true None in Some (fun args => (RegisterStatelessCheck name d (Some requireTLS) None None None args, d))
  else None.
End Stateless.
