(* ===== verification/MailAuth.v ===== *)
(** * MailAuth: internal/check/spf and internal/check/dkim

    The checks of the sender's domain.  The evaluation of SPF policies and the
    verification of signatures are those of the libraries the code calls. *)
From S2P Require Import Prelude GoStr GoText ExtErrors Address Checks Module Dmarc.
From stdpp Require Import gmap.
From Stdlib Require Import Ascii ZifyBool.

Local Open Scope Z_scope.

Section Spf.
Context `{UnicodeTables} `{TextLib} `{DmarcLib} `{Textproto} {W : Type}.

(** ** spf *)

Definition spf_modName : string := "check.spf".
Record spf_Check := mkSpfCheck {
  sp_enforceEarly : bool;
  sp_noneAction : FailAction;
  sp_neutralAction : FailAction;
  sp_failAction : FailAction;
  sp_softfailAction : FailAction;
  sp_permerrAction : FailAction;
  sp_temperrAction : FailAction
}.
(** spf.CheckHostWithSender of an address, the HELO name and the sender, and LookupTXT *)
Context (CheckHostWithSender : string -> string -> string -> Prog W (string * error)) (LookupTXT : string -> Prog W (list string * error)).

(** The channel spfFetch: empty, with the result, or closed after a panic *)
Inductive fetch := NoResult | Fetched (res : string) (err : error) | FetchClosed.
Record spf_state := mkSpfState { st_c : spf_Check; st_msgMeta : MsgMetadata; st_fetch : fetch; st_skip : bool }.
Definition spf_CheckStateForMsg (c : spf_Check) (msgMeta : MsgMetadata) : spf_state := mkSpfState c msgMeta NoResult false.
Definition set_skip (s : spf_state) : spf_state := mkSpfState (st_c s) (st_msgMeta s) (st_fetch s) true.
Definition set_fetch (f : fetch) (s : spf_state) : spf_state := mkSpfState (st_c s) (st_msgMeta s) f (st_skip s).

(** The six cases of spfResult that have an action *)
Definition spf_action (c : spf_Check) (res : string) : option (FailAction * Z * EnhancedCode * string) :=
  if decide (res = "none") then Some (sp_noneAction c, 550, Ench 5 7 23, "No SPF policy")
  else if decide (res = "neutral") then Some (sp_neutralAction c, 550, Ench 5 7 23, "Neutral SPF result is not permitted")
  else if decide (res = "fail") then Some (sp_failAction c, 550, Ench 5 7 23, "SPF authentication failed")
  else if decide (res = "softfail") then Some (sp_softfailAction c, 550, Ench 5 7 23, "SPF authentication soft-failed")
  else if decide (res = "temperror") then Some (sp_temperrAction c, 451, Ench 4 7 23, "SPF authentication failed with a temporary error")
  else if decide (res = "permerror") then Some (sp_permerrAction c, 550, Ench 5 7 23, "SPF authentication failed with a permanent error")
  else None.
Definition spf_error (code : Z) (ench : EnhancedCode) (msg : string) (err : error) : error :=
  Some (ESMTP code ench msg spf_modName "" "" "" err ∅).
(** spfResult for a message with the connection [conn]; the values of authres and spf
    are the same words. *)
Definition spfResult (s : spf_state) (conn : ConnState) (res : string) (err : error) : CheckResult :=
  let fromDomain := match Split (mm_OriginalFrom (st_msgMeta s)) with Ok (_, d) => d | Err _ => "" end in
  let reason := match err with Some e => Error e | None => if decide (res = "none") then "no policy" else "" end in
  let auth value := [ARSPF value reason fromDomain (cs_Hostname conn)] in
  match spf_action (st_c s) res with
  | Some (action, code, ench, msg) => FailAction_Apply action (mkCheckResult (spf_error code ench msg err) false false (auth res) hdr_empty)
  | None =>
    if decide (res = "pass") then mkCheckResult None false false (auth ResultPass) hdr_empty
    else mkCheckResult (spf_error 550 (Ench 4 7 23) ("Unknown SPF status: " +:+ res) err) false false (auth ResultNone) hdr_empty
  end.

Definition relyOnDMARC (hdr : header) : Prog W bool :=
  match ExtractFromDomain hdr with
  | Err _ => mret false
  | Ok fromDomain =>
    '(policyDomain, record, err) ← FetchRecord LookupTXT fromDomain;
    mret (match err, record with
          | None, Some record =>
            let policy := if negb (dns_Equal policyDomain fromDomain) && bool_decide (rec_SubdomainPolicy record <> "")
                          then rec_SubdomainPolicy record else rec_Policy record in
            bool_decide (policy <> PolicyNone)
          | _, _ => false
          end)
  end.

Definition malformed_from : gerror := ESMTP 550 (Ench 5 1 7) "Malformed address" "spf" "" "" "" None ∅.
Definition prepareMailFrom (from : string) : Result gerror string :=
  match Split from with
  | Err _ => Err malformed_from
  | Ok (fromMbox, fromDomain) =>
    match idna_ToASCII fromDomain with
    | (_, Some _) => Err malformed_from
    | (fromDomain, None) =>
      let fromMbox := if IsASCII fromMbox then fromMbox else "" in
      Ok (fromMbox +:+ "@" +:+ dns_FQDN fromDomain)
    end
  end.

(** CheckConnection; [tcpIP] is the IP when the address is a net.TCPAddr.  The goroutine
    may run at any time before CheckBody reads from the channel. *)
Definition spf_CheckConnection (s : spf_state) (tcpIP : option string) : Prog W (spf_state * CheckResult) :=
  match mm_Conn (st_msgMeta s), tcpIP with
  | None, _ | _, None => mret (set_skip s, CheckResult_zero)
  | Some conn, Some ip =>
    let from := mm_OriginalFrom (st_msgMeta s) in
    let mailFromOriginal := if decide (from = "") then "postmaster@" +:+ cs_Hostname conn else from in
    match prepareMailFrom mailFromOriginal with
    | Err err => mret (set_skip s, mkCheckResult (Some err) true false [] hdr_empty)
    | Ok mailFrom =>
      let check := CheckHostWithSender ip (dns_FQDN (cs_Hostname conn)) mailFrom in
      if sp_enforceEarly (st_c s) then '(res, err) ← check; mret (s, spfResult s conn res err)
      else fun w =>
        match check w with
        | (w, Done (res, err)) => (w, Done (set_fetch (Fetched res err) s, CheckResult_zero))
        | (w, Panicked _) => (w, Done (set_fetch FetchClosed s, CheckResult_zero))
        end
    end
  end.
Definition spf_CheckSender (mailFrom : string) : CheckResult := CheckResult_zero.
Definition spf_CheckRcpt (rcptTo : string) : CheckResult := CheckResult_zero.

Definition spf_panic : CheckResult :=
  mkCheckResult (Some (WithTemporary (Some (WithFields (Some (ENew "panic recovered"))
    {[ "check" := FStr "spf"; "smtp_msg" := FStr "Internal error during policy check" ]})) true)) true false [] hdr_empty.
Definition no_action (r : CheckResult) : CheckResult := mkCheckResult (cr_Reason r) false false (cr_AuthResult r) (cr_Header r).
(** [None] is a call that never returns: the channel is empty and nothing will be sent. *)
Definition spf_CheckBody (s : spf_state) (hdr : header) : Prog W (spf_state * option CheckResult) :=
  if sp_enforceEarly (st_c s) || st_skip s then mret (s, Some CheckResult_zero)
  else
    match st_fetch s with
    | NoResult => mret (s, None)
    | FetchClosed => mret (s, Some spf_panic)
    | Fetched res err =>
      match mm_Conn (st_msgMeta s) with
      | None => panic "invalid memory address or nil pointer dereference"
      | Some conn =>
        rely ← relyOnDMARC hdr;
        let checkRes := spfResult s conn res err in
        mret (set_fetch NoResult s, Some (if rely : bool then no_action checkRes else checkRes))
      end
    end.

(** The two halves of the check: the verdict of the evaluation that CheckConnection
    started is given by CheckBody, without its action when a DMARC policy other than
    none will decide. *)
Lemma spf_deferred s conn ip from w w1 res err hdr w2 w3 rely :
  mm_Conn (st_msgMeta s) = Some conn -> sp_enforceEarly (st_c s) = false -> st_skip s = false ->
  prepareMailFrom (let o := mm_OriginalFrom (st_msgMeta s) in if decide (o = "") then "postmaster@" +:+ cs_Hostname conn else o) = Ok from ->
  CheckHostWithSender ip (dns_FQDN (cs_Hostname conn)) from w = (w1, Done (res, err)) ->
  relyOnDMARC hdr w2 = (w3, Done rely) ->
  exists s1 s2, spf_CheckConnection s (Some ip) w = (w1, Done (s1, CheckResult_zero)) /\
    spf_CheckBody s1 hdr w2
    = (w3, Done (s2, Some (if rely : bool then no_action (spfResult s conn res err) else spfResult s conn res err))) /\
    (forall hdr' w', spf_CheckBody s2 hdr' w' = (w', Done (s2, None))).
Proof.
  intros Hc He Hs Hf Hh Hr. exists (set_fetch (Fetched res err) s), (set_fetch NoResult s).
  unfold spf_CheckConnection. cbv zeta in *. rewrite Hc, Hf, He. split_and!.
  - by rewrite Hh.
  - unfold spf_CheckBody, set_fetch. cbn [st_c st_skip st_fetch st_msgMeta]. rewrite He, Hs, Hc. cbn [orb].
    by rewrite (prog_bind_eq _ _ _ _ _ Hr).
  - intros hdr' w'. unfold spf_CheckBody. simpl. by rewrite He, Hs.
Qed.
End Spf.

Section Dkim.
Context `{Textproto} {W : Type}.

(** ** dkim *)

(** net/textproto.CanonicalMIMEHeaderKey *)
Definition header_byte (b : Z) : bool :=
  bool_decide (b ∈ to_bytes "!#$%&'*+-.^_`|~") || ((48 <=? b) && (b <=? 57)) || ((65 <=? b) && (b <=? 90)) || ((97 <=? b) && (b <=? 122)).
Fixpoint canonical (upper : bool) (l : list Z) : list Z :=
  match l with
  | [] => []
  | b :: l =>
    let c := if upper then (if (97 <=? b) && (b <=? 122) then b - 32 else b) else (if (65 <=? b) && (b <=? 90) then b + 32 else b) in
    c :: canonical (c =? 45) l
  end.
Definition CanonicalMIMEHeaderKey (s : string) : string :=
  if forallb header_byte (to_bytes s) then of_bytes (canonical true (to_bytes s)) else s.

Record dkim_Check := mkDkimCheck { dk_requiredFields : gset string; dk_brokenSigAction : FailAction; dk_noSigAction : FailAction; dk_failOpen : bool }.
(** The set that Init makes of required_fields *)
Definition required_set (fields : list string) : gset string := list_to_set (map CanonicalMIMEHeaderKey fields).

(** dkim.Verification, with the answers of IsPermFail and IsTempFail *)
Record Verification := mkVerification { ve_Domain : string; ve_Identifier : string; ve_HeaderKeys : list string; ve_Err : error }.
Context (IsPermFail IsTempFail : gerror -> bool) (VerifyWithOptions : header -> string -> Prog W (Result gerror (list Verification))).
Context (c : dkim_Check).

Definition io_error (msg : string) (err : gerror) : CheckResult :=
  mkCheckResult (Some (WithTemporary (Some (WithFields (Some err) {[ "check" := FStr "check.dkim"; "smtp_msg" := FStr msg ]})) true)) true false [] hdr_empty.
Definition dkim_error (code : Z) (ench : EnhancedCode) (msg : string) (err : error) : error :=
  Some (ESMTP code ench msg "check.dkim" "" "" "" err ∅).

(** What becomes of one signature: the message is refused, or a result is recorded. *)
Definition signed_enough (v : Verification) : bool :=
  bool_decide (dk_requiredFields c ⊆ list_to_set (map CanonicalMIMEHeaderKey (ve_HeaderKeys v))).
Definition verify_one (v : Verification) : gerror + (bool * authres) :=
  match ve_Err v with
  | Some err =>
    let reason := TrimPrefix (Error err) "dkim: " in
    if IsTempFail err && negb (dk_failOpen c) then inl err
    else
      let val := if IsTempFail err then ResultTempError else if IsPermFail err then ResultPermError else ResultFail in
      inr (false, ARDKIM val reason (ve_Domain v) (ve_Identifier v))
  | None =>
    if signed_enough v then inr (true, ARDKIM ResultPass "" (ve_Domain v) (ve_Identifier v))
    else inr (false, ARDKIM ResultPermError "some header fields are not signed" (ve_Domain v) (ve_Identifier v))
  end.
Fixpoint verify_all (l : list Verification) (goodSigs : bool) (results : list authres) : gerror + (bool * list authres) :=
  match l with
  | [] => inr (goodSigs, results)
  | v :: l =>
    match verify_one v with
    | inl err => inl err
    | inr (good, r) => verify_all l (goodSigs || good) (results ++ [r])
    end
  end.

(** [open] is body.Open. *)
Definition dkim_CheckBody (hdr : header) (open : Prog W (Result gerror string)) : Prog W CheckResult :=
  match hdr_ByKey hdr "DKIM-Signature" with
  | [] =>
    mret (FailAction_Apply (dk_noSigAction c)
            (mkCheckResult (dkim_error 550 (Ench 5 7 20) "No DKIM signatures" None) false false [ARDKIM ResultNone "" "" ""] hdr_empty))
  | _ =>
    r ← open;
    match r with
    | Err err => mret (io_error "Internal I/O error" err)
    | Ok body =>
      r ← VerifyWithOptions hdr body;
      mret (match r with
            | Err err => io_error "Internal error during policy check" err
            | Ok verifications =>
              match verify_all verifications false [] with
              | inl err =>
                mkCheckResult (dkim_error 421 (Ench 4 7 20) "Temporary error during DKIM verification" (Some err)) true false [] hdr_empty
              | inr (true, results) => mkCheckResult None false false results hdr_empty
              | inr (false, results) =>
                FailAction_Apply (dk_brokenSigAction c)
                  (mkCheckResult (dkim_error 550 (Ench 5 7 20) "No passing DKIM signatures" None) false false results hdr_empty)
              end
            end)
    end
  end.

(** ** The verdict on the signatures *)

(** A signature that counts: it verifies and covers the required fields. *)
Definition good_signature (v : Verification) : Prop :=
  ve_Err v = None /\ forall f, f ∈ dk_requiredFields c -> exists k, k ∈ ve_HeaderKeys v /\ CanonicalMIMEHeaderKey k = f.
(** A signature that could not be checked for now *)
Definition unresolved (v : Verification) : Prop := exists err, ve_Err v = Some err /\ IsTempFail err = true.

Lemma signed_enough_spec v : signed_enough v = true <-> forall f, f ∈ dk_requiredFields c -> exists k, k ∈ ve_HeaderKeys v /\ CanonicalMIMEHeaderKey k = f.
Proof.
  unfold signed_enough. rewrite bool_decide_eq_true. unfold subseteq, set_subseteq_instance.
  split; intros Hs f Hf; specialize (Hs f Hf).
  - apply elem_of_list_to_set, list_elem_of_fmap in Hs as (k & -> & Hk). by exists k.
  - apply elem_of_list_to_set, list_elem_of_fmap. destruct Hs as (k & Hk & <-). by exists k.
Qed.
Lemma verify_one_cases v :
  match verify_one v with
  | inl err => ve_Err v = Some err /\ IsTempFail err = true /\ dk_failOpen c = false
  | inr (good, _) => (good = true <-> good_signature v) /\ (dk_failOpen c = true \/ ~ unresolved v)
  end.
Proof.
  unfold verify_one, good_signature, unresolved. destruct (ve_Err v) as [err|] eqn:Hv.
  - destruct (IsTempFail err) eqn:Ht, (dk_failOpen c) eqn:Ho; simpl.
    all: split_and?; try done; try (split; [done|by intros [? _]]); try (by left); right; intros (e & He & Hte); simplify_eq; congruence.
  - assert (~ exists err, None = Some err /\ IsTempFail err = true) as Hno by naive_solver.
    destruct (signed_enough v) eqn:Hs.
    + split; [|by right]. split; [intros _|done]. split; [done|by apply signed_enough_spec].
    + split; [|by right]. split; [done|]. intros [_ Hf]. apply signed_enough_spec in Hf. congruence.
Qed.
Lemma verify_all_cases l good0 results0 :
  match verify_all l good0 results0 with
  | inl err => dk_failOpen c = false /\ exists v, v ∈ l /\ ve_Err v = Some err /\ IsTempFail err = true
  | inr (good, results) =>
    (dk_failOpen c = true \/ forall v, v ∈ l -> ~ unresolved v) /\
    (good = true <-> good0 = true \/ exists v, v ∈ l /\ good_signature v) /\ length results = (length results0 + length l)%nat
  end.
Proof.
  revert good0 results0. induction l as [|v l IH]; intros good0 results0; cbn [verify_all].
  - split_and!; [right; intros v Hv; by apply elem_of_nil in Hv| |simpl; lia].
    split; [by left|]. intros [?|(v & Hv & _)]; [done|by apply elem_of_nil in Hv].
  - pose proof (verify_one_cases v) as Hv. destruct (verify_one v) as [err|[good r]].
    + destruct Hv as (He & Ht & Ho). split; [done|]. exists v. split; [by left|done].
    + specialize (IH (good0 || good) (results0 ++ [r])). destruct (verify_all l _ _) as [err|[good' results']].
      * destruct IH as (Ho & v' & Hin & Hv'). split; [done|]. exists v'. split; [by right|done].
      * destruct IH as (Ho & Hg & Hlen). destruct Hv as [Hgv Hov]. split_and!.
        -- destruct Ho as [Ho|Ho]; [by left|]. destruct Hov as [Hov|Hov]; [by left|]. right.
           intros v' [->|Hin]%elem_of_cons; auto.
        -- rewrite Hg, orb_true_iff, Hgv. split; intros Hx.
           ++ destruct Hx as [[?|?]|(v' & ? & ?)]; [by left|right; exists v; split; [by left|done]|right; exists v'; split; [by right|done]].
           ++ destruct Hx as [?|(v' & [->|Hin]%elem_of_cons & Hx)]; [auto|auto|]. right. by exists v'.
        -- rewrite Hlen, length_app. simpl. lia.
Qed.

(** The verdict of check.dkim.  For a message with signatures that the library has
    looked at, in any order, the check gives no reason exactly when one of them
    verifies and covers every required field, and, unless fail_open is set, none of
    them failed for the time being; a temporary failure refuses the message with 421
    when fail_open is not set; otherwise broken_sig_action decides, and there is one
    result for each signature. *)
Theorem dkim_verdict hdr open body l w1 w2 w3 :
  hdr_ByKey hdr "DKIM-Signature" <> [] -> open w1 = (w2, Done (Ok body)) ->
  VerifyWithOptions hdr body w2 = (w3, Done (Ok l)) ->
  exists res, dkim_CheckBody hdr open w1 = (w3, Done res) /\
    (cr_Reason res = None <-> (exists v, v ∈ l /\ good_signature v) /\ (dk_failOpen c = true \/ forall v, v ∈ l -> ~ unresolved v)) /\
    (dk_failOpen c = false -> (exists v, v ∈ l /\ unresolved v) -> cr_Reject res = true /\
       exists err, cr_Reason res = dkim_error 421 (Ench 4 7 20) "Temporary error during DKIM verification" (Some err)) /\
    (dk_failOpen c = true \/ (forall v, v ∈ l -> ~ unresolved v) -> length (cr_AuthResult res) = length l /\
       (cr_Reason res <> None -> cr_Reject res = fa_Reject (dk_brokenSigAction c) /\ cr_Quarantine res = fa_Quarantine (dk_brokenSigAction c))).
Proof.
  intros Hsig Ho Hv. unfold dkim_CheckBody. destruct (hdr_ByKey hdr "DKIM-Signature"); [done|].
  rewrite (prog_bind_eq _ _ _ _ _ Ho), (prog_bind_eq _ _ _ _ _ Hv). eexists. split; [reflexivity|].
  pose proof (verify_all_cases l false []) as Hc. destruct (verify_all l false []) as [err|[good results]].
  - destruct Hc as (Hf & v & Hin & He & Ht). assert (unresolved v) as Hu by (by exists err). rewrite Hf.
    split_and!.
    + split; [done|]. intros [_ [?|Hno]]; [done|]. by destruct (Hno v Hin).
    + intros _ _. split; [done|by exists err].
    + intros [?|Hno]; [done|]. by destruct (Hno v Hin).
  - destruct Hc as (Hf & Hg & Hlen). simpl in Hlen. split_and!.
    + destruct good.
      * split; [intros _|done]. split; [|done]. destruct (proj1 Hg eq_refl) as [?|?]; done.
      * assert (forall r, cr_Reason (FailAction_Apply (dk_brokenSigAction c) (mkCheckResult (dkim_error 550 (Ench 5 7 20) "No passing DKIM signatures" None) false false r hdr_empty)) <> None) as Hne.
        { intros r. unfold FailAction_Apply; simpl. by destruct (fa_ReasonOverride _). }
        split; [intros Hx; by destruct (Hne results)|]. intros [Hx _]. discriminate (proj2 Hg (or_intror Hx)).
    + intros Hff (v & Hin & Hu). destruct Hf as [Hf|Hf]; [congruence|]. by destruct (Hf v Hin).
    + intros _. destruct good; [by split|]. unfold FailAction_Apply; simpl. split; [done|]. by rewrite !orb_false_r.
Qed.
End Dkim.

(** ** Two signatures *)

#[local] Existing Instance pair_textproto.

Definition sample_dkim : dkim_Check := mkDkimCheck (required_set ["from"; "Subject"]) (mkFailAction false true None) (mkFailAction false false None) true.
Definition sample_verifications : list Verification :=
  [mkVerification "list.example" "" ["From"] None; mkVerification "example.org" "" ["from"; "to"; "subject"] None].
Definition sample_verify (_ : list (string * string)) (_ : string) : Prog unit (Result gerror (list Verification)) := mret (Ok sample_verifications).
Definition sample_open : Prog unit (Result gerror string) := mret (Ok "body").
Lemma dkim_verdict_witness :
  exists res, dkim_CheckBody (H := pair_textproto) (fun _ => false) (fun _ => false) sample_verify sample_dkim
      [("DKIM-Signature", "x")] sample_open tt = (tt, Done res) /\ cr_Reason res = None.
Proof.
  destruct (dkim_verdict (H := pair_textproto) (fun _ => false) (fun _ => false) sample_verify sample_dkim
              [("DKIM-Signature", "x")] sample_open "body" sample_verifications tt tt tt) as (res & E & Hr & _).
  - discriminate.
  - reflexivity.
  - reflexivity.
  - exists res. split; [exact E|]. apply Hr. split; [|by left].
    exists (mkVerification "example.org" "" ["from"; "to"; "subject"] None). split; [right; left|].
    split; [reflexivity|]. apply signed_enough_spec. vm_compute. reflexivity.
Defined.
