(* ===== verification/CommandCheck.v ===== *)
(** * CommandCheck: internal/check/command

    The check that runs a command: the placeholders of its arguments, the run, and what
    the exit code means.  os/exec is a parameter. *)
From S2P Require Import Prelude GoStr GoText ExtErrors Checks Config Module.
From stdpp Require Import gmap pretty.
From Stdlib Require Import Ascii ZifyBool.

Local Open Scope Z_scope.

(** ** The expression {[a-zA-Z0-9_]+?} *)

Definition word_byte (a : ascii) : bool :=
  let b := byte_of a in ((48 <=? b) && (b <=? 57)) || ((65 <=? b) && (b <=? 90)) || ((97 <=? b) && (b <=? 122)) || (b =? 95).
Definition open_brace : ascii := "{"%char.
Definition close_brace : ascii := "}"%char.
(** A match that begins after an opening brace: the name and the rest *)
Fixpoint match_name (s : string) : option (string * string) :=
  match s with
  | String a s =>
    if word_byte a then
      match s with
      | String b rest => if decide (b = close_brace) then Some (String a "", rest)
                         else match match_name s with Some (name, rest) => Some (String a name, rest) | None => None end
      | EmptyString => None
      end
    else None
  | EmptyString => None
  end.
(** ReplaceAllStringFunc; [f] is given the name between the braces. *)
Fixpoint replace_all (fuel : nat) (f : string -> string) (s : string) : string :=
  match fuel with
  | O => s
  | S fuel =>
    match s with
    | EmptyString => EmptyString
    | String a rest =>
      if decide (a = open_brace) then
        match match_name rest with
        | Some (name, rest') => f name +:+ replace_all fuel f rest'
        | None => String a (replace_all fuel f rest)
        end
      else String a (replace_all fuel f rest)
    end
  end.
Definition ReplaceAllStringFunc (f : string -> string) (s : string) : string := replace_all (String.length s) f s.

Section Command.
Context `{Textproto} {W : Type}.

Inductive Stage := StageConnection | StageSender | StageRcpt | StageBody.
#[global] Instance Stage_eq_dec : EqDecision Stage.
Proof. solve_decision. Defined.

Record Check := mkCheck { cc_stage : Stage; cc_actions : gmap Z FailAction; cc_cmd : string; cc_cmdArgs : list string }.
Definition default_actions : gmap Z FailAction := {[ 1 := mkFailAction false true None; 2 := mkFailAction true false None ]}.
Definition New (inlineArgs : list string) : Result gerror Check :=
  match inlineArgs with
  | [] => Err (ENew "command: at least one argument is required (command name)")
  | cmd :: args => Ok (mkCheck StageBody default_actions cmd args)
  end.
(** The directives Init leaves to itself *)
Definition init_node (c : Check) (node : Node) : Result gerror Check :=
  if decide (node_Name node = "code") then
    match node_Args node with
    | code :: (_ :: _) as action =>
      match atoi code with
      | Err e => Err (NodeErr node (Error e))
      | Ok exitCode =>
        match ParseActionDirective (tail action) with
        | Err e => Err (NodeErr node (Error e))
        | Ok action => Ok (mkCheck (cc_stage c) (<[exitCode := action]> (cc_actions c)) (cc_cmd c) (cc_cmdArgs c))
        end
      end
    | _ => Err (NodeErr node "at least two arguments are required: <code> <action>")
    end
  else Err (NodeErr node ("unexpected directive: " +:+ node_Name node)).
Fixpoint init_nodes (c : Check) (nodes : list Node) : Result gerror Check :=
  match nodes with [] => Ok c | node :: nodes => c ← init_node c node; init_nodes c nodes end.
(** Init: [usable] is exec.LookPath, the stage is that of run_on. *)
Definition Init (usable : error) (stage : Stage) (unknown : list Node) (c : Check) : Result gerror Check :=
  match usable with
  | Some err => Err (wrapf "command" err)
  | None => init_nodes (mkCheck stage (cc_actions c) (cc_cmd c) (cc_cmdArgs c)) unknown
  end.

(** ** The state of a message *)

(** The connection: with the IP of a TCP address, and the rDNS future, [None] when it is
    nil. *)
Record source := mkSource { so_conn : ConnState; so_ip : option string; so_rdns : option (Result gerror (option string)) }.
Record state := mkState { cs_c : Check; cs_id : string; cs_src : option source; cs_mailFrom : string; cs_rcpts : list string }.
Definition CheckStateForMsg (c : Check) (id : string) (src : option source) : state := mkState c id src "" [].

(** One placeholder: a nil future panics. *)
Definition placeholder (s : state) (address name : string) : Outcome string :=
  if decide (name = "auth_user") then Done (match cs_src s with Some c => cs_AuthUser (so_conn c) | None => "" end)
  else if decide (name = "source_ip") then Done (match cs_src s with Some c => default "" (so_ip c) | None => "" end)
  else if decide (name = "source_host") then Done (match cs_src s with Some c => cs_Hostname (so_conn c) | None => "" end)
  else if decide (name = "source_rdns") then
    match cs_src s with
    | None => Done ""
    | Some c =>
      match so_rdns c with
      | None => Panicked "nil future used"
      | Some (Ok (Some v)) => Done v
      | Some _ => Done ""
      end
    end
  else if decide (name = "msg_id") then Done (cs_id s)
  else if decide (name = "sender") then Done (cs_mailFrom s)
  else if decide (name = "rcpts") then Done (JoinByte (cs_rcpts s) LF)
  else if decide (name = "address") then Done address
  else Done ("{" +:+ name +:+ "}").
Definition value_of (s : state) (address name : string) : string :=
  match placeholder s address name with Done v => v | Panicked _ => "" end.
(** The names an argument has: the first that panics ends the expansion. *)
Fixpoint names (fuel : nat) (s : string) : list string :=
  match fuel with
  | O => []
  | S fuel =>
    match s with
    | EmptyString => []
    | String a rest =>
      if decide (a = open_brace) then
        match match_name rest with Some (name, rest') => name :: names fuel rest' | None => names fuel rest end
      else names fuel rest
    end
  end.
Definition panics (s : state) (address : string) : option string :=
  head (omap (fun name => match placeholder s address name with Panicked why => Some why | Done _ => None end)
    (flat_map (fun arg => names (String.length arg) arg) (cc_cmdArgs (cs_c s)))).
Definition expandCommand (s : state) (address : string) : Outcome (string * list string) :=
  match panics s address with
  | Some why => Panicked why
  | None => Done (cc_cmd (cs_c s), map (ReplaceAllStringFunc (value_of s address)) (cc_cmdArgs (cs_c s)))
  end.

(** ** Running it *)

Inductive wait_result := WaitOk | WaitExit (code : Z) (err : gerror) | WaitOther (err : gerror).
(** exec.Cmd with its arguments and standard input; ReadHeader reads its output, and its
    error comes with whether it is io.EOF. *)
Record Cmd := mkCmd {
  cm_String : string;
  cm_StdoutPipe : Prog W error;
  cm_Start : Prog W error;
  cm_ReadHeader : Prog W (header * option (gerror * bool));
  cm_Signal : Prog W error;
  cm_Wait : Prog W wait_result
}.
Context (exec_Command : string -> list string -> string -> Cmd).

Definition internal_error (cmdLine : string) (reason : string) (err : error) (misc : fields) : error :=
  Some (ESMTP 450 (Ench 0 0 0) "Internal server error" "command" "" "" reason err (<["cmd" := FStr cmdLine]> misc)).
Definition failed (cmdLine : string) (err : gerror) : CheckResult := mkCheckResult (internal_error cmdLine "" (Some err) ∅) true false [] hdr_empty.

Definition errorRes (s : state) (w : wait_result) (res : CheckResult) (cmdLine : string) : CheckResult :=
  match w with
  | WaitOk => res
  | WaitOther err => mkCheckResult (internal_error cmdLine "" (Some err) ∅) true (cr_Quarantine res) (cr_AuthResult res) (cr_Header res)
  | WaitExit code err =>
    match cc_actions (cs_c s) !! code with
    | None => mkCheckResult (internal_error cmdLine "unexpected exit code" (Some err) {[ "exit_code" := FInt code ]})
                true (cr_Quarantine res) (cr_AuthResult res) (cr_Header res)
    | Some action =>
      FailAction_Apply action
        (mkCheckResult (Some (ESMTP 550 (Ench 5 7 1) "Message rejected for due to a local policy" "command" "" "" "" None
                                {[ "cmd" := FStr cmdLine; "exit_code" := FInt code ]}))
           (cr_Reject res) (cr_Quarantine res) (cr_AuthResult res) (cr_Header res))
    end
  end.
Definition run (s : state) (cmdName : string) (args : list string) (stdin : string) : Prog W CheckResult :=
  let cmd := exec_Command cmdName args stdin in
  r ← cm_StdoutPipe cmd;
  match r with
  | Some err => mret (failed (cm_String cmd) err)
  | None =>
    r ← cm_Start cmd;
    match r with
    | Some err => mret (failed (cm_String cmd) err)
    | None =>
      '(hdr, err) ← cm_ReadHeader cmd;
      match err with
      | Some (err, false) => cm_Signal cmd ;; mret (failed (cm_String cmd) err)
      | _ =>
        let res := mkCheckResult None false false [] hdr in
        w ← cm_Wait cmd;
        match w with
        | WaitOk => mret res
        | WaitExit _ _ => mret (errorRes s w res (cm_String cmd))
        | WaitOther _ => cm_Signal cmd ;; mret (errorRes s w res (cm_String cmd))
        end
      end
    end
  end.

Definition run_expanded (s : state) (address stdin : string) : Prog W CheckResult :=
  match expandCommand s address with
  | Panicked why => panic why
  | Done (cmdName, cmdArgs) => run s cmdName cmdArgs stdin
  end.
Definition at_stage (s : state) (stage : Stage) (m : Prog W CheckResult) : Prog W CheckResult :=
  if decide (cc_stage (cs_c s) = stage) then m else mret CheckResult_zero.
Definition CheckConnection (s : state) : Prog W CheckResult := at_stage s StageConnection (run_expanded s "" "").
Definition CheckSender (s : state) (addr : string) : Prog W (state * CheckResult) :=
  let s := mkState (cs_c s) (cs_id s) (cs_src s) addr (cs_rcpts s) in
  r ← at_stage s StageSender (run_expanded s addr ""); mret (s, r).
Definition CheckRcpt (s : state) (addr : string) : Prog W (state * CheckResult) :=
  let s := mkState (cs_c s) (cs_id s) (cs_src s) (cs_mailFrom s) (cs_rcpts s ++ [addr]) in
  r ← at_stage s StageRcpt (run_expanded s addr ""); mret (s, r).
(** [hdrText] is the header as WriteHeader writes it, [open] is body.Open. *)
Definition CheckBody (s : state) (hdrText : string) (open : Prog W (Result gerror string)) : Prog W CheckResult :=
  at_stage s StageBody
    (match expandCommand s "" with
     | Panicked why => panic why
     | Done (cmdName, cmdArgs) =>
       r ← open;
       match r with
       | Err err => mret (failed (String.concat " " (cmdName :: cmdArgs)) err)
       | Ok body => run s cmdName cmdArgs (hdrText +:+ body)
       end
     end).
End Command.

(** ** What an argument expands to *)

(** An argument as its author means it: text and placeholders *)
Inductive piece := Text (s : string) | Placeholder (name : string).
Definition show_piece (p : piece) : string := match p with Text s => s | Placeholder name => "{" +:+ name +:+ "}" end.
Fixpoint show_pieces (ps : list piece) : string := match ps with [] => "" | p :: ps => show_piece p +:+ show_pieces ps end.
Fixpoint all_word (s : string) : bool := match s with EmptyString => true | String a s => word_byte a && all_word s end.
Definition good_piece (p : piece) : Prop :=
  match p with Text s => has_byte open_brace s = false | Placeholder name => name <> "" /\ all_word name = true end.
Fixpoint fill (f : string -> string) (ps : list piece) : string :=
  match ps with [] => "" | Text s :: ps => s +:+ fill f ps | Placeholder name :: ps => f name +:+ fill f ps end.

Lemma match_name_word name rest : name <> "" -> all_word name = true -> match_name (name +:+ String close_brace rest) = Some (name, rest).
Proof.
  induction name as [|a name IH]; [done|]. intros _ [Ha Hn]%andb_true_iff. rewrite str_app_cons. cbn [match_name]. rewrite Ha.
  destruct name as [|b name]; [change ("" +:+ String close_brace rest) with (String close_brace rest); cbv iota beta; by rewrite decide_True|].
  rewrite IH by done. rewrite str_app_cons. cbv iota beta.
  assert (word_byte b = true) as Hb by (by apply andb_true_iff in Hn as [? _]).
  by rewrite decide_False by (intros ->; done).
Qed.
Lemma replace_all_text fuel f s t : has_byte open_brace s = false -> replace_all (String.length s + fuel) f (s +:+ t) = s +:+ replace_all fuel f t.
Proof.
  induction s as [|a s IH]; intros Hs; [done|]. cbn [has_byte] in Hs. apply orb_false_iff in Hs as [Ha Hs].
  rewrite !str_app_cons. cbn [String.length Nat.add replace_all]. rewrite decide_False by (by apply bool_decide_eq_false in Ha).
  by rewrite IH.
Qed.
Lemma match_name_shorter s name rest : match_name s = Some (name, rest) -> (String.length rest < String.length s)%nat.
Proof.
  revert name rest. induction s as [|a s IH]; intros name rest E; [done|]. cbn [match_name] in E.
  destruct (word_byte a); [|done]. destruct s as [|b s]; [done|]. destruct (decide (b = close_brace)).
  - simplify_eq. simpl. lia.
  - destruct (match_name (String b s)) as [[m r]|] eqn:Em; [|done]. simplify_eq. specialize (IH _ _ eq_refl). simpl in *. lia.
Qed.
Lemma replace_all_fuel fuel f s : (String.length s <= fuel)%nat -> replace_all fuel f s = replace_all (String.length s) f s.
Proof.
  revert s. induction fuel as [fuel IH] using lt_wf_ind. intros s Hs. destruct s as [|a s]; [by destruct fuel|].
  destruct fuel as [|fuel]; [simpl in Hs; lia|]. simpl in Hs. cbn [replace_all String.length].
  assert (replace_all fuel f s = replace_all (String.length s) f s) as Es by (apply IH; lia).
  destruct (decide (a = open_brace)); [|by rewrite Es].
  destruct (match_name s) as [[name rest]|] eqn:Em; [|by rewrite Es]. apply match_name_shorter in Em.
  rewrite (IH fuel), (IH (String.length s)); [done|lia..].
Qed.

(** An argument is expanded piece by piece.  In an argument made of text without an
    opening brace and of placeholders, the text stays, each placeholder is replaced by
    its value, and what a value contains, braces included, is not looked at again; so
    the command gets as many arguments as were configured. *)
Theorem expandCommand_pieces `{Textproto} s address (templates : list (list piece)) :
  cc_cmdArgs (cs_c s) = map show_pieces templates -> Forall (Forall good_piece) templates ->
  panics s address = None ->
  expandCommand s address = Done (cc_cmd (cs_c s), map (fill (value_of s address)) templates).
Proof.
  intros Hargs Hgood Hp. unfold expandCommand. rewrite Hp, Hargs, map_map. do 2 f_equal. clear -Hgood.
  induction Hgood as [|ps templates Hps _ IH]; [done|]. cbn [map]. f_equal; [|done]. clear IH templates.
  generalize (value_of s address). intros f. unfold ReplaceAllStringFunc.
  induction Hps as [|p ps Hp Hps IH]; [done|]. cbn [show_pieces fill]. destruct p as [t|name]; cbn [show_piece good_piece] in *.
  - rewrite str_length_app, replace_all_text by done. by rewrite IH.
  - destruct Hp as [Hne Hw]. change ("{" +:+ name +:+ "}") with (String open_brace (name +:+ "}")).
    rewrite str_app_cons, <- str_app_assoc || rewrite str_app_cons. cbn [String.length replace_all]. rewrite decide_True by done.
    assert ((name +:+ "}") +:+ show_pieces ps = name +:+ String close_brace (show_pieces ps)) as E by (by rewrite str_app_assoc).
    rewrite E, match_name_word by done. rewrite replace_all_fuel; [by rewrite IH|].
    rewrite str_length_app. simpl. lia.
Qed.

(** ** A command *)

#[local] Existing Instance pair_textproto.

Definition sample_templates : list (list piece) := [[Text "--from="; Placeholder "sender"]; [Placeholder "rcpts"]; [Text "}x"; Placeholder "other"]].
Definition sample_check : Check := mkCheck StageBody default_actions "scan" (map show_pieces sample_templates).
Definition sample_state : state := mkState sample_check "id" None "{rcpts}@example.org" ["a@example.org"; "b@example.org"].
Lemma expandCommand_pieces_witness :
  expandCommand sample_state "" = Done ("scan", map (fill (value_of sample_state "")) sample_templates).
Proof.
  apply (expandCommand_pieces (H := pair_textproto)).
  - reflexivity.
  - repeat constructor; discriminate.
  - reflexivity.
Defined.
Example expanded :
  map (fill (value_of sample_state "")) sample_templates
  = ["--from={rcpts}@example.org"; "a@example.org" +:+ String LF "b@example.org"; "}x{other}"].
Proof. vm_compute. reflexivity. Qed.

(** Without rDNS lookups the placeholder {source_rdns} panics. *)
Example command_rdns_panics conn ip :
  placeholder (mkState sample_check "id" (Some (mkSource conn ip None)) "" []) "" "source_rdns" = Panicked "nil future used".
Proof. reflexivity. Qed.
