(* ===== verification/Blockchain.v ===== *)
(** * Blockchain: Ethereum accounts

    internal/blockchain/ethereum.go, the logins of internal/auth/pass_blockchain and the
    modifier of internal/modify/blockchain_tx.go, with the interface of
    framework/module/blockchain.go between them.  go-ethereum's hashes, keys and RPC
    client are parameters; encoding/hex is that of the standard library. *)
From S2P Require Import Prelude GoStr GoText ExtErrors Address Config ConfigMap Checks Module Tables Modify PassTable.
From Stdlib Require Import Ascii.

Local Open Scope Z_scope.

(** ** encoding/hex and strings.TrimPrefix *)

Definition hex_lower (v : Z) : Z := if v <? 10 then 48 + v else 87 + v.
Definition fromHexChar (c : Z) : option Z :=
  if (48 <=? c) && (c <=? 57) then Some (c - 48)
  else if (97 <=? c) && (c <=? 102) then Some (c - 87)
  else if (65 <=? c) && (c <=? 70) then Some (c - 55)
  else None.
Definition hex_Encode (l : list Z) : list Z := l ≫= (fun b => [hex_lower (b / 16); hex_lower (b mod 16)]).

(** InvalidByteError, printed with %#U *)
Definition upper_digit (v : Z) : Z := if v <? 10 then 48 + v else 55 + v.
Definition is_print (b : Z) : bool := (32 <=? b) && (b <=? 126) || (161 <=? b) && negb (b =? 173).
Definition InvalidByteError (b : Z) : gerror :=
  ENew ("encoding/hex: invalid byte: U+00" +:+ of_bytes [upper_digit (b / 16); upper_digit (b mod 16)] +:+
        (if is_print b then " '" +:+ string_of_runes [b] +:+ "'" else "")).
Definition ErrLength : gerror := ENew "encoding/hex: odd length hex string".
Fixpoint hex_Decode (l : list Z) : Result gerror (list Z) :=
  match l with
  | [] => Ok []
  | [p] => match fromHexChar p with None => Err (InvalidByteError p) | Some _ => Err ErrLength end
  | p :: q :: l =>
    match fromHexChar p, fromHexChar q with
    | None, _ => Err (InvalidByteError p)
    | Some _, None => Err (InvalidByteError q)
    | Some a, Some b => match hex_Decode l with Ok r => Ok (16 * a + b :: r) | Err e => Err e end
    end
  end.
Definition TrimPrefix (s p : string) : string := if HasPrefix s p then str_drop (String.length p) s else s.

Lemma fromHex_lower v : 0 <= v < 16 -> fromHexChar (hex_lower v) = Some v.
Proof. intros Hv. unfold fromHexChar, hex_lower. destruct (Z.ltb_spec v 10); repeat case_match; try lia; f_equal; lia. Qed.
Lemma hex_Decode_Encode l : Forall (fun b => 0 <= b < 256) l -> hex_Decode (hex_Encode l) = Ok l.
Proof.
  induction 1 as [|b l Hb _ IH]; [done|]. cbn [hex_Encode mbind list_bind app hex_Decode].
  rewrite !fromHex_lower by (split; [apply Z.div_pos || apply Z.mod_pos_bound; lia|]; first [apply Z.div_lt_upper_bound|apply Z.mod_pos_bound]; lia).
  fold (hex_Encode l). change (mbind (M := list)) with (@mbind list list_bind). rewrite IH. do 2 f_equal. pose proof (Z.div_mod b 16). lia.
Qed.
Lemma hex_Encode_range l : Forall (fun b => 0 <= b < 256) l -> Forall (fun b => 48 <= b <= 57 \/ 97 <= b <= 102) (hex_Encode l).
Proof.
  assert (Hd : forall v, 0 <= v < 16 -> 48 <= hex_lower v <= 57 \/ 97 <= hex_lower v <= 102).
  { intros v Hv. unfold hex_lower. destruct (Z.ltb_spec v 10); lia. }
  induction 1 as [|b l Hb _ IH]; [constructor|]. cbn [hex_Encode mbind list_bind app].
  constructor; [apply Hd|constructor; [apply Hd|exact IH]].
  - split; [apply Z.div_pos|apply Z.div_lt_upper_bound]; lia.
  - apply Z.mod_pos_bound; lia.
Qed.

(** ** The interface *)

(** module.BlockChain: a name and two operations that may reach the network. *)
Record BlockChain (W : Type) := mkBlockChain {
  bc_SendRawTx : string -> Prog W error;
  bc_ChainType : string;
  bc_CheckSign : string -> string -> string -> Prog W (Result gerror bool)   (* pk, sign, message *)
}.
Arguments mkBlockChain {_} _ _ _.
Arguments bc_SendRawTx {_} _ _.
Arguments bc_ChainType {_} _.
Arguments bc_CheckSign {_} _ _ _ _.

(** ** blockchain.ethereum *)

(** go-ethereum: the hash, the recovery of keys from a hash and a signature, and the
    text of an address *)
Class EthCrypto := {
  PublicKey : Type;
  Keccak256Hash : list Z -> list Z;
  SigToPub : list Z -> list Z -> Result gerror PublicKey;
  PubkeyToAddress_Hex : PublicKey -> string
}.
(** ethclient.Dial, CallContext of its RPC client, without a result to store, and Close *)
Class EthRpc (W : Type) := {
  EthClient : Type;
  eth_Dial : string -> Prog W (Result gerror EthClient);
  eth_CallContext : EthClient -> string -> string -> Prog W error;
  eth_Close : EthClient -> Prog W unit
}.

(** A deferred call runs when the function returns or panics. *)
Definition deferred {W A} (later : Prog W unit) (m : Prog W A) : Prog W A := fun w =>
  let '(w1, o) := m w in
  match later w1 with (w2, Done _) => (w2, o) | (w2, Panicked why) => (w2, Panicked why) end.

Section Ethereum.
Context `{UnicodeTables} `{EthCrypto} {W : Type} `{!EthRpc W}.

Definition signed_text (message : string) : list Z :=
  25 :: to_bytes "Ethereum Signed Message:" ++
  10 :: to_bytes (FormatInt (Z.of_nat (String.length message)) +:+ message).
Definition last_byte (f : Z -> Z) (sigBytes : list Z) : list Z := alter f 64%nat sigBytes.
Definition verifySignature (message signature address : string) : Result gerror bool :=
  sigBytes ← hex_Decode (to_bytes (TrimPrefix signature "0x"));
  if negb (Z.of_nat (length sigBytes) =? 65) then Err (EErrorf "invalid signature length" None)
  else
    let sigBytes := last_byte (fun v => (v - 27) mod 256) sigBytes in
    pubKey ← SigToPub (Keccak256Hash (signed_text message)) sigBytes;
    Ok (bool_decide (ToLower (PubkeyToAddress_Hex pubKey) = ToLower address)).

Record EVMBlockChain := mkEVMBlockChain { evm_chainID : Z; evm_rpcURL : string }.
Definition evm_SendRawTx (b : EVMBlockChain) (rawTx : string) : Prog W error :=
  r ← eth_Dial (evm_rpcURL b);
  match r with
  | Err err => mret (Some err)
  | Ok client => deferred (eth_Close client) (eth_CallContext client "eth_sendRawTransaction" rawTx)
  end.
Definition evm_CheckSign (b : EVMBlockChain) (pk sign message : string) : Prog W (Result gerror bool) :=
  mret (verifySignature message sign pk).
Definition evm_ChainType : string := "ethereum".
Definition evm_chain (b : EVMBlockChain) : BlockChain W := mkBlockChain (evm_SendRawTx b) evm_ChainType (evm_CheckSign b).

(** Init: the two directives, both required *)
Definition evm_directives {V} (m : Map (V := V)) : Outcome (Map (V := V)) :=
  m ← Int64 "chain_id" false true 0 (Some "chainID") m;
  Map_String "rpc_url" false true "" (Some "rpcURL") m.
Definition evm_settings {V} (vars : gmap string (value (V := V))) : EVMBlockChain :=
  mkEVMBlockChain (match vars !! "chainID" with Some (VInt _ n) => n | _ => 0 end)
                  (match vars !! "rpcURL" with Some (VString s) => s | _ => "" end).
Definition EVMBlockChain_Init {V} (V_zero : V -> bool) (order : list (matcher (V := V))) (cfg : Map (V := V)) : Outcome (Result gerror EVMBlockChain) :=
  m ← evm_directives cfg;
  mret (match Process V_zero order m ∅ with
        | (_, _, Err err) => Err err
        | (vars, _, Ok _) => Ok (evm_settings vars)
        end).
End Ethereum.

(** ** auth.pass_evm *)

(** module.ManageableStorage, as far as it is called *)
Record ManageableStorage (W : Type) := mkManageableStorage {
  st_ListIMAPAccts : Prog W (Result gerror (list string));
  st_CreateIMAPAcct : string -> Prog W error;
  st_DeleteIMAPAcct : string -> Prog W error
}.
Arguments mkManageableStorage {_} _ _ _.
Arguments st_ListIMAPAccts {_} _.
Arguments st_CreateIMAPAcct {_} _ _.
Arguments st_DeleteIMAPAcct {_} _ _.

Section EVMAuth.
Context `{UnicodeTables} {W : Type}.

(** The fields are nil until Init sets them; a call on a nil interface panics. *)
Record EVMAuth := mkEVMAuth { ea_chain : option (BlockChain W); ea_storage : option (ManageableStorage W) }.
Definition nil_call {A} : Prog W A := panic "invalid memory address or nil pointer dereference".

(** ModuleFromNode for the two interfaces, with an empty block: the argument lists come
    from the first two directives, whatever their names; the error of the second is
    dropped. *)
Definition EVMAuth_Init (chain_from : list string -> Prog W (Result gerror (BlockChain W)))
    (storage_from : list string -> Prog W (Result gerror (ManageableStorage W))) (cfg_Block : Node) : Prog W (EVMAuth * error) :=
  match children cfg_Block with
  | [] => panic "index out of range [0] with length 0"
  | first :: rest =>
    r ← chain_from (node_Args first);
    match r with
    | Err err => mret (mkEVMAuth None None, Some err)
    | Ok chain =>
      match rest with
      | [] => panic "index out of range [1] with length 1"
      | second :: _ =>
        r ← storage_from (node_Args second);
        mret (mkEVMAuth (Some chain) (match r with Ok storage => Some storage | Err _ => None end), None)
      end
    end
  end.

Context (a : EVMAuth).
Definition EVM_AuthPlain (username sign : string) : Prog W error :=
  match Split username with
  | Err err => mret (Some err)
  | Ok (pk, _) =>
    match ea_chain a with
    | None => nil_call
    | Some chain =>
      result ← bc_CheckSign chain pk sign (ToLower pk);
      mret (match result with
            | Err err => Some err
            | Ok false => Some ErrUnknownCredentials
            | Ok true => None
            end)
    end
  end.
Definition with_storage {A} (f : ManageableStorage W -> Prog W A) : Prog W A :=
  match ea_storage a with None => nil_call | Some storage => f storage end.
Definition EVM_ListUsers : Prog W (Result gerror (list string)) := with_storage st_ListIMAPAccts.
Definition EVM_CreateUser (username password : string) : Prog W error := with_storage (fun st => st_CreateIMAPAcct st username).
Definition EVM_SetUserPassword (username password : string) : Prog W error := mret None.
Definition EVM_DeleteUser (username : string) : Prog W error := with_storage (fun st => st_DeleteIMAPAcct st username).
End EVMAuth.

(** ** modify.blockchain_tx *)

Section TxSender.
Context `{Textproto} {W : Type}.
(** Del of go-message's headers *)
Context (hdr_Del : header -> string -> header).

Definition blockchainRawTxMailHeader : string := "X-Blockchain-Tx".
Definition blockchainTypeHeader : string := "X-Blockchain-Type".

(** [chain] is nil before Init: then the type assertion fails. *)
Definition tx_RewriteBody (chain : option (BlockChain W)) (h : header) (body : Buffer) : Prog W (header * error) :=
  match chain with
  | None => mret (h, None)
  | Some c =>
    if bool_decide (bc_ChainType c = hdr_Get h blockchainTypeHeader) && negb (bool_decide (hdr_Get h blockchainRawTxMailHeader = "")) then
      err ← bc_SendRawTx c (hdr_Get h blockchainRawTxMailHeader);
      mret (match err with
            | None => hdr_Del (hdr_Del h blockchainRawTxMailHeader) blockchainTypeHeader
            | Some _ => h
            end, err)
    else mret (h, None)
  end.
Definition tx_state (chain : option (BlockChain W)) : ModifierState W :=
  mkModifierState (fun mailFrom => mret (Ok mailFrom)) (fun rcptTo => mret (Ok [rcptTo])) (tx_RewriteBody chain) (mret None).
Definition tx_modifier (chain : option (BlockChain W)) : Modifier W := mkModifier (fun _ => mret (Ok (tx_state chain))).
(** Init: ModuleFromNode with the namespace "blockchain_tx" *)
Definition tx_Init (chain_from : list string -> Node -> Prog W (Result gerror (BlockChain W))) (inlineArgs : list string) (cfg_Block : Node)
  : Prog W (option (BlockChain W) * error) :=
  r ← chain_from inlineArgs cfg_Block;
  mret (match r with Ok chain => (Some chain, None) | Err err => (None, Some err) end).
End TxSender.

(** ** Logins with a wallet *)

Section Login.
Context `{UnicodeTables} `{EthCrypto} {W : Type} `{!EthRpc W}.
(** A wallet: crypto.Sign of go-ethereum, 64 bytes R and S and a byte V, 0 or 1, and the
    public key of a key; a wallet shows a signature with V raised by 27, in hexadecimal. *)
Context {Key : Type} (Sign : list Z -> Key -> list Z) (pub : Key -> PublicKey).
Definition signature_form (sg : list Z) : Prop := exists rs v, sg = rs ++ [v] /\ length rs = 64%nat /\ Forall (fun b => 0 <= b < 256) rs /\ 0 <= v <= 1.
Definition wallet_sign (message : string) (k : Key) : string :=
  "0x" +:+ of_bytes (hex_Encode (last_byte (Z.add 27) (Sign (Keccak256Hash (signed_text message)) k))).
Definition wallet_address (k : Key) : string := PubkeyToAddress_Hex (pub k).

Lemma last_byte_at f rs v : length rs = 64%nat -> last_byte f (rs ++ [v]) = rs ++ [f v].
Proof. intros Hl. unfold last_byte. rewrite <-Hl, <-(Nat.add_0_r (length rs)). by rewrite alter_app_r. Qed.
Lemma wallet_signature_read (sg : list Z) : signature_form sg ->
  hex_Decode (to_bytes (TrimPrefix ("0x" +:+ of_bytes (hex_Encode (last_byte (Z.add 27) sg))) "0x")) = Ok (last_byte (Z.add 27) sg) /\
  length (last_byte (Z.add 27) sg) = 65%nat /\ last_byte (fun v => (v - 27) mod 256) (last_byte (Z.add 27) sg) = sg.
Proof.
  intros (rs & v & -> & Hl & Hrs & Hv). rewrite !last_byte_at by done.
  assert (Hb : Forall (fun b => 0 <= b < 256) (rs ++ [27 + v])) by (apply Forall_app; split; [done|]; repeat constructor; lia).
  split; [|split; [by rewrite length_app, Hl|]].
  - unfold TrimPrefix. rewrite HasPrefix_app, str_drop_app, to_of_bytes; [by apply hex_Decode_Encode|].
    eapply Forall_impl; [by apply hex_Encode_range|]. simpl. lia.
  - do 2 f_equal. replace (27 + v - 27) with v by lia. apply Z.mod_small. lia.
Qed.

(** C36: a wallet logs in as the account named by its address, whatever the case of its
    letters and whatever the domain, with its signature of the account's name in lower
    case, and as no other account: the login of any other wallet is refused as unknown
    credentials.  And whatever text is accepted as the password of an account, it is the
    hexadecimal form of 65 bytes from which that account's address is recovered. *)
Theorem evm_login (Sign_form : forall h k, signature_form (Sign h k)) (SigToPub_Sign : forall h k, SigToPub h (Sign h k) = Ok (pub k))
    (b : EVMBlockChain) storage account domain w (a := mkEVMAuth (Some (evm_chain b)) storage) (username := account +:+ at_str +:+ domain) :
  account <> "" -> domain <> "" -> has_byte at_sign domain = false ->
  (forall k, EVM_AuthPlain a username (wallet_sign (ToLower account) k) w
             = (w, Done (if decide (ToLower (wallet_address k) = ToLower account) then None else Some ErrUnknownCredentials))) /\
  (forall sign w', EVM_AuthPlain a username sign w = (w', Done None) ->
     exists sigBytes pubKey, hex_Decode (to_bytes (TrimPrefix sign "0x")) = Ok sigBytes /\ length sigBytes = 65%nat /\
       SigToPub (Keccak256Hash (signed_text (ToLower account))) (last_byte (fun v => (v - 27) mod 256) sigBytes) = Ok pubKey /\
       ToLower (PubkeyToAddress_Hex pubKey) = ToLower account).
Proof.
  intros Ha Hd Hat. unfold EVM_AuthPlain, username. rewrite Split_join by done. cbn. split.
  - intros k. destruct (wallet_signature_read _ (Sign_form (Keccak256Hash (signed_text (ToLower account))) k)) as (E & Hl & Hs).
    unfold evm_CheckSign, verifySignature, wallet_sign. rewrite E. cbn. rewrite Hl, Hs, SigToPub_Sign. cbn. case_bool_decide as Hd1; by rewrite ?decide_True, ?decide_False by done.
  - intros sign w' E. unfold evm_CheckSign, verifySignature in E. cbn in E.
    destruct (hex_Decode _) as [sigBytes|]; [|by simplify_eq/=]. cbn in E.
    destruct (Z.eqb_spec (Z.of_nat (length sigBytes)) 65); [|by simplify_eq/=]. cbn in E.
    destruct (SigToPub _ _) as [pubKey|] eqn:Ep; [|by simplify_eq/=]. cbn in E. case_bool_decide; [|by simplify_eq/=].
    exists sigBytes, pubKey. split_and!; [done|lia|done|done].
Qed.
End Login.

(** ** Transactions sent with messages *)

Section TxOnce.
Context `{Textproto} (hdr_Del : header -> string -> header).
Context (Del_gone : forall h k, hdr_Get (hdr_Del h k) k = "") (Del_other : forall h k k', k <> k' -> hdr_Get (hdr_Del h k) k' = hdr_Get h k').
(** A chain of a type: its node keeps the transactions sent, with the types of the chains,
    and answers as it likes. *)
Notation sent := (list (string * string)).
Notation node := (string * (sent -> string -> error))%type.
Definition node_chain (n : node) : BlockChain sent :=
  mkBlockChain (fun tx log => (log ++ [(n.1, tx)], Done (n.2 log tx))) n.1 (fun _ _ _ => mret (Ok false)).
Definition senders (nodes : list node) : list (ModifierState sent) := map (fun n => tx_state hdr_Del (Some (node_chain n))) nodes.
Definition asked_type (h : header) : string := hdr_Get h blockchainTypeHeader.
Definition asked_tx (h : header) : string := hdr_Get h blockchainRawTxMailHeader.

Lemma tx_step n nodes h body log : group_RewriteBody (senders (n :: nodes)) h body log =
  if decide (n.1 = asked_type h /\ asked_tx h <> "") then
    match n.2 log (asked_tx h) with
    | Some e => (log ++ [(n.1, asked_tx h)], Done (h, Some e))
    | None => group_RewriteBody (senders nodes) (hdr_Del (hdr_Del h blockchainRawTxMailHeader) blockchainTypeHeader) body (log ++ [(n.1, asked_tx h)])
    end
  else group_RewriteBody (senders nodes) h body log.
Proof.
  unfold senders. cbn [map group_RewriteBody]. unfold tx_state at 1, tx_RewriteBody. cbn -[group_RewriteBody]. fold (asked_type h) (asked_tx h).
  destruct (decide (n.1 = asked_type h /\ asked_tx h <> "")) as [[E1 E2]|Hn].
  - rewrite bool_decide_true, bool_decide_false by done. cbn -[group_RewriteBody]. unfold mbind, prog_bind. cbn -[group_RewriteBody]. by destruct (n.2 _ _).
  - assert (Ef : bool_decide (n.1 = asked_type h) && negb (bool_decide (asked_tx h = "")) = false) by (repeat case_bool_decide; naive_solver).
    by rewrite Ef.
Qed.
Lemma nothing_to_send nodes h body log : asked_tx h = "" -> group_RewriteBody (senders nodes) h body log = (log, Done (h, None)).
Proof. intros Ht. induction nodes as [|n nodes IH]; [done|]. rewrite tx_step, decide_False by naive_solver. done. Qed.

(** C37: however many blockchain_tx modifiers a message passes, and whatever their nodes
    answer, at most one transaction is sent: that of the header field X-Blockchain-Tx, to
    the first chain of the type the header names.  When the node refuses it the message is
    refused with the node's error and the header unchanged; when it accepts, both fields
    are gone from the header; and without a transaction, or a chain of that type, nothing
    changes. *)
Theorem transaction_sent_once nodes h body log :
  exists log' h' err, group_RewriteBody (senders nodes) h body log = (log', Done (h', err)) /\
  ((log' = log /\ h' = h /\ err = None /\ (asked_tx h = "" \/ Forall (fun n => n.1 <> asked_type h) nodes)) \/
   (exists before answer after, nodes = before ++ (asked_type h, answer) :: after /\ Forall (fun n => n.1 <> asked_type h) before /\
      asked_tx h <> "" /\ log' = log ++ [(asked_type h, asked_tx h)] /\ err = answer log (asked_tx h) /\
      match err with
      | Some _ => h' = h
      | None => asked_tx h' = "" /\ asked_type h' = "" /\
                forall k, k <> blockchainRawTxMailHeader -> k <> blockchainTypeHeader -> hdr_Get h' k = hdr_Get h k
      end)).
Proof using Del_gone Del_other.
  induction nodes as [|n nodes (log' & h' & err & E & Hc)].
  { exists log, h, None. split; [done|]. left. split_and!; try done. by right. }
  rewrite tx_step. destruct (decide _) as [[En Ht]|Hn].
  - exists (log ++ [(asked_type h, asked_tx h)]). destruct (n.2 log (asked_tx h)) as [e|] eqn:Ea.
    + exists h, (Some e). rewrite En. split; [done|]. right. exists [], n.2, nodes. rewrite <-En at 1. destruct n. by split_and!.
    + set (h1 := hdr_Del (hdr_Del h blockchainRawTxMailHeader) blockchainTypeHeader). exists h1, None.
      assert (Hg : asked_tx h1 = "") by (unfold asked_tx, h1; by rewrite Del_other, Del_gone). rewrite En. split; [by apply nothing_to_send|].
      right. exists [], n.2, nodes. rewrite <-En at 1. destruct n. split_and!; try done; [by unfold asked_type, h1; rewrite Del_gone|].
      intros k H1 H2. unfold h1. by rewrite !Del_other.
  - exists log', h', err. split; [done|]. destruct Hc as [(-> & -> & -> & Hc)|(before & answer & after & -> & Hb & Ht & Hl & He & Hh)].
    + left. split_and!; try done. destruct (decide (asked_tx h = "")); [by left|]. right. constructor; [naive_solver|]. by destruct Hc.
    + right. exists (n :: before), answer, after. split_and!; try done. constructor; [naive_solver|done].
Qed.
End TxOnce.

(** ** Witnesses and examples *)

#[local] Existing Instance ascii_tables.
Definition two_keys : EthCrypto := {|
  PublicKey := bool; Keccak256Hash := fun _ => [];
  SigToPub := fun _ sg => if Z.of_nat (length sg) =? 65 then Ok (bool_decide (head sg = Some 1)) else Err (ENew "recovery failed");
  PubkeyToAddress_Hex := fun k => if k then "0xAa" else "0xBb" |}.
Definition no_rpc : EthRpc unit := {|
  EthClient := unit; eth_Dial := fun _ => mret (Err (ENew "dial")); eth_CallContext := fun _ _ _ => mret None; eth_Close := fun _ => mret tt |}.
#[local] Existing Instance two_keys.
#[local] Existing Instance no_rpc.
Definition two_sign (h : list Z) (k : bool) : list Z := (if k then 1 else 0) :: replicate 63 7 ++ [1].
Definition two_pub : bool -> @PublicKey two_keys := fun k => k.
Definition sample_evm : EVMAuth (W := unit) := mkEVMAuth (Some (evm_chain (mkEVMBlockChain 1 "https://rpc.example.org"))) None.

Lemma two_sign_form h k : signature_form (two_sign h k).
Proof.
  exists ((if k then 1 else 0) :: replicate 63 7), 1. split_and!; [done|done| |lia|lia].
  constructor; [destruct k; lia|]. apply Forall_replicate. lia.
Qed.
Lemma evm_login_witness :
  EVM_AuthPlain sample_evm "0xaA@example.org" (wallet_sign two_sign "0xaa" true) tt = (tt, Done None) /\
  EVM_AuthPlain sample_evm "0xaA@example.org" (wallet_sign two_sign "0xaa" false) tt = (tt, Done (Some ErrUnknownCredentials)).
Proof.
  destruct (evm_login two_sign two_pub
              two_sign_form
              (fun h k => ltac:(by destruct k)) (mkEVMBlockChain 1 "https://rpc.example.org") None "0xaA" "example.org" tt) as [Hw _];
    [done..|]. split; [apply (Hw true)|apply (Hw false)].
Defined.
(** What is signed is the name of the account alone: a signature made for one server
    logs in at any other, for ever. *)
Example evm_signature_replayed :
  let sign := wallet_sign two_sign "0xaa" true in
  EVM_AuthPlain sample_evm "0xAA@example.org" sign tt = (tt, Done None) /\ EVM_AuthPlain sample_evm "0xaa@another.example" sign tt = (tt, Done None).
Proof. vm_compute. done. Qed.
(** With one directive in its block Init panics; when the storage cannot be made, it
    succeeds and managing accounts panics. *)
Example evm_init_panics (chain : BlockChain unit) storage_from w :
  (EVMAuth_Init (fun _ => mret (Ok chain)) storage_from (block "auth.pass_evm" [] [directive "blockchain" ["ethereum"]]) w).2
  = Panicked "index out of range [1] with length 1".
Proof. done. Qed.
Example evm_storage_error_lost (chain : BlockChain unit) :
  (a ← EVMAuth_Init (fun _ => mret (Ok chain)) (fun _ => mret (Err (ENew "no storage")))
       (block "auth.pass_evm" [] [directive "blockchain" ["ethereum"]; directive "storage" ["imapsql"]]);
   match a with (a, None) => EVM_ListUsers a | (_, Some e) => mret (Err e) end) tt
  = (tt, Panicked "invalid memory address or nil pointer dereference").
Proof. done. Qed.
Example evm_init_ok :
  EVMBlockChain_Init (fun _ : unit => true)
    (map snd (map_to_list (cm_entries (match evm_directives (NewMap ∅ (block "blockchain.ethereum" [] []) : Map (V := unit)) with Done m => m | Panicked _ => NewMap ∅ (directive "" []) end))))
    (NewMap ∅ (block "blockchain.ethereum" [] [directive "chain_id" ["1"]; directive "rpc_url" ["https://rpc.example.org"]]))
  = Done (Ok (mkEVMBlockChain 1 "https://rpc.example.org")).
Proof. vm_compute. done. Qed.

#[local] Existing Instance pair_textproto.
Definition pair_Del (h : header) (k : string) : header := filter (fun f : string * string => f.1 <> k) (h : list (string * string)).
Lemma pair_Del_gone (h : header) k : hdr_Get (pair_Del h k) k = "".
Proof.
  unfold hdr_Get, hdr_ByKey, pair_Del. cbn. destruct (filter _ (filter _ _)) as [|f l] eqn:E; [done|].
  assert (Hf : f ∈ f :: l) by left. rewrite <-E, !list_elem_of_filter in Hf. by destruct Hf as (-> & [] & _).
Qed.
Lemma pair_Del_other (h : header) k k' : k <> k' -> hdr_Get (pair_Del h k) k' = hdr_Get h k'.
Proof.
  intros Hk. unfold hdr_Get, hdr_ByKey, pair_Del. cbn. rewrite list_filter_filter. do 3 f_equal.
  apply list_filter_iff. intros f. naive_solver.
Qed.
Definition sample_tx : header := [("X-Blockchain-Tx", "0xf86b"); ("X-Blockchain-Type", "ethereum"); ("Subject", "pay")].
Lemma transaction_sent_once_witness :
  exists log' h' err, group_RewriteBody (senders pair_Del [("bitcoin", fun _ _ => None); ("ethereum", fun _ _ => None); ("ethereum", fun _ _ => None)])
    sample_tx (MemoryBuffer "") [] = (log', Done (h', err)) /\ (log' = [] \/ log' = [("ethereum", "0xf86b")]).
Proof.
  destruct (transaction_sent_once pair_Del pair_Del_gone pair_Del_other [("bitcoin", fun _ _ => None); ("ethereum", fun _ _ => None); ("ethereum", fun _ _ => None)]
              sample_tx (MemoryBuffer "") []) as (log' & h' & err & E & Hc).
  exists log', h', err. split; [exact E|]. destruct Hc as [(-> & _)|(before & answer & after & _ & _ & _ & -> & _)]; [by left|by right].
Defined.
