(* ===== verification/ImapFilter.v ===== *)
(** * ImapFilter: internal/imap_filter

    Which folder and flags a delivered message gets: groups of filters, and the filter
    that runs a command. *)
From S2P Require Import Prelude GoStr GoText ExtErrors Checks Module CommandCheck.
From stdpp Require Import gmap.
From Stdlib Require Import Ascii.

Local Open Scope Z_scope.

Section Filters.
Context `{Textproto} {W : Type}.

(** module.IMAPFilter for one message: the account and the recipient; [hdr] and the body
    are those of the message. *)
Definition IMAPFilter : Type := string -> string -> Prog W (Result gerror (string * list string)).

(** ** Group *)

Fixpoint group_filters (fs : list IMAPFilter) (accountName rcptTo finalFolder : string) (finalFlags : list string) : Prog W (string * list string) :=
  match fs with
  | [] => mret (finalFolder, finalFlags)
  | f :: fs =>
    r ← f accountName rcptTo;
    match r with
    | Err _ => group_filters fs accountName rcptTo finalFolder finalFlags
    | Ok (folder, flags) =>
      group_filters fs accountName rcptTo
        (if decide (folder <> "" /\ finalFolder = "") then folder else finalFolder) (finalFlags ++ flags)
    end
  end.
(** [None] is the nil group. *)
Definition group_IMAPFilter (g : option (list IMAPFilter)) : IMAPFilter := fun accountName rcptTo =>
  match g with
  | None => mret (Ok ("", []))
  | Some fs => r ← group_filters fs accountName rcptTo "" []; mret (Ok r)
  end.
Fixpoint group_Init {N} (IMAPFilter_of : N -> Prog W (Result gerror IMAPFilter)) (children : list N) (fs : list IMAPFilter) : Prog W (Result gerror (list IMAPFilter)) :=
  match children with
  | [] => mret (Ok fs)
  | node :: children =>
    r ← IMAPFilter_of node;
    match r with Err err => mret (Err err) | Ok f => group_Init IMAPFilter_of children (fs ++ [f]) end
  end.

(** ** The command *)

Record Check := mkCheck { ic_cmd : string; ic_cmdArgs : list string }.
Definition filter_New (inlineArgs : list string) : Result gerror Check :=
  match inlineArgs with
  | [] => Err (ENew "command: at least one argument is required (command name)")
  | cmd :: args => Ok (mkCheck cmd args)
  end.

(** The loop over OriginalRcpts that {original_rcpt_to} runs: [None] when the fuel does
    not reach its end. *)
Fixpoint oldest_rcpt (fuel : nat) (originals : gmap string string) (rcpt : string) : option string :=
  match fuel with
  | O => None
  | S fuel => match originals !! rcpt with Some originalRcpt => oldest_rcpt fuel originals originalRcpt | None => Some rcpt end
  end.
(** What a placeholder needs: the message, the account and the recipient *)
Record request := mkRequest { rq_id : string; rq_from : string; rq_originals : gmap string string; rq_src : option source; rq_account : string; rq_rcpt : string; rq_hdr : header }.
Inductive expansion := Value (s : string) | PanicsWith (why : string) | Loops.
Definition filter_placeholder (rq : request) (name : string) : expansion :=
  if decide (name = "auth_user") then Value (match rq_src rq with Some c => cs_AuthUser (so_conn c) | None => "" end)
  else if decide (name = "source_ip") then Value (match rq_src rq with Some c => default "" (so_ip c) | None => "" end)
  else if decide (name = "source_host") then Value (match rq_src rq with Some c => cs_Hostname (so_conn c) | None => "" end)
  else if decide (name = "source_rdns") then
    match rq_src rq with
    | None => Value ""
    | Some c => match so_rdns c with None => PanicsWith "nil future used" | Some (Ok (Some v)) => Value v | Some _ => Value "" end
    end
  else if decide (name = "msg_id") then Value (rq_id rq)
  else if decide (name = "sender") then Value (rq_from rq)
  else if decide (name = "rcpt_to") then Value (rq_rcpt rq)
  else if decide (name = "original_rcpt_to") then
    match oldest_rcpt (S (size (rq_originals rq))) (rq_originals rq) (rq_rcpt rq) with Some s => Value s | None => Loops end
  else if decide (name = "subject") then Value (hdr_Get (rq_hdr rq) "Subject")
  else if decide (name = "account_name") then Value (rq_account rq)
  else Value ("{" +:+ name +:+ "}").
Definition filter_value (rq : request) (name : string) : string := match filter_placeholder rq name with Value s => s | _ => "" end.
(** The first placeholder that has no value decides; [None] is an expansion that does not
    end. *)
Definition filter_trouble (rq : request) (c : Check) : option expansion :=
  head (omap (fun name => match filter_placeholder rq name with Value _ => None | e => Some e end)
    (flat_map (fun arg => names (String.length arg) arg) (ic_cmdArgs c))).
Definition filter_expandCommand (rq : request) (c : Check) : option (Outcome (string * list string)) :=
  match filter_trouble rq c with
  | Some Loops => None
  | Some (PanicsWith why) => Some (Panicked why)
  | _ => Some (Done (ic_cmd c, map (ReplaceAllStringFunc (filter_value rq)) (ic_cmdArgs c)))
  end.

(** exec.Cmd: its output is read to the end before Wait. *)
Record FilterCmd := mkFilterCmd {
  fc_StdoutPipe : Prog W error;
  fc_Start : Prog W error;
  fc_Output : Prog W (string * error);
  fc_Signal : Prog W error;
  fc_Wait : Prog W wait_result
}.
Context (exec_Command : string -> list string -> string -> FilterCmd).
Definition filter_run (cmdName : string) (args : list string) (stdin : string) : Prog W (Result gerror (string * list string)) :=
  let cmd := exec_Command cmdName args stdin in
  err ← fc_StdoutPipe cmd;
  match err with
  | Some err => mret (Err err)
  | None =>
    err ← fc_Start cmd;
    match err with
    | Some err => mret (Err err)
    | None =>
      '(out, err) ← fc_Output cmd;
      let '(lines, long) := ScanLines out in
      match (if long then Some (ENew ErrTooLong) else err) with
      | Some err => mret (Err err)
      | None =>
        w ← fc_Wait cmd;
        match w with
        | WaitOk => mret (Ok (match lines with [] => ("", []) | folder :: flags => (folder, flags) end))
        | WaitExit _ err => mret (Err err)
        | WaitOther err => fc_Signal cmd ;; mret (Err err)
        end
      end
    end
  end.
(** The filter, when the expansion ends *)
Definition command_IMAPFilter (c : Check) (rq : request) (hdrText : string) (open : Prog W (Result gerror string)) : option (Prog W (Result gerror (string * list string))) :=
  match filter_expandCommand rq c with
  | None => None
  | Some (Panicked why) => Some (panic why)
  | Some (Done (cmd, args)) =>
    Some (r ← open;
          match r with Err err => mret (Err err) | Ok body => filter_run cmd args (hdrText +:+ body) end)
  end.

(** ** The oldest recipient *)

Lemma oldest_rcpt_more fuel fuel' m r s : (fuel <= fuel')%nat -> oldest_rcpt fuel m r = Some s -> oldest_rcpt fuel' m r = Some s.
Proof.
  revert fuel' r. induction fuel as [|fuel IH]; intros fuel' r Hle E; [done|]. destruct fuel' as [|fuel']; [lia|].
  cbn [oldest_rcpt] in *. destruct (m !! r); [|done]. apply IH; [lia|done].
Qed.
(** The recipients the loop passes *)
Fixpoint passed (fuel : nat) (m : gmap string string) (r : string) : list string :=
  match fuel with O => [] | S fuel => match m !! r with Some r' => r :: passed fuel m r' | None => [] end end.
Lemma passed_keys fuel m r x : x ∈ passed fuel m r -> x ∈ dom m.
Proof.
  revert r. induction fuel as [|fuel IH]; intros r; cbn [passed]; [set_solver|]. destruct (m !! r) as [r'|] eqn:E; [|set_solver].
  intros [->|?]%elem_of_cons; [by apply elem_of_dom_2 in E|eauto].
Qed.
Lemma passed_end fuel m r s : oldest_rcpt fuel m r = Some s -> oldest_rcpt (S (length (passed fuel m r))) m r = Some s.
Proof.
  revert r. induction fuel as [|fuel IH]; intros r; [done|]. cbn [oldest_rcpt passed]. destruct (m !! r) as [r'|] eqn:E.
  - cbn [length]. apply IH.
  - done.
Qed.
Lemma passed_suffix fuel m r s x : x ∈ passed fuel m r -> oldest_rcpt fuel m r = Some s -> exists k, (k <= fuel)%nat /\ oldest_rcpt k m x = Some s.
Proof.
  revert r. induction fuel as [|fuel IH]; intros r; cbn [passed]; [set_solver|]. destruct (m !! r) as [r'|] eqn:E; [|set_solver].
  intros [->|Hx]%elem_of_cons Es; [by exists (S fuel)|]. cbn [oldest_rcpt] in Es. rewrite E in Es. destruct (IH r' Hx Es) as (k & Hk & ?). exists k. split; [lia|done].
Qed.
Lemma passed_once fuel m r s : oldest_rcpt fuel m r = Some s -> exists k, oldest_rcpt k m r = Some s /\ NoDup (passed k m r).
Proof.
  revert r. induction fuel as [fuel IH] using lt_wf_ind. intros r Es. destruct fuel as [|fuel]; [done|].
  pose proof Es as Es'. cbn [oldest_rcpt] in Es. destruct (m !! r) as [r'|] eqn:E.
  - destruct (IH fuel ltac:(lia) r' Es) as (k & Ek & Hnd). destruct (decide (r ∈ passed fuel m r')) as [Hin|Hin].
    + destruct (passed_suffix _ _ _ _ _ Hin Es) as (j & Hj & Ej). apply (IH j ltac:(lia) r Ej).
    + destruct (decide (r ∈ passed k m r')) as [Hin2|Hin2].
      * destruct (decide (k <= fuel)%nat) as [Hle|Hgt].
        { destruct (passed_suffix _ _ _ _ _ Hin2 Ek) as (j & Hj & Ej). apply (IH j ltac:(lia) r Ej). }
        exfalso. apply Hin. clear -Hin2 Es Hgt. revert r' Hin2 Es. generalize dependent k.
        induction fuel as [|fuel IHf]; intros k Hgt r' Hin2 Es; [done|]. destruct k as [|k]; [lia|]. cbn [passed oldest_rcpt] in *.
        destruct (m !! r'); [|done]. apply elem_of_cons in Hin2 as [->|Hin2]; [set_solver|]. apply elem_of_cons. right. apply (IHf k); [lia|done..].
      * exists (S k). cbn [oldest_rcpt passed]. rewrite E. split; [done|]. by constructor.
  - exists 1%nat. cbn [oldest_rcpt passed]. rewrite E. split; [done|]. constructor.
Qed.
(** The fuel of {original_rcpt_to} decides.  If following OriginalRcpts from a recipient
    ends at all it ends, at the same recipient, within as many steps as the map has
    entries and one; otherwise the loop of the source never ends. *)
Theorem oldest_rcpt_decides m r :
  match oldest_rcpt (S (size m)) m r with
  | Some s => m !! s = None /\ forall fuel, (size m < fuel)%nat -> oldest_rcpt fuel m r = Some s
  | None => forall fuel, oldest_rcpt fuel m r = None
  end.
Proof.
  destruct (oldest_rcpt (S (size m)) m r) as [s|] eqn:E.
  - split; [|intros fuel Hf; apply (oldest_rcpt_more (S (size m))); [lia|done]].
    revert r E. generalize (S (size m)). intros n. induction n as [|n IH]; intros r; [done|]. cbn [oldest_rcpt].
    destruct (m !! r) eqn:Er; [apply IH|]. by intros [= <-].
  - intros fuel. destruct (oldest_rcpt fuel m r) as [s|] eqn:Ef; [|done]. exfalso.
    destruct (passed_once _ _ _ _ Ef) as (k & Ek & Hnd).
    assert (length (passed k m r) <= size m)%nat as Hlen.
    { rewrite <- size_dom. rewrite <- (size_list_to_set (C := gset string) (passed k m r)) by done.
      apply subseteq_size. intros x Hx%elem_of_list_to_set. by eapply passed_keys. }
    apply passed_end in Ek. rewrite (oldest_rcpt_more (S (length (passed k m r))) (S (size m)) m r s) in E; [done|lia|done].
Qed.
End Filters.

(** Two recipients that were each rewritten to the other keep the loop going for ever. *)
Example swapped_recipients :
  forall fuel, oldest_rcpt fuel {[ "a@example.org" := "b@example.org"; "b@example.org" := "a@example.org" ]} "a@example.org" = None.
Proof. exact (oldest_rcpt_decides {[ "a@example.org" := "b@example.org"; "b@example.org" := "a@example.org" ]} "a@example.org"). Qed.
