(* ===== verification/ImapSql.v ===== *)
(** * ImapSql: internal/storage/imapsql

    Delivery into mailboxes, the accounts of recipients and users, and the part of the
    configuration that decides.  The database of go-imap-sql is a parameter. *)
From S2P Require Import Prelude GoStr GoText ExtErrors Address Checks Module Dsn Tables Authz ImapFilter.
From stdpp Require Import gmap.
From Stdlib Require Import Ascii.

Local Open Scope Z_scope.

Section ImapSql.
Context `{UnicodeTables} `{TextLib} `{Textproto} {W : Type}.

(** The errors of go-imap-sql the source tells apart *)
Inductive sql_error := UserDoesntExists (err : gerror) | NoSuchMailbox (err : gerror) | SerializationError (err : gerror) | OtherSqlError (err : gerror).
Definition sql_gerror (e : sql_error) : gerror := match e with UserDoesntExists e | NoSuchMailbox e | SerializationError e | OtherSqlError e => e end.
(** imapsql.Delivery *)
Record SqlDelivery := mkSqlDelivery {
  sd_AddRcpt : string -> header -> Prog W (option sql_error);
  sd_UserMailbox : string -> string -> list string -> Prog W unit;
  sd_SpecialMailbox : string -> string -> Prog W (option sql_error);
  sd_BodyParsed : header -> Buffer -> Prog W (option sql_error);
  sd_Abort : Prog W error;
  sd_Commit : Prog W error
}.
(** imapsql.Backend *)
Record Backend := mkBackend {
  bk_NewDelivery : Prog W SqlDelivery;
  bk_GetOrCreateUser : string -> Prog W error;
  bk_GetUser : string -> Prog W (option sql_error);
  bk_Logout : string -> Prog W error;
  bk_Close : Prog W unit
}.
Definition normalizer : Type := string -> Prog W (Result gerror string).
Record Storage := mkStorage {
  is_Back : Backend;
  is_junkMbox : string;
  is_filters : option (MsgMetadata -> header -> Buffer -> IMAPFilter (W := W));
  is_deliveryNormalize : normalizer;
  is_authNormalize : normalizer
}.

Definition userDoesNotExist (actual : error) : gerror := ESMTP 501 (Ench 5 1 1) "User does not exist" "" "imapsql" "" "" actual ∅.
Definition serialization_error (msg : string) (err : gerror) : gerror := ESMTP 453 (Ench 4 3 2) msg "" "imapsql" "" "" (Some err) ∅.

(** ** The parts of Init *)

(** Both normalizers: the function of the name, then the table if there is one *)
Definition make_normalize (name : string) (mapping : option (Table W)) : Result gerror normalizer :=
  match NormalizeFuncs name with
  | None => Err (ENew ("imapsql: unknown normalization function: " +:+ name))
  | Some f =>
    let norm s := match f s with (s, None) => Ok s | (_, Some err) => Err err end in
    match mapping with
    | None => Ok (fun s => mret (norm s))
    | Some t =>
      Ok (fun s =>
            match norm s with
            | Err err => mret (Err err)
            | Ok email =>
              r ← tb_Lookup t email;
              mret (match r with
                    | Err err => Err (userDoesNotExist (Some err))
                    | Ok None => Err (userDoesNotExist None)
                    | Ok (Some mapped) => Ok mapped
                    end)
            end)
    end
  end.
Definition driver_of (sqliteImpl driver : string) : Result gerror string :=
  if decide (driver = "sqlite3") then
    if decide (sqliteImpl = "modernc") then Ok "sqlite"
    else if decide (sqliteImpl = "missing") then Err (ENew "imapsql: SQLite is not supported, recompile without no_sqlite3 tag set")
    else Ok driver
  else Ok driver.
(** The limit: [None] is no limit. *)
Definition append_limit (appendlimitVal : Z) : Result gerror (option Z) :=
  if appendlimitVal =? -1 then Ok None
  else if negb (appendlimitVal mod 2 ^ 32 =? appendlimitVal) then Err (ENew "imapsql: appendlimit value is too big")
  else Ok (Some (appendlimitVal mod 2 ^ 32)).
Definition compression_opts (compression : list string) : Result gerror (string * string) :=
  match compression with
  | [] => Ok ("", "")
  | algo :: params =>
    if decide (algo = "zstd" \/ algo = "lz4") then
      match params with
      | [] => Ok (algo, "")
      | [level] =>
        match Atoi level with
        | Err _ => Err (ENew "imapsql: first argument for lz4 and zstd is compression level")
        | Ok _ => Ok (algo, level)
        end
      | _ => Err (ENew "imapsql: expected at most 2 arguments")
      end
    else if decide (algo = "off") then match params with [] => Ok ("", "") | _ => Err (ENew "imapsql: expected at most 1 arguments") end
    else Err (ENew "imapsql: unknown compression algorithm")
  end.
Definition imapsql_New (inlineArgs : list string) : Result gerror (string * list string) :=
  match inlineArgs with
  | [] => Ok ("", [])
  | [_] => Err (ENew "imapsql: expected at least 2 arguments")
  | driver :: dsn => Ok (driver, dsn)
  end.
(** What Init does with the directives it has read *)
Record settings := mkSettings {
  se_driver : string; se_dsn : option (list string); se_deliveryNormalize : string; se_deliveryMap : option (Table W);
  se_authNormalize : string; se_authMap : option (Table W); se_appendlimit : Z; se_compression : list string;
  se_junk : string; se_filters : option (MsgMetadata -> header -> Buffer -> IMAPFilter (W := W))
}.
Definition Init (sqliteImpl : string) (imapsql_New : string -> string -> option Z -> string * string -> Prog W (Result gerror Backend)) (se : settings) :
    Prog W (Result gerror (Storage * string)) :=
  match se_dsn se with
  | None => mret (Err (ENew "imapsql: dsn is required"))
  | Some dsn =>
    if decide (se_driver se = "") then mret (Err (ENew "imapsql: driver is required"))
    else
      match (driver ← driver_of sqliteImpl (se_driver se);
             deliveryNormalize ← make_normalize (se_deliveryNormalize se) (se_deliveryMap se);
             authNormalize ← make_normalize (se_authNormalize se) (se_authMap se);
             limit ← append_limit (se_appendlimit se);
             compression ← compression_opts (se_compression se);
             Ok (driver, deliveryNormalize, authNormalize, limit, compression)) with
      | Err err => mret (Err err)
      | Ok (driver, deliveryNormalize, authNormalize, limit, compression) =>
        r ← imapsql_New driver (String.concat " " dsn) limit compression;
        mret (match r with
              | Err err => Err (EErrorf ("imapsql: " +:+ Error err) None)
              | Ok back => Ok (mkStorage back (se_junk se) (se_filters se) deliveryNormalize authNormalize, driver)
              end)
      end
  end.

(** ** Accounts *)

Definition GetOrCreateIMAPAcct (st : Storage) (ErrInvalidCredentials : gerror) (username : string) : Prog W (Result gerror string) :=
  r ← is_authNormalize st username;
  match r with
  | Err _ => mret (Err ErrInvalidCredentials)
  | Ok accountName => err ← bk_GetOrCreateUser (is_Back st) accountName; mret (match err with Some err => Err err | None => Ok accountName end)
  end.
Definition Storage_Lookup (st : Storage) (key : string) : Prog W (Result gerror bool) :=
  r ← is_authNormalize st key;
  match r with
  | Err _ => mret (Ok false)
  | Ok accountName =>
    err ← bk_GetUser (is_Back st) accountName;
    match err with
    | Some (UserDoesntExists _) => mret (Ok false)
    | Some err => mret (Err (sql_gerror err))
    | None => bk_Logout (is_Back st) accountName ;; mret (Ok true)
    end
  end.

(** ** Delivery *)

Record delivery := mkDelivery {
  de_store : Storage;
  de_msgMeta : MsgMetadata;
  de_d : SqlDelivery;
  de_mailFrom : string;
  de_addedRcpts : gmap string string
}.
Definition Start (st : Storage) (msgMeta : MsgMetadata) (mailFrom : string) : Prog W delivery :=
  d ← bk_NewDelivery (is_Back st); mret (mkDelivery st msgMeta d mailFrom ∅).
Definition added (accountName rcptTo : string) (d : delivery) : delivery :=
  mkDelivery (de_store d) (de_msgMeta d) (de_d d) (de_mailFrom d) (<[accountName := rcptTo]> (de_addedRcpts d)).
Definition AddRcpt (d : delivery) (rcptTo : string) : Prog W (delivery * error) :=
  r ← is_deliveryNormalize (de_store d) rcptTo;
  match r with
  | Err err => mret (d, Some (userDoesNotExist (Some err)))
  | Ok accountName =>
    if decide (is_Some (de_addedRcpts d !! accountName)) then mret (d, None)
    else
      err ← sd_AddRcpt (de_d d) accountName (hdr_Add hdr_empty "Delivered-To" accountName);
      mret (match err with
            | Some (UserDoesntExists err) | Some (NoSuchMailbox err) => (d, Some (userDoesNotExist (Some err)))
            | Some (SerializationError err) => (d, Some (serialization_error "Internal server error, try again later" err))
            | Some (OtherSqlError err) => (d, Some err)
            | None => (added accountName rcptTo d, None)
            end)
  end.
Definition storage_problem (e : sql_error) : gerror :=
  match e with
  | SerializationError err => serialization_error "Storage access serialiation problem, try again later" err
  | e => sql_gerror e
  end.
Definition Junk : string := "\Junk".
Definition run_filters (d : delivery) (hdr : header) (body : Buffer) : Prog W unit :=
  match is_filters (de_store d) with
  | Some filters =>
    if mm_Quarantine (de_msgMeta d) then mret tt
    else
      for_each (fun '(rcpt, rcptTo) =>
        r ← filters (de_msgMeta d) hdr body rcpt rcptTo;
        match r with Err _ => mret tt | Ok (folder, flags) => sd_UserMailbox (de_d d) rcpt folder flags end)
        (map_to_list (de_addedRcpts d))
  | None => mret tt
  end.
Definition Body (d : delivery) (hdr : header) (body : Buffer) : Prog W error :=
  run_filters d hdr body ;;
  err ← (if mm_Quarantine (de_msgMeta d) then sd_SpecialMailbox (de_d d) Junk (is_junkMbox (de_store d)) else mret None);
  match err with
  | Some err => mret (Some (storage_problem err))
  | None =>
    err ← sd_BodyParsed (de_d d) (hdr_Add hdr "Return-Path" ("<" +:+ SanitizeForHeader (de_mailFrom d) +:+ ">")) body;
    mret (match err with Some err => Some (storage_problem err) | None => None end)
  end.
Definition Abort (d : delivery) : Prog W error := sd_Abort (de_d d).
Definition Commit (d : delivery) : Prog W error := sd_Commit (de_d d).

(** ** The update pipe *)

Inductive pipe_kind := UnixSocket | Postgres.
(** EnableUpdatePipe: the pipe of the driver *)
Definition pipe_of (store_driver : string) : Result gerror pipe_kind :=
  if decide (store_driver = "sqlite3") then Ok UnixSocket
  else if decide (store_driver = "postgres") then Ok Postgres
  else Err (ENew "imapsql: driver does not have an update pipe implementation").

(** ** One copy for each account *)

Fixpoint add_all (d : delivery) (rcpts : list string) : Prog W (delivery * list error) :=
  match rcpts with
  | [] => mret (d, [])
  | rcpt :: rcpts => '(d, err) ← AddRcpt d rcpt; '(d, errs) ← add_all d rcpts; mret (d, err :: errs)
  end.
End ImapSql.

(** A database that writes down the accounts it takes a message for *)
Definition recording `{Textproto} (refuses : string -> option sql_error) : SqlDelivery (W := list string) :=
  mkSqlDelivery (fun account _ accounts => match refuses account with Some e => (accounts, Done (Some e)) | None => (accounts ++ [account], Done None) end)
    (fun _ _ _ => mret tt) (fun _ _ => mret None) (fun _ _ => mret None) (mret None) (mret None).
Definition accepted_for `{Textproto} (d : delivery (W := list string)) (accounts : list string) : Prop :=
  NoDup accounts /\ forall a, a ∈ accounts <-> is_Some (de_addedRcpts d !! a).

(** Recipients and copies.  However many recipients an account has, and whatever the
    database refuses, the database is given each account at most once; a recipient is
    accepted exactly when the message is stored for its account; and one that is
    refused gets an SMTP error or that of the database. *)
Theorem one_copy_each `{Textproto} (norm : string -> Result gerror string) refuses d rcpts accounts :
  (forall rcpt w, is_deliveryNormalize (de_store d) rcpt w = (w, Done (norm rcpt))) -> de_d d = recording refuses -> accepted_for d accounts ->
  exists d' errs accounts', add_all d rcpts accounts = (accounts', Done (d', errs)) /\ accepted_for d' accounts' /\
    Forall2 (fun rcpt err => err = None <-> exists a, norm rcpt = Ok a /\ a ∈ accounts') rcpts errs /\
    (forall a, a ∈ accounts -> a ∈ accounts') /\
    (forall a, a ∈ accounts' -> a ∈ accounts \/ refuses a = None /\ exists rcpt, rcpt ∈ rcpts /\ norm rcpt = Ok a).
Proof.
  intros Hnorm Hd. revert d accounts Hnorm Hd. induction rcpts as [|rcpt rcpts IH]; intros d accounts Hnorm Hd Hacc; cbn [add_all].
  { exists d, [], accounts. split_and!; [done..|constructor|auto|auto]. }
  assert (exists d1 err accounts1, AddRcpt d rcpt accounts = (accounts1, Done (d1, err)) /\ accepted_for d1 accounts1 /\ de_store d1 = de_store d /\ de_d d1 = de_d d /\
            (forall a, a ∈ accounts -> a ∈ accounts1) /\ (forall a, a ∈ accounts1 -> a ∈ accounts \/ refuses a = None /\ norm rcpt = Ok a) /\
            match err with None => exists a, norm rcpt = Ok a /\ a ∈ accounts1 | Some _ => forall a, norm rcpt = Ok a -> is_Some (refuses a) /\ a ∉ accounts1 end) as H1.
  { unfold AddRcpt. rewrite (prog_bind_eq _ _ _ _ _ (Hnorm rcpt accounts)). destruct (norm rcpt) as [a|e] eqn:En.
    - destruct Hacc as [Hnd Hiff]. case_decide as Hin.
      + eexists d, None, accounts. split_and!; try done; [by left|]. exists a. split; [done|]. by apply Hiff.
      + assert (a ∉ accounts) as Hni by (by intros ?%Hiff). destruct (refuses a) as [e|] eqn:Er.
        * rewrite (prog_bind_eq _ _ _ accounts (Some e)) by (rewrite Hd; cbn; by rewrite Er).
          destruct e; (eexists d, (Some _), accounts; split_and!; [reflexivity|done..|by left|]; intros ? [= <-]; split; [by rewrite Er|done]).
        * rewrite (prog_bind_eq _ _ _ (accounts ++ [a]) None) by (rewrite Hd; cbn; by rewrite Er).
          eexists _, None, _. split_and!; [reflexivity| |done|done|set_solver|set_solver|].
          -- split; [apply NoDup_app; repeat split; [done|set_solver|apply NoDup_singleton]|]. intros b. cbn [added de_addedRcpts].
             rewrite elem_of_app, list_elem_of_singleton, Hiff, lookup_insert_is_Some. destruct (decide (a = b)); naive_solver.
          -- exists a. set_solver.
    - eexists d, (Some _), accounts. split_and!; [reflexivity|done..|by left|done]. }
  destruct H1 as (d1 & err & accounts1 & E1 & Hacc1 & Hs & Hd1 & Hsub & Hnew & Herr). rewrite (prog_bind_eq _ _ _ _ _ E1).
  destruct (IH d1 accounts1) as (d2 & errs & accounts2 & E2 & Hacc2 & Hall & Hsub2 & Hnew2); [by rewrite Hs|by rewrite Hd1|done|].
  cbv iota beta. rewrite (prog_bind_eq _ _ _ _ _ E2). exists d2, (err :: errs), accounts2. split; [done|]. split; [done|]. split.
  - constructor; [|done]. destruct err as [e|].
    + split; [done|]. intros (a & Ha & Hin). destruct (Herr a Ha) as [[e' He] Hni]. apply Hnew2 in Hin as [?|[? _]]; congruence.
    + split; [|done]. intros _. destruct Herr as (a & Ha & Hin). eauto.
  - split; [auto|]. intros a [Ha|(Hr & r & Hin & Ha)]%Hnew2.
    + apply Hnew in Ha as [?|[? ?]]; [by left|]. right. split; [done|]. exists rcpt. set_solver.
    + right. split; [done|]. exists r. set_solver.
Qed.

(** ** Two addresses of one account *)

#[local] Existing Instance ascii_tables.
#[local] Existing Instance identity_text.
#[local] Existing Instance pair_textproto.

Definition sample_norm (rcpt : string) : Result gerror string :=
  if decide (rcpt = "postmaster") then Ok "alice" else match SplitByte rcpt "@"%char with [mbox; _] => Ok mbox | _ => Err (ENew "no domain") end.
Definition sample_storage : Storage (W := list string) :=
  mkStorage (mkBackend (mret (recording (fun _ => None))) (fun _ => mret None) (fun _ => mret None) (fun _ => mret None) (mret tt)) "Junk" None
    (fun rcpt => mret (sample_norm rcpt)) (fun user => mret (Ok user)).
Definition refuses_bob (a : string) : option sql_error := if decide (a = "bob") then Some (UserDoesntExists (ENew "no such user")) else None.
Definition sample_delivery : delivery (W := list string) :=
  mkDelivery sample_storage (mkMsgMetadata "id" "" false false ∅ (mkMailOptions 0 false false) None false) (recording refuses_bob) "" ∅.
Definition sample_rcpts : list string := ["alice@example.org"; "bob@example.org"; "postmaster"; "carol"].
Lemma one_copy_each_witness :
  exists d' errs accounts', add_all sample_delivery sample_rcpts [] = (accounts', Done (d', errs)) /\ accepted_for d' accounts' /\
    Forall2 (fun rcpt err => err = None <-> exists a, sample_norm rcpt = Ok a /\ a ∈ accounts') sample_rcpts errs /\
    (forall a, a ∈ [] -> a ∈ accounts') /\
    (forall a, a ∈ accounts' -> a ∈ [] \/ refuses_bob a = None /\ exists rcpt, rcpt ∈ sample_rcpts /\ sample_norm rcpt = Ok a).
Proof.
  apply (one_copy_each sample_norm refuses_bob).
  - reflexivity.
  - reflexivity.
  - split; [constructor|]. intros a. split; [intros H; inversion H|intros [x Hx]; discriminate Hx].
Defined.
Example copies : (add_all sample_delivery sample_rcpts []).1 = ["alice"].
Proof. vm_compute. reflexivity. Qed.
(** With the transpiled SQLite the driver is renamed, and its update pipe is not found. *)
Example modernc_has_no_pipe : (driver_of "modernc" "sqlite3" ≫= pipe_of) = Err (ENew "imapsql: driver does not have an update pipe implementation").
Proof. reflexivity. Qed.
(** An error of the delivery table is reported as a missing user, for good. *)
Example map_error_is_permanent err :
  match make_normalize "noop" (Some (mkTable (fun _ => mret (Err err)) None)) with
  | Ok norm => (norm "alice@example.org" tt).2 = Done (Err (userDoesNotExist (Some err)))
  | Err _ => False
  end.
Proof. reflexivity. Qed.
