(* ===== verification/UpdatePush.v ===== *)
(** * UpdatePush: the goroutine of the update pipe (internal/storage/imapsql/imapsql.go)

    EnableUpdatePipe starts a goroutine between two channels: updates of this process go
    out to the others over the pipe, and theirs come in to its mailboxes.  Close closes
    the outbound channel and waits for the goroutine.  Its steps, those of the backend
    that produces updates, of the listener of the pipe and of Close interleave in any
    order. *)
From S2P Require Import Prelude.

Section Push.
Context {U : Type}.
(** The capacities of the channels *)
Definition inbound_cap : nat := 32.
Definition outbound_cap : nat := 10.

(** The goroutine: in its loop, in its deferred function, gone, or panicked in its
    deferred function.  That function calls recover only after its own loop, so a panic
    of that loop is not recovered and ends the process. *)
Inductive pusher := Looping | Draining | Stopped | Crashed.
Inductive closer := NotClosing | Waiting | Closed.
#[global] Instance pusher_eq_dec : EqDecision pusher.
Proof. solve_decision. Defined.
#[global] Instance closer_eq_dec : EqDecision closer.
Proof. solve_decision. Defined.
(** [handled]: the updates taken from outbound, and whether they were given to Push, which
    they are not when the goroutine panicked over them; [sent], [arrived] and [received]
    are the updates put into outbound, into inbound, and given to ExternalUpdate. *)
Record push_state := mkPush {
  us_inbound : list U;
  us_outbound : list U;
  us_closed : bool;
  us_stop : nat;
  us_pusher : pusher;
  us_closer : closer;
  us_sent : list U;
  us_handled : list (U * bool);
  us_arrived : list U;
  us_received : list U
}.
Definition alive (p : pusher) : bool := bool_decide (p <> Crashed).
Definition push_init : push_state := mkPush [] [] false 0 Looping NotClosing [] [] [] [].

Inductive push_step : push_state -> push_state -> Prop :=
    (* the backend: it is closed before the channel is *)
  | Send u i o st p sent h a r : alive p = true -> length o < outbound_cap ->
    push_step (mkPush i o false st p NotClosing sent h a r) (mkPush i (o ++ [u]) false st p NotClosing (sent ++ [u]) h a r)
    (* the listener of the pipe *)
  | Arrive u i o cl st p c sent h a r : alive p = true -> length i < inbound_cap ->
    push_step (mkPush i o cl st p c sent h a r) (mkPush (i ++ [u]) o cl st p c sent h (a ++ [u]) r)
    (* the cases of select *)
  | TakeIn u i o cl st c sent h a r :
    push_step (mkPush (u :: i) o cl st Looping c sent h a r) (mkPush i o cl st Looping c sent h a (r ++ [u]))
  | TakeOut u i o cl st c sent h a r :
    push_step (mkPush i (u :: o) cl st Looping c sent h a r) (mkPush i o cl st Looping c sent (h ++ [(u, true)]) a r)
  | SeeClosed i st c sent h a r :
    push_step (mkPush i [] true st Looping c sent h a r) (mkPush i [] true st Draining c sent h a r)
    (* a panic of ExternalUpdate or of Push *)
  | PanicIn u i o cl st c sent h a r :
    push_step (mkPush (u :: i) o cl st Looping c sent h a r) (mkPush i o cl st Draining c sent h a (r ++ [u]))
  | PanicOut u i o cl st c sent h a r :
    push_step (mkPush i (u :: o) cl st Looping c sent h a r) (mkPush i o cl st Draining c sent (h ++ [(u, false)]) a r)
    (* the deferred function *)
  | DrainOut u i o cl st c sent h a r :
    push_step (mkPush i (u :: o) cl st Draining c sent h a r) (mkPush i o cl st Draining c sent (h ++ [(u, true)]) a r)
  | DrainPanic u i o cl st c sent h a r :
    push_step (mkPush i (u :: o) cl st Draining c sent h a r) (mkPush i o cl st Crashed c sent (h ++ [(u, false)]) a r)
  | DrainEnd i c sent h a r :
    push_step (mkPush i [] true 0 Draining c sent h a r) (mkPush i [] true 1 Stopped c sent h a r)
    (* Close *)
  | CloseOut i o st p sent h a r : alive p = true ->
    push_step (mkPush i o false st p NotClosing sent h a r) (mkPush i o true st p Waiting sent h a r)
  | CloseDone i o p sent h a r : alive p = true ->
    push_step (mkPush i o true 1 p Waiting sent h a r) (mkPush i o true 0 p Closed sent h a r).

Definition lost (h : list (U * bool)) : list (U * bool) := filter (fun x => x.2 = false) h.
Record push_inv (s : push_state) : Prop := {
  pi_out : map fst (us_handled s) ++ us_outbound s = us_sent s;
  pi_in : us_received s ++ us_inbound s = us_arrived s;
  pi_lost : length (lost (us_handled s)) <= (match us_pusher s with Looping => 0 | Crashed => 2 | _ => 1 end);
  pi_crash : us_pusher s = Crashed -> exists h u, us_handled s = h ++ [(u, false)];
  pi_open : us_closed s = bool_decide (us_closer s <> NotClosing);
  pi_stop : us_stop s = (if decide (us_pusher s = Stopped /\ us_closer s <> Closed) then 1 else 0);
  pi_gone : us_pusher s = Stopped -> us_closed s = true /\ us_outbound s = [];
  pi_done : us_closer s = Closed -> us_pusher s = Stopped;
  pi_caps : length (us_inbound s) <= inbound_cap /\ length (us_outbound s) <= outbound_cap
}.

Lemma push_inv_init : push_inv push_init.
Proof. by split; cbn; [..|lia]. Qed.
Lemma lost_app a b : lost (a ++ b) = lost a ++ lost b.
Proof. apply filter_app. Qed.
Lemma lost_one (u : U) (b : bool) : lost [(u, b)] = if b then [] else [(u, b)].
Proof. by destruct b. Qed.
Lemma push_inv_step s s' : push_step s s' -> push_inv s -> push_inv s'.
Proof.
  intros Hs [Ho Hi Hl Hcr Hop Hst Hg Hd Hc].
  destruct Hs; try destruct c; try destruct p; cbn [us_inbound us_outbound us_closed us_stop us_pusher us_closer us_sent us_handled us_arrived us_received] in *;
    split; cbn [us_inbound us_outbound us_closed us_stop us_pusher us_closer us_sent us_handled us_arrived us_received];
    rewrite ?lost_app, ?lost_one, ?map_app, ?length_app, <- ?app_assoc; cbn; subst; try done; try (cbn in Hc, Hl; lia);
    try (by rewrite <- ?app_assoc); naive_solver lia.
Qed.
Lemma push_inv_reach s : rtc push_step push_init s -> push_inv s.
Proof.
  intros Hr. assert (Hi := push_inv_init). induction Hr as [s|s s1 s' Hs _ IH]; [done|]. apply IH. by eapply push_inv_step.
Qed.

(** What is left to do once Close has begun *)
Definition work (s : push_state) : nat :=
  length (us_inbound s) + length (us_outbound s) + match us_pusher s with Looping => 2 | Draining => 1 | Stopped | Crashed => 0 end
  + match us_closer s with Closed => 0 | _ => 1 end.

Lemma close_progress s : push_inv s -> us_closer s = Waiting -> us_pusher s <> Crashed -> exists s', push_step s s' /\ work s' < work s.
Proof.
  intros [_ _ _ _ Hop Hst _ _ _] E Hp. destruct s as [i o cl st p c sent h a r]. cbn in *. subst c.
  rewrite bool_decide_true in Hop by done. subst cl. destruct p; [| | |done].
  - destruct o as [|u o]; [eexists; split; [apply SeeClosed|unfold work; cbn; lia]|]. eexists. split; [apply TakeOut|unfold work; cbn; lia].
  - rewrite decide_False in Hst by naive_solver. subst st.
    destruct o as [|u o]; [eexists; split; [apply DrainEnd|unfold work; cbn; lia]|]. eexists. split; [apply DrainOut|unfold work; cbn; lia].
  - rewrite decide_True in Hst by done. subst st. eexists. split; [by apply CloseDone|unfold work; cbn; lia].
Qed.
Lemma work_decreases s s' : push_inv s -> us_closer s <> NotClosing -> push_step s s' -> us_arrived s' = us_arrived s -> work s' < work s.
Proof.
  intros [_ _ _ _ Hop _ _ _ _] E Hs Ha. destruct Hs; cbn in *; unfold work; cbn; try lia; try done.
  exfalso. apply (f_equal length) in Ha. rewrite length_app in Ha. cbn in Ha. lia.
Qed.

(** C29: However the goroutine, the backend, the pipe and Close interleave: the updates that
    were sent are handled in their order, and each is given to Push, but one whose Push
    panics may be lost: at most one by the loop, and one more by the deferred function,
    which ends the process with it.  Updates of others reach the mailboxes in their
    order; the channels keep their capacities.  When Close returns every update was
    handled and at most one lost.  Once Close has begun, in a process that has not
    ended there is always a step to take, every step but an arrival from the pipe
    brings it nearer to its end; the process ends only by a panic of Push in the
    deferred function, and then nothing moves. *)
Theorem updates_pushed (s : push_state) : rtc push_step push_init s ->
  map fst (us_handled s) `prefix_of` us_sent s /\ us_received s `prefix_of` us_arrived s /\
  length (lost (us_handled s)) <= (match us_pusher s with Looping => 0 | Draining | Stopped => 1 | Crashed => 2 end) /\
  length (us_inbound s) <= inbound_cap /\ length (us_outbound s) <= outbound_cap /\
  (us_closer s = Closed -> us_pusher s = Stopped /\ map fst (us_handled s) = us_sent s) /\
  (us_closer s = Waiting -> us_pusher s <> Crashed -> exists s', push_step s s' /\ work s' < work s) /\
  (us_closer s <> NotClosing -> forall s', push_step s s' -> us_arrived s' = us_arrived s -> work s' < work s) /\
  (us_pusher s = Crashed -> (exists h u, us_handled s = h ++ [(u, false)]) /\ forall s', ~ push_step s s').
Proof.
  intros Hr. destruct (push_inv_reach s Hr) as [Ho Hi Hl Hcr Hop Hst Hg Hd Hc].
  split; [by rewrite <- Ho; apply prefix_app_r|]. split; [by rewrite <- Hi; apply prefix_app_r|].
  split; [by destruct (us_pusher s)|]. split; [apply Hc|]. split; [apply Hc|].
  split; [intros E; destruct (Hg (Hd E)) as [_ E']; split; [auto|by rewrite <- Ho, E', app_nil_r]|].
  split; [intros E Ha; by apply close_progress|]. split; [intros E s' Hs Ha; by eapply work_decreases|].
  intros E. split; [auto|]. intros s' Hs. by destruct Hs; cbn in E; subst.
Qed.
End Push.

(** Two updates, of which one panics, then Close *)
Definition push_sample : push_state (U := nat) := mkPush [] [] true 0 Stopped Closed [1; 2] [(1, false); (2, true)] [] [].
Lemma updates_pushed_witness : rtc push_step push_init push_sample /\ map fst (us_handled push_sample) = us_sent push_sample.
Proof.
  assert (Hr : rtc push_step push_init push_sample).
  { eapply rtc_l; [by eapply (Send 1); cbn; unfold outbound_cap; try lia|]. eapply rtc_l; [by eapply (Send 2); cbn; unfold outbound_cap; try lia|].
    cbn. eapply rtc_l; [apply PanicOut|]. eapply rtc_l; [by apply CloseOut|]. eapply rtc_l; [apply DrainOut|]. eapply rtc_l; [apply DrainEnd|].
    eapply rtc_l; [by apply CloseDone|]. apply rtc_refl. }
  split; [exact Hr|]. destruct (updates_pushed push_sample Hr) as (_ & _ & _ & _ & _ & H & _). by apply H.
Defined.
(** Push panics twice: the second time in the deferred function, while Close waits. *)
Example drain_panic_crashes :
  rtc push_step push_init (mkPush (U := nat) [] [] true 0 Crashed Waiting [1; 2] [(1, false); (2, false)] [] []).
Proof.
  eapply rtc_l; [by eapply (Send 1); cbn; unfold outbound_cap; try lia|]. eapply rtc_l; [by eapply (Send 2); cbn; unfold outbound_cap; try lia|].
  cbn. eapply rtc_l; [apply PanicOut|]. eapply rtc_l; [by apply CloseOut|]. eapply rtc_l; [apply DrainPanic|]. apply rtc_refl.
Qed.
