(* ===== verification/Rspamd.v ===== *)
(** * Rspamd: internal/check/rspamd

    The request that describes a message to rspamd, and what its answer means.  The HTTP
    client is a parameter; a header of a request is the list of its fields. *)
From S2P Require Import Prelude GoStr GoText ExtErrors Checks Module.
From stdpp Require Import gmap.

Local Open Scope Z_scope.

Section Rspamd.
Context `{Textproto} {W : Type}.

Definition rspamd_modName : string := "check.rspamd".
Record Check := mkCheck {
  rc_apiPath : string;
  rc_settingsID : string;
  rc_tag : string;
  rc_mtaName : string;
  rc_ioErrAction : FailAction;
  rc_errorRespAction : FailAction;
  rc_addHdrAction : FailAction;
  rc_rewriteSubjAction : FailAction
}.
Definition default_apiPath : string := "http://127.0.0.1:11333".
Definition New_apiPath (modName : string) (inlineArgs : list string) : Result gerror string :=
  match inlineArgs with
  | [] => Ok default_apiPath
  | [path] => Ok path
  | _ => Err (EErrorf (modName +:+ ": unexpected amount of inline arguments") None)
  end.

(** The connection: with the IP of a TCP address, the rDNS future ([None] when nil) and
    the version and cipher of a complete TLS handshake. *)
Inductive tls_version := TLS13 | TLS12 | TLS11 | TLS10 | OtherTLS.
Record source := mkSource {
  so_conn : ConnState;
  so_ip : option string;
  so_rdns : option (Prog W (Result gerror (option string)));
  so_tls : option (tls_version * string)
}.
Record state := mkState { rs_c : Check; rs_id : string; rs_src : option source; rs_mailFrom : string; rs_rcpt : list string }.
Definition CheckStateForMsg (c : Check) (id : string) (src : option source) : state := mkState c id src "" [].
Definition CheckConnection (s : state) : CheckResult := CheckResult_zero.
Definition CheckSender (s : state) (addr : string) : state * CheckResult :=
  (mkState (rs_c s) (rs_id s) (rs_src s) addr (rs_rcpt s), CheckResult_zero).
Definition CheckRcpt (s : state) (addr : string) : state * CheckResult :=
  (mkState (rs_c s) (rs_id s) (rs_src s) (rs_mailFrom s) (rs_rcpt s ++ [addr]), CheckResult_zero).

Notation http_fields := (list (string * string)).
Definition tls_fields (t : tls_version * string) : http_fields :=
  ("TLS-Cipher", t.2) ::
  match t.1 with
  | TLS13 => [("TLS-Version", "1.3")] | TLS12 => [("TLS-Version", "1.2")]
  | TLS11 => [("TLS-Version", "1.1")] | TLS10 => [("TLS-Version", "1.0")] | OtherTLS => []
  end.
(** The Hostname field; Get panics on a nil future. *)
Definition rdns_fields (rdns : option (Prog W (Result gerror (option string)))) : Prog W http_fields :=
  match rdns with
  | None => panic "nil future used"
  | Some get => r ← get; mret (match r with Ok (Some name) => [("Hostname", name)] | _ => [] end)
  end.
Definition addConnHeaders (s : state) : Prog W http_fields :=
  let envelope := ("From", rs_mailFrom s) :: map (fun rcpt => ("Rcpt", rcpt)) (rs_rcpt s) ++ [("Queue-ID", rs_id s)] in
  match rs_src s with
  | None => mret envelope
  | Some src =>
    name ← rdns_fields (so_rdns src);
    mret (envelope ++
      (if decide (cs_AuthUser (so_conn src) = "") then [] else [("User", cs_AuthUser (so_conn src))]) ++
      (match so_ip src with Some ip => [("IP", ip)] | None => [] end) ++
      [("Helo", cs_Hostname (so_conn src))] ++ name ++
      (match so_tls src with Some t => tls_fields t | None => [] end))
  end.
Definition opt_header (name value : string) : http_fields := if decide (value = "") then [] else [(name, value)].
Definition request_fields (s : state) (body_Len : Z) : Prog W http_fields :=
  conn ← addConnHeaders s;
  mret ([("Pass", "all"); ("User-Agent", "sirrmesh")] ++ opt_header "MTA-Tag" (rc_tag (rs_c s)) ++
        opt_header "Settings-ID" (rc_settingsID (rs_c s)) ++ opt_header "MTA-Name" (rc_mtaName (rs_c s)) ++ conn ++
        [("Content-Length", FormatInt body_Len)]).

(** net/http: NewRequest, Do with the status of the answer, and the decoder of its body;
    FormatFloat of the score with two digits *)
Record response := mkResponse { re_Score : string; re_Action : string }.
Record Http := mkHttp {
  ht_WriteHeader : header -> Result gerror string;
  ht_NewRequest : string -> error;
  ht_Do : string -> http_fields -> string -> Prog W (Result gerror (Z * Result gerror response))
}.
Context (http : Http).

Definition rspamd_error (code : Z) (ench : EnhancedCode) (msg : string) (err : error) (misc : fields) : error :=
  Some (ESMTP code ench msg rspamd_modName "" "" "" err misc).
Definition rejected (err : gerror) : CheckResult :=
  mkCheckResult (Some (WithFields (Some err) {[ "check" := FStr rspamd_modName ]})) true false [] hdr_empty.
Definition soft_failure (action : FailAction) (ench : EnhancedCode) (err : gerror) : CheckResult :=
  FailAction_Apply action (mkCheckResult (rspamd_error 451 ench "Internal error during policy check" (Some err) ∅) false false [] hdr_empty).
Definition policy_msg : string := "Message rejected due to local policy".
Definition spam_header (score : string) : header := hdr_Add (hdr_Add hdr_empty "X-Spam-Flag" "Yes") "X-Spam-Score" score.
Definition flagged (action : FailAction) (name score : string) : CheckResult :=
  FailAction_Apply action
    (mkCheckResult (rspamd_error 450 (Ench 4 7 0) policy_msg None {[ "action" := FStr name ]}) false false [] (spam_header score)).

(** The switch over the action of the answer *)
Definition handle_response (c : Check) (r : response) : CheckResult :=
  if decide (re_Action r = "no action") then CheckResult_zero
  else if decide (re_Action r = "greylist") then
    mkCheckResult None false false [] (hdr_Add hdr_empty "X-Spam-Score" (re_Score r))
  else if decide (re_Action r = "add header") then flagged (rc_addHdrAction c) "add header" (re_Score r)
  else if decide (re_Action r = "rewrite subject") then flagged (rc_rewriteSubjAction c) "rewrite subject" (re_Score r)
  else if decide (re_Action r = "soft reject") then
    mkCheckResult (rspamd_error 450 (Ench 4 7 0) policy_msg None {[ "action" := FStr "soft reject" ]}) true false [] hdr_empty
  else if decide (re_Action r = "reject") then
    mkCheckResult (rspamd_error 550 (Ench 5 7 0) policy_msg None {[ "action" := FStr "reject" ]}) true false [] hdr_empty
  else CheckResult_zero.

Definition CheckBody (s : state) (hdr : header) (open : Prog W (Result gerror string)) (body_Len : Z) : Prog W CheckResult :=
  r ← open;
  match r with
  | Err err => mret (rejected err)
  | Ok body =>
    match ht_WriteHeader http hdr with
    | Err err => mret (rejected err)
    | Ok text =>
      let url := rc_apiPath (rs_c s) +:+ "/checkv2" in
      match ht_NewRequest http url with
      | Some err => mret (rejected err)
      | None =>
        fs ← request_fields s body_Len;
        resp ← ht_Do http url fs (text +:+ body);
        mret (match resp with
              | Err err => soft_failure (rc_ioErrAction (rs_c s)) (Ench 4 7 0) err
              | Ok (status, data) =>
                if negb (Z.quot status 100 =? 2) then
                  soft_failure (rc_errorRespAction (rs_c s)) (Ench 4 7 0) (EErrorf ("HTTP " +:+ FormatInt status) None)
                else match data with
                | Err err => soft_failure (rc_ioErrAction (rs_c s)) (Ench 4 9 0) err
                | Ok r => handle_response (rs_c s) r
                end
              end)
      end
    end
  end.

(** A result says why whenever it acts on the message. *)
Lemma handle_response_reason c r :
  (cr_Reject (handle_response c r) = true \/ cr_Quarantine (handle_response c r) = true -> cr_Reason (handle_response c r) <> None) /\
  (cr_Reject (handle_response c r) = true -> re_Action r = "soft reject" \/ re_Action r = "reject" \/
     re_Action r = "add header" /\ fa_Reject (rc_addHdrAction c) = true \/ re_Action r = "rewrite subject" /\ fa_Reject (rc_rewriteSubjAction c) = true).
Proof.
  unfold handle_response, flagged, FailAction_Apply. repeat case_decide; simpl; rewrite ?orb_false_r.
  all: split; [intros; try (by destruct (fa_ReasonOverride _)); naive_solver|naive_solver].
Qed.
End Rspamd.

(** Without rDNS lookups every message of a connection panics. *)
Example rspamd_rdns_panics {W} (c : Check) id conn ip tls from rcpt (w : W) :
  addConnHeaders (mkState c id (Some (mkSource conn ip None tls)) from rcpt) w = (w, Panicked "nil future used").
Proof. reflexivity. Qed.
