(* ===== verification/Milter.v ===== *)
(** * Milter: internal/check/milter

    The check that asks a milter: what its answers mean, and the state of the session,
    which ends with an accept or, in fail-open mode, with an I/O error.  The session of
    go-milter is a parameter. *)
From S2P Require Import Prelude GoStr ExtErrors Checks ConfigEndpoint Module.
From stdpp Require Import gmap.
From Stdlib Require Import Ascii.

Local Open Scope Z_scope.

(** milter.Action: the codes the source tells apart *)
Inductive action_code := ActAccept | ActContinue | ActReplyCode (smtp : Z) | ActDiscard | ActTempFail | ActReject | ActOther.
#[global] Instance action_code_eq_dec : EqDecision action_code.
Proof. solve_decision. Defined.
(** milter.ModifyAction *)
Inductive modify_action :=
| ActAddRcpt | ActDelRcpt | ActChangeFrom | ActChangeHeader
| ActInsertHeader (name value : string) | ActAddHeader (name value : string) | ActQuarantine (reason : string) | ActOtherModify.

Inductive ProtoFamily := FamilyInet | FamilyInet6 | FamilyUnix | FamilyUnknown.
Inductive macro_code := CodeConn | CodeHelo | CodeMail.
Inductive proto_option := OptNoConnect | OptNoHelo | OptNoMailFrom | OptNoBody.

Section Milter.
Context `{Textproto} {W : Type}.

(** milter.ClientSession *)
Record Session := mkSession {
  ms_Conn : string -> ProtoFamily -> Z -> string -> Prog W (Result gerror action_code);
  ms_Helo : string -> Prog W (Result gerror action_code);
  ms_Mail : string -> list string -> Prog W (Result gerror action_code);
  ms_Rcpt : string -> Prog W (Result gerror action_code);
  ms_Header : header -> Prog W (Result gerror action_code);
  ms_BodyReadFrom : string -> Prog W (Result gerror (list modify_action * action_code));
  ms_End : Prog W (Result gerror (list modify_action * action_code));
  ms_Macros : macro_code -> list string -> Prog W error;
  ms_ProtocolOption : proto_option -> bool;
  ms_Close : Prog W error
}.

Record Check := mkCheck { mc_milterUrl : string; mc_failOpen : bool; mc_Session : Prog W (Result gerror Session) }.
Definition milter_modName : string := "check.milter".
(** New and the end of Init: the endpoint of the client *)
Definition New (inlineArgs : list string) : Result gerror string :=
  match inlineArgs with
  | [url] => Ok url
  | [] => Ok ""
  | _ => Err (EErrorf (milter_modName +:+ ": unexpected amount of arguments, want 1 or 0") None)
  end.
Definition Init (parsed : string -> Result gerror Endpoint) (milterUrl : string) : Result gerror (string * string) :=
  if decide (milterUrl = "") then Err (EErrorf (milter_modName +:+ ": milter endpoint is not set") None)
  else match parsed milterUrl with
  | Err err => Err (EErrorf (milter_modName +:+ ": " +:+ Error err) None)
  | Ok endp =>
    if decide (end_Scheme endp = "tcp" \/ end_Scheme endp = "unix") then Ok (Network endp, Address endp)
    else Err (EErrorf (milter_modName +:+ ": scheme unsupported: " +:+ end_Scheme endp) None)
  end.

(** The connection: its remote address as the milter is told, and the macros of a
    complete TLS handshake. *)
Inductive remote_addr := TCP4 (addr : string) (port : Z) | TCP6 (addr : string) (port : Z) | Unix (name : string) | NoAddr.
Inductive tls_version := TLSv1 | TLSv1_1 | TLSv1_2 | TLSv1_3 | OtherTLS.
Record tls_info := mkTls { tl_version : tls_version; tl_cipher : string; tl_peer : option (string * string) }.
Record source := mkSource { so_conn : ConnState; so_addr : remote_addr; so_tls : option tls_info }.

Record state := mkState { mi_c : Check; mi_session : Session; mi_id : string; mi_utf8 : bool; mi_src : option source; mi_skipChecks : bool }.
Definition CheckStateForMsg (c : Check) (id : string) (utf8 : bool) (src : option source) : Prog W (Result gerror state) :=
  session ← mc_Session c;
  mret (match session with Err err => Err err | Ok session => Ok (mkState c session id utf8 src false) end).
Definition skip (s : state) : state := mkState (mi_c s) (mi_session s) (mi_id s) (mi_utf8 s) (mi_src s) true.

Definition milter_misc (s : state) : fields := {[ "milter" := FStr (mc_milterUrl (mi_c s)) ]}.
Definition refuse (s : state) (code : Z) (ench : EnhancedCode) (msg reason : string) (err : error) : CheckResult :=
  mkCheckResult (Some (ESMTP code ench msg "milter" "" "" reason err (milter_misc s))) true false [] hdr_empty.
Definition policy_msg : string := "Message rejected due to local policy".

Definition handleAction (s : state) (act : action_code) : state * CheckResult :=
  match act with
  | ActAccept => (skip s, CheckResult_zero)
  | ActContinue => (s, CheckResult_zero)
  | ActReplyCode smtp => (s, refuse s smtp (Ench 5 7 1) policy_msg "reply code action" None)
  | ActDiscard | ActTempFail => (s, refuse s 450 (Ench 4 7 1) policy_msg "reject action" None)
  | ActReject => (s, refuse s 550 (Ench 5 7 1) policy_msg "reject action" None)
  | ActOther => (s, CheckResult_zero)
  end.
Definition ioError (s : state) (err : gerror) : state * CheckResult :=
  if mc_failOpen (mi_c s) then (skip s, CheckResult_zero)
  else (s, refuse s 451 (Ench 4 7 1) "I/O error during policy check" "" (Some err)).

(** apply: header fields are added as they are, anything else is ignored. *)
Definition crlf : string := String (ascii_of_nat 13) (String (ascii_of_nat 10) "").
Definition apply_one (s : state) (res : CheckResult) (act : modify_action) : CheckResult :=
  match act with
  | ActInsertHeader name value | ActAddHeader name value =>
    mkCheckResult (cr_Reason res) (cr_Reject res) (cr_Quarantine res) (cr_AuthResult res)
      (hdr_AddRaw (cr_Header res) (name +:+ ": " +:+ value +:+ crlf))
  | ActQuarantine reason =>
    mkCheckResult (Some (WithFields (Some (ENew "milter quarantine action"))
                     (<["check" := FStr "milter"]> (<["reason" := FStr reason]> (milter_misc s)))))
      (cr_Reject res) true (cr_AuthResult res) (cr_Header res)
  | _ => res
  end.
Definition apply (s : state) (acts : list modify_action) (res : CheckResult) : CheckResult := foldl (apply_one s) res acts.

(** A step of the session: an error is an I/O error, an answer goes on or is handled. *)
Definition ask {A} (s : state) (m : Prog W (Result gerror A)) (k : A -> Prog W (state * CheckResult)) : Prog W (state * CheckResult) :=
  r ← m; match r with Err err => mret (ioError s err) | Ok a => k a end.
Definition tell (s : state) (m : Prog W error) (k : Prog W (state * CheckResult)) : Prog W (state * CheckResult) :=
  err ← m; match err with Some err => mret (ioError s err) | None => k end.
Definition handled (s : state) (act : action_code) : Prog W (state * CheckResult) := mret (handleAction s act).
Definition unless_continue (s : state) (act : action_code) (k : Prog W (state * CheckResult)) : Prog W (state * CheckResult) :=
  if decide (act = ActContinue) then k else handled s act.

Definition addr_args (a : remote_addr) : ProtoFamily * Z * string :=
  match a with
  | TCP4 addr port => (FamilyInet, port, addr)
  | TCP6 addr port => (FamilyInet6, port, addr)
  | Unix name => (FamilyUnix, 0, name)
  | NoAddr => (FamilyUnknown, 0, "")
  end.
Definition tls_macros (t : tls_info) : list string :=
  match tl_version t with
  | TLSv1 => ["tls_version"; "TLSv1"] | TLSv1_1 => ["tls_version"; "TLSv1.1"] | TLSv1_2 => ["tls_version"; "TLSv1.2"]
  | TLSv1_3 => ["tls_version"; "TLSv1.3"] | OtherTLS => []
  end ++ ["cipher"; tl_cipher t] ++
  match tl_peer t with Some (subject, issuer) => ["cert_subject"; subject; "cert_issuer"; issuer] | None => [] end.

Definition CheckConnection (s : state) : Prog W (state * CheckResult) :=
  let ses := mi_session s in
  match mi_src s with
  | None =>
    ask s (ms_Conn ses "localhost" FamilyInet 25 "127.0.0.1") (fun act =>
    unless_continue s act (ask s (ms_Helo ses "localhost") (handled s)))
  | Some src =>
    let helo :=
      if ms_ProtocolOption ses OptNoHelo then mret (s, CheckResult_zero)
      else
        let greet := ask s (ms_Helo ses (cs_Hostname (so_conn src))) (handled s) in
        match so_tls src with
        | Some t => tell s (ms_Macros ses CodeHelo (tls_macros t)) greet
        | None => greet
        end in
    if ms_ProtocolOption ses OptNoConnect then helo
    else
      tell s (ms_Macros ses CodeConn ["daemon_name"; "sirrmesh"; "if_name"; "unknown"; "if_addr"; "0.0.0.0"])
        (let '(family, port, addr) := addr_args (so_addr src) in
         ask s (ms_Conn ses (cs_Hostname (so_conn src)) family port addr) (fun act => unless_continue s act helo))
  end.

(** CheckSender reads the user of the connection, also when there is none. *)
Definition CheckSender (s : state) (mailFrom : string) : Prog W (state * CheckResult) :=
  let ses := mi_session s in
  if mi_skipChecks s || ms_ProtocolOption ses OptNoMailFrom then mret (s, CheckResult_zero)
  else
    match mi_src s with
    | None => panic "invalid memory address or nil pointer dereference"
    | Some src =>
      let user := cs_AuthUser (so_conn src) in
      tell s (ms_Macros ses CodeMail (["i"; mi_id s] ++ if decide (user = "") then [] else ["auth_authen"; user]))
        (ask s (ms_Mail ses mailFrom (if mi_utf8 s then ["SMTPUTF8"] else [])) (handled s))
    end.
Definition CheckRcpt (s : state) (rcptTo : string) : Prog W (state * CheckResult) :=
  if mi_skipChecks s then mret (s, CheckResult_zero) else ask s (ms_Rcpt (mi_session s) rcptTo) (handled s).

Definition finish (s : state) (r : list modify_action * action_code) : Prog W (state * CheckResult) :=
  let '(acts, act) := r in let '(s', result) := handleAction s act in mret (s', apply s' acts result).
Definition CheckBody (s : state) (hdr : header) (open : Prog W (Result gerror string)) : Prog W (state * CheckResult) :=
  if mi_skipChecks s then mret (s, CheckResult_zero)
  else
    ask s (ms_Header (mi_session s) hdr) (fun act =>
    unless_continue s act
      (if ms_ProtocolOption (mi_session s) OptNoBody then ask s (ms_End (mi_session s)) (finish s)
       else
         r ← open;
         match r with
         | Err err => mret (s, refuse s 451 (Ench 4 7 1) "Internal error during policy check" "" (Some err))
         | Ok body => ask s (ms_BodyReadFrom (mi_session s) body) (finish s)
         end)).
Definition Close (s : state) : Prog W error := ms_Close (mi_session s).

(** ** A message *)

Inductive command := Connection | Sender (mailFrom : string) | Rcpt (rcptTo : string) | Body (hdr : header) (open : Prog W (Result gerror string)).
Definition step (s : state) (c : command) : Prog W (state * CheckResult) :=
  match c with
  | Connection => CheckConnection s
  | Sender mailFrom => CheckSender s mailFrom
  | Rcpt rcptTo => CheckRcpt s rcptTo
  | Body hdr open => CheckBody s hdr open
  end.
Fixpoint steps (s : state) (cs : list command) : Prog W (state * list CheckResult) :=
  match cs with
  | [] => mret (s, [])
  | c :: cs => '(s, r) ← step s c; '(s, rs) ← steps s cs; mret (s, r :: rs)
  end.

(** A program that returns, in any world, something that is [good] *)
Definition runs {A} (good : A -> Prop) (m : Prog W A) : Prop := forall w, exists w' a, m w = (w', Done a) /\ good a.
Lemma runs_ret {A} (good : A -> Prop) a : good a -> runs good (mret a).
Proof. intros Ha w. by exists w, a. Qed.
Lemma runs_then {A B} (P : A -> Prop) (Q : B -> Prop) m f : runs P m -> (forall a, P a -> runs Q (f a)) -> runs Q (m ≫= f).
Proof.
  intros Hm Hf w. destruct (Hm w) as (w1 & a & E & Ha). destruct (Hf a Ha w1) as (w2 & b & E2 & Hb).
  exists w2, b. split; [|done]. by rewrite (prog_bind_eq m f w w1 a E).
Qed.

Definition no_refusal (act : action_code) : Prop := act = ActAccept \/ act = ActContinue \/ act = ActOther.
Definition answer {A} (good : A -> Prop) (r : Result gerror A) : Prop := match r with Ok a => good a | Err _ => True end.
(** A milter that refuses nothing, though any of its calls may fail *)
Record tolerant (ses : Session) : Prop := mkTolerant {
  to_Conn : forall h f p a, runs (answer no_refusal) (ms_Conn ses h f p a);
  to_Helo : forall h, runs (answer no_refusal) (ms_Helo ses h);
  to_Mail : forall f args, runs (answer no_refusal) (ms_Mail ses f args);
  to_Rcpt : forall r, runs (answer no_refusal) (ms_Rcpt ses r);
  to_Header : forall h, runs (answer no_refusal) (ms_Header ses h);
  to_BodyReadFrom : forall b, runs (answer (fun r => no_refusal r.2)) (ms_BodyReadFrom ses b);
  to_End : runs (answer (fun r => no_refusal r.2)) (ms_End ses);
  to_Macros : forall c fs, runs (fun _ => True) (ms_Macros ses c fs)
}.
(** The commands that can be run on a message: the sender only of one that came over a
    connection, the body only when it can be opened *)
Definition can_run (src : option source) (c : command) : Prop :=
  match c with
  | Sender _ => src <> None
  | Body _ open => runs (fun r => exists body, r = Ok body) open
  | _ => True
  end.

Section FailOpen.
Context (s0 : state).
Hypothesis fail_open : mc_failOpen (mi_c s0) = true.
Hypothesis ses_tolerant : tolerant (mi_session s0).
Definition kept (r : state * CheckResult) : Prop :=
  mi_c r.1 = mi_c s0 /\ mi_session r.1 = mi_session s0 /\ mi_src r.1 = mi_src s0 /\ cr_Reject r.2 = false.
Definition same (s : state) : Prop := mi_c s = mi_c s0 /\ mi_session s = mi_session s0 /\ mi_src s = mi_src s0.

Lemma runs_ask {A} s (good : A -> Prop) m k : same s -> runs (answer good) m -> (forall a, good a -> runs kept (k a)) -> runs kept (ask s m k).
Proof.
  intros (Hc & Hs & Hsrc) Hm Hk. eapply runs_then; [exact Hm|]. intros [a|err] Ha; [by apply Hk|].
  apply runs_ret. unfold ioError. rewrite Hc, fail_open. done.
Qed.
Lemma runs_tell s m k : same s -> runs (fun _ => True) m -> runs kept k -> runs kept (tell s m k).
Proof.
  intros (Hc & Hs & Hsrc) Hm Hk. eapply runs_then; [exact Hm|]. intros [err|] _; [|done].
  apply runs_ret. unfold ioError. rewrite Hc, fail_open. done.
Qed.
Lemma handleAction_kept s act : same s -> no_refusal act -> kept (handleAction s act).
Proof. intros (Hc & Hs & Hsrc) [->|[->| ->]]; done. Qed.
Lemma runs_handled s act : same s -> no_refusal act -> runs kept (handled s act).
Proof. intros. by apply runs_ret, handleAction_kept. Qed.
Lemma runs_unless_continue s act k : same s -> no_refusal act -> runs kept k -> runs kept (unless_continue s act k).
Proof. intros. unfold unless_continue. case_decide; [done|by apply runs_handled]. Qed.
Lemma apply_Reject s acts res : cr_Reject (apply s acts res) = cr_Reject res.
Proof. unfold apply. revert res. induction acts as [|act acts IH]; intros res; [done|]. cbn [foldl]. rewrite IH. by destruct act. Qed.
Lemma runs_finish s r : same s -> no_refusal r.2 -> runs kept (finish s r).
Proof.
  intros Hs Hr. destruct r as [acts act]. unfold finish. destruct (handleAction_kept s act Hs Hr) as (Hc & Hses & Hsrc & HR).
  destruct (handleAction s act) as [s' result]. apply runs_ret. repeat split; try done. cbn [snd]. by rewrite apply_Reject.
Qed.
Lemma runs_step s c : same s -> can_run (mi_src s0) c -> runs kept (step s c).
Proof.
  intros Hs Hc. pose proof Hs as (_ & Eses & Esrc). destruct ses_tolerant.
  assert (runs kept (mret (s, CheckResult_zero))) as Hskip by (apply runs_ret; by destruct Hs as (?&?&?)).
  assert (forall h, runs kept (ask s (ms_Helo (mi_session s) h) (handled s))) as Hhelo.
  { intros h. eapply runs_ask; [done|rewrite Eses; auto|]. intros; by apply runs_handled. }
  destruct c as [|from|rcpt|hdr open]; cbn [step].
  - unfold CheckConnection. destruct (mi_src s) as [src|].
    + set (helo := if ms_ProtocolOption (mi_session s) OptNoHelo then _ else _).
      assert (runs kept helo) as Hh.
      { subst helo. destruct (ms_ProtocolOption _ _); [done|]. destruct (so_tls src); [|apply Hhelo].
        apply runs_tell; [done|rewrite Eses; auto|apply Hhelo]. }
      destruct (ms_ProtocolOption (mi_session s) OptNoConnect); [done|]. apply runs_tell; [done|rewrite Eses; auto|].
      destruct (addr_args (so_addr src)) as [[family port] addr].
      eapply runs_ask; [done|rewrite Eses; auto|]. intros; by apply runs_unless_continue.
    + eapply runs_ask; [done|rewrite Eses; auto|]. intros; by apply runs_unless_continue.
  - unfold CheckSender. destruct (mi_skipChecks s || _); [done|]. cbn [can_run] in Hc. rewrite <- Esrc in Hc.
    destruct (mi_src s); [|done]. apply runs_tell; [done|rewrite Eses; auto|].
    eapply runs_ask; [done|rewrite Eses; auto|]. intros; by apply runs_handled.
  - unfold CheckRcpt. destruct (mi_skipChecks s); [done|]. eapply runs_ask; [done|rewrite Eses; auto|]. intros; by apply runs_handled.
  - unfold CheckBody. destruct (mi_skipChecks s); [done|]. eapply runs_ask; [done|rewrite Eses; auto|].
    intros act Hact. apply runs_unless_continue; [done..|]. destruct (ms_ProtocolOption _ _).
    + eapply runs_ask; [done|rewrite Eses; exact to_End0|]. intros r Hr. by apply runs_finish.
    + eapply runs_then; [exact Hc|]. intros r (body & ->). eapply runs_ask; [done|rewrite Eses; exact (to_BodyReadFrom0 body)|]. intros r Hr. by apply runs_finish.
Qed.
End FailOpen.

(** C39: with fail_open a milter that refuses nothing refuses nothing when it breaks: any
    of its calls may fail, at any command of the message; every command still returns,
    and none of the results rejects. *)
Theorem fail_open_accepts s cs :
  mc_failOpen (mi_c s) = true -> tolerant (mi_session s) -> Forall (can_run (mi_src s)) cs ->
  runs (fun r => Forall (fun res => cr_Reject res = false) r.2) (steps s cs).
Proof.
  intros Hf Ht Hcs. enough (forall s', same s s' -> runs (fun r => Forall (fun res => cr_Reject res = false) r.2) (steps s' cs)) as Hall by (by apply Hall).
  induction Hcs as [|c cs Hc _ IH]; intros s' Hs'.
  - by apply runs_ret.
  - cbn [steps]. eapply runs_then; [by apply (runs_step s)|]. intros [s1 r] (? & ? & ? & Hr).
    eapply runs_then; [by apply IH|]. intros [s2 rs] Hrs. apply runs_ret. by constructor.
Qed.

(** Once the session is over the milter is not asked again. *)
Lemma skipped_is_not_asked s cs w :
  mi_skipChecks s = true -> Forall (fun c => c <> Connection) cs -> steps s cs w = (w, Done (s, map (fun _ => CheckResult_zero) cs)).
Proof.
  intros Hs Hcs. induction Hcs as [|c cs Hc _ IH]; [done|].
  assert (step s c w = (w, Done (s, CheckResult_zero))) as E.
  { destruct c; [done|cbn [step]..]; unfold CheckSender, CheckRcpt, CheckBody; by rewrite Hs. }
  cbn [steps]. rewrite (prog_bind_eq _ _ _ _ _ E). by rewrite (prog_bind_eq _ _ _ _ _ IH).
Qed.
End Milter.

(** ** A milter that is down *)

#[local] Existing Instance pair_textproto.

Definition down {A} : Prog unit (Result gerror A) := mret (Err (ENew "connection reset")).
Definition down_session : Session :=
  mkSession (fun _ _ _ _ => mret (Ok ActContinue)) (fun _ => down) (fun _ _ => down) (fun _ => down) (fun _ => down) (fun _ => down) down
    (fun _ _ => mret None) (fun _ => false) (mret None).
Definition down_state (failOpen : bool) : state := mkState (mkCheck "tcp://127.0.0.1:4" failOpen down) down_session "id" false None false.
Definition local_message : list (command (W := unit)) := [Connection; Rcpt "a@example.org"; Body hdr_empty (mret (Ok "text"))].
Lemma fail_open_accepts_witness :
  runs (fun r => Forall (fun res => cr_Reject res = false) r.2) (steps (down_state true) local_message).
Proof.
  apply (fail_open_accepts (down_state true) local_message).
  - reflexivity.
  - split; intros; apply runs_ret; simpl; try exact I; right; left; reflexivity.
  - repeat constructor. intros w. exists w, (Ok "text"). split; [reflexivity|by exists "text"].
Defined.
(** Without it the same message is rejected at the connection. *)
Example fail_closed :
  match (steps (down_state false) local_message tt).2 with Done (_, r :: _) => cr_Reject r | _ => false end = true.
Proof. reflexivity. Qed.
(** A message that was generated locally has no connection to read the user of. *)
Example sender_panics from :
  CheckSender (mkState (mkCheck "" true down) down_session "id" false None false) from tt = (tt, Panicked "invalid memory address or nil pointer dereference").
Proof. reflexivity. Qed.
