(* ===== verification/Pipeline.v ===== *)
(** * Pipeline: internal/msgpipeline/msgpipeline.go

    The message pipeline: checks, modifiers and routing in front of the delivery
    targets.  [msgpipelineDelivery] is the state of one message; its methods take
    it and return it changed.  The msgMeta of the delivery and of its check runner
    are one object, kept in the check runner.  Maps keyed by a pointer are keyed
    by a number that stands for it, and are ranged over in the order of
    [map_to_list], one of those Go may choose. *)
From S2P Require Import Prelude GoStr ExtErrors Address Checks Module Tables Modify Dmarc CheckRunner.
From Stdlib Require Import Ascii.

Local Open Scope Z_scope.

Section Pipeline.
Context `{Textproto} `{UnicodeTables} `{TextLib} `{DmarcLib} {W : Type}.

Abbreviation Check := (Check (W := W)).
Abbreviation checkRunner := (checkRunner (W := W)).
Abbreviation ModifierState := (ModifierState W).
Abbreviation Delivery := (Delivery W).

(** A module.DeliveryTarget value: its identity, and whether it is a
    MsgPipeline. *)
Record target := mkTgt { tg_id : nat; tg_pipeline : bool; tg_target : DeliveryTarget W }.

Record rcptBlock := mkRcptBlock {
  rb_id : nat;
  rb_checks : list Check;
  rb_modifiers : list (Modifier W);
  rb_rejectErr : error;
  rb_targets : list target
}.

(** [sb_defaultRcpt] is [None] for a nil pointer. *)
Record sourceBlock := mkSourceBlock {
  sb_checks : list Check;
  sb_modifiers : list (Modifier W);
  sb_rejectErr : error;
  sb_rcptIn : list (Table W * rcptBlock);
  sb_perRcpt : gmap string rcptBlock;
  sb_defaultRcpt : option rcptBlock
}.
Definition sourceBlock_zero : sourceBlock := mkSourceBlock [] [] None [] ∅ None.

(** msgpipelineCfg and MsgPipeline *)
Record MsgPipeline := mkMsgPipeline {
  mp_globalChecks : list Check;
  mp_globalModifiers : list (Modifier W);
  mp_sourceIn : list (Table W * sourceBlock);
  mp_perSource : gmap string sourceBlock;
  mp_defaultSource : sourceBlock;
  mp_doDMARC : bool;
  mp_Hostname : string;
  mp_FirstPipeline : bool
}.

Record delivery := mkDel { del_Delivery : Delivery; del_recipients : list string }.

Record msgpipelineDelivery := mkDD {
  dd_globalModifiersState : option ModifierState;
  dd_sourceModifiersState : option ModifierState;
  dd_rcptModifiersState : gmap nat (rcptBlock * ModifierState);
  dd_sourceAddr : string;
  dd_sourceBlock : sourceBlock;
  dd_deliveries : gmap nat delivery;
  dd_checkRunner : checkRunner
}.

Definition set_global (s : ModifierState) (dd : msgpipelineDelivery) : msgpipelineDelivery :=
  mkDD (Some s) (dd_sourceModifiersState dd) (dd_rcptModifiersState dd) (dd_sourceAddr dd)
    (dd_sourceBlock dd) (dd_deliveries dd) (dd_checkRunner dd).
Definition set_source (s : ModifierState) (addr : string) (dd : msgpipelineDelivery) : msgpipelineDelivery :=
  mkDD (dd_globalModifiersState dd) (Some s) (dd_rcptModifiersState dd) addr
    (dd_sourceBlock dd) (dd_deliveries dd) (dd_checkRunner dd).
Definition set_sourceBlock (b : sourceBlock) (dd : msgpipelineDelivery) : msgpipelineDelivery :=
  mkDD (dd_globalModifiersState dd) (dd_sourceModifiersState dd) (dd_rcptModifiersState dd) (dd_sourceAddr dd)
    b (dd_deliveries dd) (dd_checkRunner dd).
Definition set_rcptMods (m : gmap nat (rcptBlock * ModifierState)) (dd : msgpipelineDelivery)
  : msgpipelineDelivery :=
  mkDD (dd_globalModifiersState dd) (dd_sourceModifiersState dd) m (dd_sourceAddr dd)
    (dd_sourceBlock dd) (dd_deliveries dd) (dd_checkRunner dd).
Definition set_deliveries (ds : gmap nat delivery) (dd : msgpipelineDelivery) : msgpipelineDelivery :=
  mkDD (dd_globalModifiersState dd) (dd_sourceModifiersState dd) (dd_rcptModifiersState dd) (dd_sourceAddr dd)
    (dd_sourceBlock dd) ds (dd_checkRunner dd).
Definition set_cr (cr : checkRunner) (dd : msgpipelineDelivery) : msgpipelineDelivery :=
  mkDD (dd_globalModifiersState dd) (dd_sourceModifiersState dd) (dd_rcptModifiersState dd) (dd_sourceAddr dd)
    (dd_sourceBlock dd) (dd_deliveries dd) cr.

Definition dd_msgMeta (dd : msgpipelineDelivery) : MsgMetadata := cr_msgMeta (dd_checkRunner dd).
Definition set_msgMeta (mm : MsgMetadata) (dd : msgpipelineDelivery) : msgpipelineDelivery :=
  set_cr (set_cr_results mm (cr_mergedRes (dd_checkRunner dd)) (dd_checkRunner dd)) dd.

(** What the pipeline calls outside of it. *)
Context (sched : nat -> schedule) (LookupTXT : string -> Prog W (list string * error))
  (authres_Format : string -> list authres -> string)
  (GenerateReceived : MsgMetadata -> string -> string -> Prog W (Result gerror string))
  (rand100 : Z).
Context (d : MsgPipeline).

Definition nil_deref {A} (o : option A) : Prog W A :=
  match o with
  | Some a => mret a
  | None => panic "invalid memory address or nil pointer dereference"
  end.

(** ** close, and Start *)

Definition dd_close (dd : msgpipelineDelivery) : Prog W unit :=
  cr_close (dd_checkRunner dd) ;;
  (match dd_globalModifiersState dd with Some s => ms_Close s ;; mret tt | None => mret tt end) ;;
  (match dd_sourceModifiersState dd with Some s => ms_Close s ;; mret tt | None => mret tt end) ;;
  for_each (fun s => ms_Close s ;; mret tt) (map (fun p => p.2.2) (map_to_list (dd_rcptModifiersState dd))).

Definition err_norm_sender (err : gerror) : gerror :=
  smtp_error 501 (Ench 5 1 7) "Unable to normalize the sender address" (Some err).
Definition err_invalid_sender (err : gerror) : gerror :=
  ESMTP 501 (Ench 5 1 3) "Invalid sender address" "" "" "" "Can't extract local-part and host-part"
    (Some err) ∅.

(** The first table that has the key; a lookup that fails is skipped. *)
Fixpoint lookup_in {B} (ins : list (Table W * B)) (key : string) : Prog W (option B) :=
  match ins with
  | [] => mret None
  | (t, block) :: ins =>
    r ← tb_Lookup t key;
    match r with
    | Ok (Some _) => mret (Some block)
    | _ => lookup_in ins key
    end
  end.

Definition srcBlockForAddr (mailFrom : string) : Prog W (Result gerror sourceBlock) :=
  match (if decide (mailFrom = "") then (mailFrom, None) else ForLookup mailFrom) with
  | (_, Some err) => mret (Err (err_norm_sender err))
  | (cleanFrom, None) =>
    found ← lookup_in (mp_sourceIn d) cleanFrom;
    match found with
    | Some block => mret (Ok block)
    | None =>
      match mp_perSource d !! cleanFrom with
      | Some block => mret (Ok block)
      | None =>
        match Split cleanFrom with
        | Err err =>
          if decide (cleanFrom = "") then mret (Ok (default (mp_defaultSource d) (mp_perSource d !! "")))
          else mret (Err (err_invalid_sender err))
        | Ok (_, domain) => mret (Ok (default (mp_defaultSource d) (mp_perSource d !! domain)))
        end
      end
    end
  end.

Definition run_checks (m : Prog W (checkRunner * error)) (dd : msgpipelineDelivery)
  : Prog W (msgpipelineDelivery * error) :=
  '(cr, err) ← m; mret (set_cr cr dd, err).

Definition checkConnSender_dd (checks : list Check) (mailFrom : string) (dd : msgpipelineDelivery) :=
  run_checks (checkConnSender sched (dd_checkRunner dd) checks mailFrom) dd.
Definition checkRcpt_dd (checks : list Check) (to : string) (dd : msgpipelineDelivery) :=
  run_checks (checkRcpt sched (dd_checkRunner dd) checks to) dd.
Definition checkBody_dd (checks : list Check) (h : header) (body : Buffer) (dd : msgpipelineDelivery) :=
  run_checks (checkBody sched LookupTXT (dd_checkRunner dd) checks h body) dd.

Definition initRunGlobalModifiers (mm : MsgMetadata) (mailFrom : string) (dd : msgpipelineDelivery)
  : Prog W (msgpipelineDelivery * Result gerror string) :=
  r ← Group_ModStateForMsg (mp_globalModifiers d) mm;
  match r with
  | Err e => mret (dd, Err e)
  | Ok s =>
    r ← ms_RewriteSender s mailFrom;
    match r with
    | Err e => ms_Close s ;; mret (dd, Err e)
    | Ok mailFrom => mret (set_global s dd, Ok mailFrom)
    end
  end.

(** The state of the source modifiers is kept only if RewriteSender succeeds. *)
Definition init_source (block : sourceBlock) (mm : MsgMetadata) (mailFrom : string) (dd : msgpipelineDelivery)
  : Prog W (msgpipelineDelivery * error) :=
  r ← Group_ModStateForMsg (sb_modifiers block) mm;
  match r with
  | Err e => mret (dd, Some e)
  | Ok s =>
    r ← ms_RewriteSender s mailFrom;
    match r with
    | Err e => mret (dd, Some e)
    | Ok mailFrom => mret (set_source s mailFrom dd, None)
    end
  end.

Definition dd_start (mailFrom : string) (dd : msgpipelineDelivery) : Prog W (msgpipelineDelivery * error) :=
  '(dd, err) ← checkConnSender_dd (mp_globalChecks d) mailFrom dd;
  match err with
  | Some _ => mret (dd, err)
  | None =>
    '(dd, r) ← initRunGlobalModifiers (dd_msgMeta dd) mailFrom dd;
    match r with
    | Err e => mret (dd, Some e)
    | Ok mailFrom =>
      r ← srcBlockForAddr mailFrom;
      match r with
      | Err e => mret (dd, Some e)
      | Ok block =>
        match sb_rejectErr block with
        | Some e => mret (dd, Some e)
        | None =>
          '(dd, err) ← checkConnSender_dd (sb_checks block) mailFrom (set_sourceBlock block dd);
          match err with
          | Some _ => mret (dd, err)
          | None => init_source block (dd_msgMeta dd) mailFrom dd
          end
        end
      end
    end
  end.

Definition new_dd (mm : MsgMetadata) : msgpipelineDelivery :=
  let cr := newCheckRunner mm in
  mkDD None None ∅ "" sourceBlock_zero ∅
    (mkCheckRunner (cr_msgMeta cr) (cr_mailFrom cr) (cr_mailFromReceived cr) (cr_checkedRcpts cr)
       (cr_checkedRcptsPerCheck cr) (mp_doDMARC d) (cr_didDMARCFetch cr) (cr_dmarc cr) (cr_states cr)
       (cr_mergedRes cr) (cr_calls cr)).

Definition pl_Start (mm : MsgMetadata) (mailFrom : string)
  : Prog W (Result gerror msgpipelineDelivery) :=
  '(dd, err) ← dd_start mailFrom (new_dd mm);
  match err with
  | Some e => dd_close dd ;; mret (Err e)
  | None => mret (Ok dd)
  end.

(** ** AddRcpt *)

Definition err_norm_rcpt (err : gerror) : gerror :=
  smtp_error 553 (Ench 5 1 2) "Unable to normalize the recipient address" (Some err).
Definition err_invalid_rcpt (err : gerror) : gerror :=
  ESMTP 501 (Ench 5 1 3) "Invalid recipient address" "" "" "" "Can't extract local-part and host-part"
    (Some err) ∅.

Definition rcptBlockForAddr (src : sourceBlock) (rcptTo : string) : Prog W (Result gerror (option rcptBlock)) :=
  match ForLookup rcptTo with
  | (_, Some err) => mret (Err (err_norm_rcpt err))
  | (cleanRcpt, None) =>
    found ← lookup_in (sb_rcptIn src) cleanRcpt;
    match found with
    | Some block => mret (Ok (Some block))
    | None =>
      match sb_perRcpt src !! cleanRcpt with
      | Some block => mret (Ok (Some block))
      | None =>
        match Split cleanRcpt with
        | Err err => mret (Err (err_invalid_rcpt err))
        | Ok (_, domain) =>
          match sb_perRcpt src !! domain with
          | Some block => mret (Ok (Some block))
          | None => mret (Ok (sb_defaultRcpt src))
          end
        end
      end
    end
  end.

(** The answer of RewriteSender is only logged. *)
Definition getRcptModifiers (block : rcptBlock) (dd : msgpipelineDelivery)
  : Prog W (msgpipelineDelivery * Result gerror ModifierState) :=
  match dd_rcptModifiersState dd !! rb_id block with
  | Some (_, s) => mret (dd, Ok s)
  | None =>
    r ← Group_ModStateForMsg (rb_modifiers block) (dd_msgMeta dd);
    match r with
    | Err e => mret (dd, Err e)
    | Ok s =>
      ms_RewriteSender s (dd_sourceAddr dd) ;;
      mret (set_rcptMods (<[rb_id block := (block, s)]> (dd_rcptModifiersState dd)) dd, Ok s)
    end
  end.

Definition getDelivery (tgt : target) (dd : msgpipelineDelivery)
  : Prog W (msgpipelineDelivery * Result gerror delivery) :=
  match dd_deliveries dd !! tg_id tgt with
  | Some del => mret (dd, Ok del)
  | None =>
    r ← tgt_Start (tg_target tgt) (dd_msgMeta dd) (dd_sourceAddr dd);
    match r with
    | Err e => mret (dd, Err e)
    | Ok obj =>
      let del := mkDel obj [] in
      mret (set_deliveries (<[tg_id tgt := del]> (dd_deliveries dd)) dd, Ok del)
    end
  end.

(** exterrors.WithFields with the effective recipient. *)
Definition wrap_rcpt (to : string) (err : gerror) : gerror :=
  WithFields (Some err) {["effective_rcpt" := FStr to]}.

(** One target of the block of a rewritten recipient. *)
Definition add_to_target (originalTo to : string) (tgt : target) (dd : msgpipelineDelivery)
  : Prog W (msgpipelineDelivery * error) :=
  let wrapErr := if tg_pipeline tgt then fun e => e else wrap_rcpt to in
  '(dd, r) ← getDelivery tgt dd;
  match r with
  | Err e => mret (dd, Some (wrapErr e))
  | Ok del =>
    err ← dl_AddRcpt (del_Delivery del) to;
    match err with
    | Some e => mret (dd, Some (wrapErr e))
    | None =>
      mret (set_deliveries (<[tg_id tgt := mkDel (del_Delivery del) (del_recipients del ++ [originalTo])]>
                              (dd_deliveries dd)) dd, None)
    end
  end.

(** A loop that stops at the first error. *)
Fixpoint until_err {A} (f : A -> msgpipelineDelivery -> Prog W (msgpipelineDelivery * error)) (l : list A)
    (dd : msgpipelineDelivery) : Prog W (msgpipelineDelivery * error) :=
  match l with
  | [] => mret (dd, None)
  | a :: l =>
    '(dd, err) ← f a dd;
    match err with
    | Some _ => mret (dd, err)
    | None => until_err f l dd
    end
  end.

(** A recipient after all rewriting. *)
Definition add_final (originalTo : string) (block : rcptBlock) (to : string) (dd : msgpipelineDelivery)
  : Prog W (msgpipelineDelivery * error) :=
  let dd := if decide (originalTo = to) then dd
            else set_msgMeta (set_OriginalRcpts (<[to := originalTo]> (mm_OriginalRcpts (dd_msgMeta dd)))
                                (dd_msgMeta dd)) dd in
  until_err (add_to_target originalTo to) (rb_targets block) dd.

(** A recipient after the rewriting of the source block. *)
Definition add_routed (originalTo to : string) (dd : msgpipelineDelivery)
  : Prog W (msgpipelineDelivery * error) :=
  r ← rcptBlockForAddr (dd_sourceBlock dd) to;
  match r with
  | Err e => mret (dd, Some (wrap_rcpt to e))
  | Ok None => panic "invalid memory address or nil pointer dereference"
  | Ok (Some block) =>
    match rb_rejectErr block with
    | Some e => mret (dd, Some (wrap_rcpt to e))
    | None =>
      '(dd, err) ← checkRcpt_dd (rb_checks block) to dd;
      match err with
      | Some e => mret (dd, Some (wrap_rcpt to e))
      | None =>
        '(dd, r) ← getRcptModifiers block dd;
        match r with
        | Err e => mret (dd, Some (wrap_rcpt to e))
        | Ok s =>
          r ← ms_RewriteRcpt s to;
          match r with
          | Err e => ms_Close s ;; mret (dd, Some (wrap_rcpt to e))
          | Ok newTo => until_err (add_final originalTo block) newTo dd
          end
        end
      end
    end
  end.

Definition pl_AddRcpt (dd : msgpipelineDelivery) (to : string) : Prog W (msgpipelineDelivery * error) :=
  '(dd, err) ← checkRcpt_dd (mp_globalChecks d) to dd;
  match err with
  | Some _ => mret (dd, err)
  | None =>
    '(dd, err) ← checkRcpt_dd (sb_checks (dd_sourceBlock dd)) to dd;
    match err with
    | Some _ => mret (dd, err)
    | None =>
      g ← nil_deref (dd_globalModifiersState dd);
      r ← ms_RewriteRcpt g to;
      match r with
      | Err e => mret (dd, Some e)
      | Ok resultTo =>
        s ← nil_deref (dd_sourceModifiersState dd);
        r ← rewrite_results s resultTo [];
        match r with
        | Err e => mret (dd, Some e)
        | Ok resultTo => until_err (add_routed to) resultTo dd
        end
      end
    end
  end.

(** ** Body *)

Definition dels (dd : msgpipelineDelivery) : list delivery := map snd (map_to_list (dd_deliveries dd)).
Definition rcpt_blocks (dd : msgpipelineDelivery) : list (rcptBlock * ModifierState) :=
  map snd (map_to_list (dd_rcptModifiersState dd)).

(** The modifiers of the message, outermost first: they run like a group. *)
Definition all_modifiers (dd : msgpipelineDelivery) : Prog W (list ModifierState) :=
  g ← nil_deref (dd_globalModifiersState dd);
  s ← nil_deref (dd_sourceModifiersState dd);
  mret (g :: s :: map snd (rcpt_blocks dd)).

Fixpoint send_bodies (ds : list delivery) (h : header) (body : Buffer) : Prog W error :=
  match ds with
  | [] => mret None
  | del :: ds =>
    err ← dl_Body (del_Delivery del) h body;
    match err with
    | Some _ => mret err
    | None => send_bodies ds h body
    end
  end.

(** The checks of Body: global, of the source block, of each recipient block. *)
Definition body_checks (dd : msgpipelineDelivery) : list (list Check) :=
  mp_globalChecks d :: sb_checks (dd_sourceBlock dd) :: map (fun p => rb_checks p.1) (rcpt_blocks dd).

Definition pl_Body (dd : msgpipelineDelivery) (h : header) (body : Buffer)
  : Prog W (msgpipelineDelivery * error) :=
  '(dd, err) ← until_err (fun checks => checkBody_dd checks h body) (body_checks dd) dd;
  match err with
  | Some _ => mret (dd, err)
  | None =>
    r ← (if mp_FirstPipeline d
         then r ← GenerateReceived (dd_msgMeta dd) (mp_Hostname d) (mm_OriginalFrom (dd_msgMeta dd));
              mret (match r with Ok received => Ok (hdr_Add h "Received" received) | Err e => Err e end)
         else mret (Ok h));
    match r with
    | Err e => mret (dd, Some e)
    | Ok h =>
      '(cr, h, err) ← applyResults authres_Format rand100 (mp_Hostname d) (dd_checkRunner dd) h;
      let dd := set_cr cr dd in
      match err with
      | Some _ => mret (dd, err)
      | None =>
        states ← all_modifiers dd;
        '(h, err) ← group_RewriteBody states h body;
        match err with
        | Some _ => mret (dd, err)
        | None => err ← send_bodies (dels dd) h body; mret (dd, err)
        end
      end
    end
  end.

(** statusCollector.SetStatus: the recipient the client named. *)
Definition original_rcpt (mm : MsgMetadata) (st : string * error) : string * error :=
  (default st.1 (mm_OriginalRcpts mm !! st.1), st.2).

(** setStatusAll *)
Definition status_all (dd : msgpipelineDelivery) (err : gerror) : list (string * error) :=
  flat_map (fun del => map (fun r => (r, Some err)) (del_recipients del)) (dels dd).

Fixpoint send_bodies_partial (mm : MsgMetadata) (ds : list delivery) (h : header) (body : Buffer)
    (sts : list (string * error)) : Prog W (list (string * error)) :=
  match ds with
  | [] => mret sts
  | del :: ds =>
    match dl_BodyNonAtomic (del_Delivery del) with
    | Some bodyNonAtomic =>
      s ← bodyNonAtomic h body;
      send_bodies_partial mm ds h body (sts ++ map (original_rcpt mm) s)
    | None =>
      err ← dl_Body (del_Delivery del) h body;
      send_bodies_partial mm ds h body
        (sts ++ match err with Some e => map (fun r => (r, Some e)) (del_recipients del) | None => [] end)
    end
  end.

(** As written: no checks of the recipient blocks, no Received, no applyResults. *)
Definition pl_BodyNonAtomic (dd : msgpipelineDelivery) (h : header) (body : Buffer)
  : Prog W (msgpipelineDelivery * list (string * error)) :=
  '(dd, err) ← until_err (fun checks => checkBody_dd checks h body)
                 [mp_globalChecks d; sb_checks (dd_sourceBlock dd)] dd;
  match err with
  | Some e => mret (dd, status_all dd e)
  | None =>
    states ← all_modifiers dd;
    '(h, err) ← group_RewriteBody states h body;
    match err with
    | Some e => mret (dd, status_all dd e)
    | None => sts ← send_bodies_partial (dd_msgMeta dd) (dels dd) h body []; mret (dd, sts)
    end
  end.

(** ** Commit and Abort *)

Fixpoint commit_all (ds : list delivery) : Prog W error :=
  match ds with
  | [] => mret None
  | del :: ds =>
    err ← dl_Commit (del_Delivery del);
    match err with
    | Some _ => mret err
    | None => commit_all ds
    end
  end.
Definition pl_Commit (dd : msgpipelineDelivery) : Prog W error := dd_close dd ;; commit_all (dels dd).

Fixpoint abort_all (ds : list delivery) (lastErr : error) : Prog W error :=
  match ds with
  | [] => mret lastErr
  | del :: ds =>
    err ← dl_Abort (del_Delivery del);
    abort_all ds (match err with Some _ => err | None => lastErr end)
  end.
Definition pl_Abort (dd : msgpipelineDelivery) : Prog W error := dd_close dd ;; abort_all (dels dd) None.
End Pipeline.
