(* ===== verification/Quiet.v ===== *)
(** * Quiet: programs that add nothing to a log

    The world of a program is paired with a log, of the calls made on delivery
    targets for instance.  A program is [quiet] when it leaves the log alone;
    this file has the rules for such programs, and derives that the operations
    of the check runner and of groups of modifiers are quiet when the checks and
    modifiers they run are. *)
From S2P Require Import Prelude GoStr ExtErrors Address Checks Module Tables Modify Dmarc CheckRunner.
From Stdlib Require Import Ascii.

Local Open Scope nat_scope.

Section Quiet.
Context `{Textproto} {W L : Type}.
Abbreviation Wt := (W * L)%type.

(** [quiet m Q]: [m] makes no logged call, and what it returns satisfies [Q]. *)
Definition quiet {A} (m : Prog Wt A) (Q : A -> Prop) : Prop :=
  forall w tr w' tr' o, m (w, tr) = ((w', tr'), o) -> tr' = tr /\ forall a, o = Done a -> Q a.
Abbreviation quiet_ m := (quiet m (fun _ => True)).

Lemma quiet_ret {A} (a : A) (Q : A -> Prop) : Q a -> quiet (mret a) Q.
Proof. intros HQ w tr w' tr' o E. cbv [mret prog_ret] in E. naive_solver. Qed.

Lemma quiet_panic {A} why (Q : A -> Prop) : quiet (panic why) Q.
Proof. intros w tr w' tr' o E. cbv [panic] in E. naive_solver. Qed.

Lemma quiet_bind {A B} (m : Prog Wt A) (P : A -> Prop) (f : A -> Prog Wt B) (Q : B -> Prop) :
  quiet m P -> (forall a, P a -> quiet (f a) Q) -> quiet (m ≫= f) Q.
Proof.
  intros Hm Hf w tr w' tr' o [([w1 tr1] & a & E1 & E2)|(why & E & ->)]%prog_bind_run.
  - destruct (Hm _ _ _ _ _ E1) as [-> HP]. by apply (Hf a (HP a eq_refl) _ _ _ _ _ E2).
  - destruct (Hm _ _ _ _ _ E) as [-> _]. naive_solver.
Qed.

Lemma quiet_weaken {A} (m : Prog Wt A) (P Q : A -> Prop) :
  quiet m P -> (forall a, P a -> Q a) -> quiet m Q.
Proof. intros Hm HPQ w tr w' tr' o E. destruct (Hm _ _ _ _ _ E) as [-> HP]. naive_solver. Qed.

Lemma quiet_drop {A} (m : Prog Wt A) (P : A -> Prop) : quiet m P -> quiet_ m.
Proof. intros Hm. by eapply quiet_weaken. Qed.

Lemma quiet_catch {A} (m : Prog Wt A) : quiet_ m -> quiet_ (catch m).
Proof.
  intros Hm w tr w' tr' o E. unfold catch in E. destruct (m (w, tr)) as [[w1 tr1] o1] eqn:E1.
  destruct (Hm _ _ _ _ _ E1) as [-> _]. destruct o1; naive_solver.
Qed.

Lemma quiet_for_each {A} (f : A -> Prog Wt unit) l : Forall (fun a => quiet_ (f a)) l -> quiet_ (for_each f l).
Proof.
  induction 1 as [|a l Ha Hl IH]; simpl; [by apply quiet_ret|].
  eapply quiet_bind; [exact Ha|auto].
Qed.

(** A quiet program keeps every statement about the log. *)
Lemma quiet_spec {A} (m : Prog Wt A) (Q : A -> Prop) (P : L -> Prop) :
  quiet m Q -> spec (fun wt => P wt.2) m (fun a wt => P wt.2 /\ Q a).
Proof.
  intros Hm [w tr] [w' tr'] a HP E. destruct (Hm _ _ _ _ _ E) as [-> HQ]. simpl in *. auto.
Qed.

Lemma quiet_Done {A} (m : Prog Wt A) (Q : A -> Prop) wt wt' a :
  quiet m Q -> m wt = (wt', Done a) -> wt'.2 = wt.2 /\ Q a.
Proof. destruct wt, wt'. intros Hm E. destruct (Hm _ _ _ _ _ E) as [-> HQ]. auto. Qed.

(** ** Quiet components *)

Definition quiet_cs (s : CheckState (W := Wt)) : Prop :=
  quiet_ (cs_CheckConnection s) /\ (forall from, quiet_ (cs_CheckSender s from)) /\
  (forall rcpt, quiet_ (cs_CheckRcpt s rcpt)) /\ (forall h b, quiet_ (cs_CheckBody s h b)) /\
  quiet_ (cs_Close s).
Definition if_ok {E A} (P : A -> Prop) (r : Result E A) : Prop := match r with Ok a => P a | Err _ => True end.
Definition quiet_check (c : Check (W := Wt)) : Prop :=
  forall mm, quiet (ck_CheckStateForMsg c mm) (if_ok quiet_cs).
Definition quiet_ms (s : ModifierState Wt) : Prop :=
  (forall from, quiet_ (ms_RewriteSender s from)) /\ (forall rcpt, quiet_ (ms_RewriteRcpt s rcpt)) /\
  (forall h b, quiet_ (ms_RewriteBody s h b)) /\ quiet_ (ms_Close s).
Definition quiet_mod (m : Modifier Wt) : Prop :=
  forall mm, quiet (mod_ModStateForMsg m mm) (if_ok quiet_ms).
Definition quiet_table (t : Table Wt) : Prop := forall key, quiet_ (tb_Lookup t key).
End Quiet.
Abbreviation quiet_ m := (quiet m (fun _ => True)).

Create HintDb quiet.
#[export] Hint Resolve quiet_ret quiet_panic quiet_catch I : quiet.

(** Follow a program: a bind, a match, a value. *)
Ltac quiet_step :=
  lazymatch goal with
  | |- quiet (_ ≫= _) _ => eapply quiet_bind; [solve [eauto with quiet]|intros]
  | |- quiet (mret _) _ => apply quiet_ret
  | |- quiet (panic _) _ => apply quiet_panic
  | |- quiet (match ?x with _ => _ end) _ => destruct x eqn:?
  | |- quiet ((match ?x with _ => _ end) ≫= _) _ => destruct x eqn:?
  end.
Ltac quiet_steps := repeat (simplify_eq/=; quiet_step); simplify_eq/=.

(** ** The check runner is quiet *)

Section QuietRunner.
Context `{Textproto} `{UnicodeTables} `{DmarcLib} {W L : Type}.
Abbreviation Wt := (W * L)%type.
Context (sched : nat -> schedule) (LookupTXT : string -> Prog Wt (list string * error)).
Hypothesis quiet_resolver : forall name, quiet_ (LookupTXT name).

Definition good_cr (cr : checkRunner (W := Wt)) : Prop := map_Forall (fun _ => quiet_cs) (cr_states cr).
(** What a runner starts for a quiet state is quiet. *)
Definition quiet_runner (run : runner (W := Wt)) : Prop :=
  forall s per m, quiet_cs s -> (run s per).2 = Some m -> quiet_ m.

Lemma quiet_connection_runner : quiet_runner connection_runner.
Proof. intros s per m (Hs & _) E. naive_solver. Qed.
Lemma quiet_sender_runner from : quiet_runner (sender_runner from).
Proof. intros s per m (_ & Hs & _) E. naive_solver. Qed.
Lemma quiet_rcpt_runner rcpt : quiet_runner (rcpt_runner rcpt).
Proof. intros s per m (_ & _ & Hs & _) E. unfold rcpt_runner in E. case_decide; naive_solver. Qed.
Lemma quiet_body_runner h b : quiet_runner (body_runner h b).
Proof. intros s per m (_ & _ & _ & Hs & _) E. naive_solver. Qed.

Lemma quiet_run_in_order order states run per rs :
  Forall quiet_cs states -> quiet_runner run -> quiet_ (run_in_order order states run per rs).
Proof.
  intros Hs Hrun. revert per rs.
  induction order as [|i order IH]; intros per rs; simpl; [by apply quiet_ret|].
  destruct (states !! i) as [s|] eqn:Ei; [|auto].
  destruct (run s per) as [per' [m|]] eqn:Er; [|auto].
  eapply quiet_bind; [apply quiet_catch, (Hrun s per)|intros; apply IH].
  - by eapply Forall_lookup.
  - by rewrite Er.
Qed.

Lemma quiet_runAndMerge cr states run :
  good_cr cr -> Forall quiet_cs states -> quiet_runner run ->
  quiet (runAndMergeResults sched cr states run) (fun p => good_cr p.1).
Proof.
  intros Hcr Hs Hrun. unfold runAndMergeResults.
  eapply quiet_bind; [by apply quiet_run_in_order|]. intros [per rs] _.
  destruct (merge_results _ _ _) as [merged err]. by apply quiet_ret.
Qed.

Lemma quiet_close_check_states (states : list (CheckState (W := Wt))) : Forall quiet_cs states -> quiet_ (close_check_states states).
Proof.
  intros Hs. apply quiet_for_each. eapply Forall_impl; [exact Hs|].
  intros s (_ & _ & _ & _ & Hc). eapply quiet_bind; [exact Hc|]. intros. by apply quiet_ret.
Qed.

Definition good_collected (r : list (CheckState (W := Wt)) * list (CheckState (W := Wt)) *
                               gmap nat (CheckState (W := Wt))) : Prop :=
  Forall quiet_cs r.1.1 /\ Forall quiet_cs r.1.2 /\ map_Forall (fun _ => quiet_cs) r.2.

Lemma quiet_collect cr checks states newStates newMap :
  good_cr cr -> Forall quiet_check checks -> good_collected (states, newStates, newMap) ->
  quiet (collect_states cr checks states newStates newMap) (if_ok good_collected).
Proof.
  intros Hcr Hc. revert states newStates newMap.
  induction Hc as [|c checks Hc Hcs IH]; intros states newStates newMap (Hs & Hn & Hm); simpl in *;
    [by apply quiet_ret|].
  destruct (cr_states cr !! ck_id c) as [s|] eqn:Es.
  - apply IH. split_and!; simpl; [|done|done]. apply Forall_app. split; [done|].
    constructor; [by eapply Hcr|constructor].
  - eapply quiet_bind; [apply Hc|]. intros [s|e] Hr; simpl in Hr.
    + apply IH. split_and!; simpl; [by apply Forall_app; auto..|]. by apply map_Forall_insert_2.
    + eapply quiet_bind; [by apply quiet_close_check_states|]. intros. by apply quiet_ret.
Qed.

Lemma quiet_replay_rcpts cr states rcpts :
  good_cr cr -> Forall quiet_cs states ->
  quiet (replay_rcpts sched cr states rcpts) (fun p => good_cr p.1).
Proof.
  intros Hcr Hs. revert cr Hcr. induction rcpts as [|rcpt rcpts IH]; intros cr Hcr; simpl; [by apply quiet_ret|].
  eapply quiet_bind; [apply quiet_runAndMerge; auto using quiet_rcpt_runner|].
  intros [cr' err] Hcr'. destruct err; [by apply quiet_ret|auto].
Qed.

Lemma quiet_replay_sender cr states :
  good_cr cr -> Forall quiet_cs states ->
  quiet (replay_sender sched cr states) (fun p => good_cr p.1).
Proof.
  intros Hcr Hs. unfold replay_sender. destruct (cr_mailFromReceived cr); [|by apply quiet_ret].
  eapply quiet_bind; [apply quiet_runAndMerge; auto using quiet_connection_runner|].
  intros [cr' err] Hcr'. destruct err; [by apply quiet_ret|].
  apply quiet_runAndMerge; auto using quiet_sender_runner.
Qed.

Lemma quiet_checkStates cr checks :
  good_cr cr -> Forall quiet_check checks ->
  quiet (checkStates sched cr checks) (fun p => good_cr p.1 /\ if_ok (Forall quiet_cs) p.2).
Proof.
  intros Hcr Hc. unfold checkStates.
  eapply quiet_bind; [apply quiet_collect; [done|done|]; split_and!; simpl; auto; apply map_Forall_empty|].
  intros [[[states newStates] newMap]|e] Hr; [|by apply quiet_ret].
  destruct Hr as (Hs & Hn & Hm). simpl in Hs, Hn, Hm.
  destruct newStates as [|s0 l]; [by apply quiet_ret|].
  eapply quiet_bind; [by apply quiet_replay_sender|]. intros [cr1 err1] Hcr1. simpl in Hcr1.
  assert (Hclose : forall (cr2 : checkRunner (W := Wt)) (e : gerror), good_cr cr2 ->
    quiet (close_check_states states ;; mret (cr2, Err e : Result gerror (list (CheckState (W := Wt)))))
      (fun p => good_cr p.1 /\ if_ok (Forall quiet_cs) p.2)).
  { intros cr2 e Hcr2. eapply quiet_bind; [by apply quiet_close_check_states|]. intros. by apply quiet_ret. }
  destruct err1; [auto|].
  eapply quiet_bind; [by apply quiet_replay_rcpts|]. intros [cr2 err2] Hcr2. simpl in Hcr2.
  destruct err2; [auto|]. apply quiet_ret. split; [|done]. by apply map_Forall_union_2.
Qed.

Lemma quiet_checkConnSender cr checks from :
  good_cr cr -> Forall quiet_check checks ->
  quiet (checkConnSender sched cr checks from) (fun p => good_cr p.1).
Proof.
  intros Hcr Hc. eapply quiet_bind; [by apply quiet_checkStates|].
  intros [cr' r] [Hcr' _]. by apply quiet_ret.
Qed.

Lemma quiet_checkRcpt cr checks rcpt :
  good_cr cr -> Forall quiet_check checks -> quiet (checkRcpt sched cr checks rcpt) (fun p => good_cr p.1).
Proof.
  intros Hcr Hc. eapply quiet_bind; [by apply quiet_checkStates|].
  intros [cr' [states|e]] [Hcr' Hs]; [|by apply quiet_ret].
  eapply quiet_bind; [apply quiet_runAndMerge; auto using quiet_rcpt_runner|].
  intros [cr2 err] Hcr2. by apply quiet_ret.
Qed.

Lemma quiet_FetchRecord h : quiet_ (Verifier_FetchRecord LookupTXT h).
Proof.
  unfold Verifier_FetchRecord.
  destruct (ExtractFromDomain h) as [from|e]; [|by apply quiet_ret].
  assert (Hf : quiet_ (FetchRecord LookupTXT from)).
  { unfold FetchRecord. quiet_steps; eauto. }
  intros w tr w' tr' o E. destruct (FetchRecord LookupTXT from (w, tr)) as [[w1 tr1] o1] eqn:E1.
  destruct (Hf _ _ _ _ _ E1) as [-> _]. destruct o1 as [[[p r] e]|why]; naive_solver.
Qed.

Lemma quiet_checkBody cr checks h b :
  good_cr cr -> Forall quiet_check checks ->
  quiet (checkBody sched LookupTXT cr checks h b) (fun p => good_cr p.1).
Proof.
  intros Hcr Hc. eapply quiet_bind; [by apply quiet_checkStates|].
  intros [cr' [states|e]] [Hcr' Hs]; [|by apply quiet_ret].
  eapply (quiet_bind _ good_cr).
  - destruct (_ && _); [|by apply quiet_ret].
    eapply quiet_bind; [apply quiet_FetchRecord|]. intros. by apply quiet_ret.
  - intros cr2 Hcr2. apply quiet_runAndMerge; auto using quiet_body_runner.
Qed.

Lemma quiet_cr_close cr : good_cr cr -> quiet_ (cr_close cr).
Proof.
  intros Hcr. apply quiet_close_check_states. apply Forall_forall.
  intros s ([i s'] & -> & Hi%elem_of_map_to_list)%list_elem_of_fmap. by eapply Hcr.
Qed.
End QuietRunner.

(** ** Groups of modifiers are quiet *)

Section QuietModifiers.
Context `{Textproto} {W L : Type}.
Abbreviation Wt := (W * L)%type.
Implicit Types states : list (ModifierState Wt).

Lemma quiet_close_states states : Forall quiet_ms states -> quiet_ (close_states states).
Proof.
  intros Hs. apply quiet_for_each. eapply Forall_impl; [exact Hs|].
  intros s (_ & _ & _ & Hc). eapply quiet_bind; [exact Hc|]. intros. by apply quiet_ret.
Qed.

Lemma quiet_group_states (mods : list (Modifier Wt)) mm states :
  Forall quiet_mod mods -> Forall quiet_ms states ->
  quiet (group_states mods mm states) (if_ok (Forall quiet_ms)).
Proof.
  intros Hm. revert states. induction Hm as [|m mods Hm Hms IH]; intros states Hs; simpl; [by apply quiet_ret|].
  eapply quiet_bind; [apply Hm|]. intros [s|e] Hr; simpl in Hr.
  - apply IH, Forall_app. auto.
  - eapply quiet_bind; [by apply quiet_close_states|]. intros. by apply quiet_ret.
Qed.

Lemma quiet_group_RewriteSender states from : Forall quiet_ms states -> quiet_ (group_RewriteSender states from).
Proof.
  intros Hs. revert from. induction Hs as [|s states Hs Hss IH]; intros from; simpl; [by apply quiet_ret|].
  eapply quiet_bind; [apply Hs|]. intros [from'|e] _; [apply IH|by apply quiet_ret].
Qed.

Lemma quiet_rewrite_results (s : ModifierState Wt) l acc : quiet_ms s -> quiet_ (rewrite_results s l acc).
Proof.
  intros (_ & Hs & _). revert acc. induction l as [|part l IH]; intros acc; simpl; [by apply quiet_ret|].
  eapply quiet_bind; [apply Hs|]. intros [multi|e] _; [apply IH|by apply quiet_ret].
Qed.

Lemma quiet_group_RewriteRcpts states l : Forall quiet_ms states -> quiet_ (group_RewriteRcpts states l).
Proof.
  intros Hs. revert l. induction Hs as [|s states Hs Hss IH]; intros l; simpl; [by apply quiet_ret|].
  eapply quiet_bind; [by apply quiet_rewrite_results|]. intros [l'|e] _; [apply IH|by apply quiet_ret].
Qed.

Lemma quiet_group_RewriteBody states h b : Forall quiet_ms states -> quiet_ (group_RewriteBody states h b).
Proof.
  intros Hs. revert h. induction Hs as [|s states Hs Hss IH]; intros h; simpl; [by apply quiet_ret|].
  eapply quiet_bind; [apply Hs|]. intros [h' [e|]] _; [by apply quiet_ret|apply IH].
Qed.

Lemma quiet_group_Close states err : Forall quiet_ms states -> quiet_ (group_Close_loop states err).
Proof.
  intros Hs. revert err. induction Hs as [|s states Hs Hss IH]; intros err; simpl; [by apply quiet_ret|].
  eapply quiet_bind; [apply Hs|]. auto.
Qed.

(** A group is a quiet modifier. *)
Lemma quiet_Group (mods : list (Modifier Wt)) mm :
  Forall quiet_mod mods -> quiet (Group_ModStateForMsg mods mm) (if_ok quiet_ms).
Proof.
  intros Hm. eapply quiet_bind; [by apply quiet_group_states|].
  intros [states|e] Hs; apply quiet_ret; [|done]. split_and!; intros; simpl.
  - by apply quiet_group_RewriteSender.
  - by apply quiet_group_RewriteRcpts.
  - by apply quiet_group_RewriteBody.
  - by apply quiet_group_Close.
Qed.
End QuietModifiers.
