(* ===== verification/PipelineFacts.v ===== *)
(** * PipelineFacts: what the message pipeline does to its targets

    The targets log the calls made on them, tagged with their identity; checks,
    modifiers, tables and the resolver are quiet.  A message is followed from
    Start to Commit or Abort, as an invariant between the state of the pipeline
    and the log. *)
From S2P Require Import Prelude GoStr ExtErrors Address Checks Module Tables Modify Dmarc CheckRunner Pipeline Quiet.
From Stdlib Require Import Ascii.

Local Open Scope nat_scope.

(** ** Tagged call logs *)

Section Tagged.
Context `{Textproto} {W : Type}.
Abbreviation trace := (list (nat * call)).
Abbreviation Wt := (W * trace)%type.

Definition tag_call {A} (i : nat) (m : Prog W A) (ev : A -> call) : Prog Wt A := fun '(w, tr) =>
  match m w with
  | (w', Done a) => ((w', tr ++ [(i, ev a)]), Done a)
  | (w', Panicked why) => ((w', tr), Panicked why)
  end.

Definition tag_delivery (i : nat) (d : Delivery W) : Delivery Wt :=
  mkDelivery (fun r => tag_call i (dl_AddRcpt d r) (CAddRcpt r))
    (fun h b => tag_call i (dl_Body d h b) CBody)
    (match dl_BodyNonAtomic d with
     | Some f => Some (fun h b => tag_call i (f h b) CBodyNonAtomic)
     | None => None
     end)
    (tag_call i (dl_Abort d) CAbort) (tag_call i (dl_Commit d) CCommit).

Definition tag_target (i : nat) (t : DeliveryTarget W) : DeliveryTarget Wt :=
  mkTarget (fun mm from =>
    r ← tag_call i (tgt_Start t mm from) (fun r => CStart mm from (start_err r));
    mret (match r with Ok d => Ok (tag_delivery i d) | Err e => Err e end)).

Lemma tag_call_Done {A} i (m : Prog W A) ev wt wt' a :
  tag_call i m ev wt = (wt', Done a) -> wt'.2 = wt.2 ++ [(i, ev a)].
Proof. destruct wt as [w tr]. unfold tag_call. destruct (m w) as [w' [b|why]]; naive_solver. Qed.

(** The calls on one target. *)
Definition events (i : nat) (tr : trace) : list call :=
  omap (fun p => if decide (p.1 = i) then Some p.2 else None) tr.

Lemma events_app i tr tr' : events i (tr ++ tr') = events i tr ++ events i tr'.
Proof. apply omap_app. Qed.
Lemma events_cons i j c tr : events i ((j, c) :: tr) = (if decide (j = i) then [c] else []) ++ events i tr.
Proof. unfold events. simpl. by case_decide. Qed.
Lemma events_here i c : events i [(i, c)] = [c].
Proof. unfold events. simpl. by rewrite decide_True. Qed.
Lemma events_other i j c : j <> i -> events i [(j, c)] = [].
Proof. intros Hj. unfold events. simpl. by rewrite decide_False. Qed.

(** ** The calls of an open delivery *)

Definition failed_start (c : call) : Prop := exists mm from e, c = CStart mm from (Some e).
Definition is_add (c : call) : Prop := exists r e, c = CAddRcpt r e.
Definition accepted (c : call) : bool := match c with CAddRcpt _ None => true | _ => false end.

(** Failed starts, the start, and recipients of which [n] were accepted. *)
Definition opened (evs : list call) (n : nat) : Prop :=
  exists starts mm from adds, evs = starts ++ CStart mm from None :: adds /\
    Forall failed_start starts /\ Forall is_add adds /\ length (List.filter accepted adds) = n.

Lemma opened_start evs mm from : Forall failed_start evs -> opened (evs ++ [CStart mm from None]) 0.
Proof. intros Hs. exists evs, mm, from, []. auto. Qed.

Lemma opened_add evs n r e :
  opened evs n -> opened (evs ++ [CAddRcpt r e]) (n + if e then 0 else 1).
Proof.
  intros (starts & mm & from & adds & -> & Hs & Ha & <-).
  exists starts, mm, from, (adds ++ [CAddRcpt r e]). split_and!; [by rewrite <- app_assoc|done| |].
  - apply Forall_app. split; [done|]. constructor; [by exists r, e|constructor].
  - rewrite List.filter_app, length_app. by destruct e.
Qed.
End Tagged.

(** ** Good pipelines *)

Section Good.
Context `{Textproto} `{UnicodeTables} `{TextLib} `{DmarcLib} {W : Type}.
Abbreviation trace := (list (nat * call)).
Abbreviation Wt := (W * trace)%type.
Abbreviation dd_t := (msgpipelineDelivery (W := Wt)).

Definition tagged (t : target (W := Wt)) : Prop :=
  exists t0 : DeliveryTarget W, tg_target t = tag_target (tg_id t) t0.
Definition good_rcptBlock (b : rcptBlock (W := Wt)) : Prop :=
  Forall quiet_check (rb_checks b) /\ Forall quiet_mod (rb_modifiers b) /\ Forall tagged (rb_targets b).
Definition good_sourceBlock (b : sourceBlock (W := Wt)) : Prop :=
  Forall quiet_check (sb_checks b) /\ Forall quiet_mod (sb_modifiers b) /\
  Forall (fun p => quiet_table p.1 /\ good_rcptBlock p.2) (sb_rcptIn b) /\
  map_Forall (fun _ => good_rcptBlock) (sb_perRcpt b) /\
  (forall r, sb_defaultRcpt b = Some r -> good_rcptBlock r).
Definition good_pipeline (d : MsgPipeline (W := Wt)) : Prop :=
  Forall quiet_check (mp_globalChecks d) /\ Forall quiet_mod (mp_globalModifiers d) /\
  Forall (fun p => quiet_table p.1 /\ good_sourceBlock p.2) (mp_sourceIn d) /\
  map_Forall (fun _ => good_sourceBlock) (mp_perSource d) /\ good_sourceBlock (mp_defaultSource d).

Definition good_dd (dd : dd_t) : Prop :=
  good_cr (dd_checkRunner dd) /\ good_sourceBlock (dd_sourceBlock dd) /\
  (forall s, dd_globalModifiersState dd = Some s -> quiet_ms s) /\
  (forall s, dd_sourceModifiersState dd = Some s -> quiet_ms s) /\
  map_Forall (fun _ p => good_rcptBlock p.1 /\ quiet_ms p.2) (dd_rcptModifiersState dd).
(** [dd] changed without a call on a target. *)
Definition same (dd dd' : dd_t) : Prop := good_dd dd' /\ dd_deliveries dd' = dd_deliveries dd.

Lemma good_sourceBlock_zero : good_sourceBlock sourceBlock_zero.
Proof. split_and!; simpl; auto. apply map_Forall_empty. naive_solver. Qed.

(** The log agrees with the deliveries of the message: a target without one was
    never started, and one with a delivery accepted as many recipients as the
    delivery has recorded. *)
Definition Inv (dd : dd_t) (tr : trace) : Prop :=
  good_dd dd /\
  forall i, match dd_deliveries dd !! i with
            | None => Forall failed_start (events i tr)
            | Some del => (exists d0 : Delivery W, del_Delivery del = tag_delivery i d0) /\
                          opened (events i tr) (length (del_recipients del))
            end.

Lemma Inv_same dd dd' tr : Inv dd tr -> same dd dd' -> Inv dd' tr.
Proof. intros [_ Hi] [Hg E]. split; [done|]. by rewrite E. Qed.

Lemma Inv_new d mm tr : good_pipeline d -> tr = [] -> Inv (new_dd d mm) tr.
Proof.
  intros Hd ->. split; [|intros i; simpl; constructor].
  split_and!; simpl; try naive_solver; [apply map_Forall_empty|apply good_sourceBlock_zero|apply map_Forall_empty].
Qed.
End Good.

(** ** The steps of the pipeline *)

Section Steps.
Context `{Textproto} `{UnicodeTables} `{TextLib} `{DmarcLib} {W : Type}.
Abbreviation trace := (list (nat * call)).
Abbreviation Wt := (W * trace)%type.
Context (sched : nat -> schedule) (LookupTXT : string -> Prog Wt (list string * error))
  (authres_Format : string -> list authres -> string)
  (GenerateReceived : MsgMetadata -> string -> string -> Prog Wt (Result gerror string)) (rand100 : Z).
Context (d : MsgPipeline (W := Wt)).
Hypothesis quiet_resolver : forall name, quiet_ (LookupTXT name).
Hypothesis quiet_received : forall mm host from, quiet_ (GenerateReceived mm host from).
Hypothesis Hd : good_pipeline d.

Abbreviation dd_t := (msgpipelineDelivery (W := Wt)).

Lemma quiet_run_checks (m : Prog Wt (checkRunner (W := Wt) * error)) (dd : dd_t) :
  good_dd dd -> quiet m (fun p => good_cr p.1) -> quiet (run_checks m dd) (fun p => same dd p.1).
Proof.
  intros (Hc & Hg) Hm. eapply quiet_bind; [exact Hm|]. intros [cr err] Hcr. apply quiet_ret.
  split; [|done]. split; [exact Hcr|exact Hg].
Qed.

Lemma quiet_sender_dd checks from (dd : dd_t) :
  good_dd dd -> Forall quiet_check checks ->
  quiet (checkConnSender_dd sched checks from dd) (fun p => same dd p.1).
Proof. intros Hg Hc. apply quiet_run_checks; [done|]. apply quiet_checkConnSender; [apply Hg|done]. Qed.
Lemma quiet_rcpt_dd checks to (dd : dd_t) :
  good_dd dd -> Forall quiet_check checks ->
  quiet (checkRcpt_dd sched checks to dd) (fun p => same dd p.1).
Proof. intros Hg Hc. apply quiet_run_checks; [done|]. apply quiet_checkRcpt; [apply Hg|done]. Qed.
Lemma quiet_body_dd checks h b (dd : dd_t) :
  good_dd dd -> Forall quiet_check checks ->
  quiet (checkBody_dd sched LookupTXT checks h b dd) (fun p => same dd p.1).
Proof. intros Hg Hc. apply quiet_run_checks; [done|]. apply quiet_checkBody; [done|apply Hg|done]. Qed.

Lemma quiet_lookup_in {B} (P : B -> Prop) (ins : list (Table Wt * B)) key :
  Forall (fun p => quiet_table p.1 /\ P p.2) ins ->
  quiet (W := W) (L := trace) (lookup_in ins key) (fun o => forall b, o = Some b -> P b).
Proof.
  induction 1 as [|[t b] ins [Ht Hb] Hins IH]; simpl; [by apply quiet_ret|].
  eapply quiet_bind; [apply Ht|]. intros [[v|]|e] _; [|exact IH..].
  apply quiet_ret. naive_solver.
Qed.

Lemma quiet_srcBlockForAddr from : quiet (srcBlockForAddr d from) (if_ok good_sourceBlock).
Proof.
  destruct Hd as (_ & _ & Hin & Hper & Hdef). unfold srcBlockForAddr.
  destruct (if decide _ then _ else _) as [clean [e|]]; [by apply quiet_ret|].
  eapply quiet_bind; [by apply quiet_lookup_in|]. intros [b|] Hb; [by apply quiet_ret; apply Hb|].
  assert (Hdefault : forall k, good_sourceBlock (default (mp_defaultSource d) (mp_perSource d !! k))).
  { intros k. destruct (mp_perSource d !! k) eqn:E; simpl; [by eapply Hper|done]. }
  repeat (case_match; try (apply quiet_ret; simpl; auto)). by eapply Hper.
Qed.

Lemma quiet_rcptBlockForAddr src to :
  good_sourceBlock src ->
  quiet (W := W) (L := trace) (rcptBlockForAddr src to) (if_ok (fun o => forall b, o = Some b -> good_rcptBlock b)).
Proof.
  intros (_ & _ & Hin & Hper & Hdef). unfold rcptBlockForAddr.
  destruct (ForLookup to) as [clean [e|]]; [by apply quiet_ret|].
  eapply quiet_bind; [by apply quiet_lookup_in|]. intros [b|] Hb; [apply quiet_ret; simpl; naive_solver|].
  repeat (case_match; try (apply quiet_ret; simpl; intros; simplify_eq; auto)); by eapply Hper.
Qed.

Lemma quiet_close (s : ModifierState Wt) : quiet_ms s -> quiet_ (ms_Close s ;; mret tt).
Proof. intros (_ & _ & _ & Hc). eapply quiet_bind; [exact Hc|]. intros. by apply quiet_ret. Qed.

Lemma quiet_dd_close (dd : dd_t) : good_dd dd -> quiet_ (dd_close dd).
Proof.
  intros (Hcr & _ & Hg & Hs & Hr). unfold dd_close.
  eapply quiet_bind; [by apply quiet_cr_close|]. intros [] _.
  eapply (quiet_bind _ (fun _ => True)).
  { destruct (dd_globalModifiersState dd); [apply quiet_close; auto|by apply quiet_ret]. }
  intros [] _. eapply (quiet_bind _ (fun _ => True)).
  { destruct (dd_sourceModifiersState dd); [apply quiet_close; auto|by apply quiet_ret]. }
  intros [] _. apply quiet_for_each, Forall_forall.
  intros s ([i p] & -> & Hi%elem_of_map_to_list)%list_elem_of_fmap. apply quiet_close. by eapply Hr.
Qed.

Lemma quiet_nil_deref {A} (P : A -> Prop) (o : option A) :
  (forall a, o = Some a -> P a) -> quiet (W := W) (L := trace) (nil_deref o) P.
Proof. intros HP. destruct o; [apply quiet_ret; auto|apply quiet_panic]. Qed.

(** Start makes no call on a target. *)
Lemma quiet_start from (dd : dd_t) :
  good_dd dd -> quiet (dd_start sched d from dd) (fun p => same dd p.1).
Proof.
  intros Hg. unfold dd_start.
  eapply quiet_bind; [apply quiet_sender_dd; [done|apply Hd]|].
  intros [dd1 [e|]] [Hg1 E1]; simpl in *; [by apply quiet_ret|].
  eapply (quiet_bind _ (fun p => same dd p.1)).
  { unfold initRunGlobalModifiers. eapply quiet_bind; [apply quiet_Group, Hd|].
    intros [s|e] Hs; simpl in Hs; [|by apply quiet_ret].
    eapply quiet_bind; [apply Hs|]. intros [from'|e] _.
    - apply quiet_ret. split; [|done]. destruct Hg1 as (? & ? & ? & ? & ?). split_and!; simpl; auto. naive_solver.
    - eapply quiet_bind; [apply Hs|]. intros. by apply quiet_ret. }
  intros [dd2 [from2|e]] [Hg2 E2]; simpl in *; [|by apply quiet_ret].
  eapply quiet_bind; [apply quiet_srcBlockForAddr|]. intros [block|e] Hb; simpl in Hb; [|by apply quiet_ret].
  destruct (sb_rejectErr block); [by apply quiet_ret|].
  assert (Hg3 : good_dd (set_sourceBlock block dd2)).
  { destruct Hg2 as (? & ? & ? & ? & ?). by split_and!. }
  eapply quiet_bind; [apply quiet_sender_dd; [done|apply Hb]|].
  intros [dd4 [e|]] [Hg4 E4]; simpl in *; [apply quiet_ret; split; [done|simpl; congruence]|].
  unfold init_source. eapply quiet_bind; [apply quiet_Group, Hb|].
  intros [s|e] Hs; simpl in Hs; [|apply quiet_ret; split; [done|simpl; congruence]].
  eapply quiet_bind; [apply Hs|]. intros [from'|e] _; apply quiet_ret; (split; [|simpl; congruence]); [|done].
  destruct Hg4 as (? & ? & ? & ? & ?). split_and!; simpl; auto. naive_solver.
Qed.

(** *** AddRcpt *)

Definition keeps {A} (m : Prog Wt (dd_t * A)) (dd : dd_t) : Prop :=
  spec (fun wt : Wt => Inv dd wt.2) m (fun p (wt : Wt) => Inv p.1 wt.2).

Lemma keeps_quiet {A} (m : Prog Wt (dd_t * A)) dd :
  (good_dd dd -> quiet m (fun p => same dd p.1)) -> keeps m dd.
Proof.
  intros Hm wt wt' [dd' a] HI E.
  destruct (quiet_spec _ _ (Inv dd) (Hm (proj1 HI)) _ _ _ HI E) as [HI' Hs]. by eapply Inv_same.
Qed.

Lemma keeps_ret {A} dd (a : A) : keeps (mret (dd, a)) dd.
Proof. by apply spec_ret. Qed.

Lemma keeps_bind {A B} (m : Prog Wt (dd_t * A)) (f : dd_t * A -> Prog Wt (dd_t * B)) dd :
  keeps m dd -> (forall dd' a, keeps (f (dd', a)) dd') -> keeps (m ≫= f) dd.
Proof. intros Hm Hf. eapply spec_bind; [exact Hm|]. intros [dd' a]. apply Hf. Qed.

(** A quiet program in between. *)
Lemma keeps_then {A B} (m : Prog Wt A) (Q : A -> Prop) (f : A -> Prog Wt (dd_t * B)) dd :
  (good_dd dd -> quiet m Q) -> (forall a, Q a -> keeps (f a) dd) -> keeps (m ≫= f) dd.
Proof.
  intros Hm Hf wt wt' [dd' b] HI (wt1 & a & E1 & E2)%prog_bind_Done.
  destruct (quiet_spec _ _ (Inv dd) (Hm (proj1 HI)) _ _ _ HI E1) as [HI' HQ].
  exact (Hf a HQ _ _ _ HI' E2).
Qed.

Lemma keeps_until_err {A} (f : A -> dd_t -> Prog Wt (dd_t * error)) l dd :
  Forall (fun a => forall dd, keeps (f a dd) dd) l -> keeps (until_err f l dd) dd.
Proof.
  intros Hf. revert dd. induction Hf as [|a l Ha Hl IH]; intros dd; simpl; [apply keeps_ret|].
  apply keeps_bind; [apply Ha|]. intros dd' [e|]; [apply keeps_ret|apply IH].
Qed.

Lemma Inv_other dd tr i c del (dd' : dd_t) :
  Inv dd tr -> good_dd dd' -> dd_deliveries dd' = <[i := del]> (dd_deliveries dd) ->
  (exists d0 : Delivery W, del_Delivery del = tag_delivery i d0) ->
  opened (events i (tr ++ [(i, c)])) (length (del_recipients del)) ->
  Inv dd' (tr ++ [(i, c)]).
Proof.
  intros [_ HI] Hg E Hdel Ho. split; [done|]. intros j. rewrite E.
  destruct (decide (i = j)) as [<-|Hj]; [by rewrite lookup_insert_eq|].
  rewrite lookup_insert_ne, events_app, events_other, app_nil_r by done. apply HI.
Qed.

Lemma keeps_getDelivery tgt dd :
  tagged tgt ->
  spec (fun wt : Wt => Inv dd wt.2) (getDelivery tgt dd)
    (fun p (wt : Wt) => Inv p.1 wt.2 /\ forall del, p.2 = Ok del -> dd_deliveries p.1 !! tg_id tgt = Some del).
Proof.
  intros [t0 Et] wt wt' [dd' r] HI E. unfold getDelivery in E.
  destruct (dd_deliveries dd !! tg_id tgt) as [del|] eqn:Ed.
  { cbv [mret prog_ret] in E. simplify_eq. naive_solver. }
  rewrite Et in E. simpl in E. apply prog_bind_Done in E as (wt1 & r1 & E1 & E).
  apply prog_bind_Done in E1 as (wt2 & r2 & E2 & E1). apply tag_call_Done in E2.
  assert (Hev : Forall failed_start (events (tg_id tgt) wt.2)).
  { destruct HI as [_ HI]. specialize (HI (tg_id tgt)). by rewrite Ed in HI. }
  destruct r2 as [obj|e]; cbv [mret prog_ret] in E1; simplify_eq/=; cbv [mret prog_ret] in E; simplify_eq/=.
  - rewrite E2. split; [|intros; simplify_eq; by rewrite lookup_insert_eq].
    eapply Inv_other; [exact HI|apply HI|done|by eexists|].
    rewrite events_app, events_here. by apply opened_start.
  - rewrite E2. split; [|done]. destruct HI as [Hg HI]. split; [done|]. intros j. specialize (HI j).
    rewrite events_app. destruct (decide (tg_id tgt = j)) as [<-|Hj].
    + rewrite Ed, events_here. apply Forall_app. split; [done|]. constructor; [by eexists _, _, _|constructor].
    + by rewrite events_other, app_nil_r.
Qed.

Lemma keeps_add_to_target originalTo to tgt dd :
  tagged tgt -> keeps (add_to_target originalTo to tgt dd) dd.
Proof.
  intros Ht wt wt' [dd' err] HI E.
  apply prog_bind_Done in E as (wt1 & [dd1 [del|e]] & E1 & E);
    apply (keeps_getDelivery _ _ Ht _ _ _ HI) in E1 as [HI1 Hdel]; simpl in *;
    [|cbv [mret prog_ret] in E; by simplify_eq].
  specialize (Hdel _ eq_refl). pose proof (proj2 HI1 (tg_id tgt)) as Hi. rewrite Hdel in Hi.
  destruct Hi as [[d0 Ed0] Ho]. rewrite Ed0 in E.
  apply prog_bind_Done in E as (wt2 & res & E2 & E). apply tag_call_Done in E2.
  apply (opened_add _ _ to res) in Ho.
  destruct res as [e|]; cbv [mret prog_ret] in E; simplify_eq/=; rewrite E2.
  - eapply Inv_other; [exact HI1|apply HI1|symmetry; by apply insert_id|by eexists|].
    by rewrite events_app, events_here, <- (Nat.add_0_r (length _)).
  - eapply Inv_other; [exact HI1|apply HI1|reflexivity|by eexists|].
    rewrite events_app, events_here. simpl. by rewrite length_app.
Qed.

Lemma good_msgMeta mm (dd : dd_t) : good_dd dd -> good_dd (set_msgMeta mm dd).
Proof. intros (Hc & Hg). split; [exact Hc|exact Hg]. Qed.

Lemma keeps_add_final originalTo block to dd :
  good_rcptBlock block -> keeps (add_final originalTo block to dd) dd.
Proof.
  intros (_ & _ & Ht) wt wt' p HI E. unfold add_final in E.
  eapply (keeps_until_err (add_to_target originalTo to)); [|  |exact E].
  - eapply Forall_impl; [exact Ht|]. intros tgt Htg dd0. by apply keeps_add_to_target.
  - simpl. case_decide; [done|]. eapply Inv_same; [exact HI|]. split; [apply good_msgMeta, HI|done].
Qed.

Lemma quiet_getRcptModifiers block (dd : dd_t) :
  good_dd dd -> good_rcptBlock block ->
  quiet (getRcptModifiers block dd) (fun p => same dd p.1 /\ if_ok quiet_ms p.2).
Proof.
  intros Hg Hb. pose proof Hg as (Hc & Hsb & Hgl & Hso & Hr). unfold getRcptModifiers.
  destruct (dd_rcptModifiersState dd !! rb_id block) as [[b s]|] eqn:E.
  { apply quiet_ret. split; [done|]. by apply (Hr _ _ E). }
  eapply quiet_bind; [apply quiet_Group, Hb|]. intros [s|e] Hs; simpl in Hs; [|by apply quiet_ret].
  eapply quiet_bind; [apply Hs|]. intros _ _. apply quiet_ret. split; [|done]. split; [|done].
  split_and!; simpl; auto. by apply map_Forall_insert_2.
Qed.

Lemma keeps_add_routed originalTo to dd : keeps (add_routed sched originalTo to dd) dd.
Proof.
  unfold add_routed. eapply keeps_then; [intros Hg; apply quiet_rcptBlockForAddr, Hg|].
  intros [[block|]|e] Hb; simpl in Hb; [|intros wt wt' p _ E; by cbv [panic] in E|apply keeps_ret].
  specialize (Hb _ eq_refl). destruct (rb_rejectErr block); [apply keeps_ret|].
  apply keeps_bind; [apply keeps_quiet; intros Hg; by apply quiet_rcpt_dd; [|apply Hb]|].
  intros dd1 [e|]; [apply keeps_ret|].
  intros wt wt' p HI E. apply prog_bind_Done in E as (wt1 & [dd2 r] & E1 & E).
  destruct (quiet_spec _ _ (Inv dd1) (quiet_getRcptModifiers _ _ (proj1 HI) Hb) _ _ _ HI E1) as [HI1 [Hsame Hr]].
  assert (HI2 : Inv dd2 wt1.2) by (by eapply Inv_same).
  revert E. apply (fun k : keeps _ dd2 => k wt1 wt' p HI2). simpl in Hr.
  destruct r as [s|e]; [|apply keeps_ret].
  eapply keeps_then; [intros _; apply Hr|]. intros [newTo|e] _.
  - apply keeps_until_err, Forall_forall. intros to' _ dd3. by apply keeps_add_final.
  - eapply keeps_then; [intros _; apply Hr|]. intros _ _. apply keeps_ret.
Qed.

Lemma keeps_AddRcpt dd to : keeps (pl_AddRcpt sched d dd to) dd.
Proof.
  unfold pl_AddRcpt.
  apply keeps_bind; [apply keeps_quiet; intros Hg; by apply quiet_rcpt_dd; [|apply Hd]|].
  intros dd1 [e|]; [apply keeps_ret|].
  apply keeps_bind; [apply keeps_quiet; intros Hg; by apply quiet_rcpt_dd; [|apply Hg]|].
  intros dd2 [e|]; [apply keeps_ret|].
  eapply keeps_then; [intros Hg; apply (quiet_nil_deref quiet_ms), Hg|]. intros g Hg.
  eapply keeps_then; [intros _; apply Hg|]. intros [resultTo|e] _; [|apply keeps_ret].
  eapply keeps_then; [intros Hg2; apply (quiet_nil_deref quiet_ms), Hg2|]. intros s Hs.
  eapply keeps_then; [intros _; by apply quiet_rewrite_results|].
  intros [l|e] _; [|apply keeps_ret].
  apply keeps_until_err, Forall_forall. intros to' _ dd3. apply keeps_add_routed.
Qed.

(** *** Body, Commit and Abort *)

Abbreviation del_t := (delivery (W := Wt)).
Definition keyed (l : list (nat * del_t)) : Prop :=
  NoDup l.*1 /\ Forall (fun p => exists d0 : Delivery W, del_Delivery p.2 = tag_delivery p.1 d0) l.

(** The new calls of a loop that stops at the first error [err]. *)
Definition logged (ev : error -> call) (l : list (nat * del_t)) (err : error) (new : trace) : Prop :=
  match err with
  | None => new = map (fun p => (p.1, ev None)) l
  | Some e => exists l1 p l2, l = l1 ++ p :: l2 /\
                new = map (fun p => (p.1, ev None)) l1 ++ [(p.1, ev (Some e))]
  end.

Fixpoint first_error (f : del_t -> Prog Wt error) (ds : list del_t) : Prog Wt error :=
  match ds with
  | [] => mret None
  | del :: ds => err ← f del; match err with Some _ => mret err | None => first_error f ds end
  end.

Lemma send_bodies_first_error ds h b wt :
  send_bodies ds h b wt = first_error (fun del => dl_Body (del_Delivery del) h b) ds wt.
Proof.
  revert wt. induction ds as [|del ds IH]; intros wt; simpl; [done|]. unfold mbind, prog_bind.
  destruct (dl_Body (del_Delivery del) h b wt) as [wt1 [[e|]|why]]; auto.
Qed.
Lemma commit_all_first_error ds wt :
  commit_all ds wt = first_error (fun del => dl_Commit (del_Delivery del)) ds wt.
Proof.
  revert wt. induction ds as [|del ds IH]; intros wt; simpl; [done|]. unfold mbind, prog_bind.
  destruct (dl_Commit (del_Delivery del) wt) as [wt1 [[e|]|why]]; auto.
Qed.

Lemma first_error_logged f ev l wt wt' err :
  Forall (fun p => forall wt wt' r, f p.2 wt = (wt', Done r) -> wt'.2 = wt.2 ++ [(p.1, ev r)]) l ->
  first_error f (map snd l) wt = (wt', Done err) ->
  exists new, wt'.2 = wt.2 ++ new /\ logged ev l err new.
Proof.
  intros Hf. revert wt. induction Hf as [|p l Hp Hl IH]; intros wt E; simpl in E.
  { cbv [mret prog_ret] in E. simplify_eq/=. exists []. by rewrite app_nil_r. }
  apply prog_bind_Done in E as (wt1 & [e|] & E1 & E); apply Hp in E1.
  - cbv [mret prog_ret] in E. simplify_eq/=. rewrite E1. eexists. split; [done|]. by exists [], p, l.
  - apply IH in E as (new & -> & Hn). rewrite E1, <- app_assoc. eexists. split; [done|].
    destruct err as [e|]; simpl in *; [|by rewrite Hn].
    destruct Hn as (l1 & q & l2 & -> & ->). by exists (p :: l1), q, l2.
Qed.

Lemma events_const (c : call) (l : list (nat * del_t)) i :
  NoDup l.*1 -> events i (map (fun p => (p.1, c)) l) = if decide (i ∈ l.*1) then [c] else [].
Proof.
  induction l as [|p l IH]; intros Hn; [done|]. rewrite fmap_cons in Hn. apply NoDup_cons in Hn as [Hp Hn].
  cbn [map]. rewrite events_cons, (IH Hn). change ((p :: l).*1) with (p.1 :: l.*1).
  destruct (decide (p.1 = i)) as [<-|Hi].
  - rewrite decide_False by done. by rewrite decide_True by left.
  - simpl. apply decide_ext. rewrite elem_of_cons. naive_solver.
Qed.

(** What one delivery sees of such a loop. *)
Lemma logged_events ev l err new i :
  NoDup l.*1 -> logged ev l err new ->
  if decide (i ∈ l.*1) then
    match err with
    | None => events i new = [ev None]
    | Some e => events i new ∈ [[]; [ev None]; [ev (Some e)]]
    end
  else events i new = [].
Proof.
  intros Hn Hl. destruct err as [e|]; simpl in Hl.
  - destruct Hl as (l1 & p & l2 & -> & ->). rewrite fmap_app, fmap_cons in *.
    apply NoDup_app in Hn as (Hn1 & Hd1 & [Hp Hn2]%NoDup_cons).
    rewrite events_app, events_const by done. destruct (decide (p.1 = i)) as [<-|Hi].
    + rewrite events_here, (decide_False (P := p.1 ∈ l1.*1)) by (intros ?; eapply Hd1; [done|left]).
      rewrite decide_True by (apply elem_of_app; right; left). simpl. set_solver.
    + rewrite events_other, app_nil_r by done.
      destruct (decide (i ∈ l1.*1)); [rewrite decide_True by (by apply elem_of_app; left); set_solver|].
      case_decide; set_solver.
  - subst new. rewrite events_const by done. by case_decide.
Qed.

Lemma abort_all_logged l wt wt' err0 err :
  keyed l -> abort_all (map snd l) err0 wt = (wt', Done err) ->
  exists new, wt'.2 = wt.2 ++ new /\
    forall i, if decide (i ∈ l.*1) then exists r, events i new = [CAbort r] else events i new = [].
Proof.
  intros [Hn Hk]. revert wt err0. induction l as [|p l IH]; intros wt err0 E; simpl in E.
  { cbv [mret prog_ret] in E. simplify_eq/=. exists []. by rewrite app_nil_r. }
  rewrite fmap_cons in Hn. apply NoDup_cons in Hn as [Hp Hn].
  apply Forall_cons in Hk as [[d0 Ep] Hk]. rewrite Ep in E.
  apply prog_bind_Done in E as (wt1 & r & E1 & E). apply tag_call_Done in E1.
  apply (IH Hn Hk) in E as (new & -> & Hev). rewrite E1, <- app_assoc. eexists. split; [done|].
  intros i. specialize (Hev i). rewrite events_app, fmap_cons. destruct (decide (p.1 = i)) as [<-|Hi].
  - rewrite decide_False in Hev by done. rewrite decide_True by left. rewrite events_here, Hev. by exists r.
  - rewrite events_other by done. simpl.
    destruct (decide (i ∈ l.*1)).
    + by rewrite decide_True by (by right).
    + rewrite decide_False; [done|]. rewrite elem_of_cons. naive_solver.
Qed.

Lemma Inv_keyed dd tr : Inv dd tr -> keyed (map_to_list (dd_deliveries dd)).
Proof.
  intros [_ HI]. split; [apply NoDup_fst_map_to_list|]. apply Forall_forall. intros [i del] Hi.
  apply elem_of_map_to_list in Hi. specialize (HI i). rewrite Hi in HI. apply HI.
Qed.

Lemma elem_of_keys {A} (m : gmap nat A) i : i ∈ (map_to_list m).*1 <-> is_Some (m !! i).
Proof.
  rewrite list_elem_of_fmap. split.
  - intros ([j a] & -> & Hj%elem_of_map_to_list). by exists a.
  - intros [a Ha]. exists (i, a). by rewrite elem_of_map_to_list.
Qed.

(** A Body that leaves [dd] as it is, but for its log of bodies. *)
Definition bodies (dd : dd_t) (m : Prog Wt (dd_t * error)) : Prop :=
  forall wt wt' p, m wt = (wt', Done p) ->
    same dd p.1 /\ exists new, wt'.2 = wt.2 ++ new /\
      (new = [] /\ p.2 <> None \/ logged CBody (map_to_list (dd_deliveries dd)) p.2 new).

Lemma bodies_then {A} dd (m : Prog Wt A) (Q : A -> Prop) (f : A -> Prog Wt (dd_t * error)) :
  quiet m Q -> (forall a, Q a -> bodies dd (f a)) -> bodies dd (m ≫= f).
Proof.
  intros Hm Hf [w tr] wt' p ([w1 tr1] & a & E1 & E2)%prog_bind_Done.
  destruct (Hm _ _ _ _ _ E1) as [-> HQ]. exact (Hf a (HQ a eq_refl) _ _ _ E2).
Qed.

Lemma bodies_err dd dd' e : same dd dd' -> bodies dd (mret (dd', Some e)).
Proof.
  intros Hs wt wt' p E. cbv [mret prog_ret] in E. simplify_eq. split; [done|].
  exists []. rewrite app_nil_r. split; [done|]. by left.
Qed.

Lemma bodies_send dd dd' h b :
  same dd dd' -> keyed (map_to_list (dd_deliveries dd)) ->
  bodies dd (err ← send_bodies (dels dd') h b; mret (dd', err)).
Proof.
  intros Hs [_ Hk] wt wt' p (wt1 & err & E1 & E2)%prog_bind_Done.
  cbv [mret prog_ret] in E2. simplify_eq/=. split; [done|].
  unfold dels in E1. rewrite (proj2 Hs), send_bodies_first_error in E1.
  apply (first_error_logged _ CBody) in E1 as (new & -> & Hl); [eauto|].
  eapply Forall_impl; [exact Hk|]. intros q [d0 Eq] wt2 wt3 r E. rewrite Eq in E. by apply tag_call_Done in E.
Qed.

Lemma quiet_all_modifiers (dd : dd_t) : good_dd dd -> quiet (all_modifiers dd) (Forall quiet_ms).
Proof.
  intros (_ & _ & Hg & Hs & Hr). unfold all_modifiers.
  eapply quiet_bind; [apply (quiet_nil_deref quiet_ms), Hg|]. intros g Hg'.
  eapply quiet_bind; [apply (quiet_nil_deref quiet_ms), Hs|]. intros s Hs'.
  apply quiet_ret. constructor; [done|]. constructor; [done|]. apply Forall_forall.
  intros x (p & -> & ([i q] & -> & Hi%elem_of_map_to_list)%list_elem_of_fmap)%list_elem_of_fmap.
  by apply (Hr _ _ Hi).
Qed.

Lemma quiet_until_body l h b (dd0 dd : dd_t) :
  same dd0 dd -> Forall (Forall quiet_check) l ->
  quiet (until_err (fun checks => checkBody_dd sched LookupTXT checks h b) l dd) (fun p => same dd0 p.1).
Proof.
  intros Hs Hl. revert dd Hs. induction Hl as [|checks l Hc Hl IH]; intros dd Hs; simpl; [by apply quiet_ret|].
  eapply quiet_bind; [apply quiet_body_dd; [apply Hs|done]|]. intros [dd2 err] [Hg2 E2]; simpl in *.
  assert (same dd0 dd2) by (split; [done|]; rewrite E2; apply Hs).
  destruct err; [by apply quiet_ret|by apply IH].
Qed.

Lemma quiet_body_checks (dd : dd_t) : good_dd dd -> Forall (Forall quiet_check) (body_checks d dd).
Proof.
  intros (_ & Hsb & _ & _ & Hr). unfold body_checks. constructor; [apply Hd|]. constructor; [apply Hsb|].
  apply Forall_forall. intros x (p & -> & ([i q] & -> & Hi%elem_of_map_to_list)%list_elem_of_fmap)%list_elem_of_fmap.
  by apply (Hr _ _ Hi).
Qed.

Lemma quiet_applyResults host cr h :
  good_cr cr -> quiet (W := W) (L := trace) (applyResults authres_Format rand100 host cr h) (fun p => good_cr p.1.1).
Proof.
  intros Hcr. unfold applyResults. destruct (negb _); [by apply quiet_ret|].
  destruct (cr_dmarc cr) as [data|]; [|apply quiet_panic].
  destruct (Verifier_Apply rand100 data _) as [res policy]. case_bool_decide; by apply quiet_ret.
Qed.

Abbreviation pl_Body := (pl_Body sched LookupTXT authres_Format GenerateReceived rand100 d).

Lemma Body_bodies (dd : dd_t) h b :
  good_dd dd -> keyed (map_to_list (dd_deliveries dd)) -> bodies dd (pl_Body dd h b).
Proof.
  intros Hg Hk. unfold Pipeline.pl_Body.
  eapply bodies_then; [by apply quiet_until_body, quiet_body_checks|].
  intros [dd1 [e|]] Hs1; simpl in Hs1; [by apply bodies_err|].
  eapply (bodies_then _ _ (fun _ => True)).
  { destruct (mp_FirstPipeline d); [|by apply quiet_ret].
    eapply quiet_bind; [apply quiet_received|]. intros. by apply quiet_ret. }
  intros [h1|e] _; [|by apply bodies_err].
  eapply bodies_then; [apply quiet_applyResults, Hs1|].
  intros [[cr h2] err] Hcr; simpl in Hcr.
  assert (Hs2 : same dd (set_cr cr dd1)).
  { destruct Hs1 as [(_ & Hg1) E1]. split; [|exact E1]. split; [exact Hcr|exact Hg1]. }
  destruct err as [e|]; [by apply bodies_err|].
  eapply bodies_then; [apply quiet_all_modifiers, Hs2|]. intros states Hst.
  eapply bodies_then; [by apply quiet_group_RewriteBody|]. intros [h3 [e|]] _; [by apply bodies_err|].
  by apply bodies_send.
Qed.

(** *** A whole message *)

Fixpoint add_all (tos : list string) (dd : dd_t) : Prog Wt dd_t :=
  match tos with
  | [] => mret dd
  | to :: tos => '(dd, _) ← pl_AddRcpt sched d dd to; add_all tos dd
  end.

Inductive outcome :=
| Refused (e : gerror)
| Committed (dd : dd_t) (err : error)
| Aborted (dd : dd_t) (e : gerror).

(** A client of the pipeline: recipients that are refused are left out, and the
    message is aborted when its body is refused. *)
Definition transaction (mm : MsgMetadata) (from : string) (tos : list string) (h : header) (b : Buffer)
  : Prog Wt outcome :=
  r ← pl_Start sched d mm from;
  match r with
  | Err e => mret (Refused e)
  | Ok dd =>
    dd ← add_all tos dd;
    '(dd, err) ← pl_Body dd h b;
    match err with
    | Some e => pl_Abort dd ;; mret (Aborted dd e)
    | None => err ← pl_Commit dd; mret (Committed dd err)
    end
  end.

(** The calls of one target in a message that ended with [o]. *)
Definition closed (o : outcome) (i : nat) (evs : list call) : Prop :=
  match o with
  | Refused _ => evs = []
  | Committed dd err =>
    match dd_deliveries dd !! i with
    | None => Forall failed_start evs
    | Some del => exists pre commits, opened pre (length (del_recipients del)) /\
        evs = pre ++ CBody None :: commits /\
        match err with
        | None => commits = [CCommit None]
        | Some e => commits ∈ [[]; [CCommit None]; [CCommit (Some e)]]
        end
    end
  | Aborted dd e =>
    match dd_deliveries dd !! i with
    | None => Forall failed_start evs
    | Some del => exists pre body r, opened pre (length (del_recipients del)) /\
        evs = pre ++ body ++ [CAbort r] /\ body ∈ [[]; [CBody None]; [CBody (Some e)]]
    end
  end.

Lemma Start_Inv mm from wt wt' r :
  wt.2 = [] -> pl_Start sched d mm from wt = (wt', Done r) ->
  match r with Ok dd => Inv dd wt'.2 | Err _ => wt'.2 = [] end.
Proof.
  intros Hw E. apply prog_bind_Done in E as ([w1 tr1] & [dd err] & E1 & E).
  pose proof (Inv_new d mm [] Hd eq_refl) as HI. destruct wt as [w tr]. simpl in Hw. subst tr.
  destruct (quiet_start _ _ (proj1 HI) _ _ _ _ _ E1) as [-> Hs]. specialize (Hs _ eq_refl). simpl in *.
  destruct err as [e|].
  - apply prog_bind_Done in E as ([w2 tr2] & u & E2 & E). cbv [mret prog_ret] in E. simplify_eq/=.
    by destruct (quiet_dd_close _ (proj1 Hs) _ _ _ _ _ E2) as [-> _].
  - cbv [mret prog_ret] in E. simplify_eq/=. by eapply Inv_same.
Qed.

Lemma add_all_Inv tos dd dd' wt wt' :
  Inv dd wt.2 -> add_all tos dd wt = (wt', Done dd') -> Inv dd' wt'.2.
Proof.
  revert dd wt. induction tos as [|to tos IH]; intros dd wt HI E; simpl in E.
  - cbv [mret prog_ret] in E. by simplify_eq.
  - apply prog_bind_Done in E as (wt1 & [dd1 err] & E1 & E).
    eapply IH; [|exact E]. exact (keeps_AddRcpt dd to _ _ _ HI E1).
Qed.

(** Close, then a loop over the deliveries. *)
Lemma after_close {A} (m : Prog Wt A) dd wt wt' a :
  good_dd dd -> (dd_close dd ;; m) wt = (wt', Done a) -> exists wt1, wt1.2 = wt.2 /\ m wt1 = (wt', Done a).
Proof.
  intros Hg ([w1 tr1] & u & E1 & E2)%prog_bind_Done. destruct wt as [w tr].
  destruct (quiet_dd_close _ Hg _ _ _ _ _ E1) as [-> _]. by exists (w1, tr).
Qed.

Lemma Commit_closed dd0 dd wt wt' err i tr1 new :
  Inv dd0 tr1 -> same dd0 dd -> wt.2 = tr1 ++ new -> logged CBody (map_to_list (dd_deliveries dd)) None new ->
  pl_Commit dd wt = (wt', Done err) -> closed (Committed dd err) i (events i wt'.2).
Proof.
  intros HI Hs Ew Hl E. apply (after_close _ _ _ _ _ (proj1 Hs)) in E as (wt1 & Ewt1 & E).
  pose proof (Inv_same _ _ _ HI Hs) as HI'. pose proof (Inv_keyed _ _ HI') as [Hn Hk].
  unfold dels in E. rewrite commit_all_first_error in E.
  apply (first_error_logged _ CCommit) in E as (new' & -> & Hl').
  2:{ eapply Forall_impl; [exact Hk|]. intros q [d0 Eq] wt2 wt3 r E'. rewrite Eq in E'. by apply tag_call_Done in E'. }
  rewrite Ewt1, Ew, !events_app. destruct HI' as [_ HI']. specialize (HI' i).
  pose proof (logged_events _ _ _ _ i Hn Hl) as Hb1. pose proof (logged_events _ _ _ _ i Hn Hl') as Hb2.
  simpl. destruct (dd_deliveries dd !! i) as [del|] eqn:Ei.
  - assert (Hi : i ∈ (map_to_list (dd_deliveries dd)).*1) by (apply elem_of_keys; eauto).
    rewrite decide_True in Hb1, Hb2 by done. rewrite Hb1.
    eexists _, _. split; [apply HI'|]. split; [by rewrite <- app_assoc|exact Hb2].
  - rewrite decide_False in Hb1, Hb2 by (rewrite elem_of_keys, Ei; by intros [? ?]).
    by rewrite Hb1, Hb2, !app_nil_r.
Qed.

Lemma Abort_closed dd0 dd wt wt' e r0 i tr1 new :
  Inv dd0 tr1 -> same dd0 dd -> wt.2 = tr1 ++ new ->
  new = [] \/ logged CBody (map_to_list (dd_deliveries dd)) (Some e) new ->
  pl_Abort dd wt = (wt', Done r0) -> closed (Aborted dd e) i (events i wt'.2).
Proof.
  intros HI Hs Ew Hl E. apply (after_close _ _ _ _ _ (proj1 Hs)) in E as (wt1 & Ewt1 & E).
  pose proof (Inv_same _ _ _ HI Hs) as HI'. pose proof (Inv_keyed _ _ HI') as Hk.
  apply (abort_all_logged _ _ _ _ _ Hk) in E as (new' & -> & Hb2). specialize (Hb2 i).
  rewrite Ewt1, Ew, !events_app. destruct HI' as [_ HI']. specialize (HI' i).
  assert (Hb1 : if decide (i ∈ (map_to_list (dd_deliveries dd)).*1)
               then events i new ∈ [[]; [CBody None]; [CBody (Some e)]] else events i new = []).
  { destruct Hl as [->|Hl]; [case_decide; [left|done]|exact (logged_events _ _ _ _ i (proj1 Hk) Hl)]. }
  simpl. destruct (dd_deliveries dd !! i) as [del|] eqn:Ei.
  - assert (Hi : i ∈ (map_to_list (dd_deliveries dd)).*1) by (apply elem_of_keys; eauto).
    rewrite decide_True in Hb1, Hb2 by done. destruct Hb2 as [r ->].
    eexists _, _, r. split; [apply HI'|]. split; [by rewrite <- app_assoc|exact Hb1].
  - rewrite decide_False in Hb1, Hb2 by (rewrite elem_of_keys, Ei; by intros [? ?]).
    by rewrite Hb1, Hb2, !app_nil_r.
Qed.

(** C3: The targets of a pipeline see a well-formed delivery, whatever the checks,
    modifiers, routing and schedules do: a sender that is refused reaches no
    target; otherwise a target is started at most once successfully, is given
    recipients, as many of them accepted as the pipeline has recorded for it, and
    then, if the body is accepted by all, exactly one body and one commit, and if
    the body is refused, at most one body and exactly one abort, never a commit.
    When a commit fails the remaining targets are left open. *)
Theorem pipeline_transaction mm from tos h b w w' tr o :
  transaction mm from tos h b (w, []) = ((w', tr), Done o) ->
  forall i, closed o i (events i tr).
Proof.
  intros E i. apply prog_bind_Done in E as (wt1 & [dd1|e] & E1 & E);
    apply Start_Inv in E1; try done; [|cbv [mret prog_ret] in E; by simplify_eq/=].
  apply prog_bind_Done in E as (wt2 & dd2 & E2 & E). apply (add_all_Inv _ _ _ _ _ E1) in E2.
  apply prog_bind_Done in E as (wt3 & [dd3 err] & E3 & E).
  destruct (Body_bodies _ h b (proj1 E2) (Inv_keyed _ _ E2) _ _ _ E3) as [Hs (new & En & Hl)]; simpl in Hs, Hl.
  rewrite <- (proj2 Hs) in Hl.
  destruct err as [e|]; apply prog_bind_Done in E as (wt4 & r & E4 & E);
    cbv [mret prog_ret] in E; simplify_eq/=.
  - eapply (Abort_closed dd2 dd3 wt3 (w', tr)); eauto. naive_solver.
  - eapply (Commit_closed dd2 dd3 wt3 (w', tr)); eauto. naive_solver.
Qed.
End Steps.

(** ** Witness *)

#[local] Existing Instances list_textproto ascii_tables identity_text flat_dmarc.

Definition sample_delivery : Delivery unit :=
  mkDelivery (fun _ => mret None) (fun _ _ => mret None) None (mret None) (mret None).
Definition ok_target : target (W := unit * list (nat * call)) :=
  mkTgt 0 false (tag_target 0 (mkTarget (fun _ _ => mret (Ok sample_delivery)))).
Definition down_target : target (W := unit * list (nat * call)) :=
  mkTgt 1 false (tag_target 1 (mkTarget (fun _ _ => mret (Err (ENew "down"))))).
Definition sample_source : sourceBlock (W := unit * list (nat * call)) :=
  mkSourceBlock [] [] None [] {["bad.org" := mkRcptBlock 1 [] [] None [down_target]]}
    (Some (mkRcptBlock 0 [] [] None [ok_target])).
Definition sample_pipeline : MsgPipeline (W := unit * list (nat * call)) :=
  mkMsgPipeline [] [] [] ∅ sample_source false "mx.example.org" false.
Definition sample_schedule (n : nat) : schedule := mkSchedule [] [] [] [].
Definition sample_log : list (nat * call) :=
  [(0, CStart sample_mm "a@example.org" None); (0, CAddRcpt "a@x.org" None);
   (1, CStart sample_mm "a@example.org" (Some (ENew "down"))); (0, CAddRcpt "c@x.org" None);
   (0, CBody None); (0, CCommit None)].

Definition sample_transaction :=
  transaction (W := unit) sample_schedule (fun _ => mret ([], None)) (fun _ _ => "")
    (fun _ _ _ => mret (Ok "")) 0%Z sample_pipeline sample_mm "a@example.org"
    ["a@x.org"; "b@bad.org"; "c@x.org"] [] (MemoryBuffer "hello").

Lemma sample_pipeline_good : good_pipeline sample_pipeline.
Proof.
  assert (Hok : good_rcptBlock (mkRcptBlock 0 [] [] None [ok_target])).
  { split_and!; [constructor..|]. constructor; [by eexists|constructor]. }
  assert (Hs : good_sourceBlock sample_source).
  { split_and!; [constructor..| |naive_solver]. apply map_Forall_singleton.
    split_and!; [constructor..|]. constructor; [by eexists|constructor]. }
  split_and!; [constructor..| |exact Hs]. apply map_Forall_empty.
Qed.

Lemma pipeline_transaction_witness :
  exists o, sample_transaction (tt, []) = ((tt, sample_log), Done o) /\
    closed o 0 (events 0 sample_log) /\ closed o 1 (events 1 sample_log).
Proof.
  assert (E : exists o, sample_transaction (tt, []) = ((tt, sample_log), Done o))
    by (eexists; vm_compute; reflexivity).
  destruct E as [o E]. exists o. split; [exact E|].
  split; refine (pipeline_transaction _ _ _ _ _ _ _ _ sample_pipeline_good _ _ _ _ _ _ _ _ _ E _);
    intros; by apply quiet_ret.
Defined.

(** BodyNonAtomic runs the checks but does not apply their verdict: a message that
    Body marks as quarantined is delivered unmarked. *)
Definition quarantine_check : Check (W := unit * list (nat * call)) :=
  mkCheck 0 (fun _ => mret (Ok (mkCheckState 0 (mret CheckResult_zero) (fun _ => mret CheckResult_zero)
    (fun _ => mret CheckResult_zero)
    (fun _ _ => mret (mkCheckResult (Some (ENew "suspicious")) false true [] [])) (mret None)))).
Definition quarantine_pipeline : MsgPipeline (W := unit * list (nat * call)) :=
  mkMsgPipeline [quarantine_check] [] [] ∅ sample_source false "mx.example.org" false.
Definition one_schedule (n : nat) : schedule := mkSchedule [0] [0] [0] [0].
Definition quarantined (m : msgpipelineDelivery (W := unit * list (nat * call)) ->
    Prog (unit * list (nat * call)) (msgpipelineDelivery (W := unit * list (nat * call)))) : option bool :=
  match (r ← pl_Start one_schedule quarantine_pipeline sample_mm "a@example.org";
         match r with Err _ => mret None | Ok dd => dd ← m dd; mret (Some (mm_Quarantine (dd_msgMeta dd))) end)
          (tt, []) with
  | (_, Done o) => o
  | _ => None
  end.

Example BodyNonAtomic_drops_quarantine :
  quarantined (fun dd => p ← pl_Body one_schedule (fun _ => mret ([], None)) (fun _ _ => "")
    (fun _ _ _ => mret (Ok "")) 0%Z quarantine_pipeline dd [] (MemoryBuffer "x"); mret p.1) = Some true /\
  quarantined (fun dd => p ← pl_BodyNonAtomic one_schedule (fun _ => mret ([], None)) quarantine_pipeline
    dd [] (MemoryBuffer "x"); mret p.1) = Some false.
Proof. split; vm_compute; reflexivity. Qed.
