(* ===== verification/PipelineCfg.v ===== *)
(** * PipelineCfg: internal/msgpipeline/config.go

    Building a pipeline from its configuration.  Modules that a directive names
    (checks, modifiers, tables, targets) are made by the module registry, which is
    a parameter: it runs in a world [V], which also hands out the identities of the
    objects allocated. *)
From S2P Require Import Prelude GoStr ExtErrors Address Checks Config Module Tables Modify Dmarc CheckRunner Pipeline.
From Stdlib Require Import Ascii.

Local Open Scope Z_scope.

(** parseRejectDirective: unlike the one of the check actions, it does not adapt
    the class of the enhanced code to the code, and reports the node. *)
Definition cfg_reject_ench (node : Node) (s : string) : Result gerror EnhancedCode :=
  match parseEnhancedCode s with
  | Err e => Err (NodeErr node (Error e))
  | Ok ench =>
    if negb (ec0 ench =? 4) && negb (ec0 ench =? 5)
    then Err (NodeErr node "enhanced code should use either 4 or 5 as a first number") else Ok ench
  end.
Definition cfg_reject_code (node : Node) (s : string) : Result gerror Z :=
  match atoi s with
  | Err e => Err (NodeErr node ("invalid error code integer: " +:+ Error e))
  | Ok code =>
    if negb (Z.quot code 100 =? 4) && negb (Z.quot code 100 =? 5)
    then Err (NodeErr node "error code should start with either 4 or 5") else Ok code
  end.
Definition reject_error (code : Z) (ench : EnhancedCode) (msg : string) : gerror :=
  ESMTP code ench msg "" "" "" "reject directive used" None ∅.

Definition cfg_parseRejectDirective (node : Node) : Result gerror gerror :=
  match node_Args node with
  | [a0; a1; a2] =>
    if decide (a2 = "") then Err (NodeErr node "message can't be empty")
    else ench ← cfg_reject_ench node a1; code ← cfg_reject_code node a0; Ok (reject_error code ench a2)
  | [a0; a1] =>
    ench ← cfg_reject_ench node a1; code ← cfg_reject_code node a0;
    Ok (reject_error code ench default_reject_msg)
  | [a0] => code ← cfg_reject_code node a0; Ok (reject_error code (Ench 5 7 0) default_reject_msg)
  | [] => Ok (reject_error 554 (Ench 5 7 0) default_reject_msg)
  | _ => Err (NodeErr node "invalid count of arguments")
  end.

Section PipelineCfg.
Context `{Textproto} `{UnicodeTables} `{TextLib} `{DmarcLib} {W V : Type}.
Abbreviation Check := (Check (W := W)).
Abbreviation rcptBlock := (rcptBlock (W := W)).
Abbreviation sourceBlock := (sourceBlock (W := W)).
Abbreviation MsgPipeline := (MsgPipeline (W := W)).
Abbreviation parsed A := (Prog V (Result gerror A)).

(** The module registry. *)
Record registry := mkRegistry {
  rg_alloc : Prog V nat;
  rg_parseChecksGroup : Node -> parsed (list Check);
  rg_parseModifiersGroup : Node -> parsed (list (Modifier W));
  rg_table : list string -> parsed (Table W);
  rg_DeliveryTarget : list string -> Node -> parsed (target (W := W));
  rg_as_target : MsgPipeline -> DeliveryTarget W
}.
Context (reg : registry).

Definition validMatchRule (rule : string) : bool := ValidDomain rule || Valid rule.

(** A rule in the form lookups use. *)
Definition match_rule (what what2 : string) (node : Node) (rule : string) : Result gerror string :=
  match (if ContainsByte rule at_sign then ForLookup rule else dns_ForLookup rule) with
  | (rule, Some e) => Err (NodeErr node ("invalid " +:+ what +:+ " match rule: " +:+ rule +:+ ": " +:+ Error e))
  | (rule, None) =>
    if validMatchRule rule then Ok rule else Err (NodeErr node ("invalid " +:+ what2 +:+ " rule: " +:+ rule))
  end.

(** The rules of a block, in order; the first block for a rule keeps it. *)
Fixpoint add_rules {B} (what what2 : string) (node : Node) (rules : list string) (b : B) (m : gmap string B)
  : Result gerror (gmap string B) :=
  match rules with
  | [] => Ok m
  | rule :: rules =>
    match match_rule what what2 node rule with
    | Err e => Err e
    | Ok rule => add_rules what what2 node rules b (match m !! rule with Some _ => m | None => <[rule := b]> m end)
    end
  end.

Definition pbind {A B} (m : parsed A) (f : A -> parsed B) : parsed B :=
  r ← m; match r with Ok a => f a | Err e => mret (Err e) end.
Definition perr {A} (e : gerror) : parsed A := mret (Err e).
Definition pret {A} (a : A) : parsed A := mret (Ok a).
Definition plift {A} (r : Result gerror A) : parsed A := mret r.

(** A loop over the directives that stops at the first error. *)
Fixpoint pfold {S} (f : S -> Node -> parsed S) (st : S) (nodes : list Node) : parsed S :=
  match nodes with
  | [] => pret st
  | node :: nodes => pbind (f st node) (fun st => pfold f st nodes)
  end.

(** ** Recipient blocks *)

(** The constructor of nested pipelines, of reroute. *)
Context (New : list Node -> parsed MsgPipeline).

Definition rb_zero (id : nat) : rcptBlock := mkRcptBlock id [] [] None [].

Definition rcpt_directive (b : rcptBlock) (node : Node) : parsed rcptBlock :=
  let name := node_Name node in
  if decide (name = "check") then
    pbind (rg_parseChecksGroup reg node) (fun cs =>
    pret (mkRcptBlock (rb_id b) (rb_checks b ++ cs) (rb_modifiers b) (rb_rejectErr b) (rb_targets b)))
  else if decide (name = "modify") then
    pbind (rg_parseModifiersGroup reg node) (fun ms =>
    pret (mkRcptBlock (rb_id b) (rb_checks b) (rb_modifiers b ++ ms) (rb_rejectErr b) (rb_targets b)))
  else if decide (name = "deliver_to") then
    match rb_rejectErr b with
    | Some _ => perr (NodeErr node "can't use 'reject' and 'deliver_to' together")
    | None =>
      match node_Args node with
      | [] => perr (NodeErr node "required at least one argument")
      | args =>
        pbind (rg_DeliveryTarget reg args node) (fun t =>
        pret (mkRcptBlock (rb_id b) (rb_checks b) (rb_modifiers b) (rb_rejectErr b) (rb_targets b ++ [t])))
      end
    end
  else if decide (name = "reroute") then
    match children node with
    | [] => perr (NodeErr node "missing or empty reroute pipeline configuration")
    | ch =>
      pbind (New ch) (fun p =>
      id ← rg_alloc reg;
      pret (mkRcptBlock (rb_id b) (rb_checks b) (rb_modifiers b) (rb_rejectErr b)
              (rb_targets b ++ [mkTgt id true (rg_as_target reg p)])))
    end
  else if decide (name = "reject") then
    match rb_targets b with
    | _ :: _ => perr (NodeErr node "can't use 'reject' and 'deliver_to' together")
    | [] =>
      pbind (plift (cfg_parseRejectDirective node)) (fun e =>
      pret (mkRcptBlock (rb_id b) (rb_checks b) (rb_modifiers b) (Some e) (rb_targets b)))
    end
  else perr (NodeErr node "invalid directive").

Definition parseMsgPipelineRcptCfg (nodes : list Node) : parsed rcptBlock :=
  id ← rg_alloc reg; pfold rcpt_directive (rb_zero id) nodes.

(** ** Source blocks *)

Record src_state := mkSrcState {
  ss_src : sourceBlock;
  ss_defaultRaw : option (list Node);
  ss_others : list Node
}.
Definition with_src (b : sourceBlock) (st : src_state) : src_state :=
  mkSrcState b (ss_defaultRaw st) (ss_others st).

Definition src_directive (st : src_state) (node : Node) : parsed src_state :=
  let name := node_Name node in
  let b := ss_src st in
  if decide (name = "check") then
    pbind (rg_parseChecksGroup reg node) (fun cs =>
    pret (with_src (mkSourceBlock (sb_checks b ++ cs) (sb_modifiers b) (sb_rejectErr b) (sb_rcptIn b)
                      (sb_perRcpt b) (sb_defaultRcpt b)) st))
  else if decide (name = "modify") then
    pbind (rg_parseModifiersGroup reg node) (fun ms =>
    pret (with_src (mkSourceBlock (sb_checks b) (sb_modifiers b ++ ms) (sb_rejectErr b) (sb_rcptIn b)
                      (sb_perRcpt b) (sb_defaultRcpt b)) st))
  else if decide (name = "destination_in") then
    pbind (rg_table reg (node_Args node)) (fun t =>
    pbind (parseMsgPipelineRcptCfg (children node)) (fun rb =>
    pret (with_src (mkSourceBlock (sb_checks b) (sb_modifiers b) (sb_rejectErr b) (sb_rcptIn b ++ [(t, rb)])
                      (sb_perRcpt b) (sb_defaultRcpt b)) st)))
  else if decide (name = "destination") then
    pbind (parseMsgPipelineRcptCfg (children node)) (fun rb =>
    match node_Args node with
    | [] => perr (NodeErr node "expected at least one destination match rule")
    | rules =>
      pbind (plift (add_rules "destination" "destination match" node rules rb (sb_perRcpt b))) (fun m =>
      pret (with_src (mkSourceBlock (sb_checks b) (sb_modifiers b) (sb_rejectErr b) (sb_rcptIn b)
                        m (sb_defaultRcpt b)) st))
    end)
  else if decide (name = "default_destination") then
    match ss_defaultRaw st with
    | Some _ => perr (NodeErr node "duplicate 'default_destination' block")
    | None => pret (mkSrcState b (node_Children node) (ss_others st))
    end
  else if decide (name = "deliver_to" \/ name = "reroute" \/ name = "reject") then
    pret (mkSrcState b (ss_defaultRaw st) (ss_others st ++ [node]))
  else perr (NodeErr node ("unknown pipeline directive: " +:+ name)).

Definition set_defaultRcpt (b : sourceBlock) (rb : rcptBlock) : sourceBlock :=
  mkSourceBlock (sb_checks b) (sb_modifiers b) (sb_rejectErr b) (sb_rcptIn b) (sb_perRcpt b) (Some rb).

Definition index_panic {A} : parsed A := panic "index out of range".

(** The default block comes from its own directive, or from the handling
    directives when there are no rules. *)
Definition finish_src (nodes : list Node) (st : src_state) : parsed sourceBlock :=
  let raw := default [] (ss_defaultRaw st) in
  if decide (sb_perRcpt (ss_src st) = ∅ /\ raw = []) then
    match ss_others st with
    | [] => perr (EErrorf "empty source block, use 'reject' to reject messages" None)
    | others => pbind (parseMsgPipelineRcptCfg others) (fun rb => pret (set_defaultRcpt (ss_src st) rb))
    end
  else
    match ss_others st, raw, nodes with
    | other :: _, _, _ => perr (NodeErr other "can't put handling directives together with destination rules, did you mean to put it into 'default' block or into all recipient blocks?")
    | [], [], [] => index_panic
    | [], [], node :: _ => perr (NodeErr node "missing or empty default destination block, use default_destination { reject } to reject messages")
    | [], _ :: _, _ => pbind (parseMsgPipelineRcptCfg raw) (fun rb => pret (set_defaultRcpt (ss_src st) rb))
    end.

Definition parseMsgPipelineSrcCfg (nodes : list Node) : parsed sourceBlock :=
  pbind (pfold src_directive (mkSrcState sourceBlock_zero None []) nodes) (finish_src nodes).

(** ** The root block *)

Record root_state := mkRootState {
  rs_cfg : MsgPipeline;
  rs_defaultRaw : option (list Node);
  rs_others : list Node
}.
Definition with_cfg (c : MsgPipeline) (st : root_state) : root_state :=
  mkRootState c (rs_defaultRaw st) (rs_others st).
Definition cfg_zero : MsgPipeline := mkMsgPipeline [] [] [] ∅ sourceBlock_zero false "" false.
Definition set_doDMARC (c : MsgPipeline) : MsgPipeline :=
  mkMsgPipeline (mp_globalChecks c) (mp_globalModifiers c) (mp_sourceIn c) (mp_perSource c)
    (mp_defaultSource c) true (mp_Hostname c) (mp_FirstPipeline c).
Definition set_defaultSource (c : MsgPipeline) (b : sourceBlock) : MsgPipeline :=
  mkMsgPipeline (mp_globalChecks c) (mp_globalModifiers c) (mp_sourceIn c) (mp_perSource c)
    b (mp_doDMARC c) (mp_Hostname c) (mp_FirstPipeline c).

Definition root_directive (st : root_state) (node : Node) : parsed root_state :=
  let name := node_Name node in
  let c := rs_cfg st in
  if decide (name = "check") then
    pbind (rg_parseChecksGroup reg node) (fun cs =>
    pret (with_cfg (mkMsgPipeline (mp_globalChecks c ++ cs) (mp_globalModifiers c) (mp_sourceIn c)
            (mp_perSource c) (mp_defaultSource c) (mp_doDMARC c) (mp_Hostname c) (mp_FirstPipeline c)) st))
  else if decide (name = "modify") then
    pbind (rg_parseModifiersGroup reg node) (fun ms =>
    pret (with_cfg (mkMsgPipeline (mp_globalChecks c) (mp_globalModifiers c ++ ms) (mp_sourceIn c)
            (mp_perSource c) (mp_defaultSource c) (mp_doDMARC c) (mp_Hostname c) (mp_FirstPipeline c)) st))
  else if decide (name = "source_in") then
    pbind (rg_table reg (node_Args node)) (fun t =>
    pbind (parseMsgPipelineSrcCfg (children node)) (fun b =>
    pret (with_cfg (mkMsgPipeline (mp_globalChecks c) (mp_globalModifiers c) (mp_sourceIn c ++ [(t, b)])
            (mp_perSource c) (mp_defaultSource c) (mp_doDMARC c) (mp_Hostname c) (mp_FirstPipeline c)) st)))
  else if decide (name = "source") then
    pbind (parseMsgPipelineSrcCfg (children node)) (fun b =>
    match node_Args node with
    | [] => perr (NodeErr node "expected at least one source matching rule")
    | rules =>
      pbind (plift (add_rules "source" "source routing" node rules b (mp_perSource c))) (fun m =>
      pret (with_cfg (mkMsgPipeline (mp_globalChecks c) (mp_globalModifiers c) (mp_sourceIn c)
              m (mp_defaultSource c) (mp_doDMARC c) (mp_Hostname c) (mp_FirstPipeline c)) st))
    end)
  else if decide (name = "default_source") then
    match rs_defaultRaw st with
    | Some _ => perr (NodeErr node "duplicate 'default_source' block")
    | None => pret (mkRootState c (node_Children node) (rs_others st))
    end
  else if decide (name = "dmarc") then
    match node_Args node with
    | [a] =>
      if decide (a = "yes") then pret (with_cfg (set_doDMARC c) st)
      else if decide (a = "no") then pret st
      else perr (NodeErr node "invalid argument for dmarc")
    | [] => pret (with_cfg (set_doDMARC c) st)
    | _ => pret st
    end
  else if decide (name = "deliver_to" \/ name = "reroute" \/ name = "destination_in" \/ name = "destination" \/
                  name = "default_destination" \/ name = "reject") then
    pret (mkRootState c (rs_defaultRaw st) (rs_others st ++ [node]))
  else perr (NodeErr node ("unknown pipeline directive: " +:+ name)).

Definition finish_root (nodes : list Node) (st : root_state) : parsed MsgPipeline :=
  let raw := default [] (rs_defaultRaw st) in
  if decide (mp_perSource (rs_cfg st) = ∅ /\ raw = []) then
    match rs_others st with
    | [] => perr (EErrorf "empty pipeline configuration, use 'reject' to reject messages" None)
    | others => pbind (parseMsgPipelineSrcCfg others) (fun b => pret (set_defaultSource (rs_cfg st) b))
    end
  else
    match rs_others st, raw, nodes with
    | other :: _, _, _ => perr (NodeErr other "can't put handling directives together with source rules, did you mean to put it into 'default_source' block or into all source blocks?")
    | [], [], [] => index_panic
    | [], [], node :: _ => perr (NodeErr node "missing or empty default source block, use default_source { reject } to reject messages")
    | [], _ :: _, _ => pbind (parseMsgPipelineSrcCfg raw) (fun b => pret (set_defaultSource (rs_cfg st) b))
    end.

Definition parseMsgPipelineRootCfg (nodes : list Node) : parsed MsgPipeline :=
  pbind (pfold root_directive (mkRootState cfg_zero None []) nodes) (finish_root nodes).
End PipelineCfg.

(** ** New

    Pipelines nest through reroute, so the recursion is on the depth of the
    configuration; any fuel above it gives the same pipeline. *)

Section New.
Context `{Textproto} `{UnicodeTables} `{TextLib} `{DmarcLib} {W V : Type} (reg : registry (W := W) (V := V)).
Abbreviation MsgPipeline := (MsgPipeline (W := W)).
Abbreviation parsed A := (Prog V (Result gerror A)).

Fixpoint pipeline_New (fuel : nat) (nodes : list Node) : parsed MsgPipeline :=
  match fuel with
  | O => panic "stack overflow"
  | S fuel => parseMsgPipelineRootCfg reg (pipeline_New fuel) nodes
  end.

Fixpoint node_depth (n : Node) : nat :=
  match node_Children n with
  | None => 0
  | Some ch => S (foldr (fun c d => Nat.max (node_depth c) d) 0%nat ch)
  end.
Definition nodes_depth (nodes : list Node) : nat := foldr (fun c d => Nat.max (node_depth c) d) 0%nat nodes.

Definition New (nodes : list Node) : parsed MsgPipeline := pipeline_New (S (nodes_depth nodes)) nodes.

Lemma nodes_depth_elem n nodes : n ∈ nodes -> (node_depth n <= nodes_depth nodes)%nat.
Proof. induction 1 as [|m l Hn IH]; simpl; [lia|]. unfold nodes_depth in IH. lia. Qed.
(** Two constructors that agree on all but [d] levels. *)
Definition agree (d : nat) (N1 N2 : list Node -> parsed MsgPipeline) : Prop :=
  forall ch v, (nodes_depth ch < d)%nat -> N1 ch v = N2 ch v.

Lemma agree_le d e N1 N2 : (d <= e)%nat -> agree e N1 N2 -> agree d N1 N2.
Proof. intros Hde Ha ch v Hc. apply Ha. lia. Qed.

Lemma pbind_Ok {A B} (m : parsed A) (f : A -> parsed B) v v' b :
  pbind m f v = (v', Done (Ok b)) <-> exists v1 a, m v = (v1, Done (Ok a)) /\ f a v1 = (v', Done (Ok b)).
Proof. unfold pbind, mbind, prog_bind, mret, prog_ret. destruct (m v) as [v1 [[a|e]|why]]; naive_solver. Qed.

Lemma pbind_ext {A B} (m1 m2 : parsed A) (f1 f2 : A -> parsed B) v :
  m1 v = m2 v -> (forall a v', m2 v = (v', Done (Ok a)) -> f1 a v' = f2 a v') -> pbind m1 f1 v = pbind m2 f2 v.
Proof.
  intros Em Ef. unfold pbind, mbind, prog_bind. rewrite Em.
  destruct (m2 v) as [v' [[a|e]|why]]; auto.
Qed.

Lemma pfold_ext {S} (f1 f2 : S -> Node -> parsed S) st nodes v :
  (forall st n v, n ∈ nodes -> f1 st n v = f2 st n v) -> pfold f1 st nodes v = pfold f2 st nodes v.
Proof.
  revert st v. induction nodes as [|n nodes IH]; intros st v Hf; simpl; [done|].
  apply pbind_ext; [apply Hf; left|]. intros st' v' _. apply IH. intros. apply Hf. by right.
Qed.

Lemma pfold_inv {S} (I : S -> Prop) (f : S -> Node -> parsed S) nodes :
  (forall st n v v' st', n ∈ nodes -> I st -> f st n v = (v', Done (Ok st')) -> I st') ->
  forall st v v' st', I st -> pfold f st nodes v = (v', Done (Ok st')) -> I st'.
Proof.
  induction nodes as [|n nodes IH]; intros Hf st v v' st' HI E; simpl in E.
  - cbv [pret mret prog_ret] in E. by simplify_eq.
  - apply pbind_Ok in E as (v1 & st1 & E1 & E2).
    eapply IH; [|eapply (Hf st n); [left|done|exact E1]|exact E2]. intros. eapply Hf; eauto. by right.
Qed.

Lemma depth_le nodes n : n ∈ nodes -> (nodes_depth (children n) <= nodes_depth nodes)%nat.
Proof.
  intros Hn%nodes_depth_elem. unfold children. destruct n as [na ar [ch|] sn ma fi li]; simpl in *; [|lia].
  unfold nodes_depth in *. lia.
Qed.
Lemma depth_lt nodes n : n ∈ nodes -> children n <> [] -> (nodes_depth (children n) < nodes_depth nodes)%nat.
Proof.
  intros Hn%nodes_depth_elem. unfold children. destruct n as [na ar [ch|] sn ma fi li]; simpl in *; [|done].
  unfold nodes_depth in *. lia.
Qed.

Lemma rcpt_ext N1 N2 nodes v :
  agree (nodes_depth nodes) N1 N2 -> parseMsgPipelineRcptCfg reg N1 nodes v = parseMsgPipelineRcptCfg reg N2 nodes v.
Proof.
  intros Ha. unfold parseMsgPipelineRcptCfg, mbind, prog_bind.
  destruct (rg_alloc reg v) as [v' [id|why]]; [|done]. apply pfold_ext. intros b n v1 Hn.
  unfold rcpt_directive. repeat (case_decide; [done|]). case_decide; [|done].
  destruct (children n) as [|c ch] eqn:Ec; [done|]. apply pbind_ext; [|done].
  apply Ha. rewrite <- Ec. apply depth_lt; [done|]. by rewrite Ec.
Qed.

(** Invert a directive that succeeded. *)
Ltac directive E :=
  repeat (case_decide; [repeat first [progress simplify_eq | apply pbind_Ok in E as (? & ? & ? & E)
    | match type of E with context [match ?x with _ => _ end] => destruct x eqn:? end]
    ; cbv [pret perr mret prog_ret panic] in E; simplify_eq|]);
  cbv [pret perr mret prog_ret] in E; simplify_eq.

Definition shallow (D : nat) (raw : option (list Node)) (others : list Node) : Prop :=
  (nodes_depth (default [] raw) <= D)%nat /\ (nodes_depth others <= D)%nat.

Lemma nodes_depth_app a b : nodes_depth (a ++ b) = Nat.max (nodes_depth a) (nodes_depth b).
Proof. unfold nodes_depth. induction a as [|n a IH]; simpl; [done|]. lia. Qed.

Lemma shallow_others D raw others n :
  shallow D raw others -> (node_depth n <= D)%nat -> shallow D raw (others ++ [n]).
Proof. intros [Hr Ho] Hn. split; [done|]. rewrite nodes_depth_app. simpl. lia. Qed.

Lemma src_directive_shallow N nodes st n v v' st' :
  n ∈ nodes -> shallow (nodes_depth nodes) (ss_defaultRaw st) (ss_others st) ->
  src_directive reg N st n v = (v', Done (Ok st')) ->
  shallow (nodes_depth nodes) (ss_defaultRaw st') (ss_others st').
Proof.
  intros Hn Hs E. unfold src_directive in E. directive E; try done.
  - split; [by apply depth_le|apply Hs].
  - apply shallow_others; [done|]. by apply nodes_depth_elem.
Qed.

Lemma src_ext N1 N2 nodes v :
  agree (nodes_depth nodes) N1 N2 -> parseMsgPipelineSrcCfg reg N1 nodes v = parseMsgPipelineSrcCfg reg N2 nodes v.
Proof.
  intros Ha.
  assert (Hr : forall ch, (nodes_depth ch <= nodes_depth nodes)%nat ->
            forall v, parseMsgPipelineRcptCfg reg N1 ch v = parseMsgPipelineRcptCfg reg N2 ch v).
  { intros ch Hc v1. apply rcpt_ext. by eapply agree_le. }
  unfold parseMsgPipelineSrcCfg. apply pbind_ext.
  - apply pfold_ext. intros st n v1 Hn. pose proof (Hr _ (depth_le _ _ Hn)) as Hrn.
    unfold src_directive. do 2 (case_decide; [done|]).
    case_decide; [apply pbind_ext; [done|]; intros t v2 _; by apply pbind_ext|].
    case_decide; [by apply pbind_ext|]. done.
  - intros st v1 E. apply (pfold_inv (fun st => shallow (nodes_depth nodes) (ss_defaultRaw st) (ss_others st))) in E
      as [Hraw Hoth]; [|intros; by eapply src_directive_shallow|split; simpl; lia].
    unfold finish_src. case_decide.
    + destruct (ss_others st) as [|o others]; [done|]. apply pbind_ext; [by apply Hr|done].
    + destruct (ss_others st) as [|o others]; [|done].
      destruct (default [] (ss_defaultRaw st)) as [|n raw]; [done|]. apply pbind_ext; [by apply Hr|done].
Qed.

Lemma root_directive_shallow N nodes st n v v' st' :
  n ∈ nodes -> shallow (nodes_depth nodes) (rs_defaultRaw st) (rs_others st) ->
  root_directive reg N st n v = (v', Done (Ok st')) ->
  shallow (nodes_depth nodes) (rs_defaultRaw st') (rs_others st').
Proof.
  intros Hn Hs E. unfold root_directive in E. directive E; try done.
  - split; [by apply depth_le|apply Hs].
  - apply shallow_others; [done|]. by apply nodes_depth_elem.
Qed.

Lemma root_ext N1 N2 nodes v :
  agree (nodes_depth nodes) N1 N2 -> parseMsgPipelineRootCfg reg N1 nodes v = parseMsgPipelineRootCfg reg N2 nodes v.
Proof.
  intros Ha.
  assert (Hr : forall ch, (nodes_depth ch <= nodes_depth nodes)%nat ->
            forall v, parseMsgPipelineSrcCfg reg N1 ch v = parseMsgPipelineSrcCfg reg N2 ch v).
  { intros ch Hc v1. apply src_ext. by eapply agree_le. }
  unfold parseMsgPipelineRootCfg. apply pbind_ext.
  - apply pfold_ext. intros st n v1 Hn. pose proof (Hr _ (depth_le _ _ Hn)) as Hrn.
    unfold root_directive. do 2 (case_decide; [done|]).
    case_decide; [apply pbind_ext; [done|]; intros t v2 _; by apply pbind_ext|].
    case_decide; [by apply pbind_ext|]. done.
  - intros st v1 E. apply (pfold_inv (fun st => shallow (nodes_depth nodes) (rs_defaultRaw st) (rs_others st))) in E
      as [Hraw Hoth]; [|intros; by eapply root_directive_shallow|split; simpl; lia].
    unfold finish_root. case_decide.
    + destruct (rs_others st) as [|o others]; [done|]. apply pbind_ext; [by apply Hr|done].
    + destruct (rs_others st) as [|o others]; [|done].
      destruct (default [] (rs_defaultRaw st)) as [|n raw]; [done|]. apply pbind_ext; [by apply Hr|done].
Qed.

Lemma pipeline_New_fuel n m nodes v :
  (nodes_depth nodes < n)%nat -> (nodes_depth nodes < m)%nat -> pipeline_New n nodes v = pipeline_New m nodes v.
Proof.
  revert m nodes v. induction n as [|n IH]; intros m nodes v Hn Hm; [lia|]. destruct m as [|m]; [lia|].
  simpl. apply root_ext. intros ch v1 Hc. apply IH; lia.
Qed.

(** ** Well-formed pipelines *)

Definition wf_source (b : sourceBlock (W := W)) : Prop :=
  is_Some (sb_defaultRcpt b) /\ map_Forall (fun rule _ => validMatchRule rule = true) (sb_perRcpt b).
Definition wf_pipeline (p : MsgPipeline) : Prop :=
  wf_source (mp_defaultSource p) /\ Forall (fun q => wf_source q.2) (mp_sourceIn p) /\
  map_Forall (fun rule b => validMatchRule rule = true /\ wf_source b) (mp_perSource p).

Lemma add_rules_valid {B} (P : B -> Prop) what what2 node rules b (m m' : gmap string B) :
  P b -> map_Forall (fun rule b => validMatchRule rule = true /\ P b) m ->
  add_rules what what2 node rules b m = Ok m' -> map_Forall (fun rule b => validMatchRule rule = true /\ P b) m'.
Proof.
  intros Hb. revert m. induction rules as [|rule rules IH]; intros m Hm E; simpl in E; [by simplify_eq|].
  destruct (match_rule what what2 node rule) as [rule'|e] eqn:Er; [|done]. eapply IH; [|exact E].
  destruct (m !! rule'); [done|]. apply map_Forall_insert_2; [|done]. split; [|done].
  unfold match_rule in Er. destruct (if ContainsByte rule at_sign then _ else _) as [r [e|]]; [done|].
  destruct (validMatchRule r) eqn:Ev; by simplify_eq.
Qed.

Lemma plift_Ok {A} (r : Result gerror A) (v v' : V) a : plift r v = (v', Done (Ok a)) -> r = Ok a.
Proof. unfold plift. cbv [mret prog_ret]. congruence. Qed.

Lemma src_directive_rules N st n v v' st' :
  map_Forall (fun rule _ => validMatchRule rule = true) (sb_perRcpt (ss_src st)) ->
  src_directive reg N st n v = (v', Done (Ok st')) ->
  map_Forall (fun rule _ => validMatchRule rule = true) (sb_perRcpt (ss_src st')).
Proof.
  intros Hs E. unfold src_directive in E. directive E; simpl; try done.
  match goal with Ha : plift _ _ = _ |- _ => apply plift_Ok in Ha; rename Ha into Hadd end.
  apply (add_rules_valid (fun _ => True)) in Hadd; [|done|].
  - intros rule b Hb. by apply (Hadd rule b Hb).
  - intros rule b Hb. by split; [apply (Hs rule b)|].
Qed.

Lemma parse_src_wf N nodes v v' b :
  parseMsgPipelineSrcCfg reg N nodes v = (v', Done (Ok b)) -> wf_source b.
Proof.
  intros (v1 & st & E1 & E2)%pbind_Ok.
  apply (pfold_inv (fun st => map_Forall (fun rule _ => validMatchRule rule = true) (sb_perRcpt (ss_src st)))) in E1;
    [|intros; by eapply src_directive_rules|apply map_Forall_empty].
  unfold finish_src in E2. directive E2.
  - by split.
  - destruct (ss_others st); [|cbv [perr mret prog_ret] in E2; done].
    destruct (default [] (ss_defaultRaw st)) as [|r raw].
    + destruct nodes; cbv [perr index_panic panic mret prog_ret] in E2; done.
    + apply pbind_Ok in E2 as (v2 & rb & E3 & E2). cbv [pret mret prog_ret] in E2. simplify_eq. by split.
Qed.

Definition wf_sources (c : MsgPipeline) : Prop :=
  Forall (fun q => wf_source q.2) (mp_sourceIn c) /\
  map_Forall (fun rule b => validMatchRule rule = true /\ wf_source b) (mp_perSource c).

Lemma root_directive_wf N st n v v' st' :
  wf_sources (rs_cfg st) -> root_directive reg N st n v = (v', Done (Ok st')) -> wf_sources (rs_cfg st').
Proof.
  intros [Hin Hper] E. unfold root_directive in E. directive E; simpl; try done.
  - split; [|done]. apply Forall_app. split; [done|]. constructor; [by eapply parse_src_wf|constructor].
  - split; [done|]. simpl.
    match goal with Ha : plift _ _ = _ |- _ => apply plift_Ok in Ha; rename Ha into Hadd end.
    eapply (add_rules_valid wf_source); [|done|exact Hadd]. by eapply parse_src_wf.
Qed.

Lemma parse_root_wf N nodes v v' p :
  parseMsgPipelineRootCfg reg N nodes v = (v', Done (Ok p)) -> wf_pipeline p.
Proof.
  intros (v1 & st & E1 & E2)%pbind_Ok.
  apply (pfold_inv (fun st => wf_sources (rs_cfg st))) in E1 as [Hin Hper];
    [|intros; by eapply root_directive_wf|split; [constructor|apply map_Forall_empty]].
  assert (Hfin : forall raw v2, pbind (parseMsgPipelineSrcCfg reg N raw)
      (fun b => pret (set_defaultSource (rs_cfg st) b)) v2 = (v', Done (Ok p)) -> wf_pipeline p).
  { intros raw v2 (v3 & b & E3 & E4)%pbind_Ok. cbv [pret mret prog_ret] in E4. simplify_eq.
    split; [by eapply parse_src_wf|by split]. }
  unfold finish_root in E2. case_decide.
  - destruct (rs_others st); [cbv [perr mret prog_ret] in E2; done|]. by eapply Hfin.
  - destruct (rs_others st); [|cbv [perr mret prog_ret] in E2; done].
    destruct (default [] (rs_defaultRaw st)) as [|r raw]; [|by eapply Hfin].
    destruct nodes; cbv [perr index_panic panic mret prog_ret] in E2; done.
Qed.

Lemma lookup_in_elem {A} (ins : list (Table W * A)) key w w' b :
  lookup_in ins key w = (w', Done (Some b)) -> exists t, (t, b) ∈ ins.
Proof.
  revert w. induction ins as [|[t a] ins IH]; intros w E; simpl in E; [cbv [mret prog_ret] in E; by simplify_eq|].
  apply prog_bind_Done in E as (w1 & r & _ & E).
  destruct r as [[val|]|e]; [cbv [mret prog_ret] in E; simplify_eq; exists t; left|..];
    apply IH in E as [t' Ht]; exists t'; by right.
Qed.

Lemma srcBlockForAddr_wf p from w w' src :
  wf_pipeline p -> srcBlockForAddr p from w = (w', Done (Ok src)) -> wf_source src.
Proof.
  intros (Hd & Hin & Hper) E. unfold srcBlockForAddr in E.
  destruct (if decide (from = "") then _ else _) as [clean [e|]]; [cbv [mret prog_ret] in E; by simplify_eq|].
  apply prog_bind_Done in E as (w1 & [b|] & E1 & E); cbv [mret prog_ret] in E.
  - simplify_eq. apply lookup_in_elem in E1 as [t Ht]. rewrite Forall_forall in Hin. by apply (Hin _ Ht).
  - assert (Hl : forall k, wf_source (default (mp_defaultSource p) (mp_perSource p !! k))).
    { intros k. destruct (mp_perSource p !! k) eqn:Ek; simpl; [by apply (Hper _ _ Ek)|done]. }
    destruct (mp_perSource p !! clean) as [b|] eqn:Ec; [simplify_eq; by apply (Hper _ _ Ec)|].
    destruct (Split clean) as [[m dom]|e]; [simplify_eq; apply Hl|]. case_decide; simplify_eq. apply Hl.
Qed.

(** New leaves the hostname of a pipeline to its owner. *)
Lemma New_no_hostname nodes v v' p : New nodes v = (v', Done (Ok p)) -> mp_Hostname p = "".
Proof.
  unfold New. cbn [pipeline_New]. unfold parseMsgPipelineRootCfg. intros (v1 & st & E1 & E2)%pbind_Ok.
  assert (Hn : mp_Hostname (rs_cfg st) = "").
  { revert E1. apply (pfold_inv (fun st => mp_Hostname (rs_cfg st) = "")); [|done].
    intros st0 n w w' st' _ Hi E. unfold root_directive in E. directive E; done. }
  unfold finish_root in E2. case_decide; repeat (match type of E2 with context [match ?x with _ => _ end] => destruct x end; try done);
    try (apply pbind_Ok in E2 as (v2 & b & _ & E2)); cbv [pret perr mret prog_ret] in E2; by simplify_eq.
Qed.

(** C22: A pipeline that New accepts routes every message: whatever source block a
    sender selects, a recipient that is routed at all gets a block, never the nil
    pointer that AddRcpt would dereference; and the pipeline does not depend on
    the fuel given to nested pipelines. *)
Theorem New_routes nodes v v' p :
  New nodes v = (v', Done (Ok p)) ->
  (forall n, (nodes_depth nodes < n)%nat -> pipeline_New n nodes v = (v', Done (Ok p))) /\
  forall from w w1 src, srcBlockForAddr p from w = (w1, Done (Ok src)) ->
  forall to w2 w3 o, rcptBlockForAddr src to w2 = (w3, Done (Ok o)) -> is_Some o.
Proof.
  intros E. split.
  { intros n Hn. rewrite <- E. apply pipeline_New_fuel; lia. }
  intros from w w1 src Es to w2 w3 o Eo. unfold New in E. cbn [pipeline_New] in E. apply parse_root_wf in E.
  apply (srcBlockForAddr_wf _ _ _ _ _ E) in Es as [Hdef _]. unfold rcptBlockForAddr in Eo.
  destruct (ForLookup to) as [clean [e|]]; [cbv [mret prog_ret] in Eo; by simplify_eq|].
  apply prog_bind_Done in Eo as (w4 & r & _ & Eo). cbv [mret prog_ret] in Eo.
  destruct r as [b|]; [simplify_eq; by eexists|].
  destruct (sb_perRcpt src !! clean); [simplify_eq; by eexists|].
  destruct (Split clean) as [[m dom]|e]; [|by simplify_eq].
  destruct (sb_perRcpt src !! dom); simplify_eq; [by eexists|done].
Qed.
End New.

(** ** Witness *)

#[local] Existing Instances list_textproto ascii_tables identity_text flat_dmarc.

(** Every object gets the next number; a target that accepts everything. *)
Definition sample_registry : registry (W := unit) (V := nat) :=
  mkRegistry (fun n => (S n, Done n)) (fun _ => mret (Ok [])) (fun _ => mret (Ok []))
    (fun _ => mret (Err (ENew "no tables")))
    (fun _ _ n => (S n, Done (Ok (mkTgt n false
       (mkTarget (fun _ _ => mret (Ok (mkDelivery (fun _ => mret None) (fun _ _ => mret None) None
                                         (mret None) (mret None)))))))))
    (fun p => mkTarget (fun _ _ => mret (Err (ENew "nested")))).
Definition sample_config : list Node :=
  [block "source" ["example.org"] [block "destination" ["postmaster"; "example.com"] [directive "reject" ["550"]];
                                   block "default_destination" [] [block "reroute" [] [directive "deliver_to" ["&q"]]]];
   block "default_source" [] [directive "reject" []]].

Lemma returned_Ok {A B} (m : A * Outcome (Result gerror B)) :
  match m with (_, Done (Ok _)) => True | _ => False end -> exists a b, m = (a, Done (Ok b)).
Proof. destruct m as [a [[b|e]|why]]; naive_solver. Qed.

Lemma New_routes_witness :
  exists v p, New sample_registry sample_config 0%nat = (v, Done (Ok p)) /\
    pipeline_New sample_registry 10 sample_config 0%nat = (v, Done (Ok p)).
Proof.
  assert (E : exists v p, New sample_registry sample_config 0%nat = (v, Done (Ok p)))
    by (apply returned_Ok; vm_compute; exact I).
  destruct E as (v & p & E). exists v, p. split; [exact E|].
  apply (proj1 (New_routes sample_registry sample_config 0%nat v p E)). apply Nat.ltb_lt. vm_compute. reflexivity.
Defined.

(** reject and reroute in one block are both accepted, in this order. *)
Example reroute_after_reject_accepted :
  match New sample_registry [directive "reject" []; block "reroute" [] [directive "reject" []]] 0%nat with
  | (_, Done (Ok p)) =>
    match sb_defaultRcpt (mp_defaultSource p) with
    | Some b => rb_rejectErr b <> None /\ length (rb_targets b) = 1%nat
    | None => False
    end
  | _ => False
  end.
Proof. vm_compute. split; [discriminate|reflexivity]. Qed.
