(* ===== verification/Remote.v ===== *)
(** * Remote: internal/target/remote

    The target that delivers to the MX servers of the recipients' domains: finding
    and authenticating a server (connect.go) and the delivery (remote.go).  The
    limits, the connection pool, the resolver and the clock are programs of the
    Target; sort.Slice, which is not stable, is a parameter.  *mxConn and *C values
    have one owner at a time, the delivery or the pool, and are threaded.  The
    policies of a delivery run in its world.  Configuration, metrics, tracing and
    logging are left out. *)
From S2P Require Import Prelude GoStr ExtErrors Address Checks Module ConfigEndpoint SmtpConn Dns MXAuth.
From stdpp Require Import gmap.
From Stdlib Require Import ZifyBool.

Local Open Scope Z_scope.

Section Remote.
Context `{Textproto} `{UnicodeTables} `{TextLib} {W : Type} `{!SmtpLib W} `{!DnsLib W}.
Context (cl_TLSConnectionState : Client -> Prog W tls_state).
Context (sort_mx : list MX -> list MX).
(** The IP of an address that is a *net.TCPAddr *)
Context (tcp_ip : string -> option string).
Notation policy := (policy (W := W)).

Record mxConn := mkMxConn {
  mc_C : C;
  mc_domain : string;
  mc_dnssecOk : bool;
  mc_errored : bool;
  mc_reuseLimit : Z;
  mc_transactions : Z;
  mc_lastUseAt : Z;
  mc_mxLevel : Z;
  mc_tlsLevel : Z
}.
Definition mc_set_C (c : C) (m : mxConn) : mxConn :=
  mkMxConn c (mc_domain m) (mc_dnssecOk m) (mc_errored m) (mc_reuseLimit m) (mc_transactions m) (mc_lastUseAt m) (mc_mxLevel m) (mc_tlsLevel m).
Definition mc_set_dnssec (b : bool) (m : mxConn) : mxConn :=
  mkMxConn (mc_C m) (mc_domain m) b (mc_errored m) (mc_reuseLimit m) (mc_transactions m) (mc_lastUseAt m) (mc_mxLevel m) (mc_tlsLevel m).
Definition mc_set_errored (b : bool) (m : mxConn) : mxConn :=
  mkMxConn (mc_C m) (mc_domain m) (mc_dnssecOk m) b (mc_reuseLimit m) (mc_transactions m) (mc_lastUseAt m) (mc_mxLevel m) (mc_tlsLevel m).
Definition mc_count (m : mxConn) : mxConn :=
  mkMxConn (mc_C m) (mc_domain m) (mc_dnssecOk m) (mc_errored m) (mc_reuseLimit m) (mc_transactions m + 1) (mc_lastUseAt m) (mc_mxLevel m) (mc_tlsLevel m).
Definition mc_used (now : Z) (m : mxConn) : mxConn :=
  mkMxConn (mc_C m) (mc_domain m) (mc_dnssecOk m) (mc_errored m) (mc_reuseLimit m) (mc_transactions m) now (mc_mxLevel m) (mc_tlsLevel m).
Definition mc_set_levels (mx tls : Z) (m : mxConn) : mxConn :=
  mkMxConn (mc_C m) (mc_domain m) (mc_dnssecOk m) (mc_errored m) (mc_reuseLimit m) (mc_transactions m) (mc_lastUseAt m) mx tls.

(** Usable *)
Definition Usable (m : mxConn) : Prog W bool :=
  match c_cl (mc_C m) with
  | None => mret false
  | Some cl =>
    if (mc_reuseLimit m <? mc_transactions m) || mc_errored m then mret false
    else err ← cl_Reset cl; mret (match err with None => true | Some _ => false end)
  end.
Definition mc_Close (m : mxConn) : Prog W mxConn :=
  '(c, _) ← C_Close (mc_C m); mret (mc_set_C c m).

(** ** The target *)

Record Target := mkTarget {
  rt_hostname : string;
  rt_smtpPort : string;
  rt_tlsConfig : option tlsConfig;
  rt_extResolver : option ExtResolver;
  rt_LookupMX : string -> Prog W (Result gerror (list MX));
  rt_policies : list policy;
  rt_TakeMsg : string -> string -> Prog W error;
  rt_ReleaseMsg : string -> string -> Prog W unit;
  rt_TakeDest : string -> Prog W error;
  rt_ReleaseDest : string -> Prog W unit;
  rt_pool_Get : string -> Prog W (Result gerror (option mxConn));
  rt_pool_Return : string -> mxConn -> Prog W unit;
  rt_now : Prog W Z;
  rt_allowSecOverride : bool;
  rt_relaxedREQUIRETLS : bool;
  rt_connReuseLimit : Z
}.
Context (rt : Target).

Record remoteDelivery := mkRD {
  rd_mailFrom : string;
  rd_msgMeta : MsgMetadata;
  rd_recipients : list string;
  rd_connections : gmap string mxConn;
  rd_policies : list policy
}.
Definition rd_set_conns (cs : gmap string mxConn) (rd : remoteDelivery) : remoteDelivery :=
  mkRD (rd_mailFrom rd) (rd_msgMeta rd) (rd_recipients rd) cs (rd_policies rd).
Definition rd_add_rcpt (to : string) (rd : remoteDelivery) : remoteDelivery :=
  mkRD (rd_mailFrom rd) (rd_msgMeta rd) (rd_recipients rd ++ [to]) (rd_connections rd) (rd_policies rd).
Definition no_RequireTLS (m : MsgMetadata) : MsgMetadata :=
  mkMsgMetadata (mm_ID m) (mm_OriginalFrom m) (mm_DontTraceSender m) (mm_Quarantine m) (mm_OriginalRcpts m)
    (mkMailOptions (mo_Size (mm_SMTPOpts m)) (mo_UTF8 (mm_SMTPOpts m)) false) (mm_Conn m) (mm_TLSRequireOverride m).
Definition rd_set_meta (m : MsgMetadata) (rd : remoteDelivery) : remoteDelivery :=
  mkRD (rd_mailFrom rd) m (rd_recipients rd) (rd_connections rd) (rd_policies rd).
Definition rd_RequireTLS (rd : remoteDelivery) : bool := mo_RequireTLS (mm_SMTPOpts (rd_msgMeta rd)).

(** ** connect *)

(** One round of the retry loop with a TLS configuration, or without: an error, the
    error of a TLS handshake (the connection is then closed), or a connection with
    or without TLS. *)
Inductive attempt := AtErr (e : gerror) | AtTLSErr (e : gerror) | AtOk (tls : bool).
Definition try_connect (c : C) (host : string) (cfg : option tlsConfig) : Prog W (C * attempt) :=
  '(c, (_, err)) ← Connect c (mkEndpoint "" "" host (rt_smtpPort rt) "") false (mkTLSConfig "" false);
  match err with
  | Some e => mret (c, AtErr e)
  | None =>
    starttlsOk ← on_client c (fun cl => cl_Extension cl "STARTTLS");
    match cfg with
    | Some cfg =>
      if (starttlsOk : bool) then
        err ← on_client c (fun cl => cl_StartTLS cl cfg);
        match err with
        | Some e => c ← DirectClose c; mret (c, AtErr e)
        | None =>
          err ← on_client c (fun cl => cl_Hello cl (rt_hostname rt));
          match err with
          | Some e => c ← DirectClose c; mret (c, AtTLSErr e)
          | None => mret (c, AtOk true)
          end
        end
      else mret (c, AtOk false)
    | None => mret (c, AtOk false)
    end
  end.
Definition insecure (cfg : tlsConfig) : tlsConfig := mkTLSConfig (tc_ServerName cfg) true.

(** The retry loop of connect, at most [n] rounds: the level reached, the error that
    prevented a better one, the error. *)
Fixpoint connect_loop (n : nat) (c : C) (host : string) (cfg : option tlsConfig) (tlsLevel : Z) (tlsErr : error)
    : Prog W (C * (Z * error * error)) :=
  match n with
  | O => panic "out of fuel"
  | S n =>
    '(c, r) ← try_connect c host cfg;
    match r, cfg with
    | AtErr e, _ => mret (c, (TLSNone, None, Some e))
    | AtOk tls, _ => mret (c, (if (tls : bool) then tlsLevel else TLSNone, tlsErr, None))
    | AtTLSErr e, Some cfg =>
      if is_verify_error e && (tlsLevel =? TLSAuthenticated)
      then connect_loop n c host (Some (insecure cfg)) TLSEncrypted (Some e)
      else connect_loop n c host None TLSNone (Some e)
    | AtTLSErr e, None => connect_loop n c host None TLSNone (Some e)
    end
  end.
Definition connect (c : C) (host : string) : Prog W (C * (Z * error * error)) :=
  connect_loop 3 c host (option_map (with_ServerName host) (rt_tlsConfig rt)) TLSAuthenticated None.

(** ** attemptMX *)

Fixpoint check_mx (ps : list policy) (mxLevel : Z) (domain host : string) (dnssec : bool) : Prog W (Z * error) :=
  match ps with
  | [] => mret (mxLevel, None)
  | p :: ps =>
    '(level, err) ← pol_CheckMX p mxLevel domain host dnssec;
    match err with
    | Some _ => mret (mxLevel, err)
    | None => pol_PrepareConn p host ;; check_mx ps (if mxLevel <? level then level else mxLevel) domain host dnssec
    end
  end.
Fixpoint check_conn (ps : list policy) (mxLevel tlsLevel : Z) (domain host : string) (st : tls_state) : Prog W (Z * error) :=
  match ps with
  | [] => mret (tlsLevel, None)
  | p :: ps =>
    '(level, err) ← pol_CheckConn p mxLevel tlsLevel domain host st;
    match err with
    | Some _ => mret (tlsLevel, err)
    | None => check_conn ps mxLevel (if tlsLevel <? level then level else tlsLevel) domain host st
    end
  end.

Definition attemptMX (ps : list policy) (conn : mxConn) (host : string) : Prog W (mxConn * error) :=
  '(mxLevel, err) ← check_mx ps MXNone (mc_domain conn) host (mc_dnssecOk conn);
  match err with
  | Some _ => mret (conn, err)
  | None =>
    '(c, (tlsLevel, tlsErr, err)) ← connect (mc_C conn) host;
    let conn := mc_set_C c conn in
    match err with
    | Some _ => mret (conn, err)
    | None =>
      st ← on_client c cl_TLSConnectionState;
      '(tlsLevel, err) ← check_conn ps mxLevel tlsLevel (mc_domain conn) host st;
      match err with
      | Some _ =>
        conn ← mc_Close conn;
        mret (conn, Some (WithFields err {[ "tls_err" := match tlsErr with Some e => FOpaque (Error e) | None => FNil end ]}))
      | None => mret (mc_set_levels mxLevel tlsLevel conn, None)
      end
    end
  end.

(** ** newConn *)

Definition err_mx_lookup (err : gerror) : gerror :=
  let '(reason, misc) := UnwrapDNSErr (Some err) in
  ESMTP (SMTPCode (Some err) 451 554) (SMTPEnchCode (Some err) (Ench 0 4 4)) "MX lookup error" "" "remote" "" reason (Some err) misc.
Definition lookupMX (domain : string) : Prog W (Result gerror (bool * list MX)) :=
  r ← match rt_extResolver rt with
      | Some res =>
        '(ad, records, err) ← AuthLookupMX res domain;
        mret (match err with Some e => Err e | None => Ok (ad, records) end)
      | None =>
        r ← rt_LookupMX rt (dns_Fqdn domain);
        mret (match r with Ok records => Ok (false, records) | Err e => Err e end)
      end;
  match r with
  | Err e => mret (Err (err_mx_lookup e))
  | Ok (ad, records) =>
    let records := sort_mx records in
    mret (Ok (ad, match records with [] => [mkMX domain 0] | _ => records end))
  end.

Definition err_null_mx : gerror := smtp_error 556 (Ench 5 1 10) "Domain does not accept email (null MX)" None.
Definition err_no_mx (domain : string) (lastErr : gerror) : gerror :=
  ESMTP (SMTPCode (Some lastErr) 451 550) (SMTPEnchCode (Some lastErr) (Ench 0 4 0))
    ("No usable MXs, last err: " +:+ Error lastErr) "" "remote" "" "" (Some lastErr) {[ "domain" := FStr domain ]}.

Fixpoint try_records (ps : list policy) (conn : mxConn) (records : list MX) (lastErr : error) : Prog W (Result gerror (mxConn * error)) :=
  match records with
  | [] => mret (Ok (conn, lastErr))
  | record :: records =>
    if decide (mx_Host record = ".") then mret (Err err_null_mx)
    else
      '(conn, err) ← attemptMX ps conn (mx_Host record);
      match err with
      | Some _ => try_records ps conn records err
      | None => mret (Ok (conn, lastErr))
      end
  end.
Definition newConn (ps : list policy) (domain : string) : Prog W (Result gerror mxConn) :=
  now ← rt_now rt;
  let c := mkC (rt_hostname rt) true "" None [] false in
  let conn := mkMxConn c domain false false (rt_connReuseLimit rt) 0 now MXNone TLSNone in
  for_each (fun p => pol_PrepareDomain p domain) ps ;;
  r ← lookupMX domain;
  match r with
  | Err e => mret (Err e)
  | Ok (dnssecOk, records) =>
    r ← try_records ps (mc_set_dnssec dnssecOk conn) records None;
    match r with
    | Err e => mret (Err e)
    | Ok (conn, lastErr) =>
      match c_cl (mc_C conn), lastErr with
      | Some _, _ => mret (Ok conn)
      | None, Some e => mret (Err (err_no_mx domain e))
      | None, None => panic "invalid memory address or nil pointer dereference"
      end
    end
  end.

(** ** connectionForDomain *)

Definition err_requiretls (msg field level : string) : gerror :=
  ESMTP 550 (Ench 5 7 30) msg "" "" "" "" None {[ field := FStr level ]}.
Definition err_requiretls_tls (conn : mxConn) : gerror :=
  err_requiretls "TLS it not available or unauthenticated but required (REQUIRETLS)" "tls_level" (TLSLevel_String (mc_tlsLevel conn)).
Definition err_requiretls_mx (conn : mxConn) : gerror :=
  err_requiretls "Failed to establish the MX record authenticity (REQUIRETLS)" "mx_level" (MXLevel_String (mc_mxLevel conn)).

(** A pooled connection, unless REQUIRETLS is asked for, or a new one *)
Definition get_conn (rd : remoteDelivery) (domain : string) : Prog W (Result gerror mxConn) :=
  pooled ← rt_pool_Get rt domain;
  match pooled with
  | Err e => mret (Err e)
  | Ok (Some conn) => if rd_RequireTLS rd then newConn (rd_policies rd) domain else mret (Ok conn)
  | Ok None => newConn (rd_policies rd) domain
  end.

Definition refuse (rd : remoteDelivery) (conn : mxConn) (err : gerror) : Prog W (remoteDelivery * Result gerror mxConn) :=
  mc_Close conn ;; mret (rd, Err err).

(** The part after the REQUIRETLS checks *)
Definition start_mail (rd : remoteDelivery) (conn : mxConn) (domain : string) : Prog W (remoteDelivery * Result gerror mxConn) :=
  err ← rt_TakeDest rt domain;
  match err with
  | Some e => refuse rd conn e
  | None =>
    ok ← on_client (mc_C conn) (fun cl => cl_Extension cl "REQUIRETLS");
    let rd := if rt_relaxedREQUIRETLS rt && negb (ok : bool) then rd_set_meta (no_RequireTLS (rd_msgMeta rd)) rd else rd in
    err ← C_Mail (mc_C conn) (rd_mailFrom rd) (mm_SMTPOpts (rd_msgMeta rd));
    match err with
    | Some e => refuse rd conn e
    | None =>
      now ← rt_now rt;
      let conn := mc_used now conn in
      mret (rd_set_conns (<[domain := conn]> (rd_connections rd)) rd, Ok conn)
    end
  end.

Definition connectionForDomain (rd : remoteDelivery) (domain : string) : Prog W (remoteDelivery * Result gerror mxConn) :=
  match rd_connections rd !! domain with
  | Some conn => mret (rd, Ok conn)
  | None =>
    r ← get_conn rd domain;
    match r with
    | Err e => mret (rd, Err e)
    | Ok conn =>
      if rd_RequireTLS rd then
        if mc_tlsLevel conn <? TLSAuthenticated then refuse rd conn (err_requiretls_tls conn)
        else if mc_mxLevel conn <? MX_MTASTS then refuse rd conn (err_requiretls_mx conn)
        else start_mail rd conn domain
      else start_mail rd conn domain
    end
  end.

(** ** The delivery *)

Definition remote_error (code : Z) (ench : EnhancedCode) (msg : string) (inner : error) : gerror :=
  ESMTP code ench msg "" "remote" "" "" inner ∅.
Definition limit_addr (m : MsgMetadata) : string :=
  default "127.0.0.1" (conn ← mm_Conn m; addr ← cs_RemoteAddr conn; tcp_ip addr).
Definition ratelimitDomain (mailFrom : string) : Result gerror string :=
  if decide (mailFrom = "") then Ok "" else match Split mailFrom with Ok (_, domain) => Ok domain | Err e => Err e end.

Definition rt_Start (msgMeta : MsgMetadata) (mailFrom : string) : Prog W (Result gerror remoteDelivery) :=
  let policies := if mm_TLSRequireOverride msgMeta && rt_allowSecOverride rt then [] else rt_policies rt in
  match ratelimitDomain mailFrom with
  | Err e => mret (Err (remote_error 501 (Ench 5 1 8) "Malformed sender address" (Some e)))
  | Ok domain =>
    err ← rt_TakeMsg rt (limit_addr msgMeta) domain;
    match err with
    | Some e => mret (Err (ESMTP 451 (Ench 4 4 5) "High load, try again later" "" "remote" "" "Global limit timeout" (Some e) ∅))
    | None => mret (Ok (mkRD mailFrom msgMeta [] ∅ policies))
    end
  end.

Definition moduleError (err : error) : gerror := WithFields err {[ "target" := FStr "remote" ]}.

Definition rd_AddRcpt (rd : remoteDelivery) (to : string) : Prog W (remoteDelivery * error) :=
  if mm_Quarantine (rd_msgMeta rd) then
    mret (rd, Some (remote_error 550 (Ench 5 7 0) "Refusing to deliver a quarantined message" None))
  else
    match Split to with
    | Err e => mret (rd, Some e)
    | Ok (_, domain) =>
      if decide (domain = "") then
        mret (rd, Some (remote_error 550 (Ench 5 1 1) "<postmaster> address it no supported" None))
      else if HasPrefix domain "[" then
        mret (rd, Some (remote_error 550 (Ench 5 1 1) "IP address literals are not supported" None))
      else
        '(rd, r) ← connectionForDomain rd domain;
        match r with
        | Err e => mret (rd, Some e)
        | Ok conn =>
          '(c, err) ← C_Rcpt (mc_C conn) to;
          let conn := mc_set_C c conn in
          match err with
          | Some _ => mret (rd_set_conns (<[domain := conn]> (rd_connections rd)) rd, Some (moduleError err))
          | None =>
            now ← rt_now rt;
            mret (rd_add_rcpt to (rd_set_conns (<[domain := mc_used now conn]> (rd_connections rd)) rd), None)
          end
        end
    end.

(** The goroutine of one connection: the statuses it sets *)
Definition send_body (open : Prog W (Result gerror string)) (hdr : header) (conn : mxConn) : Prog W (mxConn * list (string * error)) :=
  body ← open;
  match body with
  | Err e => mret (conn, map (fun rcpt => (rcpt, Some e)) (c_rcpts (mc_C conn)))
  | Ok body =>
    err ← C_Data (mc_C conn) hdr body;
    now ← rt_now rt;
    mret (mc_used now (mc_set_errored (match err with Some _ => true | None => false end) conn),
          map (fun rcpt => (rcpt, err)) (c_rcpts (mc_C conn)))
  end.
(** The goroutines in the order in which they end: the domains in [order] *)
Fixpoint send_bodies (open : Prog W (Result gerror string)) (hdr : header) (order : list string) (conns : gmap string mxConn)
    : Prog W (gmap string mxConn * list (string * error)) :=
  match order with
  | [] => mret (conns, [])
  | domain :: order =>
    match conns !! domain with
    | None => send_bodies open hdr order conns
    | Some conn =>
      '(conn, statuses) ← send_body open hdr conn;
      '(conns, rest) ← send_bodies open hdr order (<[domain := conn]> conns);
      mret (conns, statuses ++ rest)
    end
  end.

Definition rd_BodyNonAtomic (order : list string) (rd : remoteDelivery) (hdr : header) (open : Prog W (Result gerror string))
    : Prog W (remoteDelivery * list (string * error)) :=
  if mm_Quarantine (rd_msgMeta rd) then
    mret (rd, map (fun rcpt => (rcpt, Some (remote_error 550 (Ench 5 7 0) "Refusing to deliver quarantined message" None))) (rd_recipients rd))
  else
    '(conns, statuses) ← send_bodies open hdr order (rd_connections rd);
    mret (rd_set_conns conns rd, statuses).

(** multipleErrs: the map of the last status of each recipient, and its fields *)
Definition status_map (statuses : list (string * error)) : gmap string error := foldl (fun m p => <[p.1 := p.2]> m) ∅ statuses.
Definition multipleErrs_Fields (errs : gmap string error) : fields :=
  let temporary := existsb IsTemporary (map snd (map_to_list errs)) in
  <["errs" := FOpaque "errs"]> (<["target" := FStr "remote"]>
   (<["smtp_msg" := FStr "Partial delivery failure, additional attempts may result in duplicates"]>
    (<["smtp_enchcode" := FEnch (if temporary then Ench 4 0 0 else Ench 5 0 0)]>
     {[ "smtp_code" := FInt (if temporary then 451 else 550) ]}))).
Definition multipleErrs (errs : gmap string error) : gerror :=
  EForeign "Partial delivery failure, per-rcpt info" None (Some (multipleErrs_Fields errs)) None.

Definition rd_Body (order : list string) (rd : remoteDelivery) (hdr : header) (open : Prog W (Result gerror string)) : Prog W (remoteDelivery * error) :=
  '(rd, statuses) ← rd_BodyNonAtomic order rd hdr open;
  let errs := status_map statuses in
  match omap snd (map_to_list errs) with
  | [] => mret (rd, None)
  | v :: _ => mret (rd, Some (if (size errs =? 1)%nat then v else multipleErrs errs))
  end.

(** Close: also Abort and Commit *)
Definition close_conn (conn : mxConn) : Prog W unit :=
  rt_ReleaseDest rt (mc_domain conn) ;;
  let conn := mc_count conn in
  usable ← Usable conn;
  if (usable : bool) then rt_pool_Return rt (mc_domain conn) conn else mc_Close conn ;; mret tt.
Definition rd_Close (order : list string) (rd : remoteDelivery) : Prog W error :=
  for_each (fun domain => match rd_connections rd !! domain with Some conn => close_conn conn | None => mret tt end) order ;;
  match ratelimitDomain (rd_mailFrom rd) with
  | Err e => mret (Some e)
  | Ok domain => rt_ReleaseMsg rt (limit_addr (rd_msgMeta rd)) domain ;; mret None
  end.
Definition rd_Abort := rd_Close.
Definition rd_Commit := rd_Close.
End Remote.
