(* ===== verification/RemoteFacts.v ===== *)
(** * RemoteFacts: what the remote target promises

    The rounds of connect and the level they reach, the policies an accepted
    connection has passed, DANE, and REQUIRETLS. *)
From S2P Require Import Prelude GoStr ExtErrors Address Checks Module ConfigEndpoint SmtpConn Dns MXAuth Remote.
From stdpp Require Import gmap.
From Stdlib Require Import ZifyBool.

Local Open Scope Z_scope.

(** Invert a program that returned, down to its calls. *)
Ltac run H :=
  repeat first
    [ inv_prog H
    | progress cbv [mret prog_ret panic nil_client modify gets] in H
    | progress simplify_eq/=
    | case_on_hyp H ].

(** ** Connecting *)

Section Connect.
Context `{Textproto} `{UnicodeTables} `{TextLib} {W : Type} `{!SmtpLib W} `{!DnsLib W}.
Context (rt : Target (W := W)).
Implicit Types (c : C) (w : W).

(** The connection went to TLS with this configuration, and was used right after. *)
Definition secured (cl : Client) (cfg : tlsConfig) (w : W) : Prop :=
  exists w1 w2, cl_StartTLS cl cfg w1 = (w2, Done None) /\ cl_Hello cl (rt_hostname rt) w2 = (w, Done None).

(** The rounds of connect, written out: full verification, TLS without
    authentication when the certificate is what failed, plaintext. *)
Definition plain_round (c : C) (host : string) (tlsErr : gerror) : Prog W (C * (Z * error * error)) :=
  '(c, r) ← try_connect rt c host None;
  mret (c, match r with
           | AtErr e | AtTLSErr e => (TLSNone, None, Some e)
           | AtOk _ => (TLSNone, Some tlsErr, None)
           end).
Definition encrypted_round (c : C) (host : string) (cfg : tlsConfig) (tlsErr : gerror) : Prog W (C * (Z * error * error)) :=
  '(c, r) ← try_connect rt c host (Some (insecure cfg));
  match r with
  | AtErr e => mret (c, (TLSNone, None, Some e))
  | AtOk tls => mret (c, (if (tls : bool) then TLSEncrypted else TLSNone, Some tlsErr, None))
  | AtTLSErr e => plain_round c host e
  end.
Definition connect_rounds (c : C) (host : string) : Prog W (C * (Z * error * error)) :=
  let cfg := option_map (with_ServerName host) (rt_tlsConfig rt) in
  '(c, r) ← try_connect rt c host cfg;
  match r with
  | AtErr e => mret (c, (TLSNone, None, Some e))
  | AtOk tls => mret (c, (if (tls : bool) then TLSAuthenticated else TLSNone, None, None))
  | AtTLSErr e =>
    match cfg with
    | Some cfg => if is_verify_error e then encrypted_round c host cfg e else plain_round c host e
    | None => plain_round c host e
    end
  end.

Lemma try_connect_plain c host w w' c' r :
  try_connect rt c host None w = (w', Done (c', r)) -> match r with AtTLSErr _ => False | AtOk tls => tls = false | AtErr _ => True end.
Proof. intros E. unfold try_connect in E. run E; try done. Qed.

Lemma try_connect_tls c host cfg w w' c' :
  try_connect rt c host cfg w = (w', Done (c', AtOk true)) ->
  exists cl cfg0, cfg = Some cfg0 /\ c_cl c' = Some cl /\ secured cl cfg0 w'.
Proof.
  intros E. unfold try_connect, on_client in E. run E; unfold secured.
  destruct (c_cl c'); simplify_eq/=; eauto 10.
Qed.

Lemma connect_loop_plain n c host level e w :
  connect_loop rt (S n) c host None level (Some e) w = plain_round c host e w.
Proof.
  simpl. unfold plain_round, mbind, prog_bind.
  destruct (try_connect rt c host None w) as [w1 [[c1 r]|why]] eqn:E; [|done].
  apply try_connect_plain in E. destruct r as [?|?|tls]; simplify_eq/=; done.
Qed.

Lemma connect_loop_encrypted n c host cfg e w :
  connect_loop rt (S (S n)) c host (Some (insecure cfg)) TLSEncrypted (Some e) w = encrypted_round c host cfg e w.
Proof.
  cbn [connect_loop]. unfold encrypted_round, mbind, prog_bind.
  destruct (try_connect rt c host (Some (insecure cfg)) w) as [w1 [[c1 r]|why]]; [|done].
  destruct r as [?|e1|tls]; try done.
  rewrite andb_false_r. apply connect_loop_plain.
Qed.

Lemma connect_loop_rounds n c host w :
  connect_loop rt (3 + n) c host (option_map (with_ServerName host) (rt_tlsConfig rt)) TLSAuthenticated None w
  = connect_rounds c host w.
Proof.
  unfold connect_rounds. simpl (3 + n)%nat. cbn [connect_loop]. unfold mbind, prog_bind.
  destruct (try_connect rt c host _ w) as [w1 [[c1 r]|why]] eqn:E; [|done].
  destruct r as [?|e1|tls]; try done.
  destruct (rt_tlsConfig rt) as [cfg|]; simpl.
  - rewrite andb_true_r. destruct (is_verify_error e1).
    + exact (connect_loop_encrypted n c1 host _ e1 w1).
    + exact (connect_loop_plain (S n) c1 host TLSNone e1 w1).
  - exact (connect_loop_plain (S n) c1 host TLSNone e1 w1).
Qed.
(** The retry loop of connect ends.  Three rounds are always enough, whatever the
    server does: with any bound of three or more the loop does what the three rounds
    do, written out one after the other. *)
Theorem connect_terminates c host w :
  connect rt c host w = connect_rounds c host w /\
  forall n, connect_loop rt (3 + n) c host (option_map (with_ServerName host) (rt_tlsConfig rt)) TLSAuthenticated None w
            = connect_rounds c host w.
Proof.
  split; [exact (connect_loop_rounds 0 c host w)|exact (fun n => connect_loop_rounds n c host w)].
Qed.

(** A level is only reported for a connection that reached it.  When connect
    succeeds, "authenticated" means that STARTTLS with the configured verification of
    that host, and the greeting over TLS, both succeeded on the client it leaves;
    "encrypted" means the same with verification switched off, after a verification
    error; a plaintext connection is reported as such. *)
Theorem connect_levels c host w w' c' level tlsErr :
  connect rt c host w = (w', Done (c', (level, tlsErr, None))) ->
  level = TLSNone \/
  exists cl cfg, c_cl c' = Some cl /\ rt_tlsConfig rt = Some cfg /\
    ((level = TLSAuthenticated /\ secured cl (with_ServerName host cfg) w' /\ tlsErr = None) \/
     (level = TLSEncrypted /\ secured cl (insecure (with_ServerName host cfg)) w' /\
      exists e, tlsErr = Some e /\ is_verify_error e = true)).
Proof.
  intros E. change (connect_loop rt (3 + 0) c host (option_map (with_ServerName host) (rt_tlsConfig rt)) TLSAuthenticated None w
    = (w', Done (c', (level, tlsErr, None)))) in E.
  rewrite connect_loop_rounds in E. unfold connect_rounds, encrypted_round, plain_round in E.
  destruct (rt_tlsConfig rt) as [cfg|]; simpl in E; run E.
  all: repeat match goal with a : attempt |- _ => destruct a; simplify_eq/= end; auto.
  all: match goal with tls : bool |- _ => destruct tls; [right|by left] end.
  all: match goal with Ht : try_connect _ _ _ _ _ = (_, Done (_, AtOk true)) |- _ =>
         apply try_connect_tls in Ht as (cl & cfg' & ? & ? & ?); simplify_eq end.
  all: exists cl, cfg; eauto 10.
Qed.
End Connect.

(** ** Policies *)

Section Policies.
Context `{Textproto} `{UnicodeTables} `{TextLib} {W : Type} `{!SmtpLib W} `{!DnsLib W}.
Context (cl_TLSConnectionState : Client -> Prog W tls_state) (sort_mx : list MX -> list MX).
Context (rt : Target (W := W)).
Notation policy := (policy (W := W)).
Implicit Types (p : policy) (ps : list policy) (w : W).

(** A policy let a server, or a connection to it, pass: it was asked with a level not
    above the final one, and answered with a level not above the final one. *)
Definition mx_accepted (p : policy) (domain host : string) (dnssec : bool) (mx : Z) : Prop :=
  exists w w' asked level, asked <= mx /\ level <= mx /\ pol_CheckMX p asked domain host dnssec w = (w', Done (level, None)).
Definition conn_accepted (p : policy) (domain host : string) (mx tls : Z) (st : tls_state) : Prop :=
  exists w w' asked level, asked <= tls /\ level <= tls /\ pol_CheckConn p mx asked domain host st w = (w', Done (level, None)).

(** A level is earned when a policy answered it. *)
Definition mx_earned (ps : list policy) (domain host : string) (dnssec : bool) (mx : Z) : Prop :=
  exists p w w' asked, p ∈ ps /\ pol_CheckMX p asked domain host dnssec w = (w', Done (mx, None)).
Definition tls_earned (ps : list policy) (domain host : string) (mx tls : Z) (st : tls_state) : Prop :=
  exists p w w' asked, p ∈ ps /\ pol_CheckConn p mx asked domain host st w = (w', Done (tls, None)).

Lemma check_mx_accepted ps mx0 domain host dnssec w w' mx :
  check_mx ps mx0 domain host dnssec w = (w', Done (mx, None)) ->
  mx0 <= mx /\ (mx = mx0 \/ mx_earned ps domain host dnssec mx) /\ forall p, p ∈ ps -> mx_accepted p domain host dnssec mx.
Proof.
  revert mx0 w. induction ps as [|p ps IH]; intros mx0 w E; simpl in E; run E.
  { split_and!; [lia|by left|intros p Hp; by apply elem_of_nil in Hp]. }
  all: match goal with Hr : check_mx _ _ _ _ _ _ = _ |- _ => apply IH in Hr as (Hle & Hearn & Hacc) end.
  all: split_and!; [lia| |intros p' [->|Hp]%elem_of_cons; [|by auto]; do 4 eexists; split_and!; [..|done]; lia].
  all: destruct Hearn as [->|(p' & ? & ? & ? & ? & ?)]; [try (by left); right|right].
  all: unfold mx_earned; eauto 10 using list_elem_of_here, list_elem_of_further.
Qed.

Lemma check_conn_accepted ps mx tls0 domain host st w w' tls :
  check_conn ps mx tls0 domain host st w = (w', Done (tls, None)) ->
  tls0 <= tls /\ (tls = tls0 \/ tls_earned ps domain host mx tls st) /\ forall p, p ∈ ps -> conn_accepted p domain host mx tls st.
Proof.
  revert tls0 w. induction ps as [|p ps IH]; intros tls0 w E; simpl in E; run E.
  { split_and!; [lia|by left|intros p Hp; by apply elem_of_nil in Hp]. }
  all: match goal with Hr : check_conn _ _ _ _ _ _ _ = _ |- _ => apply IH in Hr as (Hle & Hearn & Hacc) end.
  all: split_and!; [lia| |intros p' [->|Hp]%elem_of_cons; [|by auto]; do 4 eexists; split_and!; [..|done]; lia].
  all: destruct Hearn as [->|(p' & ? & ? & ? & ? & ?)]; [try (by left); right|right].
  all: unfold tls_earned; eauto 10 using list_elem_of_here, list_elem_of_further.
Qed.

(** What a connection that attemptMX accepted has been through: connect on that host,
    then every policy, on the way to the levels it carries. *)
Definition vetted (ps : list policy) (conn : mxConn) (dnssec : bool) : Prop :=
  let domain := mc_domain conn in
  exists host cl st c w1 w2 w3 w4 reached tlsErr,
    connect rt c host w1 = (w2, Done (mc_C conn, (reached, tlsErr, None))) /\
    c_cl (mc_C conn) = Some cl /\ cl_TLSConnectionState cl w3 = (w4, Done st) /\
    (mc_mxLevel conn = MXNone \/ mx_earned ps domain host dnssec (mc_mxLevel conn)) /\
    (mc_tlsLevel conn = reached \/ tls_earned ps domain host (mc_mxLevel conn) (mc_tlsLevel conn) st) /\
    forall p, p ∈ ps -> mx_accepted p domain host dnssec (mc_mxLevel conn) /\
                        conn_accepted p domain host (mc_mxLevel conn) (mc_tlsLevel conn) st.

Lemma attemptMX_vetted ps conn host w w' conn' :
  attemptMX cl_TLSConnectionState rt ps conn host w = (w', Done (conn', None)) ->
  mc_domain conn' = mc_domain conn /\ vetted ps conn' (mc_dnssecOk conn).
Proof.
  intros E. unfold attemptMX, on_client in E. run E.
  split; [done|].
  match goal with Hm : check_mx _ _ _ _ _ _ = _ |- _ => apply check_mx_accepted in Hm as (? & ? & Hmx) end.
  match goal with Hc : check_conn _ _ _ _ _ _ _ = _ |- _ => apply check_conn_accepted in Hc as (? & ? & Hconn) end.
  destruct (c_cl _) as [cl|] eqn:Ecl; simplify_eq/=.
  unfold vetted; simpl. do 10 eexists. split_and!; eauto.
Qed.

(** C6: a connection that attemptMX accepts has passed every policy.  Each of them
    accepted the server and the connection, asked with levels not above the ones the
    connection is given; these levels are those connect reached or a policy answered,
    so nothing else raises them; and they are not below the minimum of any local
    policy of the target. *)
Theorem attemptMX_policies ps conn host w w' conn' :
  attemptMX cl_TLSConnectionState rt ps conn host w = (w', Done (conn', None)) ->
  vetted ps conn' (mc_dnssecOk conn) /\
  forall l, local_policy l ∈ ps -> lp_minMXLevel l <= mc_mxLevel conn' /\ lp_minTLSLevel l <= mc_tlsLevel conn'.
Proof.
  intros [Hdom Hv]%attemptMX_vetted. split; [done|]. intros l Hl.
  destruct Hv as (host' & cl & st & c & w1 & w2 & w3 & w4 & reached & tlsErr & _ & _ & _ & _ & _ & Hall).
  destruct (Hall _ Hl) as [(v1 & v1' & a1 & l1 & ? & ? & Emx) (v2 & v2' & a2 & l2 & ? & ? & Etls)].
  cbn in Emx, Etls. unfold local_CheckMX, local_CheckConn in *. run Emx. run Etls. lia.
Qed.

(** A connection that was never accepted carries no level; newConn can return one when
    a refused server made QUIT fail. *)
Definition unrated (conn : mxConn) : Prop := mc_mxLevel conn = MXNone /\ mc_tlsLevel conn = TLSNone.

Lemma mc_Close_levels conn w w' conn' :
  mc_Close conn w = (w', Done conn') ->
  mc_domain conn' = mc_domain conn /\ mc_mxLevel conn' = mc_mxLevel conn /\ mc_tlsLevel conn' = mc_tlsLevel conn /\
  mc_dnssecOk conn' = mc_dnssecOk conn.
Proof. intros E. unfold mc_Close in E. by run E. Qed.

Lemma attemptMX_refused ps conn host w w' conn' e :
  attemptMX cl_TLSConnectionState rt ps conn host w = (w', Done (conn', Some e)) ->
  mc_domain conn' = mc_domain conn /\ mc_mxLevel conn' = mc_mxLevel conn /\ mc_tlsLevel conn' = mc_tlsLevel conn /\
  mc_dnssecOk conn' = mc_dnssecOk conn.
Proof.
  intros E. unfold attemptMX in E. run E; try done.
  match goal with Hc : mc_Close _ _ = _ |- _ => by apply mc_Close_levels in Hc end.
Qed.

Lemma try_records_vetted ps conn records lastErr w w' conn' e :
  try_records cl_TLSConnectionState rt ps conn records lastErr w = (w', Done (Ok (conn', e))) -> unrated conn ->
  mc_domain conn' = mc_domain conn /\ (unrated conn' \/ vetted ps conn' (mc_dnssecOk conn)).
Proof.
  revert conn lastErr w. induction records as [|r records IH]; intros conn lastErr w E Hun; simpl in E; run E; [by auto| |].
  - match goal with Ha : attemptMX _ _ _ _ _ _ = _ |- _ => apply attemptMX_refused in Ha as (Hd & Hm & Ht & Hs) end.
    rewrite <- Hd, <- Hs. eapply IH; [eassumption|]. destruct Hun. unfold unrated. split; congruence.
  - match goal with Ha : attemptMX _ _ _ _ _ _ = _ |- _ => apply attemptMX_vetted in Ha as [? ?] end. auto.
Qed.

Lemma newConn_vetted ps domain w w' conn :
  newConn cl_TLSConnectionState sort_mx rt ps domain w = (w', Done (Ok conn)) ->
  mc_domain conn = domain /\ (unrated conn \/ exists dnssec, vetted ps conn dnssec).
Proof.
  intros E. unfold newConn in E. run E.
  match goal with Ht : try_records _ _ _ _ _ _ _ = _ |- _ => apply try_records_vetted in Ht as (Hd & Hv); [|by split] end.
  simpl in *. split; [done|]. destruct Hv; eauto.
Qed.

Lemma start_mail_conn rd conn domain w w' rd' conn' :
  start_mail rt rd conn domain w = (w', Done (rd', Ok conn')) ->
  conn' = mc_used (mc_lastUseAt conn') conn /\ rd_connections rd' = <[domain := conn']> (rd_connections rd).
Proof. intros E. unfold start_mail, refuse in E. run E; split; [done|by destruct (_ && _)]. Qed.

Lemma get_conn_requiretls rd domain w w' conn :
  rd_RequireTLS rd = true -> get_conn cl_TLSConnectionState sort_mx rt rd domain w = (w', Done (Ok conn)) ->
  exists w1, newConn cl_TLSConnectionState sort_mx rt (rd_policies rd) domain w1 = (w', Done (Ok conn)).
Proof. intros Hreq E. unfold get_conn in E. rewrite Hreq in E. run E; eauto. Qed.

(** C5: REQUIRETLS is enforced.  When a message asks for it, a connection that
    connectionForDomain opens for a domain is a new one, never one of the pool: it
    passed every policy of the delivery, the server's certificate was authenticated
    by connect or by a policy (DANE), the MX record was authenticated by a policy
    (MTA-STS or DNSSEC), and it is the connection kept for that domain. *)
Theorem requiretls_enforced rd domain w w' rd' conn :
  rd_RequireTLS rd = true -> rd_connections rd !! domain = None ->
  connectionForDomain cl_TLSConnectionState sort_mx rt rd domain w = (w', Done (rd', Ok conn)) ->
  TLSAuthenticated <= mc_tlsLevel conn /\ MX_MTASTS <= mc_mxLevel conn /\ mc_domain conn = domain /\
  (exists dnssec, vetted (rd_policies rd) conn dnssec) /\ rd_connections rd' !! domain = Some conn.
Proof.
  intros Hreq Hnone E. unfold connectionForDomain, refuse in E.
  rewrite Hnone, Hreq in E. run E.
  all: match goal with Hs : start_mail _ _ _ _ _ = _ |- _ => apply start_mail_conn in Hs as [Hc ->] end.
  all: match goal with Hn : get_conn _ _ _ _ _ _ = _ |- _ =>
         apply get_conn_requiretls in Hn as [w1 (? & Hv)%newConn_vetted]; [|done] end.
  all: rewrite Hc; simpl; unfold TLSAuthenticated, MX_MTASTS in *; split_and!; try lia; try done.
  all: try by rewrite lookup_insert_eq, <- Hc.
  all: destruct Hv as [[Hmx Htls]|[d Hv]]; [unfold TLSNone in *; lia|by exists d].
Qed.
End Policies.

(** ** DANE *)

Section Dane.
Context `{Textproto} {W : Type} `{!SmtpLib W} `{!DnsLib W} `{!PolicyWorld (W := W)}.
Implicit Types (recs : list TLSA) (st : tls_state (W := W)) (w : W).

(** The certificates of the connection that a usable DANE-TA record asserts *)
Definition trust_anchor (recs : list TLSA) (cert : Cert) : Prop :=
  exists rec, rec ∈ recs /\ usable 2 rec = true /\ cert_IsCA cert = true /\ tlsa_Verify rec cert = true.

(** The reference: what RFC 7672 asks of the records and of the certificates. *)
Inductive dane_verdict (recs : list TLSA) (st : tls_state) : Outcome (bool * error) -> Prop :=
| dane_absent : recs = [] -> dane_verdict recs st (Done (false, None))
| dane_no_tls : recs <> [] -> ts_HandshakeComplete st = false ->
    dane_verdict recs st (Done (false, Some (dane_error 550 (Ench 5 7 1)
      "TLS is required but unsupported or failed (enforced by DANE)" (ts_ServerName st))))
| dane_unusable : recs <> [] -> ts_HandshakeComplete st = true ->
    (forall rec, rec ∈ recs -> usable 2 rec = false /\ usable 3 rec = false) -> dane_verdict recs st (Done (false, None))
| dane_no_cert rec : ts_HandshakeComplete st = true -> rec ∈ recs -> usable 2 rec || usable 3 rec = true ->
    ts_PeerCertificates st = [] -> dane_verdict recs st (Panicked "index out of range [0] with length 0")
| dane_ee rec leaf certs : ts_HandshakeComplete st = true -> ts_PeerCertificates st = leaf :: certs ->
    rec ∈ recs -> usable 3 rec = true -> tlsa_Verify rec leaf = true -> dane_verdict recs st (Done (true, None))
| dane_ta rec leaf certs roots intermediates : ts_HandshakeComplete st = true -> ts_PeerCertificates st = leaf :: certs ->
    rec ∈ recs -> usable 2 rec = true ->
    (forall cert, cert ∈ roots <-> cert ∈ leaf :: certs /\ trust_anchor recs cert) ->
    (forall cert, cert ∈ intermediates <-> cert ∈ leaf :: certs /\ ~ trust_anchor recs cert) ->
    x509_Verify leaf (ts_ServerName st) roots intermediates = true -> dane_verdict recs st (Done (true, None))
| dane_mismatch rec leaf certs b roots intermediates : ts_HandshakeComplete st = true ->
    ts_PeerCertificates st = leaf :: certs -> rec ∈ recs -> usable 2 rec || usable 3 rec = true ->
    (forall rec, rec ∈ recs -> usable 3 rec = true -> tlsa_Verify rec leaf = false) ->
    (forall cert, cert ∈ roots <-> cert ∈ leaf :: certs /\ trust_anchor recs cert) ->
    (forall cert, cert ∈ intermediates <-> cert ∈ leaf :: certs /\ ~ trust_anchor recs cert) ->
    ((exists rec, rec ∈ recs /\ usable 2 rec = true) -> x509_Verify leaf (ts_ServerName st) roots intermediates = false) ->
    dane_verdict recs st (Done (b, Some (dane_error 550 (Ench 5 7 0) "No matching TLSA records" (ts_ServerName st)))).

Lemma is_root_spec recs cert : is_root (taRecs recs) cert = true <-> trust_anchor recs cert.
Proof.
  unfold is_root, trust_anchor, taRecs. rewrite existsb_exists. setoid_rewrite <- list_elem_of_In.
  setoid_rewrite list_elem_of_filter. setoid_rewrite andb_true_iff. naive_solver.
Qed.

Lemma roots_spec recs certs cert :
  cert ∈ List.filter (is_root (taRecs recs)) certs <-> cert ∈ certs /\ trust_anchor recs cert.
Proof. by rewrite list_elem_of_In, filter_In, is_root_spec, list_elem_of_In. Qed.
Lemma intermediates_spec recs certs cert :
  cert ∈ List.filter (fun c => negb (is_root (taRecs recs) c)) certs <-> cert ∈ certs /\ ~ trust_anchor recs cert.
Proof.
  rewrite list_elem_of_In, filter_In, negb_true_iff, <- is_root_spec, list_elem_of_In. by rewrite not_true_iff_false.
Qed.
Lemma ee_match recs leaf :
  existsb (fun rec => tlsa_Verify rec leaf) (eeRecs recs) = true <->
  exists rec, rec ∈ recs /\ usable 3 rec = true /\ tlsa_Verify rec leaf = true.
Proof.
  unfold eeRecs. rewrite existsb_exists. setoid_rewrite <- list_elem_of_In. setoid_rewrite list_elem_of_filter. naive_solver.
Qed.
Lemma usable_nil (usage : Z) recs :
  filter (fun r => usable usage r = true) recs = [] <-> forall rec, rec ∈ recs -> usable usage rec = false.
Proof.
  split.
  - intros Hnil rec Hin. destruct (usable usage rec) eqn:Hu; [|done].
    assert (rec ∈ filter (fun r => usable usage r = true) recs) as Hf by (by apply list_elem_of_filter).
    rewrite Hnil in Hf. by apply elem_of_nil in Hf.
  - intros Hall. apply elem_of_nil_inv. intros rec [Hu Hin]%list_elem_of_filter. by rewrite Hall in Hu.
Qed.

Lemma usable_in (usage : Z) recs r l :
  filter (fun r => usable usage r = true) recs = r :: l -> r ∈ recs /\ usable usage r = true.
Proof.
  intros Hf. assert (r ∈ filter (fun r => usable usage r = true) recs) as Hin by (rewrite Hf; apply list_elem_of_here).
  apply list_elem_of_filter in Hin. tauto.
Qed.
Lemma usable_some recs rec :
  eeRecs recs = rec :: tail (eeRecs recs) \/ eeRecs recs = [] /\ taRecs recs = rec :: tail (taRecs recs) ->
  rec ∈ recs /\ usable 2 rec || usable 3 rec = true.
Proof. intros [Hu|[_ Hu]]; apply usable_in in Hu as [? ->]; split; auto using orb_true_r. Qed.

Lemma verdict_of recs st : dane_verdict recs st (verifyDANE recs st).
Proof.
  unfold verifyDANE. destruct recs as [|r0 recs0] eqn:Erecs; [by constructor|]. rewrite <- Erecs.
  assert (recs <> []) as Hne by (by rewrite Erecs). clear Erecs r0 recs0.
  destruct (ts_HandshakeComplete st) eqn:Hhs; simpl; [|by constructor].
  pose proof (usable_some recs) as Hsome.
  destruct (ts_PeerCertificates st) as [|leaf certs] eqn:Hcerts.
  { destruct (eeRecs recs) as [|ee ees] eqn:Hee; [destruct (taRecs recs) as [|ta tas] eqn:Hta|].
    - apply dane_unusable; [done..|]. intros rec Hin. split; by apply (proj1 (usable_nil _ recs)).
    - destruct (Hsome ta); [by right|]. by eapply dane_no_cert.
    - destruct (Hsome ee); [by left|]. by eapply dane_no_cert. }
  destruct (existsb (fun rec => tlsa_Verify rec leaf) (eeRecs recs)) eqn:Hmatch.
  { apply ee_match in Hmatch as (rec & Hin & Hu & Hv).
    destruct (eeRecs recs) as [|ee ees] eqn:Hee; [|by eapply dane_ee].
    by rewrite (proj1 (usable_nil 3 recs) Hee _ Hin) in Hu. }
  assert (forall rec, rec ∈ recs -> usable 3 rec = true -> tlsa_Verify rec leaf = false) as Hno.
  { intros rec Hin Hu. destruct (tlsa_Verify rec leaf) eqn:Hv; [|done].
    rewrite (proj2 (ee_match recs leaf)) in Hmatch; [done|eauto]. }
  destruct (taRecs recs) as [|ta tas] eqn:Hta.
  - destruct (eeRecs recs) as [|ee ees] eqn:Hee.
    + apply dane_unusable; [done..|]. intros rec Hin. split; by apply (proj1 (usable_nil _ recs)).
    + destruct (Hsome ee); [by left|].
      eapply dane_mismatch; eauto using roots_spec, intermediates_spec.
      intros (rec & Hin & Hu). by rewrite (proj1 (usable_nil 2 recs) Hta _ Hin) in Hu.
  - destruct (usable_in 2 recs ta tas Hta) as [Hin Hu]. rewrite <- Hta.
    replace (match eeRecs recs with [] => _ | _ :: _ => _ end)
      with (if x509_Verify leaf (ts_ServerName st) (List.filter (is_root (taRecs recs)) (leaf :: certs))
                 (List.filter (fun c => negb (is_root (taRecs recs) c)) (leaf :: certs)) then Done (true, None : error)
            else Done (false, Some (dane_error 550 (Ench 5 7 0) "No matching TLSA records" (ts_ServerName st))))
      by (destruct (eeRecs recs); rewrite Hta; done).
    destruct (x509_Verify _ _ _ _) eqn:Hx.
    + by eapply dane_ta; eauto using roots_spec, intermediates_spec.
    + eapply dane_mismatch; eauto using roots_spec, intermediates_spec. by rewrite Hu.
Qed.

(** VerifyDANE gives the verdict RFC 7672 prescribes.  No records, or only unusable
    ones over TLS, ask for nothing; records without TLS are refused; otherwise the
    verdict is authenticated exactly when a usable DANE-EE record matches the
    certificate of the server, or it verifies, for that name, up to a certificate of
    the chain that is a CA and matches a usable DANE-TA record; without certificates
    the index is out of range. *)
Theorem verifyDANE_verdict recs st : dane_verdict recs st (verifyDANE recs st).
Proof. apply verdict_of. Qed.

(** ** Authenticated records *)

(** The answer was given, with the AD bit, by a resolver of the loopback interface. *)
Definition ad_answer (e : ExtResolver) (name : string) (t : qtype) (m : dns_msg) : Prop :=
  exists srv w w', srv ∈ er_Servers e /\ is_loopback srv = true /\ msg_Rcode m = RcodeSuccess /\
    msg_AuthenticatedData m = true /\ dns_Exchange name t srv w = (w', Done (Ok m)).

Lemma exchange_loop_ad e name t servers resp lastErr w w' m :
  (forall srv, srv ∈ servers -> srv ∈ er_Servers e) ->
  exchange_loop name t servers resp lastErr w = (w', Done (Some m, None)) -> msg_AuthenticatedData m = true ->
  resp = Some m /\ lastErr = None \/ ad_answer e name t m.
Proof.
  revert resp lastErr w. induction servers as [|srv servers IH]; intros resp lastErr w Hin E Had; simpl in E; run E; [by left|..]; try done.
  all: try match goal with Hr : exchange_loop _ _ _ _ _ _ = _ |- _ =>
         apply IH in Hr; [naive_solver|by auto using list_elem_of_further|done] end.
  destruct (is_loopback srv) eqn:Hloop; [|done]. right. exists srv. do 2 eexists.
  split_and!; eauto using list_elem_of_here.
  match goal with Hr : negb (_ =? _) = false |- _ => apply negb_false_iff in Hr; lia end.
Qed.

Lemma exchange_ad e name t w w' m :
  exchange e name t w = (w', Done (Ok m)) -> msg_AuthenticatedData m = true -> ad_answer e name t m.
Proof.
  intros E Had. unfold exchange in E. run E.
  match goal with Hr : exchange_loop _ _ _ _ _ _ = _ |- _ => eapply exchange_loop_ad in Hr; naive_solver end.
Qed.

Definition tlsas (m : dns_msg) : list TLSA := omap (fun r => match r with RR_TLSA t => Some t | _ => None end) (msg_Answer m).
(** Records that an authenticated answer for a name of the port held *)
Definition authentic (e : ExtResolver) (port : string) (recs : list TLSA) : Prop :=
  exists host name m, dns_TLSAName host port "tcp" = Ok name /\ ad_answer e (dns_Fqdn name) TypeTLSA m /\ recs = tlsas m.

Lemma AuthLookupTLSA_ad e port host w w' recs :
  AuthLookupTLSA e port "tcp" host w = (w', Done (true, recs, None)) -> authentic e port recs.
Proof.
  intros E. unfold AuthLookupTLSA in E. run E.
  match goal with Hr : exchange _ _ _ _ = _ |- _ => apply exchange_ad in Hr; [|done] end. unfold authentic. eauto 10.
Qed.

Lemma discoverTLSA_authentic e port mx w w' recs :
  discoverTLSA e port mx w = (w', Done (Ok recs)) -> recs = [] \/ authentic e port recs.
Proof.
  intros E. unfold discoverTLSA in E. run E; auto.
  all: try match goal with |- context [if ?b then _ else _] => destruct b; [|by left] end.
  all: try match goal with Hb : ?b && _ = true |- _ => apply andb_true_iff in Hb as [-> _] end.
  all: right; eapply AuthLookupTLSA_ad; eauto.
Qed.

Lemma verdict_authenticated recs st :
  dane_verdict recs st (Done (true, None)) -> recs <> [] /\ ts_HandshakeComplete st = true /\
  exists leaf certs, ts_PeerCertificates st = leaf :: certs /\
    ((exists rec, rec ∈ recs /\ usable 3 rec = true /\ tlsa_Verify rec leaf = true) \/
     (exists rec, rec ∈ recs /\ usable 2 rec = true) /\
     exists roots intermediates, x509_Verify leaf (ts_ServerName st) roots intermediates = true /\
       forall cert, cert ∈ roots -> trust_anchor recs cert).
Proof.
  intros Hv. inversion Hv as [| | | |rec leaf certs|rec leaf certs roots inter Hhs Hcerts Hin Hu Hr|]; subst.
  all: split_and!; [by intros ->; eapply elem_of_nil|done|].
  - exists leaf, certs. split; [done|]. left. eauto.
  - exists leaf, certs. split; [done|]. right. split; [eauto|]. exists roots, inter. split; [done|]. intros cert. rewrite Hr. tauto.
Qed.

(** C7: DANE replaces X.509 authentication only on evidence that DNSSEC authenticated.
    When the policy raises a connection to "authenticated", the TLSA records come from
    an answer that a resolver of the loopback interface marked authentic, for a name
    of the SMTP port; the connection uses TLS; and a usable record matches the
    certificate of the server or a CA of its chain up to which it verifies.  The only
    other level the policy answers is none. *)
Theorem dane_authenticated c st w w' level :
  dane_CheckConn c st w = (w', Done (level, None)) ->
  level = TLSNone \/
  level = TLSAuthenticated /\ ts_HandshakeComplete st = true /\
  exists res recs leaf certs, dp_extResolver c = Some res /\ authentic res (dp_smtpPort c) recs /\
    ts_PeerCertificates st = leaf :: certs /\
    ((exists rec, rec ∈ recs /\ usable 3 rec = true /\ tlsa_Verify rec leaf = true) \/
     (exists rec, rec ∈ recs /\ usable 2 rec = true) /\
     exists roots intermediates, x509_Verify leaf (ts_ServerName st) roots intermediates = true /\
       forall cert, cert ∈ roots -> trust_anchor recs cert).
Proof.
  intros E. unfold dane_CheckConn, await_tlsa, nil_future in E. run E; auto.
  match goal with Ha : _ = (_, Done (Ok _)) |- _ => run Ha end.
  match goal with Hv : verifyDANE ?recs _ = _ |- _ => pose proof (verdict_of recs st) as Hd; rewrite Hv in Hd end.
  match goal with Hd : context [Done (?b, None)] |- _ => destruct b; [right|by left] end.
  apply verdict_authenticated in Hd as (Hne & Hhs & leaf & certs & Hcerts & Hm).
  match goal with Hr : discoverTLSA _ _ _ _ = _ |- _ => apply discoverTLSA_authentic in Hr as [?|?]; [done|] end.
  split_and!; [done..|]. eauto 10.
Qed.
End Dane.

(** ** A world with one server

    Every name has one MX, mx.test, whose address and TLSA records are signed; the
    server supports every extension and accepts everything. *)
Section Sample.
Definition sample_answer (t : qtype) : list rr :=
  match t with
  | TypeMX => [RR_MX "mx.test" 10]
  | TypeA => [RR_A "mx.test" "192.0.2.1"]
  | TypeTLSA => [RR_TLSA (mkTLSA 3 1 1 "cert")]
  | _ => []
  end.
Definition sample_dns : DnsLib unit := {|
  dns_Exchange := fun _ t _ => mret (Ok (mkDnsMsg RcodeSuccess true (sample_answer t)));
  dns_Fqdn := fun s => s;
  dns_TLSAName := fun host port network => Ok ("_" +:+ port +:+ "._" +:+ network +:+ "." +:+ host);
  dns_ReverseAddr := fun s => Ok s;
  is_loopback := fun _ => true
|}.
(** [verify] is what the handshake with full verification gives. *)
Definition sample_smtp : SmtpLib (H := list_textproto) unit := {|
  NetConn := unit; Client := unit; Writer := unit; Cert := string;
  net_Dial := fun _ _ => mret (Ok tt);
  tls_Client := fun c _ => c;
  NewClient := fun _ _ => mret tt;
  cl_Hello := fun _ _ => mret None;
  cl_Extension := fun _ _ => mret true;
  cl_StartTLS := fun _ _ => mret None;
  cl_Mail := fun _ _ _ => mret None;
  cl_Rcpt := fun _ _ => mret None;
  cl_Data := fun _ => mret (Ok tt);
  cl_LMTPData := fun _ => mret (Ok tt);
  w_Header := fun _ _ => mret None;
  w_Copy := fun _ _ => mret None;
  w_Close := fun _ => mret ([], None);
  cl_Noop := fun _ => mret None;
  cl_Reset := fun _ => mret None;
  cl_Quit := fun _ => mret None;
  cl_Close := fun _ => mret None;
  is_verify_error := fun _ => false
|}.
#[local] Existing Instances list_textproto ascii_tables identity_text sample_dns sample_smtp.
Definition sample_policies : PolicyWorld (W := unit) := {|
  sts_fut := fun _ => None;
  sts_set := fun _ w => w;
  sts_get := fun _ => mret (Err (ENew "no policy"));
  tlsa_fut := fun _ => Some "mx.test";
  tlsa_set := fun _ w => w;
  tlsa_wait := None;
  tlsa_Verify := fun rec cert => bool_decide (tlsa_Certificate rec = cert);
  cert_IsCA := fun _ => false;
  x509_Verify := fun _ _ _ _ => false
|}.
#[local] Existing Instance sample_policies.

Definition sample_tls : tls_state (W := unit) := mkTLSState true "mx.test" ["cert"] false.
Definition sample_res : ExtResolver := mkExtResolver ["127.0.0.1"].
Definition sample_target (pooled : option mxConn) (policies : list policy) : Target :=
  mkTarget "example.org" "25" (Some (mkTLSConfig "" false)) (Some sample_res) (fun _ => mret (Ok [])) policies
    (fun _ _ => mret None) (fun _ _ => mret tt) (fun _ => mret None) (fun _ => mret tt)
    (fun _ => mret (Ok pooled)) (fun _ _ => mret tt) (mret 7) true false 10.
Definition sample_set : list policy :=
  [dnssec_policy; dane_policy (mkDane (Some sample_res) "25"); local_policy (mkLocal TLSAuthenticated MX_DNSSEC)].
Definition sample_meta (requiretls : bool) : MsgMetadata :=
  mkMsgMetadata "id" "a@example.org" false false ∅ (mkMailOptions 0 false requiretls) None false.
Definition sample_delivery (requiretls : bool) : remoteDelivery := mkRD "a@example.org" (sample_meta requiretls) [] ∅ sample_set.
Definition sample_connect (rt : Target) (rd : remoteDelivery) :=
  connectionForDomain (fun _ => mret sample_tls) id rt rd "example.com" tt.
Definition sample_conn : C := mkC "example.org" true "mx.test" (Some tt) [] false.
Definition sample_mx : mxConn := mkMxConn sample_conn "example.com" true false 10 0 7 MX_DNSSEC TLSAuthenticated.

Definition sample_after : remoteDelivery :=
  mkRD "a@example.org" (sample_meta true) [] (<["example.com" := sample_mx]> ∅) sample_set.

Lemma requiretls_enforced_witness :
  TLSAuthenticated <= mc_tlsLevel sample_mx /\ MX_MTASTS <= mc_mxLevel sample_mx /\ mc_domain sample_mx = "example.com" /\
  (exists dnssec, vetted (fun _ => mret sample_tls) (sample_target None sample_set) sample_set sample_mx dnssec) /\
  rd_connections sample_after !! "example.com" = Some sample_mx.
Proof.
  apply (requiretls_enforced (fun _ => mret sample_tls) id (sample_target None sample_set) (sample_delivery true) "example.com" tt tt
    sample_after sample_mx); [reflexivity..|].
  vm_compute. reflexivity.
Defined.

Lemma connect_levels_witness :
  TLSAuthenticated = TLSNone \/
  exists cl cfg, c_cl sample_conn = Some cl /\ rt_tlsConfig (sample_target None []) = Some cfg /\
    ((TLSAuthenticated = TLSAuthenticated /\
      secured (sample_target None []) cl (with_ServerName "mx.test" cfg) tt /\ (None : error) = None) \/
     (TLSAuthenticated = TLSEncrypted /\
      secured (sample_target None []) cl (insecure (with_ServerName "mx.test" cfg)) tt /\
      exists e, (None : error) = Some e /\ is_verify_error e = true)).
Proof.
  apply (connect_levels (sample_target None []) (mkC "example.org" true "" None [] false) "mx.test" tt tt sample_conn TLSAuthenticated None).
  vm_compute. reflexivity.
Defined.

Definition sample_fresh : mxConn :=
  mkMxConn (mkC "example.org" true "" None [] false) "example.com" true false 10 0 7 MXNone TLSNone.
Lemma attemptMX_policies_witness :
  vetted (fun _ => mret sample_tls) (sample_target None sample_set) sample_set sample_mx true /\
  forall l, local_policy l ∈ sample_set -> lp_minMXLevel l <= mc_mxLevel sample_mx /\ lp_minTLSLevel l <= mc_tlsLevel sample_mx.
Proof.
  apply (attemptMX_policies (fun _ => mret sample_tls) (sample_target None sample_set) sample_set sample_fresh "mx.test" tt tt sample_mx).
  vm_compute. reflexivity.
Defined.

Lemma dane_authenticated_witness :
  TLSAuthenticated = TLSNone \/
  TLSAuthenticated = TLSAuthenticated /\ ts_HandshakeComplete sample_tls = true /\
  exists res recs leaf certs, dp_extResolver (mkDane (Some sample_res) "25") = Some res /\ authentic res "25" recs /\
    ts_PeerCertificates sample_tls = leaf :: certs /\
    ((exists rec, rec ∈ recs /\ usable 3 rec = true /\ tlsa_Verify rec leaf = true) \/
     (exists rec, rec ∈ recs /\ usable 2 rec = true) /\
     exists roots intermediates, x509_Verify leaf (ts_ServerName sample_tls) roots intermediates = true /\
       forall cert, cert ∈ roots -> trust_anchor recs cert).
Proof.
  apply (dane_authenticated (mkDane (Some sample_res) "25") sample_tls tt tt TLSAuthenticated).
  vm_compute. reflexivity.
Defined.

(** A connection of the pool is used as it is: here one that was opened without any
    policy, for a message whose sender may override them, carries a message of a
    target whose policies ask for authentication. *)
Definition sample_unchecked : mxConn := mkMxConn sample_conn "example.com" false false 10 1 7 MXNone TLSNone.
Example pool_skips_policies :
  match sample_connect (sample_target (Some sample_unchecked) sample_set) (sample_delivery false) with
  | (_, Done (_, Ok conn)) => (mc_mxLevel conn, mc_tlsLevel conn)
  | _ => (MX_DNSSEC, TLSAuthenticated)
  end = (MXNone, TLSNone).
Proof. vm_compute. reflexivity. Qed.

(** The statuses of a reused connection name the recipients of earlier messages too. *)
Example reused_connection_reports_old_recipients :
  match send_body (sample_target None []) (mret (Ok "body")) [] (mc_set_C (mkC "example.org" true "mx.test" (Some tt) ["old@example.com"] false) sample_mx) tt with
  | (_, Done (_, statuses)) => statuses
  | _ => []
  end = [("old@example.com", None)].
Proof. vm_compute. reflexivity. Qed.
End Sample.
