(* ===== verification/Setup.v ===== *)
(** * Setup: how the server and its delivery modules are configured

    The global settings and the directories (ReadGlobals and InitDirs of
    cmd/sirrmeshd/cmd/mail.go), Init of the queue (internal/target/queue/queue.go), of the
    remote target (internal/target/remote/remote.go) and of the MTA-STS policy
    (security.go).  Modules that directives name, TLS blocks, the log and the operating
    system are parameters. *)
From S2P Require Import Prelude GoStr ExtErrors Config ConfigParser ConfigMap.
From stdpp Require Import gmap.

Local Open Scope Z_scope.

(** ** Directories *)

Record Directories := mkDirectories { StateDirectory : string; RuntimeDirectory : string; LibexecDirectory : string }.

Section Dirs.
Context {W : Type}.
(** os.MkdirAll, os.Create, os.RemoveAll and os.Chdir; the directories of the build *)
Context (os_MkdirAll os_Create os_RemoveAll os_Chdir : string -> Prog W error) (defaults : Directories).

Definition ensureDirectoryWritable (path : string) : Prog W error :=
  err ← os_MkdirAll path;
  match err with
  | Some err => mret (Some err)
  | None =>
    let testFile := ConfigParser.Join path "writeable-test" in
    err ← os_Create testFile;
    match err with Some err => mret (Some err) | None => os_RemoveAll testFile end
  end.
Definition or_default (s d : string) : string := if decide (s = "") then d else s.
Definition default_dirs (c : Directories) : Directories :=
  mkDirectories (or_default (StateDirectory c) (StateDirectory defaults)) (or_default (RuntimeDirectory c) (RuntimeDirectory defaults))
    (or_default (LibexecDirectory c) (LibexecDirectory defaults)).
Definition InitDirs (c : Directories) : Prog W (Directories * error) :=
  let c := default_dirs c in
  err ← ensureDirectoryWritable (StateDirectory c);
  match err with
  | Some err => mret (c, Some err)
  | None =>
    err ← ensureDirectoryWritable (RuntimeDirectory c);
    match err with
    | Some err => mret (c, Some err)
    | None =>
      if negb (IsAbs (StateDirectory c)) then mret (c, Some (ENew "statedir should be absolute"))
      else if negb (IsAbs (RuntimeDirectory c)) then mret (c, Some (ENew "runtimedir should be absolute"))
      else if negb (IsAbs (LibexecDirectory c)) then mret (c, Some (ENew "-libexec should be absolute"))
      else os_Chdir (StateDirectory c) ;; mret (c, None)
    end
  end.

(** What was done to make a directory: it exists, and a file could be created there and removed. *)
Definition made_writable (path : string) (w w' : W) : Prop := exists w1 w2,
  os_MkdirAll path w = (w1, Done None) /\ os_Create (ConfigParser.Join path "writeable-test") w1 = (w2, Done None) /\
  os_RemoveAll (ConfigParser.Join path "writeable-test") w2 = (w', Done None).
Lemma ensure_made path w w' : ensureDirectoryWritable path w = (w', Done None) -> made_writable path w w'.
Proof.
  unfold ensureDirectoryWritable. intros E. apply prog_bind_Done in E as (w1 & [e|] & E1 & E); [by injection E|].
  apply prog_bind_Done in E as (w2 & [e|] & E2 & E); [by injection E|]. by exists w1, w2.
Qed.
(** When InitDirs succeeds the directories are absolute, the state and runtime directories
    can be written to, and the working directory was changed to the first. *)
Theorem InitDirs_ok c w w' c' : InitDirs c w = (w', Done (c', None)) ->
  c' = default_dirs c /\ IsAbs (StateDirectory c') = true /\ IsAbs (RuntimeDirectory c') = true /\ IsAbs (LibexecDirectory c') = true /\
  exists w1 w2 err, made_writable (StateDirectory c') w w1 /\ made_writable (RuntimeDirectory c') w1 w2 /\ os_Chdir (StateDirectory c') w2 = (w', Done err).
Proof.
  unfold InitDirs. intros E. apply prog_bind_Done in E as (w1 & [e|] & E1 & E); [by injection E|].
  apply prog_bind_Done in E as (w2 & [e|] & E2 & E); [by injection E|].
  destruct (IsAbs (StateDirectory (default_dirs c))) eqn:A1; cbn [negb] in E; [|by injection E].
  destruct (IsAbs (RuntimeDirectory (default_dirs c))) eqn:A2; cbn [negb] in E; [|by injection E].
  destruct (IsAbs (LibexecDirectory (default_dirs c))) eqn:A3; cbn [negb] in E; [|by injection E].
  apply prog_bind_Done in E as (w3 & err & E3 & E). injection E as <- <-. do 4 (split; [done|]).
  exists w1, w2, err. split; [by apply ensure_made|]. split; [by apply ensure_made|done].
Qed.
End Dirs.

(** ** Global settings *)

Section Globals.
Context `{UnicodeTables} {V : Type} (V_zero : V -> bool).
Notation value := (value (V := V)).
Notation Map := (Map (V := V)).
(** The tls, tls_client, log and auth_map directives, the default log and whether its
    debug flag is set *)
Context (TLSDirective TLSClientBlock logOutput : Node -> Result gerror value) (TableDirective : gmap string value -> Node -> Result gerror value)
  (defaultLogOutput : Result gerror value) (debug_default : bool) (NormalizeFuncs : gmap string V) (NormalizeAuto : V)
  (DefaultStateDirectory DefaultRuntimeDirectory : string) (order : Map -> list (matcher (V := V))).
Definition global_directives (globals : Map) : Outcome Map :=
  globals ← Map_String "state_dir" false false DefaultStateDirectory (Some "StateDirectory") globals;
  globals ← Map_String "runtime_dir" false false DefaultRuntimeDirectory (Some "RuntimeDirectory") globals;
  globals ← Map_String "hostname" false false "" None globals;
  globals ← Map_String "autogenerated_msg_domain" false false "" None globals;
  globals ← Custom "tls" false false None (fun _ n => TLSDirective n) None globals;
  globals ← Custom "tls_client" false false None (fun _ n => TLSClientBlock n) None globals;
  globals ← Map_Bool "storage_perdomain" false false None globals;
  globals ← Map_Bool "auth_perdomain" false false None globals;
  globals ← StringList "auth_domains" false false None None globals;
  globals ← Custom "log" false false (Some defaultLogOutput) (fun _ n => logOutput n) (Some "Out") globals;
  globals ← Map_Bool "debug" false debug_default (Some "Debug") globals;
  globals ← EnumMapped "auth_map_normalize" true false NormalizeFuncs NormalizeAuto None globals;
  globals ← Custom "auth_map" true false (Some (Ok VNil)) TableDirective None globals;
  mret (AllowUnknown globals).
(** The variables, globals.Values and the blocks of the modules *)
Definition ReadGlobals (cfg : list Node) : Outcome (gmap string value * gmap string value * Result gerror (list Node)) :=
  m ← global_directives (NewMap ∅ (mkNode "" [] (Some cfg) false false "" 0));
  mret (let '(vs, m, unknown) := Process V_zero (order m) m {[ "StateDirectory" := VString DefaultStateDirectory ]} in (vs, cm_Values m, unknown)).
Lemma global_directives_ok cfg : exists m, global_directives (NewMap ∅ (mkNode "" [] (Some cfg) false false "" 0)) = Done m.
Proof.
  assert (Hd : match global_directives (NewMap ∅ (mkNode "" [] (Some cfg) false false "" 0)) with Done _ => true | Panicked _ => false end = true) by (vm_compute; reflexivity).
  destruct (global_directives _) as [m|why]; [by exists m|done].
Qed.
End Globals.

(** ** The queue *)

Section QueueInit.
Context `{UnicodeTables} {Target Pipe : Type}.
Inductive queue_value := QTarget (t : Target) | QPipeline (p : Pipe).
Notation value := (value (V := queue_value)).
Notation Map := (Map (V := queue_value)).
Record QueueSettings := mkQueueSettings {
  qs_name : string;
  qs_location : string;
  qs_hostname : string;
  qs_autogenMsgDomain : string;
  qs_dsnPipeline : option Pipe;
  qs_initialRetryTime : Z;
  qs_retryTimeScale : Z * Z; (* 1.25 as a fraction *)
  qs_maxTries : Z;
  qs_postInitDelay : Z;
  qs_Target : option Target
}.
Definition minute : Z := 60000000000.
Definition NewQueue (instName : string) (inlineArgs : list string) : Result gerror QueueSettings :=
  let q location := mkQueueSettings instName location "" "" None (15 * minute) (5, 4) 0 10000000000 None in
  match inlineArgs with
  | [] => Ok (q "")
  | [location] => Ok (q location)
  | _ => Err (ENew "queue: wrong amount of inline arguments")
  end.
(** The target and bounce directives, os.MkdirAll, and what start does with the settings:
    the time wheel, the semaphore of max_parallelism and the scan of the directory *)
Context (DeliveryDirective : gmap string value -> Node -> Result gerror Target) (msgpipeline_New : gmap string value -> list Node -> Result gerror Pipe)
  (state_dir : string) (os_MkdirAll : string -> error) {W : Type} (start : QueueSettings -> Z -> Prog W error)
  (order : Map -> list (matcher (V := queue_value))).
Definition queue_directives (q : QueueSettings) (cfg : Map) : Outcome Map :=
  cfg ← Map_Bool "debug" true false (Some "Debug") cfg;
  cfg ← Int "max_tries" false false 20 (Some "maxTries") cfg;
  cfg ← Int "max_parallelism" false false 16 (Some "maxParallelism") cfg;
  cfg ← Map_String "location" false false (qs_location q) (Some "location") cfg;
  cfg ← Custom "target" false true None (fun gl n => t ← DeliveryDirective gl n; Ok (VCustom (QTarget t))) (Some "Target") cfg;
  cfg ← Map_String "hostname" true true "" (Some "hostname") cfg;
  cfg ← Map_String "autogenerated_msg_domain" true false "" (Some "autogenMsgDomain") cfg;
  Custom "bounce" false false None (fun gl n => p ← msgpipeline_New gl (children n); Ok (VCustom (QPipeline p))) (Some "dsnPipeline") cfg.
Definition queue_of (q : QueueSettings) (vs : gmap string value) : QueueSettings :=
  let str x := match vs !! x with Some (VString s) => s | _ => "" end in
  mkQueueSettings (qs_name q) (str "location") (str "hostname") (str "autogenMsgDomain")
    (match vs !! "dsnPipeline" with Some (VCustom (QPipeline p)) => Some p | _ => None end) (qs_initialRetryTime q) (qs_retryTimeScale q)
    (match vs !! "maxTries" with Some (VInt _ n) => n | _ => 0 end) (qs_postInitDelay q)
    (match vs !! "Target" with Some (VCustom (QTarget t)) => Some t | _ => None end).
Definition set_location (location : string) (q : QueueSettings) : QueueSettings :=
  mkQueueSettings (qs_name q) location (qs_hostname q) (qs_autogenMsgDomain q) (qs_dsnPipeline q) (qs_initialRetryTime q) (qs_retryTimeScale q)
    (qs_maxTries q) (qs_postInitDelay q) (qs_Target q).
Definition queue_Init (q : QueueSettings) (cfg : Map) : Prog W (Result gerror QueueSettings) :=
  match queue_directives q cfg with
  | Panicked why => panic why
  | Done m =>
    match Process (fun _ => false) (order m) m {[ "location" := VString (qs_location q) ]} with
    | (_, _, Err err) => mret (Err err)
    | (vs, _, Ok _) =>
      let q := queue_of q vs in
      if decide (is_Some (qs_dsnPipeline q) /\ qs_autogenMsgDomain q = "")
      then mret (Err (ENew "queue: autogenerated_msg_domain is required if bounce {} is specified"))
      else if decide (qs_location q = "" /\ qs_name q = "")
      then mret (Err (ENew "queue: need explicit location directive or inline argument if defined inline"))
      else
        let q := if decide (qs_location q = "") then set_location (ConfigParser.Join state_dir (qs_name q)) q else q in
        match os_MkdirAll (qs_location q) with
        | Some err => mret (Err err)
        | None =>
          err ← start q (match vs !! "maxParallelism" with Some (VInt _ n) => n | _ => 0 end);
          mret (match err with Some err => Err err | None => Ok q end)
        end
    end
  end.

(** A queue that starts has a directory, which was made, and when it makes bounces it has
    the domain they come from. *)
Lemma queue_Init_ok q gl blk w w' q' : queue_Init q (NewMap gl blk) w = (w', Done (Ok q')) ->
  qs_location q' <> "" /\ (is_Some (qs_dsnPipeline q') -> qs_autogenMsgDomain q' <> "") /\ os_MkdirAll (qs_location q') = None /\
  qs_name q' = qs_name q /\ exists w1 n, start q' n w1 = (w', Done None).
Proof.
  assert (Hjoin : forall n, n <> "" -> ConfigParser.Join state_dir n <> "").
  { intros n Hn. unfold ConfigParser.Join. assert (Hc : forall p, Clean p <> "").
    { intros p. unfold Clean. destruct (IsAbs p); [done|]. by case_decide. }
    case_decide; [by rewrite decide_False|done]. }
  unfold queue_Init. intros E. destruct (queue_directives q (NewMap gl blk)) as [m|why]; [|done].
  destruct (Process _ _ _ _) as [[vs m'] [unknown|e]]; [|done].
  destruct (decide (is_Some _ /\ _)) as [?|H1]; [done|]. destruct (decide (_ = "" /\ _ = "")) as [?|H2]; [done|].
  set (q1 := if decide _ then _ else _) in E. destruct (os_MkdirAll (qs_location q1)) as [e|] eqn:Em; [done|].
  apply prog_bind_Done in E as (w1 & err & Es & E). destruct err as [e|]; [by injection E|]. injection E as <- <-.
  assert (Hq : qs_location q1 <> "" /\ qs_dsnPipeline q1 = qs_dsnPipeline (queue_of q vs) /\ qs_autogenMsgDomain q1 = qs_autogenMsgDomain (queue_of q vs) /\ qs_name q1 = qs_name q).
  { unfold q1. case_decide as Hl; [|done]. split; [apply Hjoin; naive_solver|done]. }
  destruct Hq as (Hl & Hp & Ha & Hn). split; [done|]. split; [rewrite Hp, Ha; naive_solver|]. split; [done|]. split; [done|]. eauto.
Qed.
End QueueInit.

(** ** The remote target *)

Section RemoteInit.
Context `{UnicodeTables} {TlsClient Policy Lim : Type}.
Inductive remote_value := RTls (c : TlsClient) | RPolicies (l : list Policy) | RLimits (g : Lim).
Notation value := (value (V := remote_value)).
Notation Map := (Map (V := remote_value)).
(** pool.Config, as Init fills it *)
Record PoolConfig := mkPoolConfig { pc_MaxKeys : Z; pc_MaxConnsPerKey : Z; pc_MaxConnLifetimeSec : Z; pc_StaleKeyLifetimeSec : Z }.
Record RemoteSettings := mkRemoteSettings {
  rs_hostname : string;
  rs_localIP : string;
  rs_ipv4 : bool;
  rs_tlsConfig : option TlsClient;
  rs_policies : list Policy;
  rs_limits : option Lim;
  rs_allowSecOverride : bool;
  rs_relaxedREQUIRETLS : bool;
  rs_connReuseLimit : Z;
  rs_connectTimeout : Z;
  rs_commandTimeout : Z;
  rs_submissionTimeout : Z;
  rs_smtpPort : string;
  rs_poolCfg : PoolConfig
}.
(** The tls_client, mx_auth and limits directives with their defaults; idna.ToASCII;
    net.ResolveTCPAddr, which fails or not *)
Context (TLSClientBlock : Node -> Result gerror TlsClient) (no_tls : TlsClient) (mx_auth_group : gmap string value -> Node -> Result gerror (list Policy))
  (limits_group : gmap string value -> Node -> Result gerror Lim) (limits_zero : Lim) (idna_ToASCII : string -> Result gerror string)
  (net_ResolveTCPAddr : string -> error) (order : Map -> list (matcher (V := remote_value))).
Definition remote_directives (cfg : Map) : Outcome Map :=
  cfg ← Map_String "hostname" true true "" (Some "hostname") cfg;
  cfg ← Map_String "local_ip" false false "" (Some "localIP") cfg;
  cfg ← Map_Bool "force_ipv4" false false (Some "ipv4") cfg;
  cfg ← Map_Bool "debug" true false (Some "Debug") cfg;
  cfg ← Custom "tls_client" true false (Some (Ok (VCustom (RTls no_tls)))) (fun _ n => c ← TLSClientBlock n; Ok (VCustom (RTls c))) (Some "tlsConfig") cfg;
  cfg ← Custom "mx_auth" false false (Some (Ok VNil)) (fun gl n => l ← mx_auth_group gl n; Ok (VCustom (RPolicies l))) (Some "policies") cfg;
  cfg ← Custom "limits" false false (Some (Ok (VCustom (RLimits limits_zero)))) (fun gl n => g ← limits_group gl n; Ok (VCustom (RLimits g))) (Some "limits") cfg;
  cfg ← Map_Bool "requiretls_override" false true (Some "allowSecOverride") cfg;
  cfg ← Map_Bool "relaxed_requiretls" false true (Some "relaxedREQUIRETLS") cfg;
  cfg ← Int "conn_reuse_limit" false false 10 (Some "connReuseLimit") cfg;
  cfg ← Map_Duration "connect_timeout" false false (5 * minute) (Some "connectTimeout") cfg;
  cfg ← Map_Duration "command_timeout" false false (5 * minute) (Some "commandTimeout") cfg;
  cfg ← Map_Duration "submission_timeout" false false (5 * minute) (Some "submissionTimeout") cfg;
  cfg ← Map_String "smtp_port" false false "25" (Some "smtpPort") cfg;
  cfg ← Int "conn_max_idle_count" false false 5 (Some "MaxConnsPerKey") cfg;
  Int64 "conn_max_idle_time" false false 150 (Some "MaxConnLifetimeSec") cfg.
Definition remote_of (hostname : string) (vs : gmap string value) : RemoteSettings :=
  let str x := match vs !! x with Some (VString s) => s | _ => "" end in
  let flag x := match vs !! x with Some (VBool b) => b | _ => false end in
  let num x := match vs !! x with Some (VInt _ n) | Some (VDuration n) => n | _ => 0 end in
  mkRemoteSettings hostname (str "localIP") (flag "ipv4") (match vs !! "tlsConfig" with Some (VCustom (RTls c)) => Some c | _ => None end)
    (match vs !! "policies" with Some (VCustom (RPolicies l)) => l | _ => [] end) (match vs !! "limits" with Some (VCustom (RLimits g)) => Some g | _ => None end)
    (flag "allowSecOverride") (flag "relaxedREQUIRETLS") (num "connReuseLimit") (num "connectTimeout") (num "commandTimeout") (num "submissionTimeout")
    (str "smtpPort") (mkPoolConfig 5000 (num "MaxConnsPerKey") (num "MaxConnLifetimeSec") (60 * 5)).
Definition remote_Init (cfg : Map) : Outcome (Result gerror RemoteSettings) :=
  m ← remote_directives cfg;
  mret (match Process (fun _ => false) (order m) m ∅ with
        | (_, _, Err err) => Err err
        | (vs, _, Ok _) =>
          match idna_ToASCII (match vs !! "hostname" with Some (VString s) => s | _ => "" end) with
          | Err err => Err (wrapf "remote: cannot represent the hostname as an A-label name" err)
          | Ok hostname =>
            let rt := remote_of hostname vs in
            match (if decide (rs_localIP rt = "") then None else net_ResolveTCPAddr (rs_localIP rt +:+ ":0")) with
            | Some err => Err (wrapf "remote: failed to parse local IP" err)
            | None => Ok rt
            end
          end
        end).
(** The network rt.dialer asks for *)
Definition dial_network (rt : RemoteSettings) (network : string) : string :=
  if rs_ipv4 rt && bool_decide (network = "tcp") then "tcp4" else network.

(** Init never panics, whatever is configured. *)
Lemma remote_Init_returns gl blk : exists r, remote_Init (NewMap gl blk) = Done r.
Proof.
  assert (Hd : match remote_directives (NewMap gl blk) with Done _ => true | Panicked _ => false end = true) by (vm_compute; reflexivity).
  unfold remote_Init. destruct (remote_directives _) as [m|why]; [|done]. by eexists.
Qed.
End RemoteInit.

(** ** The MTA-STS policy *)

Section Mtasts.
Context `{UnicodeTables} {V : Type} (V_zero : V -> bool).
Inductive mtasts_cache := FSCache (dir : string) | RAMCache.
Definition mtasts_Init (os_MkdirAll : string -> error) (order : Map (V := V) -> list (matcher (V := V))) (cfg : Map (V := V)) : Outcome (Result gerror mtasts_cache) :=
  m ← Enum "cache" false false ["ram"; "fs"] "fs" (Some "storeType") cfg;
  m ← Map_String "fs_dir" false false "mtasts_cache" (Some "storeDir") m;
  let '(vs, _, r) := Process V_zero (order m) m ∅ in
  match r with
  | Err err => mret (Err err)
  | Ok _ =>
    let str x := match vs !! x with Some (VString s) => s | _ => "" end in
    if decide (str "storeType" = "fs") then
      mret (match os_MkdirAll (str "storeDir") with Some err => Err err | None => Ok (FSCache (str "storeDir")) end)
    else if decide (str "storeType" = "ram") then mret (Ok RAMCache)
    else Panicked "mtasts policy init: unknown cache type"
  end.

Definition cache_matcher : matcher (V := V) := mkMatcher "cache" false false (Some (Ok (VString "fs"))) (Some (fun _ => Enum_mapper ["ram"; "fs"])) (Some "storeType") None.
Definition dir_matcher : matcher (V := V) := mkMatcher "fs_dir" false false (Some (Ok (VString "mtasts_cache"))) (Some (fun _ => String_mapper)) (Some "storeDir") None.
Definition mtasts_map gl blk : Map (V := V) := mkMap false ∅ (<["fs_dir" := dir_matcher]> (<["cache" := cache_matcher]> ∅)) gl blk.
Lemma mtasts_entries gl blk :
  (m ← Enum "cache" false false ["ram"; "fs"] "fs" (Some "storeType") (NewMap gl blk);
   Map_String "fs_dir" false false "mtasts_cache" (Some "storeDir") m) = Done (mtasts_map gl blk).
Proof. reflexivity. Qed.
Lemma mtasts_entry gl blk name mt : cm_entries (mtasts_map gl blk) !! name = Some mt -> (name = "fs_dir" /\ mt = dir_matcher) \/ (name = "cache" /\ mt = cache_matcher).
Proof. cbn. intros E. repeat (apply lookup_insert_Some in E as [[<- <-]|[_ E]]; [naive_solver|]). by rewrite lookup_empty in E. Qed.

(** The panic of Init is not reached: the cache directive accepts its two types only. *)
Theorem mtasts_Init_returns os_MkdirAll order gl blk : (forall m, range_order m (order m)) -> exists r, mtasts_Init os_MkdirAll order (NewMap gl blk) = Done r.
Proof.
  intros Ho. assert (Hwf : wf_map (mtasts_map gl blk)) by (intros name mt E; apply mtasts_entry in E as [[-> ->]|[-> ->]]; done).
  assert (Hsep : separate (mtasts_map gl blk)).
  { split; [intros n1 n2 mt1 mt2 x E1 E2 S1 S2|intros n1 n2 mt1 mt2 x cb node vs E1 E2 S1 C2]; apply mtasts_entry in E2 as [[-> ->]|[-> ->]]; [| |done..];
      apply mtasts_entry in E1 as [[-> ->]|[-> ->]]; cbn in *; congruence. }
  pose proof (ProcessWith_spec V_zero (mtasts_map gl blk) gl blk ∅ _ Hwf Hsep (Ho _)) as Hs.
  assert (E : forall os, mtasts_Init os order (NewMap gl blk) = let '(vs, _, r) := Process V_zero (order (mtasts_map gl blk)) (mtasts_map gl blk) ∅ in
    match r with
    | Err err => mret (Err err)
    | Ok _ =>
      let str x := match vs !! x with Some (VString s) => s | _ => "" end in
      if decide (str "storeType" = "fs") then mret (match os (str "storeDir") with Some err => Err err | None => Ok (FSCache (str "storeDir")) end)
      else if decide (str "storeType" = "ram") then mret (Ok RAMCache)
      else Panicked "mtasts policy init: unknown cache type"
    end) by reflexivity.
  rewrite E. change (Process V_zero _ _ ∅) with (ProcessWith V_zero (order (mtasts_map gl blk)) gl blk (mtasts_map gl blk) ∅).
  destruct (ProcessWith _ _ _ _ _ _) as [[vs m'] [u|e]]; [|by eexists]. destruct Hs as [Hv _].
  destruct (Hv "cache" cache_matcher) as (v & Ev & Hx & _); [cbn; by rewrite lookup_insert_ne, lookup_insert_eq|].
  specialize (Hx _ eq_refl). cbn. assert (Hin : exists s, v = Some (VString s) /\ s ∈ ["ram"; "fs"]).
  { unfold entry_value in Ev. cbn in Ev. destruct (named _ _) as [|n [|n' ns]]; [|destruct (Enum_mapper _ n) as [v'|] eqn:En; [|done]|done].
    - cbn in Ev. simplify_eq. exists "fs". split; [done|set_solver].
    - cbn in Ev. simplify_eq. destruct (Enum_mapper_in _ _ _ En) as (s & -> & Hs). by exists s. }
  destruct Hin as (s & -> & Hs). rewrite Hx. rewrite !elem_of_cons, elem_of_nil in Hs. destruct Hs as [->|[->|[]]]; by eexists.
Qed.
End Mtasts.
