(* ===== verification/CheckSetup.v ===== *)
(** * CheckSetup: how checks are configured, and the checks before a message

    Init of check.dnsbl, check.spf, check.dkim, check.rspamd, target.smtp and modify.dkim:
    their directives and what becomes of them, with the part of Init that follows from the
    files of those modules; and RunEarlyChecks of a pipeline
    (internal/msgpipeline/msgpipeline.go). *)
From S2P Require Import Prelude GoStr GoText ExtErrors Address Checks Config ConfigMap ConfigEndpoint Module SmtpConn Tables Downstream.
From S2P Require Dnsbl MailAuth Rspamd DkimSign Authz Registry Dmarc Pipeline PipelineCfg.
From stdpp Require Import gmap.

Local Open Scope Z_scope.

(** ** Directives *)

(** FailActionDirective *)
Definition FailActionDirective (node : Node) : Result gerror FailAction :=
  match children node with
  | _ :: _ => Err (NodeErr node "can't declare block here")
  | [] => match ParseActionDirective (node_Args node) with Err err => Err (NodeErr node (Error err)) | Ok val => Ok val end
  end.
Definition no_action : FailAction := mkFailAction false false None.
Definition quarantine_action : FailAction := mkFailAction true false None.

(** What the Custom directives of these modules read *)
Inductive check_value := CAction (a : FailAction) | CTls (c : tlsConfig) | CSasl (f : saslClientFactory).
Definition check_zero (v : check_value) : bool :=
  match v with
  | CAction a => bool_decide (a = no_action)
  | CTls c => bool_decide (tc_ServerName c = "") && negb (tc_InsecureSkipVerify c)
  | CSasl _ => false
  end.

Section Start.
Context `{UnicodeTables} `{TextLib}.
Notation value := (value (V := check_value)).
Notation Map := (Map (V := check_value)).
Notation matcher := (matcher (V := check_value)).
(** tls2.TLSClientBlock, and the order of the loop over the entries of a map *)
Context (TLSClientBlock : Node -> Result gerror tlsConfig) (order : Map -> list matcher).

Definition action_mapper (_ : gmap string value) (n : Node) : Result gerror value := a ← FailActionDirective n; Ok (VCustom (CAction a)).
Definition action_matcher (name : string) (dflt : FailAction) : matcher :=
  mkMatcher name false false (Some (Ok (VCustom (CAction dflt)))) (Some action_mapper) (Some name) None.
Definition action_directive (name : string) (dflt : FailAction) : Map -> Outcome Map :=
  Custom name false false (Some (Ok (VCustom (CAction dflt)))) action_mapper (Some name).
Definition tls_directive : Map -> Outcome Map :=
  Custom "tls_client" true false (Some (Ok (VCustom (CTls (mkTLSConfig "" false))))) (fun _ n => c ← TLSClientBlock n; Ok (VCustom (CTls c))) (Some "tls_client").

(** The variables, after Process *)
Definition action_of (vs : gmap string value) (x : string) : FailAction := match vs !! x with Some (VCustom (CAction a)) => a | _ => no_action end.
Definition bool_of (vs : gmap string value) (x : string) : bool := match vs !! x with Some (VBool b) => b | _ => false end.
Definition int_of (vs : gmap string value) (x : string) : Z := match vs !! x with Some (VInt _ n) | Some (VDuration n) => n | _ => 0 end.
Definition string_of (vs : gmap string value) (x : string) : string := match vs !! x with Some (VString s) => s | _ => "" end.
Definition strings_of (vs : gmap string value) (x : string) : list string := match vs !! x with Some (VStrings l) => default [] l | _ => [] end.
Definition processed {A} (m : Map) (k : gmap string value -> list Node -> Result gerror A) : Result gerror A :=
  match Process check_zero (order m) m ∅ with
  | (_, _, Err err) => Err err
  | (vs, _, Ok unknown) => k vs unknown
  end.

(** ** check.spf *)

Definition spf_directives (cfg : Map) : Outcome Map :=
  cfg ← Map_Bool "debug" true false (Some "debug") cfg;
  cfg ← Map_Bool "enforce_early" true false (Some "enforce_early") cfg;
  cfg ← action_directive "none_action" no_action cfg;
  cfg ← action_directive "neutral_action" no_action cfg;
  cfg ← action_directive "fail_action" quarantine_action cfg;
  cfg ← action_directive "softfail_action" no_action cfg;
  cfg ← action_directive "permerr_action" no_action cfg;
  action_directive "temperr_action" no_action cfg.
Definition spf_Init (cfg : Map) : Outcome (Result gerror MailAuth.spf_Check) :=
  m ← spf_directives cfg;
  mret (processed m (fun vs _ =>
    Ok (MailAuth.mkSpfCheck (bool_of vs "enforce_early") (action_of vs "none_action") (action_of vs "neutral_action") (action_of vs "fail_action")
      (action_of vs "softfail_action") (action_of vs "permerr_action") (action_of vs "temperr_action")))).

(** ** check.dkim *)

Definition dkim_New (inlineArgs : list string) : Result gerror unit :=
  match inlineArgs with [] => Ok tt | _ => Err (ENew "check.dkim: inline arguments are not used") end.
Definition dkim_directives (cfg : Map) : Outcome Map :=
  cfg ← Map_Bool "debug" true false (Some "debug") cfg;
  cfg ← StringList "required_fields" false false (Some ["From"; "Subject"]) (Some "required_fields") cfg;
  cfg ← Map_Bool "fail_open" false false (Some "fail_open") cfg;
  cfg ← action_directive "broken_sig_action" no_action cfg;
  action_directive "no_sig_action" no_action cfg.
Definition dkim_Init (cfg : Map) : Outcome (Result gerror MailAuth.dkim_Check) :=
  m ← dkim_directives cfg;
  mret (processed m (fun vs _ =>
    Ok (MailAuth.mkDkimCheck (MailAuth.required_set (strings_of vs "required_fields")) (action_of vs "broken_sig_action")
      (action_of vs "no_sig_action") (bool_of vs "fail_open")))).

(** ** check.rspamd *)

Definition rspamd_directives (apiPath : string) (cfg : Map) : Outcome Map :=
  cfg ← tls_directive cfg;
  cfg ← Map_String "api_path" false false apiPath (Some "api_path") cfg;
  cfg ← Map_String "settings_id" false false "" (Some "settings_id") cfg;
  cfg ← Map_String "tag" false false "sirrmesh" (Some "tag") cfg;
  cfg ← Map_String "hostname" true false "" (Some "hostname") cfg;
  cfg ← action_directive "io_error_action" no_action cfg;
  cfg ← action_directive "error_resp_action" no_action cfg;
  cfg ← action_directive "add_header_action" quarantine_action cfg;
  cfg ← action_directive "rewrite_subj_action" quarantine_action cfg;
  StringList "flags" false false (Some ["pass_all"]) (Some "flags") cfg.
(** The check, the TLS settings of its client, and its flags, which nothing reads *)
Definition rspamd_Init (apiPath : string) (cfg : Map) : Outcome (Result gerror (Rspamd.Check * option tlsConfig * string)) :=
  m ← rspamd_directives apiPath cfg;
  mret (processed m (fun vs _ =>
    Ok (Rspamd.mkCheck (string_of vs "api_path") (string_of vs "settings_id") (string_of vs "tag") (string_of vs "hostname")
          (action_of vs "io_error_action") (action_of vs "error_resp_action") (action_of vs "add_header_action") (action_of vs "rewrite_subj_action"),
        match vs !! "tls_client" with Some (VCustom (CTls c)) => Some c | _ => None end,
        String.concat "," (strings_of vs "flags")))).

(** ** check.dnsbl *)

Context (ParseCIDR : string -> Result gerror Dnsbl.IPNet).
Definition list_directives (cfg : Map) : Outcome Map :=
  cfg ← Map_Bool "client_ipv4" false (Dnsbl.ClientIPv4 Dnsbl.defaultBL) (Some "client_ipv4") cfg;
  cfg ← Map_Bool "client_ipv6" false (Dnsbl.ClientIPv4 Dnsbl.defaultBL) (Some "client_ipv6") cfg;
  cfg ← Map_Bool "ehlo" false (Dnsbl.EHLO Dnsbl.defaultBL) (Some "ehlo") cfg;
  cfg ← Map_Bool "mailfrom" false (Dnsbl.EHLO Dnsbl.defaultBL) (Some "mailfrom") cfg;
  cfg ← Int "score" false false 1 (Some "score") cfg;
  StringList "responses" false false (Some ["127.0.0.1/24"]) (Some "responses") cfg.
(** readListCfg of a directive that names a list.  A list that was added is tested in a
    goroutine, which only writes to the log. *)
Definition read_list (node : Node) (bls : list Dnsbl.List) : Outcome (Result gerror (list Dnsbl.List)) :=
  m ← list_directives (NewMap ∅ node);
  mret (processed m (fun vs _ =>
    Dnsbl.readListCfg ParseCIDR (node_Name node) (node_Args node)
      (Dnsbl.mkList "" (bool_of vs "client_ipv4") (bool_of vs "client_ipv6") (bool_of vs "ehlo") (bool_of vs "mailfrom") (int_of vs "score") [])
      (strings_of vs "responses") bls)).
Fixpoint read_lists (nodes : list Node) (bls : list Dnsbl.List) : Outcome (Result gerror (list Dnsbl.List)) :=
  match nodes with
  | [] => mret (Ok bls)
  | node :: nodes => r ← read_list node bls; match r with Err err => mret (Err err) | Ok bls => read_lists nodes bls end
  end.
Definition dnsbl_directives (cfg : Map) : Outcome Map :=
  cfg ← Map_Bool "debug" false false (Some "debug") cfg;
  cfg ← Map_Bool "check_early" false false (Some "check_early") cfg;
  cfg ← Int "quarantine_threshold" false false 1 (Some "quarantine_threshold") cfg;
  cfg ← Int "reject_threshold" false false 9999 (Some "reject_threshold") cfg;
  mret (AllowUnknown cfg).
Definition dnsbl_Init (resolver : Dnsbl.Resolver) (inlineBls : list string) (cfg : Map) : Outcome (Result gerror Dnsbl.DNSBL) :=
  m ← dnsbl_directives cfg;
  match Process check_zero (order m) m ∅ with
  | (_, _, Err err) => mret (Err err)
  | (vs, _, Ok unknown) =>
    bls ← read_lists unknown (Dnsbl.inline_lists inlineBls);
    mret (bls ← bls;
          Ok (Dnsbl.mkDNSBL (bool_of vs "check_early") bls (int_of vs "quarantine_threshold") (int_of vs "reject_threshold") resolver))
  end.

(** ** target.smtp *)

Definition minute : Z := 60000000000.
(** The callback of attempt_starttls *)
Definition attempt_starttls (_ : gmap string value) (node : Node) (vs : gmap string value) : gmap string value * error :=
  match node_Args node with
  | [] => (<["attemptTLS" := VBool true]> vs, None)
  | [arg] => match ParseBool arg with Err err => (vs, Some err) | Ok b => (<["attemptTLS" := VBool b]> vs, None) end
  | _ => (vs, Some (NodeErr node "expected exactly 1 argument"))
  end.
Definition downstream_directives (lmtp : bool) (cfg : Map) : Outcome Map :=
  cfg ← Map_Bool "debug" true false (Some "debug") cfg;
  cfg ← Callback "require_tls" (fun _ _ vs => (vs, None)) cfg;
  cfg ← Callback "attempt_starttls" attempt_starttls cfg;
  cfg ← Map_Bool "starttls" false (negb lmtp) (Some "starttls") cfg;
  cfg ← Map_String "hostname" true true "" (Some "hostname") cfg;
  cfg ← StringList "targets" false false None (Some "targets") cfg;
  cfg ← Custom "auth" false false (Some (Ok VNil))
          (fun _ n => f ← saslAuthDirective n; Ok (match f with Some f => VCustom (CSasl f) | None => VNil end)) (Some "auth") cfg;
  cfg ← tls_directive cfg;
  cfg ← Map_Duration "connect_timeout" false false (5 * minute) (Some "connect_timeout") cfg;
  cfg ← Map_Duration "command_timeout" false false (5 * minute) (Some "command_timeout") cfg;
  Map_Duration "submission_timeout" false false (5 * minute) (Some "submission_timeout") cfg.
(** connectTimeout, commandTimeout and submissionTimeout *)
Record Timeouts := mkTimeouts { to_connect : Z; to_command : Z; to_submission : Z }.
Context (url_Parse : string -> Result gerror URL) (RuntimeDirectory : string) (url_show : URL -> string).
Definition downstream_of (modName : string) (vs : gmap string value) : Downstream :=
  mkDownstream modName (is_lmtp modName) (bool_of vs "starttls") (string_of vs "hostname") []
    (match vs !! "auth" with Some (VCustom (CSasl f)) => Some f | _ => None end)
    (match vs !! "tls_client" with Some (VCustom (CTls c)) => c | _ => mkTLSConfig "" false end).
Definition downstream_Init (modName : string) (inlineArgs : list string) (cfg : Map) : Outcome (Result gerror (Downstream * Timeouts)) :=
  m ← downstream_directives (is_lmtp modName) cfg;
  mret (processed m (fun vs _ =>
    u ← Downstream_Init url_Parse RuntimeDirectory url_show (downstream_of modName vs)
          (match vs !! "attemptTLS" with Some (VBool b) => Some b | _ => None end) inlineArgs (strings_of vs "targets");
    Ok (u, mkTimeouts (int_of vs "connect_timeout") (int_of vs "command_timeout") (int_of vs "submission_timeout")))).

(** ** modify.dkim *)

Definition day : Z := 24 * 60 * minute.
Definition modify_dkim_directives (domains : list string) (selector : string) (cfg : Map) : Outcome Map :=
  cfg ← Map_Bool "debug" true false (Some "debug") cfg;
  cfg ← StringList "domains" false false (match domains with [] => None | _ => Some domains end) (Some "domains") cfg;
  cfg ← Map_String "selector" false false selector (Some "selector") cfg;
  cfg ← Map_String "key_path" false false "dkim_keys/{domain}_{selector}.key" (Some "key_path") cfg;
  cfg ← StringList "oversign_fields" false false (Some DkimSign.oversignDefault) (Some "oversign_fields") cfg;
  cfg ← StringList "sign_fields" false false (Some DkimSign.signDefault) (Some "sign_fields") cfg;
  cfg ← Enum "header_canon" false false ["relaxed"; "simple"] "relaxed" (Some "header_canon") cfg;
  cfg ← Enum "body_canon" false false ["relaxed"; "simple"] "relaxed" (Some "body_canon") cfg;
  cfg ← Map_Duration "sig_expiry" false false (5 * day) (Some "sig_expiry") cfg;
  cfg ← Enum "hash" false false ["sha256"] "sha256" (Some "hash") cfg;
  cfg ← Enum "newkey_algo" false false ["rsa4096"; "rsa2048"; "ed25519"] "rsa2048" (Some "newkey_algo") cfg;
  cfg ← Map_Bool "allow_multiple_from" false false (Some "allow_multiple_from") cfg;
  Map_Bool "sign_subdomains" false false (Some "sign_subdomains") cfg.
Section ModifyDkim.
Context {W Signer : Type} (lib : DkimSign.KeyLib (W := W) (Signer := Signer)) (files : DkimSign.KeyFiles (W := W)).
Definition modify_dkim_of (vs : gmap string value) : DkimSign.Modifier (Signer := Signer) :=
  DkimSign.mkModifier (strings_of vs "domains") (string_of vs "selector") ∅ (strings_of vs "oversign_fields") (strings_of vs "sign_fields")
    (string_of vs "header_canon") (string_of vs "body_canon") (int_of vs "sig_expiry") (bool_of vs "sign_subdomains").
(** Init of a modifier made with the domains and the selector of its arguments *)
Definition modify_dkim_Init (args : list string * string) (cfg : Map) : Prog W (Result gerror (DkimSign.Modifier (Signer := Signer))) :=
  match modify_dkim_directives args.1 args.2 cfg with
  | Panicked why => panic why
  | Done m =>
    match Process check_zero (order m) m ∅ with
    | (_, _, Err err) => mret (Err err)
    | (vs, _, Ok _) => DkimSign.Init lib files (string_of vs "hash") (string_of vs "key_path") (string_of vs "newkey_algo") (modify_dkim_of vs)
    end
  end.
End ModifyDkim.

(** ** What the directives give *)

(** Maps whose directives are all values, each with a variable of its own *)
Definition plain_entry (e : string * matcher) : bool :=
  bool_decide (mt_name e.2 = e.1) && (match mt_customCallback e.2 with None => true | Some _ => false end) &&
  (match mt_mapper e.2 with Some _ => true | None => false end) && (match mt_store e.2 with Some _ => true | None => false end).
Definition stores (l : list (string * matcher)) : list (option string) := map (fun e => mt_store e.2) l.
Definition plain_map (m : Map) : bool :=
  forallb plain_entry (map_to_list (cm_entries m)) && bool_decide (NoDup (stores (map_to_list (cm_entries m)))).

Lemma NoDup_map_eq {A B} (f : A -> B) l x y : NoDup (map f l) -> x ∈ l -> y ∈ l -> f x = f y -> x = y.
Proof.
  intros Hnd [i Hi]%list_elem_of_lookup [j Hj]%list_elem_of_lookup E. assert (i = j) as ->; [|congruence].
  apply (NoDup_lookup _ i j (f x) Hnd); rewrite list_lookup_fmap; [by rewrite Hi|rewrite Hj; cbn; congruence].
Qed.
Lemma plain_map_ok m : plain_map m = true -> wf_map m /\ separate m.
Proof.
  unfold plain_map. rewrite andb_true_iff, bool_decide_eq_true, forallb_forall. intros [Hp Hnd].
  assert (He : forall name mt, cm_entries m !! name = Some mt -> (name, mt) ∈ map_to_list (cm_entries m) /\ plain_entry (name, mt) = true).
  { intros name mt E%elem_of_map_to_list. split; [done|]. apply Hp. by apply list_elem_of_In. }
  assert (Hs : forall name mt, cm_entries m !! name = Some mt -> mt_name mt = name /\ mt_customCallback mt = None /\ mt_mapper mt <> None).
  { intros name mt [_ E]%He. unfold plain_entry in E. cbn in E. rewrite !andb_true_iff, bool_decide_eq_true in E.
    destruct E as [[[-> ?] ?] _]. by destruct (mt_customCallback mt), (mt_mapper mt). }
  split; [|split].
  - intros name mt E. destruct (Hs _ _ E) as (? & -> & ?). done.
  - intros n1 n2 mt1 mt2 x [E1 _]%He [E2 _]%He S1 S2.
    pose proof (NoDup_map_eq (fun e : string * matcher => mt_store e.2) _ _ _ Hnd E1 E2) as Hq. cbn in Hq. rewrite S1, S2 in Hq. by injection (Hq eq_refl).
  - intros n1 n2 mt1 mt2 x cb node vs _ E2 _ C2. destruct (Hs _ _ E2) as (_ & ? & _). congruence.
Qed.

(** The action a block gives to a directive *)
Definition configured (blk : Node) (name : string) (dflt : FailAction) : Result gerror FailAction :=
  match named name (children blk) with
  | [] => Ok dflt
  | [n] => FailActionDirective n
  | _ :: n :: _ => Err (NodeErr n ("duplicate directive: " +:+ node_Name n))
  end.
Hypothesis order_ok : forall m, range_order m (order m).

Lemma processed_spec m vs m' u name mt x : plain_map m = true -> Process check_zero (order m) m ∅ = (vs, m', Ok u) ->
  cm_entries m !! name = Some mt -> mt_store mt = Some x -> entry_value m (cm_Globals m) (cm_Block m) mt = Ok (vs !! x).
Proof.
  intros [Hwf Hsep]%plain_map_ok E En Ex. pose proof (ProcessWith_spec check_zero m (cm_Globals m) (cm_Block m) ∅ _ Hwf Hsep (order_ok m)) as Hs.
  unfold Process in E. rewrite E in Hs. destruct Hs as [Hs _]. destruct (Hs _ _ En) as (v & Hv & Hx & _). rewrite Hv, (Hx _ Ex). by destruct v.
Qed.
Lemma default_read m vs m' u name mt x v : plain_map m = true -> Process check_zero (order m) m ∅ = (vs, m', Ok u) ->
  cm_entries m !! name = Some mt -> mt_store mt = Some x -> mt_inheritGlobal mt = false -> mt_required mt = false -> mt_mapper mt <> None ->
  mt_defaultVal mt = Some (Ok v) -> named (mt_name mt) (children (cm_Block m)) = [] -> vs !! x = Some v.
Proof.
  intros Hp E En Ex Hi Hr Hm Hd Hn. pose proof (processed_spec _ _ _ _ _ _ _ Hp E En Ex) as Hv. unfold entry_value in Hv.
  rewrite Hn, Hi, Hr, Hd in Hv. destruct (mt_mapper mt); [|done]. by injection Hv.
Qed.
Lemma action_read m vs m' u name d : plain_map m = true -> Process check_zero (order m) m ∅ = (vs, m', Ok u) ->
  cm_entries m !! name = Some (action_matcher name d) -> configured (cm_Block m) name d = Ok (action_of vs name).
Proof.
  intros Hp E En. pose proof (processed_spec _ _ _ _ _ _ _ Hp E En eq_refl) as Hv. unfold entry_value, configured, action_of in *. cbn in Hv.
  destruct (named name _) as [|n [|n' ns]]; [by injection Hv as <-| |done].
  unfold action_mapper in Hv. destruct (FailActionDirective n) as [a|e]; [|done]. cbn in Hv. by injection Hv as <-.
Qed.


Definition enum_matcher (name : string) (allowed : list string) (dflt : string) : matcher :=
  mkMatcher name false false (Some (Ok (VString dflt))) (Some (fun _ => Enum_mapper allowed)) (Some name) None.
Lemma enum_read m vs m' u name allowed dflt : plain_map m = true -> Process check_zero (order m) m ∅ = (vs, m', Ok u) ->
  cm_entries m !! name = Some (enum_matcher name allowed dflt) -> dflt ∈ allowed -> string_of vs name ∈ allowed.
Proof.
  intros Hp E En Hd. pose proof (processed_spec _ _ _ _ _ _ _ Hp E En eq_refl) as Hv. unfold entry_value, string_of in *. cbn in Hv.
  destruct (named name _) as [|n [|n' ns]]; [by injection Hv as <-| |done].
  destruct (Enum_mapper allowed n) as [v|] eqn:Em; [|done]. injection Hv as <-. by apply Enum_mapper_in in Em as (s & -> & ?).
Qed.

(** Init of check.spf returns; the actions of the check are those of the block, or their
    defaults. *)
Lemma spf_Init_spec gl blk : exists r, spf_Init (NewMap gl blk) = Done r /\ forall c, r = Ok c ->
  configured blk "none_action" no_action = Ok (MailAuth.sp_noneAction c) /\
  configured blk "neutral_action" no_action = Ok (MailAuth.sp_neutralAction c) /\
  configured blk "fail_action" quarantine_action = Ok (MailAuth.sp_failAction c) /\
  configured blk "softfail_action" no_action = Ok (MailAuth.sp_softfailAction c) /\
  configured blk "permerr_action" no_action = Ok (MailAuth.sp_permerrAction c) /\
  configured blk "temperr_action" no_action = Ok (MailAuth.sp_temperrAction c).
Proof.
  pose (m := match spf_directives (NewMap gl blk) with Done m => m | Panicked _ => NewMap gl blk end).
  assert (Hp : plain_map m = true) by (vm_compute; reflexivity).
  exists (processed m (fun vs _ =>
    Ok (MailAuth.mkSpfCheck (bool_of vs "enforce_early") (action_of vs "none_action") (action_of vs "neutral_action") (action_of vs "fail_action")
      (action_of vs "softfail_action") (action_of vs "permerr_action") (action_of vs "temperr_action")))).
  split; [reflexivity|]. intros c E. unfold processed in E. destruct (Process _ _ _ _) as [[vs m'] [u|e]] eqn:Ep; [|done]. injection E as <-.
  repeat split; by apply (action_read m vs m' u).
Qed.

(** The fields that check.dkim requires to be signed and its actions *)
Lemma dkim_Init_spec gl blk : exists r, dkim_Init (NewMap gl blk) = Done r /\ forall c, r = Ok c ->
  configured blk "broken_sig_action" no_action = Ok (MailAuth.dk_brokenSigAction c) /\
  configured blk "no_sig_action" no_action = Ok (MailAuth.dk_noSigAction c) /\
  (named "required_fields" (children blk) = [] -> MailAuth.dk_requiredFields c = MailAuth.required_set ["From"; "Subject"]).
Proof.
  pose (m := match dkim_directives (NewMap gl blk) with Done m => m | Panicked _ => NewMap gl blk end).
  assert (Hp : plain_map m = true) by (vm_compute; reflexivity).
  exists (processed m (fun vs _ =>
    Ok (MailAuth.mkDkimCheck (MailAuth.required_set (strings_of vs "required_fields")) (action_of vs "broken_sig_action")
      (action_of vs "no_sig_action") (bool_of vs "fail_open")))).
  split; [reflexivity|]. intros c E. unfold processed in E. destruct (Process _ _ _ _) as [[vs m'] [u|e]] eqn:Ep; [|done]. injection E as <-.
  split; [by apply (action_read m vs m' u)|]. split; [by apply (action_read m vs m' u)|]. intros Hn. cbn [MailAuth.dk_requiredFields].
  unfold strings_of. by rewrite (default_read m vs m' u "required_fields" _ _ _ Hp Ep eq_refl eq_refl eq_refl eq_refl ltac:(done) eq_refl Hn).
Qed.

(** check.rspamd and target.smtp: Init returns. *)
Lemma rspamd_Init_returns apiPath gl blk : exists r, rspamd_Init apiPath (NewMap gl blk) = Done r.
Proof.
  assert (Hd : match rspamd_directives apiPath (NewMap gl blk) with Done _ => true | Panicked _ => false end = true) by (vm_compute; reflexivity).
  unfold rspamd_Init. destruct (rspamd_directives _ _) as [m|why]; [by eexists|done].
Qed.
Lemma downstream_Init_returns modName inlineArgs gl blk : exists r, downstream_Init modName inlineArgs (NewMap gl blk) = Done r.
Proof.
  assert (Hd : forall lmtp, match downstream_directives lmtp (NewMap gl blk) with Done _ => true | Panicked _ => false end = true) by (vm_compute; reflexivity).
  unfold downstream_Init. specialize (Hd (is_lmtp modName)). destruct (downstream_directives _ _) as [m|why]; [by eexists|done].
Qed.

(** The lists of check.dnsbl: one per zone, and none with a negative score looks at names,
    which a client chooses. *)
Definition fair (l : Dnsbl.List) : Prop := Dnsbl.ScoreAdj l < 0 -> Dnsbl.EHLO l = false /\ Dnsbl.MAILFROM l = false.
Lemma add_zones_spec zones l bls bls' : Dnsbl.add_zones zones l bls = Ok bls' ->
  exists ls, bls' = bls ++ ls /\ map Dnsbl.Zone ls = zones /\ Forall fair ls.
Proof.
  revert bls. induction zones as [|zone zones IH]; intros bls E; cbn in E; [injection E as <-; exists []; by rewrite app_nil_r|].
  destruct (_ && Dnsbl.EHLO l) eqn:E1; [done|]. destruct (_ && Dnsbl.MAILFROM l) eqn:E2; [done|].
  destruct (IH _ E) as (ls & -> & <- & Hf). exists (Dnsbl.with_zone zone l :: ls). rewrite <-app_assoc. split; [done|]. split; [done|].
  constructor; [|done]. intros Hs%Z.ltb_lt. cbn in *. by rewrite Hs in E1, E2.
Qed.
Lemma read_list_spec node bls : exists r, read_list node bls = Done r /\ forall bls', r = Ok bls' ->
  exists ls, bls' = bls ++ ls /\ map Dnsbl.Zone ls = node_Name node :: node_Args node /\ Forall fair ls.
Proof.
  assert (Hd : match list_directives (NewMap ∅ node) with Done _ => true | Panicked _ => false end = true) by (vm_compute; reflexivity).
  unfold read_list. destruct (list_directives _) as [m|why]; [|done].
  eexists. split; [reflexivity|]. intros bls' E. unfold processed in E. destruct (Process _ _ _ _) as [[vs m'] [u|e]]; [|done].
  unfold Dnsbl.readListCfg in E. destruct (Dnsbl.read_nets _ _) as [nets|e]; [|done]. by apply add_zones_spec in E.
Qed.
Lemma read_lists_spec nodes : forall bls, exists r, read_lists nodes bls = Done r /\ forall bls', r = Ok bls' ->
  exists ls, bls' = bls ++ ls /\ map Dnsbl.Zone ls = concat (map (fun n => node_Name n :: node_Args n) nodes) /\ Forall fair ls.
Proof.
  induction nodes as [|node nodes IH]; intros bls; cbn [read_lists].
  { eexists. split; [reflexivity|]. intros bls' [= <-]. exists []. by rewrite app_nil_r. }
  destruct (read_list_spec node bls) as (r & -> & Hr). cbn [mbind outcome_bind]. destruct r as [bls1|e]; [|by eexists].
  destruct (Hr _ eq_refl) as (l1 & -> & Z1 & F1). destruct (IH (bls ++ l1)) as (r & -> & Hr2). eexists. split; [reflexivity|].
  intros bls' E. destruct (Hr2 _ E) as (l2 & -> & Z2 & F2). exists (l1 ++ l2). rewrite <-app_assoc. split; [done|].
  split; [|by apply Forall_app]. rewrite map_app, Z1, Z2. done.
Qed.
Lemma dnsbl_Init_spec resolver inlineBls gl blk : exists r, dnsbl_Init resolver inlineBls (NewMap gl blk) = Done r /\ forall bl, r = Ok bl ->
  let given := filter (fun n => node_Name n ∉ ["debug"; "check_early"; "quarantine_threshold"; "reject_threshold"]) (children blk) in
  map Dnsbl.Zone (Dnsbl.bl_bls bl) = inlineBls ++ concat (map (fun n => node_Name n :: node_Args n) given) /\ Forall fair (Dnsbl.bl_bls bl).
Proof.
  assert (Hd : match dnsbl_directives (NewMap gl blk) with
               | Done m => plain_map m = true /\ cm_Block m = blk /\
                   bool_decide (dom (cm_entries m) = {["debug"; "check_early"; "quarantine_threshold"; "reject_threshold"]} :> gset string) = true
               | Panicked _ => False
               end) by (vm_compute; done).
  unfold dnsbl_Init. destruct (dnsbl_directives _) as [m|why]; [|done]. destruct Hd as (Hp & <- & Hdom%bool_decide_eq_true).
  destruct (plain_map_ok _ Hp) as [Hwf Hsep]. cbn [mbind outcome_bind].
  pose proof (ProcessWith_spec check_zero m (cm_Globals m) (cm_Block m) ∅ _ Hwf Hsep (order_ok m)) as Hs. unfold Process.
  destruct (ProcessWith _ _ _ _ _ _) as [[vs m'] [u|e]]; [|by eexists]. destruct Hs as (_ & Hu & _).
  destruct (read_lists_spec u (Dnsbl.inline_lists inlineBls)) as (r & -> & Hr). cbn [mbind outcome_bind]. eexists. split; [reflexivity|].
  intros bl E. destruct r as [bls|e]; [|done]. destruct (Hr _ eq_refl) as (ls & -> & Hz & Hf). injection E as <-. cbn [Dnsbl.bl_bls].
  assert (Hi : Forall fair (Dnsbl.inline_lists inlineBls) /\ map Dnsbl.Zone (Dnsbl.inline_lists inlineBls) = inlineBls).
  { clear. unfold Dnsbl.inline_lists. split; [by induction inlineBls; constructor|]. induction inlineBls as [|z l IH]; [done|]. cbn. by rewrite IH. }
  rewrite map_app, (proj2 Hi), Hz. split; [|apply Forall_app; split; [apply Hi|done]]. do 3 f_equal. rewrite Hu. apply list_filter_iff.
  intros n. rewrite <-not_elem_of_dom, Hdom. set_solver.
Qed.

(** modify.dkim starts with a hash and an algorithm it knows, a domain and a selector, or
    does not touch the keys: the panic of Init is not reached. *)
Lemma modify_dkim_Init_spec {W Signer} lib files args gl blk (w : W) :
  (exists e, modify_dkim_Init (Signer := Signer) lib files args (NewMap gl blk) w = (w, Done (Err e))) \/
  (exists template algo m, modify_dkim_Init lib files args (NewMap gl blk) w = DkimSign.init_domains lib files template algo (DkimSign.dk_domains m) m w /\
     algo ∈ ["rsa4096"; "rsa2048"; "ed25519"] /\ DkimSign.dk_domains m <> [] /\ DkimSign.dk_selector m <> "" /\
     (DkimSign.dk_signSubdomains m = true -> length (DkimSign.dk_domains m) = 1%nat)).
Proof.
  assert (Hd : match modify_dkim_directives args.1 args.2 (NewMap gl blk) with
               | Done m => plain_map m = true /\ cm_entries m !! "hash" = Some (enum_matcher "hash" ["sha256"] "sha256") /\
                   cm_entries m !! "newkey_algo" = Some (enum_matcher "newkey_algo" ["rsa4096"; "rsa2048"; "ed25519"] "rsa2048")
               | Panicked _ => False
               end) by (vm_compute; done).
  unfold modify_dkim_Init. destruct (modify_dkim_directives _ _ _) as [m|why]; [|done]. destruct Hd as (Hp & Hhash & Halgo).
  destruct (Process _ _ _ _) as [[vs m'] [u|e]] eqn:Ep; [|left; by eexists].
  pose proof (enum_read _ _ _ _ _ _ _ Hp Ep Hhash ltac:(set_solver)) as Hh. pose proof (enum_read _ _ _ _ _ _ _ Hp Ep Halgo ltac:(set_solver)) as Ha.
  unfold DkimSign.Init. case_decide; [left; by eexists|]. case_decide; [left; by eexists|].
  destruct (_ && _) eqn:Es; [left; by eexists|]. right. apply list_elem_of_singleton in Hh. rewrite Hh.
  eexists _, _, _. split; [reflexivity|]. split; [done|]. split; [done|]. split; [done|].
  intros Hsub. rewrite Hsub in Es. cbn [andb] in Es. apply Nat.ltb_ge in Es. destruct (DkimSign.dk_domains _) as [|d [|d' ds]]; [done|done|cbn in Es; lia].
Qed.
End Start.

(** ** check.authorize_sender *)

Section Authorize.
Context `{UnicodeTables} `{TextLib} {W : Type}.
Inductive authz_value := AAction (a : FailAction) | ATable (t : Table W) | ANorm (f : string -> string * error).
Definition authz_zero (v : authz_value) : bool := match v with AAction a => bool_decide (a = no_action) | _ => false end.
Notation Map := (Map (V := authz_value)).
(** The table directive, authz.NormalizeFuncs as a map, and the order of the loop *)
Context (TableDirective : gmap string (ConfigMap.value (V := authz_value)) -> Node -> Result gerror (Table W)) (order : Map -> list (matcher (V := authz_value))).
Definition normalize_map : gmap string authz_value :=
  list_to_map (omap (fun name => (fun f => (name, ANorm f)) <$> Authz.NormalizeFuncs name)
    ["auto"; "precis_casefold_email"; "precis_casefold"; "precis_email"; "precis"; "casefold"; "noop"]).
Definition reject_action : FailAction := mkFailAction false true None.
Definition authz_action (name : string) : Map -> Outcome Map :=
  Custom name false false (Some (Ok (VCustom (AAction reject_action)))) (fun _ n => a ← FailActionDirective n; Ok (VCustom (AAction a))) (Some name).
Definition authz_table (name : string) : Map -> Outcome Map :=
  Custom name false false (Some (Ok (VCustom (ATable Tables.identity_table)))) (fun gl n => t ← TableDirective gl n; Ok (VCustom (ATable t))) (Some name).
Definition authz_directives (cfg : Map) : Outcome Map :=
  cfg ← Map_Bool "debug" true false (Some "debug") cfg;
  cfg ← Map_Bool "check_header" false true (Some "check_header") cfg;
  cfg ← authz_table "prepare_email" cfg;
  cfg ← authz_table "user_to_email" cfg;
  cfg ← authz_action "unauth_action" cfg;
  cfg ← authz_action "no_match_action" cfg;
  cfg ← authz_action "err_action" cfg;
  cfg ← EnumMapped "auth_normalize" true false normalize_map (ANorm Authz.NormalizeAuto) (Some "auth_normalize") cfg;
  EnumMapped "from_normalize" true false normalize_map (ANorm Authz.NormalizeAuto) (Some "from_normalize") cfg.
Definition authz_Init (cfg : Map) : Outcome (Result gerror (Authz.Check (W := W))) :=
  m ← authz_directives cfg;
  mret (match Process authz_zero (order m) m ∅ with
        | (_, _, Err err) => Err err
        | (vs, _, Ok _) =>
          let tbl x := match vs !! x with Some (VCustom (ATable t)) => t | _ => Tables.identity_table end in
          let act x := match vs !! x with Some (VCustom (AAction a)) => a | _ => no_action end in
          let norm x := match vs !! x with Some (VCustom (ANorm f)) => f | _ => Authz.NormalizeAuto end in
          Ok (Authz.mkCheck (match vs !! "check_header" with Some (VBool b) => b | _ => false end) (tbl "prepare_email") (tbl "user_to_email")
                (act "unauth_action") (act "no_match_action") (act "err_action") (norm "from_normalize") (norm "auth_normalize"))
        end).
Lemma authz_Init_returns gl blk : exists r, authz_Init (NewMap gl blk) = Done r.
Proof.
  assert (Hd : match authz_directives (NewMap gl blk) with Done _ => true | Panicked _ => false end = true) by (vm_compute; reflexivity).
  unfold authz_Init. destruct (authz_directives _) as [m|why]; [by eexists|done].
Qed.
End Authorize.

(** ** Groups of checks and pipelines as modules *)

(** CheckGroup.Init, as a program that asks for the checks of its block; [k] gets L. *)
Section CheckGroup.
Context {G I : Type} (check : I).
Fixpoint group_checks (globals : G) (nodes : list Node) (L : list nat) (k : list nat -> Registry.code (G := G) (I := I)) : Registry.code :=
  match nodes with
  | [] => k L
  | node :: nodes =>
    Registry.FromNode "check" (node_Name node :: node_Args node) node globals check (fun r =>
      match r with Err err => Registry.Return (Some err) | Ok chk => group_checks globals nodes (L ++ [chk]) k end)
  end.
Definition CheckGroup_Init (globals : G) (block : Node) (k : list nat -> Registry.code (G := G) (I := I)) : Registry.code :=
  group_checks globals (children block) [] k.
End CheckGroup.

Section PipelineModule.
Context `{Textproto} `{UnicodeTables} `{TextLib} `{Dmarc.DmarcLib} {W S V : Type} (V_zero : V -> bool) (reg : PipelineCfg.registry (W := W) (V := S))
  (order : Map (V := V) -> list (matcher (V := V))).
(** Module.Init of msgpipeline: the hostname is read, and kept nowhere. *)
Definition msgpipeline_Init (cfg : Map (V := V)) : Prog S (Result gerror (Pipeline.MsgPipeline (W := W))) :=
  match (m ← Map_String "hostname" true true "" (Some "hostname") cfg; m ← Map_Bool "debug" true false (Some "debug") m; mret (AllowUnknown m)) with
  | Panicked why => panic why
  | Done m =>
    match Process V_zero (order m) m ∅ with
    | (_, _, Err err) => mret (Err err)
    | (_, _, Ok other) => PipelineCfg.New reg other
    end
  end.
(** Whatever hostname the block gives, the pipeline has none. *)
Lemma msgpipeline_no_hostname cfg w w' p : msgpipeline_Init cfg w = (w', Done (Ok p)) -> Pipeline.mp_Hostname p = "".
Proof.
  unfold msgpipeline_Init. destruct (_ ← _; _) as [m|why]; [|done]. destruct (Process _ _ _ _) as [[vs m'] [other|e]]; [|done].
  apply PipelineCfg.New_no_hostname.
Qed.
End PipelineModule.

(** ** RunEarlyChecks *)

Section Early.
(** The type assertion to module.EarlyCheck; the checks in the order in which their
    goroutines finish *)
Context {Check W : Type} (early : Check -> option (ConnState -> Prog W error)).
(** errgroup: every function runs, and Wait returns the first error *)
Fixpoint group_Wait (fs : list (Prog W error)) : Prog W error :=
  match fs with
  | [] => mret None
  | f :: fs => err ← f; rest ← group_Wait fs; mret (match err with Some e => Some e | None => rest end)
  end.
Definition RunEarlyChecks (finished : list Check) (state : ConnState) : Prog W error :=
  group_Wait (omap (fun check => (fun f => f state) <$> early check) finished).

(** When the verdicts do not depend on the other checks, the connection is refused exactly
    when one of the checks that are early refuses it, with its error, in whatever order
    they finish. *)
Lemma RunEarlyChecks_spec (verdict : Check -> error) globalChecks finished state w :
  (forall c f w, early c = Some f -> exists w', f state w = (w', Done (verdict c))) -> finished ≡ₚ globalChecks ->
  exists w' err, RunEarlyChecks finished state w = (w', Done err) /\
    (err = None <-> forall c, c ∈ globalChecks -> early c <> None -> verdict c = None) /\
    (forall e, err = Some e -> exists c, c ∈ globalChecks /\ early c <> None /\ verdict c = Some e).
Proof.
  intros Hv Hperm. setoid_rewrite <-Hperm. clear Hperm globalChecks. unfold RunEarlyChecks. revert w.
  induction finished as [|c cs IH]; intros w; cbn [omap list_omap group_Wait].
  { exists w, None. split; [done|]. split; [split; [set_solver|done]|done]. }
  destruct (early c) as [f|] eqn:Ec; cbn [fmap option_fmap option_map group_Wait].
  - destruct (Hv c f w Ec) as [w1 E1]. destruct (IH w1) as (w2 & rest & E2 & Hnone & Hsome).
    cbv [mbind prog_bind mret prog_ret]. rewrite E1, E2. eexists _, _. split; [reflexivity|]. destruct (verdict c) as [e|] eqn:Ev.
    + split; [split; [done|]|]; [intros H; specialize (H c); rewrite Ev in H; set_solver|].
      intros e' [= <-]. exists c. rewrite Ec. split; [set_solver|done].
    + split.
      * rewrite Hnone. setoid_rewrite elem_of_cons. naive_solver.
      * intros e' E. destruct (Hsome e' E) as (c' & ? & ?). exists c'. set_solver.
  - destruct (IH w) as (w2 & rest & E2 & Hnone & Hsome). exists w2, rest. split; [exact E2|]. split.
    + rewrite Hnone. setoid_rewrite elem_of_cons. naive_solver.
    + intros e' E. destruct (Hsome e' E) as (c' & ? & ?). exists c'. set_solver.
Qed.
End Early.

(** ** Starting *)

#[local] Existing Instance ascii_tables.
Definition any_order (m : Map (V := check_value)) : list (matcher (V := check_value)) := map snd (map_to_list (cm_entries m)).
Lemma any_order_ok m : range_order m (any_order m).
Proof. unfold range_order. reflexivity. Qed.
Definition spf_block : Node := Config.block "spf" [] [directive "fail_action" ["reject"; "550"; "5.7.23"; "no"]; directive "softfail_action" ["quarantine"]].
Example spf_configured : spf_Init any_order (NewMap ∅ spf_block) =
  Done (Ok (MailAuth.mkSpfCheck false no_action no_action (mkFailAction false true (Some (RejectErr 550 (Ench 5 7 23) "no"))) quarantine_action no_action no_action)).
Proof. vm_compute. reflexivity. Qed.
Definition dnsbl_block : Node := Config.block "dnsbl" [] [directive "reject_threshold" ["2"];
  Config.block "bl.example" ["bl2.example"] [directive "score" ["-1"]]].
Definition some_net (_ : string) : Result gerror Dnsbl.IPNet := Ok (Dnsbl.mkIPNet [127; 0; 0; 0] [255; 255; 255; 0]).
(** A list is asked about IPv6 addresses unless told otherwise. *)
Example dnsbl_configured :
  match dnsbl_Init any_order some_net Dnsbl.sample_resolver ["in.example"] (NewMap ∅ dnsbl_block) with
  | Done (Ok bl) => map (fun l => (Dnsbl.Zone l, Dnsbl.ScoreAdj l, Dnsbl.ClientIPv6 l)) (Dnsbl.bl_bls bl) = [("in.example", 0, false); ("bl.example", -1, true); ("bl2.example", -1, true)] /\
                   Dnsbl.bl_rejectThres bl = 2
  | _ => False
  end.
Proof. vm_compute. done. Qed.
Example negative_score_with_ehlo :
  dnsbl_Init any_order some_net Dnsbl.sample_resolver [] (NewMap ∅ (Config.block "dnsbl" [] [Config.block "wl.example" [] [directive "score" ["-1"]; directive "ehlo" []]]))
  = Done (Err (ENew "dnsbl: 'ehlo' should not be used with negative score")).
Proof. vm_compute. reflexivity. Qed.
