(* ===== verification/SmtpSetup.v ===== *)
(** * SmtpSetup: how an SMTP endpoint starts (internal/endpoint/smtp/smtp.go)

    The settings of an smtp, submission or lmtp endpoint, the listeners it opens and
    serves, and its end.  The modules that the directives name, net.Listen, the pipeline
    and IDNA are parameters; what the endpoint does to the network is the list of events
    of its world. *)
From S2P Require Import Prelude GoStr GoText ExtErrors Config ConfigMap ConfigEndpoint Module Buffers Tls.
From stdpp Require Import gmap.

Local Open Scope Z_scope.

Section Setup.
(** Tables, normalisation functions, providers of passwords, limits, IP networks, loaders
    of certificates, pipelines *)
Context `{UnicodeTables} {Tbl Norm Prov Lim IPNet Ldr Pipe : Type}.
Notation tls_config := (TLSConfig Ldr).
Notation proxy := (ProxyProtocol IPNet tls_config).

Inductive smtp_value :=
| VMode (m : buffer_mode) | VTLS (c : tls_config) | VProxy (p : proxy) | VLimits (g : Lim)
| VTbl (t : Tbl) | VNorm (n : Norm) | VProvs (l : list Prov).
(** Functions and pointers that are not nil are not zero. *)
Definition smtp_zero (_ : smtp_value) : bool := false.
Notation value := (value (V := smtp_value)).
Notation Map := (Map (V := smtp_value)).
Notation vars := (gmap string value).

Inductive net_Listener :=
| Raw (network address : string)
| TLSListener (inner : net_Listener) (cfg : tls_config)
| ProxyListener (inner : net_Listener) (p : proxy).
Inductive event := Listened (network address : string) | Serving (l : net_Listener) | Closed (l : net_Listener) | ServerClosed.

Record SaslSettings := mkSaslSettings { ss_EnableLogin : bool; ss_AuthMap : option Tbl; ss_AuthNormalize : option Norm; ss_Plain : list Prov }.
Record Server := mkServer {
  sv_LMTP : bool;
  sv_EnableSMTPUTF8 : bool;
  sv_EnableREQUIRETLS : bool;
  sv_Domain : string;
  sv_WriteTimeout : Z;
  sv_ReadTimeout : Z;
  sv_MaxMessageBytes : Z;
  sv_MaxRecipients : Z;
  sv_MaxLineLength : Z;
  sv_AllowInsecureAuth : bool;
  sv_TLSConfig : option tls_config;
  sv_Debug : bool
}.
Record SmtpEndpoint := mkSmtpEndpoint {
  en_name : string;
  en_addrs : list string;
  en_submission : bool;
  en_lmtp : bool;
  en_saslAuth : SaslSettings;
  en_serv : Server;
  en_listeners : list net_Listener;
  en_proxyProtocol : option proxy;
  en_pipeline : option Pipe;
  en_limits : option Lim;
  en_buffer : buffer_mode;
  en_authAlwaysRequired : bool;
  en_deferServerReject : bool;
  en_maxLoggedRcptErrors : Z;
  en_maxReceived : Z;
  en_maxHeaderBytes : Z
}.
Definition Server_zero : Server := mkServer false false false "" 0 0 0 0 0 false None false.
(** New *)
Definition smtp_New (modName : string) (addrs : list string) : SmtpEndpoint :=
  mkSmtpEndpoint modName addrs (bool_decide (modName = "submission")) (bool_decide (modName = "lmtp")) (mkSaslSettings false None None [])
    Server_zero [] None None None ModeRam false false 0 0 0.

(** ** setConfig *)

(** The directives that name modules: the auth provider (nothing when the module does not
    check passwords), the table, the limits; the normalisation functions by their name; the
    tls loader; os.MkdirAll; net.ParseCIDR; idna.ToASCII; msgpipeline.New *)
Context (auth_module : gmap string value -> Node -> Result gerror (option Prov)) (table_module : gmap string value -> Node -> Result gerror Tbl)
  (limits_group : gmap string value -> Node -> Result gerror Lim) (limits_zero : Lim) (NormalizeFuncs : gmap string Norm) (NormalizeAuto : Norm)
  (tls_loader_module : list string -> Node -> Result gerror Ldr) (os_MkdirAll : string -> error) (StateDirectory : string)
  (ParseCIDR : string -> Result gerror IPNet) (idna_ToASCII : string -> Result gerror string)
  (msgpipeline_New : gmap string value -> list Node -> Result gerror Pipe).
(** The orders of the loops over the maps of the endpoint, of tls blocks and of the
    proxy_protocol block *)
Context (order : Map -> list (matcher (V := smtp_value))) (tls_order : ConfigMap.Map (V := tls_value Ldr) -> list (matcher (V := tls_value Ldr)))
  (proxy_order : ConfigMap.Map (V := tls_config) -> list (matcher (V := tls_config))).

Definition custom_value {A} (wrap : A -> smtp_value) (r : Result gerror A) : Result gerror value := v ← r; Ok (VCustom (wrap v)).
(** TLSDirective as a mapper: "off" is nil.  It does not panic ([tls_block_spec]). *)
Definition tls_mapper {V} (wrap : tls_config -> V) (n : Node) : Result gerror (ConfigMap.value (V := V)) :=
  match TLSDirective tls_loader_module tls_order n with
  | Done (Ok (Some c)) => Ok (VCustom (wrap c))
  | Done (Ok None) => Ok VNil
  | Done (Err err) => Err err
  | Panicked why => Err (ENew why)
  end.
Definition proxy_mapper (n : Node) : Result gerror value :=
  match ProxyProtocolDirective ParseCIDR (fun _ => false) (tls_mapper id) proxy_order n with
  | Done (Ok p) => Ok (VCustom (VProxy p))
  | Done (Err err) => Err err
  | Panicked why => Err (ENew why)
  end.
(** endp.saslAuth.AddProvider: the providers are in the order of the directives *)
Definition var_provs (vs : vars) : list Prov := match vs !! "Plain" with Some (VCustom (VProvs l)) => l | _ => [] end.
Definition add_provider (gl : gmap string value) (node : Node) (vs : vars) : vars * error :=
  match auth_module gl node with
  | Err err => (vs, Some err)
  | Ok None => (vs, Some (NodeErr node "auth: specified module does not provide any SASL mechanism"))
  | Ok (Some plainAuth) => (<["Plain" := VCustom (VProvs (var_provs vs ++ [plainAuth]))]> vs, None)
  end.
Definition second : Z := 1000000000.
Definition smtp_directives (name : string) (cfg : Map) : Outcome Map :=
  cfg ← Callback "auth" add_provider cfg;
  cfg ← Map_Bool "sasl_login" false false (Some "EnableLogin") cfg;
  cfg ← Map_String "hostname" true true "" (Some "hostname") cfg;
  cfg ← EnumMapped "auth_map_normalize" true false (VNorm <$> NormalizeFuncs) (VNorm NormalizeAuto) (Some "AuthNormalize") cfg;
  cfg ← Custom "auth_map" true false (Some (Ok VNil)) (fun gl n => custom_value VTbl (table_module gl n)) (Some "AuthMap") cfg;
  cfg ← Map_Duration "write_timeout" false false (1 * 60 * second) (Some "WriteTimeout") cfg;
  cfg ← Map_Duration "read_timeout" false false (10 * 60 * second) (Some "ReadTimeout") cfg;
  cfg ← DataSize "max_message_size" false false (32 * 1024 * 1024) (Some "MaxMessageBytes") cfg;
  cfg ← DataSize "max_header_size" false false (1 * 1024 * 1024) (Some "maxHeaderBytes") cfg;
  cfg ← Int "max_recipients" false false 20000 (Some "MaxRecipients") cfg;
  cfg ← Int "max_received" false false 50 (Some "maxReceived") cfg;
  cfg ← Custom "buffer" false false (Some (custom_value VMode (default_mode os_MkdirAll StateDirectory)))
          (fun _ n => custom_value VMode (bufferModeDirective os_MkdirAll StateDirectory n)) (Some "buffer") cfg;
  cfg ← Custom "tls" true (negb (bool_decide (name = "lmtp"))) None (fun _ n => tls_mapper VTLS n) (Some "TLSConfig") cfg;
  cfg ← Custom "proxy_protocol" false false None (fun _ n => proxy_mapper n) (Some "proxyProtocol") cfg;
  cfg ← Map_Bool "insecure_auth" (bool_decide (name = "lmtp")) false (Some "AllowInsecureAuth") cfg;
  cfg ← Int "smtp_max_line_length" false false 4000 (Some "MaxLineLength") cfg;
  cfg ← Map_Bool "io_debug" false false (Some "ioDebug") cfg;
  cfg ← Map_Bool "debug" true false (Some "Debug") cfg;
  cfg ← Map_Bool "defer_sender_reject" false true (Some "deferServerReject") cfg;
  cfg ← Int "max_logged_rcpt_errors" false false 5 (Some "maxLoggedRcptErrors") cfg;
  cfg ← Custom "limits" false false (Some (Ok (VCustom (VLimits limits_zero)))) (fun gl n => custom_value VLimits (limits_group gl n)) (Some "limits") cfg;
  mret (AllowUnknown cfg).

Definition some_of {A} (proj : smtp_value -> option A) (vs : vars) (x : string) : option A :=
  match vs !! x with Some (VCustom v) => proj v | _ => None end.
Definition int_of (vs : vars) (x : string) : Z := match vs !! x with Some (VInt _ n) | Some (VDuration n) => n | _ => 0 end.
Definition bool_of (vs : vars) (x : string) : bool := match vs !! x with Some (VBool b) => b | _ => false end.
Definition string_of (vs : vars) (x : string) : string := match vs !! x with Some (VString s) => s | _ => "" end.

(** The endpoint with the variables the directives were stored in *)
Definition configured (endp : SmtpEndpoint) (domain : string) (pipeline : option Pipe) (vs : vars) : SmtpEndpoint :=
  mkSmtpEndpoint (en_name endp) (en_addrs endp) (en_submission endp) (en_lmtp endp)
    (mkSaslSettings (bool_of vs "EnableLogin") (some_of (fun v => match v with VTbl t => Some t | _ => None end) vs "AuthMap")
       (some_of (fun v => match v with VNorm n => Some n | _ => None end) vs "AuthNormalize") (var_provs vs))
    (mkServer (en_lmtp endp) true true domain (int_of vs "WriteTimeout") (int_of vs "ReadTimeout") (int_of vs "MaxMessageBytes")
       (int_of vs "MaxRecipients") (int_of vs "MaxLineLength") (bool_of vs "AllowInsecureAuth")
       (some_of (fun v => match v with VTLS c => Some c | _ => None end) vs "TLSConfig") (bool_of vs "ioDebug"))
    (en_listeners endp) (some_of (fun v => match v with VProxy p => Some p | _ => None end) vs "proxyProtocol") pipeline
    (some_of (fun v => match v with VLimits g => Some g | _ => None end) vs "limits")
    (default (en_buffer endp) (some_of (fun v => match v with VMode m => Some m | _ => None end) vs "buffer"))
    (en_submission endp) (bool_of vs "deferServerReject") (int_of vs "maxLoggedRcptErrors") (int_of vs "maxReceived") (int_of vs "maxHeaderBytes").
Definition setConfig (endp : SmtpEndpoint) (cfg : Map) : Outcome (Result gerror SmtpEndpoint) :=
  m ← smtp_directives (en_name endp) cfg;
  mret (match Process smtp_zero (order m) m ∅ with
        | (_, _, Err err) => Err err
        | (vs, _, Ok unknown) =>
          match idna_ToASCII (string_of vs "hostname") with
          | Err err => Err (wrapf (en_name endp +:+ ": cannot represent the hostname as an A-label name") err)
          | Ok domain =>
            pipeline ← msgpipeline_New (cm_Globals cfg) unknown;
            if en_submission endp && (match var_provs vs with [] => true | _ => false end)
            then Err (EErrorf (en_name endp +:+ ": auth. provider must be set for submission endpoint") None)
            else Ok (configured endp domain (Some pipeline) vs)
          end
        end).

(** ** Listeners *)

(** The world is what happened so far; net.Listen may depend on it. *)
Context (net_Listen : list event -> string -> string -> error).
Definition happens (e : event) : Prog (list event) unit := modify (fun evs => evs ++ [e]).
Definition os_listen (network address : string) : Prog (list event) (Result gerror net_Listener) :=
  err ← gets (fun evs => net_Listen evs network address);
  match err with
  | Some err => mret (Err err)
  | None => happens (Listened network address) ;; mret (Ok (Raw network address))
  end.
Definition with_proxy (endp : SmtpEndpoint) (l : net_Listener) : net_Listener :=
  match en_proxyProtocol endp with Some p => ProxyListener l p | None => l end.
(** The listeners of endp after it, and its error; a goroutine serves each of them. *)
Fixpoint setupListeners (endp : SmtpEndpoint) (addresses : list Endpoint) (listeners : list net_Listener)
  : Prog (list event) (list net_Listener * error) :=
  match addresses with
  | [] => mret (listeners, None)
  | addr :: addresses =>
    r ← os_listen (Network addr) (Address addr);
    match r with
    | Err err => mret (listeners, Some (wrapf (en_name endp) err))
    | Ok l =>
      let serve l := let l := with_proxy endp l in happens (Serving l) ;; setupListeners endp addresses (listeners ++ [l]) in
      if IsTLS addr then
        match sv_TLSConfig (en_serv endp) with
        | None => mret (listeners, Some (EErrorf (en_name endp +:+ ": can't bind on SMTPS endpoint without TLS configuration") None))
        | Some c => serve (TLSListener l c)
        end
      else serve l
    end
  end.

(** ** Init and Close *)

Context (url_Parse : string -> Result gerror URL) (RuntimeDirectory : string) (url_show : URL -> string).
Fixpoint parse_addresses (name : string) (addrs : list string) : Result gerror (list Endpoint) :=
  match addrs with
  | [] => Ok []
  | addr :: addrs =>
    match ParseEndpoint url_Parse RuntimeDirectory url_show addr with
    | Err _ => Err (EErrorf (addr +:+ ": invalid address: " +:+ name) None)
    | Ok saddr => addresses ← parse_addresses name addrs; Ok (saddr :: addresses)
    end
  end.
Definition set_started (listeners : list net_Listener) (insecure : bool) (endp : SmtpEndpoint) : SmtpEndpoint :=
  let s := en_serv endp in
  mkSmtpEndpoint (en_name endp) (en_addrs endp) (en_submission endp) (en_lmtp endp) (en_saslAuth endp)
    (mkServer (sv_LMTP s) (sv_EnableSMTPUTF8 s) (sv_EnableREQUIRETLS s) (sv_Domain s) (sv_WriteTimeout s) (sv_ReadTimeout s) (sv_MaxMessageBytes s)
       (sv_MaxRecipients s) (sv_MaxLineLength s) insecure (sv_TLSConfig s) (sv_Debug s))
    listeners (en_proxyProtocol endp) (en_pipeline endp) (en_limits endp) (en_buffer endp) (en_authAlwaysRequired endp)
    (en_deferServerReject endp) (en_maxLoggedRcptErrors endp) (en_maxReceived endp) (en_maxHeaderBytes endp).
Definition smtp_Init (endp : SmtpEndpoint) (cfg : Map) : Prog (list event) (Result gerror SmtpEndpoint) :=
  match setConfig endp cfg with
  | Panicked why => panic why
  | Done (Err err) => mret (Err err)
  | Done (Ok endp) =>
    match parse_addresses (en_name endp) (en_addrs endp) with
    | Err err => mret (Err err)
    | Ok addresses =>
      '(listeners, err) ← setupListeners endp addresses (en_listeners endp);
      match err with
      | Some err => for_each (fun l => happens (Closed l)) listeners ;; mret (Err err)
      | None =>
        let insecure := match sv_TLSConfig (en_serv endp) with None => true | Some _ => sv_AllowInsecureAuth (en_serv endp) end in
        mret (Ok (set_started listeners insecure endp))
      end
    end
  end.
(** newSession: what the endpoint knows of a connection; the TLS handshake is complete or not *)
Definition newSession (endp : SmtpEndpoint) (handshakeComplete : bool) (hostname : string) (remote : option string) : ConnState :=
  mkConnState (if sv_LMTP (en_serv endp) then "LMTP" else if handshakeComplete then "ESMTPS" else "ESMTP") hostname remote "" "".
(** fetchRDNSName: what it sets the future of the name to; the connection may not be a TCP one *)
Definition fetchRDNSName (is_not_found : gerror -> bool) (LookupAddr : string -> Result gerror string) (tcpIP : option string) : option string * error :=
  match tcpIP with
  | None => (None, None)
  | Some ip =>
    match LookupAddr ip with
    | Ok name => (Some name, None)
    | Err err => if is_not_found err then (None, None) else (None, Some err)
    end
  end.
Definition smtp_Close : Prog (list event) error := happens ServerClosed ;; mret None.

(** ** What Init leaves *)

(** The listener of an address *)
Definition listener_of (endp : SmtpEndpoint) (addr : Endpoint) : net_Listener :=
  with_proxy endp (let l := Raw (Network addr) (Address addr) in
                   match IsTLS addr, sv_TLSConfig (en_serv endp) with true, Some c => TLSListener l c | _, _ => l end).
Definition servings (evs : list event) : list net_Listener := omap (fun e => match e with Serving l => Some l | _ => None end) evs.
Definition closings (evs : list event) : list net_Listener := omap (fun e => match e with Closed l => Some l | _ => None end) evs.
(** TLS has what it needs *)
Definition secured (endp : SmtpEndpoint) (addr : Endpoint) : Prop := IsTLS addr = true -> sv_TLSConfig (en_serv endp) <> None.

Lemma servings_app a b : servings (a ++ b) = servings a ++ servings b.
Proof. apply omap_app. Qed.
Lemma closings_app a b : closings (a ++ b) = closings a ++ closings b.
Proof. apply omap_app. Qed.

Lemma setupListeners_serves endp addresses : forall listeners evs evs' listeners' err,
  setupListeners endp addresses listeners evs = (evs', Done (listeners', err)) ->
  exists served, served `prefix_of` addresses /\ Forall (secured endp) served /\
    listeners' = listeners ++ map (listener_of endp) served /\ servings evs' = servings evs ++ map (listener_of endp) served /\
    closings evs' = closings evs /\ (err = None -> served = addresses).
Proof.
  induction addresses as [|addr addresses IH]; intros listeners evs evs' listeners' err E; cbn [setupListeners] in E.
  { cbv [mret prog_ret] in E. simplify_eq. exists []. rewrite !app_nil_r. done. }
  cbv [mbind prog_bind gets os_listen happens modify mret prog_ret] in E.
  destruct (net_Listen evs _ _) as [e|]; [simplify_eq; exists []; rewrite !app_nil_r; split; [apply prefix_nil|done]|].
  assert (Hgo : secured endp addr -> setupListeners endp addresses (listeners ++ [listener_of endp addr])
      ((evs ++ [Listened (Network addr) (Address addr)]) ++ [Serving (listener_of endp addr)]) = (evs', Done (listeners', err)) ->
    exists served, served `prefix_of` addr :: addresses /\ Forall (secured endp) served /\
    listeners' = listeners ++ map (listener_of endp) served /\ servings evs' = servings evs ++ map (listener_of endp) served /\
    closings evs' = closings evs /\ (err = None -> served = addr :: addresses)).
  { intros Hs Ego. destruct (IH _ _ _ _ _ Ego) as (served & Hp & Hf & Hl & Hv & Hc & He). exists (addr :: served).
    rewrite !servings_app in Hv. rewrite !closings_app in Hc. cbn in Hv, Hc. rewrite app_nil_r in Hv. rewrite !app_nil_r in Hc. cbn [map].
    split; [by apply prefix_cons|]. split; [by constructor|]. rewrite Hl, Hv, <- !app_assoc. repeat split; [done|]. intros Hn. by rewrite He. }
  destruct (IsTLS addr) eqn:Et.
  - destruct (sv_TLSConfig (en_serv endp)) as [c|] eqn:Ec.
    + assert (El : with_proxy endp (TLSListener (Raw (Network addr) (Address addr)) c) = listener_of endp addr) by (unfold listener_of; by rewrite Et, Ec).
      rewrite El in E. apply Hgo; [|done]. intros _. by rewrite Ec.
    + simplify_eq. exists []. rewrite servings_app, closings_app. cbn. rewrite !app_nil_r. split; [apply prefix_nil|done].
  - assert (El : with_proxy endp (Raw (Network addr) (Address addr)) = listener_of endp addr) by (unfold listener_of; by rewrite Et).
    rewrite El in E. apply Hgo; [|done]. intros Hs. congruence.
Qed.

(** No directive is registered twice. *)
Lemma smtp_directives_ok name gl blk : exists m, smtp_directives name (NewMap gl blk) = Done m.
Proof.
  assert (Hd : match smtp_directives name (NewMap gl blk) with Done _ => true | Panicked _ => false end = true) by (vm_compute; reflexivity).
  destruct (smtp_directives name (NewMap gl blk)) as [m|why]; [by exists m|done].
Qed.

Lemma setConfig_ok endp gl blk : exists r, setConfig endp (NewMap gl blk) = Done r /\
  forall endp', r = Ok endp' ->
    en_listeners endp' = en_listeners endp /\ en_addrs endp' = en_addrs endp /\ en_name endp' = en_name endp /\
    is_Some (en_pipeline endp') /\ sv_LMTP (en_serv endp') = en_lmtp endp /\
    (en_submission endp = true -> en_authAlwaysRequired endp' = true /\ ss_Plain (en_saslAuth endp') <> []).
Proof.
  unfold setConfig. destruct (smtp_directives_ok (en_name endp) gl blk) as [m ->]. cbn [mbind outcome_bind].
  eexists. split; [reflexivity|]. intros endp' E. destruct (Process _ _ _ _) as [[vs m'] [unknown|e]]; [|done].
  destruct (idna_ToASCII _) as [domain|e]; [|done]. destruct (msgpipeline_New _ _) as [pipeline|e]; [|done]. cbn in E.
  destruct (en_submission endp) eqn:Es; cbn in E; [destruct (var_provs vs) eqn:Ep; [done|]|]; injection E as <-; cbn; rewrite Es; repeat split; eauto; try done.
  by rewrite Ep.
Qed.

Lemma close_all ls : forall evs, for_each (fun l => happens (Closed l)) ls evs = (evs ++ map Closed ls, Done tt).
Proof.
  induction ls as [|l ls IH]; intros evs; cbn [for_each map]; [by rewrite app_nil_r|].
  cbv [mbind prog_bind happens modify]. rewrite IH. by rewrite <- app_assoc.
Qed.
Lemma servings_closed ls : servings (map Closed ls) = [].
Proof. by induction ls. Qed.
Lemma closings_closed ls : closings (map Closed ls) = ls.
Proof. induction ls as [|l ls IH]; [done|]. cbn. f_equal. exact IH. Qed.

(** C31: Init of a new endpoint: it returns; when it succeeds it serves each of its addresses,
    in their order, and keeps all its listeners open: those of tls addresses behind TLS, and
    all of them behind the proxy protocol when it is configured; the endpoint has a pipeline,
    one for submission requires authentication and has a provider for it, and without TLS
    passwords are taken in clear.  When it fails every listener it served is closed. *)
Theorem smtp_started modName addrs gl blk evs : exists evs' r, smtp_Init (smtp_New modName addrs) (NewMap gl blk) evs = (evs', Done r) /\
  match r with
  | Ok endp => exists addresses,
      parse_addresses modName addrs = Ok addresses /\ Forall (secured endp) addresses /\
      en_listeners endp = map (listener_of endp) addresses /\
      servings evs' = servings evs ++ en_listeners endp /\ closings evs' = closings evs /\
      is_Some (en_pipeline endp) /\ sv_LMTP (en_serv endp) = bool_decide (modName = "lmtp") /\
      (modName = "submission" -> en_authAlwaysRequired endp = true /\ ss_Plain (en_saslAuth endp) <> []) /\
      (sv_TLSConfig (en_serv endp) = None -> sv_AllowInsecureAuth (en_serv endp) = true)
  | Err _ => exists served, servings evs' = servings evs ++ served /\ closings evs' = closings evs ++ served
  end.
Proof.
  unfold smtp_Init. destruct (setConfig_ok (smtp_New modName addrs) gl blk) as (r & -> & Hr). destruct r as [endp|e].
  2: { eexists _, _. split; [reflexivity|]. exists []. by rewrite !app_nil_r. }
  destruct (Hr endp eq_refl) as (Hl & Ha & Hn & Hp & Hm & Hs). cbn in Hl, Ha, Hn, Hm, Hs. rewrite Ha, Hn, Hl.
  destruct (parse_addresses modName addrs) as [addresses|e] eqn:Epa.
  2: { eexists _, _. split; [reflexivity|]. exists []. by rewrite !app_nil_r. }
  destruct (setupListeners endp addresses [] evs) as [evs1 [[ls err]|why]] eqn:El.
  2: { exfalso. revert El. generalize (@nil net_Listener). revert evs. clear. induction addresses as [|addr addresses IH]; intros evs ls E; [done|].
       cbn [setupListeners] in E. cbv [mbind prog_bind gets os_listen happens modify mret prog_ret] in E.
       destruct (net_Listen _ _ _); [done|]. destruct (IsTLS addr); [destruct (sv_TLSConfig _); [|done]|]; by apply IH in E. }
  destruct (setupListeners_serves _ _ _ _ _ _ _ El) as (served & Hpre & Hf & -> & Hsv & Hc & Hall). cbn [app] in *.
  cbv [mbind prog_bind]. rewrite El. destruct err as [err|].
  - rewrite close_all. cbv [mret prog_ret]. eexists _, _. split; [reflexivity|]. exists (map (listener_of endp) served).
    rewrite servings_app, closings_app, servings_closed, closings_closed, app_nil_r, Hsv, Hc. done.
  - rewrite (Hall eq_refl) in *. eexists _, _. split; [reflexivity|]. exists addresses.
    cbn [set_started en_listeners en_pipeline en_serv sv_LMTP en_authAlwaysRequired en_saslAuth sv_TLSConfig sv_AllowInsecureAuth].
    do 7 (split; [done|]). split; [|by intros ->]. intros Hsub. apply Hs. by apply bool_decide_eq_true.
Qed.
End Setup.

(** ** Starting *)

#[local] Existing Instance ascii_tables.
Definition sample_url (s : string) : Result gerror URL :=
  match SplitN s colon 2 with [scheme; rest] => Ok (mkURL scheme "" (str_drop 2 rest) "") | _ => Err (ENew "no scheme") end.
Definition smtp_sample (modName : string) (addrs : list string) (blk : Node) : Prog (list event) (Result gerror (SmtpEndpoint (Tbl := unit) (Norm := unit) (Prov := string) (Lim := unit) (IPNet := string) (Ldr := string) (Pipe := nat))) :=
  smtp_Init (Tbl := unit) (Norm := unit) (IPNet := string) (fun _ n => Ok (head (node_Args n))) (fun _ _ => Ok tt) (fun _ _ => Ok tt) tt ∅ tt file_loader (fun _ => None) "/var" Ok Ok
    (fun _ nodes => Ok (length nodes)) map_order map_order map_order (fun _ _ _ => None) sample_url "/run" (fun _ => "") (smtp_New modName addrs) (NewMap ∅ blk).
Definition submission_block : Node := Config.block "submission" [] [
  directive "hostname" ["mx.example.org"]; directive "tls" ["file"; "cert.pem"; "key.pem"]; directive "auth" ["passwords"];
  directive "max_message_size" ["64M"]; directive "default_destination" ["queue"]].
Example submission_starts :
  let '(evs, o) := smtp_sample "submission" ["tls://0.0.0.0:465"; "tcp://127.0.0.1:587"] submission_block [] in
  servings evs = match o with Done (Ok endp) => en_listeners endp | _ => [] end /\
  (match o with Done (Ok endp) => Some (ss_Plain (en_saslAuth endp), sv_MaxMessageBytes (en_serv endp), sv_Domain (en_serv endp), en_pipeline endp, length (en_listeners endp)) | _ => None end)
  = Some (["passwords"], 67108864, "mx.example.org", Some 1%nat, 2%nat).
Proof. vm_compute. done. Qed.
(** The listener of a tls address without TLS settings stays open, unserved. *)
Example tls_address_without_tls :
  let '(evs, o) := smtp_sample "lmtp" ["tls://0.0.0.0:24"] (Config.block "lmtp" [] [directive "hostname" ["mx"]]) [] in
  evs = [Listened "tcp" "0.0.0.0:24"] /\ o = Done (Err (EErrorf "lmtp: can't bind on SMTPS endpoint without TLS configuration" None)).
Proof. vm_compute. done. Qed.
