(* ===== verification/Imap.v ===== *)
(** * Imap: the IMAP endpoint (internal/endpoint/imap) and the Dovecot SASL endpoint
    (internal/endpoint/dovecot_sasld)

    How an IMAP endpoint starts, and which mailbox account a login opens.  The IMAP server
    is go-imap, which calls Login or the SASL servers of [Sasl]; the store is what its
    GetOrCreateIMAPAcct and IMAPExtensions do. *)
From S2P Require Import Prelude GoStr ExtErrors Config ConfigMap ConfigEndpoint Module Tables Authz PassTable Sasl Tls SmtpSetup.
From stdpp Require Import gmap.

Local Open Scope Z_scope.

(** ** Accounts *)

Section Accounts.
Context `{UnicodeTables} {W User : Type}.
Notation NormalizeFunc := (string -> string * error).

(** imapbackend.ErrInvalidCredentials, and errors.Is for it *)
Context (ErrInvalidCredentials : gerror) (is_invalid : gerror -> bool).
Record ImapAccounts := mkImapAccounts {
  ia_saslAuth : SASLAuth (W := W);
  ia_storageNormalize : NormalizeFunc;
  ia_storageMap : option (Table W);
  ia_GetOrCreateIMAPAcct : string -> Prog W (Result gerror User)
}.
Context (endp : ImapAccounts).
Definition usernameForStorage (saslUsername : string) : Prog W (Result gerror string) :=
  match ia_storageNormalize endp saslUsername with
  | (_, Some err) => mret (Err err)
  | (saslUsername, None) =>
    match ia_storageMap endp with
    | None => mret (Ok saslUsername)
    | Some m =>
      r ← tb_Lookup m saslUsername;
      mret (match r with Err err => Err err | Ok None => Err ErrInvalidCredentials | Ok (Some mapped) => Ok mapped end)
    end
  end.
Definition storage_error (err : gerror) : gerror := if is_invalid err then err else EErrorf "internal server error" None.
(** The account of an identity *)
Definition account_of (identity : string) : Prog W (Result gerror User) :=
  r ← usernameForStorage identity;
  match r with
  | Err err => mret (Err (storage_error err))
  | Ok username => ia_GetOrCreateIMAPAcct endp username
  end.
(** openAccount: [set_user] puts the connection in the authenticated state, with the account *)
Definition openAccount (set_user : User -> Prog W unit) (identity : string) : Prog W error :=
  u ← account_of identity;
  match u with Err err => mret (Some err) | Ok u => set_user u ;; mret None end.
Definition Login (username password : string) : Prog W (Result gerror User) :=
  err ← SASL_AuthPlain (ia_saslAuth endp) username password;
  match err with
  | Some _ => mret (Err ErrInvalidCredentials)
  | None => account_of username
  end.
(** The server of a mechanism that Init enables, for a connection *)
Definition imap_sasl (set_user : User -> Prog W unit) (mech : string) : sasl_Server (W := W) :=
  CreateSASL (ia_saslAuth endp) (fun identity _ => openAccount set_user identity) mech.

(** The name of the account: normalised, and mapped when there is a map *)
Definition names_account (username acct : string) (w w' : W) : Prop :=
  exists name, ia_storageNormalize endp username = (name, None) /\
  match ia_storageMap endp with
  | None => acct = name /\ w' = w
  | Some m => tb_Lookup m name w = (w', Done (Ok (Some acct)))
  end.
Lemma usernameForStorage_names username w w' acct : usernameForStorage username w = (w', Done (Ok acct)) -> names_account username acct w w'.
Proof.
  unfold usernameForStorage, names_account. destruct (ia_storageNormalize endp username) as [name [err|]]; intros E; [by injection E|].
  exists name. split; [done|]. destruct (ia_storageMap endp) as [m|]; [|by injection E as <- <-].
  apply prog_bind_Done in E as (w1 & r & El & E). destruct r as [[mapped|]|err]; cbv [mret prog_ret] in E; by simplify_eq.
Qed.
Lemma account_of_names identity w w' u : account_of identity w = (w', Done (Ok u)) ->
  exists acct w1, names_account identity acct w w1 /\ ia_GetOrCreateIMAPAcct endp acct w1 = (w', Done (Ok u)).
Proof.
  unfold account_of. intros E. apply prog_bind_Done in E as (w1 & r & Er & E). destruct r as [acct|err]; [|by injection E].
  exists acct, w1. split; [by apply usernameForStorage_names|done].
Qed.

(** A login opens an account only when a provider accepted the password, and it is the
    account that the storage map has for the normalised name. *)
Theorem imap_login username password w w' u : Login username password w = (w', Done (Ok u)) ->
  exists w1 w2 acct, SASL_AuthPlain (ia_saslAuth endp) username password w = (w1, Done None) /\
    names_account username acct w1 w2 /\ ia_GetOrCreateIMAPAcct endp acct w2 = (w', Done (Ok u)).
Proof.
  unfold Login. intros E. apply prog_bind_Done in E as (w1 & err & Ea & E). destruct err as [err|]; [by injection E|].
  destruct (account_of_names _ _ _ _ E) as (acct & w2 & Hn & Hg). eauto 10.
Qed.
End Accounts.

(** ** Extensions *)

Inductive extension := I18NLevel | Sort | Thread | Compress | Namespace.
Definition extensions_of (ext : string) : list extension :=
  (if decide (ext = "I18NLEVEL=1" \/ ext = "I18NLEVEL=2") then [I18NLevel] else if decide (ext = "SORT") then [Sort] else [])
  ++ (if HasPrefix ext "THREAD" then [Thread] else []).
Definition enableExtensions (exts : list string) : list extension := (exts ≫= extensions_of) ++ [Compress; Namespace].

(** ** Init *)

Section Setup.
Context `{UnicodeTables} {Tbl Norm Prov Lim IPNet Ldr Store : Type}.
Notation tls_config := (TLSConfig Ldr).
Notation net_Listener := (net_Listener (IPNet := IPNet) (Ldr := Ldr)).
Notation event := (event (IPNet := IPNet) (Ldr := Ldr)).
Inductive imap_value :=
| IStore (s : Store) | ITLS (c : tls_config) | IProxy (p : ProxyProtocol IPNet tls_config) | ITbl (t : Tbl) | INorm (n : Norm) | IProvs (l : list Prov).
Notation value := (value (V := imap_value)).
Notation Map := (Map (V := imap_value)).
Notation vars := (gmap string value).

Record ImapEndpoint := mkImapEndpoint {
  ie_Store : Store;
  ie_tlsConfig : option tls_config;
  ie_proxyProtocol : option (ProxyProtocol IPNet tls_config);
  ie_storageNormalize : option Norm;
  ie_storageMap : option Tbl;
  ie_sasl : SaslSettings (Tbl := Tbl) (Norm := Norm) (Prov := Prov);
  ie_AllowInsecureAuth : bool;
  ie_Debug : bool;
  ie_ErrorLog : bool;
  ie_extensions : list extension
}.

(** The modules the directives name and the mappers of tls and proxy_protocol; the order
    of the loop over the map; what the store says of itself *)
Context (auth_module : gmap string value -> Node -> Result gerror (option Prov)) (table_module : gmap string value -> Node -> Result gerror Tbl)
  (storage_module : gmap string value -> Node -> Result gerror Store) (NormalizeFuncs : gmap string Norm) (NormalizeAuto : Norm)
  (tls_mapper proxy_mapper : Node -> Result gerror value) (order : Map -> list (matcher (V := imap_value))) (IMAPExtensions : Store -> list string).

Definition imap_custom {A} (wrap : A -> imap_value) (r : Result gerror A) : Result gerror value := v ← r; Ok (VCustom (wrap v)).
Definition imap_provs (vs : vars) : list Prov := match vs !! "Plain" with Some (VCustom (IProvs l)) => l | _ => [] end.
Definition imap_add_provider (gl : gmap string value) (node : Node) (vs : vars) : vars * error :=
  match auth_module gl node with
  | Err err => (vs, Some err)
  | Ok None => (vs, Some (NodeErr node "auth: specified module does not provide any SASL mechanism"))
  | Ok (Some plainAuth) => (<["Plain" := VCustom (IProvs (imap_provs vs ++ [plainAuth]))]> vs, None)
  end.
Definition imap_directives (cfg : Map) : Outcome Map :=
  cfg ← Callback "auth" imap_add_provider cfg;
  cfg ← Map_Bool "sasl_login" false false (Some "EnableLogin") cfg;
  cfg ← Custom "storage" false true None (fun gl n => imap_custom IStore (storage_module gl n)) (Some "Store") cfg;
  cfg ← Custom "tls" true true None (fun _ n => tls_mapper n) (Some "tlsConfig") cfg;
  cfg ← Custom "proxy_protocol" false false None (fun _ n => proxy_mapper n) (Some "proxyProtocol") cfg;
  cfg ← Map_Bool "insecure_auth" false false (Some "insecureAuth") cfg;
  cfg ← Map_Bool "io_debug" false false (Some "ioDebug") cfg;
  cfg ← Map_Bool "io_errors" false false (Some "ioErrors") cfg;
  cfg ← Map_Bool "debug" true false (Some "Debug") cfg;
  cfg ← EnumMapped "storage_map_normalize" false false (INorm <$> NormalizeFuncs) (INorm NormalizeAuto) (Some "storageNormalize") cfg;
  cfg ← Custom "storage_map" false false (Some (Ok VNil)) (fun gl n => imap_custom ITbl (table_module gl n)) (Some "storageMap") cfg;
  cfg ← EnumMapped "auth_map_normalize" true false (INorm <$> NormalizeFuncs) (INorm NormalizeAuto) (Some "AuthNormalize") cfg;
  Custom "auth_map" true false (Some (Ok VNil)) (fun gl n => imap_custom ITbl (table_module gl n)) (Some "AuthMap") cfg.
Definition imap_of (store : Store) (vs : vars) : ImapEndpoint :=
  let get {A} (proj : imap_value -> option A) x := match vs !! x with Some (VCustom v) => proj v | _ => None end in
  let flag x := match vs !! x with Some (VBool b) => b | _ => false end in
  let tbl := get (fun v => match v with ITbl t => Some t | _ => None end) in
  let norm := get (fun v => match v with INorm n => Some n | _ => None end) in
  mkImapEndpoint store (get (fun v => match v with ITLS c => Some c | _ => None end) "tlsConfig")
    (get (fun v => match v with IProxy p => Some p | _ => None end) "proxyProtocol") (norm "storageNormalize") (tbl "storageMap")
    (mkSaslSettings (flag "EnableLogin") (tbl "AuthMap") (norm "AuthNormalize") (imap_provs vs))
    (flag "insecureAuth") (flag "ioDebug") (flag "ioErrors") (enableExtensions (IMAPExtensions store)).
Definition imap_settings (cfg : Map) : Outcome (Result gerror ImapEndpoint) :=
  m ← imap_directives cfg;
  mret (match Process (fun _ => false) (order m) m ∅ with
        | (_, _, Err err) => Err err
        | (vs, _, Ok _) =>
          match vs !! "Store" with
          | Some (VCustom (IStore store)) => Ok (imap_of store vs)
          | _ => Err (ENew "storage is required")
          end
        end).

(** The listeners: each address is served as soon as it is listened to, and nothing is
    closed when a later one fails. *)
Context (net_Listen : list event -> string -> string -> error) (url_Parse : string -> Result gerror URL) (RuntimeDirectory : string) (url_show : URL -> string).
Definition imap_wrap (endp : ImapEndpoint) (l : net_Listener) : net_Listener :=
  match ie_proxyProtocol endp with Some p => ProxyListener l p | None => l end.
Fixpoint imap_setupListeners (endp : ImapEndpoint) (addresses : list Endpoint) (listeners : list net_Listener)
  : Prog (list event) (Result gerror (list net_Listener)) :=
  match addresses with
  | [] => mret (Ok listeners)
  | addr :: addresses =>
    r ← os_listen net_Listen (Network addr) (Address addr);
    match r with
    | Err err => mret (Err (EErrorf ("imap: " +:+ Error err) None))
    | Ok l =>
      let serve l := let l := imap_wrap endp l in happens (Serving l) ;; imap_setupListeners endp addresses (listeners ++ [l]) in
      if IsTLS addr then
        match ie_tlsConfig endp with
        | None => mret (Err (ENew "imap: can't bind on IMAPS endpoint without TLS configuration"))
        | Some c => serve (TLSListener l c)
        end
      else serve l
    end
  end.
Fixpoint imap_addresses (addrs : list string) : Result gerror (list Endpoint) :=
  match addrs with
  | [] => Ok []
  | addr :: addrs =>
    match ParseEndpoint url_Parse RuntimeDirectory url_show addr with
    | Err _ => Err (EErrorf ("imap: invalid address: " +:+ addr) None)
    | Ok saddr => l ← imap_addresses addrs; Ok (saddr :: l)
    end
  end.
Definition set_insecure (endp : ImapEndpoint) : ImapEndpoint :=
  mkImapEndpoint (ie_Store endp) (ie_tlsConfig endp) (ie_proxyProtocol endp) (ie_storageNormalize endp) (ie_storageMap endp) (ie_sasl endp)
    (match ie_tlsConfig endp with None => true | Some _ => ie_AllowInsecureAuth endp end) (ie_Debug endp) (ie_ErrorLog endp) (ie_extensions endp).
Definition imap_Init (addrs : list string) (cfg : Map) : Prog (list event) (Result gerror (ImapEndpoint * list net_Listener)) :=
  match imap_settings cfg with
  | Panicked why => panic why
  | Done (Err err) => mret (Err err)
  | Done (Ok endp) =>
    match imap_addresses addrs with
    | Err err => mret (Err err)
    | Ok addresses =>
      r ← imap_setupListeners endp addresses [];
      mret (match r with Err err => Err err | Ok listeners => Ok (set_insecure endp, listeners) end)
    end
  end.
(** Close: [serv_Close] closes the server. *)
Definition imap_Close (serv_Close : error) (listeners : list net_Listener) : Prog (list event) error :=
  for_each (fun l => happens (Closed l)) listeners ;;
  match serv_Close with
  | Some err => mret (Some err)
  | None => happens ServerClosed ;; mret None
  end.

(** ** The Dovecot SASL endpoint: its loop over the addresses *)

Fixpoint sasld_listen (addrs : list string) : Prog (list event) error :=
  match addrs with
  | [] => mret None
  | addr :: addrs =>
    match ParseEndpoint url_Parse RuntimeDirectory url_show addr with
    | Err err => mret (Some (EErrorf ("dovecot_sasld: " +:+ Error err) None))
    | Ok parsed =>
      r ← os_listen net_Listen (Network parsed) (Address parsed);
      match r with
      | Err err => mret (Some (EErrorf ("dovecot_sasld: " +:+ Error err) None))
      | Ok l => happens (Serving l) ;; sasld_listen addrs
      end
    end
  end.
End Setup.
(** The SASL server of a mechanism: a success has no further effect. *)
Definition sasld_sasl `{UnicodeTables} {W} (s : SASLAuth (W := W)) (mech : string) : sasl_Server (W := W) :=
  CreateSASL s (fun _ _ => mret None) mech.

#[local] Existing Instance ascii_tables.
(** Bob's password opens the account his name is mapped to. *)
Definition sample_accounts : ImapAccounts (W := unit) (User := string) :=
  mkImapAccounts sample_sasl (fun s => (ToLower s, None)) (Some one_map) (fun acct => mret (Ok ("account of " +:+ acct))).
Definition imap_sample (username password : string) := Login (ENew "invalid credentials") (fun _ => false) sample_accounts username password tt.
Lemma imap_login_witness :
  imap_sample "bob" "secret" = (tt, Done (Ok "account of bob@example.org")) /\
  exists w1 w2 acct, SASL_AuthPlain sample_sasl "bob" "secret" tt = (w1, Done None) /\ names_account sample_accounts "bob" acct w1 w2.
Proof.
  assert (E : imap_sample "bob" "secret" = (tt, Done (Ok "account of bob@example.org"))) by (vm_compute; reflexivity).
  split; [exact E|]. destruct (imap_login (ENew "invalid credentials") (fun _ => false) sample_accounts "bob" "secret" tt tt _ E) as (w1 & w2 & acct & Ha & Hn & _).
  by exists w1, w2, acct.
Defined.
(** The sort extension, once for each of its names *)
Example extensions : enableExtensions ["SORT"; "THREAD=REFERENCES"; "I18NLEVEL=1"; "X"] = [Sort; Thread; I18NLevel; Compress; Namespace].
Proof. reflexivity. Qed.
