(* ===== verification/Session.v ===== *)
(** * Session: internal/endpoint/smtp

    The state of one SMTP or LMTP connection and its commands (session.go,
    submission.go, date.go, and NewSession of smtp.go).  The endpoint's pipeline,
    limits, authentication and buffer are the operations of an [Endpoint] record,
    programs of the world [W]; a command takes the session and returns it changed.
    go-smtp calls the commands one at a time, under the lock of the session. *)
From S2P Require Import Prelude GoStr ExtErrors Address Checks Module Dmarc.
From stdpp Require Import pretty.
From Stdlib Require Import Ascii.

Local Open Scope Z_scope.

(** ** Errors shown to the client *)

Section WrapErr.

(** errors.Is(err, context.DeadlineExceeded) *)
Definition is_deadline (err : gerror) : bool :=
  existsb (fun e => match e with EDeadline => true | _ => false end) (chain err).

(** smtp.SMTPError of go-smtp, with its Temporary method. *)
Definition go_smtp_error (code : Z) (ench : EnhancedCode) (msg : string) : gerror :=
  EGoSMTP code ench msg (Some (Z.quot code 100 =? 4)).

(** smtp.EnhancedCodeNotSet *)
Context (EnhancedCodeNotSet : EnhancedCode).

Definition mangle_rune (ch : Z) : Z := if 128 <? ch then 63 else ch.
Definition mangle (msg : string) : string := string_of_runes (map mangle_rune (runes msg)).

(** The code, enhanced code and message of an error. *)
Definition wrap_parts (err : gerror) : Z * EnhancedCode * string :=
  let ctxInfo := Fields (Some err) in
  match err with
  | EGoSMTP code ench msg _ => (code, ench, msg)
  | _ =>
    (match ctxInfo !! "smtp_code" with
     | Some (FInt c) => c
     | _ => if IsTemporary (Some err) then 451 else 554
     end,
     match ctxInfo !! "smtp_enchcode" with Some (FEnch c) => c | _ => EnhancedCodeNotSet end,
     match ctxInfo !! "smtp_msg" with Some (FStr m) => m | _ => "Internal server error" end)
  end.

Definition wrapErr (msgId : string) (mangleUTF8 : bool) (err : error) : error :=
  match err with
  | None => None
  | Some err =>
    if is_deadline err then Some (go_smtp_error 451 (Ench 4 4 5) "High load, try again later")
    else
      let '(code, ench, msg) := wrap_parts err in
      let msg := if decide (msgId = "") then msg else msg +:+ " (msg ID = " +:+ msgId +:+ ")" in
      Some (go_smtp_error code ench (if mangleUTF8 then mangle msg else msg))
  end.

Lemma wrapErr_Some msgId mangleUTF8 err : wrapErr msgId mangleUTF8 (Some err) <> None.
Proof. simpl. destruct (is_deadline err); [done|]. by destruct (wrap_parts err) as [[code ench] msg]. Qed.
End WrapErr.

(** ** limitedReader *)

Record limitedReader := mkLimitedReader { lr_N : Z; lr_E : error; lr_Enabled : bool }.

Section LimitedReader.
Context {W : Type} (R : Z -> Prog W (string * error)).

(** Read of a buffer of [len] bytes over the reader [R]. *)
Definition limited_Read (l : limitedReader) (len : Z) : Prog W (limitedReader * (string * error)) :=
  if negb (lr_Enabled l) then r ← R len; mret (l, r)
  else if lr_N l <=? 0 then mret (l, ("", lr_E l))
  else
    let len := if lr_N l <? len then lr_N l else len in
    r ← R len;
    mret (mkLimitedReader (lr_N l - Z.of_nat (String.length r.1)) (lr_E l) (lr_Enabled l), r).
End LimitedReader.

(** ** The endpoint and the session *)

Section Session.
Context `{Textproto} `{UnicodeTables} `{TextLib} {W : Type}.

(** [ep_ReadHeader r n] is textproto.ReadHeader over the message [r] through a
    limitedReader of [n] bytes: the header and the rest of the message.
    [ep_share] is a write to the MsgMetadata object that the delivery also
    refers to.  [ep_ParseAddress], [ep_ParseAddressList] and [ep_ParseDate] are
    the functions of net/mail and time. *)
Record Endpoint := mkEndpoint {
  ep_submission : bool;
  ep_authAlwaysRequired : bool;
  ep_deferServerReject : bool;
  ep_maxLoggedRcptErrors : Z;
  ep_maxReceived : Z;
  ep_maxHeaderBytes : Z;
  ep_Domain : string;
  ep_EnhancedCodeNotSet : EnhancedCode;
  ep_RunEarlyChecks : ConnState -> Prog W error;
  ep_AuthPlain : string -> string -> Prog W error;
  ep_pipeline : DeliveryTarget W;
  ep_TakeMsg : string -> string -> Prog W error;
  ep_ReleaseMsg : string -> string -> Prog W unit;
  ep_GenerateMsgID : Prog W (Result gerror string);
  ep_msgIDField : Prog W (Result gerror string);
  ep_now : Prog W string;
  ep_ReadHeader : string -> Z -> error -> Result gerror (header * string);
  ep_buffer : string -> Prog W (Result gerror Buffer);
  ep_Remove : Buffer -> Prog W error;
  ep_share : MsgMetadata -> Prog W unit;
  ep_ParseAddress : string -> Result gerror string;
  ep_ParseAddressList : string -> Result gerror (list string);
  ep_ParseDate : string -> string -> Result gerror Z;
  ep_sessionCnt : Z -> Prog W unit
}.

(** [se_tcpIP] is the IP of the remote address when it is a net.TCPAddr;
    [se_log_...] are left out, but for the counters. *)
Record Session := mkSession {
  se_connState : ConnState;
  se_tcpIP : option string;
  se_repeatedMailErrs : Z;
  se_loggedRcptErrors : Z;
  se_mailFrom : string;
  se_opts : MailOptions;
  se_msgMeta : option MsgMetadata;
  se_delivery : option (Delivery W);
  se_deliveryErr : error
}.

Context (endp : Endpoint).

Definition MailOptions_zero : MailOptions := mkMailOptions 0 false false.
Definition set_msg (mm : option MsgMetadata) (s : Session) : Session :=
  mkSession (se_connState s) (se_tcpIP s) (se_repeatedMailErrs s) (se_loggedRcptErrors s) (se_mailFrom s)
    (se_opts s) mm (se_delivery s) (se_deliveryErr s).
Definition set_mail (from : string) (opts : MailOptions) (s : Session) : Session :=
  mkSession (se_connState s) (se_tcpIP s) (se_repeatedMailErrs s) (se_loggedRcptErrors s) from
    opts (se_msgMeta s) (se_delivery s) (se_deliveryErr s).
Definition set_started (mm : MsgMetadata) (from : string) (d : Delivery W) (s : Session) : Session :=
  mkSession (se_connState s) (se_tcpIP s) (se_repeatedMailErrs s) (se_loggedRcptErrors s) from
    (se_opts s) (Some mm) (Some d) (se_deliveryErr s).
Definition set_deliveryErr (err : error) (s : Session) : Session :=
  mkSession (se_connState s) (se_tcpIP s) (se_repeatedMailErrs s) (se_loggedRcptErrors s) (se_mailFrom s)
    (se_opts s) (se_msgMeta s) (se_delivery s) err.
Definition count_mailErr (s : Session) : Session :=
  mkSession (se_connState s) (se_tcpIP s) (se_repeatedMailErrs s + 1) (se_loggedRcptErrors s) (se_mailFrom s)
    (se_opts s) (se_msgMeta s) (se_delivery s) (se_deliveryErr s).
Definition count_rcptErr (s : Session) : Session :=
  mkSession (se_connState s) (se_tcpIP s) (se_repeatedMailErrs s)
    (if se_loggedRcptErrors s <? ep_maxLoggedRcptErrors endp then se_loggedRcptErrors s + 1
     else se_loggedRcptErrors s)
    (se_mailFrom s) (se_opts s) (se_msgMeta s) (se_delivery s) (se_deliveryErr s).
Definition set_auth (user password : string) (s : Session) : Session :=
  let c := se_connState s in
  mkSession (mkConnState (cs_Proto c) (cs_Hostname c) (cs_RemoteAddr c) user password) (se_tcpIP s)
    (se_repeatedMailErrs s) (se_loggedRcptErrors s) (se_mailFrom s)
    (se_opts s) (se_msgMeta s) (se_delivery s) (se_deliveryErr s).
Definition new_session (c : ConnState) (ip : option string) : Session :=
  mkSession c ip 0 0 "" MailOptions_zero None None None.

Definition nil_panic {A} : Prog W A := panic "invalid memory address or nil pointer dereference".
Definition the {A} (o : option A) : Prog W A := match o with Some a => mret a | None => nil_panic end.
Definition limit_ip (s : Session) : string := default "127.0.0.1" (se_tcpIP s).

(** ** Ending a transaction *)

(** The tokens stay taken when the stored sender cannot be split. *)
Definition releaseLimits (s : Session) : Prog W unit :=
  let domain := if decide (se_mailFrom s = "") then Ok "" else
                match Split (se_mailFrom s) with Ok (_, domain) => Ok domain | Err e => Err e end in
  match domain with
  | Err _ => mret tt
  | Ok domain => the (se_msgMeta s) ;; ep_ReleaseMsg endp (limit_ip s) domain
  end.

Definition cleared (s : Session) : Session :=
  mkSession (se_connState s) (se_tcpIP s) (se_repeatedMailErrs s) (se_loggedRcptErrors s) ""
    MailOptions_zero None None None.
Definition cleanSession (s : Session) : Prog W Session := releaseLimits s ;; mret (cleared s).

Definition session_abort (s : Session) : Prog W Session :=
  d ← the (se_delivery s);
  dl_Abort d ;;
  the (se_msgMeta s) ;;
  cleanSession s.

Definition session_Reset (s : Session) : Prog W Session :=
  match se_delivery s with
  | Some _ => session_abort s
  | None => mret s
  end.

Definition session_Logout (s : Session) : Prog W Session :=
  s ← session_Reset s;
  ep_sessionCnt endp (-1) ;;
  mret s.

(** ** Authentication *)

Definition session_wrapErr (s : Session) (msgId : string) (err : error) : error :=
  wrapErr (ep_EnhancedCodeNotSet endp) msgId (negb (mo_UTF8 (se_opts s))) err.

Definition session_AuthPlain (s : Session) (username password : string) : Prog W (Session * error) :=
  err ← ep_RunEarlyChecks endp (se_connState s);
  match err with
  | Some _ => mret (s, wrapErr (ep_EnhancedCodeNotSet endp) "" true err)
  | None =>
    err ← ep_AuthPlain endp username password;
    match err with
    | Some _ =>
      mret (s, Some (if IsTemporary err
                     then go_smtp_error 454 (Ench 4 7 0) "Temporary authentication failure"
                     else go_smtp_error 535 (Ench 5 7 8) "Invalid credentials"))
    | None => mret (set_auth username password s, None)
    end
  end.

(** ** MAIL FROM *)

Definition err_sender_utf8 : gerror :=
  smtp_error 550 (Ench 5 6 7) "SMTPUTF8 is required for non-ASCII senders" None.
Definition err_sender_norm : gerror :=
  smtp_error 553 (Ench 5 1 7) "Unable to normalize the sender address" None.

(** The clean sender and its domain, or why it is refused. *)
Definition clean_sender (from : string) (opts : MailOptions) : Result gerror (string * string) :=
  if negb (mo_UTF8 opts) && existsb (fun ch => 128 <? ch) (runes from) then Err err_sender_utf8
  else
    match (if decide (from = "") then (from, None) else CleanDomain from) with
    | (_, Some _) => Err err_sender_norm
    | (cleanFrom, None) =>
      if decide (cleanFrom = "") then Ok (cleanFrom, "")
      else match Split cleanFrom with
           | Err e => Err e
           | Ok (_, domain) => Ok (cleanFrom, domain)
           end
    end.

(** The session, the ID of the message and an error. *)
Definition startDelivery (s : Session) (from : string) (opts : MailOptions)
  : Prog W (Session * (string * error)) :=
  r ← ep_GenerateMsgID endp;
  match r with
  | Err e => mret (s, ("", Some e))
  | Ok id =>
    match clean_sender from opts with
    | Err e => mret (s, ("", Some e))
    | Ok (cleanFrom, domain) =>
      let mm := mkMsgMetadata id from false false ∅ opts (Some (se_connState s)) false in
      err ← ep_TakeMsg endp (limit_ip s) domain;
      match err with
      | Some e => mret (s, ("", Some e))
      | None =>
        r ← tgt_Start (ep_pipeline endp) mm cleanFrom;
        match r with
        | Err e => ep_ReleaseMsg endp (limit_ip s) domain ;; mret (s, (id, Some e))
        | Ok d => mret (set_started mm cleanFrom d s, (id, None))
        end
      end
    end
  end.

(** smtp.ErrAuthRequired of go-smtp *)
Context (ErrAuthRequired : gerror).

Definition session_Mail (s : Session) (from : string) (opts : MailOptions) : Prog W (Session * error) :=
  if ep_authAlwaysRequired endp && bool_decide (cs_AuthUser (se_connState s) = "")
  then mret (s, Some ErrAuthRequired)
  else if ep_deferServerReject endp then mret (set_mail from opts s, None)
  else
    '(s, (id, err)) ← startDelivery s from opts;
    match err with
    | Some _ => mret (s, wrapErr (ep_EnhancedCodeNotSet endp) id (negb (mo_UTF8 opts)) err)
    | None => mret (set_mail from opts s, None)
    end.

(** ** RCPT TO *)

Definition err_rcpt_utf8 : gerror :=
  smtp_error 553 (Ench 5 6 7) "SMTPUTF8 is required for non-ASCII recipients" None.
Definition err_rcpt_clean : gerror :=
  smtp_error 501 (Ench 5 1 2) "Unable to normalize the recipient address" None.

Definition session_rcpt (s : Session) (to : string) : Prog W error :=
  if negb (IsASCII to) && negb (mo_UTF8 (se_opts s)) then mret (Some err_rcpt_utf8)
  else
    match CleanDomain to with
    | (_, Some _) => mret (Some err_rcpt_clean)
    | (cleanTo, None) => d ← the (se_delivery s); dl_AddRcpt d cleanTo
    end.

(** The deferred start, when there is no delivery yet. *)
Definition deferred_start (s : Session) : Prog W (Session * error) :=
  match se_delivery s with
  | Some _ => mret (s, None)
  | None =>
    match se_deliveryErr s with
    | Some _ => mret (count_mailErr s, se_deliveryErr s)
    | None =>
      '(s, (id, err)) ← startDelivery s (se_mailFrom s) (se_opts s);
      match err with
      | Some _ => let wrapped := session_wrapErr s id err in mret (set_deliveryErr wrapped s, wrapped)
      | None => mret (s, None)
      end
    end
  end.

Definition session_Rcpt (s : Session) (to : string) : Prog W (Session * error) :=
  '(s, err) ← deferred_start s;
  match err with
  | Some _ => mret (s, err)
  | None =>
    err ← session_rcpt s to;
    mm ← the (se_msgMeta s);
    match err with
    | Some _ => mret (count_rcptErr s, session_wrapErr s (mm_ID mm) err)
    | None => mret (s, None)
    end
  end.

(** ** DATA *)

Definition dateTimeLayouts : list string :=
  ["Mon, 02 Jan 2006 15:04:05 -0700"; "_2 Jan 2006 15:04:05 -0700"; "_2 Jan 2006 15:04:05 MST";
   "_2 Jan 2006 15:04 -0700"; "_2 Jan 2006 15:04 MST"; "_2 Jan 06 15:04:05 -0700"; "_2 Jan 06 15:04:05 MST";
   "_2 Jan 06 15:04 -0700"; "_2 Jan 06 15:04 MST"; "Mon, _2 Jan 2006 15:04:05 -0700";
   "Mon, _2 Jan 2006 15:04:05 MST"; "Mon, _2 Jan 2006 15:04 -0700"; "Mon, _2 Jan 2006 15:04 MST";
   "Mon, _2 Jan 06 15:04:05 -0700"; "Mon, _2 Jan 06 15:04:05 MST"; "Mon, _2 Jan 06 15:04 -0700";
   "Mon, _2 Jan 06 15:04 MST"].

(** commentRE: blanks, then a parenthesis that is closed by the last byte. *)
Definition is_blank (a : ascii) : bool := bool_decide (byte_of a = 32) || bool_decide (byte_of a = 9).
Fixpoint comment_here (s : string) : bool :=
  match s with
  | EmptyString => false
  | String a t =>
    if is_blank a then comment_here t
    else bool_decide (byte_of a = 40) && HasSuffix t ")" && negb (has_byte (of_byte 10) t)
  end.
Fixpoint strip_comment (s : string) : string :=
  match s with
  | EmptyString => EmptyString
  | String a t => if is_blank a && comment_here t then EmptyString else String a (strip_comment t)
  end.

Fixpoint parse_layouts (layouts : list string) (date : string) : Result gerror Z :=
  match layouts with
  | [] => Err (EErrorf ("date " +:+ date +:+ " could not be parsed") None)
  | layout :: layouts =>
    match ep_ParseDate endp layout date with
    | Ok parsed => Ok parsed
    | Err _ => parse_layouts layouts date
    end
  end.
Definition parseMessageDateTime (maybeDate : string) : Result gerror Z :=
  parse_layouts dateTimeLayouts (strip_comment maybeDate).

Definition submission_error (ench : EnhancedCode) (msg : string) (misc : fields) (inner : error) : gerror :=
  ESMTP 554 ench msg "" "" "" "" inner (<["modifier" := FStr "submission_prepare"]> misc).
Definition err_address (name value : string) (inner : gerror) : gerror :=
  submission_error (Ench 5 6 0) ("Invalid address in " +:+ name) {["addr" := FStr value]} (Some inner).

(** An address field that is present has to parse. *)
Definition check_field {A} (parse : string -> Result gerror A) (h : header) (name : string) : error :=
  let value := hdr_Get h name in
  if decide (value = "") then None
  else match parse value with Ok _ => None | Err e => Some (err_address name value e) end.
Fixpoint check_fields {A} (parse : string -> Result gerror A) (h : header) (names : list string) : error :=
  match names with
  | [] => None
  | name :: names =>
    match check_field parse h name with Some e => Some e | None => check_fields parse h names end
  end.

(** The checks of the sender fields, after the Message-ID has been added. *)
Definition submission_fields (h : header) : error :=
  if decide (hdr_Get h "From" = "")
  then Some (submission_error (Ench 5 6 0) "Message does not contains a From header field" ∅ None)
  else
    match check_fields (ep_ParseAddress endp) h ["Sender"] with
    | Some e => Some e
    | None =>
      match check_fields (ep_ParseAddressList endp) h ["To"; "Cc"; "Bcc"; "Reply-To"] with
      | Some e => Some e
      | None =>
        match ep_ParseAddressList endp (hdr_Get h "From") with
        | Err e => Some (err_address "From" (hdr_Get h "From") e)
        | Ok addrs =>
          if bool_decide (1 < length addrs)%nat && bool_decide (hdr_Get h "Sender" = "")
          then Some (submission_error (Ench 5 6 0) "Missing Sender header field"
                       {["from" := FStr (hdr_Get h "From")]} None)
          else None
        end
      end
    end.

Definition submissionPrepare (h : header) : Prog W (header * error) :=
  r ← (if decide (hdr_Get h "Message-ID" = "")
       then r ← ep_msgIDField endp;
            mret (match r with
                  | Ok id => Ok (hdr_Set h "Message-ID" ("<" +:+ id +:+ "@" +:+ ep_Domain endp +:+ ">"))
                  | Err _ => Err (ENew "Message-ID generation failed")
                  end)
       else mret (Ok h));
  match r with
  | Err e => mret (h, Some e)
  | Ok h =>
    match submission_fields h with
    | Some e => mret (h, Some e)
    | None =>
      let date := hdr_Get h "Date" in
      if decide (date = "") then
        now ← ep_now endp; mret (hdr_Set h "Date" now, None)
      else
        match parseMessageDateTime date with
        | Ok _ => mret (h, None)
        | Err e => mret (h, Some (submission_error (Ench 0 0 0) "Malformed Date header"
                                    {["date" := FStr date]} (Some e)))
        end
    end
  end.

Definition err_header_size : gerror :=
  smtp_error 552 (Ench 5 3 4) "Message header size exceeds limit" None.
Definition io_error (what : string) (e : gerror) : gerror :=
  EErrorf ("I/O error while " +:+ what +:+ ": " +:+ Error e) (Some e).

(** The message meta-data is changed through its pointer, also for the delivery. *)
Definition share (mm : MsgMetadata) (s : Session) : Prog W Session :=
  ep_share endp mm ;; mret (set_msg (Some mm) s).

Definition set_DontTraceSender (m : MsgMetadata) : MsgMetadata :=
  mkMsgMetadata (mm_ID m) (mm_OriginalFrom m) true (mm_Quarantine m)
    (mm_OriginalRcpts m) (mm_SMTPOpts m) (mm_Conn m) (mm_TLSRequireOverride m).
Definition set_TLSRequireOverride (m : MsgMetadata) : MsgMetadata :=
  mkMsgMetadata (mm_ID m) (mm_OriginalFrom m) (mm_DontTraceSender m) (mm_Quarantine m)
    (mm_OriginalRcpts m) (mm_SMTPOpts m) (mm_Conn m) true.

Definition prepareBody (s : Session) (r : string) : Prog W (Session * Result gerror (header * Buffer)) :=
  match ep_ReadHeader endp r (ep_maxHeaderBytes endp) (Some err_header_size) with
  | Err e => mret (s, Err (io_error "parsing header" e))
  | Ok (h, rest) =>
    '(s, h, err) ← (if ep_submission endp
                    then mm ← the (se_msgMeta s);
                         s ← share (set_DontTraceSender mm) s;
                         '(h, err) ← submissionPrepare h;
                         mret (s, h, err)
                    else mret (s, h, None));
    match err with
    | Some e => mret (s, Err e)
    | None =>
      buf ← ep_buffer endp rest;
      mret (s, match buf with Ok buf => Ok (h, buf) | Err e => Err (io_error "writing buffer" e) end)
    end
  end.

Definition err_loop (n : Z) : gerror :=
  smtp_error 554 (Ench 5 4 6)
    ("Too many Received header fields (" +:+ pretty n +:+ "), possible forwarding loop") None.
Definition checkRoutingLoops (h : header) : error :=
  let receivedCount := Z.of_nat (length (hdr_ByKey h "Received")) in
  if ep_maxReceived endp <? receivedCount then Some (err_loop receivedCount) else None.

Definition tls_override (h : header) (s : Session) : Prog W Session :=
  if EqualFold (hdr_Get h "TLS-Required") "No"
  then mm ← the (se_msgMeta s); share (set_TLSRequireOverride mm) s
  else mret s.

(** A command that ends in its deferred function: the buffer is removed and the
    session cleaned, whatever the outcome. *)
Definition finish {A} (buf : Buffer) (m : Prog W (Session * A)) : Prog W (Session * A) :=
  '(s, a) ← m;
  ep_Remove endp buf ;;
  s ← cleanSession s;
  mret (s, a).

Definition wrap_data (s : Session) (err : error) : Prog W (Session * error) :=
  mm ← the (se_msgMeta s); mret (s, session_wrapErr s (mm_ID mm) err).

Definition data_body (s : Session) (h : header) (buf : Buffer) : Prog W (Session * error) :=
  match checkRoutingLoops h with
  | Some e => wrap_data s (Some e)
  | None =>
    s ← tls_override h s;
    d ← the (se_delivery s);
    err ← dl_Body d h buf;
    match err with
    | Some _ => wrap_data s err
    | None =>
      err ← dl_Commit d;
      match err with
      | Some _ => wrap_data s err
      | None => mret (s, None)
      end
    end
  end.

Definition session_Data (s : Session) (r : string) : Prog W (Session * error) :=
  the (se_msgMeta s) ;;
  '(s, res) ← prepareBody s r;
  match res with
  | Err e => wrap_data s (Some e)
  | Ok (h, buf) => finish buf (data_body s h buf)
  end.

(** statusWrapper.SetStatus *)
Definition wrap_status (s : Session) (mm : MsgMetadata) (st : string * error) : string * error :=
  (st.1, session_wrapErr s (mm_ID mm) st.2).

Definition no_partial : string := "interface conversion: not a PartialDelivery".

(** The statuses set, and the error of the command. *)
Definition lmtp_body (s : Session) (h : header) (buf : Buffer)
  : Prog W (Session * (list (string * error) * error)) :=
  s ← tls_override h s;
  match checkRoutingLoops h with
  | Some e => '(s, err) ← wrap_data s (Some e); mret (s, ([], err))
  | None =>
    d ← the (se_delivery s);
    match dl_BodyNonAtomic d with
    | None => panic no_partial
    | Some body =>
      sts ← body h buf;
      mm ← the (se_msgMeta s);
      let sts := map (wrap_status s mm) sts in
      err ← dl_Commit d;
      match err with
      | Some _ => '(s, err) ← wrap_data s err; mret (s, (sts, err))
      | None => mret (s, (sts, None))
      end
    end
  end.

Definition session_LMTPData (s : Session) (r : string) : Prog W (Session * (list (string * error) * error)) :=
  the (se_msgMeta s) ;;
  '(s, res) ← prepareBody s r;
  match res with
  | Err e => '(s, err) ← wrap_data s (Some e); mret (s, ([], err))
  | Ok (h, buf) => finish buf (lmtp_body s h buf)
  end.

(** ** smtp.go: NewSession *)

(** A connection refused by the early checks is logged out, although it has not
    been counted yet. *)
Definition NewSession (c : ConnState) (ip : option string) : Prog W (Result gerror Session) :=
  let sess := new_session c ip in
  err ← ep_RunEarlyChecks endp (se_connState sess);
  match err with
  | Some e =>
    session_Logout sess ;;
    mret (match wrapErr (ep_EnhancedCodeNotSet endp) "" true err with Some e => Err e | None => Err e end)
  | None => ep_sessionCnt endp 1 ;; mret (Ok sess)
  end.
End Session.
Arguments Endpoint {_} _.
Arguments Session {_} _.
