(* ===== verification/SessionFacts.v ===== *)
(** * SessionFacts: the transactions of an SMTP session

    The endpoint of a session is wrapped so that the world logs the tokens taken
    and given back and the calls on the delivery.  A step relation runs the
    commands of a session in any order; the log of every reachable state is
    accepted by the automaton of a transaction. *)
From S2P Require Import Prelude GoStr ExtErrors Address Checks Module Dmarc Quiet Session.
From Stdlib Require Import Ascii.

Local Open Scope Z_scope.

Inductive sev :=
| ETake (ip domain : string)
| ERelease (ip domain : string)
| EStart (res : error)
| ERcpt (res : error)
| EBody (res : error)
| EBodyNA
| ECommit (res : error)
| EAbort (res : error).

(** The automaton of a transaction, with the tokens held.  [Open] to [Idle] is a
    delivery dropped without an Abort. *)
Inductive tstate :=
| Idle
| Taken (ip domain : string)
| Unstarted (ip domain : string)
| Open (ip domain : string)
| Bodied (ip domain : string)
| Ended (ip domain : string).

Definition token (st : tstate) : option (string * string) :=
  match st with
  | Idle => None
  | Taken ip d | Unstarted ip d | Open ip d | Bodied ip d | Ended ip d => Some (ip, d)
  end.

Definition tx_step (st : tstate) (ev : sev) : option tstate :=
  match st, ev with
  | Idle, ETake ip d => Some (Taken ip d)
  | Taken ip d, EStart None => Some (Open ip d)
  | Taken ip d, EStart (Some _) => Some (Unstarted ip d)
  | Open ip d, ERcpt _ => Some (Open ip d)
  | Open ip d, EBody None | Open ip d, EBodyNA => Some (Bodied ip d)
  | Open ip d, EBody (Some _) | Open ip d, EAbort _ | Bodied ip d, ECommit _ => Some (Ended ip d)
  | Unstarted ip d, ERelease ip' d' | Open ip d, ERelease ip' d' | Ended ip d, ERelease ip' d' =>
    if decide ((ip, d) = (ip', d')) then Some Idle else None
  | _, _ => None
  end.
Fixpoint tx_run (st : tstate) (l : list sev) : option tstate :=
  match l with
  | [] => Some st
  | ev :: l => tx_step st ev ≫= fun st => tx_run st l
  end.

Lemma tx_run_app st l k : tx_run st (l ++ k) = tx_run st l ≫= fun st => tx_run st k.
Proof.
  revert st. induction l as [|ev l IH]; intros st; simpl; [done|].
  destruct (tx_step st ev); simpl; auto.
Qed.

(** What holds whatever the order of the commands, a MAIL in an open transaction
    included: the number of tokens that are out, whether one was just taken for a
    start, and the phase of the calls since the last successful start.  A delivery may be
    replaced by another, or dropped. *)
Inductive dphase := DClosed | DOpened | DBodied.
Definition any_step (st : nat * bool * dphase) (ev : sev) : option (nat * bool * dphase) :=
  let '(n, taken, ph) := st in
  match ev with
  | ETake _ _ => if taken then None else Some (S n, true, ph)
  | EStart res => if taken then Some (n, false, match res with None => DOpened | Some _ => ph end) else None
  | ERelease _ _ =>
    if taken then None else match n with S n => Some (n, false, ph) | O => None end
  | ERcpt _ => match taken, ph with false, DOpened => Some (n, false, DOpened) | _, _ => None end
  | EBody res =>
    match taken, ph with
    | false, DOpened => Some (n, false, match res with None => DBodied | Some _ => DClosed end)
    | _, _ => None
    end
  | EBodyNA => match taken, ph with false, DOpened => Some (n, false, DBodied) | _, _ => None end
  | EAbort _ => match taken, ph with false, DOpened => Some (n, false, DClosed) | _, _ => None end
  | ECommit _ => match taken, ph with false, DBodied => Some (n, false, DClosed) | _, _ => None end
  end.
Fixpoint any_run (st : nat * bool * dphase) (l : list sev) : option (nat * bool * dphase) :=
  match l with
  | [] => Some st
  | ev :: l => any_step st ev ≫= fun st => any_run st l
  end.
Lemma any_run_app st l k : any_run st (l ++ k) = any_run st l ≫= fun st => any_run st k.
Proof.
  revert st. induction l as [|ev l IH]; intros st; simpl; [done|].
  destruct (any_step st ev); simpl; auto.
Qed.

(** ** The logging endpoint *)

Section Log.
Context `{Textproto} {W : Type}.
Abbreviation Wl := (W * list sev)%type.

Definition logm {A} (m : Prog W A) (ev : A -> list sev) : Prog Wl A := fun '(w, l) =>
  match m w with
  | (w', Done a) => ((w', l ++ ev a), Done a)
  | (w', Panicked why) => ((w', l), Panicked why)
  end.
Definition nolog {A} (m : Prog W A) : Prog Wl A := logm m (fun _ => []).

Definition log_delivery (d : Delivery W) : Delivery Wl :=
  mkDelivery (fun r => logm (dl_AddRcpt d r) (fun e => [ERcpt e]))
    (fun h b => logm (dl_Body d h b) (fun e => [EBody e]))
    (match dl_BodyNonAtomic d with
     | Some f => Some (fun h b => logm (f h b) (fun _ => [EBodyNA]))
     | None => None
     end)
    (logm (dl_Abort d) (fun e => [EAbort e])) (logm (dl_Commit d) (fun e => [ECommit e])).

Definition log_target (t : DeliveryTarget W) : DeliveryTarget Wl :=
  mkTarget (fun mm from =>
    r ← logm (tgt_Start t mm from) (fun r => [EStart (start_err r)]);
    mret (match r with Ok d => Ok (log_delivery d) | Err e => Err e end)).

Definition log_endpoint (e : Endpoint W) : Endpoint Wl :=
  mkEndpoint (ep_submission e) (ep_authAlwaysRequired e) (ep_deferServerReject e) (ep_maxLoggedRcptErrors e)
    (ep_maxReceived e) (ep_maxHeaderBytes e) (ep_Domain e) (ep_EnhancedCodeNotSet e)
    (fun c => nolog (ep_RunEarlyChecks e c)) (fun u p => nolog (ep_AuthPlain e u p))
    (log_target (ep_pipeline e))
    (fun ip d => logm (ep_TakeMsg e ip d) (fun r => match r with None => [ETake ip d] | Some _ => [] end))
    (fun ip d => logm (ep_ReleaseMsg e ip d) (fun _ => [ERelease ip d]))
    (nolog (ep_GenerateMsgID e)) (nolog (ep_msgIDField e)) (nolog (ep_now e)) (ep_ReadHeader e)
    (fun r => nolog (ep_buffer e r)) (fun b => nolog (ep_Remove e b)) (fun mm => nolog (ep_share e mm))
    (ep_ParseAddress e) (ep_ParseAddressList e) (ep_ParseDate e) (fun n => nolog (ep_sessionCnt e n)).

Lemma logm_Done {A} (m : Prog W A) ev wl wl' a : logm m ev wl = (wl', Done a) -> wl'.2 = wl.2 ++ ev a.
Proof. destruct wl as [w l]. unfold logm. destruct (m w) as [w' [b|why]]; naive_solver. Qed.

Lemma quiet_nolog {A} (m : Prog W A) : quiet (L := list sev) (nolog m) (fun _ => True).
Proof.
  intros w l w' l' o E. unfold nolog, logm in E. destruct (m w) as [w1 [a|why]]; simplify_eq.
  - by rewrite app_nil_r.
  - done.
Qed.
End Log.
#[export] Hint Resolve quiet_nolog : quiet.

(** ** The invariant of a session *)

Section Invariant.
Context `{Textproto} `{UnicodeTables} `{TextLib} {W : Type}.
Context (ep0 : Endpoint W) (ErrAuthRequired : gerror).
Abbreviation Wl := (W * list sev)%type.
Abbreviation endp := (log_endpoint ep0).
Abbreviation Session := (Session Wl).
Implicit Types s : Session.

Definition at_state (st : tstate) (l : list sev) : Prop := tx_run Idle l = Some st.

Lemma at_step st st' l ev : at_state st l -> tx_step st ev = Some st' -> at_state st' (l ++ [ev]).
Proof. intros Ha Hs. unfold at_state. rewrite tx_run_app, Ha. simpl. by rewrite Hs. Qed.

(** The domain under which the tokens of a transaction are given back. *)
Definition release_domain (from : string) : option string :=
  if decide (from = "") then Some ""
  else match Split from with Ok (_, domain) => Some domain | Err _ => None end.

Definition holding (s : Session) (dom : string) : Prop :=
  is_Some (se_msgMeta s) /\ release_domain (se_mailFrom s) = Some dom.

Definition J (s : Session) (l : list sev) : Prop :=
  match se_delivery s with
  | None => at_state Idle l
  | Some d => (exists d0 : Delivery W, d = log_delivery d0) /\
              exists dom, holding s dom /\ at_state (Open (limit_ip s) dom) l
  end.

Lemma the_Done {A} (o : option A) (wl wl' : Wl) a : the o wl = (wl', Done a) -> o = Some a /\ wl' = wl.
Proof. destruct o; simpl; cbv [mret prog_ret nil_panic panic]; naive_solver. Qed.

Lemma clean_sender_domain from opts c dom : clean_sender from opts = Ok (c, dom) -> release_domain c = Some dom.
Proof.
  unfold clean_sender, release_domain. intros E.
  destruct (_ && _); [done|]. destruct (if decide (from = "") then _ else _) as [c' [e|]]; [done|].
  case_decide; [by simplify_eq; rewrite decide_True|].
  destruct (Split c') as [[m d]|] eqn:Es; simplify_eq. by rewrite decide_False, Es.
Qed.

(** Cleaning gives the tokens back, under the key they were taken with. *)
Lemma cleanSession_ok s dom st wl wl' s' :
  st = Open (limit_ip s) dom \/ st = Ended (limit_ip s) dom -> at_state st wl.2 -> holding s dom ->
  cleanSession endp s wl = (wl', Done s') -> J s' wl'.2 /\ se_delivery s' = None.
Proof.
  intros Hst Ha [[mm Hmm] Hdom] (wl1 & u & E1 & E2)%prog_bind_Done.
  cbv [mret prog_ret] in E2. simplify_eq/=. split; [|done]. unfold J. simpl.
  unfold releaseLimits in E1. unfold release_domain in Hdom.
  assert (Hd : (if decide (se_mailFrom s = "") then Ok ""
                else match Split (se_mailFrom s) with Ok (_, domain) => Ok domain | Err e => Err e end)
               = Ok (E := gerror) dom).
  { case_decide; [by simplify_eq|]. destruct (Split _) as [[m d]|]; by simplify_eq. }
  rewrite Hd, Hmm in E1. simpl in E1. apply prog_bind_Done in E1 as (wl2 & u' & E1 & E2).
  cbv [mret prog_ret] in E1. simplify_eq/=. apply logm_Done in E2. rewrite E2.
  eapply at_step; [exact Ha|]. destruct Hst as [-> | ->]; simpl; by rewrite decide_True.
Qed.

Lemma abort_ok s wl wl' s' :
  is_Some (se_delivery s) -> J s wl.2 -> session_abort endp s wl = (wl', Done s') ->
  J s' wl'.2 /\ se_delivery s' = None.
Proof.
  intros [d Hd] HJ E. unfold J in HJ. rewrite Hd in HJ. destruct HJ as [[d0 ->] (dom & Hh & Ha)].
  apply prog_bind_Done in E as (wl1 & d' & E1 & E). apply the_Done in E1 as [E1 ->].
  rewrite Hd in E1. injection E1 as <-.
  apply prog_bind_Done in E as (wl2 & r & E2 & E). apply logm_Done in E2.
  apply prog_bind_Done in E as (wl3 & mm & E3 & E). apply the_Done in E3 as [E3 ->].
  eapply cleanSession_ok; [right; reflexivity| |exact Hh|exact E].
  rewrite E2. eapply at_step; [exact Ha|done].
Qed.

Lemma Reset_ok s wl wl' s' :
  J s wl.2 -> session_Reset endp s wl = (wl', Done s') -> J s' wl'.2 /\ se_delivery s' = None.
Proof.
  intros HJ E. unfold session_Reset in E. destruct (se_delivery s) eqn:Ed.
  - eapply abort_ok; eauto.
  - cbv [mret prog_ret] in E. by simplify_eq.
Qed.

(** Starting takes the tokens, and gives them back if the pipeline refuses. *)
Lemma startDelivery_ok s from opts wl wl' s' id err :
  se_delivery s = None -> J s wl.2 -> startDelivery endp s from opts wl = (wl', Done (s', (id, err))) ->
  match err with
  | Some _ => s' = s /\ J s wl'.2
  | None => exists c dom mm d0, clean_sender from opts = Ok (c, dom) /\
              s' = set_started mm c (log_delivery d0) s /\ at_state (Open (limit_ip s) dom) wl'.2
  end.
Proof.
  intros Hnone HJ E. pose proof HJ as Ha. unfold J in Ha. rewrite Hnone in Ha.
  apply prog_bind_Done in E as (wl1 & r & E1 & E). apply (quiet_Done _ _ _ _ _ (quiet_nolog _)) in E1 as [E1 _].
  destruct r as [mid|e]; [|cbv [mret prog_ret] in E; simplify_eq; by rewrite E1].
  destruct (clean_sender from opts) as [[c dom]|e] eqn:Ec; [|cbv [mret prog_ret] in E; simplify_eq; by rewrite E1].
  apply prog_bind_Done in E as (wl2 & r & E2 & E). apply logm_Done in E2.
  destruct r as [e|]; [cbv [mret prog_ret] in E; simplify_eq; by rewrite E2, app_nil_r, E1|].
  apply prog_bind_Done in E as (wl3 & r & E3 & E). apply prog_bind_Done in E3 as (wl4 & r' & E4 & E3).
  apply logm_Done in E4. cbv [mret prog_ret] in E3. simplify_eq.
  assert (Ht : at_state (Taken (limit_ip s) dom) wl2.2) by (rewrite E2, E1; by eapply at_step).
  destruct r' as [d0|e].
  - cbv [mret prog_ret] in E. simplify_eq. exists c, dom. do 2 eexists. split; [done|]. split; [reflexivity|].
    rewrite E4. by eapply at_step.
  - apply prog_bind_Done in E as (wl5 & u & E5 & E). apply logm_Done in E5.
    cbv [mret prog_ret] in E. simplify_eq. split; [done|]. unfold J. rewrite Hnone, E5, E4.
    eapply at_step; [by eapply at_step|]. simpl. by rewrite decide_True.
Qed.

(** The sender as given has the domain of its clean form. *)
Definition stable_sender (from : string) : Prop :=
  forall opts c dom, clean_sender from opts = Ok (c, dom) -> release_domain from = Some dom.

Lemma Mail_ok s from opts wl wl' s' err :
  se_delivery s = None -> ep_deferServerReject ep0 = true \/ stable_sender from -> J s wl.2 ->
  session_Mail endp ErrAuthRequired s from opts wl = (wl', Done (s', err)) -> J s' wl'.2.
Proof.
  intros Hnone Hfrom HJ E. unfold session_Mail in E.
  destruct (_ && _); [cbv [mret prog_ret] in E; by simplify_eq|]. simpl in E.
  destruct (ep_deferServerReject ep0) eqn:Ed.
  { cbv [mret prog_ret] in E. simplify_eq/=. unfold J in *. simpl. by rewrite Hnone in *. }
  apply prog_bind_Done in E as (wl1 & [s1 [id err1]] & E1 & E).
  apply startDelivery_ok in E1; [|done..].
  destruct err1 as [e|]; [by destruct E1 as [-> ?]; cbv [mret prog_ret] in E; simplify_eq|].
  destruct E1 as (c & dom & mm & d0 & Ec & -> & Ha). destruct Hfrom as [|Hfrom]; [done|].
  cbv [mret prog_ret] in E. simplify_eq/=. unfold J. simpl. split; [by exists d0|]. exists dom.
  split; [|exact Ha]. split; [by eexists|]. by eapply Hfrom.
Qed.

Lemma deferred_ok s wl wl' s' err :
  J s wl.2 -> deferred_start endp s wl = (wl', Done (s', err)) ->
  J s' wl'.2 /\ (err = None -> is_Some (se_delivery s')).
Proof.
  intros HJ E. unfold deferred_start in E. destruct (se_delivery s) as [d|] eqn:Ed.
  { cbv [mret prog_ret] in E. simplify_eq. split; [done|]. by rewrite Ed. }
  destruct (se_deliveryErr s) as [e|] eqn:Ee.
  { cbv [mret prog_ret] in E. simplify_eq. split; [|done]. unfold J in *. simpl. by rewrite Ed in *. }
  apply prog_bind_Done in E as (wl1 & [s1 [id err1]] & E1 & E). apply startDelivery_ok in E1; [|done..].
  destruct err1 as [e|].
  - destruct E1 as [-> HJ1]. pose proof (wrapErr_Some (ep_EnhancedCodeNotSet ep0) id (negb (mo_UTF8 (se_opts s))) e) as Hw.
    revert Hw E. unfold session_wrapErr. simpl ep_EnhancedCodeNotSet.
    generalize (wrapErr (ep_EnhancedCodeNotSet ep0) id (negb (mo_UTF8 (se_opts s))) (Some e)). intros wrapped Hw E.
    cbv [mret prog_ret] in E. simplify_eq. split; [|done]. unfold J in *. simpl. by rewrite Ed in *.
  - destruct E1 as (c & dom & mm & d0 & Ec & -> & Ha). cbv [mret prog_ret] in E. simplify_eq.
    split; [|simpl; eauto]. unfold J. simpl. split; [by exists d0|]. exists dom. split; [|exact Ha].
    split; [by eexists|]. simpl. by eapply clean_sender_domain.
Qed.

(** Only the meta-data of the message has changed. *)
Definition upd s s' : Prop :=
  se_delivery s' = se_delivery s /\ se_mailFrom s' = se_mailFrom s /\ se_tcpIP s' = se_tcpIP s /\
  (is_Some (se_msgMeta s) -> is_Some (se_msgMeta s')).
Lemma upd_refl s : upd s s.
Proof. by split_and!. Qed.
Lemma upd_ip s s' : upd s s' -> limit_ip s' = limit_ip s.
Proof. intros (_ & _ & E & _). unfold limit_ip. by rewrite E. Qed.
Lemma upd_holding s s' dom : upd s s' -> holding s dom -> holding s' dom.
Proof. intros (_ & E & _ & Hm) [? Hd]. split; [auto|]. by rewrite E. Qed.
Lemma upd_J s s' l : upd s s' -> J s l -> J s' l.
Proof.
  intros Hu. unfold J. rewrite (proj1 Hu), (upd_ip _ _ Hu). destruct (se_delivery s); [|done].
  intros [Hd (dom & Hh & Ha)]. split; [done|]. exists dom. split; [by eapply upd_holding|done].
Qed.

Lemma quiet_the {A} (o : option A) : quiet (W := W) (L := list sev) (the o) (fun a => o = Some a).
Proof. destruct o; simpl; [by apply quiet_ret|apply quiet_panic]. Qed.

Lemma quiet_share mm s : quiet (share endp mm s) (fun s' => upd s s').
Proof.
  eapply quiet_bind; [apply quiet_nolog|]. intros _ _. apply quiet_ret. by split_and!.
Qed.

Lemma quiet_tls h s : quiet (tls_override endp h s) (fun s' => upd s s').
Proof.
  unfold tls_override. destruct (EqualFold _ _); [|apply quiet_ret, upd_refl].
  eapply quiet_bind; [apply quiet_the|]. intros mm _. apply quiet_share.
Qed.

Lemma quiet_submissionPrepare h : quiet (L := list sev) (submissionPrepare endp h) (fun _ => True).
Proof.
  unfold submissionPrepare. eapply (quiet_bind _ (fun _ => True)).
  { case_decide; [|by apply quiet_ret]. eapply quiet_bind; [apply quiet_nolog|]. intros. by apply quiet_ret. }
  intros [h1|e] _; [|by apply quiet_ret]. destruct (submission_fields _ h1); [by apply quiet_ret|].
  cbv zeta. case_decide; [|case_match; by apply quiet_ret].
  eapply quiet_bind; [apply quiet_nolog|]. intros. by apply quiet_ret.
Qed.

Lemma quiet_prepareBody s r : quiet (prepareBody endp s r) (fun p => upd s p.1).
Proof.
  unfold prepareBody. destruct (ep_ReadHeader endp _ _ _) as [[h rest]|e]; [|apply quiet_ret, upd_refl].
  eapply (quiet_bind _ (fun p => upd s p.1.1)).
  { destruct (ep_submission endp); [|apply quiet_ret, upd_refl].
    eapply quiet_bind; [apply quiet_the|]. intros mm _. eapply quiet_bind; [apply quiet_share|]. intros s1 Hs1.
    eapply quiet_bind; [apply quiet_submissionPrepare|]. intros [h1 err] _. by apply quiet_ret. }
  intros [[s1 h1] [e|]] Hs1; simpl in Hs1; [by apply quiet_ret|].
  eapply quiet_bind; [apply quiet_nolog|]. intros. by apply quiet_ret.
Qed.

Lemma quiet_wrap_data s err : quiet (L := list sev) (wrap_data endp s err) (fun p => p.1 = s).
Proof. eapply quiet_bind; [apply quiet_the|]. intros. by apply quiet_ret. Qed.

(** The deferred part of DATA runs with the delivery open, or ended. *)
Definition closing s (l : list sev) : Prop :=
  exists dom, holding s dom /\ (at_state (Open (limit_ip s) dom) l \/ at_state (Ended (limit_ip s) dom) l).

Lemma finish_ok {A} buf (m : Prog Wl (Session * A)) wl wl' s' a :
  (forall wl1 s1 a1, m wl = (wl1, Done (s1, a1)) -> closing s1 wl1.2) ->
  finish endp buf m wl = (wl', Done (s', a)) -> J s' wl'.2.
Proof.
  intros Hm E. apply prog_bind_Done in E as (wl1 & [s1 a1] & E1 & E). apply Hm in E1 as (dom & Hh & Ha).
  apply prog_bind_Done in E as (wl2 & u & E2 & E).
  apply (quiet_Done _ _ _ _ _ (quiet_nolog _)) in E2 as [E2 _]. rewrite <- E2 in Ha.
  apply prog_bind_Done in E as (wl3 & s3 & E3 & E). cbv [mret prog_ret] in E. simplify_eq.
  destruct Ha as [Ha|Ha]; eapply cleanSession_ok; [| exact Ha | exact Hh | exact E3 | | exact Ha | exact Hh | exact E3];
    auto.
Qed.

Lemma J_open s l : is_Some (se_delivery s) -> J s l ->
  exists d0 dom, se_delivery s = Some (log_delivery d0) /\ holding s dom /\ at_state (Open (limit_ip s) dom) l.
Proof. intros [d Ed]. unfold J. rewrite Ed. intros [[d0 ->] (dom & Hh & Ha)]. eauto. Qed.

Lemma closing_wrap s err wl wl' p :
  closing s wl.2 -> wrap_data endp s err wl = (wl', Done p) -> closing p.1 wl'.2.
Proof.
  intros Hc E. apply (quiet_Done _ _ _ _ _ (quiet_wrap_data _ _)) in E as [-> ->]. done.
Qed.

Lemma data_body_ok s h buf wl wl' s' err :
  is_Some (se_delivery s) -> J s wl.2 -> data_body endp s h buf wl = (wl', Done (s', err)) -> closing s' wl'.2.
Proof.
  intros Hd HJ E. unfold data_body in E. destruct (J_open _ _ Hd HJ) as (d0 & dom & Ed & Hh & Ha).
  destruct (checkRoutingLoops endp h) as [e|].
  { apply closing_wrap in E; [done|]. exists dom. auto. }
  apply prog_bind_Done in E as (wl1 & s1 & E1 & E).
  apply (quiet_Done _ _ _ _ _ (quiet_tls _ _)) in E1 as [E1 Hu]. rewrite <- E1 in Ha.
  apply (upd_holding _ _ _ Hu) in Hh. rewrite <- (upd_ip _ _ Hu) in Ha.
  apply prog_bind_Done in E as (wl2 & d & E2 & E). apply the_Done in E2 as [E2 ->].
  rewrite (proj1 Hu), Ed in E2. injection E2 as <-.
  apply prog_bind_Done in E as (wl3 & r & E3 & E). apply logm_Done in E3.
  destruct r as [e|].
  { apply closing_wrap in E; [done|]. exists dom. split; [done|]. right. rewrite E3. by eapply at_step. }
  apply prog_bind_Done in E as (wl4 & r & E4 & E). apply logm_Done in E4.
  assert (Hc : closing s1 wl4.2).
  { exists dom. split; [done|]. right. rewrite E4, E3. eapply at_step; [by eapply at_step|done]. }
  destruct r as [e|]; [by apply closing_wrap in E|]. cbv [mret prog_ret] in E. by simplify_eq.
Qed.

Lemma lmtp_body_ok s h buf wl wl' s' p :
  is_Some (se_delivery s) -> J s wl.2 -> lmtp_body endp s h buf wl = (wl', Done (s', p)) -> closing s' wl'.2.
Proof.
  intros Hd HJ E. unfold lmtp_body in E. destruct (J_open _ _ Hd HJ) as (d0 & dom & Ed & Hh & Ha).
  apply prog_bind_Done in E as (wl1 & s1 & E1 & E).
  apply (quiet_Done _ _ _ _ _ (quiet_tls _ _)) in E1 as [E1 Hu]. rewrite <- E1 in Ha.
  apply (upd_holding _ _ _ Hu) in Hh. rewrite <- (upd_ip _ _ Hu) in Ha.
  destruct (checkRoutingLoops endp h) as [e|].
  { apply prog_bind_Done in E as (wl2 & [s2 err] & E2 & E). cbv [mret prog_ret] in E. simplify_eq.
    apply closing_wrap in E2; [done|]. exists dom. auto. }
  apply prog_bind_Done in E as (wl2 & d & E2 & E). apply the_Done in E2 as [E2 ->].
  rewrite (proj1 Hu), Ed in E2. injection E2 as <-. simpl in E.
  destruct (dl_BodyNonAtomic d0) as [body|]; [|by cbv [panic] in E].
  apply prog_bind_Done in E as (wl3 & sts & E3 & E). apply logm_Done in E3.
  apply prog_bind_Done in E as (wl4 & mm & E4 & E). apply the_Done in E4 as [E4 ->].
  apply prog_bind_Done in E as (wl5 & r & E5 & E). apply logm_Done in E5.
  assert (Hc : closing s1 wl5.2).
  { exists dom. split; [done|]. right. rewrite E5, E3. eapply at_step; [by eapply at_step|done]. }
  destruct r as [e|]; [|cbv [mret prog_ret] in E; by simplify_eq].
  apply prog_bind_Done in E as (wl6 & [s2 err] & E6 & E). cbv [mret prog_ret] in E. simplify_eq.
  by apply closing_wrap in E6.
Qed.

Lemma Rcpt_ok s to wl wl' s' err :
  J s wl.2 -> session_Rcpt endp s to wl = (wl', Done (s', err)) -> J s' wl'.2.
Proof.
  intros HJ E. apply prog_bind_Done in E as (wl1 & [s1 err1] & E1 & E).
  apply deferred_ok in E1 as [HJ1 Hd]; [|done].
  destruct err1 as [e|]; [cbv [mret prog_ret] in E; by simplify_eq|].
  destruct (J_open _ _ (Hd eq_refl) HJ1) as (d0 & dom & Ed & Hh & Ha).
  apply prog_bind_Done in E as (wl2 & r & E2 & E).
  assert (Ha2 : at_state (Open (limit_ip s1) dom) wl2.2).
  { unfold session_rcpt in E2. destruct (_ && _); [cbv [mret prog_ret] in E2; by simplify_eq|].
    destruct (CleanDomain to) as [cleanTo [e|]]; [cbv [mret prog_ret] in E2; by simplify_eq|].
    apply prog_bind_Done in E2 as (wl3 & d & E3 & E2). apply the_Done in E3 as [E3 ->].
    rewrite Ed in E3. injection E3 as <-. apply logm_Done in E2. rewrite E2. by eapply at_step. }
  apply prog_bind_Done in E as (wl3 & mm & E3 & E). apply the_Done in E3 as [E3 ->].
  assert (HJ2 : forall s2, se_delivery s2 = se_delivery s1 -> upd s1 s2 -> J s2 wl2.2).
  { intros s2 _ Hu. eapply upd_J; [exact Hu|]. unfold J. rewrite Ed. eauto. }
  destruct r; cbv [mret prog_ret] in E; simplify_eq; by apply HJ2.
Qed.

Lemma Data_ok s r wl wl' s' err :
  is_Some (se_delivery s) -> J s wl.2 -> session_Data endp s r wl = (wl', Done (s', err)) -> J s' wl'.2.
Proof.
  intros Hd HJ E. apply prog_bind_Done in E as (wl1 & mm & E1 & E). apply the_Done in E1 as [_ ->].
  apply prog_bind_Done in E as (wl2 & [s2 res] & E2 & E).
  apply (quiet_Done _ _ _ _ _ (quiet_prepareBody _ _)) in E2 as [E2 Hu]. simpl in Hu.
  assert (HJ2 : J s2 wl2.2) by (rewrite E2; by eapply upd_J).
  destruct res as [[h buf]|e].
  - eapply finish_ok; [|exact E]. intros wl3 s3 a3. apply data_body_ok; [|done]. by rewrite (proj1 Hu).
  - apply (quiet_Done _ _ _ _ _ (quiet_wrap_data _ _)) in E as [-> Es]. simpl in Es. by subst s'.
Qed.

Lemma LMTPData_ok s r wl wl' s' p :
  is_Some (se_delivery s) -> J s wl.2 -> session_LMTPData endp s r wl = (wl', Done (s', p)) -> J s' wl'.2.
Proof.
  intros Hd HJ E. apply prog_bind_Done in E as (wl1 & mm & E1 & E). apply the_Done in E1 as [_ ->].
  apply prog_bind_Done in E as (wl2 & [s2 res] & E2 & E).
  apply (quiet_Done _ _ _ _ _ (quiet_prepareBody _ _)) in E2 as [E2 Hu]. simpl in Hu.
  assert (HJ2 : J s2 wl2.2) by (rewrite E2; by eapply upd_J).
  destruct res as [[h buf]|e].
  - eapply finish_ok; [|exact E]. intros wl3 s3 a3. apply lmtp_body_ok; [|done]. by rewrite (proj1 Hu).
  - apply prog_bind_Done in E as (wl3 & [s3 err] & E3 & E). cbv [mret prog_ret] in E. simplify_eq.
    apply (quiet_Done _ _ _ _ _ (quiet_wrap_data _ _)) in E3 as [-> Es]. simpl in Es. by subst s'.
Qed.

(** ** Whatever the order *)

Definition any_at (n : nat) (ph : dphase) (l : list sev) : Prop := any_run (O, false, DClosed) l = Some (n, false, ph).
Lemma any_at_step n ph l evs st : any_at n ph l -> any_run (n, false, ph) evs = Some st -> any_run (O, false, DClosed) (l ++ evs) = Some st.
Proof. unfold any_at. intros Ha Hs. by rewrite any_run_app, Ha. Qed.

Definition K (s : Session) (l : list sev) : Prop :=
  exists n ph, any_at n ph l /\
    match se_delivery s with
    | None => se_msgMeta s = None
    | Some d => (exists d0 : Delivery W, d = log_delivery d0) /\ is_Some (se_msgMeta s) /\ ph = DOpened /\ (0 < n)%nat
    end.
(** The end of DATA: tokens are out for the delivery, whatever it has become. *)
Definition K_closing (s : Session) (l : list sev) : Prop := is_Some (se_msgMeta s) /\ exists n ph, any_at (S n) ph l.

Lemma K_open s l : is_Some (se_delivery s) -> K s l ->
  exists d0 n, se_delivery s = Some (log_delivery d0) /\ is_Some (se_msgMeta s) /\ any_at (S n) DOpened l.
Proof.
  intros [d Ed] (n & ph & Ha & HK). rewrite Ed in HK. destruct HK as ([d0 ->] & Hm & -> & Hn).
  destruct n as [|n]; [lia|]. by exists d0, n.
Qed.
Lemma K_none s l : se_delivery s = None -> K s l -> se_msgMeta s = None.
Proof. intros Ed (n & ph & _ & HK). by rewrite Ed in HK. Qed.
Lemma K_same s s' l : se_delivery s' = se_delivery s -> se_msgMeta s' = se_msgMeta s -> K s l -> K s' l.
Proof. intros E1 E2 (n & ph & Ha & HK). exists n, ph. by rewrite E1, E2. Qed.
Lemma upd_K s s' l : is_Some (se_delivery s) -> upd s s' -> K s l -> K s' l.
Proof.
  intros [d Ed] (E1 & _ & _ & Hm) (n & ph & Ha & HK). exists n, ph. split; [done|]. rewrite E1. rewrite Ed in *.
  destruct HK as (? & ? & ? & ?). auto.
Qed.

Lemma cleanSession_any s wl wl' s' :
  K_closing s wl.2 -> cleanSession endp s wl = (wl', Done s') -> K s' wl'.2 /\ se_delivery s' = None.
Proof.
  intros ([mm Hmm] & n & ph & Ha) (wl1 & u & E1 & E2)%prog_bind_Done.
  cbv [mret prog_ret] in E2. simplify_eq/=. split; [|done]. unfold K. simpl.
  unfold releaseLimits in E1. destruct (if decide (se_mailFrom s = "") then _ else _) as [domain|e].
  - apply prog_bind_Done in E1 as (wl2 & u' & E1 & E2). rewrite Hmm in E1. cbv [the mret prog_ret] in E1. simplify_eq/=.
    apply logm_Done in E2. rewrite E2. exists n, ph. split; [|done]. by eapply any_at_step.
  - cbv [mret prog_ret] in E1. simplify_eq. by exists (S n), ph.
Qed.

Lemma Reset_any s wl wl' s' : K s wl.2 -> session_Reset endp s wl = (wl', Done s') -> K s' wl'.2 /\ se_delivery s' = None.
Proof.
  intros HK E. unfold session_Reset in E. destruct (se_delivery s) as [d|] eqn:Ed; [|cbv [mret prog_ret] in E; by simplify_eq].
  destruct (K_open s _ ltac:(by eexists) HK) as (d0 & n & Ed0 & Hm & Ha). simplify_eq.
  apply prog_bind_Done in E as (wl1 & d' & E1 & E). apply the_Done in E1 as [E1 ->]. rewrite Ed in E1. injection E1 as <-.
  apply prog_bind_Done in E as (wl2 & r & E2 & E). apply logm_Done in E2.
  apply prog_bind_Done in E as (wl3 & mm & E3 & E). apply the_Done in E3 as [E3 ->].
  eapply cleanSession_any; [|exact E]. split; [done|]. exists n, DClosed. rewrite E2. by eapply any_at_step.
Qed.

Lemma startDelivery_any s from opts wl wl' s' id err :
  K s wl.2 -> startDelivery endp s from opts wl = (wl', Done (s', (id, err))) ->
  K s' wl'.2 /\ match err with Some _ => s' = s | None => is_Some (se_delivery s') end.
Proof.
  intros HK E.
  apply prog_bind_Done in E as (wl1 & r & E1 & E). apply (quiet_Done _ _ _ _ _ (quiet_nolog _)) in E1 as [E1 _].
  destruct r as [mid|e]; [|cbv [mret prog_ret] in E; simplify_eq; by rewrite E1].
  destruct (clean_sender from opts) as [[c dom]|e]; [|cbv [mret prog_ret] in E; simplify_eq; by rewrite E1].
  apply prog_bind_Done in E as (wl2 & r & E2 & E). apply logm_Done in E2.
  destruct r as [e|]; [cbv [mret prog_ret] in E; simplify_eq; by rewrite E2, app_nil_r, E1|].
  apply prog_bind_Done in E as (wl3 & r & E3 & E). apply prog_bind_Done in E3 as (wl4 & r' & E4 & E3).
  apply logm_Done in E4. cbv [mret prog_ret] in E3. simplify_eq.
  destruct HK as (n & ph & Ha & HK). destruct r' as [d0|e].
  - cbv [mret prog_ret] in E. simplify_eq. split; [|by eexists]. exists (S n), DOpened.
    rewrite E4, E2, E1, <- app_assoc. split; [by eapply any_at_step|]. simpl. split; [by eexists|]. split; [by eexists|]. split; [done|lia].
  - apply prog_bind_Done in E as (wl5 & u & E5 & E). apply logm_Done in E5.
    cbv [mret prog_ret] in E. simplify_eq. split; [|done]. exists n, ph.
    rewrite E5, E4, E2, E1, <- !app_assoc. split; [by eapply any_at_step|exact HK].
Qed.

Lemma Mail_any s from opts wl wl' s' err : K s wl.2 ->
  session_Mail endp ErrAuthRequired s from opts wl = (wl', Done (s', err)) -> K s' wl'.2.
Proof.
  intros HK E. unfold session_Mail in E.
  destruct (_ && _); [cbv [mret prog_ret] in E; by simplify_eq|].
  destruct (ep_deferServerReject endp); [cbv [mret prog_ret] in E; by simplify_eq|].
  apply prog_bind_Done in E as (wl1 & [s1 [id err1]] & E1 & E). apply startDelivery_any in E1 as [HK1 _]; [|done].
  destruct err1; cbv [mret prog_ret] in E; by simplify_eq.
Qed.

Lemma Rcpt_any s to wl wl' s' err : K s wl.2 -> session_Rcpt endp s to wl = (wl', Done (s', err)) -> K s' wl'.2.
Proof.
  intros HK E. apply prog_bind_Done in E as (wl1 & [s1 err1] & E1 & E).
  assert (HK1 : K s1 wl1.2 /\ (err1 = None -> is_Some (se_delivery s1))).
  { unfold deferred_start in E1. destruct (se_delivery s) as [d|] eqn:Ed.
    { cbv [mret prog_ret] in E1. simplify_eq. rewrite Ed. split; [done|by eexists]. }
    destruct (se_deliveryErr s) as [e|] eqn:Ee; [cbv [mret prog_ret] in E1; simplify_eq; split; [by eapply K_same, HK|done]|].
    apply prog_bind_Done in E1 as (wl2 & [s2 [id err2]] & E2 & E1). apply startDelivery_any in E2 as [HK2 Hs2]; [|done].
    destruct err2 as [e|]; [|cbv [mret prog_ret] in E1; by simplify_eq].
    pose proof (wrapErr_Some (ep_EnhancedCodeNotSet ep0) id (negb (mo_UTF8 (se_opts s2))) e) as Hw.
    revert Hw E1. unfold session_wrapErr. simpl ep_EnhancedCodeNotSet. generalize (wrapErr (ep_EnhancedCodeNotSet ep0) id (negb (mo_UTF8 (se_opts s2))) (Some e)).
    intros wrapped Hw E1. cbv [mret prog_ret] in E1. simplify_eq. split; [done|]. by intros ->. }
  destruct HK1 as [HK1 Hd]. destruct err1 as [e|]; [cbv [mret prog_ret] in E; by simplify_eq|].
  destruct (K_open _ _ (Hd eq_refl) HK1) as (d0 & n & Ed & Hm & Ha).
  apply prog_bind_Done in E as (wl2 & r & E2 & E).
  assert (Ha2 : any_at (S n) DOpened wl2.2).
  { unfold session_rcpt in E2. destruct (_ && _); [cbv [mret prog_ret] in E2; by simplify_eq|].
    destruct (CleanDomain to) as [cleanTo [e|]]; [cbv [mret prog_ret] in E2; by simplify_eq|].
    apply prog_bind_Done in E2 as (wl3 & d & E3 & E2). apply the_Done in E3 as [E3 ->].
    rewrite Ed in E3. injection E3 as <-. apply logm_Done in E2. rewrite E2. by eapply any_at_step. }
  apply prog_bind_Done in E as (wl3 & mm & E3 & E). apply the_Done in E3 as [E3 ->].
  assert (HK2 : K s1 wl2.2) by (exists (S n), DOpened; split; [done|]; rewrite Ed; split_and!; [by eexists|done|done|lia]).
  destruct r; cbv [mret prog_ret] in E; simplify_eq; [|done]. by eapply K_same, HK2.
Qed.

Lemma K_closing_wrap s err wl wl' p : K_closing s wl.2 -> wrap_data endp s err wl = (wl', Done p) -> K_closing p.1 wl'.2.
Proof. intros Hc E. apply (quiet_Done _ _ _ _ _ (quiet_wrap_data _ _)) in E as [-> ->]. done. Qed.

Lemma finish_any {A} buf (m : Prog Wl (Session * A)) wl wl' s' a :
  (forall wl1 s1 a1, m wl = (wl1, Done (s1, a1)) -> K_closing s1 wl1.2) ->
  finish endp buf m wl = (wl', Done (s', a)) -> K s' wl'.2.
Proof.
  intros Hm E. apply prog_bind_Done in E as (wl1 & [s1 a1] & E1 & E). apply Hm in E1.
  apply prog_bind_Done in E as (wl2 & u & E2 & E).
  apply (quiet_Done _ _ _ _ _ (quiet_nolog _)) in E2 as [E2 _]. rewrite <- E2 in E1.
  apply prog_bind_Done in E as (wl3 & s3 & E3 & E). cbv [mret prog_ret] in E. simplify_eq.
  by eapply cleanSession_any.
Qed.

Lemma data_body_any s h buf wl wl' s' err :
  is_Some (se_delivery s) -> K s wl.2 -> data_body endp s h buf wl = (wl', Done (s', err)) -> K_closing s' wl'.2.
Proof.
  intros Hd HK E. unfold data_body in E. destruct (K_open _ _ Hd HK) as (d0 & n & Ed & Hm & Ha).
  destruct (checkRoutingLoops endp h) as [e|]; [apply K_closing_wrap in E; [done|]; split; [done|]; by exists n, DOpened|].
  apply prog_bind_Done in E as (wl1 & s1 & E1 & E).
  apply (quiet_Done _ _ _ _ _ (quiet_tls _ _)) in E1 as [E1 Hu]. rewrite <- E1 in Ha.
  destruct Hu as (Hud & _ & _ & Hum). specialize (Hum Hm).
  apply prog_bind_Done in E as (wl2 & d & E2 & E). apply the_Done in E2 as [E2 ->].
  rewrite Hud, Ed in E2. injection E2 as <-.
  apply prog_bind_Done in E as (wl3 & r & E3 & E). apply logm_Done in E3.
  destruct r as [e|].
  { apply K_closing_wrap in E; [done|]. split; [done|]. exists n, DClosed. rewrite E3. by eapply any_at_step. }
  apply prog_bind_Done in E as (wl4 & r & E4 & E). apply logm_Done in E4.
  assert (Hc : K_closing s1 wl4.2).
  { split; [done|]. exists n, DClosed. rewrite E4, E3, <- app_assoc. by eapply any_at_step. }
  destruct r as [e|]; [by apply K_closing_wrap in E|]. cbv [mret prog_ret] in E. by simplify_eq.
Qed.

Lemma lmtp_body_any s h buf wl wl' s' p :
  is_Some (se_delivery s) -> K s wl.2 -> lmtp_body endp s h buf wl = (wl', Done (s', p)) -> K_closing s' wl'.2.
Proof.
  intros Hd HK E. unfold lmtp_body in E. destruct (K_open _ _ Hd HK) as (d0 & n & Ed & Hm & Ha).
  apply prog_bind_Done in E as (wl1 & s1 & E1 & E).
  apply (quiet_Done _ _ _ _ _ (quiet_tls _ _)) in E1 as [E1 Hu]. rewrite <- E1 in Ha.
  destruct Hu as (Hud & _ & _ & Hum). specialize (Hum Hm).
  destruct (checkRoutingLoops endp h) as [e|].
  { apply prog_bind_Done in E as (wl2 & [s2 err] & E2 & E). cbv [mret prog_ret] in E. simplify_eq.
    apply K_closing_wrap in E2; [done|]. split; [done|]. by exists n, DOpened. }
  apply prog_bind_Done in E as (wl2 & d & E2 & E). apply the_Done in E2 as [E2 ->].
  rewrite Hud, Ed in E2. injection E2 as <-. simpl in E.
  destruct (dl_BodyNonAtomic d0) as [body|]; [|by cbv [panic] in E].
  apply prog_bind_Done in E as (wl3 & sts & E3 & E). apply logm_Done in E3.
  apply prog_bind_Done in E as (wl4 & mm & E4 & E). apply the_Done in E4 as [E4 ->].
  apply prog_bind_Done in E as (wl5 & r & E5 & E). apply logm_Done in E5.
  assert (Hc : K_closing s1 wl5.2).
  { split; [done|]. exists n, DClosed. rewrite E5, E3, <- app_assoc. by eapply any_at_step. }
  destruct r as [e|]; [|cbv [mret prog_ret] in E; by simplify_eq].
  apply prog_bind_Done in E as (wl6 & [s2 err] & E6 & E). cbv [mret prog_ret] in E. simplify_eq.
  by apply K_closing_wrap in E6.
Qed.

(** DATA without a delivery panics on the meta-data: what returns had one. *)
Lemma the_meta_open s l (wl wl' : Wl) mm : K s l -> the (se_msgMeta s) wl = (wl', Done mm) -> is_Some (se_delivery s).
Proof.
  intros HK [E _]%the_Done. destruct (se_delivery s) as [d|] eqn:Ed; [by eexists|].
  apply K_none in HK; [congruence|done].
Qed.
Lemma Data_open s r wl wl' p : K s wl.2 -> session_Data endp s r wl = (wl', Done p) -> is_Some (se_delivery s).
Proof. intros HK (wl1 & mm & E1 & _)%prog_bind_Done. by eapply the_meta_open. Qed.
Lemma LMTPData_open s r wl wl' p : K s wl.2 -> session_LMTPData endp s r wl = (wl', Done p) -> is_Some (se_delivery s).
Proof. intros HK (wl1 & mm & E1 & _)%prog_bind_Done. by eapply the_meta_open. Qed.

Lemma Data_any s r wl wl' s' err : K s wl.2 -> session_Data endp s r wl = (wl', Done (s', err)) -> K s' wl'.2.
Proof.
  intros HK E. pose proof (Data_open _ _ _ _ _ HK E) as Hd. apply prog_bind_Done in E as (wl1 & mm & E1 & E). apply the_Done in E1 as [_ ->].
  apply prog_bind_Done in E as (wl2 & [s2 res] & E2 & E).
  apply (quiet_Done _ _ _ _ _ (quiet_prepareBody _ _)) in E2 as [E2 Hu]. simpl in Hu.
  assert (HK2 : K s2 wl2.2) by (rewrite E2; by eapply upd_K).
  destruct res as [[h buf]|e].
  - eapply finish_any; [|exact E]. intros wl3 s3 a3. apply data_body_any; [|done]. by rewrite (proj1 Hu).
  - apply (quiet_Done _ _ _ _ _ (quiet_wrap_data _ _)) in E as [-> Es]. simpl in Es. by subst s'.
Qed.
Lemma LMTPData_any s r wl wl' s' p : K s wl.2 -> session_LMTPData endp s r wl = (wl', Done (s', p)) -> K s' wl'.2.
Proof.
  intros HK E. pose proof (LMTPData_open _ _ _ _ _ HK E) as Hd. apply prog_bind_Done in E as (wl1 & mm & E1 & E). apply the_Done in E1 as [_ ->].
  apply prog_bind_Done in E as (wl2 & [s2 res] & E2 & E).
  apply (quiet_Done _ _ _ _ _ (quiet_prepareBody _ _)) in E2 as [E2 Hu]. simpl in Hu.
  assert (HK2 : K s2 wl2.2) by (rewrite E2; by eapply upd_K).
  destruct res as [[h buf]|e].
  - eapply finish_any; [|exact E]. intros wl3 s3 a3. apply lmtp_body_any; [|done]. by rewrite (proj1 Hu).
  - apply prog_bind_Done in E as (wl3 & [s3 err] & E3 & E). cbv [mret prog_ret] in E. simplify_eq.
    apply (quiet_Done _ _ _ _ _ (quiet_wrap_data _ _)) in E3 as [-> Es]. simpl in Es. by subst s'.
Qed.

(** ** The commands of a session *)

(** Any command at any time; the reply does not matter.  The flag says that the session
    was orderly so far: it may stay true unless MAIL is given while a delivery is open
    or, without deferred rejection, with a sender whose domain is not in canonical form. *)
Definition orderly_mail (s : Session) (from : string) : Prop :=
  se_delivery s = None /\ (ep_deferServerReject ep0 = true \/ stable_sender from).
Inductive session_step : bool * Session * Wl -> bool * Session * Wl -> Prop :=
| step_Auth ok s user pass wl wl' s' err :
    session_AuthPlain endp s user pass wl = (wl', Done (s', err)) -> session_step (ok, s, wl) (ok, s', wl')
| step_Mail (ok ok' : bool) s from opts wl wl' s' err :
    (ok' = true -> ok = true /\ orderly_mail s from) ->
    session_Mail endp ErrAuthRequired s from opts wl = (wl', Done (s', err)) -> session_step (ok, s, wl) (ok', s', wl')
| step_Rcpt ok s to wl wl' s' err :
    session_Rcpt endp s to wl = (wl', Done (s', err)) -> session_step (ok, s, wl) (ok, s', wl')
| step_Data ok s r wl wl' s' err :
    session_Data endp s r wl = (wl', Done (s', err)) -> session_step (ok, s, wl) (ok, s', wl')
| step_LMTPData ok s r wl wl' s' p :
    session_LMTPData endp s r wl = (wl', Done (s', p)) -> session_step (ok, s, wl) (ok, s', wl')
| step_Reset ok s wl wl' s' :
    session_Reset endp s wl = (wl', Done s') -> session_step (ok, s, wl) (ok, s', wl').

Lemma Auth_same s user pass wl wl' s' err :
  session_AuthPlain endp s user pass wl = (wl', Done (s', err)) -> wl'.2 = wl.2 /\ (s' = s \/ s' = set_auth user pass s).
Proof.
  intros E. apply prog_bind_Done in E as (wl1 & r & E1 & E).
  apply (quiet_Done _ _ _ _ _ (quiet_nolog _)) in E1 as [E1 _].
  destruct r as [e|]; [cbv [mret prog_ret] in E; simplify_eq; rewrite E1; auto|].
  apply prog_bind_Done in E as (wl2 & r & E2 & E).
  apply (quiet_Done _ _ _ _ _ (quiet_nolog _)) in E2 as [E2 _].
  destruct r as [e|]; cbv [mret prog_ret] in E; simplify_eq; rewrite E2, E1; auto.
Qed.

Definition session_inv (x : bool * Session * Wl) : Prop := K x.1.2 x.2.2 /\ (x.1.1 = true -> J x.1.2 x.2.2).

Lemma session_step_inv x y : session_step x y -> session_inv x -> session_inv y.
Proof.
  intros Hs [HK HJ]. inversion Hs as [ok s user pass wl wl' s' err E|ok ok' s from opts wl wl' s' err Hok E|ok s to wl wl' s' err E
    |ok s r wl wl' s' err E|ok s r wl wl' s' p E|ok s wl wl' s' E]; subst; cbn in HK, HJ; split; cbn.
  - apply Auth_same in E as [-> [->| ->]]; [done|]. by eapply K_same, HK.
  - intros Ht. specialize (HJ Ht). by apply Auth_same in E as [-> [->| ->]].
  - by eapply Mail_any.
  - intros [-> [Hn Hf]]%Hok. specialize (HJ eq_refl). by eapply Mail_ok.
  - by eapply Rcpt_any.
  - intros Ht. specialize (HJ Ht). by eapply Rcpt_ok.
  - by eapply Data_any.
  - intros Ht. specialize (HJ Ht). eapply Data_ok; [|done|exact E]. by eapply Data_open.
  - by eapply LMTPData_any.
  - intros Ht. specialize (HJ Ht). eapply LMTPData_ok; [|done|exact E]. by eapply LMTPData_open.
  - by eapply Reset_any.
  - intros Ht. specialize (HJ Ht). by eapply Reset_ok.
Qed.

Lemma session_reachable_inv c ip w x : rtc session_step (true, new_session c ip, (w, [])) x -> session_inv x.
Proof.
  intros Hr. apply (rtc_ind_r session_inv (true, new_session c ip, (w, []))) in Hr; [exact Hr| |].
  - split; [|done]. by exists O, DClosed.
  - intros y z _ Hs. by apply session_step_inv.
Qed.

Lemma Logout_Reset s wl wl' s' : session_Logout endp s wl = (wl', Done s') ->
  exists wl1, session_Reset endp s wl = (wl1, Done s') /\ wl'.2 = wl1.2.
Proof.
  intros (wl1 & s1 & E1 & E)%prog_bind_Done. apply prog_bind_Done in E as (wl2 & u & E2 & E).
  apply (quiet_Done _ _ _ _ _ (quiet_nolog _)) in E2 as [E2 _]. cbv [mret prog_ret] in E. simplify_eq. by exists wl1.
Qed.

(** C4: Whatever commands a session runs, in whatever order and with whatever answers,
    a MAIL in an open transaction included: tokens are taken before each start of the
    pipeline, are out while a delivery is open, and are never given back more often
    than they were taken; what is called after a successful start, up to the next one, are
    the calls of one delivery: recipients, then a body, then Commit, or else Abort, and
    nothing after its end.  In an orderly
    session (no MAIL while a delivery is open; without deferred rejection, senders
    whose domain is in canonical form, since Mail replaces the clean sender by the raw
    one) tokens and deliveries follow the transaction automaton: one delivery is open
    at a time, every transaction ends by giving back exactly the tokens it took, under
    the same address and domain, and a session that logs out holds none. *)
Theorem session_transactions c ip w ok s w' l :
  rtc session_step (true, new_session c ip, (w, [])) (ok, s, (w', l)) ->
  (exists n ph, any_run (O, false, DClosed) l = Some (n, false, ph) /\
     (is_Some (se_delivery s) -> ph = DOpened /\ (0 < n)%nat)) /\
  (ok = true ->
   match se_delivery s with
   | None => tx_run Idle l = Some Idle
   | Some _ => exists dom, tx_run Idle l = Some (Open (limit_ip s) dom)
   end /\
   forall w2 l2 s', session_Logout endp s (w', l) = ((w2, l2), Done s') -> tx_run Idle l2 = Some Idle).
Proof.
  intros [HK HJ]%session_reachable_inv. cbn in HK, HJ. split.
  { destruct HK as (n & ph & Ha & HK). exists n, ph. split; [done|]. intros [d Ed]. rewrite Ed in HK. tauto. }
  intros Hok. specialize (HJ Hok). split.
  - unfold J in HJ. destruct (se_delivery s); [|done]. destruct HJ as [_ (dom & _ & Ha)]. by exists dom.
  - intros w2 l2 s' E. apply Logout_Reset in E as (wl1 & E1 & E). cbn in E.
    apply Reset_ok in E1 as [HJ1 Hnone]; [|done]. unfold J in HJ1. rewrite Hnone in HJ1. by rewrite E.
Qed.
End Invariant.

(** ** A deferred error sticks *)

Section Sticky.
Context `{Textproto} `{UnicodeTables} `{TextLib} {W : Type} (endp : Endpoint W) (ErrAuthRequired : gerror).

(** With deferred rejection, once the start of a delivery has failed, the
    session keeps that error: Reset does not clear it, and the first recipient of
    every later transaction, whatever its sender, is refused with the old error
    without asking the pipeline. *)
Theorem deferred_error_sticks (s : Session W) e from opts to w w1 s1 r :
  se_delivery s = None -> se_deliveryErr s = Some e -> ep_deferServerReject endp = true ->
  (s ← session_Reset endp s; session_Mail endp ErrAuthRequired s from opts) w = (w1, Done (s1, r)) ->
  w1 = w /\ exists s2, session_Rcpt endp s1 to w = (w, Done (s2, Some e)) /\
    se_delivery s2 = None /\ se_deliveryErr s2 = Some e.
Proof.
  intros Hd He Hdefer E. apply prog_bind_Done in E as (w2 & s2 & E1 & E).
  unfold session_Reset in E1. rewrite Hd in E1. cbv [mret prog_ret] in E1. simplify_eq.
  assert (Hs1 : w1 = w2 /\ se_delivery s1 = None /\ se_deliveryErr s1 = Some e).
  { unfold session_Mail in E. destruct (_ && _); [|rewrite Hdefer in E];
      cbv [mret prog_ret] in E; by simplify_eq/=. }
  destruct Hs1 as (-> & Hd1 & He1). split; [done|]. exists (count_mailErr s1).
  split; [|by simpl]. unfold session_Rcpt, deferred_start. rewrite Hd1, He1. done.
Qed.
End Sticky.

(** ** Witnesses *)

#[local] Existing Instances list_textproto ascii_tables identity_text.

Definition accepting : DeliveryTarget unit :=
  mkTarget (fun _ _ => mret (Ok (mkDelivery (fun _ => mret None) (fun _ _ => mret None) None (mret None) (mret None)))).
Definition sample_endpoint (defer : bool) (t : DeliveryTarget unit) : Endpoint unit :=
  mkEndpoint false false defer 5 50 1048576 "mx.example.org" (Ench 0 0 0)
    (fun _ => mret None) (fun _ _ => mret None) t (fun _ _ => mret None) (fun _ _ => mret tt)
    (mret (Ok "1a2b3c4d")) (mret (Ok "id")) (mret "Mon, 2 Jan 2006 15:04:05 -0700")
    (fun r _ _ => Ok ([], r)) (fun r => mret (Ok (MemoryBuffer r))) (fun _ => mret None) (fun _ => mret tt)
    (fun s => Ok s) (fun s => Ok [s]) (fun _ _ => Ok 0) (fun _ => mret tt).
Definition sample_conn : ConnState := mkConnState "ESMTP" "client.example.com" (Some "192.0.2.1:1025") "" "".
Definition auth_required : gerror := go_smtp_error 502 (Ench 5 7 0) "Please authenticate first".

Definition sample_session_log : list sev :=
  [ETake "192.0.2.1" "example.org"; EStart None; ERcpt None; EBody None; ECommit None;
   ERelease "192.0.2.1" "example.org"].

Lemma session_transactions_witness :
  exists s, rtc (session_step (sample_endpoint true accepting) auth_required)
    (true, new_session sample_conn (Some "192.0.2.1"), (tt, [])) (true, s, (tt, sample_session_log)) /\
  tx_run Idle sample_session_log = Some Idle.
Proof.
  assert (Hrun : exists s, se_delivery s = None /\ rtc (session_step (sample_endpoint true accepting) auth_required)
    (true, new_session sample_conn (Some "192.0.2.1"), (tt, [])) (true, s, (tt, sample_session_log))).
  { eexists. split; [|eapply rtc_l; [|eapply rtc_l; [|eapply rtc_once]]].
    2: eapply (step_Mail _ _ true true _ "Alice@EXAMPLE.org" (mkMailOptions 0 false false)); [intros _; split; [reflexivity|split; [reflexivity|by left]]|reflexivity].
    2: eapply (step_Rcpt _ _ _ _ "bob@example.com"); vm_compute; reflexivity.
    2: eapply (step_Data _ _ _ _ "hello"); vm_compute; reflexivity.
    reflexivity. }
  destruct Hrun as (s & Hs & Hr). exists s. split; [exact Hr|].
  pose proof (proj1 (proj2 (session_transactions _ _ _ _ _ _ _ _ _ Hr) eq_refl)) as E. rewrite Hs in E. exact E.
Defined.

(** A second MAIL in an open transaction.  Without deferred rejection the first delivery
    is neither committed nor aborted and its tokens stay out. *)
Example nested_MAIL_leaks :
  match (m ← session_Mail (log_endpoint (sample_endpoint false accepting)) auth_required
           (new_session sample_conn (Some "192.0.2.1")) "a@example.org" (mkMailOptions 0 false false);
         m ← session_Mail (log_endpoint (sample_endpoint false accepting)) auth_required m.1 "b@example.net" (mkMailOptions 0 false false);
         session_Logout (log_endpoint (sample_endpoint false accepting)) m.1) (tt, []) with
  | ((_, l), Done _) => l = [ETake "192.0.2.1" "example.org"; EStart None; ETake "192.0.2.1" "example.net"; EStart None;
                             EAbort None; ERelease "192.0.2.1" "example.net"] /\ any_run (O, false, DClosed) l = Some (1%nat, false, DClosed)
  | _ => False
  end.
Proof. split; vm_compute; reflexivity. Qed.
(** With it the old delivery stays in use, and the tokens are given back for the domain
    of the new sender. *)
Example nested_MAIL_wrong_domain :
  match (m ← session_Mail (log_endpoint (sample_endpoint true accepting)) auth_required
           (new_session sample_conn (Some "192.0.2.1")) "a@example.org" (mkMailOptions 0 false false);
         m ← session_Rcpt (log_endpoint (sample_endpoint true accepting)) m.1 "c@example.com";
         m ← session_Mail (log_endpoint (sample_endpoint true accepting)) auth_required m.1 "b@example.net" (mkMailOptions 0 false false);
         session_Logout (log_endpoint (sample_endpoint true accepting)) m.1) (tt, []) with
  | ((_, l), Done _) => l = [ETake "192.0.2.1" "example.org"; EStart None; ERcpt None; EAbort None; ERelease "192.0.2.1" "example.net"]
  | _ => False
  end.
Proof. vm_compute. reflexivity. Qed.

(** Without deferred rejection, a sender whose domain is not in canonical form
    leaves its tokens taken. *)
Example Mail_leaks_tokens :
  match (m ← session_Mail (log_endpoint (sample_endpoint false accepting)) auth_required
           (new_session sample_conn (Some "192.0.2.1")) "alice@EXAMPLE.org" (mkMailOptions 0 false false);
         session_Reset (log_endpoint (sample_endpoint false accepting)) m.1) (tt, []) with
  | ((_, l), Done _) => l = [ETake "192.0.2.1" "example.org"; EStart None; EAbort None;
                             ERelease "192.0.2.1" "EXAMPLE.org"] /\ tx_run Idle l = None
  | _ => False
  end.
Proof. split; vm_compute; reflexivity. Qed.

(** A delivery whose body is refused is neither aborted nor committed. *)
Definition refusing_body : DeliveryTarget unit :=
  mkTarget (fun _ _ => mret (Ok (mkDelivery (fun _ => mret None) (fun _ _ => mret (Some (ENew "spam"))) None
    (mret None) (mret None)))).
Example Data_drops_refused_body :
  match (m ← session_Mail (log_endpoint (sample_endpoint true refusing_body)) auth_required
           (new_session sample_conn (Some "192.0.2.1")) "a@example.org" (mkMailOptions 0 false false);
         m ← session_Rcpt (log_endpoint (sample_endpoint true refusing_body)) m.1 "b@example.com";
         session_Data (log_endpoint (sample_endpoint true refusing_body)) m.1 "hello") (tt, []) with
  | ((_, l), Done _) => l = [ETake "192.0.2.1" "example.org"; EStart None; ERcpt None;
                             EBody (Some (ENew "spam")); ERelease "192.0.2.1" "example.org"]
  | _ => False
  end.
Proof. vm_compute. reflexivity. Qed.

Definition stuck_session : Session unit :=
  set_deliveryErr (Some (go_smtp_error 550 (Ench 5 7 1) "blocked")) (new_session sample_conn None).

Lemma deferred_error_sticks_witness :
  exists s2, session_Rcpt (sample_endpoint true accepting)
      (set_mail "a@example.org" (mkMailOptions 0 false false) stuck_session) "b@example.com" tt
    = (tt, Done (s2, Some (go_smtp_error 550 (Ench 5 7 1) "blocked"))).
Proof.
  destruct (deferred_error_sticks (sample_endpoint true accepting) auth_required stuck_session
    (go_smtp_error 550 (Ench 5 7 1) "blocked") "a@example.org" (mkMailOptions 0 false false) "b@example.com" tt tt
    (set_mail "a@example.org" (mkMailOptions 0 false false) stuck_session) None) as [_ (s2 & E & _)];
    [reflexivity..|].
  exists s2. exact E.
Defined.
